(* ===== verification/_CoqProject ===== *)
-Q . S2P
Prelude.v
Facts.v
Contract.v
Approval.v
Validation.v
Transition.v
Delta.v
Sizes.v
Ports.v
EventStore.v
Samples.v
Backend.v
ApprovalJournal.v
ApprovalQueue.v
ApprovalMachine.v
ApprovalLifecycle.v
ApprovalAuthority.v
ApprovalSamples.v
WaitRegistry.v
Coordinator.v
CoordinatorSafety.v
Permissions.v
Negotiator.v
LeaseSafety.v
Evidence.v
ToolEffect.v
ToolGate.v
ToolAuthority.v
ApprovalChain.v
GateSamples.v
CoordinatorSamples.v
StateStore.v
Commit.v
Durability.v
Operations.v
History.v
Commands.v
Dependency.v
Scheduler.v
Terminal.v
ServiceSamples.v
ScopeLock.v
Adaptive.v
Resources.v
Admission.v
AgentAction.v
AgentProgram.v
SafetyFuse.v
TokenLease.v
Budget.v
BudgetSafety.v
BudgetSamples.v
SessionPresence.v
PresenceSafety.v
PresenceFaults.v
WriterLease.v
SessionAdmission.v
PresenceSamples.v
WorkMarket.v
AgentRoster.v
ProgramAuthority.v
ProgramJournal.v
WorkWalks.v
TaskMachine.v
TaskLife.v
ProgramSafety.v
ProgramHistory.v
ProgramRoster.v
ProgramCompletion.v
ProgramReplay.v
ProgramFaults.v
ProgramProperties.v
ProgramSamples.v
