(* ===== verification/Prelude.v ===== *)
(** * Cowd runtime core: a verification library

    Cowd is an agent runtime.  This library models the part of it that decides
    what may run and remembers what did: the execution graphs of
    [crates/runtime] and their durable history, the approval queue, the
    authorization of tool calls, and the admission of work to locks and
    resources.  Every decision of these services is appended as a transaction to
    an event store before it becomes visible in memory, and a restart replays
    the streams of that store.

    ** The parts and how they interact

    Graphs and their history:
    - [Facts], [Contract]: the data of [harness-contract/src]
      ([execution_graph/contract.rs], [context/mod.rs], [acceptance.rs],
      [outcome.rs], [turn.rs], ...), field by field.
    - [Validation] ([execution_graph/validation.rs]): the checks and the
      in-degree peeling of [validate_execution_graph], against the specification
      [WellFormed]; [Transition] ([execution_graph/state.rs]): the status machine.
    - [Delta] ([graph/events.rs]): graph events, deltas and their application;
      [Sizes] ([hot_state/graph.rs], [commit_pipeline.rs]): size estimates and the
      checkpoint decision.
    - [Ports] ([event_store/ports.rs], [domain.rs]): transactions and their
      validation; [EventStore] ([event_store/ephemeral.rs]): the in-process
      backend; [Backend]: the interface [EventBackend] and its laws, which
      [EventStore] satisfies.
    - [StateStore] ([graph/state_store.rs]): replay of a graph stream, the hot
      registry; [Commit] ([graph/commit_service.rs], [commit_pipeline.rs],
      [recovery.rs]): every operation of the commit service, split as the code is
      into a preparation and an append.
    - [Durability], [Operations], [History], [Commands]: the contract of the
      commit service, proved against [EventBackend] only.
    - [Dependency] ([graph/runner.rs]): dependency policies, lanes, quorum tails;
      [Scheduler]: the loop [advance_dependencies]; [Terminal]: the terminal
      commit of a node, and where replay and the published graph part.

    Approvals:
    - [Approval] ([policy/approval.rs], [approval/router.rs],
      [approval/coordinator.rs]): requests, grants, risk, routing, and the match of
      a grant with a context.
    - [ApprovalJournal], [ApprovalQueue] ([approval/approval_queue.rs]): replay of
      approvals, and every operation of the queue as a plan (what is appended) and
      its effect on the cache.
    - [ApprovalMachine], [ApprovalLifecycle], [ApprovalAuthority]: the state
      machine of one approval, the proof that each operation is one of its moves,
      and the authority of a grant over every history of a queue with other
      writers.
    - [WaitRegistry], [Coordinator] ([approval/coordinator.rs]): the registry of
      waiters as interleaved steps; how a call is answered, by a grant there is, by
      the router or the steward, or by waiting.  [CoordinatorSafety]: what an
      answer rests on, with other tasks between any two operations.

    Authorization of tool calls:
    - [Permissions] ([policy/permissions.rs], [policy/mod.rs]): the session policy,
      rules, and the route of a call.
    - [Negotiator] ([policy/authorization_negotiator.rs]): the lease registry;
      [LeaseSafety]: its invariant over every sequence of its operations.
    - [Evidence] (same file, and [conversation/turn_engine.rs]): lease transitions
      and recovery claims on the event store, with their retry loops.
    - [ToolEffect] ([tools/src/state/tool_orchestrator.rs]): the effect of a call
      and the command classifier.
    - [ToolGate] ([tooling/tool_policy.rs], [tools/src/host.rs],
      [conversation/turn_engine.rs]): one call from its description to the
      boundary of the host; [ToolAuthority]: what that gate guarantees.
    - [ApprovalChain]: the question a turn asks the coordinator and what it does
      with the answer, across [ToolGate] and [Coordinator].

    Admission:
    - [ScopeLock] ([graph/resources/scope_lock.rs]): the scope lock manager.
    - [Adaptive], [Resources], [Admission] ([graph/resources/manager.rs]): the
      adaptive limit, the operations of the resource manager, and their invariant.

    Budgets:
    - [SafetyFuse] ([execution_core/safety_fuse.rs], [conversation/host_backend.rs]):
      the critical section at the start of a model step, in which the fuse, the
      isolated synthesis, the recoveries of a delegated protocol and the bounds of
      a collaboration are decided.
    - [TokenLease] ([conversation/conversation.rs]): the token lease of a session
      and its reservations, over every interleaving of requests.
    - [Budget], [BudgetSafety] ([execution_core/budget.rs], [context/mod.rs]): the
      durable ledger of an execution's budget, its two compare-and-swap loops, and
      the map of charges that every history of its stream refines.

    Sessions:
    - [SessionPresence] ([session/src/lifecycle.rs], [session-postgres/src/lifecycle.rs]):
      which surfaces are attached to a session, in the memory of a process and in
      a row shared by all; [PresenceSafety]: every history of that row refines an
      abstract presence; [PresenceFaults]: where it fails.
    - [WriterLease] ([session/src/lease.rs]): who may write, alone or together.
    - [SessionAdmission] ([gateway/src/api_routes]): the admission of a writer and
      the routes that attach, detach, acquire and release, on both.

    Collaboration programs ([agentic]):
    - [AgentAction] ([harness-contract/src/agent_action.rs]): what an agent or the
      root may ask for, and the form of the request; [AgentProgram]
      ([agentic/program.rs], [coordination.rs]): a program with its roster, tasks,
      topics and artifacts.
    - [WorkMarket] ([agentic/work_market.rs]), [AgentRoster] ([roster.rs],
      [topic.rs], [issues.rs], [supervision.rs]): the effect of every action, and
      when a program may ask to be completed; [ProgramAuthority]
      ([action_service/authorization.rs], [delegation.rs]): the guards of every action.
    - [ProgramJournal] ([action_service.rs], [supervision.rs], [continuation.rs]): the
      journal of a program, its replay, the admission of an action, the conclusion,
      and the seed of a continuation.
    - [WorkWalks]: what the walks over the tasks compute; [TaskMachine], [TaskLife]:
      an admitted step as one move of one task, and the machine it follows;
      [ProgramSafety], [ProgramHistory], [ProgramRoster], [ProgramCompletion],
      [ProgramReplay]: what every journal keeps; [ProgramFaults]: two ways to wait
      forever; [ProgramProperties]: the theorems.

    Concrete instances and runs, at which the theorems are applied, are in
    [Samples], [ServiceSamples], [ApprovalSamples], [GateSamples],
    [CoordinatorSamples], [BudgetSamples], [PresenceSamples] and [ProgramSamples].

    ** Modelling conventions

    Fallible code returns [Result] (defined below, success first); code that can
    panic returns [Exec], whose [Panic] is a Rust panic and whose [OutOfFuel] is
    the model's bound on an unbounded loop; theorems show that neither is
    reached.  Stateful code passes its state explicitly and returns it also when
    it fails.  Integers are [N] with saturation or wrap-around written out at
    their width.  A [BTreeMap] is a [gmap] read in the byte order of its keys
    ([btree_entries]); a [Vec] is a list.  Async code is the sequence of its
    critical sections, each atomic under the lock that the code takes;
    interleavings of callers are sequences of steps.  What other processes
    commit between two steps of a retry loop is a function of the store
    ([env] in [Evidence], [ToolGate],
    [Budget] and [SessionPresence]), and so is what other tasks do between
    two operations of the coordinator ([Coordinator.Schedule]); the branches that
    its [select!] takes are a list ([Coordinator.Wake]).

    Code outside the repository is a parameter: JSON values and the derived
    serializers ([Ports.Json], [ApprovalJournal.ApprovalJson],
    [Negotiator.AuthorizationJson], [Evidence.EvidenceJson], with the round trips
    they rely on as laws), the digest ([Ports.Digest]), memory layout
    ([Sizes.MemLayout]), uuids, clocks, the signing secret, [shlex::split], the
    [Debug] text and the hasher of an effect.  Components of the repository that
    are not modelled enter as classes or arguments ([Commit.CommitEnv], the
    lookups of the tool catalog); nothing is assumed about them.

    Assumptions of the history theorems, each discharged at a sample: the laws of
    the journal behind a store; one queue object per store in
    [ApprovalAuthority.queue_run], with other writers as steps; a decision id that
    was not used before ([fresh_decision]); uuids that name leases and transitions
    are not reused; other processes keep the streams of the leases as this code
    does ([Evidence.respects]); a stream is numbered without gaps
    ([BudgetSafety.NumberedStreams]), and others use the ledger of a budget as this
    code does, with reservation ids of their own ([BudgetSafety.others]); others use
    the row of a session as this code does ([PresenceSafety.presence_others]), and
    nobody deletes it or is cancelled in the middle of a write; the ids of a program
    are digests that do not collide, its executions are named by one, and an agent
    acts under its own id ([TaskMachine.Admissible]).

    ** What the theorems show

    - Graphs: validation accepts exactly the well-formed graphs; terminal statuses
      are final; replaying a delta gives the committed graph exactly under stated
      conditions; replay from the last checkpoint equals replay from the start.
    - Store: streams are numbered without gaps; appends are atomic, idempotent and
      have one winner per revision; scope replay is complete.
    - Commit service: any operation on a durable graph changes nothing or leaves
      the new graph durable, and over every history each registered graph can be
      recovered.  The pump ends at a fixpoint and strands no node.
    - Approvals: every history of a queue is a history of the state machine of one
      approval; outcomes and ended grants are final; a grant that matches is one
      that a recorded, permitted decision issued and nothing ended; deadlines that
      are due are closed; replaying one stream and the whole scope agree.
    - Coordinator: an answer that approves carries a grant that a recorded decision
      issued; nothing is approved without somebody when a person is asked; an
      answered wait leaves no pending request; a lone waiter misses no decision;
      what a turn runs after asking is what was decided.
    - Authorization: an authorized call has a signed lease issued for its effect
      by the path the policy allows; uses never exceed the issued bound; a revoked
      lease never authorizes again; a lease is dropped only when its end is on
      record; what the host dispatches has the effect, scopes and mode that were
      authorized; a permitted call does run; a command that is not a recognized
      read needs a person or a standing rule.
    - Admission: locks of conflicting scopes are never held together and waiters
      are not overtaken; the resource manager never overcommits, grants atomically
      and bounds its queue; a grantable waiter is granted.
    - Budgets: a charge is never taken back by a restart or another process; a
      reservation is granted exactly when it is on record; a session spends no more
      than its lease; the fuse fires exactly on stalls and at the bounds of a
      collaboration, and a turn that stalls ends.
    - Sessions: no attachment is lost between processes; an exclusive lease is
      alone; a writer that is admitted is attached as one and holds a lease.

    - Programs: a task follows one machine over every history, claims and failures
      bounded; work starts after what it depends on and is accepted by somebody else
      on artifacts of its own claim; a concluded program is complete and frozen; what
      is retired is at rest; an action is applied once; both walks over the tasks and
      the lineage of a delivery end, on cyclic tasks too, with what is meant.

    Several theorems state behaviour that departs from what the code's comments
    say: data lost across a restart ([Terminal]), a commit despite a refused lease
    ([EventStore.consumed_lease_still_commits]), application facts that replay
    cannot decode and denials that cannot be revised ([ApprovalLifecycle]),
    demands that are never granted ([Admission]), approved elevations that never
    run and repeated keys that skip the checks ([ToolAuthority]), listed commands
    that run others under a read effect ([ToolEffect]), ask rules that nobody is
    asked about ([ApprovalChain]), waiters stranded by a cancelled one
    ([WaitRegistry]), a limit of one step that runs none ([SafetyFuse]), surfaces taken
    for gone while they are alive ([PresenceFaults]), leases that a late
    detachment leaves behind ([SessionAdmission]), and tasks and continuations that
    wait forever ([ProgramFaults]).

    ** Bounds and fuel

    Validation peels with fuel one more than the number of nodes, the dependency
    pump with more than the number of planned nodes, [refresh] with more than the
    number of later commits, the walks over the tasks of a program with one more than
    there are tasks, and the lineage of a delivery with the number of references that
    can be pushed; each bound is proved sufficient.  Replay pages (1024
    events), commit pages, the 3 and 8 attempts of the persistence loops and the 16
    of the budget ledger are the code's own constants.

    ** Not modelled

    Durable backends (SQL), executors and task spawning, the deadline worker of the
    approval queue and the pending hook of the coordinator, the dispatch of tools,
    schema validation, event emission to surfaces, observers and notifications,
    worktrees, goals and missions (what a program reads of its goal is the argument
    [GoalStore]), the dispatch of agent runs and the topic cursors of a program, actions
    that carry a goal event or a review proof, transcripts, what a model step does after its
    start, the registry of token leases, providers, memory, and user interfaces.
    Retry loops of the graph services are run without other writers between the
    attempts; those of [Evidence] and [Budget] with them. *)

From stdpp Require Export base gmap strings list sorting relations.
From stdpp Require Import options.
From Stdlib Require Export NArith Lia.

(** ** Rust integers

    [u64], [usize] (64-bit targets), [u32], [u16] and [u8] values are natural
    numbers of type [N]; every operation that can leave the width is written
    out with the behaviour the source asks for ([saturating_add], ...). *)

Definition u64_max : N := 18446744073709551615.
Definition usize_max : N := u64_max.
Definition u32_max : N := 4294967295.
Definition u16_max : N := 65535.
Definition u8_max : N := 255.

Definition sat_add (width_max a b : N) : N := N.min (a + b) width_max.
Definition sat_mul (width_max a b : N) : N := N.min (a * b) width_max.

(** [u64::saturating_add], [u64::saturating_mul]; [saturating_sub] is [N.sub],
    which is already truncated at zero. *)
Definition u64_saturating_add : N -> N -> N := sat_add u64_max.
Definition u64_saturating_mul : N -> N -> N := sat_mul u64_max.
Definition usize_saturating_add : N -> N -> N := sat_add usize_max.
Definition u32_saturating_add : N -> N -> N := sat_add u32_max.

(** [Ord::clamp(lo, hi)], for [lo <= hi]. *)
Definition clamp (x lo hi : N) : N := N.min (N.max x lo) hi.

Lemma sat_add_le w a b : (sat_add w a b <= w)%N.
Proof. unfold sat_add. lia. Qed.

Lemma sat_add_exact w a b : (a + b <= w)%N -> sat_add w a b = (a + b)%N.
Proof. unfold sat_add. lia. Qed.

Lemma sat_mul_le w a b : (sat_mul w a b <= w)%N.
Proof. unfold sat_mul. lia. Qed.

Lemma clamp_bounds x lo hi : (lo <= hi)%N -> (lo <= clamp x lo hi <= hi)%N.
Proof. unfold clamp. lia. Qed.

Create HintDb cowd.
#[export] Hint Resolve sat_add_le sat_mul_le : cowd.

(** ** [Result] and its monad *)

Inductive Result (E A : Type) : Type :=
| Ok (a : A)
| Err (e : E).
Arguments Ok {E A} a.
Arguments Err {E A} e.

#[export] Instance Result_eq_dec `{EqDecision E} `{EqDecision A} :
  EqDecision (Result E A).
Proof. solve_decision. Defined.

#[export] Instance Result_ret {E} : MRet (Result E) := fun A a => Ok a.
#[export] Instance Result_bind {E} : MBind (Result E) :=
  fun A B f r => match r with Ok a => f a | Err e => Err e end.
#[export] Instance Result_fmap {E} : FMap (Result E) :=
  fun A B f r => match r with Ok a => Ok (f a) | Err e => Err e end.

Definition is_ok {E A} (r : Result E A) : bool :=
  match r with Ok _ => true | Err _ => false end.

(** [Option::ok_or] *)
Definition ok_or {E A} (e : E) (o : option A) : Result E A :=
  match o with Some a => Ok a | None => Err e end.

(** [Result::map_err] *)
Definition map_err {E F A} (f : E -> F) (r : Result E A) : Result F A :=
  match r with Ok a => Ok a | Err e => Err (f e) end.

(** [if cond { return Err(e) }] *)
Definition guard_err {E} (cond : bool) (e : E) : Result E unit :=
  if cond then Err e else Ok tt.

(** A [for] loop whose body may return early with [?]. *)
Fixpoint try_fold {E A S} (f : S -> A -> Result E S) (s : S) (l : list A) :
  Result E S :=
  match l with
  | [] => Ok s
  | x :: l' => s' ← f s x; try_fold f s' l'
  end.

Lemma bind_Ok_inv {E A B} (r : Result E A) (f : A -> Result E B) b :
  r ≫= f = Ok b -> exists a, r = Ok a /\ f a = Ok b.
Proof. destruct r; cbn; [eauto | discriminate]. Qed.

Lemma ok_or_Ok_inv {E A} (e : E) (o : option A) a :
  ok_or e o = Ok a -> o = Some a.
Proof. destruct o; cbn; congruence. Qed.

Lemma map_err_Ok_inv {E F A} (f : E -> F) (r : Result E A) a :
  map_err f r = Ok a -> r = Ok a.
Proof. destruct r; cbn; congruence. Qed.

Lemma guard_err_Ok_inv {E} c (e : E) u : guard_err c e = Ok u -> c = false.
Proof. destruct c; cbn; congruence. Qed.

Lemma try_fold_app {E A S} (f : S -> A -> Result E S) l1 l2 s :
  try_fold f s (l1 ++ l2) = (s' ← try_fold f s l1; try_fold f s' l2).
Proof.
  revert s. induction l1 as [|x l1 IH]; intros s; cbn; [done|].
  destruct (f s x) as [s'|e]; cbn; auto.
Qed.

(** Whatever every step's error satisfies, the loop's error satisfies. *)
Lemma try_fold_Err {E A S} (P : E -> Prop) (f : S -> A -> Result E S) l : forall s e,
  (forall s a e, f s a = Err e -> P e) -> try_fold f s l = Err e -> P e.
Proof.
  induction l as [|a l IH]; intros s e Hf; cbn; [done|].
  destruct (f s a) as [s'|e'] eqn:Ef; cbn; [by apply IH|]. intros [= <-]. eauto.
Qed.

(** Rule induction for a loop that did not return early. *)
Lemma try_fold_ind {E A S} (f : S -> A -> Result E S) (P : list A -> S -> Prop) l s s' :
  P [] s ->
  (forall l1 x s1 s2, P l1 s1 -> f s1 x = Ok s2 -> P (l1 ++ [x]) s2) ->
  try_fold f s l = Ok s' -> P l s'.
Proof.
  intros H0 Hstep. rewrite <- (app_nil_l l) at 2. revert H0.
  generalize (@nil A) as done. revert s.
  induction l as [|x l IH]; intros s done H0; cbn.
  - intros [= ->]. by rewrite app_nil_r.
  - destruct (f s x) as [s1|e] eqn:E1; cbn; [|discriminate].
    intros Hf. rewrite cons_middle, app_assoc. eapply IH; eauto.
Qed.

Lemma try_fold_invariant {E A S} (f : S -> A -> Result E S) (P : S -> Prop) l s s' :
  P s -> (forall s1 x s2, P s1 -> f s1 x = Ok s2 -> P s2) -> try_fold f s l = Ok s' -> P s'.
Proof. intros H0 Hstep. apply (try_fold_ind f (fun _ => P)); eauto. Qed.

(** Repeatedly opens successful binds in the hypotheses. *)
Ltac ok_inv :=
  repeat match goal with
  | H : _ ≫= _ = Ok _ |- _ =>
      let a := fresh "a" in let Ha := fresh "Ha" in
      apply bind_Ok_inv in H; destruct H as (a & Ha & H)
  | H : mret _ = Ok _ |- _ => injection H as H
  | H : Ok _ = Ok _ |- _ => injection H as H
  | H : Err _ = Ok _ |- _ => discriminate H
  | H : ok_or _ _ = Ok _ |- _ => apply ok_or_Ok_inv in H
  | H : map_err _ _ = Ok _ |- _ => apply map_err_Ok_inv in H
  | H : guard_err _ _ = Ok _ |- _ => apply guard_err_Ok_inv in H
  end.

(** ** Computations that can panic

    [Panic] is a Rust panic (a failed index, an arithmetic underflow in a debug
    build, ...) and [OutOfFuel] is the model's own bound on an unbounded loop;
    theorems show that neither is reached. *)

Inductive Exec (A : Type) : Type :=
| Done (a : A)
| Panic
| OutOfFuel.
Arguments Done {A} a.
Arguments Panic {A}.
Arguments OutOfFuel {A}.

#[export] Instance Exec_ret : MRet Exec := fun A a => Done a.
#[export] Instance Exec_bind : MBind Exec := fun A B f r =>
  match r with Done a => f a | Panic => Panic | OutOfFuel => OutOfFuel end.

Fixpoint exec_fold {A S} (f : S -> A -> Exec S) (s : S) (l : list A) : Exec S :=
  match l with
  | [] => Done s
  | x :: l' => s' ← f s x; exec_fold f s' l'
  end.

Lemma exec_fold_app {A S} (f : S -> A -> Exec S) l1 l2 s :
  exec_fold f s (l1 ++ l2) = (s' ← exec_fold f s l1; exec_fold f s' l2).
Proof.
  revert s. induction l1 as [|x l1 IH]; intros s; cbn; [done|].
  destruct (f s x); cbn; auto.
Qed.

(** A nested loop is a loop over the concatenated inner ranges. *)
Lemma exec_fold_flat_map {A B S} (f : S -> B -> Exec S) (g : A -> list B) l s :
  exec_fold (fun s x => exec_fold f s (g x)) s l =
  exec_fold f s (l ≫= g).
Proof.
  revert s. induction l as [|x l IH]; intros s; cbn; [done|].
  rewrite exec_fold_app. destruct (exec_fold f s (g x)); cbn; auto.
Qed.

(** ** Rust strings

    A [String] is its UTF-8 byte sequence, a Rocq [string]; comparison of
    [String]s (the order of [BTreeMap] keys and of [sort]) is lexicographic on
    bytes. *)

Section Whitespace.
Local Abbreviation code := Ascii.nat_of_ascii.

(** [char::is_whitespace] (Unicode [White_Space]) on one-, two- and
    three-byte UTF-8 sequences; no four-byte character is whitespace. *)
Definition is_ws1 (a : Ascii.ascii) : bool :=
  ((9 <=? code a) && (code a <=? 13)) || (code a =? 32).

Definition is_ws2 (a b : Ascii.ascii) : bool :=
  (code a =? 194) && ((code b =? 133) || (code b =? 160)).

Definition is_ws3 (a b c : Ascii.ascii) : bool :=
  ((code a =? 225) && (code b =? 154) && (code c =? 128)) ||
  ((code a =? 226) && (code b =? 128) &&
     (((128 <=? code c) && (code c <=? 138)) || (code c =? 168) ||
      (code c =? 169) || (code c =? 175))) ||
  ((code a =? 226) && (code b =? 129) && (code c =? 159)) ||
  ((code a =? 227) && (code b =? 128) && (code c =? 128)).
End Whitespace.

(** [str::trim_start] *)
Fixpoint trim_start (s : string) : string :=
  match s with
  | EmptyString => s
  | String a s1 =>
      if is_ws1 a then trim_start s1
      else match s1 with
           | EmptyString => s
           | String b s2 =>
               if is_ws2 a b then trim_start s2
               else match s2 with
                    | EmptyString => s
                    | String c s3 => if is_ws3 a b c then trim_start s3 else s
                    end
           end
  end.

(** [s.trim().is_empty()]: nothing but whitespace. *)
Definition trim_is_empty (s : string) : bool :=
  match trim_start s with EmptyString => true | String _ _ => false end.

(** [str::trim_end]: cut at the first position from which all is whitespace. *)
Fixpoint trim_end (s : string) : string :=
  match s with
  | EmptyString => EmptyString
  | String a s' => if trim_is_empty s then EmptyString else String a (trim_end s')
  end.

(** [str::trim] *)
Definition trim (s : string) : string := trim_end (trim_start s).

(** [str::starts_with] and [str::strip_prefix] with a string pattern. *)
Definition starts_with (s p : string) : bool := String.prefix p s.

Fixpoint strip_prefix (s p : string) : option string :=
  match p, s with
  | EmptyString, _ => Some s
  | String a p', String b s' =>
      if Ascii.eqb a b then strip_prefix s' p' else None
  | String _ _, EmptyString => None
  end.

(** [str::split_once] *)
Fixpoint split_once (s sep : string) : option (string * string) :=
  match strip_prefix s sep with
  | Some rest => Some (EmptyString, rest)
  | None =>
      match s with
      | EmptyString => None
      | String a s => '(l, r) ← split_once s sep; Some (String a l, r)
      end
  end.

(** [str::contains] with a string pattern. *)
Fixpoint str_contains (s p : string) : bool :=
  String.prefix p s ||
  match s with EmptyString => false | String _ s' => str_contains s' p end.

(** [s.split(sep).next()]: the part before the first separator. *)
Fixpoint split_first (sep : Ascii.ascii) (s : string) : string :=
  match s with
  | EmptyString => EmptyString
  | String a s' => if Ascii.eqb a sep then EmptyString else String a (split_first sep s')
  end.

(** [s.split(sep)]: the (non-empty) list of parts between separators. *)
Fixpoint split_char (sep : Ascii.ascii) (s : string) : list string :=
  match s with
  | EmptyString => [EmptyString]
  | String a s' =>
      if Ascii.eqb a sep then EmptyString :: split_char sep s'
      else match split_char sep s' with
           | [] => [String a EmptyString]
           | p :: ps => String a p :: ps
           end
  end.

(** [str::to_ascii_lowercase] *)
Definition ascii_lower (a : Ascii.ascii) : Ascii.ascii :=
  let n := Ascii.nat_of_ascii a in
  if (65 <=? n) && (n <=? 90) then Ascii.ascii_of_nat (n + 32) else a.

Fixpoint to_ascii_lowercase (s : string) : string :=
  match s with
  | EmptyString => EmptyString
  | String a s => String (ascii_lower a) (to_ascii_lowercase s)
  end.

(** [str::parse] of an unsigned integer of at most [max]. *)
Definition ascii_digit (a : Ascii.ascii) : option N :=
  let n := Ascii.N_of_ascii a in if ((48 <=? n) && (n <=? 57))%N then Some (n - 48)%N else None.

Fixpoint parse_digits (acc : N) (s : string) : option N :=
  match s with
  | EmptyString => Some acc
  | String a s' => d ← ascii_digit a; parse_digits (acc * 10 + d)%N s'
  end.

Definition parse_unsigned (max : N) (s : string) : option N :=
  let digits := default s (strip_prefix s "+") in
  match digits with
  | EmptyString => None
  | _ => n ← parse_digits 0 digits; if (n <=? max)%N then Some n else None
  end.

(** The path separator. *)
Definition slash : Ascii.ascii := Ascii.ascii_of_nat 47.

(** [s.bytes().all(f)] *)
Fixpoint str_forallb (f : Ascii.ascii -> bool) (s : string) : bool :=
  match s with
  | EmptyString => true
  | String a s' => f a && str_forallb f s'
  end.

(** [u8::is_ascii_hexdigit] *)
Definition is_ascii_hexdigit (a : Ascii.ascii) : bool :=
  let n := Ascii.nat_of_ascii a in
  ((48 <=? n) && (n <=? 57)) || ((65 <=? n) && (n <=? 70)) || ((97 <=? n) && (n <=? 102)).

(** [str::len]: the number of bytes. *)
Definition str_len (s : string) : N := N.of_nat (String.length s).

Lemma strip_prefix_Some s p t : strip_prefix s p = Some t <-> s = (p +:+ t)%string.
Proof.
  revert s. induction p as [|a p IH]; intros s.
  - assert (strip_prefix s "" = Some s) as -> by by destruct s.
    change ("" +:+ t)%string with t. naive_solver.
  - destruct s as [|b s]; [by split|].
    change (strip_prefix (String b s) (String a p))
      with (if Ascii.eqb a b then strip_prefix s p else None).
    change (String a p +:+ t)%string with (String a (p +:+ t)).
    destruct (Ascii.eqb_spec a b) as [->|Hne].
    + rewrite IH. split; [by intros -> | intros H; by injection H].
    + split; [discriminate | intros H; injection H; congruence].
Qed.

Lemma trim_end_empty s : trim_end s = EmptyString <-> trim_is_empty s = true.
Proof. destruct s as [|a s]; cbn [trim_end]; [done|]. by destruct (trim_is_empty _). Qed.

(** [trim_is_empty] is the emptiness of [trim]. *)
Lemma trim_is_empty_spec s : trim s = EmptyString <-> trim_is_empty s = true.
Proof.
  assert (Hidem : forall n s, String.length s <= n ->
            trim_start (trim_start s) = trim_start s).
  { clear s. induction n as [|n IH]; intros s Hn; destruct s as [|a s];
      cbn in Hn; try done; [lia|].
    cbn [trim_start]. destruct (is_ws1 a) eqn:E1; [apply IH; lia|].
    destruct s as [|b s]; [cbn; by rewrite E1|].
    destruct (is_ws2 a b) eqn:E2; [apply IH; cbn in Hn; lia|].
    destruct s as [|c s]; [cbn; by rewrite E1, E2|].
    destruct (is_ws3 a b c) eqn:E3; [apply IH; cbn in Hn; lia|].
    cbn. by rewrite E1, E2, E3. }
  unfold trim. rewrite trim_end_empty. unfold trim_is_empty at 1.
  by rewrite (Hidem (String.length s)).
Qed.

(** *** The order on strings *)

Definition str_le (a b : string) : Prop := String.leb a b = true.

#[export] Instance str_le_dec : RelDecision str_le.
Proof. intros a b. unfold str_le. apply _. Defined.

#[export] Instance str_le_total : Total str_le.
Proof. intros a b. apply String.leb_total. Qed.

Lemma ascii_compare_N a b :
  Ascii.compare a b = N.compare (Ascii.N_of_ascii a) (Ascii.N_of_ascii b).
Proof. reflexivity. Qed.

#[export] Instance str_le_trans : Transitive str_le.
Proof.
  unfold str_le, String.leb. intros a b c. revert b c.
  induction a as [|x a IH]; intros [|y b] [|z c]; cbn; try done.
  rewrite !ascii_compare_N.
  destruct (N.compare_spec (Ascii.N_of_ascii x) (Ascii.N_of_ascii y)) as [Exy|Exy|Exy];
  destruct (N.compare_spec (Ascii.N_of_ascii y) (Ascii.N_of_ascii z)) as [Eyz|Eyz|Eyz];
  destruct (N.compare_spec (Ascii.N_of_ascii x) (Ascii.N_of_ascii z)) as [Exz|Exz|Exz];
    try lia; try done; eauto.
Qed.

#[export] Instance str_le_antisymm : AntiSymm (=) str_le.
Proof. intros a b. apply String.leb_antisym. Qed.

(** [Vec<String>::sort()] *)
Definition sort_strings : list string -> list string := merge_sort str_le.

Lemma sort_strings_perm l : sort_strings l ≡ₚ l.
Proof. apply merge_sort_Permutation. Qed.

Lemma sort_strings_sorted l : StronglySorted str_le (sort_strings l).
Proof. apply (StronglySorted_merge_sort _ _). Qed.

(** ** [BTreeMap<String, V>] and [BTreeSet<String>]

    The contents are a [gmap string V] and a [gset string]; iteration visits
    the keys in ascending order. *)

Definition btree_keys {V} (m : gmap string V) : list string :=
  sort_strings (map_to_list m).*1.

Definition btree_entries {V} (m : gmap string V) : list (string * V) :=
  omap (fun k => v ← m !! k; Some (k, v)) (btree_keys m).

Definition btree_values {V} (m : gmap string V) : list V :=
  (btree_entries m).*2.

Definition btree_set_iter (s : gset string) : list string :=
  sort_strings (elements s).

Lemma elem_of_btree_keys {V} (m : gmap string V) k :
  k ∈ btree_keys m <-> is_Some (m !! k).
Proof.
  unfold btree_keys. rewrite sort_strings_perm, list_elem_of_fmap. split.
  - intros ([k' v] & -> & Hin%elem_of_map_to_list). by eexists.
  - intros [v Hv%elem_of_map_to_list]. by exists (k, v).
Qed.

Lemma NoDup_btree_keys {V} (m : gmap string V) : NoDup (btree_keys m).
Proof. unfold btree_keys. rewrite sort_strings_perm. apply NoDup_fst_map_to_list. Qed.

Lemma elem_of_btree_entries {V} (m : gmap string V) k v :
  (k, v) ∈ btree_entries m <-> m !! k = Some v.
Proof.
  unfold btree_entries. rewrite list_elem_of_omap. split.
  - intros (k' & _ & H). destruct (m !! k') eqn:E; cbn in H; [|done]. naive_solver.
  - intros Hv. exists k. rewrite Hv, elem_of_btree_keys. naive_solver.
Qed.

Lemma btree_entries_keys {V} (m : gmap string V) : (btree_entries m).*1 = btree_keys m.
Proof.
  unfold btree_entries. assert (forall k, k ∈ btree_keys m -> is_Some (m !! k)) as Hk
    by (intros k; apply elem_of_btree_keys).
  induction (btree_keys m) as [|k l IH]; cbn; [done|].
  destruct (Hk k) as [v Hv]; [left|]. rewrite Hv. cbn. f_equal. apply IH. intros k' ?. apply Hk. by right.
Qed.

Lemma elem_of_btree_values {V} (m : gmap string V) v :
  v ∈ btree_values m <-> exists k, m !! k = Some v.
Proof.
  unfold btree_values. rewrite list_elem_of_fmap. split.
  - intros ([k v'] & -> & H%elem_of_btree_entries). eauto.
  - intros [k H%elem_of_btree_entries]. by exists (k, v).
Qed.

Lemma elem_of_btree_set_iter s x : x ∈ btree_set_iter s <-> x ∈ s.
Proof. unfold btree_set_iter. rewrite sort_strings_perm. apply elem_of_elements. Qed.

Lemma NoDup_btree_set_iter s : NoDup (btree_set_iter s).
Proof. unfold btree_set_iter. rewrite sort_strings_perm. apply NoDup_elements. Qed.

(** ** Lists *)

(** [iter().any], [iter().all] as decidable propositions. *)
Lemma existsb_elem_of {A} (f : A -> bool) l :
  existsb f l = true <-> exists x, x ∈ l /\ f x = true.
Proof.
  rewrite existsb_exists. split; intros (x & H & Hf); exists x;
    by rewrite ?list_elem_of_In in *.
Qed.

Lemma existsb_false {A} (f : A -> bool) l :
  existsb f l = false <-> forall x, x ∈ l -> f x = false.
Proof.
  rewrite <- not_true_iff_false, existsb_elem_of. split.
  - intros H x Hx. apply not_true_iff_false. eauto.
  - intros H (x & Hx & Hf). rewrite (H x Hx) in Hf. discriminate.
Qed.

Lemma forallb_elem_of {A} (f : A -> bool) l :
  forallb f l = true <-> forall x, x ∈ l -> f x = true.
Proof.
  rewrite forallb_forall. split; intros H x Hx; apply H; by rewrite ?list_elem_of_In in *.
Qed.

Lemma elem_of_filterb {A} (f : A -> bool) l x :
  x ∈ List.filter f l <-> x ∈ l /\ f x = true.
Proof. by rewrite !list_elem_of_In, filter_In. Qed.

Lemma NoDup_filterb {A} (f : A -> bool) l : NoDup l -> NoDup (List.filter f l).
Proof. rewrite !NoDup_ListNoDup. apply List.NoDup_filter. Qed.

Lemma filterb_ext {A} (f g : A -> bool) l :
  (forall x, x ∈ l -> f x = g x) -> List.filter f l = List.filter g l.
Proof.
  induction l as [|x l IH]; intros H; [done|]. cbn.
  rewrite (H x) by left. rewrite IH by (intros; apply H; by right). done.
Qed.

Lemma filterb_filterb {A} (f g : A -> bool) l :
  List.filter f (List.filter g l) = List.filter (fun x => g x && f x) l.
Proof.
  induction l as [|x l IH]; [done|]. cbn. destruct (g x); cbn; [|done].
  destruct (f x); by rewrite IH.
Qed.

Lemma filterb_all {A} (f : A -> bool) l :
  (forall x, x ∈ l -> f x = true) -> List.filter f l = l.
Proof.
  induction l as [|x l IH]; intros H; [done|]. cbn.
  rewrite (H x) by left. f_equal. apply IH. intros; apply H; by right.
Qed.

Lemma filterb_none {A} (f : A -> bool) l :
  (forall x, x ∈ l -> f x = false) -> List.filter f l = [].
Proof.
  induction l as [|x l IH]; intros H; [done|]. cbn.
  rewrite (H x) by left. apply IH. intros; apply H; by right.
Qed.

Lemma StronglySorted_lookup_lt {A} (R : relation A) l :
  StronglySorted R l -> forall i j x y, i < j -> l !! i = Some x -> l !! j = Some y -> R x y.
Proof.
  induction 1 as [|z l Hss IH Hz]; intros i j x y Hij Hi Hj; [done|].
  destruct i as [|i], j as [|j]; cbn in *; try lia.
  - injection Hi as ->. rewrite Forall_forall in Hz. eauto using list_elem_of_lookup_2.
  - apply (IH i j); [lia | done..].
Qed.

(** [l.contains(x)] *)
Definition memb {A} `{EqDecision A} (l : list A) (x : A) : bool := bool_decide (x ∈ l).

Lemma memb_true {A} `{EqDecision A} (l : list A) x : memb l x = true <-> x ∈ l.
Proof. apply bool_decide_eq_true. Qed.

Lemma memb_false {A} `{EqDecision A} (l : list A) x : memb l x = false <-> x ∉ l.
Proof. apply bool_decide_eq_false. Qed.

Lemma memb_cons {A} `{EqDecision A} (l : list A) x y :
  memb (y :: l) x = bool_decide (x = y) || memb l x.
Proof.
  unfold memb. destruct (bool_decide_reflect (x = y)) as [->|Hne]; cbn.
  - apply bool_decide_eq_true. left.
  - apply bool_decide_ext. rewrite elem_of_cons. tauto.
Qed.

(** The sum of an [N]-valued measure over a list. *)
Definition sum_map {A} (f : A -> N) (l : list A) : N :=
  foldr (fun x acc => (f x + acc)%N) 0%N l.

Lemma sum_map_perm {A} (f : A -> N) l l' : l ≡ₚ l' -> sum_map f l = sum_map f l'.
Proof. unfold sum_map. induction 1; cbn; lia. Qed.

Lemma sum_map_submseteq {A} (f : A -> N) l l' : l ⊆+ l' -> (sum_map f l <= sum_map f l')%N.
Proof. unfold sum_map. induction 1; cbn; lia. Qed.
