(* ===== verification/Facts.v ===== *)
(** * Contract facts carried by the execution graph

    The leaf data types of [harness-contract] that execution graphs store or
    transport: evidence and acceptance facts ([context/mod.rs],
    [acceptance.rs], [reality/mod.rs]), delivery and presentation packets
    ([outcome.rs]), continuation and cancellation records ([turn.rs]) and
    approval decisions ([policy/approval.rs]).  Every struct keeps all of its
    fields; all types have decidable equality, as the sources derive [Eq]. *)

From S2P Require Import Prelude.

(** ** Evidence references ([reality/mod.rs], [context/mod.rs]) *)

Inductive RealityBoundary :=
| Observed | Inferred | Simulated | Hypothetical | Conflict | UnknownBoundary.

#[export] Instance RealityBoundary_eq_dec : EqDecision RealityBoundary.
Proof. solve_decision. Defined.

Record EvidenceRef := {
  er_ref_type : string;
  er_id : string;
  er_source : option string;
  er_boundary : RealityBoundary;
  er_confidence_bp : option N
}.

#[export] Instance EvidenceRef_eq_dec : EqDecision EvidenceRef.
Proof. solve_decision. Defined.

Inductive EvidenceDurability := EvPending | EvDurable | EvUnavailable.

#[export] Instance EvidenceDurability_eq_dec : EqDecision EvidenceDurability.
Proof. solve_decision. Defined.

Record EvidenceAccessRef := {
  ea_evidence_ref : EvidenceRef;
  ea_sha256 : string;
  ea_bytes : N;
  ea_media_type : string;
  ea_durability : EvidenceDurability;
  ea_retrieval_selector : string;
  ea_visibility_scope : string
}.

#[export] Instance EvidenceAccessRef_eq_dec : EqDecision EvidenceAccessRef.
Proof. solve_decision. Defined.

(** [EvidenceAccessRef::is_durable] *)
Definition evidence_is_durable (e : EvidenceAccessRef) : bool :=
  match ea_durability e with EvDurable => true | _ => false end.

Record ContextBudgetLeaseRef := {
  cb_lease_id : string;
  cb_owner_id : string;
  cb_scope : string;
  cb_max_tokens : N;
  cb_consumed_tokens : N;
  cb_revision : N
}.

#[export] Instance ContextBudgetLeaseRef_eq_dec : EqDecision ContextBudgetLeaseRef.
Proof. solve_decision. Defined.

(** ** Workspace identities and acceptance obligations ([context/mod.rs]) *)

Inductive WorkspaceObjectKind := WoFile | WoDirectory.
Inductive WorkspaceAccessMode := WaRead | WaWrite.
Inductive EvidenceCoverageKind :=
| CovExactContent | CovScopedContent | CovDirectoryListing
| CovRecursiveContent | CovGlobDiscovery | CovWriteEffect.

#[export] Instance WorkspaceObjectKind_eq_dec : EqDecision WorkspaceObjectKind.
Proof. solve_decision. Defined.
#[export] Instance WorkspaceAccessMode_eq_dec : EqDecision WorkspaceAccessMode.
Proof. solve_decision. Defined.
#[export] Instance EvidenceCoverageKind_eq_dec : EqDecision EvidenceCoverageKind.
Proof. solve_decision. Defined.

Record WorkspacePathIdentity := {
  wp_workspace_id : string;
  wp_repository_id : string;
  wp_workspace_relative_path : string;
  wp_repository_relative_path : string;
  wp_object_kind : WorkspaceObjectKind;
  wp_observed_revision_or_digest : option string
}.

#[export] Instance WorkspacePathIdentity_eq_dec : EqDecision WorkspacePathIdentity.
Proof. solve_decision. Defined.

Record WorkspaceScopeIdentity := {
  ws_access_mode : WorkspaceAccessMode;
  ws_path : WorkspacePathIdentity;
  ws_coverage : EvidenceCoverageKind
}.

#[export] Instance WorkspaceScopeIdentity_eq_dec : EqDecision WorkspaceScopeIdentity.
Proof. solve_decision. Defined.

Inductive EvidenceTargetIdentity :=
| TargetWorkspace (scope : WorkspaceScopeIdentity)
| TargetNetwork (endpoint : string)
| TargetAmbiguousWorkspace (display_alias : string) (candidates : list string)
| TargetUnavailableWorkspace (display_alias reason : string).

#[export] Instance EvidenceTargetIdentity_eq_dec : EqDecision EvidenceTargetIdentity.
Proof. solve_decision. Defined.

Inductive EvidenceObligationKind :=
| ObContentRead | ObDirectoryListing | ObRecursiveScan | ObGlobDiscovery
| ObWriteEffect | ObVerifyAfterWrite | ObVerifyUpstreamChange | ObNetworkEvidence.

#[export] Instance EvidenceObligationKind_eq_dec : EqDecision EvidenceObligationKind.
Proof. solve_decision. Defined.

Inductive EvidenceObservationRequirement := RuntimeAcquisition | ProviderModel.

#[export] Instance EvidenceObservationRequirement_eq_dec :
  EqDecision EvidenceObservationRequirement.
Proof. solve_decision. Defined.

Record EvidenceObligation := {
  eo_obligation_id : string;
  eo_kind : EvidenceObligationKind;
  eo_target : EvidenceTargetIdentity;
  eo_observation_requirement : EvidenceObservationRequirement
}.

#[export] Instance EvidenceObligation_eq_dec : EqDecision EvidenceObligation.
Proof. solve_decision. Defined.

Record RequiredAcceptance := {
  ra_criteria : list string;
  ra_evidence_obligations : list EvidenceObligation
}.

#[export] Instance RequiredAcceptance_eq_dec : EqDecision RequiredAcceptance.
Proof. solve_decision. Defined.

(** [RequiredAcceptance::is_empty] *)
Definition required_acceptance_is_empty (r : RequiredAcceptance) : bool :=
  bool_decide (ra_criteria r = []) && bool_decide (ra_evidence_obligations r = []).

Definition RequiredAcceptance_default : RequiredAcceptance :=
  {| ra_criteria := []; ra_evidence_obligations := [] |}.

Record ProviderModelObservationAttestation := {
  pm_provider_invocation_id : string;
  pm_obligation_ids : list string;
  pm_raw_ref : EvidenceRef;
  pm_model_receipt_sha256 : string;
  pm_raw_tokens : N;
  pm_receipt_tokens : N;
  pm_omitted_tokens : N;
  pm_complete : bool;
  pm_provider_request_sequence : N;
  pm_provider_attempt : N;
  pm_model : string
}.

#[export] Instance ProviderModelObservationAttestation_eq_dec :
  EqDecision ProviderModelObservationAttestation.
Proof. solve_decision. Defined.

Inductive WorkspacePriorState :=
| PriorExisting (sha256 : string)
| PriorAbsent.

#[export] Instance WorkspacePriorState_eq_dec : EqDecision WorkspacePriorState.
Proof. solve_decision. Defined.

Inductive ObservedEvidenceProvenance := FreshExecution | RetainedReplay.

#[export] Instance ObservedEvidenceProvenance_eq_dec :
  EqDecision ObservedEvidenceProvenance.
Proof. solve_decision. Defined.

Record ObservedEvidence := {
  oe_obligation_id : string;
  oe_target : EvidenceTargetIdentity;
  oe_observed_at_sequence : N;
  oe_tool_name : string;
  oe_provenance : ObservedEvidenceProvenance;
  oe_evidence_ref : option EvidenceAccessRef;
  oe_model_observation : option ProviderModelObservationAttestation;
  oe_workspace_prior_state : option WorkspacePriorState
}.

#[export] Instance ObservedEvidence_eq_dec : EqDecision ObservedEvidence.
Proof. solve_decision. Defined.

Record ObservedAcceptance := {
  oa_satisfied_criteria : list string;
  oa_observed_evidence : list ObservedEvidence;
  oa_unresolved_obligation_ids : list string
}.

#[export] Instance ObservedAcceptance_eq_dec : EqDecision ObservedAcceptance.
Proof. solve_decision. Defined.

Definition ObservedAcceptance_default : ObservedAcceptance :=
  {| oa_satisfied_criteria := []; oa_observed_evidence := [];
     oa_unresolved_obligation_ids := [] |}.

(** ** Acceptance verdicts ([acceptance.rs]) *)

Inductive AcceptanceVerdict := Satisfied | Unsatisfied | FrameworkInvalid | Unresolved.

#[export] Instance AcceptanceVerdict_eq_dec : EqDecision AcceptanceVerdict.
Proof. solve_decision. Defined.

Inductive TerminalFactKind :=
| CommittedEffect | FactObservedEvidence | Artifact | FactAcceptanceVerdict.

#[export] Instance TerminalFactKind_eq_dec : EqDecision TerminalFactKind.
Proof. solve_decision. Defined.

Record AcceptanceEvaluation := {
  ae_evaluator_revision : N;
  ae_contract_digest : string;
  ae_receipt_set_digest : string;
  ae_derived_obligations : list string;
  ae_verdict : AcceptanceVerdict
}.

#[export] Instance AcceptanceEvaluation_eq_dec : EqDecision AcceptanceEvaluation.
Proof. solve_decision. Defined.

(** ** Continuation, cancellation and approval records
    ([turn.rs], [policy/approval.rs]) *)

Inductive ContinuationAuthorization := Authorized | Revoked.

#[export] Instance ContinuationAuthorization_eq_dec :
  EqDecision ContinuationAuthorization.
Proof. solve_decision. Defined.

Record CollaborationContinuationBinding := {
  cc_source_session_id : string;
  cc_source_turn_id : string;
  cc_source_root_id : string;
  cc_team_set_ref : string;
  cc_delivery_revision : N;
  cc_result_refs : list string;
  cc_current_ingress : string;
  cc_candidate_revision : N;
  cc_binding_digest : string;
  cc_authorization : ContinuationAuthorization;
  cc_authorization_revision : N;
  cc_handoff_id : option string
}.

#[export] Instance CollaborationContinuationBinding_eq_dec :
  EqDecision CollaborationContinuationBinding.
Proof. solve_decision. Defined.

Inductive CancellationCause :=
| CauseUserRequested | CauseSystem | CauseParent | CauseDeadline | CauseLeaseLost.
Inductive CancellationStatus := CsRequested | CsCancelled | CsAlreadyTerminal.

#[export] Instance CancellationCause_eq_dec : EqDecision CancellationCause.
Proof. solve_decision. Defined.
#[export] Instance CancellationStatus_eq_dec : EqDecision CancellationStatus.
Proof. solve_decision. Defined.

Record CancellationReceipt := {
  cr_cancellation_id : string;
  cr_session_id : string;
  cr_turn_id : string;
  cr_execution_id : string;
  cr_actor_id : string;
  cr_cause : CancellationCause;
  cr_reason : option string;
  cr_requested_at_ms : N;
  cr_effective_at_ms : option N;
  cr_status : CancellationStatus;
  cr_journal_sequence : N;
  cr_projection_revision : N
}.

#[export] Instance CancellationReceipt_eq_dec : EqDecision CancellationReceipt.
Proof. solve_decision. Defined.

Inductive ApprovalGrantScope := GsOnce | GsTurn | GsTask | GsSession | GsGlobal.
Inductive ApprovalDecisionActorKind :=
| ActorHuman | ActorPolicy | ActorStewardAgent | ActorTypedOwner | ActorTimeoutPolicy.

#[export] Instance ApprovalGrantScope_eq_dec : EqDecision ApprovalGrantScope.
Proof. solve_decision. Defined.
#[export] Instance ApprovalDecisionActorKind_eq_dec : EqDecision ApprovalDecisionActorKind.
Proof. solve_decision. Defined.

Record ApprovalDecisionActor := {
  ada_kind : ApprovalDecisionActorKind;
  ada_actor_id : string
}.

#[export] Instance ApprovalDecisionActor_eq_dec : EqDecision ApprovalDecisionActor.
Proof. solve_decision. Defined.

Record ApprovalDecisionCommand := {
  ad_approval_id : string;
  ad_approved : bool;
  ad_skip : bool;
  ad_reason : string;
  ad_scope : ApprovalGrantScope;
  ad_actor : ApprovalDecisionActor;
  ad_evidence_refs : list string
}.

#[export] Instance ApprovalDecisionCommand_eq_dec : EqDecision ApprovalDecisionCommand.
Proof. solve_decision. Defined.

(** ** Delivery and presentation packets ([outcome.rs]) *)

Inductive PipelineStatus := PipeWaiting | PipeCompleted | PipeFailed | PipeCancelled.
Inductive DeliveryStatus := DsSatisfied | DsPartial | DsDenied | DsUnavailable.
Inductive DeliveryBranchStatus := DbCompleted | DbFailed | DbCancelled | DbBlocked.
Inductive VerifiedEffectStatus := VeApplied | VeNotApplied | VeUncertain.
Inductive UserAnswerFormat := UfHumanText | UfMarkdown | UfStrictJson | UfOther.
Inductive UserAnswerDetail := UdConcise | UdBalanced | UdDetailed.
Inductive UserAnswerEvidencePreference := UePrefNone | UePrefWhenUseful | UePrefRequired.
Inductive UserAnswerCitationPreference :=
| UcPrefNone | UcPrefWhenAvailable | UcPrefRequired.

#[export] Instance PipelineStatus_eq_dec : EqDecision PipelineStatus.
Proof. solve_decision. Defined.
#[export] Instance DeliveryStatus_eq_dec : EqDecision DeliveryStatus.
Proof. solve_decision. Defined.
#[export] Instance DeliveryBranchStatus_eq_dec : EqDecision DeliveryBranchStatus.
Proof. solve_decision. Defined.
#[export] Instance VerifiedEffectStatus_eq_dec : EqDecision VerifiedEffectStatus.
Proof. solve_decision. Defined.
#[export] Instance UserAnswerFormat_eq_dec : EqDecision UserAnswerFormat.
Proof. solve_decision. Defined.
#[export] Instance UserAnswerDetail_eq_dec : EqDecision UserAnswerDetail.
Proof. solve_decision. Defined.
#[export] Instance UserAnswerEvidencePreference_eq_dec :
  EqDecision UserAnswerEvidencePreference.
Proof. solve_decision. Defined.
#[export] Instance UserAnswerCitationPreference_eq_dec :
  EqDecision UserAnswerCitationPreference.
Proof. solve_decision. Defined.

Record DeliveryBranchTerminal := {
  dbt_branch_id : string;
  dbt_execution_id : option string;
  dbt_status : DeliveryBranchStatus;
  dbt_result_ref : option string;
  dbt_failure_ref : option string
}.

Record VerifiedDeliveryReference := {
  vdr_reference_id : string;
  vdr_kind : string;
  vdr_source_execution_id : option string
}.

Record VerifiedDeliveryEffect := {
  vde_effect_id : string;
  vde_kind : string;
  vde_status : VerifiedEffectStatus;
  vde_receipt_ref : option string;
  vde_source_execution_id : option string
}.

Record WorkspaceMaterializationReceipt := {
  wmr_receipt_id : string;
  wmr_source_execution_id : string;
  wmr_source_node_id : string;
  wmr_source_result_ref : string;
  wmr_target_path : string;
  wmr_artifact_kind : string;
  wmr_before_sha256 : option string;
  wmr_sha256 : string;
  wmr_bytes : N;
  wmr_write_effect_id : string;
  wmr_reread_verified : bool;
  wmr_materialized_at_ms : N
}.

Record DeliveryCoverage := {
  dc_required_obligation_ids : list string;
  dc_satisfied_obligation_ids : list string;
  dc_coverage_basis_points : N
}.

Record DeliveryUnresolved := {
  du_unresolved_id : string;
  du_kind : string;
  du_summary : string;
  du_source_execution_id : option string;
  du_obligation_id : option string
}.

Record DeliveryConflict := {
  dcf_conflict_id : string;
  dcf_summary : string;
  dcf_source_execution_ids : list string
}.

#[export] Instance DeliveryBranchTerminal_eq_dec : EqDecision DeliveryBranchTerminal.
Proof. solve_decision. Defined.
#[export] Instance VerifiedDeliveryReference_eq_dec : EqDecision VerifiedDeliveryReference.
Proof. solve_decision. Defined.
#[export] Instance VerifiedDeliveryEffect_eq_dec : EqDecision VerifiedDeliveryEffect.
Proof. solve_decision. Defined.
#[export] Instance WorkspaceMaterializationReceipt_eq_dec :
  EqDecision WorkspaceMaterializationReceipt.
Proof. solve_decision. Defined.
#[export] Instance DeliveryCoverage_eq_dec : EqDecision DeliveryCoverage.
Proof. solve_decision. Defined.
#[export] Instance DeliveryUnresolved_eq_dec : EqDecision DeliveryUnresolved.
Proof. solve_decision. Defined.
#[export] Instance DeliveryConflict_eq_dec : EqDecision DeliveryConflict.
Proof. solve_decision. Defined.

Record UserAnswerContract := {
  ua_language : string;
  ua_format : UserAnswerFormat;
  ua_detail : UserAnswerDetail;
  ua_conclusion_only : bool;
  ua_evidence_preference : UserAnswerEvidencePreference;
  ua_citation_preference : UserAnswerCitationPreference;
  ua_structural_constraints : list string;
  ua_other_format : option string
}.

#[export] Instance UserAnswerContract_eq_dec : EqDecision UserAnswerContract.
Proof. solve_decision. Defined.

Record DeliveryEnvelope := {
  de_envelope_id : string;
  de_revision : N;
  de_objective_id : string;
  de_pipeline_status : PipelineStatus;
  de_delivery_status : DeliveryStatus;
  de_branch_terminals : list DeliveryBranchTerminal;
  de_verified_receipts : list VerifiedDeliveryReference;
  de_verified_artifacts : list VerifiedDeliveryReference;
  de_verified_effects : list VerifiedDeliveryEffect;
  de_workspace_materializations : list WorkspaceMaterializationReceipt;
  de_coverage : DeliveryCoverage;
  de_unresolved : list DeliveryUnresolved;
  de_conflicts : list DeliveryConflict;
  de_cancellation : option CancellationReceipt;
  de_user_answer_contract : UserAnswerContract;
  de_created_at_ms : N
}.

#[export] Instance DeliveryEnvelope_eq_dec : EqDecision DeliveryEnvelope.
Proof. solve_decision. Defined.

Inductive AnswerOrigin :=
| ModelDirect | TerminalDelegate | TeamSynthesizer | TerminalNarrator
| FallbackModel | ProgrammaticFallback | RuntimeVerifiedFallback
| OriginCancellationReceipt.

Inductive AnswerValidationStatus := AvPending | AvValid | AvInvalid.

#[export] Instance AnswerOrigin_eq_dec : EqDecision AnswerOrigin.
Proof. solve_decision. Defined.
#[export] Instance AnswerValidationStatus_eq_dec : EqDecision AnswerValidationStatus.
Proof. solve_decision. Defined.

Record AnswerValidation := {
  av_status : AnswerValidationStatus;
  av_findings : list string;
  av_envelope_revision : option N
}.

#[export] Instance AnswerValidation_eq_dec : EqDecision AnswerValidation.
Proof. solve_decision. Defined.

Inductive TerminalPresentationState :=
| TpStarted | TpStreaming | TpValidating | TpCommitted | TpAborted | TpSuperseded.

#[export] Instance TerminalPresentationState_eq_dec : EqDecision TerminalPresentationState.
Proof. solve_decision. Defined.

Record PresentationModelAttempt := {
  pma_provider : string;
  pma_model : string;
  pma_failure : option string
}.

#[export] Instance PresentationModelAttempt_eq_dec : EqDecision PresentationModelAttempt.
Proof. solve_decision. Defined.

Record TerminalPresentation := {
  tp_presentation_id : string;
  tp_attempt_id : string;
  tp_envelope_id : string;
  tp_envelope_revision : N;
  tp_state : TerminalPresentationState;
  tp_answer_origin : AnswerOrigin;
  tp_source_execution_id : option string;
  tp_narrator_model : option string;
  tp_narrator_provider : option string;
  tp_models_attempted : list PresentationModelAttempt;
  tp_validation : AnswerValidation;
  tp_fallback_reason : option string;
  tp_generated_at_ms : N;
  tp_committed_at_ms : option N
}.

#[export] Instance TerminalPresentation_eq_dec : EqDecision TerminalPresentation.
Proof. solve_decision. Defined.
