(* ===== verification/Contract.v ===== *)
(** * The execution-graph contract

    [harness-contract/src/execution_graph/contract.rs]: node kinds, statuses,
    dependency policies, node specifications and results, the [ExecutionGraph]
    aggregate and its commands, with the local validation functions of the
    contract types.  Field setters ([set_...]) are the single-field writes
    ([graph.field = ...]) that the runtime performs. *)

From S2P Require Import Prelude Facts.

(** ** Kinds, roles, statuses *)

Inductive ExecutionNodeKind :=
| InlineModel | ToolBatch | AgentTask | Verify | Materialize | Synthesize
| Approval | SessionDispatch | Timer.

Inductive ExecutionWorkRole :=
| RolePlan | RoleTool | RoleEvidenceAnalyze | RoleCrossCheck | RoleSynthesize | RoleVerify.

Inductive ExecutionNodeStatus :=
| Planned | Ready | Running | WaitingInput | WaitingApproval | WaitingExternal
| Paused | Completed | Blocked | Failed | Cancelled.

Inductive ExecutionEdgeKind :=
| DependsOn | CrossTeamHandoff | ArtifactRequires | Verifies | Produces.

Inductive ExecutionServiceClass := Interactive | Foreground | Background | Maintenance.

#[export] Instance ExecutionNodeKind_eq_dec : EqDecision ExecutionNodeKind.
Proof. solve_decision. Defined.
#[export] Instance ExecutionWorkRole_eq_dec : EqDecision ExecutionWorkRole.
Proof. solve_decision. Defined.
#[export] Instance ExecutionNodeStatus_eq_dec : EqDecision ExecutionNodeStatus.
Proof. solve_decision. Defined.
#[export] Instance ExecutionEdgeKind_eq_dec : EqDecision ExecutionEdgeKind.
Proof. solve_decision. Defined.
#[export] Instance ExecutionServiceClass_eq_dec : EqDecision ExecutionServiceClass.
Proof. solve_decision. Defined.

(** [ExecutionNodeStatus::is_terminal] *)
Definition is_terminal (s : ExecutionNodeStatus) : bool :=
  match s with Completed | Blocked | Failed | Cancelled => true | _ => false end.

(** [ExecutionEdgeKind::is_dependency] *)
Definition is_dependency (k : ExecutionEdgeKind) : bool :=
  match k with DependsOn | ArtifactRequires => true | _ => false end.

(** [ExecutionServiceClass::rank] *)
Definition service_rank (c : ExecutionServiceClass) : nat :=
  match c with Interactive => 0 | Foreground => 1 | Background => 2 | Maintenance => 3 end.

(** [ExecutionServiceClass::bounded_by] *)
Definition bounded_by (c : ExecutionServiceClass)
    (parent_ceiling : option ExecutionServiceClass) : ExecutionServiceClass :=
  match parent_ceiling with
  | Some parent => if service_rank c <? service_rank parent then parent else c
  | None => c
  end.

(** ** Materialization requests *)

Inductive ExecutionMaterializationContent :=
| ExistingOrSourceSummary
| SourceSummary
| SourceJsonField (field : string).

Record ExecutionMaterializationRequest := {
  mr_source_node_id : string;
  mr_target_path : string;
  mr_artifact_kind : string;
  mr_content : ExecutionMaterializationContent;
  mr_expected_sha256 : option string
}.

(** [Path::is_absolute] and a [Component::ParentDir] among [Path::components]
    on a Unix path (which has no [Prefix] component). *)
Definition path_is_absolute (p : string) : bool := starts_with p "/".
Definition path_has_parent_dir (p : string) : bool :=
  existsb (String.eqb "..") (split_char slash p).

(** [ExecutionMaterializationRequest::validate] *)
Definition materialization_validate (r : ExecutionMaterializationRequest) :
  Result string unit :=
  _ ← guard_err (trim_is_empty (mr_source_node_id r)
                 || trim_is_empty (mr_target_path r)
                 || trim_is_empty (mr_artifact_kind r))
        "materialization source, target and artifact kind are required"%string;
  _ ← guard_err (path_is_absolute (mr_target_path r)
                 || path_has_parent_dir (mr_target_path r))
        "materialization target must be a workspace-relative path"%string;
  _ ← match mr_content r with
      | SourceJsonField field =>
          guard_err (trim_is_empty field) "materialization JSON field is empty"%string
      | _ => Ok tt
      end;
  guard_err
    match mr_expected_sha256 r with
    | Some digest =>
        match strip_prefix digest "sha256:" with
        | None => true
        | Some hex => negb (str_len hex =? 64)%N || negb (str_forallb is_ascii_hexdigit hex)
        end
    | None => false
    end "materialization expected_sha256 is invalid"%string.

(** ** Dependency policies and work contracts *)

(** [DependencyPredicate::EvidenceReady] *)
Record DependencyPredicate := {
  dp_minimum : N;
  dp_required_fact_kinds : list TerminalFactKind;
  dp_accepted_execution_statuses : list ExecutionNodeStatus;
  dp_accepted_acceptance_verdicts : list AcceptanceVerdict;
  dp_require_committed_effect : bool
}.

#[export] Instance DependencyPredicate_eq_dec : EqDecision DependencyPredicate.
Proof. solve_decision. Defined.

Inductive ExecutionDependencyPolicy :=
| PolicyAll
| PolicyAny (cancel_remaining : bool)
| PolicyQuorum (minimum : N) (cancel_remaining : bool)
| PolicyEvidenceReady (predicate : DependencyPredicate) (cancel_remaining : bool)
| PolicyFinally.

#[export] Instance ExecutionDependencyPolicy_eq_dec : EqDecision ExecutionDependencyPolicy.
Proof. solve_decision. Defined.

(** [ExecutionDependencyPolicy::cancel_remaining] *)
Definition policy_cancel_remaining (p : ExecutionDependencyPolicy) : bool :=
  match p with
  | PolicyAll => false
  | PolicyAny c | PolicyQuorum _ c => c
  | PolicyEvidenceReady _ c => c
  | PolicyFinally => false
  end.

Record ExecutionWorkContract := {
  wc_role : ExecutionWorkRole;
  wc_required : bool;
  wc_dependency : ExecutionDependencyPolicy;
  wc_cancellation_group : option string;
  wc_required_evidence_refs : list string;
  wc_input_artifact_refs : list string;
  wc_output_artifact_kinds : list string;
  wc_context_view_ref : option string;
  wc_model_profile : option string;
  wc_reasoning_effort : option string;
  wc_expected_input_tokens : N;
  wc_expected_output_tokens : N;
  wc_expected_duration_ms : N;
  wc_scheduling_priority : N
}.

#[export] Instance ExecutionWorkContract_eq_dec : EqDecision ExecutionWorkContract.
Proof. solve_decision. Defined.

(** [ExecutionWorkContract::new] *)
Definition work_contract_new (role : ExecutionWorkRole) : ExecutionWorkContract :=
  {| wc_role := role; wc_required := true; wc_dependency := PolicyAll;
     wc_cancellation_group := None; wc_required_evidence_refs := [];
     wc_input_artifact_refs := []; wc_output_artifact_kinds := [];
     wc_context_view_ref := None; wc_model_profile := None;
     wc_reasoning_effort := None; wc_expected_input_tokens := 0;
     wc_expected_output_tokens := 0; wc_expected_duration_ms := 0;
     wc_scheduling_priority := 0 |}.

Record ExecutionCompletionContract := {
  ecc_required_node_ids : list string;
  ecc_required_artifact_kinds : list string;
  ecc_allow_unresolved_conflicts : bool
}.

(** ** Lineage and parent binding *)

Record ExecutionGraphLineage := {
  gl_session_id : string;
  gl_turn_id : string;
  gl_root_task_id : string;
  gl_task_id : string;
  gl_generation : N
}.

#[export] Instance ExecutionGraphLineage_eq_dec : EqDecision ExecutionGraphLineage.
Proof. solve_decision. Defined.

(** [ExecutionGraphLineage::validate] *)
Definition lineage_validate (l : ExecutionGraphLineage) : Result string unit :=
  _ ← guard_err (trim_is_empty (gl_session_id l))
        "execution graph session_id must not be empty"%string;
  _ ← guard_err (trim_is_empty (gl_turn_id l))
        "execution graph turn_id must not be empty"%string;
  _ ← guard_err (trim_is_empty (gl_root_task_id l))
        "execution graph root_task_id must not be empty"%string;
  _ ← guard_err (trim_is_empty (gl_task_id l))
        "execution graph task_id must not be empty"%string;
  guard_err (gl_generation l =? 0)%N
    "execution graph generation must be positive"%string.

Record ExecutionParentBinding := {
  pb_execution_id : string;
  pb_node_id : string
}.

#[export] Instance ExecutionParentBinding_eq_dec : EqDecision ExecutionParentBinding.
Proof. solve_decision. Defined.

(** ** Nodes and edges *)

Record ExecutionEdge := {
  edge_from : string;
  edge_to : string;
  edge_kind : ExecutionEdgeKind
}.

#[export] Instance ExecutionEdge_eq_dec : EqDecision ExecutionEdge.
Proof. solve_decision. Defined.

Record ExecutionAcceptance := {
  acc_required : RequiredAcceptance;
  acc_criteria : list string;
  acc_required_evidence : list string;
  acc_minimum_score_basis_points : option N
}.

#[export] Instance ExecutionAcceptance_eq_dec : EqDecision ExecutionAcceptance.
Proof. solve_decision. Defined.

Definition ExecutionAcceptance_default : ExecutionAcceptance :=
  {| acc_required := RequiredAcceptance_default; acc_criteria := [];
     acc_required_evidence := []; acc_minimum_score_basis_points := None |}.

Record ExecutionRetryPolicy := {
  rp_max_attempts : N;
  rp_retryable_failure_kinds : list string;
  rp_base_backoff_ms : N;
  rp_maximum_backoff_ms : N
}.

#[export] Instance ExecutionRetryPolicy_eq_dec : EqDecision ExecutionRetryPolicy.
Proof. solve_decision. Defined.

(** [ExecutionRetryPolicy::default] *)
Definition ExecutionRetryPolicy_default : ExecutionRetryPolicy :=
  {| rp_max_attempts := 1; rp_retryable_failure_kinds := [];
     rp_base_backoff_ms := 500; rp_maximum_backoff_ms := 30000 |}.

Record ExecutionNodeSpec := {
  ns_id : string;
  ns_kind : ExecutionNodeKind;
  ns_payload_ref : string;
  ns_executor_kind : string;
  ns_idempotency_key : string;
  ns_lease_ref : option ContextBudgetLeaseRef;
  ns_acceptance : ExecutionAcceptance;
  ns_retry_policy : ExecutionRetryPolicy;
  ns_resource_scopes : list string;
  ns_work : option ExecutionWorkContract
}.

#[export] Instance ExecutionNodeSpec_eq_dec : EqDecision ExecutionNodeSpec.
Proof. solve_decision. Defined.

(** [ExecutionNodeSpec::new]; the fresh UUID is an argument. *)
Definition node_spec_new (uuid : string) (kind : ExecutionNodeKind)
    (executor_kind payload_ref : string) : ExecutionNodeSpec :=
  let id := ("execution-node-" +:+ uuid)%string in
  {| ns_id := id; ns_kind := kind; ns_payload_ref := payload_ref;
     ns_executor_kind := executor_kind; ns_idempotency_key := id;
     ns_lease_ref := None; ns_acceptance := ExecutionAcceptance_default;
     ns_retry_policy := ExecutionRetryPolicy_default; ns_resource_scopes := [];
     ns_work := None |}.

(** ** Node results *)

Record ExecutionFailure := {
  ef_kind : string;
  ef_message : string;
  ef_retryable : bool;
  ef_evidence_refs : list EvidenceAccessRef
}.

#[export] Instance ExecutionFailure_eq_dec : EqDecision ExecutionFailure.
Proof. solve_decision. Defined.

Record ExecutionUsage := {
  us_required_acceptance : RequiredAcceptance;
  us_observed_acceptance : ObservedAcceptance;
  us_acceptance_evaluation : option AcceptanceEvaluation;
  us_model : option string;
  us_input_tokens : N;
  us_output_tokens : N;
  us_cache_creation_input_tokens : N;
  us_cache_read_input_tokens : N;
  us_cached_tokens : N;
  us_duration_ms : N;
  us_tool_calls : N;
  us_duplicate_tool_calls : N;
  us_max_tool_concurrency_observed : N;
  us_parallel_tool_batches : N;
  us_runtime_write_attempt_paths : list string;
  us_runtime_observed_resource_scopes : list string
}.

#[export] Instance ExecutionUsage_eq_dec : EqDecision ExecutionUsage.
Proof. solve_decision. Defined.

(** [ExecutionUsage::default] *)
Definition ExecutionUsage_default : ExecutionUsage :=
  {| us_required_acceptance := RequiredAcceptance_default;
     us_observed_acceptance := ObservedAcceptance_default;
     us_acceptance_evaluation := None; us_model := None;
     us_input_tokens := 0; us_output_tokens := 0;
     us_cache_creation_input_tokens := 0; us_cache_read_input_tokens := 0;
     us_cached_tokens := 0; us_duration_ms := 0; us_tool_calls := 0;
     us_duplicate_tool_calls := 0; us_max_tool_concurrency_observed := 0;
     us_parallel_tool_batches := 0; us_runtime_write_attempt_paths := [];
     us_runtime_observed_resource_scopes := [] |}.

Record ExecutionNodeResult := {
  nr_status : ExecutionNodeStatus;
  nr_result_ref : option string;
  nr_summary : option string;
  nr_evidence_refs : list EvidenceAccessRef;
  nr_failure : option ExecutionFailure;
  nr_usage : ExecutionUsage;
  nr_finished_at_ms : N
}.

#[export] Instance ExecutionNodeResult_eq_dec : EqDecision ExecutionNodeResult.
Proof. solve_decision. Defined.

Record ExecutionRecoveryCursor := {
  rc_commit_cursor : N;
  rc_node_attempts : gmap string N
}.

#[export] Instance ExecutionRecoveryCursor_eq_dec : EqDecision ExecutionRecoveryCursor.
Proof. solve_decision. Defined.

Definition ExecutionRecoveryCursor_default : ExecutionRecoveryCursor :=
  {| rc_commit_cursor := 0; rc_node_attempts := ∅ |}.

(** ** The graph aggregate *)

Record ExecutionGraph := {
  eg_id : string;
  eg_revision : N;
  eg_objective : string;
  eg_service_class : ExecutionServiceClass;
  eg_parent_execution : option ExecutionParentBinding;
  eg_lineage : option ExecutionGraphLineage;
  eg_continuation_binding : option CollaborationContinuationBinding;
  eg_nodes : list ExecutionNodeSpec;
  eg_edges : list ExecutionEdge;
  eg_node_statuses : gmap string ExecutionNodeStatus;
  eg_node_results : gmap string ExecutionNodeResult;
  eg_recovery_cursor : ExecutionRecoveryCursor;
  eg_delivery_envelope : option DeliveryEnvelope;
  eg_terminal_presentation : option TerminalPresentation
}.

#[export] Instance ExecutionGraph_eq_dec : EqDecision ExecutionGraph.
Proof. solve_decision. Defined.

(** [ExecutionGraph::new]; the fresh UUID is an argument. *)
Definition execution_graph_new (uuid objective : string) : ExecutionGraph :=
  {| eg_id := ("execution-graph-" +:+ uuid)%string; eg_revision := 0;
     eg_objective := objective; eg_service_class := Interactive;
     eg_parent_execution := None; eg_lineage := None;
     eg_continuation_binding := None; eg_nodes := []; eg_edges := [];
     eg_node_statuses := ∅; eg_node_results := ∅;
     eg_recovery_cursor := ExecutionRecoveryCursor_default;
     eg_delivery_envelope := None; eg_terminal_presentation := None |}.

Inductive ExecutionGraphCommand :=
| CmdStart (expected_revision : N)
| CmdAdvance (expected_revision : N)
| CmdPause (expected_revision : N) (reason : string)
| CmdResume (expected_revision : N)
| CmdCancel (expected_revision : N) (reason : string)
| CmdCancelNode (expected_revision : N) (node_id reason : string)
| CmdSubmitApproval (expected_revision : N) (node_id : string)
    (decision : ApprovalDecisionCommand)
| CmdResolveExternal (expected_revision : N) (node_id result_ref correlation_id : string)
| CmdReplan (expected_revision : N) (reason replacement_payload_ref : string).

#[export] Instance ExecutionGraphCommand_eq_dec : EqDecision ExecutionGraphCommand.
Proof. solve_decision. Defined.
