(* ===== verification/Approval.v ===== *)
(** * Approvals: contract, routing, and the match of a grant

    [harness-contract/src/policy/approval.rs] with the parts of
    [policy/mod.rs], [tool/mod.rs] and [security/mod.rs] it uses; the pure part
    of [runtime/src/approval/]: the router ([router.rs]), the risk of a tool
    effect and the eligibility for steward approval ([coordinator.rs]), and when
    a grant covers a context ([approval_queue.rs]). *)

From S2P Require Import Prelude Facts Contract.

(** ** Tool effects *)

Inductive PermissionResource :=
| PrFile | PrShell | PrNetwork | PrProvider | PrConnector | PrChannel | PrTool | PrMemory
| PrMatrix | PrSession | PrTask | PrApproval | PrConfig.

Inductive PermissionOperation :=
| PoRead | PoWrite | PoDelete | PoExecute | PoSend | PoControl | PoCall.

Record PermissionScope := {
  ps_resource : PermissionResource;
  ps_operation : PermissionOperation;
  ps_target : option string
}.

Inductive PermissionMode := PmReadOnly | PmWorkspaceWrite | PmDangerFullAccess.

Inductive ToolEffectKind :=
| TeRead | TeWrite | TeNetwork | TeProcess | TePackage | TeSystem | TeDestructive | TeUnknown.

Inductive ToolIdempotency :=
| TiIdempotent | TiIdempotentWithKey | TiNonIdempotent | TiUnknown.

Inductive ToolApprovalClass := TaNone | TaPolicy | TaUser | TaAdministrator.

Inductive DataClassification := DcPublic | DcInternal | DcConfidential | DcSecret.
Inductive EffectReversibility :=
| ErReversible | ErCompensatable | ErIrreversible | ErUnknown.
Inductive EffectExternality :=
| EeInternal | EeWorkspace | EeNetworkRead | EeExternalMutation | EeSystem | EeUnknown.
Inductive EffectNovelty := EnRoutine | EnNewTarget | EnNewCapability | EnUnknown.
Inductive EffectBlastRadius :=
| EbItem | EbWorkspace | EbExternalAccount | EbSystem | EbUnbounded | EbUnknown.

Record EffectAssessment := {
  ea_reversibility : EffectReversibility;
  ea_externality : EffectExternality;
  ea_data_sensitivity : DataClassification;
  ea_novelty : EffectNovelty;
  ea_blast_radius : EffectBlastRadius
}.

Record ToolEffectDescriptor := {
  td_tool_id : string;
  td_descriptor_hash : string;
  td_effect_kind : ToolEffectKind;
  td_idempotency : ToolIdempotency;
  td_scopes : list PermissionScope;
  td_required_permission : PermissionMode;
  td_approval_class : ToolApprovalClass;
  td_uses_network : bool;
  td_spawns_process : bool;
  td_mutates_packages : bool;
  td_mutates_system : bool;
  td_assessment : EffectAssessment
}.

Inductive TaskRisk := RiskLow | RiskMedium | RiskHigh | RiskCritical.

#[export] Instance PermissionResource_eq_dec : EqDecision PermissionResource.
Proof. solve_decision. Defined.
#[export] Instance PermissionOperation_eq_dec : EqDecision PermissionOperation.
Proof. solve_decision. Defined.
#[export] Instance PermissionScope_eq_dec : EqDecision PermissionScope.
Proof. solve_decision. Defined.
#[export] Instance PermissionMode_eq_dec : EqDecision PermissionMode.
Proof. solve_decision. Defined.
#[export] Instance ToolEffectKind_eq_dec : EqDecision ToolEffectKind.
Proof. solve_decision. Defined.
#[export] Instance ToolIdempotency_eq_dec : EqDecision ToolIdempotency.
Proof. solve_decision. Defined.
#[export] Instance ToolApprovalClass_eq_dec : EqDecision ToolApprovalClass.
Proof. solve_decision. Defined.
#[export] Instance DataClassification_eq_dec : EqDecision DataClassification.
Proof. solve_decision. Defined.
#[export] Instance EffectReversibility_eq_dec : EqDecision EffectReversibility.
Proof. solve_decision. Defined.
#[export] Instance EffectExternality_eq_dec : EqDecision EffectExternality.
Proof. solve_decision. Defined.
#[export] Instance EffectNovelty_eq_dec : EqDecision EffectNovelty.
Proof. solve_decision. Defined.
#[export] Instance EffectBlastRadius_eq_dec : EqDecision EffectBlastRadius.
Proof. solve_decision. Defined.
#[export] Instance EffectAssessment_eq_dec : EqDecision EffectAssessment.
Proof. solve_decision. Defined.
#[export] Instance ToolEffectDescriptor_eq_dec : EqDecision ToolEffectDescriptor.
Proof. solve_decision. Defined.
#[export] Instance TaskRisk_eq_dec : EqDecision TaskRisk.
Proof. solve_decision. Defined.

(** ** Principals ([security/mod.rs]) *)

Inductive PrincipalKind := PkHuman | PkService | PkAgent | PkAnonymous.
Inductive PrincipalAssurance := PaNone | PaNormal | PaHumanInteractive.

#[export] Instance PrincipalKind_eq_dec : EqDecision PrincipalKind.
Proof. solve_decision. Defined.
#[export] Instance PrincipalAssurance_eq_dec : EqDecision PrincipalAssurance.
Proof. solve_decision. Defined.

Record PrincipalClaims := {
  pl_principal_id : string;
  pl_tenant_id : string;
  pl_grant_id : string;
  pl_kind : PrincipalKind;
  pl_scopes : list string;
  pl_capabilities : list string;
  pl_assurance : PrincipalAssurance;
  pl_issuer : string;
  pl_issued_at_ms : N;
  pl_expires_at_ms : option N;
  pl_credential_fingerprint : string;
  pl_credential_epoch : N;
  pl_profile_revision : N;
  pl_app_profiles : gmap string string
}.

(** [has_capability], [is_human_interactive] *)
Definition has_capability (p : PrincipalClaims) (capability : string) : bool :=
  existsb (String.eqb capability) (pl_capabilities p).

Definition is_human_interactive (p : PrincipalClaims) : bool :=
  bool_decide (pl_kind p = PkHuman) && bool_decide (pl_assurance p = PaHumanInteractive).

(** ** Approval requests and grants *)

Inductive ApprovalSourceKind :=
| AsSession | AsAgent | AsTeam | AsMission | AsSteward | AsEvolution | AsApplication.

Record ApprovalApplicationSource := {
  aa_app_id : string;
  aa_correlation_schema : string;
  aa_decision_capability : string
}.

Record ApprovalSource := {
  as_kind : ApprovalSourceKind;
  as_session_id : option string;
  as_agent_id : option string;
  as_team_id : option string;
  as_mission_id : option string;
  as_resource_ref : option string;
  as_review_ref : option string;
  as_application : option ApprovalApplicationSource
}.

Inductive ApprovalProfile := ApSupervised | ApBalanced | ApAutonomous | ApTrustAll.
Inductive SandboxPosture := SpReadOnly | SpWorkspaceWrite | SpHostFullAccess.
Inductive ApprovalTimeoutPolicy :=
| ToPending | ToAutoDeny | ToContinueAlternative | ToAutoApproveOnce.
Inductive ApprovalDomain :=
| AdExecution | AdKnowledge | AdSkill | AdEvolution | AdApplication | AdSystem.
Inductive LowRiskTimeoutAction := LrAutoApproveOnce | LrPending.
Inductive ApprovalStatus :=
| StPending | StApproved | StDenied | StSkipped | StTimedOut | StCancelled | StSuperseded.
Inductive ApprovalGrantStatus := AgActive | AgRevoked | AgExpired.

Record ApprovalContext := {
  cx_principal_id : string;
  cx_profile_id : string;
  cx_approval_profile : option ApprovalProfile;
  cx_workspace_key : string;
  cx_session_id : option string;
  cx_turn_id : option string;
  cx_task_id : option string;
  cx_capability : string;
  cx_invocation_id : option string;
  cx_execution_id : option string;
  cx_strategy_decision_ref : option string;
  cx_source_surface : option string;
  cx_resource_targets : list string;
  cx_effect : option ToolEffectDescriptor;
  cx_explicit_ask : bool;
  cx_policy_revision : N;
  cx_requested_sandbox_posture : option SandboxPosture;
  cx_effective_sandbox_posture : option SandboxPosture
}.

Record ApprovalDecision := {
  dn_approved : bool;
  dn_reason : string;
  dn_scope : ApprovalGrantScope;
  dn_actor : ApprovalDecisionActor;
  dn_evidence_refs : list string;
  dn_decided_at_ms : N
}.

Record ApprovalRequest := {
  aq_approval_id : string;
  aq_source : ApprovalSource;
  aq_context : ApprovalContext;
  aq_action : string;
  aq_summary : string;
  aq_risk : TaskRisk;
  aq_domain : ApprovalDomain;
  aq_blocks_execution : bool;
  aq_skippable : bool;
  aq_allowed_scopes : list ApprovalGrantScope;
  aq_evidence_refs : list string;
  aq_timeout_policy : ApprovalTimeoutPolicy;
  aq_status : ApprovalStatus;
  aq_decision : option ApprovalDecision;
  aq_created_at_ms : N;
  aq_expires_at_ms : option N;
  aq_resolved_at_ms : option N
}.

Record SubmitApprovalRequest := {
  sa_source : ApprovalSource;
  sa_context : ApprovalContext;
  sa_action : string;
  sa_summary : string;
  sa_risk : TaskRisk;
  sa_domain : ApprovalDomain;
  sa_blocks_execution : bool;
  sa_evidence_refs : list string;
  sa_timeout_policy : ApprovalTimeoutPolicy
}.

Record ApprovalDecisionReceipt := {
  rd_approval_id : string;
  rd_status : ApprovalStatus;
  rd_route_back : ApprovalSource;
  rd_message : string;
  rd_grant_id : option string
}.

Record ApprovalGrant := {
  gt_grant_id : string;
  gt_approval_id : string;
  gt_scope : ApprovalGrantScope;
  gt_principal_id : string;
  gt_profile_id : string;
  gt_workspace_key : string;
  gt_capability : string;
  gt_session_id : option string;
  gt_turn_id : option string;
  gt_task_id : option string;
  gt_invocation_id : option string;
  gt_resource_targets : list string;
  gt_effect_descriptor_hash : option string;
  gt_risk_ceiling : TaskRisk;
  gt_policy_revision : N;
  gt_status : ApprovalGrantStatus;
  gt_issued_by : ApprovalDecisionActor;
  gt_created_at_ms : N;
  gt_expires_at_ms : option N;
  gt_revoked_at_ms : option N;
  gt_revoke_reason : option string
}.

#[export] Instance ApprovalSourceKind_eq_dec : EqDecision ApprovalSourceKind.
Proof. solve_decision. Defined.
#[export] Instance ApprovalApplicationSource_eq_dec : EqDecision ApprovalApplicationSource.
Proof. solve_decision. Defined.
#[export] Instance ApprovalSource_eq_dec : EqDecision ApprovalSource.
Proof. solve_decision. Defined.
#[export] Instance ApprovalProfile_eq_dec : EqDecision ApprovalProfile.
Proof. solve_decision. Defined.
#[export] Instance SandboxPosture_eq_dec : EqDecision SandboxPosture.
Proof. solve_decision. Defined.
#[export] Instance ApprovalTimeoutPolicy_eq_dec : EqDecision ApprovalTimeoutPolicy.
Proof. solve_decision. Defined.
#[export] Instance ApprovalDomain_eq_dec : EqDecision ApprovalDomain.
Proof. solve_decision. Defined.
#[export] Instance LowRiskTimeoutAction_eq_dec : EqDecision LowRiskTimeoutAction.
Proof. solve_decision. Defined.
#[export] Instance ApprovalStatus_eq_dec : EqDecision ApprovalStatus.
Proof. solve_decision. Defined.
#[export] Instance ApprovalGrantStatus_eq_dec : EqDecision ApprovalGrantStatus.
Proof. solve_decision. Defined.
#[export] Instance ApprovalContext_eq_dec : EqDecision ApprovalContext.
Proof. solve_decision. Defined.
#[export] Instance ApprovalDecision_eq_dec : EqDecision ApprovalDecision.
Proof. solve_decision. Defined.
#[export] Instance ApprovalRequest_eq_dec : EqDecision ApprovalRequest.
Proof. solve_decision. Defined.
#[export] Instance ApprovalGrant_eq_dec : EqDecision ApprovalGrant.
Proof. solve_decision. Defined.

(** [ApprovalStatus::as_str] and its reading back from an event's status *)
Definition approval_status_as_str (s : ApprovalStatus) : string :=
  match s with
  | StPending => "pending" | StApproved => "approved" | StDenied => "denied"
  | StSkipped => "skipped" | StTimedOut => "timed_out" | StCancelled => "cancelled"
  | StSuperseded => "superseded"
  end.

Definition status_of_event (status : option string) (current : ApprovalStatus) : ApprovalStatus :=
  match status with
  | None => current
  | Some s =>
      if String.eqb s "approved" then StApproved
      else if String.eqb s "denied" then StDenied
      else if String.eqb s "skipped" then StSkipped
      else if String.eqb s "timed_out" then StTimedOut
      else if String.eqb s "cancelled" then StCancelled
      else if String.eqb s "superseded" then StSuperseded
      else current
  end.

(** [ApprovalStatus::terminal] *)
Definition approval_terminal (s : ApprovalStatus) : bool :=
  match s with StPending => false | _ => true end.

(** [ApprovalSource::validate], [typed_application] *)
Definition source_validate (s : ApprovalSource) : Result string unit :=
  match as_kind s with
  | AsApplication =>
      application ← ok_or "application_approval_source_is_incomplete"%string (as_application s);
      guard_err (trim_is_empty (aa_app_id application)
                 || trim_is_empty (aa_correlation_schema application)
                 || trim_is_empty (aa_decision_capability application)
                 || match as_review_ref s with Some r => trim_is_empty r | None => true end)
        "application_approval_source_is_incomplete"%string
  | _ =>
      guard_err (bool_decide (is_Some (as_application s)))
        "non_application_approval_cannot_include_application_metadata"%string
  end.

Definition typed_application (s : ApprovalSource) : option ApprovalApplicationSource :=
  if decide (as_kind s = AsApplication) then as_application s else None.

(** [validate_approval_context] *)
Definition validate_approval_context (c : ApprovalContext) : Result string unit :=
  _ ← guard_err (trim_is_empty (cx_principal_id c) || trim_is_empty (cx_profile_id c)
                 || trim_is_empty (cx_workspace_key c) || trim_is_empty (cx_capability c))
        "approval context is incomplete"%string;
  match cx_effect c with
  | Some effect =>
      guard_err (trim_is_empty (td_tool_id effect) || trim_is_empty (td_descriptor_hash effect))
        "approval effect descriptor is incomplete"%string
  | None => Ok tt
  end.

(** ** Risk and routing *)

(** [risk_rank] *)
Definition risk_rank (r : TaskRisk) : N :=
  match r with RiskLow => 0 | RiskMedium => 1 | RiskHigh => 2 | RiskCritical => 3 end.

(** [nonblocking_approval_ttl_ms] *)
Definition nonblocking_approval_ttl_ms (r : TaskRisk) : N := (5 * 60 * 1000 * (risk_rank r + 1))%N.

Definition unknown_or_system_effect (k : ToolEffectKind) : bool :=
  match k with TeSystem | TeDestructive | TeUnknown => true | _ => false end.

(** [task_risk_for_effect] *)
Definition task_risk_for_effect (d : ToolEffectDescriptor) : TaskRisk :=
  let a := td_assessment d in
  if bool_decide (td_approval_class d = TaAdministrator) || td_mutates_system d
     || unknown_or_system_effect (td_effect_kind d)
     || match ea_externality a with EeSystem | EeUnknown => true | _ => false end
  then RiskCritical
  else if bool_decide (td_approval_class d = TaUser)
     || bool_decide (ea_data_sensitivity a = DcSecret)
     || bool_decide (ea_externality a = EeExternalMutation)
     || bool_decide (ea_reversibility a = ErIrreversible)
  then RiskHigh
  else if match td_effect_kind d with TeWrite | TeProcess | TePackage => true | _ => false end
     || match ea_reversibility a with ErCompensatable | ErUnknown => true | _ => false end
  then RiskMedium
  else RiskLow.

Inductive AutonomyProfileId := AuCautious | AuSupervised | AuStewarded | AuAutonomous | AuYolo.

Inductive RouterDecision :=
| RtAutoApprove | RtStewardApprove | RtHuman | RtDeny | RtContinueAlternative.

#[export] Instance AutonomyProfileId_eq_dec : EqDecision AutonomyProfileId.
Proof. solve_decision. Defined.
#[export] Instance RouterDecision_eq_dec : EqDecision RouterDecision.
Proof. solve_decision. Defined.

(** [ApprovalRouter::profile_for_approval_profile] *)
Definition profile_for_approval_profile (p : ApprovalProfile) : AutonomyProfileId :=
  match p with
  | ApSupervised => AuCautious | ApBalanced => AuSupervised
  | ApAutonomous => AuAutonomous | ApTrustAll => AuYolo
  end.

(** [ApprovalRouter::resolve] *)
Definition router_resolve (profile : AutonomyProfileId) (domain : ApprovalDomain) (risk : TaskRisk)
    (blocks_execution explicit_ask : bool) : RouterDecision :=
  let non_blocking_background :=
    negb blocks_execution
    && match domain with AdKnowledge | AdEvolution | AdSkill => true | _ => false end in
  match profile with
  | AuCautious | AuSupervised =>
      if bool_decide (risk = RiskLow) && negb explicit_ask then RtAutoApprove
      else if non_blocking_background then RtContinueAlternative
      else RtHuman
  | AuStewarded =>
      match risk with
      | RiskLow => RtAutoApprove
      | RiskMedium =>
          if negb explicit_ask then RtStewardApprove
          else if non_blocking_background then RtContinueAlternative else RtHuman
      | _ => if non_blocking_background then RtContinueAlternative else RtHuman
      end
  | AuAutonomous | AuYolo => RtAutoApprove
  end.

(** [steward_can_approve] *)
Definition steward_can_approve (profile : ApprovalProfile) (d : ToolEffectDescriptor)
    (risk : TaskRisk) : bool :=
  let a := td_assessment d in
  if match td_approval_class d with TaUser | TaAdministrator => true | _ => false end
     || bool_decide (ea_data_sensitivity a = DcSecret)
     || match ea_externality a with EeExternalMutation | EeSystem | EeUnknown => true | _ => false end
     || unknown_or_system_effect (td_effect_kind d)
  then false
  else bool_decide (profile = ApAutonomous) && bool_decide (risk = RiskMedium)
       && match ea_reversibility a with ErReversible | ErCompensatable => true | _ => false end.

(** ** Grants *)

(** [approval_grant_from_request] *)
Definition approval_grant_from_request (r : ApprovalRequest) (scope : ApprovalGrantScope)
    (actor : ApprovalDecisionActor) (created_at_ms : N) : ApprovalGrant :=
  let c := aq_context r in
  {| gt_grant_id := "approval-grant:" +:+ aq_approval_id r; gt_approval_id := aq_approval_id r;
     gt_scope := scope; gt_principal_id := cx_principal_id c; gt_profile_id := cx_profile_id c;
     gt_workspace_key := cx_workspace_key c; gt_capability := cx_capability c;
     gt_session_id := cx_session_id c; gt_turn_id := cx_turn_id c; gt_task_id := cx_task_id c;
     gt_invocation_id := cx_invocation_id c; gt_resource_targets := cx_resource_targets c;
     gt_effect_descriptor_hash := td_descriptor_hash <$> cx_effect c;
     gt_risk_ceiling := aq_risk r; gt_policy_revision := cx_policy_revision c;
     gt_status := AgActive; gt_issued_by := actor; gt_created_at_ms := created_at_ms;
     gt_expires_at_ms := None; gt_revoked_at_ms := None; gt_revoke_reason := None |}.

(** [expires_at_ms.is_some_and(|expires| expires <= now)] *)
Definition grant_expired (g : ApprovalGrant) (now : N) : bool :=
  match gt_expires_at_ms g with Some e => (e <=? now)%N | None => false end.

Definition same_some (a b : option string) : bool :=
  bool_decide (is_Some a) && bool_decide (a = b).

(** [grant_matches] *)
Definition grant_matches (g : ApprovalGrant) (c : ApprovalContext) (risk : TaskRisk) (now : N) :
  bool :=
  if negb (bool_decide (gt_status g = AgActive))
     || negb (String.eqb (gt_principal_id g) (cx_principal_id c))
     || negb (String.eqb (gt_profile_id g) (cx_profile_id c))
     || negb (String.eqb (gt_workspace_key g) (cx_workspace_key c))
     || negb (String.eqb (gt_capability g) (cx_capability c))
     || negb (gt_policy_revision g =? cx_policy_revision c)%N
     || (risk_rank (gt_risk_ceiling g) <? risk_rank risk)%N
  then false
  else if grant_expired g now then false
  else if negb (bool_decide (gt_effect_descriptor_hash g = (td_descriptor_hash <$> cx_effect c)))
  then false
  else if negb (bool_decide (gt_resource_targets g = []))
          && negb (forallb (fun t => memb (gt_resource_targets g) t) (cx_resource_targets c))
  then false
  else match gt_scope g with
       | GsOnce => same_some (gt_invocation_id g) (cx_invocation_id c)
       | GsTurn => same_some (gt_session_id g) (cx_session_id c)
                   && same_some (gt_turn_id g) (cx_turn_id c)
       | GsTask => same_some (gt_session_id g) (cx_session_id c)
                   && same_some (gt_task_id g) (cx_task_id c)
       | GsSession => same_some (gt_session_id g) (cx_session_id c)
       | GsGlobal => true
       end.

(** ** What a matching grant covers *)

(** The scope of a grant, on the identities it was issued for. *)
Definition within_scope (g : ApprovalGrant) (c : ApprovalContext) : Prop :=
  let same (a b : option string) := is_Some a /\ a = b in
  match gt_scope g with
  | GsOnce => same (gt_invocation_id g) (cx_invocation_id c)
  | GsTurn => same (gt_session_id g) (cx_session_id c) /\ same (gt_turn_id g) (cx_turn_id c)
  | GsTask => same (gt_session_id g) (cx_session_id c) /\ same (gt_task_id g) (cx_task_id c)
  | GsSession => same (gt_session_id g) (cx_session_id c)
  | GsGlobal => True
  end.

(** What it means that a grant authorizes an action of this context and risk. *)
Record covers (g : ApprovalGrant) (c : ApprovalContext) (risk : TaskRisk) (now : N) : Prop := {
  cv_active : gt_status g = AgActive;
  cv_principal : gt_principal_id g = cx_principal_id c;
  cv_profile : gt_profile_id g = cx_profile_id c;
  cv_workspace : gt_workspace_key g = cx_workspace_key c;
  cv_capability : gt_capability g = cx_capability c;
  cv_revision : gt_policy_revision g = cx_policy_revision c;
  cv_risk : (risk_rank risk <= risk_rank (gt_risk_ceiling g))%N;
  cv_time : forall e, gt_expires_at_ms g = Some e -> (now < e)%N;
  cv_effect : gt_effect_descriptor_hash g = td_descriptor_hash <$> cx_effect c;
  cv_targets : gt_resource_targets g = [] \/
               forall t, t ∈ cx_resource_targets c -> t ∈ gt_resource_targets g;
  cv_scope : within_scope g c
}.

Lemma same_some_spec a b : same_some a b = true <-> is_Some a /\ a = b.
Proof. unfold same_some. by rewrite andb_true_iff, !bool_decide_eq_true. Qed.

Lemma grant_expired_spec g now :
  grant_expired g now = false <-> forall e, gt_expires_at_ms g = Some e -> (now < e)%N.
Proof.
  unfold grant_expired. destruct (gt_expires_at_ms g) as [e|]; [|by split].
  rewrite N.leb_gt. split; [by intros ? ? [= <-] | auto].
Qed.

Lemma targets_spec (allowed wanted : list string) :
  negb (bool_decide (allowed = [])) && negb (forallb (memb allowed) wanted) = false <->
  allowed = [] \/ forall t, t ∈ wanted -> t ∈ allowed.
Proof.
  rewrite andb_false_iff, !negb_false_iff, bool_decide_eq_true, forallb_elem_of.
  by setoid_rewrite memb_true.
Qed.

Lemma scope_spec g c :
  match gt_scope g with
  | GsOnce => same_some (gt_invocation_id g) (cx_invocation_id c)
  | GsTurn => same_some (gt_session_id g) (cx_session_id c)
              && same_some (gt_turn_id g) (cx_turn_id c)
  | GsTask => same_some (gt_session_id g) (cx_session_id c)
              && same_some (gt_task_id g) (cx_task_id c)
  | GsSession => same_some (gt_session_id g) (cx_session_id c)
  | GsGlobal => true
  end = true <-> within_scope g c.
Proof.
  unfold within_scope. destruct (gt_scope g); rewrite ?andb_true_iff, ?same_some_spec; done.
Qed.

Lemma grant_matches_covers g c risk now : grant_matches g c risk now = true <-> covers g c risk now.
Proof.
  unfold grant_matches. split.
  - destruct (_ || (_ <? _)%N) eqn:E; [done|]. rewrite !orb_false_iff in E.
    destruct E as [[[[[[E1 E2] E3] E4] E5] E6] E7].
    apply negb_false_iff in E1, E2, E3, E4, E5, E6. apply bool_decide_eq_true in E1.
    apply String.eqb_eq in E2, E3, E4, E5. apply N.eqb_eq in E6. apply N.ltb_ge in E7.
    destruct (grant_expired g now) eqn:Ex; [done|].
    pose proof (proj1 (grant_expired_spec _ _) Ex) as Hx.
    case_bool_decide as Eh; [|done]. cbn [negb].
    destruct (_ && negb _) eqn:Et; [done|].
    pose proof (proj1 (targets_spec _ _) Et) as Ht.
    intros Es%scope_spec. by split.
  - intros [E1 E2 E3 E4 E5 E6 E7 Ex Eh Et Es].
    rewrite E1, E2, E3, E4, E5, E6, Eh, !String.eqb_refl, N.eqb_refl.
    rewrite (proj2 (N.ltb_ge _ _) E7), (proj2 (grant_expired_spec _ _) Ex).
    rewrite !bool_decide_true by done. cbn [negb orb].
    replace (negb (bool_decide (gt_resource_targets g = []))
             && negb (forallb (fun t => memb (gt_resource_targets g) t) (cx_resource_targets c)))
      with false by (symmetry; by apply targets_spec).
    by apply scope_spec.
Qed.
