(* ===== verification/Validation.v ===== *)
(** * Graph validation: dependency batches

    [harness-contract/src/execution_graph/validation.rs].  A graph is checked
    node by node, its dependency edges are counted into an in-degree table, the
    dependency policies are checked, and Kahn's algorithm peels the graph into
    batches of simultaneously ready nodes.

    The peeling loop is executable with fuel; [*count -= 1] on a zero counter
    is a [Panic].  The theorems show that neither can happen, that an accepted
    graph is exactly an acyclic one whose other checks pass, and that the
    returned batches are a topological layering of its nodes. *)

From stdpp Require Import pretty.
From S2P Require Import Prelude Facts Contract.

Inductive ExecutionGraphValidationError :=
| EmptyObjective
| DuplicateNode (id : string)
| MissingPayload (id : string)
| MissingExecutor (id : string)
| MissingNode (id : string)
| Cycle
| TimerUnavailable
| InvalidDependencyPolicy (node_id reason : string)
| OptionalEffectOwner (node_id : string)
| InvalidWorkContract (node_id reason : string).

#[export] Instance ExecutionGraphValidationError_eq_dec :
  EqDecision ExecutionGraphValidationError.
Proof. solve_decision. Defined.

Abbreviation VErr := ExecutionGraphValidationError.

(** The dependency edges of a graph, in order. *)
Definition dependency_edges (g : ExecutionGraph) : list ExecutionEdge :=
  List.filter (fun e => is_dependency (edge_kind e)) (eg_edges g).

Definition node_ids (g : ExecutionGraph) : list string := ns_id <$> eg_nodes g.

(** First loop body: identity, payload, executor, kind and work contract. *)
Definition check_node (ids : gset string) (node : ExecutionNodeSpec) :
  Result VErr (gset string) :=
  _ ← guard_err (bool_decide (ns_id node ∈ ids)) (DuplicateNode (ns_id node));
  _ ← guard_err (trim_is_empty (ns_payload_ref node)) (MissingPayload (ns_id node));
  _ ← guard_err (trim_is_empty (ns_executor_kind node)) (MissingExecutor (ns_id node));
  _ ← guard_err (bool_decide (ns_kind node = Timer)) TimerUnavailable;
  _ ← match ns_work node with
      | Some work =>
          guard_err
            (existsb trim_is_empty
               (wc_required_evidence_refs work ++ wc_input_artifact_refs work
                ++ wc_output_artifact_kinds work))
            (InvalidWorkContract (ns_id node)
               "evidence and artifact contract values must be non-empty")
      | None => Ok tt
      end;
  Ok ({[ns_id node]} ∪ ids).

Definition check_nodes (g : ExecutionGraph) : Result VErr (gset string) :=
  try_fold check_node ∅ (eg_nodes g).

(** The in-degree table and the adjacency lists. *)
Record DegreeTable := {
  dt_indegree : gmap string nat;
  dt_outgoing : gmap string (list string)
}.

Definition out_of (m : gmap string (list string)) (id : string) : list string :=
  default [] (m !! id).

(** Second loop body: count one dependency edge. *)
Definition count_edge (ids : gset string) (t : DegreeTable) (e : ExecutionEdge) :
  Result VErr DegreeTable :=
  _ ← guard_err (negb (bool_decide (edge_from e ∈ ids))) (MissingNode (edge_from e));
  _ ← guard_err (negb (bool_decide (edge_to e ∈ ids))) (MissingNode (edge_to e));
  count ← ok_or (MissingNode (edge_to e)) (dt_indegree t !! edge_to e);
  Ok {| dt_indegree := <[edge_to e := S count]> (dt_indegree t);
        dt_outgoing := <[edge_from e := out_of (dt_outgoing t) (edge_from e) ++ [edge_to e]]>
                         (dt_outgoing t) |}.

Definition count_edges (ids : gset string) (g : ExecutionGraph) : Result VErr DegreeTable :=
  try_fold (count_edge ids)
    {| dt_indegree := gset_to_gmap 0 ids; dt_outgoing := ∅ |} (dependency_edges g).

(** Third loop body: the dependency policy of one node. *)
Definition predecessor_count (g : ExecutionGraph) (id : string) : nat :=
  length (List.filter (fun e => is_dependency (edge_kind e) && String.eqb (edge_to e) id)
            (eg_edges g)).

Definition check_policy (g : ExecutionGraph) (node : ExecutionNodeSpec)
    (work : ExecutionWorkContract) : Result VErr unit :=
  let n := predecessor_count g (ns_id node) in
  match wc_dependency work with
  | PolicyAll | PolicyFinally => Ok tt
  | PolicyAny _ =>
      guard_err (n =? 0)
        (InvalidDependencyPolicy (ns_id node) "any requires at least one dependency")
  | PolicyQuorum minimum _ =>
      guard_err ((minimum =? 0)%N || (n <? N.to_nat minimum))
        (InvalidDependencyPolicy (ns_id node)
           ("quorum minimum " +:+ pretty minimum +:+ " exceeds " +:+ pretty n
            +:+ " dependencies"))
  | PolicyEvidenceReady p _ =>
      guard_err ((dp_minimum p =? 0)%N || (n <? N.to_nat (dp_minimum p)))
        (InvalidDependencyPolicy (ns_id node)
           ("evidence-ready minimum " +:+ pretty (dp_minimum p) +:+ " exceeds " +:+ pretty n
            +:+ " dependencies"))
  end.

(** An optional node must not own a critical or mutating effect. *)
Definition owns_effect (node : ExecutionNodeSpec) (work : ExecutionWorkContract) : bool :=
  match ns_kind node with
  | Materialize | Synthesize | Approval | SessionDispatch => true
  | _ => false
  end
  || match wc_role work with RoleSynthesize => true | _ => false end
  || existsb (fun scope => starts_with scope "write:" || starts_with scope "worktree:"
                           || starts_with scope "network:" || starts_with scope "system:")
       (ns_resource_scopes node).

Definition check_node_work (g : ExecutionGraph) (_ : unit) (node : ExecutionNodeSpec) :
  Result VErr unit :=
  match ns_work node with
  | None => Ok tt
  | Some work =>
      _ ← check_policy g node work;
      guard_err (negb (wc_required work) && owns_effect node work)
        (OptionalEffectOwner (ns_id node))
  end.

(** One [indegree] decrement of the peeling loop; [next] grows at the end. *)
Definition relax (st : gmap string nat * list string) (target : string) :
  Exec (Result VErr (gmap string nat * list string)) :=
  match st.1 !! target with
  | None => Done (Err (MissingNode target))
  | Some 0 => Panic
  | Some (S count) =>
      Done (Ok (<[target := count]> st.1,
                if count =? 0 then st.2 ++ [target] else st.2))
  end.

Fixpoint relax_all (st : gmap string nat * list string) (targets : list string) :
  Exec (Result VErr (gmap string nat * list string)) :=
  match targets with
  | [] => Done (Ok st)
  | target :: rest =>
      r ← relax st target;
      match r with Ok st' => relax_all st' rest | Err e => Done (Err e) end
  end.

(** [while !frontier.is_empty()]: the batches and the number of visited nodes. *)
Fixpoint peel (fuel : nat) (outgoing : gmap string (list string))
    (indegree : gmap string nat) (frontier : list string) :
  Exec (Result VErr (list (list string) * nat)) :=
  match frontier with
  | [] => Done (Ok ([], 0))
  | _ :: _ =>
      match fuel with
      | 0 => OutOfFuel
      | S fuel' =>
          let batch := sort_strings frontier in
          r ← relax_all (indegree, []) (batch ≫= out_of outgoing);
          match r with
          | Err e => Done (Err e)
          | Ok (indegree', next) =>
              rest ← peel fuel' outgoing indegree' next;
              match rest with
              | Ok (batches, visited) => Done (Ok (batch :: batches, length batch + visited))
              | Err e => Done (Err e)
              end
          end
      end
  end.

Definition initial_frontier (indegree : gmap string nat) : list string :=
  omap (fun p => if p.2 =? 0 then Some p.1 else None) (btree_entries indegree).

(** The phases before peeling, as in the source. *)
Definition validate_phases (g : ExecutionGraph) : Result VErr DegreeTable :=
  _ ← guard_err (trim_is_empty (eg_objective g)) EmptyObjective;
  ids ← check_nodes g;
  table ← count_edges ids g;
  _ ← try_fold (check_node_work g) tt (eg_nodes g);
  Ok table.

(** [validate_execution_graph]; every batch is non-empty, so one unit of fuel
    per node and one more are enough. *)
Definition validate_execution_graph (g : ExecutionGraph) :
  Exec (Result VErr (list (list string))) :=
  match validate_phases g with
  | Err e => Done (Err e)
  | Ok table =>
      r ← peel (S (length (eg_nodes g))) (dt_outgoing table) (dt_indegree table)
            (initial_frontier (dt_indegree table));
      match r with
      | Err e => Done (Err e)
      | Ok (batches, visited) =>
          if visited =? length (eg_nodes g) then Done (Ok batches) else Done (Err Cycle)
      end
  end.

(** ** Declarative specification *)

(** [v] depends directly on [u]: a dependency edge runs from [u] to [v]. *)
Definition dep_edge (g : ExecutionGraph) (u v : string) : Prop :=
  exists e, e ∈ dependency_edges g /\ edge_from e = u /\ edge_to e = v.

Definition acyclic (g : ExecutionGraph) : Prop := forall v, ~ tc (dep_edge g) v v.

Definition work_values_ok (node : ExecutionNodeSpec) : Prop :=
  forall work, ns_work node = Some work ->
  forall value, value ∈ wc_required_evidence_refs work ++ wc_input_artifact_refs work
                ++ wc_output_artifact_kinds work -> trim value <> EmptyString.

Definition policy_ok (g : ExecutionGraph) (node : ExecutionNodeSpec) : Prop :=
  forall work, ns_work node = Some work ->
  match wc_dependency work with
  | PolicyAll | PolicyFinally => True
  | PolicyAny _ => 1 <= predecessor_count g (ns_id node)
  | PolicyQuorum k _ => 1 <= N.to_nat k <= predecessor_count g (ns_id node)
  | PolicyEvidenceReady p _ =>
      1 <= N.to_nat (dp_minimum p) <= predecessor_count g (ns_id node)
  end /\ (owns_effect node work = true -> wc_required work = true).

(** What a submitted graph must satisfy, independently of the algorithm. *)
Record WellFormed (g : ExecutionGraph) : Prop := {
  wf_objective : trim (eg_objective g) <> EmptyString;
  wf_ids : NoDup (node_ids g);
  wf_nodes : forall node, node ∈ eg_nodes g ->
    trim (ns_payload_ref node) <> EmptyString /\
    trim (ns_executor_kind node) <> EmptyString /\
    ns_kind node <> Timer /\ work_values_ok node /\ policy_ok g node;
  wf_edges : forall u v, dep_edge g u v -> u ∈ node_ids g /\ v ∈ node_ids g;
  wf_acyclic : acyclic g
}.

(** ** Occurrence counts *)

Abbreviation occ := (count_occ String.string_dec).

(** The dependency edges into [v] whose source satisfies [P]. *)
Definition edges_into (es : list ExecutionEdge) (P : string -> bool) (v : string) : nat :=
  length (List.filter (fun e => String.eqb (edge_to e) v && P (edge_from e)) es).

Definition outs (es : list ExecutionEdge) (u : string) : list string :=
  edge_to <$> List.filter (fun e => String.eqb (edge_from e) u) es.

Definition inb (l : list string) (u : string) : bool := bool_decide (u ∈ l).

Lemma edges_into_cons e es P v :
  edges_into (e :: es) P v =
  (if String.eqb (edge_to e) v && P (edge_from e) then 1 else 0) + edges_into es P v.
Proof. unfold edges_into. cbn. by destruct (_ && _). Qed.

Lemma edges_into_ext es P Q v :
  (forall e, e ∈ es -> P (edge_from e) = Q (edge_from e)) ->
  edges_into es P v = edges_into es Q v.
Proof.
  induction es as [|e es IH]; intros H; [done|]. rewrite !edges_into_cons, IH, H; [done|..].
  - left.
  - intros e' He'. apply H. by right.
Qed.

Lemma edges_into_0 es P v :
  edges_into es P v = 0 <->
  forall e, e ∈ es -> edge_to e = v -> P (edge_from e) = false.
Proof.
  induction es as [|e es IH].
  - split; [intros _ e He; by apply not_elem_of_nil in He | done].
  - rewrite edges_into_cons. split.
    + intros H e' [->|Hin]%elem_of_cons Hto.
      * rewrite Hto, String.eqb_refl in H. cbn in H. by destruct (P _).
      * apply IH; [lia | done | done].
    + intros H. rewrite (proj2 IH) by (intros; apply H; [by right | done]).
      destruct (String.eqb_spec (edge_to e) v) as [Hv|]; [|done].
      by rewrite (H e) by (by left || done).
Qed.

(** Splitting a source set: [edges_into] is additive over disjoint sources. *)
Lemma edges_into_split es P Q R v :
  (forall u, Nat.b2n (R u) = Nat.b2n (P u) + Nat.b2n (Q u)) ->
  edges_into es R v = edges_into es P v + edges_into es Q v.
Proof.
  intros H. induction es as [|e es IH]; [done|].
  rewrite !edges_into_cons, IH. specialize (H (edge_from e)).
  destruct (String.eqb _ _), (P _), (Q _), (R _); cbn in *; lia.
Qed.

Lemma occ_outs es u v :
  occ (outs es u) v = edges_into es (fun w => String.eqb w u) v.
Proof.
  unfold outs. induction es as [|e es IH]; [done|].
  rewrite edges_into_cons. cbn [List.filter].
  destruct (String.eqb_spec (edge_from e) u); cbn.
  - destruct (String.string_dec (edge_to e) v) as [->|Hne].
    + rewrite String.eqb_refl. cbn. by rewrite IH.
    + destruct (String.eqb_spec (edge_to e) v); [done|]. cbn. by rewrite IH.
  - rewrite andb_false_r. by rewrite IH.
Qed.

(** Targets of a whole batch, counted. *)
Lemma occ_batch_targets es batch v :
  NoDup batch ->
  occ (batch ≫= outs es) v = edges_into es (inb batch) v.
Proof.
  induction batch as [|u batch IH]; intros Hnd.
  - cbn. symmetry. apply edges_into_0. intros e _ _. unfold inb.
    by rewrite bool_decide_eq_false_2 by apply not_elem_of_nil.
  - apply NoDup_cons in Hnd as [Hu Hnd]. cbn. rewrite count_occ_app, IH, occ_outs by done.
    symmetry. apply edges_into_split. intros w. unfold inb.
    destruct (String.eqb_spec w u) as [->|Hne].
    + rewrite bool_decide_eq_true_2 by (by left). by rewrite bool_decide_eq_false_2.
    + destruct (bool_decide_reflect (w ∈ batch)).
      * rewrite bool_decide_eq_true_2 by (by right). done.
      * rewrite bool_decide_eq_false_2; [done|]. by intros [?|?]%elem_of_cons.
Qed.

(** ** The relaxation loop *)

Lemma relax_all_spec targets : forall D nx,
  (forall v, v ∈ targets -> exists n, D !! v = Some n /\ occ targets v <= n) ->
  exists D' nx', relax_all (D, nx) targets = Done (Ok (D', nx ++ nx')) /\
    (forall v, D' !! v = (fun n => n - occ targets v) <$> D !! v) /\
    NoDup nx' /\
    (forall v, v ∈ nx' <-> v ∈ targets /\ D !! v = Some (occ targets v)).
Proof.
  induction targets as [|t targets IH]; intros D nx Hcap.
  - exists D, []. rewrite app_nil_r. split_and!; [done|..].
    + intros v. destruct (D !! v); cbn; [f_equal; lia | done].
    + constructor.
    + intros v. split; [intros H; by apply not_elem_of_nil in H|].
      intros [H _]. by apply not_elem_of_nil in H.
  - destruct (Hcap t) as (n & Hn & Hle); [by left|].
    rewrite count_occ_cons_eq in Hle by done. destruct n as [|n]; [lia|].
    cbn [relax_all]. unfold relax. cbn [fst snd]. rewrite Hn. cbn [mbind Exec_bind].
    destruct (IH (<[t:=n]> D) (if n =? 0 then nx ++ [t] else nx))
      as (D' & nx' & Hrun & HD' & Hnd & Hin).
    { intros v Hv. destruct (decide (v = t)) as [->|Hne].
      - exists n. rewrite lookup_insert_eq. split; [done | lia].
      - destruct (Hcap v) as (m & Hm & Hmle); [by right|]. exists m.
        rewrite lookup_insert_ne by done.
        rewrite count_occ_cons_neq in Hmle by done. done. }
    exists D', (if n =? 0 then t :: nx' else nx'). split_and!.
    + rewrite Hrun. do 2 f_equal. destruct (n =? 0); [|done]. by rewrite <- app_assoc.
    + intros v. rewrite HD'. destruct (decide (v = t)) as [->|Hne].
      * rewrite lookup_insert_eq, Hn, count_occ_cons_eq by done. cbn. f_equal.
      * by rewrite lookup_insert_ne, count_occ_cons_neq by done.
    + destruct (n =? 0) eqn:E0; [|done]. apply Nat.eqb_eq in E0 as ->.
      constructor; [|done]. rewrite Hin, lookup_insert_eq. intros [Ht [=Ho]].
      apply list_elem_of_In, (count_occ_In String.string_dec) in Ht. lia.
    + intros v. assert (v ∈ (if n =? 0 then t :: nx' else nx') <->
                        (n = 0 /\ v = t) \/ v ∈ nx') as ->.
      { destruct (Nat.eqb_spec n 0); rewrite ?elem_of_cons; intuition congruence. }
      rewrite Hin, elem_of_cons. destruct (decide (v = t)) as [->|Hne].
      * rewrite lookup_insert_eq, Hn, count_occ_cons_eq by done.
        assert (t ∈ targets -> 0 < occ targets t) as Hpos.
        { intros Ht. by apply list_elem_of_In, (count_occ_In String.string_dec) in Ht. }
        assert (~ t ∈ targets -> occ targets t = 0) as Hzero.
        { intros Ht. apply count_occ_not_In. by rewrite <- list_elem_of_In. }
        split.
        { intros [[-> _]|[Ht [= Ho]]]; [|pose proof (Hpos Ht); split; [by left | f_equal; lia]].
          split; [by left|]. f_equal. lia. }
        intros [_ [= Ho]]. destruct (decide (t ∈ targets)) as [Ht|Ht]; [right | left].
        { split; [done | f_equal; lia]. } { rewrite Hzero in Ho by done. split; [lia | done]. }
      * rewrite lookup_insert_ne, count_occ_cons_neq by done. intuition congruence.
Qed.

(** ** The peeling loop *)

Section Peel.
Context (es : list ExecutionEdge) (V : list string).
Context (outgoing : gmap string (list string)).
Hypothesis outgoing_outs : forall u, out_of outgoing u = outs es u.
Hypothesis es_closed : forall e, e ∈ es -> edge_from e ∈ V /\ edge_to e ∈ V.

Definition pending_into (P : list string) : string -> nat :=
  edges_into es (fun u => negb (inb P u)).

(** [P] has been emitted, [F] is the frontier: the table holds, for every
    node, the number of dependencies not emitted yet, and the nodes with none
    left are exactly the emitted ones and the frontier. *)
Record PeelInv (P F : list string) (D : gmap string nat) : Prop := {
  pi_nodup : NoDup (P ++ F);
  pi_nodes : forall v, v ∈ P ++ F -> v ∈ V;
  pi_table : forall v, v ∈ V -> D !! v = Some (pending_into P v);
  pi_ready : forall v, v ∈ V -> pending_into P v = 0 <-> v ∈ P ++ F
}.

(** Each batch only depends on what was emitted before it. *)
Fixpoint Layered (P : list string) (batches : list (list string)) : Prop :=
  match batches with
  | [] => True
  | b :: rest =>
      b <> [] /\ StronglySorted str_le b /\
      (forall e, e ∈ es -> edge_to e ∈ b -> edge_from e ∈ P) /\
      Layered (P ++ b) rest
  end.

Lemma pending_split P batch v :
  (forall u, u ∈ batch -> u ∉ P) ->
  pending_into P v = edges_into es (inb batch) v + pending_into (P ++ batch) v.
Proof.
  intros Hdisj. apply edges_into_split. intros u. unfold inb.
  destruct (bool_decide_reflect (u ∈ batch)) as [Hb|Hb].
  - rewrite bool_decide_eq_false_2 by auto.
    by rewrite bool_decide_eq_true_2 by (apply elem_of_app; auto).
  - destruct (bool_decide_reflect (u ∈ P)) as [HP|HP].
    + by rewrite bool_decide_eq_true_2 by (apply elem_of_app; auto).
    + rewrite bool_decide_eq_false_2; [done|]. by intros [?|?]%elem_of_app.
Qed.

Lemma edges_into_pos P v :
  0 < edges_into es P v <-> exists e, e ∈ es /\ edge_to e = v /\ P (edge_from e) = true.
Proof.
  split.
  - intros Hpos. destruct (decide (Exists (fun e => edge_to e = v /\ P (edge_from e) = true) es))
      as [He|Hne]; [by apply Exists_exists in He|].
    exfalso. assert (edges_into es P v = 0); [|lia]. apply edges_into_0.
    intros e He Hto. destruct (P (edge_from e)) eqn:EP; [|done].
    exfalso. apply Hne, Exists_exists. eauto.
  - intros (e & He & Hto & HP). destruct (edges_into es P v) eqn:E0; [|lia].
    rewrite edges_into_0 in E0. rewrite (E0 e He Hto) in HP. done.
Qed.

Lemma peel_step P F D :
  PeelInv P F D ->
  exists D' nx, relax_all (D, []) (sort_strings F ≫= out_of outgoing) = Done (Ok (D', nx)) /\
    PeelInv (P ++ sort_strings F) nx D'.
Proof.
  intros [Hnd Hsub Htab Hready].
  set (batch := sort_strings F).
  assert (Hperm : batch ≡ₚ F) by apply sort_strings_perm.
  assert (Hndb : NoDup batch) by (rewrite Hperm; by apply NoDup_app in Hnd as (_ & _ & ?)).
  assert (Hdisj : forall u, u ∈ batch -> u ∉ P).
  { intros u. rewrite Hperm. intros Hu HP. apply NoDup_app in Hnd as (_ & Hd & _).
    by apply (Hd u). }
  assert (Hocc : forall v, occ (batch ≫= out_of outgoing) v = edges_into es (inb batch) v).
  { intros v. rewrite (list_bind_ext (out_of outgoing) (outs es) batch batch) by done.
    by apply occ_batch_targets. }
  assert (Htgt : forall v, v ∈ batch ≫= out_of outgoing <-> 0 < edges_into es (inb batch) v).
  { intros v. rewrite <- Hocc, list_elem_of_In. apply count_occ_In. }
  assert (HtgtV : forall v, v ∈ batch ≫= out_of outgoing -> v ∈ V).
  { intros v (e & He & <- & _)%Htgt%edges_into_pos. by apply es_closed. }
  destruct (relax_all_spec (batch ≫= out_of outgoing) D []) as (D' & nx & Hrun & HD' & Hndx & Hnx).
  { intros v Hv. exists (pending_into P v). split; [by apply Htab, HtgtV|].
    rewrite Hocc, (pending_split P batch) by done. lia. }
  exists D', nx. split; [done|].
  assert (Hnx' : forall v, v ∈ nx <-> 0 < edges_into es (inb batch) v /\
                            pending_into (P ++ batch) v = 0).
  { intros v. rewrite Hnx, Htgt, Hocc. split.
    - intros [Hp Hd]. split; [done|]. rewrite Htab in Hd by (by apply HtgtV, Htgt).
      injection Hd. rewrite (pending_split P batch) by done. lia.
    - intros [Hp Hz]. split; [done|]. rewrite Htab by (by apply HtgtV, Htgt).
      rewrite (pending_split P batch) by done. f_equal. lia. }
  assert (HPF : forall v, v ∈ P ++ batch <-> v ∈ P ++ F) by (intros v; by rewrite Hperm).
  split.
  - apply NoDup_app. split_and!; [by rewrite Hperm | | done].
    intros v Hv Hx. apply Hnx' in Hx as [Hp _].
    assert (v ∈ V) as HV by (by apply Hsub, HPF). apply HPF, Hready in Hv; [|done].
    rewrite (pending_split P batch) in Hv by done. lia.
  - intros v [Hv|Hv]%elem_of_app; [by apply Hsub, HPF|]. apply HtgtV, Htgt, Hnx', Hv.
  - intros v Hv. rewrite HD', Htab by done. cbn. f_equal.
    rewrite Hocc, (pending_split P batch) by done. lia.
  - intros v Hv. rewrite elem_of_app, Hnx', HPF, <- Hready by done.
    rewrite (pending_split P batch) by done. lia.
Qed.

Lemma peel_spec fuel : forall P F D,
  PeelInv P F D -> length V < fuel + length P ->
  exists batches, peel fuel outgoing D F = Done (Ok (batches, length (concat batches))) /\
    Layered P batches /\ NoDup (P ++ concat batches) /\
    (forall v, v ∈ P ++ concat batches -> v ∈ V) /\
    (forall v, v ∈ V -> pending_into (P ++ concat batches) v = 0 -> v ∈ P ++ concat batches).
Proof.
  induction fuel as [|fuel IH]; intros P F D Hinv Hfuel;
    pose proof Hinv as [Hnd Hsub Htab Hready].
  { exfalso. assert (P ⊆+ V) as Hle%submseteq_length; [|lia].
    apply NoDup_submseteq; [by apply NoDup_app in Hnd as [? _]|].
    intros v Hv. apply Hsub, elem_of_app. auto. }
  destruct F as [|f F].
  { exists []. cbn. rewrite app_nil_r in *. split_and!; try done.
    intros v Hv Hz. by apply Hready in Hz. }
  destruct (peel_step P (f :: F) D Hinv) as (D' & nx & Hrun & Hinv').
  set (batch := sort_strings (f :: F)) in *.
  assert (Hperm : batch ≡ₚ f :: F) by apply sort_strings_perm.
  assert (Hlen : length batch = S (length F)) by (by rewrite Hperm).
  destruct (IH (P ++ batch) nx D' Hinv') as (bs & Hpeel & Hlay & Hndp & Hsub' & Hsat).
  { rewrite length_app. lia. }
  exists (batch :: bs). cbn [concat]. rewrite !app_assoc. split_and!; try done.
  - cbn [peel]. fold batch. rewrite Hrun. cbn [mbind Exec_bind]. rewrite Hpeel. cbn.
    by rewrite length_app.
  - cbn [Layered]. split_and!; [|apply sort_strings_sorted| |done].
    + intros Hnil. by rewrite Hnil in Hlen.
    + intros e He Hto. assert (edge_to e ∈ P ++ f :: F) as Hr.
      { apply elem_of_app. right. by rewrite <- Hperm. }
      apply Hready in Hr; [|by apply es_closed]. unfold pending_into in Hr.
      rewrite edges_into_0 in Hr. specialize (Hr e He eq_refl).
      apply negb_false_iff in Hr. by apply bool_decide_eq_true in Hr.
Qed.
End Peel.

(** ** The checks before peeling *)

Lemma guard_err_Ok {E} c (e : E) : guard_err c e = Ok tt <-> c = false.
Proof. destruct c; cbn; split; congruence. Qed.

Lemma bind_unit_Ok {E B} (r : Result E unit) (k : unit -> Result E B) b :
  r ≫= k = Ok b <-> r = Ok tt /\ k tt = Ok b.
Proof. destruct r as [[]|]; cbn; intuition congruence. Qed.

Lemma trim_nonempty s : trim s <> EmptyString <-> trim_is_empty s = false.
Proof. rewrite <- not_true_iff_false, trim_is_empty_spec. done. Qed.

(** One node passes the first loop. *)
Definition node_ok (node : ExecutionNodeSpec) : Prop :=
  trim (ns_payload_ref node) <> EmptyString /\
  trim (ns_executor_kind node) <> EmptyString /\
  ns_kind node <> Timer /\ work_values_ok node.

Lemma work_values_check node (err : VErr) :
  (match ns_work node with
   | Some work =>
       guard_err
         (existsb trim_is_empty
            (wc_required_evidence_refs work ++ wc_input_artifact_refs work
             ++ wc_output_artifact_kinds work)) err
   | None => Ok tt
   end) = Ok tt <-> work_values_ok node.
Proof.
  unfold work_values_ok. destruct (ns_work node) as [work|]; [|naive_solver].
  rewrite guard_err_Ok, existsb_false. split.
  - intros H _ [= <-] value Hv. rewrite trim_nonempty. by apply H.
  - intros H value Hv. rewrite <- trim_nonempty. by apply (H work).
Qed.

Lemma check_node_Ok ids node ids' :
  check_node ids node = Ok ids' <->
  (ns_id node ∉ ids) /\ node_ok node /\ ids' = {[ns_id node]} ∪ ids.
Proof.
  unfold check_node, node_ok.
  rewrite !bind_unit_Ok, !guard_err_Ok, work_values_check, !trim_nonempty, !bool_decide_eq_false.
  assert (forall a b : gset string, @Ok VErr _ a = Ok b <-> b = a) as -> by (intros; split; congruence).
  tauto.
Qed.

Lemma check_nodes_Ok_gen nodes : forall ids ids',
  try_fold check_node ids nodes = Ok ids' <->
  NoDup (ns_id <$> nodes) /\ (forall v, v ∈ ns_id <$> nodes -> v ∉ ids) /\
  (forall node, node ∈ nodes -> node_ok node) /\
  ids' = list_to_set (ns_id <$> nodes) ∪ ids.
Proof.
  induction nodes as [|node nodes IH]; intros ids ids'; cbn [try_fold].
  - cbn. split.
    + intros [= <-]. split_and!; [constructor | by intros v ?%not_elem_of_nil
      | by intros v ?%not_elem_of_nil | set_solver].
    + intros (_ & _ & _ & ->). f_equal. set_solver.
  - split.
    + intros (ids1 & Hn & Hrest)%bind_Ok_inv. apply check_node_Ok in Hn as (Hfresh & Hok & ->).
      apply IH in Hrest as (Hnd & Hdisj & Hall & ->). cbn. split_and!.
      * constructor; [|done]. intros Hin. specialize (Hdisj _ Hin). set_solver.
      * intros v [->|Hv]%elem_of_cons; [done|]. specialize (Hdisj _ Hv). set_solver.
      * intros n [->|Hn]%elem_of_cons; [done | auto].
      * set_solver.
    + cbn. intros (Hnd & Hdisj & Hall & ->). apply NoDup_cons in Hnd as [Hfr Hnd].
      assert (check_node ids node = Ok ({[ns_id node]} ∪ ids)) as ->.
      { apply check_node_Ok. split_and!; [apply Hdisj; left | apply Hall; left | done]. }
      cbn. apply IH. split_and!; [done|..].
      * intros v Hv. assert (v <> ns_id node) by congruence.
        assert (v ∉ ids) by (apply Hdisj; by right). set_solver.
      * intros n Hn. apply Hall. by right.
      * set_solver.
Qed.

Lemma check_nodes_Ok g ids :
  check_nodes g = Ok ids <->
  NoDup (node_ids g) /\ (forall node, node ∈ eg_nodes g -> node_ok node) /\
  ids = list_to_set (node_ids g).
Proof.
  unfold check_nodes. rewrite check_nodes_Ok_gen. unfold node_ids. split.
  - intros (? & _ & ? & ->). split_and!; try done. set_solver.
  - intros (? & ? & ->). split_and!; try done; set_solver.
Qed.

(** The degree table after counting the edges [es]. *)
Definition table_of (ids : gset string) (es : list ExecutionEdge) (t : DegreeTable) : Prop :=
  (forall v, dt_indegree t !! v =
     if decide (v ∈ ids) then Some (edges_into es (fun _ => true) v) else None) /\
  (forall u, out_of (dt_outgoing t) u = outs es u).

Lemma edges_into_snoc es e P v :
  edges_into (es ++ [e]) P v =
  edges_into es P v + (if String.eqb (edge_to e) v && P (edge_from e) then 1 else 0).
Proof.
  unfold edges_into. rewrite List.filter_app, length_app. cbn. by destruct (_ && _).
Qed.

Lemma outs_snoc es e u :
  outs (es ++ [e]) u = outs es u ++ (if String.eqb (edge_from e) u then [edge_to e] else []).
Proof.
  unfold outs. rewrite List.filter_app, fmap_app. cbn. by destruct (String.eqb _ _).
Qed.

Lemma count_edge_ok ids es t e :
  table_of ids es t -> edge_from e ∈ ids -> edge_to e ∈ ids ->
  exists t', count_edge ids t e = Ok t' /\ table_of ids (es ++ [e]) t'.
Proof.
  intros [Hd Ho] Hf Ht. unfold count_edge.
  rewrite !bool_decide_eq_true_2 by done. cbn [negb guard_err mbind Result_bind].
  rewrite Hd, decide_True by done. cbn. eexists. split; [done|]. split; cbn.
  - intros v. rewrite edges_into_snoc, andb_true_r.
    destruct (String.eqb_spec (edge_to e) v) as [<-|Hne].
    + rewrite lookup_insert_eq, decide_True by done. f_equal. lia.
    + rewrite lookup_insert_ne, Hd by done. rewrite Nat.add_0_r. done.
  - intros u. unfold out_of. rewrite outs_snoc.
    destruct (String.eqb_spec (edge_from e) u) as [<-|Hne].
    + rewrite lookup_insert_eq. cbn. by rewrite <- Ho.
    + rewrite lookup_insert_ne, app_nil_r by done. apply Ho.
Qed.

Lemma count_edges_gen ids es : forall es0 t,
  table_of ids es0 t ->
  (forall e, e ∈ es -> edge_from e ∈ ids /\ edge_to e ∈ ids) ->
  exists t', try_fold (count_edge ids) t es = Ok t' /\ table_of ids (es0 ++ es) t'.
Proof.
  induction es as [|e es IH]; intros es0 t Ht Hcl.
  - exists t. by rewrite app_nil_r.
  - destruct (Hcl e) as [Hf Hto]; [by left|].
    destruct (count_edge_ok ids es0 t e Ht Hf Hto) as (t1 & Hc & Ht1).
    destruct (IH _ _ Ht1) as (t2 & Hr & Ht2); [intros; apply Hcl; by right|].
    exists t2. cbn [try_fold]. rewrite Hc. cbn. split; [done|].
    by rewrite <- app_assoc in Ht2.
Qed.

Lemma try_fold_Ok_inv {E A S} (f : S -> A -> Result E S) (Q : A -> Prop) l : forall s s',
  (forall s x s', f s x = Ok s' -> Q x) ->
  try_fold f s l = Ok s' -> forall x, x ∈ l -> Q x.
Proof.
  induction l as [|y l IH]; intros s s' HQ H x Hx; [by apply not_elem_of_nil in Hx|].
  cbn in H. apply bind_Ok_inv in H as (s1 & H1 & H2).
  apply elem_of_cons in Hx as [->|Hx]; eauto.
Qed.

Lemma count_edge_closed ids t e t' :
  count_edge ids t e = Ok t' -> edge_from e ∈ ids /\ edge_to e ∈ ids.
Proof.
  unfold count_edge. rewrite !bind_unit_Ok, !guard_err_Ok, !negb_false_iff, !bool_decide_eq_true.
  tauto.
Qed.

Lemma count_edges_table ids g :
  (forall e, e ∈ dependency_edges g -> edge_from e ∈ ids /\ edge_to e ∈ ids) ->
  exists t, count_edges ids g = Ok t /\ table_of ids (dependency_edges g) t.
Proof.
  intros Hcl. apply (count_edges_gen ids (dependency_edges g) []); [|done].
  split; cbn; [intros v|by intros u].
  destruct (decide (v ∈ ids)).
  - by rewrite lookup_gset_to_gmap, option_guard_True by done.
  - by rewrite lookup_gset_to_gmap, option_guard_False by done.
Qed.

Lemma count_edges_closed ids g t :
  count_edges ids g = Ok t ->
  forall e, e ∈ dependency_edges g -> edge_from e ∈ ids /\ edge_to e ∈ ids.
Proof.
  intros Ht. eapply try_fold_Ok_inv; [|exact Ht].
  intros s x s' Hs. by apply count_edge_closed in Hs.
Qed.

Lemma check_policy_Ok g node work :
  check_policy g node work = Ok tt <->
  match wc_dependency work with
  | PolicyAll | PolicyFinally => True
  | PolicyAny _ => 1 <= predecessor_count g (ns_id node)
  | PolicyQuorum k _ => 1 <= N.to_nat k <= predecessor_count g (ns_id node)
  | PolicyEvidenceReady p _ =>
      1 <= N.to_nat (dp_minimum p) <= predecessor_count g (ns_id node)
  end.
Proof.
  unfold check_policy. destruct (wc_dependency work); rewrite ?guard_err_Ok; try done.
  - rewrite Nat.eqb_neq. lia.
  - rewrite orb_false_iff, N.eqb_neq, Nat.ltb_ge. lia.
  - rewrite orb_false_iff, N.eqb_neq, Nat.ltb_ge. lia.
Qed.

Lemma check_node_work_Ok g u node :
  check_node_work g u node = Ok tt <-> policy_ok g node.
Proof.
  unfold check_node_work, policy_ok. destruct (ns_work node) as [work|]; [|naive_solver].
  rewrite bind_unit_Ok, check_policy_Ok, guard_err_Ok.
  split.
  - intros [Hp Hg] work' [= <-]. split; [done|].
    intros Ho. rewrite Ho, andb_true_r in Hg. by apply negb_false_iff in Hg.
  - intros H. destruct (H work eq_refl) as [Hp Ho]. split; [done|].
    destruct (owns_effect node work); [by rewrite Ho | apply andb_false_r].
Qed.

Lemma check_works_Ok g nodes u :
  try_fold (check_node_work g) u nodes = Ok tt <->
  (forall node, node ∈ nodes -> policy_ok g node).
Proof.
  revert u. induction nodes as [|node nodes IH]; intros []; cbn [try_fold].
  - split; [by intros _ n ?%not_elem_of_nil | done].
  - rewrite bind_unit_Ok, check_node_work_Ok, IH. split.
    + intros [H1 H2] n [->|Hn]%elem_of_cons; auto.
    + intros H. split; [apply H; left | intros n Hn; apply H; by right].
Qed.

(** Everything but acyclicity. *)
Record StructurallyOk (g : ExecutionGraph) : Prop := {
  so_objective : trim (eg_objective g) <> EmptyString;
  so_ids : NoDup (node_ids g);
  so_nodes : forall node, node ∈ eg_nodes g -> node_ok node /\ policy_ok g node;
  so_edges : forall e, e ∈ dependency_edges g ->
    edge_from e ∈ node_ids g /\ edge_to e ∈ node_ids g
}.

(** [Cycle] is reported by the peeling loop only. *)
Lemma check_nodes_no_cycle g e : check_nodes g = Err e -> e <> Cycle.
Proof.
  unfold check_nodes. apply (try_fold_Err (fun e => e <> Cycle)). clear e. intros ids n e En ->. unfold check_node, guard_err in En.
  repeat (case_match; cbn in En; try congruence).
Qed.

Lemma count_edges_no_cycle ids g e : count_edges ids g = Err e -> e <> Cycle.
Proof.
  unfold count_edges. apply (try_fold_Err (fun e => e <> Cycle)). clear e. intros t n e En ->. unfold count_edge, guard_err, ok_or in En.
  repeat (case_match; cbn in En; try congruence).
Qed.

Lemma check_works_no_cycle g nodes e :
  try_fold (check_node_work g) tt nodes = Err e -> e <> Cycle.
Proof.
  apply (try_fold_Err (fun e => e <> Cycle)). clear e. intros [] n e En ->.
  unfold check_node_work, check_policy, guard_err in En.
  repeat (case_match; cbn in En; try congruence).
Qed.

Lemma validate_phases_spec g :
  match validate_phases g with
  | Ok t => StructurallyOk g /\ table_of (list_to_set (node_ids g)) (dependency_edges g) t
  | Err e => ~ StructurallyOk g /\ e <> Cycle
  end.
Proof.
  unfold validate_phases.
  destruct (trim_is_empty (eg_objective g)) eqn:Hobj; cbn.
  { split; [|done]. intros [H _ _ _]. apply H, trim_is_empty_spec, Hobj. }
  apply trim_nonempty in Hobj.
  destruct (check_nodes g) as [ids|e] eqn:Hn; cbn.
  2:{ split; [|by eapply check_nodes_no_cycle]. intros [_ Hids Hnodes _].
      assert (check_nodes g = Ok (list_to_set (node_ids g))); [|congruence].
      apply check_nodes_Ok. split_and!; [done | by apply Hnodes | done]. }
  apply check_nodes_Ok in Hn as (Hids & Hnodes & ->).
  destruct (count_edges _ g) as [t|e] eqn:Hc; cbn.
  2:{ split; [|by eapply count_edges_no_cycle]. intros [_ _ _ Hedges].
      destruct (count_edges_table (list_to_set (node_ids g)) g) as (t & Ht & _); [|congruence].
      intros ed Hed. rewrite !elem_of_list_to_set. by apply Hedges. }
  pose proof (count_edges_closed _ _ _ Hc) as Hclosed.
  setoid_rewrite elem_of_list_to_set in Hclosed.
  destruct (try_fold (check_node_work g) tt (eg_nodes g)) as [[]|e] eqn:Hw; cbn.
  2:{ split; [|by eapply check_works_no_cycle]. intros [_ _ Hn _].
      assert (try_fold (check_node_work g) tt (eg_nodes g) = Ok tt); [|congruence].
      apply check_works_Ok. intros n Hin. by apply Hn. }
  destruct (count_edges_table (list_to_set (node_ids g)) g) as (t' & Ht' & Htab).
  { intros e He. rewrite !elem_of_list_to_set. by apply Hclosed. }
  split; [|congruence].
  split; [done | done | | done].
  intros node Hnode. split; [auto|]. by eapply check_works_Ok.
Qed.

(** ** Correctness of [validate_execution_graph] *)

Lemma elem_of_initial_frontier D v : v ∈ initial_frontier D <-> D !! v = Some 0.
Proof.
  unfold initial_frontier. rewrite list_elem_of_omap. split.
  - intros ([k n] & Hin & Hk). cbn in Hk. apply elem_of_btree_entries in Hin.
    destruct (Nat.eqb_spec n 0); naive_solver.
  - intros Hv. exists (v, 0). rewrite elem_of_btree_entries. done.
Qed.

Lemma NoDup_initial_frontier D : NoDup (initial_frontier D).
Proof.
  unfold initial_frontier, btree_entries.
  pose proof (NoDup_btree_keys D) as Hnd. induction Hnd as [|k ks Hk Hnd IH]; [constructor|].
  cbn. destruct (D !! k) as [n|]; cbn; [|done].
  destruct (n =? 0); [|done]. constructor; [|done]. intros Hin. apply Hk.
  apply list_elem_of_omap in Hin as ([k' n'] & Hin & Heq).
  apply list_elem_of_omap in Hin as (k'' & Hin & Heq').
  destruct (D !! k''); cbn in *; [|done]. destruct (n' =? 0); naive_solver.
Qed.

Lemma initial_inv g t :
  table_of (list_to_set (node_ids g)) (dependency_edges g) t ->
  PeelInv (dependency_edges g) (node_ids g) [] (initial_frontier (dt_indegree t)) (dt_indegree t).
Proof.
  intros [Hd _].
  assert (Hd' : forall v, v ∈ node_ids g ->
            dt_indegree t !! v = Some (pending_into (dependency_edges g) [] v)).
  { intros v Hv. by rewrite Hd, decide_True by by apply elem_of_list_to_set. }
  split; rewrite ?app_nil_l.
  - apply NoDup_initial_frontier.
  - intros v Hv. rewrite elem_of_initial_frontier, Hd in Hv.
    destruct (decide (v ∈ _)) as [Hin|]; [|done]. by apply elem_of_list_to_set in Hin.
  - done.
  - intros v Hv. rewrite elem_of_initial_frontier, Hd' by done. naive_solver.
Qed.

(** Walking backwards inside a finite set of nodes that all have a dependency
    inside the set must revisit a node. *)
Lemma stuck_walk g (U : list string) :
  (forall v, v ∈ U -> exists u, u ∈ U /\ dep_edge g u v) ->
  forall n x l, x ∈ U -> NoDup l -> l ⊆ U -> (forall y, y ∈ l -> rtc (dep_edge g) x y) ->
    length U <= n + length l -> x ∈ l -> exists v, tc (dep_edge g) v v.
Proof.
  intros Hstuck n. induction n as [|n IH]; intros x l Hx Hnd Hsub Hreach Hlen Hxl;
    destruct (Hstuck x Hx) as (u & Hu & Hux).
  - exists u. apply (tc_rtc_r _ x); [by apply tc_once|]. apply Hreach.
    assert (l ≡ₚ U) as ->; [|done]. apply submseteq_length_Permutation; [|lia].
    by apply NoDup_submseteq.
  - destruct (decide (u ∈ l)) as [Hul|Hul].
    + exists u. apply (tc_rtc_r _ x); [by apply tc_once | by apply Hreach].
    + apply (IH u (u :: l)); [done | by constructor | | | cbn; lia | by left].
      * intros y [->|Hy]%elem_of_cons; auto.
      * intros y [->|Hy]%elem_of_cons; [done|]. eapply rtc_l; eauto.
Qed.

Lemma stuck_cycle g (U : list string) v :
  v ∈ U -> (forall v, v ∈ U -> exists u, u ∈ U /\ dep_edge g u v) ->
  exists v, tc (dep_edge g) v v.
Proof.
  intros Hv Hstuck. apply (stuck_walk g U Hstuck (length U) v [v]); [done | | | | cbn; lia | by left].
  - apply NoDup_singleton.
  - by intros y ->%list_elem_of_singleton.
  - by intros y ->%list_elem_of_singleton.
Qed.

(** A layering has no cycle. *)
Lemma Layered_rank g P bs :
  Layered (dependency_edges g) P bs -> NoDup (P ++ concat bs) ->
  forall u v, dep_edge g u v -> v ∈ concat bs ->
  u ∈ P \/ exists i j bi bj, i < j /\ bs !! i = Some bi /\ bs !! j = Some bj /\ u ∈ bi /\ v ∈ bj.
Proof.
  revert P. induction bs as [|b bs IH]; intros P HL Hnd u v Huv Hv; [by apply not_elem_of_nil in Hv|].
  destruct HL as (_ & _ & Hdep & HL). cbn in Hv, Hnd. rewrite app_assoc in Hnd.
  apply elem_of_app in Hv as [Hv|Hv].
  - left. destruct Huv as (e & He & <- & <-). by apply Hdep.
  - destruct (IH _ HL Hnd u v Huv Hv) as [[HP|Hb]%elem_of_app|(i & j & bi & bj & Hij & Hi & Hj & H)].
    + auto.
    + right. apply list_elem_of_In, in_concat in Hv as (bj & Hbj & Hvj).
      apply list_elem_of_In, list_elem_of_lookup in Hbj as [j Hj].
      exists 0, (S j), b, bj. rewrite (list_elem_of_In bj v). split_and!; [lia | done..].
    + right. exists (S i), (S j), bi, bj. split_and!; [lia | naive_solver..].
Qed.

Lemma Layered_acyclic g bs :
  Layered (dependency_edges g) [] bs -> NoDup (concat bs) ->
  (forall u v, dep_edge g u v -> v ∈ concat bs) -> acyclic g.
Proof.
  intros HL Hnd Hall.
  assert (Huniq : forall i j bi bj x, bs !! i = Some bi -> bs !! j = Some bj ->
                    x ∈ bi -> x ∈ bj -> i = j).
  { clear HL Hall. induction bs as [|b bs IH]; intros i j bi bj x Hi Hj Hxi Hxj; [done|].
    cbn in Hnd. apply NoDup_app in Hnd as (_ & Hd & Hnd).
    assert (Hc : forall k bk, bs !! k = Some bk -> x ∈ bk -> x ∈ concat bs).
    { intros k bk Hk Hx. apply list_elem_of_In, in_concat. exists bk.
      rewrite <- !list_elem_of_In. eauto using list_elem_of_lookup_2. }
    destruct i as [|i], j as [|j]; cbn in Hi, Hj; [done|..|f_equal; eauto];
      exfalso; simplify_eq; eapply Hd; eauto. }
  assert (Hstep : forall u v, tc (dep_edge g) u v -> forall i bi, bs !! i = Some bi -> u ∈ bi ->
            exists j bj, i < j /\ bs !! j = Some bj /\ v ∈ bj).
  { induction 1 as [u v Huv | u w v Huw _ IH]; intros i bi Hi Hu;
      (destruct (Layered_rank g [] bs HL Hnd _ _ ltac:(eassumption) ltac:(eauto))
         as [[]%not_elem_of_nil|(i' & j & bi' & bj & Hij & Hi' & Hj & Hu' & Hv)]);
      assert (i' = i) as -> by (by eapply Huniq).
    - eauto.
    - destruct (IH j bj Hj Hv) as (k & bk & Hjk & Hk & Hvk). exists k, bk. split; [lia | done]. }
  intros v Hcyc.
  assert (exists i bi, bs !! i = Some bi /\ v ∈ bi) as (i & bi & Hi & Hv).
  { assert (v ∈ concat bs) as Hv.
    { clear -Hcyc Hall. induction Hcyc; eauto. }
    apply list_elem_of_In, in_concat in Hv as (b & Hb & Hvb).
    apply list_elem_of_In, list_elem_of_lookup in Hb as [i Hi].
    exists i, b. by rewrite list_elem_of_In. }
  destruct (Hstep v v Hcyc i bi Hi Hv) as (j & bj & Hij & Hj & Hvj).
  assert (i = j) by (by eapply Huniq). lia.
Qed.

Lemma validate_run g :
  match validate_execution_graph g with
  | Done (Ok bs) =>
      StructurallyOk g /\ Layered (dependency_edges g) [] bs /\ concat bs ≡ₚ node_ids g
  | Done (Err Cycle) => StructurallyOk g /\ exists v, tc (dep_edge g) v v
  | Done (Err _) => ~ StructurallyOk g
  | Panic | OutOfFuel => False
  end.
Proof.
  unfold validate_execution_graph. pose proof (validate_phases_spec g) as Hph.
  destruct (validate_phases g) as [t|e]; [|destruct Hph; by destruct e].
  destruct Hph as [Hso Ht]. pose proof Hso as [_ Hids _ Hedges].
  destruct (peel_spec (dependency_edges g) (node_ids g) (dt_outgoing t) (proj2 Ht) Hedges
              (S (length (eg_nodes g))) [] (initial_frontier (dt_indegree t)) (dt_indegree t))
    as (bs & Hpeel & HL & Hnd & Hsub & Hsat).
  { by apply initial_inv. }
  { unfold node_ids. rewrite length_fmap. cbn. lia. }
  rewrite Hpeel. cbn [mbind Exec_bind]. cbn [app] in *.
  assert (concat bs ⊆+ node_ids g) as Hsubm by (by apply NoDup_submseteq).
  destruct (Nat.eqb_spec (length (concat bs)) (length (eg_nodes g))) as [Hlen|Hlen].
  - split_and!; [done | done |]. apply submseteq_length_Permutation; [done|].
    unfold node_ids. rewrite length_fmap. lia.
  - split; [done|].
    set (U := List.filter (fun v => negb (inb (concat bs) v)) (node_ids g)).
    assert (HU : forall v, v ∈ U <-> v ∈ node_ids g /\ v ∉ concat bs).
    { intros v. unfold U, inb. rewrite elem_of_filterb, negb_true_iff, bool_decide_eq_false. done. }
    assert (exists v, v ∈ U) as [v Hv].
    { destruct U as [|v U'] eqn:EU; [|exists v; left].
      exfalso. apply Hlen. apply submseteq_length in Hsubm as Hle.
      assert (node_ids g ⊆+ concat bs) as Hge%submseteq_length.
      { apply NoDup_submseteq; [done|]. intros v Hv.
        destruct (decide (v ∈ concat bs)); [done|].
        assert (v ∈ []) as []%not_elem_of_nil by (by apply HU). }
      unfold node_ids in *. rewrite length_fmap in *. lia. }
    apply (stuck_cycle g U v Hv). intros w [Hw Hnw]%HU.
    destruct (decide (pending_into (dependency_edges g) (concat bs) w = 0)) as [Hz|Hz].
    { by apply Hsat in Hz. }
    assert (0 < pending_into (dependency_edges g) (concat bs) w)
      as (e & He & Hto & Hfrom)%edges_into_pos by lia.
    exists (edge_from e). split; [|by exists e].
    apply HU. split; [by apply Hedges|]. apply negb_true_iff in Hfrom.
    by apply bool_decide_eq_false in Hfrom.
Qed.

Lemma WellFormed_structural g : WellFormed g <-> StructurallyOk g /\ acyclic g.
Proof.
  split.
  - intros [Hobj Hids Hnodes Hedges Hac]. split; [|done]. split; [done | done | |].
    + intros n Hn. destruct (Hnodes n Hn) as (? & ? & ? & ? & ?). done.
    + intros e He. apply Hedges. by exists e.
  - intros [[Hobj Hids Hnodes Hedges] Hac]. split; [done | done | | | done].
    + intros n Hn. destruct (Hnodes n Hn) as ((? & ? & ? & ?) & ?). done.
    + intros u v (e & He & <- & <-). by apply Hedges.
Qed.

(** Graph validation always returns: it never panics on the in-degree
    counters and the peeling loop ends within one round per node. *)
Theorem validate_total g : exists r, validate_execution_graph g = Done r.
Proof.
  pose proof (validate_run g) as H. destruct (validate_execution_graph g); [eauto | done..].
Qed.

Lemma validate_Ok_WellFormed g bs :
  validate_execution_graph g = Done (Ok bs) -> WellFormed g.
Proof.
  intros Hv. pose proof (validate_run g) as H. rewrite Hv in H. destruct H as (Hso & HL & Hp).
  apply WellFormed_structural. split; [done|].
  apply (Layered_acyclic g bs HL); [rewrite Hp; apply Hso|].
  intros u v (ed & He & <- & <-). rewrite Hp. by apply Hso.
Qed.

(** C1. Validation accepts a graph exactly when it is well formed: a non-blank
    objective, distinct node ids, bound payloads and executors, no timer,
    satisfiable dependency policies, no optional effect owner, dependency edges
    between existing nodes, and no dependency cycle. *)
Theorem validate_accepts_iff_well_formed g :
  (exists bs, validate_execution_graph g = Done (Ok bs)) <-> WellFormed g.
Proof.
  split; [intros [bs Hv]; by eapply validate_Ok_WellFormed|].
  rewrite WellFormed_structural. intros [Hso Hac]. pose proof (validate_run g) as H.
  destruct (validate_execution_graph g) as [[bs|e]| |]; [by exists bs | | done..].
  destruct e; try done. destruct H as (_ & v & Hv). by apply Hac in Hv.
Qed.

(** The returned batches are a topological layering: together they list
    every node exactly once, each batch is non-empty and in ascending id order,
    and every dependency edge runs from a strictly earlier batch to a later one. *)
Theorem validate_batches_topological g bs :
  validate_execution_graph g = Done (Ok bs) ->
  concat bs ≡ₚ node_ids g /\ NoDup (concat bs) /\
  (forall b, b ∈ bs -> b <> [] /\ StronglySorted str_le b) /\
  (forall u v, dep_edge g u v -> exists i j bi bj,
     i < j /\ bs !! i = Some bi /\ bs !! j = Some bj /\ u ∈ bi /\ v ∈ bj).
Proof.
  intros Hv. pose proof (validate_run g) as H. rewrite Hv in H.
  destruct H as (Hso & HL & Hp). assert (NoDup (concat bs)) as Hnd by (rewrite Hp; apply Hso).
  split_and!; [done | done | |].
  - clear -HL. revert HL. generalize (@nil string) at 1.
    induction bs as [|b bs IH]; intros P HL b' Hb'; [by apply not_elem_of_nil in Hb'|].
    destruct HL as (? & ? & _ & HL). apply elem_of_cons in Hb' as [->|Hb']; [by split | by eapply IH].
  - intros u v Huv. destruct (Layered_rank g [] bs HL Hnd u v Huv) as [[]%not_elem_of_nil|?]; [|done].
    destruct Huv as (e & He & <- & <-). rewrite Hp. by apply Hso.
Qed.

(** A graph rejected with [Cycle] passed every other check and does contain
    a dependency cycle. *)
Theorem validate_cycle_is_real g :
  validate_execution_graph g = Done (Err Cycle) ->
  exists v, tc (dep_edge g) v v.
Proof. intros Hv. pose proof (validate_run g) as H. rewrite Hv in H. apply H. Qed.

(** ** Concrete graphs *)

Definition sample_node (id : string) : ExecutionNodeSpec :=
  {| ns_id := id; ns_kind := AgentTask; ns_payload_ref := "payload"; ns_executor_kind := "agent";
     ns_idempotency_key := id; ns_lease_ref := None; ns_acceptance := ExecutionAcceptance_default;
     ns_retry_policy := ExecutionRetryPolicy_default; ns_resource_scopes := []; ns_work := None |}.

Definition depends (u v : string) : ExecutionEdge :=
  {| edge_from := u; edge_to := v; edge_kind := DependsOn |}.

Definition sample_graph (nodes : list ExecutionNodeSpec) (edges : list ExecutionEdge) :
  ExecutionGraph :=
  {| eg_id := "g"; eg_revision := 0; eg_objective := "objective";
     eg_service_class := Interactive; eg_parent_execution := None; eg_lineage := None;
     eg_continuation_binding := None; eg_nodes := nodes; eg_edges := edges;
     eg_node_statuses := list_to_map ((fun n => (ns_id n, Planned)) <$> nodes);
     eg_node_results := ∅; eg_recovery_cursor := ExecutionRecoveryCursor_default;
     eg_delivery_envelope := None; eg_terminal_presentation := None |}.

Definition diamond : ExecutionGraph :=
  sample_graph (sample_node <$> ["d"; "b"; "c"; "a"])
    [depends "a" "b"; depends "a" "c"; depends "b" "d"; depends "c" "d"]%string.

Lemma validate_batches_topological_witness :
  validate_execution_graph diamond = Done (Ok [["a"]; ["b"; "c"]; ["d"]]%string) /\
  NoDup (concat [["a"]; ["b"; "c"]; ["d"]]%string).
Proof.
  assert (validate_execution_graph diamond = Done (Ok [["a"]; ["b"; "c"]; ["d"]]%string)) as H
    by (vm_compute; reflexivity).
  split; [exact H|]. exact (proj1 (proj2 (validate_batches_topological diamond _ H))).
Defined.

Definition two_cycle : ExecutionGraph :=
  sample_graph (sample_node <$> ["a"; "b"]%string) [depends "a" "b"; depends "b" "a"]%string.

Lemma validate_cycle_is_real_witness :
  validate_execution_graph two_cycle = Done (Err Cycle) /\
  exists v, tc (dep_edge two_cycle) v v.
Proof.
  assert (validate_execution_graph two_cycle = Done (Err Cycle)) as H
    by (vm_compute; reflexivity).
  split; [exact H|]. exact (validate_cycle_is_real two_cycle H).
Defined.
