(* ===== verification/Transition.v ===== *)
(** * Node transitions

    [harness-contract/src/execution_graph/state.rs]: the revision-checked
    status machine of one graph node, and the runs it generates. *)

From S2P Require Import Prelude Facts Contract Validation.

Inductive ExecutionTransitionError :=
| StaleRevision (expected actual : N)
| NodeNotFound (node_id : string)
| Illegal (node_id : string) (from to : ExecutionNodeStatus).

#[export] Instance ExecutionTransitionError_eq_dec : EqDecision ExecutionTransitionError.
Proof. solve_decision. Defined.

(** [legal_transition] *)
Definition legal_transition (from to : ExecutionNodeStatus) : bool :=
  match from, to with
  | Planned, (Ready | Cancelled | Blocked) => true
  | Ready, (Running | Paused | Cancelled | Blocked | Failed) => true
  | Running, (WaitingInput | WaitingApproval | WaitingExternal | Completed | Failed
             | Blocked | Cancelled | Paused) => true
  | (WaitingInput | WaitingApproval | WaitingExternal | Paused),
    (Ready | Running | Failed | Cancelled) => true
  | _, _ => false
  end || bool_decide (from = to).

(** The writes of one transition: [node_statuses.insert], the optional
    [node_results.insert], [revision.saturating_add(1)]. *)
Definition write_transition (g : ExecutionGraph) (node_id : string)
    (to : ExecutionNodeStatus) (result : option ExecutionNodeResult) : ExecutionGraph :=
  {| eg_id := eg_id g;
     eg_revision := u64_saturating_add (eg_revision g) 1;
     eg_objective := eg_objective g;
     eg_service_class := eg_service_class g;
     eg_parent_execution := eg_parent_execution g;
     eg_lineage := eg_lineage g;
     eg_continuation_binding := eg_continuation_binding g;
     eg_nodes := eg_nodes g;
     eg_edges := eg_edges g;
     eg_node_statuses := <[node_id := to]> (eg_node_statuses g);
     eg_node_results := match result with
                        | Some r => <[node_id := r]> (eg_node_results g)
                        | None => eg_node_results g
                        end;
     eg_recovery_cursor := eg_recovery_cursor g;
     eg_delivery_envelope := eg_delivery_envelope g;
     eg_terminal_presentation := eg_terminal_presentation g |}.

(** [apply_node_transition] *)
Definition apply_node_transition (g : ExecutionGraph) (expected_revision : N)
    (node_id : string) (to : ExecutionNodeStatus) (result : option ExecutionNodeResult) :
  Result ExecutionTransitionError ExecutionGraph :=
  _ ← guard_err (negb (eg_revision g =? expected_revision)%N)
        (StaleRevision expected_revision (eg_revision g));
  from ← ok_or (NodeNotFound node_id) (eg_node_statuses g !! node_id);
  _ ← guard_err (negb (legal_transition from to)) (Illegal node_id from to);
  Ok (write_transition g node_id to result).

(** ** The status machine *)

Definition legal (from to : ExecutionNodeStatus) : Prop := legal_transition from to = true.

Lemma legal_refl s : legal s s.
Proof. by destruct s. Qed.

Lemma legal_cancel s : is_terminal s = false -> legal s Cancelled.
Proof. by destruct s. Qed.

Lemma legal_from_terminal s t : is_terminal s = true -> legal s t -> t = s.
Proof. by destruct s, t. Qed.

Lemma apply_node_transition_Ok g rev id to res g' :
  apply_node_transition g rev id to res = Ok g' <->
  eg_revision g = rev /\ g' = write_transition g id to res /\
  exists from, eg_node_statuses g !! id = Some from /\ legal from to.
Proof.
  unfold apply_node_transition, legal.
  destruct (N.eqb_spec (eg_revision g) rev) as [->|Hne]; cbn; [|split; [discriminate | intros (? & _ & ? & ? & ?); congruence]].
  destruct (eg_node_statuses g !! id) as [from|]; cbn; [|split; [discriminate | intros (? & _ & ? & ? & ?); congruence]].
  destruct (legal_transition from to) eqn:El; cbn; [|split; [discriminate | intros (? & _ & ? & ? & ?); congruence]].
  split; [intros [= <-]; eauto | by intros (_ & -> & _)].
Qed.

#[export] Hint Resolve legal_refl legal_cancel : cowd.

(** ** Runs: any sequence of accepted transitions *)

Inductive transition_step (g g' : ExecutionGraph) : Prop :=
| TransitionStep rev id to res :
    apply_node_transition g rev id to res = Ok g' -> transition_step g g'.

Lemma transition_step_status g g' id s :
  transition_step g g' -> eg_node_statuses g !! id = Some s ->
  exists s', eg_node_statuses g' !! id = Some s' /\ legal s s'.
Proof.
  intros [rev id' to res (_ & -> & from & Hf & Hl)%apply_node_transition_Ok] Hs. cbn.
  destruct (decide (id' = id)) as [->|Hne].
  - rewrite lookup_insert_eq. exists to. split; [done | congruence].
  - rewrite lookup_insert_ne by done. exists s. eauto with cowd.
Qed.

Lemma transition_run_status g g' id s :
  rtc transition_step g g' -> eg_node_statuses g !! id = Some s ->
  exists s', eg_node_statuses g' !! id = Some s' /\ rtc legal s s'.
Proof.
  intros Hrun. revert s. induction Hrun as [g|g g1 g' Hstep _ IH]; intros s Hs.
  - exists s. eauto using rtc_refl.
  - destruct (transition_step_status g g1 id s Hstep Hs) as (s1 & Hs1 & Hl).
    destruct (IH s1 Hs1) as (s' & Hs' & Hrtc). exists s'. eauto using rtc_l.
Qed.

Lemma rtc_legal_from_terminal s t : is_terminal s = true -> rtc legal s t -> t = s.
Proof.
  intros Ht Hrtc. induction Hrtc as [|s s1 t Hl _ IH]; [done|].
  apply legal_from_terminal in Hl as ->; auto.
Qed.

(** Completion is only entered from [Running]. *)
Lemma rtc_legal_completed s : rtc legal s Completed ->
  s = Completed \/ rtc legal s Running.
Proof.
  intros Hrtc. remember Completed as t eqn:Et. revert Et.
  induction Hrtc as [|s s1 t Hl _ IH]; intros Et; [by left|].
  destruct (IH Et) as [->|Hr].
  - subst t. destruct s; try discriminate Hl; [right; apply rtc_refl | by left].
  - right. by eapply rtc_l.
Qed.

Definition structure_of (g : ExecutionGraph) :=
  (eg_id g, eg_objective g, eg_service_class g, eg_parent_execution g, eg_lineage g,
   eg_continuation_binding g, eg_nodes g, eg_edges g, eg_recovery_cursor g,
   eg_delivery_envelope g, eg_terminal_presentation g).

Lemma transition_run_structure g g' :
  rtc transition_step g g' ->
  structure_of g' = structure_of g /\
  dom (eg_node_statuses g') = dom (eg_node_statuses g) /\
  (eg_revision g <= eg_revision g' \/ u64_max < eg_revision g)%N.
Proof.
  induction 1 as [g|g g1 g' [rev id to res (_ & -> & from & Hf & Hl)%apply_node_transition_Ok] _ IH].
  - split_and!; [done | done | lia].
  - destruct IH as (Hs & Hd & Hr). split_and!; [done| |].
    + rewrite Hd. cbn. rewrite dom_insert_L.
      apply elem_of_dom_2 in Hf. set_solver.
    + cbn in Hr. unfold u64_saturating_add, sat_add in Hr. lia.
Qed.

(** Terminal outcomes are final: whatever sequence of transitions the
    runtime applies, a node that is completed, blocked, failed or cancelled
    keeps that status. *)
Theorem transition_terminal_absorbing g g' id s :
  rtc transition_step g g' ->
  eg_node_statuses g !! id = Some s -> is_terminal s = true ->
  eg_node_statuses g' !! id = Some s.
Proof.
  intros Hrun Hs Ht. destruct (transition_run_status g g' id s Hrun Hs) as (s' & Hs' & Hl).
  by rewrite (rtc_legal_from_terminal s s' Ht Hl) in Hs'.
Qed.

(** No node completes without running: a node that was planned and is
    completed after a run of transitions was [Running] at some graph in
    between. *)
Theorem transition_completed_was_running g g' id :
  rtc transition_step g g' ->
  eg_node_statuses g !! id = Some Planned ->
  eg_node_statuses g' !! id = Some Completed ->
  exists gm, rtc transition_step g gm /\ rtc transition_step gm g' /\
    eg_node_statuses gm !! id = Some Running.
Proof.
  intros Hrun Hs Hc.
  assert (Hgen : forall s, eg_node_statuses g !! id = Some s -> s = Completed \/
            exists gm, rtc transition_step g gm /\ rtc transition_step gm g' /\
              eg_node_statuses gm !! id = Some Running).
  { clear Hs. induction Hrun as [g|g g1 g' Hstep Hrun IH]; intros s Hs; [left; congruence|].
    destruct (transition_step_status g g1 id s Hstep Hs) as (s1 & Hs1 & Hl).
    destruct (IH Hc s1 Hs1) as [->|(gm & H1 & H2 & H3)].
    - destruct s; try discriminate Hl; [right | by left].
      exists g. split_and!; [apply rtc_refl | by eapply rtc_l | done].
    - right. exists gm. split_and!; [by eapply rtc_l | done..]. }
  by destruct (Hgen Planned Hs).
Qed.

(** A transition is checked in order (revision, existence, legality); a
    rejected one reports the first violated check, and an accepted one bumps the
    revision, writes exactly this node's status (and its result when one is
    given) and leaves all of the graph's structure alone. *)
Theorem apply_node_transition_spec g rev id to res :
  match apply_node_transition g rev id to res with
  | Ok g' =>
      eg_revision g = rev /\
      (exists from, eg_node_statuses g !! id = Some from /\ legal from to) /\
      eg_node_statuses g' !! id = Some to /\
      (forall id', id' <> id -> eg_node_statuses g' !! id' = eg_node_statuses g !! id' /\
                                eg_node_results g' !! id' = eg_node_results g !! id') /\
      eg_node_results g' !! id = from_option Some (eg_node_results g !! id) res /\
      structure_of g' = structure_of g /\
      ((rev < u64_max)%N -> eg_revision g' = (rev + 1)%N)
  | Err (StaleRevision expected actual) =>
      expected = rev /\ actual = eg_revision g /\ expected <> actual
  | Err (NodeNotFound n) => n = id /\ eg_revision g = rev /\ eg_node_statuses g !! id = None
  | Err (Illegal n from t) =>
      n = id /\ t = to /\ eg_revision g = rev /\ eg_node_statuses g !! id = Some from /\
      ~ legal from to
  end.
Proof.
  unfold apply_node_transition, legal.
  destruct (N.eqb_spec (eg_revision g) rev) as [Hrev|Hne]; cbn; [|by auto].
  destruct (eg_node_statuses g !! id) as [from|] eqn:Hf; cbn; [|by auto].
  destruct (legal_transition from to) eqn:El; cbn; [|split_and!; congruence].
  split_and!; [done | by exists from | apply lookup_insert_eq | | | done |].
  - intros id' Hne. split; [by apply lookup_insert_ne|].
    destruct res; [by apply lookup_insert_ne | done].
  - destruct res; [apply lookup_insert_eq | done].
  - unfold u64_saturating_add, sat_add. lia.
Qed.

(** A child graph's service class is never above its parent's: the class
    granted is the lower of the two, and a class already low enough is kept. *)
Lemma bounded_by_never_promotes c parent :
  service_rank (bounded_by c (Some parent)) = max (service_rank c) (service_rank parent) /\
  (service_rank parent <= service_rank c -> bounded_by c (Some parent) = c) /\
  bounded_by (bounded_by c (Some parent)) (Some parent) = bounded_by c (Some parent).
Proof. destruct c, parent; cbn; split_and!; lia || done. Qed.

(** ** Concrete runs *)

Definition one_node : ExecutionGraph := sample_graph [sample_node "a"] [].

Definition at_status (s : ExecutionNodeStatus) (revision : N) : ExecutionGraph :=
  {| eg_id := "g"; eg_revision := revision; eg_objective := "objective";
     eg_service_class := Interactive; eg_parent_execution := None; eg_lineage := None;
     eg_continuation_binding := None; eg_nodes := [sample_node "a"]; eg_edges := [];
     eg_node_statuses := {["a"%string := s]}; eg_node_results := ∅;
     eg_recovery_cursor := ExecutionRecoveryCursor_default;
     eg_delivery_envelope := None; eg_terminal_presentation := None |}.

Lemma at_status_step s t n :
  (n < u64_max)%N -> legal s t -> transition_step (at_status s n) (at_status t (n + 1)).
Proof.
  intros Hn Hl. apply (TransitionStep _ _ n "a" t None). apply apply_node_transition_Ok.
  split_and!; [done| |].
  - unfold write_transition, at_status. cbn. rewrite insert_singleton_eq.
    unfold u64_saturating_add. by rewrite sat_add_exact by lia.
  - exists s. split; [apply lookup_singleton_eq | done].
Qed.

Lemma sample_run :
  rtc transition_step (at_status Planned 0) (at_status Completed 3).
Proof.
  apply (rtc_l _ _ (at_status Ready 1)); [by apply (at_status_step Planned Ready 0)|].
  apply (rtc_l _ _ (at_status Running 2)); [by apply (at_status_step Ready Running 1)|].
  apply rtc_once. by apply (at_status_step Running Completed 2).
Qed.

Lemma transition_completed_was_running_witness :
  exists gm, rtc transition_step (at_status Planned 0) gm /\
    rtc transition_step gm (at_status Completed 3) /\
    eg_node_statuses gm !! "a"%string = Some Running.
Proof.
  apply (transition_completed_was_running (at_status Planned 0) (at_status Completed 3) "a").
  - exact sample_run.
  - reflexivity.
  - reflexivity.
Defined.

Lemma transition_terminal_absorbing_witness :
  eg_node_statuses (at_status Cancelled 1) !! "a"%string = Some Cancelled.
Proof.
  apply (transition_terminal_absorbing (at_status Cancelled 0) (at_status Cancelled 1) "a").
  - apply rtc_once. by apply (at_status_step Cancelled Cancelled 0).
  - reflexivity.
  - reflexivity.
Defined.
