(* ===== verification/Delta.v ===== *)
(** * Graph deltas and graph events

    [runtime/src/execution_core/graph/events.rs]: the minimal reconstruction
    payload between two graph revisions, its application, and the events of a
    graph stream.  The main result says exactly when a delta reconstructs the
    committed graph. *)

From stdpp Require Import pretty.
From S2P Require Import Prelude Facts Contract Validation.

Record ExecutionNodeBinding := {
  nb_executor_kind : string;
  nb_ticket_idempotency_key : string;
  nb_attempt : N;
  nb_resource_lease_refs : list string;
  nb_scope_lease_ref : option string;
  nb_worktree_lease_ref : option string
}.

#[export] Instance ExecutionNodeBinding_eq_dec : EqDecision ExecutionNodeBinding.
Proof. solve_decision. Defined.

Record ExecutionGraphDelta := {
  d_revision : N;
  d_objective : option string;
  d_service_class : option ExecutionServiceClass;
  d_parent_execution : option (option ExecutionParentBinding);
  d_continuation_binding : option (option CollaborationContinuationBinding);
  d_delivery_envelope : option (option DeliveryEnvelope);
  d_terminal_presentation : option (option TerminalPresentation);
  d_added_nodes : list ExecutionNodeSpec;
  d_removed_node_ids : list string;
  d_added_edges : list ExecutionEdge;
  d_removed_edges : list ExecutionEdge;
  d_node_status_updates : gmap string ExecutionNodeStatus;
  d_removed_node_statuses : list string;
  d_node_result_updates : gmap string ExecutionNodeResult;
  d_removed_node_results : list string;
  d_recovery_cursor : ExecutionRecoveryCursor
}.

#[export] Instance ExecutionGraphDelta_eq_dec : EqDecision ExecutionGraphDelta.
Proof. solve_decision. Defined.

(** [(previous.f != next.f).then(|| next.f.clone())] *)
Definition changed {A} `{EqDecision A} (previous next : A) : option A :=
  if decide (previous = next) then None else Some next.

(** [next.m.iter().filter(|(k, v)| previous.m.get(k) != Some(v)).collect()] *)
Definition map_updates {V} `{EqDecision V} (previous next : gmap string V) : gmap string V :=
  filter (fun kv => previous !! kv.1 <> Some kv.2) next.

(** [previous.m.keys().filter(|k| !next.m.contains_key(k))] *)
Definition map_removed {V} (previous next : gmap string V) : list string :=
  List.filter (fun k => bool_decide (next !! k = None)) (btree_keys previous).

(** [ExecutionGraphDelta::between] *)
Definition delta_between (previous next : ExecutionGraph) : ExecutionGraphDelta :=
  {| d_revision := eg_revision next;
     d_objective := changed (eg_objective previous) (eg_objective next);
     d_service_class := changed (eg_service_class previous) (eg_service_class next);
     d_parent_execution := changed (eg_parent_execution previous) (eg_parent_execution next);
     d_continuation_binding :=
       changed (eg_continuation_binding previous) (eg_continuation_binding next);
     d_delivery_envelope := changed (eg_delivery_envelope previous) (eg_delivery_envelope next);
     d_terminal_presentation :=
       changed (eg_terminal_presentation previous) (eg_terminal_presentation next);
     d_added_nodes :=
       List.filter (fun node => negb (existsb (fun old =>
         String.eqb (ns_id old) (ns_id node) && bool_decide (old = node)) (eg_nodes previous)))
         (eg_nodes next);
     d_removed_node_ids :=
       ns_id <$> List.filter (fun node => negb (existsb (fun new =>
         String.eqb (ns_id new) (ns_id node)) (eg_nodes next))) (eg_nodes previous);
     d_added_edges := List.filter (fun e => negb (memb (eg_edges previous) e)) (eg_edges next);
     d_removed_edges := List.filter (fun e => negb (memb (eg_edges next) e)) (eg_edges previous);
     d_node_status_updates := map_updates (eg_node_statuses previous) (eg_node_statuses next);
     d_removed_node_statuses := map_removed (eg_node_statuses previous) (eg_node_statuses next);
     d_node_result_updates := map_updates (eg_node_results previous) (eg_node_results next);
     d_removed_node_results := map_removed (eg_node_results previous) (eg_node_results next);
     d_recovery_cursor := eg_recovery_cursor next |}.

(** [nodes.retain(|node| node.id != id)] *)
Definition retain_other (id : string) (nodes : list ExecutionNodeSpec) : list ExecutionNodeSpec :=
  List.filter (fun node => negb (String.eqb (ns_id node) id)) nodes.

Definition remove_nodes (nodes : list ExecutionNodeSpec) (ids : list string) :
  list ExecutionNodeSpec :=
  foldl (fun ns id => retain_other id ns) nodes ids.

Definition upsert_nodes (nodes added : list ExecutionNodeSpec) : list ExecutionNodeSpec :=
  foldl (fun ns node => retain_other (ns_id node) ns ++ [node]) nodes added.

Definition push_edges (edges added : list ExecutionEdge) : list ExecutionEdge :=
  foldl (fun es e => if memb es e then es else es ++ [e]) edges added.

Definition remove_keys {V} (m : gmap string V) (ids : list string) : gmap string V :=
  foldl (fun m id => delete id m) m ids.

(** [ExecutionGraphDelta::apply] *)
Definition delta_apply (d : ExecutionGraphDelta) (g : ExecutionGraph) :
  Result string ExecutionGraph :=
  _ ← guard_err (negb (d_revision d =? u64_saturating_add (eg_revision g) 1)%N)
        ("delta revision " +:+ pretty (d_revision d) +:+ " does not follow graph revision "
         +:+ pretty (eg_revision g))%string;
  Ok {| eg_id := eg_id g;
        eg_revision := d_revision d;
        eg_objective := default (eg_objective g) (d_objective d);
        eg_service_class := default (eg_service_class g) (d_service_class d);
        eg_parent_execution := default (eg_parent_execution g) (d_parent_execution d);
        eg_lineage := eg_lineage g;
        eg_continuation_binding :=
          default (eg_continuation_binding g) (d_continuation_binding d);
        eg_nodes := upsert_nodes (remove_nodes (eg_nodes g) (d_removed_node_ids d))
                      (d_added_nodes d);
        eg_edges := push_edges
                      (List.filter (fun e => negb (memb (d_removed_edges d) e)) (eg_edges g))
                      (d_added_edges d);
        eg_node_statuses := d_node_status_updates d
                            ∪ remove_keys (eg_node_statuses g) (d_removed_node_statuses d);
        eg_node_results := d_node_result_updates d
                           ∪ remove_keys (eg_node_results g) (d_removed_node_results d);
        eg_recovery_cursor := d_recovery_cursor d;
        eg_delivery_envelope := default (eg_delivery_envelope g) (d_delivery_envelope d);
        eg_terminal_presentation :=
          default (eg_terminal_presentation g) (d_terminal_presentation d) |}.

(** ** Graph events *)

Inductive ExecutionGraphEvent :=
| EvPlanned (graph : ExecutionGraph)
| EvCheckpoint (cause : string) (graph : ExecutionGraph)
| EvNodeTransitioned (node_id : string) (from to : ExecutionNodeStatus)
    (result : option ExecutionNodeResult) (binding : option ExecutionNodeBinding)
    (delta : ExecutionGraphDelta)
| EvNodesStarted (bindings : gmap string ExecutionNodeBinding) (delta : ExecutionGraphDelta)
| EvNodesTransitioned (node_ids : list string) (delta : ExecutionGraphDelta)
| EvNodeTransitionedAndReplanned (node_id : string) (from to : ExecutionNodeStatus)
    (result : ExecutionNodeResult) (reason : string) (added_node_ids : list string)
    (delta : ExecutionGraphDelta)
| EvCommandApplied (command : string) (reason : option string) (delta : ExecutionGraphDelta)
| EvReplanned (reason : string) (added_node_ids : list string) (delta : ExecutionGraphDelta)
| EvRecovered (recovered_nodes blocked_nodes : list string) (delta : ExecutionGraphDelta).

(** [ExecutionGraphEvent::kind] *)
Definition event_kind (e : ExecutionGraphEvent) : string :=
  match e with
  | EvPlanned _ => "execution_graph.planned"
  | EvCheckpoint _ _ => "execution_graph.checkpoint"
  | EvNodeTransitioned _ _ _ _ _ _ => "execution_graph.node_transitioned"
  | EvNodesStarted _ _ => "execution_graph.nodes_started"
  | EvNodesTransitioned _ _ => "execution_graph.nodes_transitioned"
  | EvNodeTransitionedAndReplanned _ _ _ _ _ _ _ =>
      "execution_graph.node_transitioned_and_replanned"
  | EvCommandApplied _ _ _ => "execution_graph.command_applied"
  | EvReplanned _ _ _ => "execution_graph.replanned"
  | EvRecovered _ _ _ => "execution_graph.recovered"
  end.

(** The snapshot or the delta an event carries. *)
Definition event_payload (e : ExecutionGraphEvent) : ExecutionGraph + ExecutionGraphDelta :=
  match e with
  | EvPlanned g | EvCheckpoint _ g => inl g
  | EvNodeTransitioned _ _ _ _ _ d | EvNodesStarted _ d | EvNodesTransitioned _ d
  | EvNodeTransitionedAndReplanned _ _ _ _ _ _ d | EvCommandApplied _ _ d
  | EvReplanned _ _ d | EvRecovered _ _ d => inr d
  end.

(** [ExecutionGraphEvent::project] *)
Definition event_project (e : ExecutionGraphEvent) (current : option ExecutionGraph) :
  Result string ExecutionGraph :=
  match event_payload e with
  | inl g => Ok g
  | inr d =>
      g ← ok_or "graph delta has no preceding snapshot"%string current;
      delta_apply d g
  end.

(** ** What a delta reconstructs *)

Lemma default_changed {A} `{EqDecision A} (p n : A) : default p (changed p n) = n.
Proof. unfold changed. by destruct (decide _). Qed.

Lemma remove_keys_lookup {V} (m : gmap string V) ids k :
  remove_keys m ids !! k = if decide (k ∈ ids) then None else m !! k.
Proof.
  unfold remove_keys. revert m. induction ids as [|id ids IH]; intros m; cbn.
  - by rewrite decide_False by apply not_elem_of_nil.
  - rewrite IH. destruct (decide (k ∈ ids)).
    + by rewrite decide_True by by right.
    + destruct (decide (k = id)) as [->|Hne].
      * rewrite decide_True by left. apply lookup_delete_eq.
      * rewrite decide_False by (by intros [?|?]%elem_of_cons).
        by apply lookup_delete_ne.
Qed.

(** Status and result maps are always reconstructed exactly. *)
Lemma map_delta_apply {V} `{EqDecision V} (p n : gmap string V) :
  map_updates p n ∪ remove_keys p (map_removed p n) = n.
Proof.
  apply map_eq. intros k. unfold map_updates.
  rewrite lookup_union, map_lookup_filter, remove_keys_lookup.
  assert (Hrm : k ∈ map_removed p n <-> is_Some (p !! k) /\ n !! k = None).
  { unfold map_removed. rewrite elem_of_filterb, elem_of_btree_keys, bool_decide_eq_true. done. }
  destruct (n !! k) as [v|] eqn:En; cbn.
  - rewrite decide_False by (by intros [_ ?]%Hrm).
    destruct (decide (p !! k = Some v)) as [Hp|Hp].
    + by rewrite option_guard_False, Hp by tauto.
    + rewrite option_guard_True by done. cbn. by destruct (p !! k).
  - destruct (p !! k) eqn:Ep.
    + by rewrite decide_True by (apply Hrm; split; [by eexists | done]).
    + by destruct (decide _).
Qed.

Lemma retain_other_filter nodes id :
  retain_other id nodes = List.filter (fun n => negb (memb [id] (ns_id n))) nodes.
Proof.
  apply filterb_ext. intros n _. rewrite memb_cons. unfold memb.
  destruct (String.eqb_spec (ns_id n) id), (bool_decide_reflect (ns_id n = id)); done.
Qed.

Lemma remove_nodes_filter nodes ids :
  remove_nodes nodes ids = List.filter (fun n => negb (memb ids (ns_id n))) nodes.
Proof.
  unfold remove_nodes. revert nodes. induction ids as [|id ids IH]; intros nodes; cbn.
  - symmetry. by apply filterb_all.
  - rewrite IH, retain_other_filter, filterb_filterb. apply filterb_ext. intros n _.
    rewrite !memb_cons. cbn. by destruct (bool_decide _).
Qed.

(** With distinct added ids, upserting keeps the untouched nodes, then the
    added ones in order. *)
Lemma upsert_nodes_spec nodes added :
  NoDup (ns_id <$> added) ->
  upsert_nodes nodes added =
  List.filter (fun n => negb (memb (ns_id <$> added) (ns_id n))) nodes ++ added.
Proof.
  unfold upsert_nodes. induction added as [|x added IH] using rev_ind; intros Hnd.
  - cbn. rewrite app_nil_r. symmetry. by apply filterb_all.
  - rewrite fmap_app in Hnd. apply NoDup_app in Hnd as (Hnd & Hd & _).
    rewrite foldl_app. cbn. rewrite IH by done.
    rewrite retain_other_filter, List.filter_app, filterb_filterb, <- app_assoc. f_equal.
    + apply filterb_ext. intros n _. rewrite fmap_app. cbn.
      unfold memb. rewrite <- negb_orb. f_equal.
      destruct (bool_decide_reflect (ns_id n ∈ (ns_id <$> added) ++ [ns_id x])) as [Hin|Hin];
        rewrite elem_of_app in Hin.
      * apply orb_true_iff. rewrite !bool_decide_eq_true. done.
      * apply orb_false_iff. rewrite !bool_decide_eq_false. tauto.
    + f_equal. apply filterb_all. intros n Hn. apply negb_true_iff, memb_false.
      intros Heq%list_elem_of_singleton. apply (Hd (ns_id n)); [by apply list_elem_of_fmap_2|].
      rewrite Heq. left.
Qed.

Lemma push_edges_fresh edges added :
  NoDup added -> (forall e, e ∈ added -> e ∉ edges) -> push_edges edges added = edges ++ added.
Proof.
  unfold push_edges. revert edges. induction added as [|e added IH]; intros edges Hnd Hd; cbn.
  - by rewrite app_nil_r.
  - apply NoDup_cons in Hnd as [He Hnd].
    rewrite (proj2 (memb_false edges e)) by (apply Hd; left).
    rewrite IH, <- app_assoc; [done | done |].
    intros e' He' [Hin|Heq%list_elem_of_singleton]%elem_of_app; [|by subst].
    apply (Hd e'); [by right | done].
Qed.

(** The nodes and edges that replaying a delta yields. *)
Definition rebuilt_nodes (p n : ExecutionGraph) : list ExecutionNodeSpec :=
  List.filter (memb (eg_nodes n)) (eg_nodes p)
  ++ List.filter (fun x => negb (memb (eg_nodes p) x)) (eg_nodes n).

Definition rebuilt_edges (p n : ExecutionGraph) : list ExecutionEdge :=
  push_edges (List.filter (memb (eg_edges n)) (eg_edges p))
             (List.filter (fun e => negb (memb (eg_edges p) e)) (eg_edges n)).

Definition rebuilt (p n : ExecutionGraph) : ExecutionGraph :=
  {| eg_id := eg_id p; eg_revision := eg_revision n; eg_objective := eg_objective n;
     eg_service_class := eg_service_class n; eg_parent_execution := eg_parent_execution n;
     eg_lineage := eg_lineage p; eg_continuation_binding := eg_continuation_binding n;
     eg_nodes := rebuilt_nodes p n; eg_edges := rebuilt_edges p n;
     eg_node_statuses := eg_node_statuses n; eg_node_results := eg_node_results n;
     eg_recovery_cursor := eg_recovery_cursor n;
     eg_delivery_envelope := eg_delivery_envelope n;
     eg_terminal_presentation := eg_terminal_presentation n |}.

Lemma ns_id_inj l x y :
  NoDup (ns_id <$> l) -> x ∈ l -> y ∈ l -> ns_id x = ns_id y -> x = y.
Proof.
  induction l as [|z l IH]; intros Hnd Hx Hy Heq; [by apply not_elem_of_nil in Hx|].
  apply NoDup_cons in Hnd as [Hz Hnd].
  apply elem_of_cons in Hx as [->|Hx], Hy as [->|Hy]; [done | | | auto].
  - exfalso. apply Hz. rewrite Heq. by apply list_elem_of_fmap_2.
  - exfalso. apply Hz. rewrite <- Heq. by apply list_elem_of_fmap_2.
Qed.

Lemma added_nodes_filter p n :
  d_added_nodes (delta_between p n) =
  List.filter (fun x => negb (memb (eg_nodes p) x)) (eg_nodes n).
Proof.
  apply filterb_ext. intros x _. f_equal.
  destruct (memb (eg_nodes p) x) eqn:E.
  - apply memb_true in E. apply existsb_elem_of. exists x.
    by rewrite String.eqb_refl, bool_decide_eq_true_2.
  - apply memb_false in E. apply existsb_false. intros y Hy. apply andb_false_iff. right.
    apply bool_decide_eq_false. by intros ->.
Qed.

Lemma NoDup_fmap_filter (f : ExecutionNodeSpec -> bool) l :
  NoDup (ns_id <$> l) -> NoDup (ns_id <$> List.filter f l).
Proof.
  induction l as [|x l IH]; cbn; intros Hnd; [done|].
  apply NoDup_cons in Hnd as [Hx Hnd]. destruct (f x); cbn; [|auto].
  constructor; [|auto]. intros (y & Heq & [Hy _]%elem_of_filterb)%list_elem_of_fmap.
  apply Hx. rewrite Heq. by apply list_elem_of_fmap_2.
Qed.

Lemma rebuilt_nodes_spec p n :
  NoDup (node_ids p) -> NoDup (node_ids n) ->
  upsert_nodes (remove_nodes (eg_nodes p) (d_removed_node_ids (delta_between p n)))
    (d_added_nodes (delta_between p n)) = rebuilt_nodes p n.
Proof.
  intros Hp Hn. rewrite added_nodes_filter, upsert_nodes_spec, remove_nodes_filter
    by (by apply NoDup_fmap_filter).
  unfold rebuilt_nodes. f_equal. rewrite filterb_filterb. apply filterb_ext. intros x Hx.
  cbn. rewrite <- negb_orb.
  destruct (memb (eg_nodes n) x) eqn:En.
  - apply memb_true in En. apply negb_true_iff, orb_false_iff. rewrite !memb_false. split.
    + intros (y & Heq & [_ Hy]%elem_of_filterb)%list_elem_of_fmap.
      apply negb_true_iff, existsb_false with (x := x) in Hy; [|done].
      by rewrite Heq, String.eqb_refl in Hy.
    + intros (y & Heq & [Hyn Hy]%elem_of_filterb)%list_elem_of_fmap.
      apply (ns_id_inj (eg_nodes n)) in Heq as <-; try done.
      by apply negb_true_iff, memb_false in Hy.
  - apply memb_false in En. apply negb_false_iff, orb_true_iff. rewrite !memb_true.
    destruct (existsb (fun new => String.eqb (ns_id new) (ns_id x)) (eg_nodes n)) eqn:Ex.
    + right. apply existsb_elem_of in Ex as (y & Hy & Heq%String.eqb_eq).
      rewrite <- Heq. apply list_elem_of_fmap_2, elem_of_filterb. split; [done|].
      apply negb_true_iff, memb_false. intros Hyp.
      apply (ns_id_inj (eg_nodes p)) in Heq as ->; done.
    + left. apply list_elem_of_fmap_2, elem_of_filterb. by rewrite Ex.
Qed.

Lemma removed_edges_filter p n :
  List.filter (fun e => negb (memb (d_removed_edges (delta_between p n)) e)) (eg_edges p) =
  List.filter (memb (eg_edges n)) (eg_edges p).
Proof.
  apply filterb_ext. intros e He. cbn. destruct (memb (eg_edges n) e) eqn:E.
  - apply negb_true_iff, memb_false. by intros [_ ?%negb_true_iff]%elem_of_filterb; congruence.
  - apply negb_false_iff, memb_true, elem_of_filterb. by rewrite E.
Qed.

(** Applying the delta between two graphs gives [rebuilt]. *)
Lemma delta_apply_between p n :
  NoDup (node_ids p) -> NoDup (node_ids n) ->
  eg_revision n = u64_saturating_add (eg_revision p) 1 ->
  delta_apply (delta_between p n) p = Ok (rebuilt p n).
Proof.
  intros Hp Hn Hrev. unfold delta_apply. cbn [d_revision delta_between].
  rewrite Hrev, N.eqb_refl. cbn [negb guard_err mbind Result_bind].
  rewrite rebuilt_nodes_spec, removed_edges_filter by done. cbn [d_objective d_service_class
    d_parent_execution d_continuation_binding d_delivery_envelope d_terminal_presentation
    d_node_status_updates d_removed_node_statuses d_node_result_updates d_removed_node_results
    d_recovery_cursor d_added_edges delta_between].
  rewrite !default_changed, !map_delta_apply. unfold rebuilt. by rewrite Hrev.
Qed.

(** Replaying the delta between two graphs (with distinct node ids)
    reproduces the second one exactly when it follows the first by one
    revision, keeps its id and its lineage (which deltas do not carry), and
    lists its nodes and edges as the surviving old ones followed by the new
    ones, without repeating an edge that already exists. *)
Theorem delta_roundtrip_iff p n :
  NoDup (node_ids p) -> NoDup (node_ids n) ->
  delta_apply (delta_between p n) p = Ok n <->
  eg_revision n = u64_saturating_add (eg_revision p) 1 /\
  eg_id n = eg_id p /\ eg_lineage n = eg_lineage p /\
  eg_nodes n = List.filter (memb (eg_nodes n)) (eg_nodes p)
               ++ List.filter (fun x => negb (memb (eg_nodes p) x)) (eg_nodes n) /\
  eg_edges n = push_edges (List.filter (memb (eg_edges n)) (eg_edges p))
                          (List.filter (fun e => negb (memb (eg_edges p) e)) (eg_edges n)).
Proof.
  intros Hp Hn. split.
  - intros H. assert (Hrev : eg_revision n = u64_saturating_add (eg_revision p) 1).
    { unfold delta_apply in H. ok_inv. apply negb_false_iff, N.eqb_eq in Ha. done. }
    rewrite delta_apply_between in H by done. injection H as H. unfold rebuilt in H.
    destruct n; cbn in *. injection H as ? ? Hnodes Hedges. subst.
    split_and!; done.
  - intros (Hrev & Hid & Hlin & Hnodes & Hedges).
    rewrite delta_apply_between by done. f_equal. unfold rebuilt, rebuilt_nodes, rebuilt_edges.
    rewrite <- Hnodes, <- Hedges, <- Hid, <- Hlin. by destruct n.
Qed.

(** The shape of every topology-extending commit: new nodes and new edges are
    appended. *)
Record Extends (p n : ExecutionGraph) : Prop := {
  ex_revision : eg_revision n = u64_saturating_add (eg_revision p) 1;
  ex_id : eg_id n = eg_id p;
  ex_lineage : eg_lineage n = eg_lineage p;
  ex_nodup : NoDup (node_ids n);
  ex_nodes : exists new, eg_nodes n = eg_nodes p ++ new;
  ex_edges : exists new, eg_edges n = eg_edges p ++ new /\ NoDup new /\
    forall e, e ∈ new -> e ∉ eg_edges p
}.

Lemma delta_roundtrip_extends p n :
  Extends p n -> delta_apply (delta_between p n) p = Ok n.
Proof.
  intros [Hrev Hid Hlin Hnd [new Hnew] (newe & Hnewe & Hnde & Hdis)].
  unfold node_ids in Hnd. pose proof Hnd as Hnd'. rewrite Hnew, fmap_app in Hnd'.
  apply NoDup_app in Hnd' as (Hndp & Hd & _).
  assert (Hfresh : forall x, x ∈ new -> x ∉ eg_nodes p).
  { intros x Hx Hxp. apply (Hd (ns_id x)); by apply list_elem_of_fmap_2. }
  rewrite delta_apply_between by done. f_equal. unfold rebuilt, rebuilt_nodes, rebuilt_edges.
  rewrite (filterb_all (memb (eg_nodes n))), (filterb_all (memb (eg_edges n))).
  2:{ intros e He. apply memb_true. rewrite Hnewe. apply elem_of_app. by left. }
  2:{ intros x Hx. apply memb_true. rewrite Hnew. apply elem_of_app. by left. }
  rewrite Hnew, Hnewe, !List.filter_app.
  rewrite !(filterb_none _ (eg_nodes p)), !(filterb_none _ (eg_edges p)), !app_nil_l.
  2:{ intros e He. by apply negb_false_iff, memb_true. }
  2:{ intros x Hx. by apply negb_false_iff, memb_true. }
  rewrite !filterb_all, push_edges_fresh; [|done..| |].
  2:{ intros e He. apply negb_true_iff, memb_false. auto. }
  2:{ intros x Hx. apply negb_true_iff, memb_false. auto. }
  rewrite <- Hnew, <- Hnewe, <- Hid, <- Hlin. by destruct n.
Qed.

(** ** Concrete deltas *)

(** [diamond], one revision later, with a node and an edge appended. *)
Definition diamond_extended : ExecutionGraph :=
  {| eg_id := "g"; eg_revision := 1; eg_objective := "objective";
     eg_service_class := Interactive; eg_parent_execution := None; eg_lineage := None;
     eg_continuation_binding := None;
     eg_nodes := eg_nodes diamond ++ [sample_node "e"];
     eg_edges := eg_edges diamond ++ [depends "d" "e"];
     eg_node_statuses := <["e"%string := Planned]> (eg_node_statuses diamond);
     eg_node_results := ∅; eg_recovery_cursor := ExecutionRecoveryCursor_default;
     eg_delivery_envelope := None; eg_terminal_presentation := None |}.

Lemma node_ids_nodup_by_compute g :
  bool_decide (NoDup (node_ids g)) = true -> NoDup (node_ids g).
Proof. apply bool_decide_eq_true. Qed.

Lemma delta_roundtrip_iff_witness :
  delta_apply (delta_between diamond diamond_extended) diamond = Ok diamond_extended.
Proof.
  apply delta_roundtrip_iff.
  - apply node_ids_nodup_by_compute. vm_compute. reflexivity.
  - apply node_ids_nodup_by_compute. vm_compute. reflexivity.
  - split_and!; vm_compute; reflexivity.
Defined.
