(* ===== verification/Sizes.v ===== *)
(** * Size estimates and checkpoint admission

    [estimate_graph_bytes] and [observed_acceptance_heap_bytes]
    ([hot_state/graph.rs]), [ExecutionGraphDelta::estimated_bytes] and
    [ExecutionGraphEvent::estimated_delta_bytes] ([events.rs]), and the policy
    that turns a large or periodic delta into a checkpoint
    ([maybe_checkpoint], [commit_pipeline.rs]).  Record sizes
    ([std::mem::size_of]) are a parameter. *)

From S2P Require Import Prelude Facts Contract Validation Delta.

(** [std::mem::size_of] of the types the estimates mention. *)
Class MemLayout := {
  size_of_ExecutionGraph : N;
  size_of_ExecutionGraphDelta : N;
  size_of_ExecutionGraphEvent : N;
  size_of_ExecutionNodeSpec : N;
  size_of_ExecutionEdge : N;
  size_of_ExecutionNodeResult : N;
  size_of_DeliveryBranchTerminal : N
}.

Local Infix "+s" := usize_saturating_add (at level 50, left associativity).

(** [iter().map(String::len).sum()] and [as_ref().map_or(0, String::len)]. *)
Definition lens (l : list string) : N := sum_map str_len l.
Definition opt_len (o : option string) : N := from_option str_len 0%N o.

(** [observed_acceptance_heap_bytes] *)
Definition target_bytes (t : EvidenceTargetIdentity) : N :=
  match t with
  | TargetWorkspace scope =>
      let p := ws_path scope in
      str_len (wp_workspace_id p) +s str_len (wp_repository_id p)
      +s str_len (wp_workspace_relative_path p) +s str_len (wp_repository_relative_path p)
      +s opt_len (wp_observed_revision_or_digest p)
  | TargetNetwork endpoint => str_len endpoint
  | TargetAmbiguousWorkspace display_alias candidates =>
      str_len display_alias +s lens candidates
  | TargetUnavailableWorkspace display_alias reason => str_len display_alias +s str_len reason
  end.

Definition evidence_bytes (bytes : N) (e : ObservedEvidence) : N :=
  let bytes := bytes +s str_len (oe_obligation_id e) +s str_len (oe_tool_name e) in
  let bytes := bytes +s target_bytes (oe_target e) in
  match oe_evidence_ref e with
  | Some r =>
      bytes +s str_len (er_ref_type (ea_evidence_ref r)) +s str_len (er_id (ea_evidence_ref r))
      +s str_len (ea_sha256 r) +s str_len (ea_media_type r)
      +s str_len (ea_retrieval_selector r) +s str_len (ea_visibility_scope r)
  | None => bytes
  end.

Definition observed_acceptance_heap_bytes (a : ObservedAcceptance) : N :=
  foldl evidence_bytes (lens (oa_satisfied_criteria a ++ oa_unresolved_obligation_ids a))
    (oa_observed_evidence a).

(** [ObservedAcceptance::is_empty] *)
Definition observed_acceptance_is_empty (a : ObservedAcceptance) : bool :=
  bool_decide (oa_satisfied_criteria a = []) && bool_decide (oa_observed_evidence a = [])
  && bool_decide (oa_unresolved_obligation_ids a = []).

Section Estimates.
Context `{MemLayout}.

Definition node_bytes (bytes : N) (node : ExecutionNodeSpec) : N :=
  let bytes :=
    bytes +s size_of_ExecutionNodeSpec +s str_len (ns_id node) +s str_len (ns_payload_ref node)
    +s str_len (ns_executor_kind node) +s str_len (ns_idempotency_key node)
    +s lens (ns_resource_scopes node) +s lens (acc_criteria (ns_acceptance node))
    +s lens (acc_required_evidence (ns_acceptance node))
    +s lens (rp_retryable_failure_kinds (ns_retry_policy node)) in
  match ns_work node with
  | Some work =>
      bytes +s lens (wc_required_evidence_refs work) +s opt_len (wc_cancellation_group work)
      +s opt_len (wc_context_view_ref work) +s opt_len (wc_model_profile work)
      +s opt_len (wc_reasoning_effort work)
  | None => bytes
  end.

Definition edge_bytes (bytes : N) (e : ExecutionEdge) : N :=
  bytes +s size_of_ExecutionEdge +s str_len (edge_from e) +s str_len (edge_to e).

Definition failure_bytes (bytes : N) (f : option ExecutionFailure) : N :=
  match f with
  | Some f => bytes +s str_len (ef_kind f) +s str_len (ef_message f)
  | None => bytes
  end.

Definition graph_result_bytes (bytes : N) (entry : string * ExecutionNodeResult) : N :=
  let '(node_id, result) := entry in
  let bytes :=
    bytes +s str_len node_id +s size_of_ExecutionNodeResult
    +s opt_len (nr_result_ref result) +s opt_len (nr_summary result)
    +s lens (us_runtime_write_attempt_paths (nr_usage result))
    +s observed_acceptance_heap_bytes (us_observed_acceptance (nr_usage result)) in
  let bytes :=
    if observed_acceptance_is_empty (us_observed_acceptance (nr_usage result))
    then bytes +s lens (us_runtime_observed_resource_scopes (nr_usage result))
    else bytes in
  failure_bytes bytes (nr_failure result).

(** [estimate_graph_bytes] *)
Definition estimate_graph_bytes (g : ExecutionGraph) : N :=
  let bytes := size_of_ExecutionGraph +s str_len (eg_id g) +s str_len (eg_objective g) in
  let bytes :=
    match eg_parent_execution g with
    | Some p => bytes +s str_len (pb_execution_id p) +s str_len (pb_node_id p)
    | None => bytes
    end in
  let bytes := foldl node_bytes bytes (eg_nodes g) in
  let bytes := foldl edge_bytes bytes (eg_edges g) in
  let bytes := bytes +s lens (btree_keys (eg_node_statuses g)) in
  let bytes := foldl graph_result_bytes bytes (btree_entries (eg_node_results g)) in
  bytes +s lens (btree_keys (rc_node_attempts (eg_recovery_cursor g))).

Definition binding_bytes (b : option (option CollaborationContinuationBinding)) : N :=
  match b with
  | Some (Some b) =>
      (str_len (cc_source_session_id b) + str_len (cc_source_turn_id b)
       + str_len (cc_source_root_id b) + str_len (cc_team_set_ref b)
       + str_len (cc_binding_digest b) + str_len (cc_current_ingress b)
       + lens (cc_result_refs b))%N
  | _ => 0%N
  end.

Definition envelope_bytes (e : option (option DeliveryEnvelope)) : N :=
  match e with
  | Some (Some e) =>
      (str_len (de_envelope_id e) + str_len (de_objective_id e)
       + N.of_nat (length (de_branch_terminals e)) * size_of_DeliveryBranchTerminal
       + sum_map (fun item => str_len (du_summary item)) (de_unresolved e))%N
  | _ => 0%N
  end.

Definition added_node_bytes (bytes : N) (node : ExecutionNodeSpec) : N :=
  bytes +s size_of_ExecutionNodeSpec +s str_len (ns_id node) +s str_len (ns_payload_ref node)
  +s str_len (ns_executor_kind node) +s str_len (ns_idempotency_key node)
  +s lens (ns_resource_scopes node).

Definition delta_result_bytes (bytes : N) (entry : string * ExecutionNodeResult) : N :=
  let '(node_id, result) := entry in
  failure_bytes
    (bytes +s str_len node_id +s size_of_ExecutionNodeResult +s opt_len (nr_result_ref result)
     +s opt_len (nr_summary result))
    (nr_failure result).

(** [ExecutionGraphDelta::estimated_bytes] *)
Definition estimated_bytes (d : ExecutionGraphDelta) : N :=
  let bytes :=
    size_of_ExecutionGraphDelta +s opt_len (d_objective d)
    +s binding_bytes (d_continuation_binding d) +s envelope_bytes (d_delivery_envelope d)
    +s lens (d_removed_node_ids d) +s lens (d_removed_node_statuses d)
    +s lens (d_removed_node_results d) in
  let bytes := foldl added_node_bytes bytes (d_added_nodes d) in
  let bytes :=
    bytes +s sum_map (fun e => size_of_ExecutionEdge +s str_len (edge_from e)
                               +s str_len (edge_to e))
               (d_added_edges d ++ d_removed_edges d) in
  let bytes := bytes +s lens (btree_keys (d_node_status_updates d)) in
  foldl delta_result_bytes bytes (btree_entries (d_node_result_updates d)).

Definition node_binding_bytes (entry : string * ExecutionNodeBinding) : N :=
  let '(node_id, b) := entry in
  (str_len node_id + str_len (nb_executor_kind b) + str_len (nb_ticket_idempotency_key b)
   + lens (nb_resource_lease_refs b))%N.

(** [ExecutionGraphEvent::estimated_delta_bytes] *)
Definition estimated_delta_bytes (e : ExecutionGraphEvent) : N :=
  let size := size_of_ExecutionGraphEvent in
  match e with
  | EvPlanned g | EvCheckpoint _ g => estimate_graph_bytes g
  | EvNodeTransitioned node_id _ _ result binding delta =>
      size +s str_len node_id
      +s from_option (fun r => opt_len (nr_summary r) +s opt_len (nr_result_ref r)) 0%N result
      +s from_option (fun b => str_len (nb_executor_kind b)
                               +s str_len (nb_ticket_idempotency_key b)) 0%N binding
      +s estimated_bytes delta
  | EvNodesStarted bindings delta =>
      size +s sum_map node_binding_bytes (btree_entries bindings) +s estimated_bytes delta
  | EvNodesTransitioned node_ids delta => size +s lens node_ids +s estimated_bytes delta
  | EvNodeTransitionedAndReplanned node_id _ _ _ reason added delta =>
      size +s str_len node_id +s str_len reason +s lens added +s estimated_bytes delta
  | EvCommandApplied command reason delta =>
      size +s str_len command +s opt_len reason +s estimated_bytes delta
  | EvReplanned reason added delta =>
      size +s str_len reason +s lens added +s estimated_bytes delta
  | EvRecovered recovered blocked delta =>
      size +s lens recovered +s lens blocked +s estimated_bytes delta
  end.

(** [(256 / graph.nodes.len().max(1)).clamp(8, 64)] *)
Definition topology_interval (g : ExecutionGraph) : N :=
  clamp (256 / N.max (N.of_nat (length (eg_nodes g))) 1) 8 64.

(** [maybe_checkpoint] *)
Definition maybe_checkpoint (g : ExecutionGraph) (e : ExecutionGraphEvent) :
  ExecutionGraphEvent :=
  match event_payload e with
  | inl _ => e
  | inr _ =>
      let delta_bytes := estimated_delta_bytes e in
      let snapshot_bytes := N.max (estimate_graph_bytes g) 1 in
      if (u64_saturating_mul snapshot_bytes 3 <=? u64_saturating_mul delta_bytes 4)%N
         || (eg_revision g mod topology_interval g =? 0)%N
      then EvCheckpoint (event_kind e) g
      else e
  end.

Lemma topology_interval_bounds g : (8 <= topology_interval g <= 64)%N.
Proof. apply clamp_bounds. lia. Qed.

(** Whatever the estimates say, the persisted event is the delta itself or a
    snapshot of the committed graph. *)
Lemma maybe_checkpoint_cases g e :
  maybe_checkpoint g e = e \/ maybe_checkpoint g e = EvCheckpoint (event_kind e) g.
Proof.
  unfold maybe_checkpoint. destruct (event_payload e); [by left|].
  destruct (_ || _); [by right | by left].
Qed.

Lemma maybe_checkpoint_project g e cur :
  event_project e cur = Ok g -> event_project (maybe_checkpoint g e) cur = Ok g.
Proof. destruct (maybe_checkpoint_cases g e) as [-> | ->]; done. Qed.

(** Replay distance is bounded: of any 64 consecutive revisions of a
    graph at least one is persisted as a full snapshot, whatever the size
    estimates are. *)
Theorem checkpoint_every_64 (history : N -> ExecutionGraph) (event : N -> ExecutionGraphEvent) r
  (Hrev : forall k, eg_revision (history k) = k)
  (Hnodes : forall k, eg_nodes (history k) = eg_nodes (history r)) :
  exists k, (r <= k < r + 64)%N /\
    exists g, event_payload (maybe_checkpoint (history k) (event k)) = inl g /\
      (g = history k \/ event_payload (event k) = inl g).
Proof.
  set (t := topology_interval (history r)).
  assert (8 <= t <= 64)%N as Ht by apply topology_interval_bounds.
  exists (r + (t - 1 - (r + t - 1) mod t))%N.
  pose proof (N.mod_lt (r + t - 1) t ltac:(lia)) as Hlt.
  split; [revert Hlt; generalize ((r + t - 1) mod t)%N; lia|].
  set (k := (r + (t - 1 - (r + t - 1) mod t))%N) in *.
  assert (k mod t = 0)%N as Hk.
  { pose proof (N.div_mod (r + t - 1) t ltac:(lia)) as Hdm.
    revert Hlt Hdm. unfold k. generalize ((r + t - 1) mod t)%N ((r + t - 1) / t)%N.
    intros m q Hlt Hdm. assert (r + (t - 1 - m) = q * t)%N as -> by lia.
    apply N.Div0.mod_mul. }
  assert (topology_interval (history k) = t) as Htk by (unfold t, topology_interval; by rewrite Hnodes).
  unfold maybe_checkpoint. destruct (event_payload (event k)) as [g|d] eqn:Ep.
  - exists g. rewrite Ep. auto.
  - rewrite Htk, Hrev, Hk, orb_true_r. exists (history k). auto.
Qed.
End Estimates.

#[export] Instance sample_layout : MemLayout :=
  {| size_of_ExecutionGraph := 400; size_of_ExecutionGraphDelta := 600;
     size_of_ExecutionGraphEvent := 700; size_of_ExecutionNodeSpec := 500;
     size_of_ExecutionEdge := 56; size_of_ExecutionNodeResult := 600;
     size_of_DeliveryBranchTerminal := 128 |}.

Definition history_sample (k : N) : ExecutionGraph := {| eg_id := "g"; eg_revision := k;
  eg_objective := "objective"; eg_service_class := Interactive; eg_parent_execution := None;
  eg_lineage := None; eg_continuation_binding := None; eg_nodes := [sample_node "a"];
  eg_edges := []; eg_node_statuses := {["a"%string := Planned]}; eg_node_results := ∅;
  eg_recovery_cursor := ExecutionRecoveryCursor_default; eg_delivery_envelope := None;
  eg_terminal_presentation := None |}.

Lemma checkpoint_every_64_witness :
  exists k, (10 <= k < 10 + 64)%N /\
    exists g, event_payload (maybe_checkpoint (history_sample k)
                (EvCommandApplied "pause" None (delta_between (history_sample k) (history_sample (k + 1)))))
              = inl g /\
      (g = history_sample k \/
       event_payload (EvCommandApplied "pause" None
                        (delta_between (history_sample k) (history_sample (k + 1)))) = inl g).
Proof.
  apply (checkpoint_every_64 history_sample
           (fun k => EvCommandApplied "pause" None
                       (delta_between (history_sample k) (history_sample (k + 1)))) 10).
  - intros k. reflexivity.
  - intros k. reflexivity.
Defined.
