(* ===== verification/Ports.v ===== *)
(** * Event-store contracts

    [runtime/src/recovery/event_store/ports.rs] (scopes, errors, event and
    transaction types), [domain.rs] (backend-independent validation and request
    hashing) and [projection/activity.rs] ([RuntimeActivityBinding]).

    [serde_json] and [sha2] are not part of the repository: [Json] is the
    interface of [serde_json::Value] and of the derived (de)serializers that the
    code uses, [Digest] the byte serialization and the hash. *)

From stdpp Require Import pretty.
From S2P Require Import Prelude Facts Contract Validation Delta.

Inductive RuntimeEventScope :=
| ScExecutionGraph | ScExecutionNode | ScExecutionLive | ScProgram | ScGoal | ScMission
| ScSession | ScSessionInput | ScSessionCommand | ScTeam | ScAgent | ScAgentDefinition
| ScApproval | ScEvolution | ScKnowledge | ScRelation | ScSteward | ScTask | ScWorker
| ScSchedule | ScManagedAgent | ScSkill | ScTool | ScRecovery | ScCrossPlane.

#[export] Instance RuntimeEventScope_eq_dec : EqDecision RuntimeEventScope.
Proof. solve_decision. Defined.

(** [RuntimeEventScope::as_str] *)
Definition scope_as_str (s : RuntimeEventScope) : string :=
  match s with
  | ScExecutionGraph => "execution_graph"
  | ScExecutionNode => "execution_node"
  | ScExecutionLive => "execution_live"
  | ScProgram => "program"
  | ScGoal => "goal"
  | ScMission => "mission"
  | ScSession => "session"
  | ScSessionInput => "session_input"
  | ScSessionCommand => "session_command"
  | ScTeam => "team"
  | ScAgent => "agent"
  | ScAgentDefinition => "agent_definition"
  | ScApproval => "approval"
  | ScEvolution => "evolution"
  | ScKnowledge => "knowledge"
  | ScRelation => "relation"
  | ScSteward => "steward"
  | ScTask => "task"
  | ScWorker => "worker"
  | ScSchedule => "schedule"
  | ScManagedAgent => "managed_agent"
  | ScSkill => "skill"
  | ScTool => "tool"
  | ScRecovery => "recovery"
  | ScCrossPlane => "cross_plane"
  end.

(** Errors; the payloads of third-party error values are their messages. *)
Inductive RuntimeEventStoreError :=
| UnknownScope (scope : string)
| Corrupt (reason : string)
| TransactionConflict (transaction_id : string)
| StoreStaleRevision (stream_id : string) (expected actual : N)
| InvalidTransaction (reason : string)
| DecisionLeaseAlreadyConsumed (lease_id : string)
| StoreSerialization (message : string)
| StoreIo (message : string)
| StoreStorage (message : string).

#[export] Instance RuntimeEventStoreError_eq_dec : EqDecision RuntimeEventStoreError.
Proof. solve_decision. Defined.

(** The [Display] text of a store error. *)
Definition store_error_to_string (e : RuntimeEventStoreError) : string :=
  match e with
  | UnknownScope s => "runtime event scope `" +:+ s +:+ "` is unknown or requires migration"
  | Corrupt reason => "runtime event store is corrupt: " +:+ reason
  | TransactionConflict id =>
      "runtime event transaction `" +:+ id +:+ "` conflicts with its committed hash"
  | StoreStaleRevision id expected actual =>
      "runtime stream `" +:+ id +:+ "` revision mismatch: expected " +:+ pretty expected
      +:+ ", actual " +:+ pretty actual
  | InvalidTransaction reason => "invalid runtime event transaction: " +:+ reason
  | DecisionLeaseAlreadyConsumed id => "decision lease `" +:+ id +:+ "` has already been consumed"
  | StoreSerialization m => "runtime event serialization failure: " +:+ m
  | StoreIo m => "runtime event store I/O failure: " +:+ m
  | StoreStorage m => "runtime event store storage failure: " +:+ m
  end.

Abbreviation StoreResult := (Result RuntimeEventStoreError).

(** [RuntimeEventScope::parse] *)
Definition scope_parse (value : string) : StoreResult RuntimeEventScope :=
  if String.eqb value "execution_graph" then Ok ScExecutionGraph
  else if String.eqb value "execution_node" then Ok ScExecutionNode
  else if String.eqb value "execution_live" then Ok ScExecutionLive
  else if String.eqb value "program" then Ok ScProgram
  else if String.eqb value "goal" then Ok ScGoal
  else if String.eqb value "mission" then Ok ScMission
  else if String.eqb value "session" then Ok ScSession
  else if String.eqb value "session_input" then Ok ScSessionInput
  else if String.eqb value "session_command" then Ok ScSessionCommand
  else if String.eqb value "team" then Ok ScTeam
  else if String.eqb value "agent" then Ok ScAgent
  else if String.eqb value "agent_definition" then Ok ScAgentDefinition
  else if String.eqb value "approval" then Ok ScApproval
  else if String.eqb value "evolution" then Ok ScEvolution
  else if String.eqb value "knowledge" then Ok ScKnowledge
  else if String.eqb value "relation" then Ok ScRelation
  else if String.eqb value "steward" then Ok ScSteward
  else if String.eqb value "task" then Ok ScTask
  else if String.eqb value "worker" then Ok ScWorker
  else if String.eqb value "schedule" then Ok ScSchedule
  else if String.eqb value "managed_agent" then Ok ScManagedAgent
  else if String.eqb value "skill" then Ok ScSkill
  else if String.eqb value "tool" then Ok ScTool
  else if String.eqb value "recovery" then Ok ScRecovery
  else if String.eqb value "cross_plane" then Ok ScCrossPlane
  else Err (UnknownScope value).

(** ** Activity bindings *)

Record RuntimeActivityBinding := {
  rab_root_execution_id : string;
  rab_session_id : string;
  rab_turn_id : string;
  rab_root_task_id : string;
  rab_task_id : string;
  rab_activity_id : string;
  rab_node_id : option string;
  rab_parent_activity_id : option string;
  rab_initiator_activity_id : option string;
  rab_team_run_id : option string;
  rab_agent_instance_id : option string;
  rab_agent_run_id : option string;
  rab_skill_id : option string;
  rab_skill_revision : option string;
  rab_skill_activation_id : option string;
  rab_tool_contract_id : option string;
  rab_tool_call_id : option string;
  rab_approval_id : option string;
  rab_parallel_group_id : option string;
  rab_revision : N;
  rab_fence : N;
  rab_generation : N
}.

#[export] Instance RuntimeActivityBinding_eq_dec : EqDecision RuntimeActivityBinding.
Proof. solve_decision. Defined.

(** [RuntimeActivityBinding::validate] *)
Definition activity_binding_validate (b : RuntimeActivityBinding) : Result string unit :=
  _ ← guard_err (trim_is_empty (rab_root_execution_id b))
        "root_execution_id must not be empty"%string;
  _ ← guard_err (trim_is_empty (rab_activity_id b)) "activity_id must not be empty"%string;
  _ ← guard_err (trim_is_empty (rab_session_id b)) "session_id must not be empty"%string;
  _ ← guard_err (trim_is_empty (rab_turn_id b)) "turn_id must not be empty"%string;
  _ ← guard_err (trim_is_empty (rab_root_task_id b)) "root_task_id must not be empty"%string;
  _ ← guard_err (trim_is_empty (rab_task_id b)) "task_id must not be empty"%string;
  _ ← guard_err (rab_revision b =? 0)%N "revision must be positive"%string;
  _ ← guard_err (rab_fence b =? 0)%N "fence must be positive"%string;
  guard_err (rab_generation b =? 0)%N "generation must be positive"%string.

(** ** JSON values *)

Class Json (Value : Type) := {
  (** [Value::get(key)] and [Value::as_str] *)
  value_get : Value -> string -> option Value;
  value_as_str : Value -> option string;
  (** [as_object_mut()?.insert(key, value)] *)
  value_insert : Value -> string -> Value -> option Value;
  (** [json!({...})] and the scalars it is given *)
  value_object : list (string * Value) -> Value;
  value_string : string -> Value;
  value_u64 : N -> Value;
  status_to_value : ExecutionNodeStatus -> Value;
  result_to_value : option ExecutionNodeResult -> Value;
  (** [to_value], [from_value] *)
  binding_to_value : RuntimeActivityBinding -> Value;
  binding_from_value : Value -> option RuntimeActivityBinding;
  event_to_value : ExecutionGraphEvent -> Value;
  event_from_value : Value -> option ExecutionGraphEvent;
  graph_from_value : Value -> option ExecutionGraph
}.

(** The documented behaviour relied on: a serialized graph event is a JSON
    object; inserting a member keeps the value an object, makes that member
    readable and leaves the others; the derived deserializers invert the
    serializers and ignore an unknown member; a serialized delta event has no
    [graph] member. *)
Definition activity_binding_key : string := "_runtime_activity_binding".

Class JsonLaws (Value : Type) `{Json Value} := {
  event_value_insert : forall e v, exists w,
    value_insert (event_to_value e) activity_binding_key v = Some w;
  object_value_insert : forall fields v, exists w,
    value_insert (value_object fields) activity_binding_key v = Some w;
  value_get_insert : forall o k v o', value_insert o k v = Some o' -> value_get o' k = Some v;
  event_roundtrip : forall e v w,
    value_insert (event_to_value e) activity_binding_key v = Some w ->
    event_from_value w = Some e;
  delta_event_no_graph : forall e d v w,
    event_payload e = inr d ->
    value_insert (event_to_value e) activity_binding_key v = Some w ->
    value_get w "graph" = None;
  binding_roundtrip : forall b, binding_from_value (binding_to_value b) = Some b
}.

(** ** Events and transactions *)

Record RuntimeEventRef := { ref_kind : string; ref_id : string }.

#[export] Instance RuntimeEventRef_eq_dec : EqDecision RuntimeEventRef.
Proof. solve_decision. Defined.

Section Events.
Context {Value : Type}.

Record DurableRuntimeEvent := {
  ev_event_id : string;
  ev_stream_id : string;
  ev_sequence : N;
  ev_scope : RuntimeEventScope;
  ev_kind : string;
  ev_status : option string;
  ev_actor : option string;
  ev_refs : list RuntimeEventRef;
  ev_payload : Value;
  ev_created_at_ms : N;
  ev_commit_cursor : N;
  ev_transaction_id : string;
  ev_transaction_index : N;
  ev_schema_version : N;
  ev_idempotency_key : option string
}.

Record RuntimeEventInput := {
  in_stream_id : string;
  in_scope : RuntimeEventScope;
  in_kind : string;
  in_status : option string;
  in_actor : option string;
  in_refs : list RuntimeEventRef;
  in_payload : Value
}.

Record RuntimeTransactionEventInput := {
  te_event : RuntimeEventInput;
  te_idempotency_key : option string;
  te_schema_version : N
}.

Definition EVENT_SCHEMA_VERSION : N := 1.

(** [From<RuntimeEventInput> for RuntimeTransactionEventInput] *)
Definition transaction_event_from (e : RuntimeEventInput) : RuntimeTransactionEventInput :=
  {| te_event := e; te_idempotency_key := None; te_schema_version := EVENT_SCHEMA_VERSION |}.

Record ExpectedStreamRevision := {
  es_stream_id : string;
  es_expected_revision : N
}.

Record AppendTransactionRequest := {
  rq_transaction_id : string;
  rq_expected_streams : list ExpectedStreamRevision;
  rq_events : list RuntimeTransactionEventInput
}.

Record SessionTerminalInput := {
  st_terminal_id : string;
  st_message_id : string;
  st_session_id : string;
  st_execution_id : option string;
  st_turn_id : option string;
  st_request_id : option string;
  st_session_generation : option N;
  st_input_sequence : option N;
  st_input_claim_owner : option string;
  st_input_claim_token : option string;
  st_input_claim_revision : option N;
  st_controlled_recovery_claim_fingerprints : list string;
  st_payload_ref : string
}.

Record CommittedStreamRevision := {
  cs_stream_id : string;
  cs_expected_revision : N;
  cs_committed_revision : N
}.

Record AppendTransactionReceipt := {
  rcp_commit_cursor : N;
  rcp_transaction_id : string;
  rcp_request_hash : string;
  rcp_stream_revisions : list CommittedStreamRevision;
  rcp_event_ids : list string;
  rcp_duplicate : bool
}.

Record CommittedEventBatch := {
  cb_commit_cursor : N;
  cb_transaction_id : string;
  cb_events : list DurableRuntimeEvent
}.

Record RuntimeSessionTerminalFenceAdoption := {
  fa_terminal_id : string;
  fa_expected_terminal_revision : N;
  fa_request_id : string;
  fa_session_id : string;
  fa_turn_id : string;
  fa_session_generation : N;
  fa_input_sequence : N;
  fa_claim_owner : string;
  fa_claim_token : string;
  fa_claim_revision : N;
  fa_claim_expires_at_ms : N;
  fa_adopted_at_ms : N
}.

Inductive RuntimeSessionOutboxFailureClass :=
| Retryable | Permanent | AuthorizationBlocked | CorruptPayload.

(** [RuntimeSessionOutboxFailureClass::as_str] *)
Definition failure_class_as_str (c : RuntimeSessionOutboxFailureClass) : string :=
  match c with
  | Retryable => "retryable"
  | Permanent => "permanent"
  | AuthorizationBlocked => "authorization_blocked"
  | CorruptPayload => "corrupt_payload"
  end.

Record RuntimeSessionOutboxRecord := {
  ob_terminal_id : string;
  ob_message_id : string;
  ob_session_id : string;
  ob_commit_cursor : N;
  ob_payload_ref : string;
  ob_execution_id : option string;
  ob_turn_id : option string;
  ob_request_id : option string;
  ob_session_generation : option N;
  ob_input_sequence : option N;
  ob_input_claim_owner : option string;
  ob_input_claim_token : option string;
  ob_input_claim_revision : option N;
  ob_status : string;
  ob_attempts : N;
  ob_next_attempt_at_ms : option N;
  ob_claim_owner : option string;
  ob_claim_expires_at_ms : option N;
  ob_failure_class : option string;
  ob_last_error : option string;
  ob_materialized_at_ms : option N;
  ob_revision : N
}.

Record RuntimeProjectionCheckpoint := {
  pc_projection_id : string;
  pc_source_cursor : N;
  pc_revision : N;
  pc_payload : Value;
  pc_updated_at_ms : N
}.
End Events.
Arguments DurableRuntimeEvent : clear implicits.
Arguments RuntimeEventInput : clear implicits.
Arguments RuntimeTransactionEventInput : clear implicits.
Arguments AppendTransactionRequest : clear implicits.
Arguments CommittedEventBatch : clear implicits.
Arguments RuntimeProjectionCheckpoint : clear implicits.

(** Byte serialization and hashing of a transaction ([serde_json::to_vec],
    [Sha256::digest] in hexadecimal); serialization may fail with a message. *)
Class Digest (Value : Type) := {
  to_vec_request : AppendTransactionRequest Value -> Result string string;
  to_vec_terminal : AppendTransactionRequest Value -> SessionTerminalInput -> Result string string;
  sha256_hex : string -> string
}.

Definition MAX_TRANSACTION_EVENTS : nat := N.to_nat 10000.
Definition MAX_TRANSACTION_BYTES : N := 33554432.

(** [decision_lease_claims], [validate_decision_lease_claims] *)
Definition validate_decision_lease_claims
    (lease_id principal_id review_id action scope evidence_digest : string) : StoreResult unit :=
  guard_err (trim_is_empty lease_id || trim_is_empty principal_id || trim_is_empty review_id
             || trim_is_empty action || trim_is_empty scope || trim_is_empty evidence_digest)
    (InvalidTransaction "decision lease consumption requires non-empty bound claims").

(** [Option<u64>::is_none_or(|v| v == 0)] *)
Definition none_or_zero (o : option N) : bool :=
  match o with Some n => (n =? 0)%N | None => true end.

(** [validate_fenced_terminal] *)
Definition validate_fenced_terminal (t : SessionTerminalInput) : StoreResult unit :=
  guard_err
    (existsb trim_is_empty
       [st_terminal_id t; st_message_id t; st_session_id t; st_payload_ref t;
        default EmptyString (st_execution_id t); default EmptyString (st_turn_id t);
        default EmptyString (st_request_id t); default EmptyString (st_input_claim_owner t);
        default EmptyString (st_input_claim_token t)]
     || none_or_zero (st_session_generation t)
     || bool_decide (st_input_sequence t = None)
     || none_or_zero (st_input_claim_revision t))
    (InvalidTransaction
       "terminal transaction requires complete execution, turn and Session claim fences").

(** [is_agent_activity_event] *)
Definition is_agent_activity_event (kind : string) : bool :=
  memb ["agent.prepared"; "agent.running"; "agent.terminal"; "agent.cancelled";
        "agent.blocked"; "agent.blocked_recovery"; "agent.command"; "agent.command_rejected";
        "agent.recovered"; "agent.execution.started"; "agent.provider.first_output";
        "agent.acceptance.evaluated"]%string kind.

(** [", "]-joined names. *)
Fixpoint join_comma (l : list string) : string :=
  match l with
  | [] => EmptyString
  | [x] => x
  | x :: l' => (x +:+ ", " +:+ join_comma l')%string
  end.

(** [validate_required_activity_identity] *)
Definition missing_identity (scope : RuntimeEventScope) (b : RuntimeActivityBinding) :
  list string :=
  omap (fun nv : string * option string =>
          if match nv.2 with Some s => String.eqb s EmptyString | None => true end
          then Some nv.1 else None)
    match scope with
    | ScTeam => [("node_id", rab_node_id b); ("parent_activity_id", rab_parent_activity_id b);
                 ("team_run_id", rab_team_run_id b)]
    | ScAgent => [("node_id", rab_node_id b); ("parent_activity_id", rab_parent_activity_id b);
                  ("agent_instance_id", rab_agent_instance_id b);
                  ("agent_run_id", rab_agent_run_id b)]
    | ScSkill => [("parent_activity_id", rab_parent_activity_id b); ("skill_id", rab_skill_id b);
                  ("skill_activation_id", rab_skill_activation_id b)]
    | ScTool => [("parent_activity_id", rab_parent_activity_id b);
                 ("tool_contract_id", rab_tool_contract_id b);
                 ("tool_call_id", rab_tool_call_id b)]
    | _ => []
    end%string.

Definition validate_required_activity_identity (scope : RuntimeEventScope) (kind : string)
    (b : RuntimeActivityBinding) : StoreResult unit :=
  let missing := missing_identity scope b in
  guard_err (negb (bool_decide (missing = [])))
    (InvalidTransaction
       ("business lifecycle event `" +:+ kind
        +:+ "` has incomplete RuntimeActivityBinding; missing " +:+ join_comma missing)).

Section Validation.
Context {Value : Type} `{Json Value} `{Digest Value}.

(** [activity_binding_from_payload] *)
Definition activity_binding (payload : Value) : option RuntimeActivityBinding :=
  v ← value_get payload activity_binding_key;
  b ← binding_from_value v;
  if is_ok (activity_binding_validate b) then Some b else None.

(** [RuntimeEventInput::with_activity_binding] *)
Definition with_activity_binding (e : RuntimeEventInput Value) (b : RuntimeActivityBinding) :
  StoreResult (RuntimeEventInput Value) :=
  _ ← map_err InvalidTransaction (activity_binding_validate b);
  payload ← ok_or (InvalidTransaction
                     "activity-bound Runtime event payload must be an object")
              (value_insert (in_payload e) activity_binding_key (binding_to_value b));
  Ok {| in_stream_id := in_stream_id e; in_scope := in_scope e; in_kind := in_kind e;
        in_status := in_status e; in_actor := in_actor e; in_refs := in_refs e;
        in_payload := payload |}.

(** [requires_activity_binding] *)
Definition requires_activity_binding (e : RuntimeEventInput Value) : bool :=
  match in_scope e with
  | ScTool => starts_with (in_kind e) "tool.invocation."
  | ScSkill => String.eqb (in_kind e) "skill.activation.selected"
  | ScAgent => is_agent_activity_event (in_kind e)
  | ScTeam => starts_with (in_kind e) "team.lifecycle."
              || starts_with (in_kind e) "team.execution."
  | ScSession =>
      String.eqb (in_kind e) "model.item_completed"
      && bool_decide ((value_get (in_payload e) "kind" ≫= value_as_str)
                      = Some "public_reasoning"%string)
  | _ => false
  end.

(** [validate_event] *)
Definition validate_event (e : RuntimeEventInput Value) : StoreResult unit :=
  _ ← guard_err (trim_is_empty (in_stream_id e))
        (InvalidTransaction "event stream_id must not be empty");
  _ ← guard_err (trim_is_empty (in_kind e))
        (InvalidTransaction "event kind must not be empty");
  if requires_activity_binding e then
    binding ← ok_or (InvalidTransaction ("business lifecycle event `" +:+ in_kind e
                       +:+ "` requires RuntimeActivityBinding"))
                (activity_binding (in_payload e));
    validate_required_activity_identity (in_scope e) (in_kind e) binding
  else Ok tt.

Definition validate_expected_stream (seen : list string) (s : ExpectedStreamRevision) :
  StoreResult (list string) :=
  _ ← guard_err (trim_is_empty (es_stream_id s) || memb seen (es_stream_id s))
        (InvalidTransaction "expected streams must be non-empty and unique");
  Ok (es_stream_id s :: seen).

Definition validate_transaction_event (expected : list string) (_ : unit)
    (e : RuntimeTransactionEventInput Value) : StoreResult unit :=
  _ ← validate_event (te_event e);
  _ ← guard_err (te_schema_version e =? 0)%N
        (InvalidTransaction "event schema_version must be positive");
  guard_err (negb (memb expected (in_stream_id (te_event e))))
    (InvalidTransaction ("event stream `" +:+ in_stream_id (te_event e)
                         +:+ "` has no expected revision")).

(** [validate_transaction] *)
Definition validate_transaction (r : AppendTransactionRequest Value) : StoreResult unit :=
  _ ← guard_err (trim_is_empty (rq_transaction_id r))
        (InvalidTransaction "transaction_id must not be empty");
  _ ← guard_err (length (rq_events r) =? 0)
        (InvalidTransaction "events must not be empty");
  _ ← guard_err (MAX_TRANSACTION_EVENTS <? length (rq_events r))
        (InvalidTransaction "event count exceeds hard limit 10000");
  bytes ← map_err StoreSerialization (to_vec_request r);
  _ ← guard_err (MAX_TRANSACTION_BYTES <? str_len bytes)%N
        (InvalidTransaction "serialized transaction exceeds hard limit 33554432 bytes");
  expected ← try_fold validate_expected_stream [] (rq_expected_streams r);
  try_fold (validate_transaction_event expected) tt (rq_events r).

(** [request_hash], [request_hash_with_terminal] *)
Definition request_hash_with_terminal (r : AppendTransactionRequest Value)
    (terminal : option SessionTerminalInput) : StoreResult string :=
  bytes ← map_err StoreSerialization
            match terminal with
            | None => to_vec_request r
            | Some t => to_vec_terminal r t
            end;
  Ok (sha256_hex bytes).

(** ** Facts about validated transactions *)

Lemma validate_expected_streams_Ok l : forall seen out,
  try_fold validate_expected_stream seen l = Ok out ->
  out = rev (es_stream_id <$> l) ++ seen /\
  NoDup (es_stream_id <$> l) /\ (forall s, s ∈ es_stream_id <$> l -> s ∉ seen).
Proof.
  induction l as [|x l IH]; intros seen out Hf; cbn in Hf.
  - injection Hf as <-. split_and!; [done | constructor | by intros s ?%not_elem_of_nil].
  - apply bind_Ok_inv in Hf as (s1 & Hx & Hl). unfold validate_expected_stream in Hx. ok_inv.
    apply orb_false_iff in Ha as [_ Hfr%memb_false]. subst s1.
    apply IH in Hl as (-> & Hnd & Hd). cbn. split_and!.
    + by rewrite <- app_assoc.
    + constructor; [|done]. intros Hin. apply (Hd _ Hin). left.
    + intros s [->|Hs]%elem_of_cons; [done|]. intros Hseen. apply (Hd s Hs). by right.
Qed.

Lemma validate_transaction_Ok r :
  validate_transaction r = Ok tt ->
  rq_events r <> [] /\ length (rq_events r) <= MAX_TRANSACTION_EVENTS /\
  NoDup (es_stream_id <$> rq_expected_streams r) /\
  forall e, e ∈ rq_events r ->
    in_stream_id (te_event e) ∈ es_stream_id <$> rq_expected_streams r.
Proof.
  unfold validate_transaction. intros Hv. ok_inv. apply Nat.eqb_neq in Ha0.
  apply Nat.ltb_ge in Ha1.
  apply validate_expected_streams_Ok in Ha4 as (-> & Hnd & _). rewrite app_nil_r in Hv.
  split_and!; [by intros Hnil; rewrite Hnil in Ha0 | done | done |].
  intros e He. clear -Hv He. revert He Hv. generalize tt at 1.
  induction (rq_events r) as [|x l IH]; intros u He; cbn; [by apply not_elem_of_nil in He|].
  intros (u' & Hx & Hl)%bind_Ok_inv. apply elem_of_cons in He as [->|He]; [|by apply (IH u')].
  unfold validate_transaction_event in Hx. ok_inv.
  apply negb_false_iff, memb_true in Hx. rewrite list_elem_of_In, <- in_rev, <- list_elem_of_In in Hx.
  done.
Qed.
End Validation.

(** The wire name of an event scope determines it: parsing the printed
    name gives the scope back, and every other string is rejected. *)
Theorem scope_roundtrip s value :
  scope_parse (scope_as_str s) = Ok s /\
  (scope_parse value = Ok s <-> value = scope_as_str s) /\
  ((forall s', value <> scope_as_str s') -> scope_parse value = Err (UnknownScope value)).
Proof.
  assert (Hrt : forall s, scope_parse (scope_as_str s) = Ok s) by (by intros []).
  assert (Hdec : scope_parse value = Err (UnknownScope value) \/
                 exists s', value = scope_as_str s').
  { unfold scope_parse.
    repeat match goal with
    | |- context [if String.eqb value ?k then Ok ?s' else _] =>
        destruct (String.eqb_spec value k) as [->|]; [right; by exists s'|]
    end. by left. }
  split_and!.
  - apply Hrt.
  - split; [|intros ->; apply Hrt]. intros Hp. destruct Hdec as [He|[s' ->]]; [congruence|].
    rewrite Hrt in Hp. congruence.
  - intros Hno. destruct Hdec as [He|[s' ->]]; [done|]. by destruct (Hno s').
Qed.
