(* ===== verification/EventStore.v ===== *)
(** * The runtime event store

    The in-process backend ([recovery/event_store/ephemeral.rs]) with every
    operation that changes its state, and the facade loops that run on top of a
    backend ([recovery/event_store/mod.rs]: [replay_scope],
    [put_projection_checkpoint_retrying]).

    Each operation takes the lock once and is one step on [EphemeralState]; it
    returns its result and the new state.  Fresh event ids and clock readings
    ([uuid], [now]) are arguments, indexed by the event's position in the
    transaction. *)

From S2P Require Import Prelude Facts Contract Validation Delta Ports.

Section EphemeralStore.
Context {Value : Type} `{EqDecision Value} `{Json Value} `{Digest Value}.

Record EphemeralState := {
  ep_events : list (DurableRuntimeEvent Value);
  ep_transactions : gmap string AppendTransactionReceipt;
  ep_transaction_hashes : gmap string string;
  ep_checkpoints : gmap string (RuntimeProjectionCheckpoint Value);
  ep_consumed_leases : gset string;
  ep_terminals : gmap string RuntimeSessionOutboxRecord;
  ep_next_cursor : N
}.

(** [EphemeralState::default] *)
Definition ephemeral_default : EphemeralState :=
  {| ep_events := []; ep_transactions := ∅; ep_transaction_hashes := ∅;
     ep_checkpoints := ∅; ep_consumed_leases := ∅; ep_terminals := ∅; ep_next_cursor := 0 |}.

(** [matching], [list_stream], [stream_revision], [event_by_idempotency_key] *)
Definition matching (st : EphemeralState) (p : DurableRuntimeEvent Value -> bool) :
  list (DurableRuntimeEvent Value) := List.filter p (ep_events st).

Definition list_stream (st : EphemeralState) (stream : string) :
  list (DurableRuntimeEvent Value) :=
  matching st (fun e => String.eqb (ev_stream_id e) stream).

Definition max_sequence (l : list (DurableRuntimeEvent Value)) : N :=
  foldr (fun e m => N.max (ev_sequence e) m) 0%N l.

Definition stream_revision (st : EphemeralState) (stream : string) : N :=
  max_sequence (list_stream st stream).

Definition event_by_idempotency_key (st : EphemeralState) (stream key : string) :
  option (DurableRuntimeEvent Value) :=
  head (matching st (fun e => String.eqb (ev_stream_id e) stream
                              && bool_decide (ev_idempotency_key e = Some key))).

Definition check_expected (st : EphemeralState) (_ : unit) (s : ExpectedStreamRevision) :
  StoreResult unit :=
  let actual := stream_revision st (es_stream_id s) in
  guard_err (negb (actual =? es_expected_revision s)%N)
    (StoreStaleRevision (es_stream_id s) (es_expected_revision s) actual).

(** The event loop of [append_inner]: sequence numbers continue the expected
    revision of each stream, [transaction_index] is the position. *)
Definition stamp_event (tx : string) (cursor : N) (uuid : nat -> string) (now : nat -> N)
    (index : nat) (sequence : N) (input : RuntimeTransactionEventInput Value) :
  DurableRuntimeEvent Value :=
  {| ev_event_id := ("runtime-event-" +:+ uuid index)%string;
     ev_stream_id := in_stream_id (te_event input);
     ev_sequence := sequence;
     ev_scope := in_scope (te_event input);
     ev_kind := in_kind (te_event input);
     ev_status := in_status (te_event input);
     ev_actor := in_actor (te_event input);
     ev_refs := in_refs (te_event input);
     ev_payload := in_payload (te_event input);
     ev_created_at_ms := now index;
     ev_commit_cursor := cursor;
     ev_transaction_id := tx;
     ev_transaction_index := N.of_nat index mod 4294967296;
     ev_schema_version := te_schema_version input;
     ev_idempotency_key := te_idempotency_key input |}.

Fixpoint stamp_events (tx : string) (cursor : N) (uuid : nat -> string) (now : nat -> N)
    (index : nat) (revisions : gmap string N)
    (inputs : list (RuntimeTransactionEventInput Value)) :
  list (DurableRuntimeEvent Value) * gmap string N :=
  match inputs with
  | [] => ([], revisions)
  | input :: rest =>
      let stream := in_stream_id (te_event input) in
      let sequence := (default 0 (revisions !! stream) + 1)%N in
      let '(events, revisions') :=
        stamp_events tx cursor uuid now (S index) (<[stream := sequence]> revisions) rest in
      (stamp_event tx cursor uuid now index sequence input :: events, revisions')
  end.

(** [terminal_record] *)
Definition terminal_record (t : SessionTerminalInput) (cursor : N) :
  RuntimeSessionOutboxRecord :=
  {| ob_terminal_id := st_terminal_id t; ob_message_id := st_message_id t;
     ob_session_id := st_session_id t; ob_commit_cursor := cursor;
     ob_payload_ref := st_payload_ref t; ob_execution_id := st_execution_id t;
     ob_turn_id := st_turn_id t; ob_request_id := st_request_id t;
     ob_session_generation := st_session_generation t;
     ob_input_sequence := st_input_sequence t;
     ob_input_claim_owner := st_input_claim_owner t;
     ob_input_claim_token := st_input_claim_token t;
     ob_input_claim_revision := st_input_claim_revision t;
     ob_status := "pending"; ob_attempts := 0; ob_next_attempt_at_ms := None;
     ob_claim_owner := None; ob_claim_expires_at_ms := None; ob_failure_class := None;
     ob_last_error := None; ob_materialized_at_ms := None; ob_revision := 1 |}.

Definition as_duplicate (r : AppendTransactionReceipt) : AppendTransactionReceipt :=
  {| rcp_commit_cursor := rcp_commit_cursor r; rcp_transaction_id := rcp_transaction_id r;
     rcp_request_hash := rcp_request_hash r; rcp_stream_revisions := rcp_stream_revisions r;
     rcp_event_ids := rcp_event_ids r; rcp_duplicate := true |}.

Definition expected_revisions (l : list ExpectedStreamRevision) : gmap string N :=
  foldl (fun m s => <[es_stream_id s := es_expected_revision s]> m) ∅ l.

Definition committed_revision (revisions : gmap string N) (s : ExpectedStreamRevision) :
  CommittedStreamRevision :=
  {| cs_stream_id := es_stream_id s; cs_expected_revision := es_expected_revision s;
     cs_committed_revision := default (es_expected_revision s) (revisions !! es_stream_id s) |}.

(** The writes of a fresh transaction. *)
Definition commit_fresh (uuid : nat -> string) (now : nat -> N)
    (request : AppendTransactionRequest Value) (terminal : option SessionTerminalInput)
    (hash : string) (st : EphemeralState) : AppendTransactionReceipt * EphemeralState :=
  let cursor := (ep_next_cursor st + 1)%N in
  let '(events, revisions) :=
    stamp_events (rq_transaction_id request) cursor uuid now 0
      (expected_revisions (rq_expected_streams request)) (rq_events request) in
  let receipt :=
    {| rcp_commit_cursor := cursor; rcp_transaction_id := rq_transaction_id request;
       rcp_request_hash := hash;
       rcp_stream_revisions := committed_revision revisions <$> rq_expected_streams request;
       rcp_event_ids := ev_event_id <$> events; rcp_duplicate := false |} in
  (receipt,
   {| ep_events := ep_events st ++ events;
      ep_transactions := <[rq_transaction_id request := receipt]> (ep_transactions st);
      ep_transaction_hashes :=
        <[rq_transaction_id request := hash]> (ep_transaction_hashes st);
      ep_checkpoints := ep_checkpoints st;
      ep_consumed_leases := ep_consumed_leases st;
      ep_terminals := match terminal with
                      | Some t => <[st_terminal_id t := terminal_record t cursor]>
                                    (ep_terminals st)
                      | None => ep_terminals st
                      end;
      ep_next_cursor := cursor |}).

(** The checks before the lock. *)
Definition append_checks (request : AppendTransactionRequest Value)
    (terminal : option SessionTerminalInput) : StoreResult string :=
  _ ← validate_transaction request;
  _ ← match terminal with Some t => validate_fenced_terminal t | None => Ok tt end;
  request_hash_with_terminal request terminal.

(** [append_inner] *)
Definition append_inner (uuid : nat -> string) (now : nat -> N)
    (request : AppendTransactionRequest Value) (terminal : option SessionTerminalInput)
    (st : EphemeralState) : StoreResult AppendTransactionReceipt * EphemeralState :=
  match append_checks request terminal with
  | Err e => (Err e, st)
  | Ok hash =>
      match ep_transactions st !! rq_transaction_id request with
      | Some receipt =>
          if bool_decide (ep_transaction_hashes st !! rq_transaction_id request = Some hash)
          then (Ok (as_duplicate receipt), st)
          else (Err (TransactionConflict (rq_transaction_id request)), st)
      | None =>
          match try_fold (check_expected st) tt (rq_expected_streams request) with
          | Err e => (Err e, st)
          | Ok _ =>
              let '(receipt, st') := commit_fresh uuid now request terminal hash st in
              (Ok receipt, st')
          end
      end
  end.

(** [append_transaction], [append_transaction_with_terminal],
    [append_batch_if_revision] *)
Definition append_transaction uuid now request st := append_inner uuid now request None st.

Definition append_transaction_with_terminal uuid now request terminal st :=
  append_inner uuid now request (Some terminal) st.

Definition append_batch_if_revision uuid now (stream_id : string) (expected_revision : N)
    (transaction_id : string) (events : list (RuntimeTransactionEventInput Value)) st :=
  append_inner uuid now
    {| rq_transaction_id := transaction_id;
       rq_expected_streams := [{| es_stream_id := stream_id;
                                  es_expected_revision := expected_revision |}];
       rq_events := events |} None st.

(** [append]: one event on its stream's current revision. *)
Definition append (tx_uuid : string) uuid now (input : RuntimeEventInput Value)
    (st : EphemeralState) : StoreResult (DurableRuntimeEvent Value) * EphemeralState :=
  let '(r, st') :=
    append_batch_if_revision uuid now (in_stream_id input)
      (stream_revision st (in_stream_id input)) ("runtime-tx-" +:+ tx_uuid)%string
      [transaction_event_from input] st in
  (receipt ← r;
   ok_or (Corrupt "committed event missing")
     (head (List.filter (fun e => memb (rcp_event_ids receipt) (ev_event_id e))
              (ep_events st'))),
   st').

(** *** Decision leases *)

Definition with_lease (lease_id : string) (st : EphemeralState) : EphemeralState :=
  {| ep_events := ep_events st; ep_transactions := ep_transactions st;
     ep_transaction_hashes := ep_transaction_hashes st; ep_checkpoints := ep_checkpoints st;
     ep_consumed_leases := {[lease_id]} ∪ ep_consumed_leases st;
     ep_terminals := ep_terminals st; ep_next_cursor := ep_next_cursor st |}.

(** [consume_verified_decision_lease] *)
Definition consume_verified_decision_lease
    (lease_id principal_id review_id action scope evidence_digest : string)
    (st : EphemeralState) : StoreResult unit * EphemeralState :=
  match validate_decision_lease_claims lease_id principal_id review_id action scope
          evidence_digest with
  | Err e => (Err e, st)
  | Ok _ =>
      if bool_decide (lease_id ∈ ep_consumed_leases st)
      then (Err (DecisionLeaseAlreadyConsumed lease_id), st)
      else (Ok tt, with_lease lease_id st)
  end.

(** [append_transaction_with_verified_decision_lease]: the transaction is
    appended first, the lease is consumed after. *)
Definition append_transaction_with_verified_decision_lease uuid now
    (request : AppendTransactionRequest Value) (lease_id : string) (st : EphemeralState) :
  StoreResult AppendTransactionReceipt * EphemeralState :=
  let '(r, st') := append_inner uuid now request None st in
  match r with
  | Err e => (Err e, st')
  | Ok receipt =>
      if bool_decide (lease_id ∈ ep_consumed_leases st') && negb (rcp_duplicate receipt)
      then (Err (DecisionLeaseAlreadyConsumed lease_id), st')
      else (Ok receipt, with_lease lease_id st')
  end.

(** *** Projection checkpoints *)

Definition with_checkpoint (id : string) (c : RuntimeProjectionCheckpoint Value)
    (st : EphemeralState) : EphemeralState :=
  {| ep_events := ep_events st; ep_transactions := ep_transactions st;
     ep_transaction_hashes := ep_transaction_hashes st;
     ep_checkpoints := <[id := c]> (ep_checkpoints st);
     ep_consumed_leases := ep_consumed_leases st; ep_terminals := ep_terminals st;
     ep_next_cursor := ep_next_cursor st |}.

Definition checkpoint_revision (st : EphemeralState) (id : string) : N :=
  from_option pc_revision 0%N (ep_checkpoints st !! id).

(** [compare_and_put_projection_checkpoint] *)
Definition compare_and_put_projection_checkpoint (id : string) (cursor expected : N)
    (payload : Value) (at_ms : N) (st : EphemeralState) :
  StoreResult (RuntimeProjectionCheckpoint Value) * EphemeralState :=
  let actual := checkpoint_revision st id in
  let value := {| pc_projection_id := id; pc_source_cursor := cursor;
                  pc_revision := (actual + 1)%N; pc_payload := payload;
                  pc_updated_at_ms := at_ms |} in
  if negb (actual =? expected)%N then (Err (StoreStaleRevision id expected actual), st)
  else match ep_checkpoints st !! id with
       | Some current =>
           if (cursor <? pc_source_cursor current)%N
           then (Err (StoreStaleRevision ("projection-source:" +:+ id) cursor
                        (pc_source_cursor current)), st)
           else if (cursor =? pc_source_cursor current)%N
                   && bool_decide (pc_payload current = payload)
           then (Ok current, st)
           else (Ok value, with_checkpoint id value st)
       | None => (Ok value, with_checkpoint id value st)
       end.

(** [put_projection_checkpoint] *)
Definition put_projection_checkpoint id cursor payload at_ms (st : EphemeralState) :=
  compare_and_put_projection_checkpoint id cursor (checkpoint_revision st id) payload at_ms st.

(** [compare_and_repair_projection_checkpoint] *)
Definition compare_and_repair_projection_checkpoint (id : string) (cursor expected : N)
    (payload : Value) (at_ms : N) (st : EphemeralState) :
  StoreResult (RuntimeProjectionCheckpoint Value) * EphemeralState :=
  let actual := checkpoint_revision st id in
  if (actual =? 0)%N || negb (actual =? expected)%N
  then (Err (StoreStaleRevision id expected actual), st)
  else let value := {| pc_projection_id := id; pc_source_cursor := cursor;
                       pc_revision := (actual + 1)%N; pc_payload := payload;
                       pc_updated_at_ms := at_ms |} in
       (Ok value, with_checkpoint id value st).

(** [delete_projection_checkpoint] *)
Definition delete_projection_checkpoint (id : string) (st : EphemeralState) :
  bool * EphemeralState :=
  (bool_decide (is_Some (ep_checkpoints st !! id)),
   {| ep_events := ep_events st; ep_transactions := ep_transactions st;
      ep_transaction_hashes := ep_transaction_hashes st;
      ep_checkpoints := delete id (ep_checkpoints st);
      ep_consumed_leases := ep_consumed_leases st; ep_terminals := ep_terminals st;
      ep_next_cursor := ep_next_cursor st |}).

(** *** The session-terminal outbox *)

Definition with_terminals (t : gmap string RuntimeSessionOutboxRecord) (st : EphemeralState) :
  EphemeralState :=
  {| ep_events := ep_events st; ep_transactions := ep_transactions st;
     ep_transaction_hashes := ep_transaction_hashes st; ep_checkpoints := ep_checkpoints st;
     ep_consumed_leases := ep_consumed_leases st; ep_terminals := t;
     ep_next_cursor := ep_next_cursor st |}.

(** The delivery fields of a record; the identity and fence fields stay. *)
Definition set_delivery (v : RuntimeSessionOutboxRecord) (status : string) (attempts : N)
    (next_attempt : option N) (claim_owner : option string) (claim_expires : option N)
    (failure_class last_error : option string) (materialized_at : option N) (revision : N) :
  RuntimeSessionOutboxRecord :=
  {| ob_terminal_id := ob_terminal_id v; ob_message_id := ob_message_id v;
     ob_session_id := ob_session_id v; ob_commit_cursor := ob_commit_cursor v;
     ob_payload_ref := ob_payload_ref v; ob_execution_id := ob_execution_id v;
     ob_turn_id := ob_turn_id v; ob_request_id := ob_request_id v;
     ob_session_generation := ob_session_generation v;
     ob_input_sequence := ob_input_sequence v; ob_input_claim_owner := ob_input_claim_owner v;
     ob_input_claim_token := ob_input_claim_token v;
     ob_input_claim_revision := ob_input_claim_revision v; ob_status := status;
     ob_attempts := attempts; ob_next_attempt_at_ms := next_attempt;
     ob_claim_owner := claim_owner; ob_claim_expires_at_ms := claim_expires;
     ob_failure_class := failure_class; ob_last_error := last_error;
     ob_materialized_at_ms := materialized_at; ob_revision := revision |}.

Definition bump_revision (v : RuntimeSessionOutboxRecord) : RuntimeSessionOutboxRecord :=
  set_delivery v (ob_status v) (ob_attempts v) (ob_next_attempt_at_ms v) (ob_claim_owner v)
    (ob_claim_expires_at_ms v) (ob_failure_class v) (ob_last_error v)
    (ob_materialized_at_ms v) (ob_revision v + 1).

(** [enqueue_session_terminal] *)
Definition enqueue_session_terminal (id message session : string) (cursor : N)
    (payload : string) (st : EphemeralState) :
  RuntimeSessionOutboxRecord * EphemeralState :=
  match ep_terminals st !! id with
  | Some v => (v, st)
  | None =>
      let v :=
        {| ob_terminal_id := id; ob_message_id := message; ob_session_id := session;
           ob_commit_cursor := cursor; ob_payload_ref := payload; ob_execution_id := None;
           ob_turn_id := None; ob_request_id := None; ob_session_generation := None;
           ob_input_sequence := None; ob_input_claim_owner := None;
           ob_input_claim_token := None; ob_input_claim_revision := None;
           ob_status := "pending"; ob_attempts := 0; ob_next_attempt_at_ms := None;
           ob_claim_owner := None; ob_claim_expires_at_ms := None; ob_failure_class := None;
           ob_last_error := None; ob_materialized_at_ms := None; ob_revision := 1 |} in
      (v, with_terminals (<[id := v]> (ep_terminals st)) st)
  end.

Definition claimable (v : RuntimeSessionOutboxRecord) : bool :=
  String.eqb (ob_status v) "pending" || String.eqb (ob_status v) "retry_scheduled".

Definition claim_record (worker : string) (expires : N) (v : RuntimeSessionOutboxRecord) :
  RuntimeSessionOutboxRecord :=
  set_delivery v "claimed" (ob_attempts v + 1) (ob_next_attempt_at_ms v) (Some worker)
    (Some expires) (ob_failure_class v) (ob_last_error v) (ob_materialized_at_ms v)
    (ob_revision v + 1).

(** [claim_session_terminals] *)
Definition claim_session_terminals (worker : string) (now lease : N) (limit : nat)
    (st : EphemeralState) : list RuntimeSessionOutboxRecord * EphemeralState :=
  let claimed :=
    (fun kv => (kv.1, claim_record worker (now + lease) kv.2)) <$>
      take limit (List.filter (fun kv => claimable kv.2) (btree_entries (ep_terminals st))) in
  (claimed.*2,
   with_terminals (foldl (fun m kv => <[kv.1 := kv.2]> m) (ep_terminals st) claimed) st).

(** [mutate_terminal] *)
Definition mutate_terminal (id : string) (worker : option string) (revision : option N)
    (change : RuntimeSessionOutboxRecord -> RuntimeSessionOutboxRecord)
    (st : EphemeralState) : StoreResult RuntimeSessionOutboxRecord * EphemeralState :=
  match ep_terminals st !! id with
  | None => (Err (Corrupt ("terminal `" +:+ id +:+ "` not found")), st)
  | Some v =>
      if match revision with Some r => negb (r =? ob_revision v)%N | None => false end
         || match worker with
            | Some w => negb (bool_decide (ob_claim_owner v = Some w))
            | None => false
            end
      then (Err (StoreStaleRevision id (default (ob_revision v) revision) (ob_revision v)), st)
      else let v' := bump_revision (change v) in
           (Ok v', with_terminals (<[id := v']> (ep_terminals st)) st)
  end.

(** [retry_session_terminal] *)
Definition retry_session_terminal (id reason : string) (now : N) :=
  mutate_terminal id None None (fun v =>
    set_delivery v "retry_scheduled" (ob_attempts v) (Some now) (ob_claim_owner v)
      (ob_claim_expires_at_ms v) (ob_failure_class v) (Some reason) (ob_materialized_at_ms v)
      (ob_revision v)).

(** [adopt_session_terminal_fence] *)
Definition adopt_session_terminal_fence (r : RuntimeSessionTerminalFenceAdoption) :=
  mutate_terminal (fa_terminal_id r) None (Some (fa_expected_terminal_revision r)) (fun v =>
    {| ob_terminal_id := ob_terminal_id v; ob_message_id := ob_message_id v;
       ob_session_id := ob_session_id v; ob_commit_cursor := ob_commit_cursor v;
       ob_payload_ref := ob_payload_ref v; ob_execution_id := ob_execution_id v;
       ob_turn_id := Some (fa_turn_id r); ob_request_id := Some (fa_request_id r);
       ob_session_generation := Some (fa_session_generation r);
       ob_input_sequence := Some (fa_input_sequence r);
       ob_input_claim_owner := Some (fa_claim_owner r);
       ob_input_claim_token := Some (fa_claim_token r);
       ob_input_claim_revision := Some (fa_claim_revision r); ob_status := ob_status v;
       ob_attempts := ob_attempts v; ob_next_attempt_at_ms := ob_next_attempt_at_ms v;
       ob_claim_owner := ob_claim_owner v; ob_claim_expires_at_ms := ob_claim_expires_at_ms v;
       ob_failure_class := ob_failure_class v; ob_last_error := ob_last_error v;
       ob_materialized_at_ms := ob_materialized_at_ms v; ob_revision := ob_revision v |}).

(** [ack_session_terminal] *)
Definition ack_session_terminal (id worker : string) (rev now : N) :=
  mutate_terminal id (Some worker) (Some rev) (fun v =>
    set_delivery v "materialized" (ob_attempts v) (ob_next_attempt_at_ms v) None None
      (ob_failure_class v) (ob_last_error v) (Some now) (ob_revision v)).

(** [suppress_session_terminal] *)
Definition suppress_session_terminal (id worker : string) (rev : N) (reason : string) :=
  mutate_terminal id (Some worker) (Some rev) (fun v =>
    set_delivery v "suppressed" (ob_attempts v) (ob_next_attempt_at_ms v) (ob_claim_owner v)
      (ob_claim_expires_at_ms v) (ob_failure_class v) (Some reason) (ob_materialized_at_ms v)
      (ob_revision v)).

(** [fail_session_terminal] *)
Definition fail_session_terminal (id worker : string) (rev : N)
    (class : RuntimeSessionOutboxFailureClass) (error : string) (retry max : N) :=
  mutate_terminal id (Some worker) (Some rev) (fun v =>
    let retryable := match class with Retryable => (ob_attempts v <? max)%N | _ => false end in
    set_delivery v (if retryable then "retry_scheduled" else "blocked") (ob_attempts v)
      (if retryable then Some retry else ob_next_attempt_at_ms v) (ob_claim_owner v)
      (ob_claim_expires_at_ms v) (Some (failure_class_as_str class)) (Some error)
      (ob_materialized_at_ms v) (ob_revision v)).

(** *** Paged reads *)

Definition position (e : DurableRuntimeEvent Value) : N * N :=
  (ev_commit_cursor e, ev_transaction_index e).

(** Tuple order on [(commit_cursor, transaction_index)]. *)
Definition pos_ltb (p q : N * N) : bool :=
  (p.1 <? q.1)%N || ((p.1 =? q.1)%N && (p.2 <? q.2)%N).

(** [after] *)
Definition after (e : DurableRuntimeEvent Value) (p : option (N * N)) : bool :=
  match p with None => true | Some p => pos_ltb p (position e) end.

(** [list_scope_page_asc] *)
Definition list_scope_page_asc (st : EphemeralState) (scope : RuntimeEventScope)
    (p : option (N * N)) (limit : nat) : list (DurableRuntimeEvent Value) :=
  take limit (matching st (fun e => bool_decide (ev_scope e = scope) && after e p)).

(** [events_after_cursor]: commits after a cursor, grouped, at most
    [max_commits] of them. *)
Definition events_after_cursor (st : EphemeralState) (cursor : N) (max_commits : nat) :
  list (N * list (DurableRuntimeEvent Value)) :=
  let later := matching st (fun e => (cursor <? ev_commit_cursor e)%N) in
  let cursors := remove_dups (merge_sort N.le (ev_commit_cursor <$> later)) in
  take max_commits
    ((fun c => (c, List.filter (fun e => (ev_commit_cursor e =? c)%N) later)) <$> cursors).

(** [RuntimeEventStore::replay_scope]: page through a scope until a short or
    empty page; [page_size] is [SCOPE_REPLAY_PAGE_SIZE]. *)
Fixpoint replay_scope (fuel page_size : nat) (st : EphemeralState)
    (scope : RuntimeEventScope) (p : option (N * N))
    (events : list (DurableRuntimeEvent Value)) : Exec (list (DurableRuntimeEvent Value)) :=
  match fuel with
  | 0 => OutOfFuel
  | S fuel' =>
      match list_scope_page_asc st scope p page_size with
      | [] => Done events
      | page =>
          let p' := option_map position (last page) in
          if length page <? page_size then Done (events ++ page)
          else replay_scope fuel' page_size st scope p' (events ++ page)
      end
  end.

(** ** Journal invariant *)

(** [start + 1, ..., start + n] *)
Definition nseq (start : N) (n : nat) : list N :=
  (fun k => (start + N.of_nat k)%N) <$> seq 1 n.

Lemma nseq_S start n : nseq start (S n) = (start + 1)%N :: nseq (start + 1) n.
Proof.
  unfold nseq. cbn [seq fmap list_fmap]. f_equal.
  rewrite <- fmap_S_seq, <- list_fmap_compose. apply list_fmap_ext.
  intros i k _. cbn. lia.
Qed.

Lemma nseq_app start n m : nseq start (n + m) = nseq start n ++ nseq (start + N.of_nat n) m.
Proof.
  revert start. induction n as [|n IH]; intros start; cbn [Nat.add].
  - cbn. by rewrite N.add_0_r.
  - rewrite !nseq_S, IH. cbn. do 3 f_equal. lia.
Qed.

Lemma length_nseq start n : length (nseq start n) = n.
Proof. unfold nseq. by rewrite length_fmap, length_seq. Qed.

Lemma max_nseq n : foldr N.max 0%N (nseq 0 n) = N.of_nat n.
Proof.
  induction n as [|n IH]; [done|]. rewrite <- Nat.add_1_r, nseq_app, foldr_app. cbn.
  assert (Hb : forall l acc, foldr N.max acc l = N.max (foldr N.max 0%N l) acc).
  { induction l as [|x l IHl]; intros acc; cbn; [lia|]. rewrite IHl. lia. }
  rewrite Hb, IH. lia.
Qed.

Lemma max_sequence_fmap l : max_sequence l = foldr N.max 0%N (ev_sequence <$> l).
Proof. induction l as [|e l IH]; cbn; [done|]. by rewrite <- IH. Qed.

Definition on_stream (id : string) (e : DurableRuntimeEvent Value) : bool :=
  String.eqb (ev_stream_id e) id.
Definition input_on_stream (id : string) (i : RuntimeTransactionEventInput Value) : bool :=
  String.eqb (in_stream_id (te_event i)) id.

Definition pos_lt (p q : N * N) : Prop := pos_ltb p q = true.

Lemma pos_lt_spec p q : pos_lt p q <-> (p.1 < q.1 \/ p.1 = q.1 /\ p.2 < q.2)%N.
Proof.
  unfold pos_lt, pos_ltb. rewrite orb_true_iff, andb_true_iff, !N.ltb_lt, N.eqb_eq. done.
Qed.

(** What the journal looks like after any sequence of operations: every
    stream is numbered 1, 2, 3, ... without gaps, events are in strictly
    increasing commit position, and cursors never exceed the commit counter. *)
Record StoreInv (st : EphemeralState) : Prop := {
  si_streams : forall id, ev_sequence <$> list_stream st id
                          = nseq 0 (length (list_stream st id));
  si_sorted : StronglySorted pos_lt (position <$> ep_events st);
  si_cursor : forall e, e ∈ ep_events st ->
    (1 <= ev_commit_cursor e <= ep_next_cursor st)%N;
  si_hashes : forall tx r, ep_transactions st !! tx = Some r ->
    ep_transaction_hashes st !! tx = Some (rcp_request_hash r) /\
    rcp_transaction_id r = tx /\ (rcp_commit_cursor r <= ep_next_cursor st)%N
}.

Lemma stream_revision_length st id :
  StoreInv st -> stream_revision st id = N.of_nat (length (list_stream st id)).
Proof.
  intros Hinv. unfold stream_revision. rewrite max_sequence_fmap, (si_streams st Hinv).
  apply max_nseq.
Qed.

(** *** The event loop *)

Lemma stamp_events_stream tx cursor uuid now id inputs : forall index revs evs revs',
  stamp_events tx cursor uuid now index revs inputs = (evs, revs') ->
  ev_sequence <$> List.filter (on_stream id) evs
    = nseq (default 0%N (revs !! id)) (length (List.filter (input_on_stream id) inputs)) /\
  default 0%N (revs' !! id)
    = (default 0 (revs !! id) + N.of_nat (length (List.filter (input_on_stream id) inputs)))%N.
Proof.
  induction inputs as [|i inputs IH]; intros index revs evs revs' Hs; cbn in Hs.
  - injection Hs as <- <-. split; [done|]. cbn. lia.
  - destruct (stamp_events _ _ _ _ (S index) _ inputs) as [evs0 revs0] eqn:E.
    injection Hs as <- <-. apply IH in E as [Hseq Hrev].
    cbn [List.filter].
    change (on_stream id (stamp_event tx cursor uuid now index
              (default 0 (revs !! in_stream_id (te_event i)) + 1)%N i))
      with (input_on_stream id i).
    destruct (input_on_stream id i) eqn:Ei; unfold input_on_stream in Ei.
    + apply String.eqb_eq in Ei. rewrite Ei in *.
      rewrite lookup_insert_eq in Hseq, Hrev. cbn [default from_option] in Hseq, Hrev.
      cbn [fmap list_fmap length]. rewrite nseq_S. split.
      * rewrite Hseq. by f_equal.
      * rewrite Hrev, Nat2N.inj_succ. cbn. lia.
    + apply String.eqb_neq in Ei. rewrite lookup_insert_ne in Hseq, Hrev by done. done.
Qed.

Lemma stamp_events_length tx cursor uuid now inputs : forall index revs evs revs',
  stamp_events tx cursor uuid now index revs inputs = (evs, revs') ->
  length evs = length inputs.
Proof.
  induction inputs as [|i inputs IH]; intros index revs evs revs' Hs; cbn in Hs.
  - by injection Hs as <- <-.
  - destruct (stamp_events _ _ _ _ (S index) _ inputs) eqn:E. injection Hs as <- <-.
    cbn. f_equal. by eapply IH.
Qed.

Lemma stamp_events_positions tx cursor uuid now inputs : forall index revs evs revs',
  stamp_events tx cursor uuid now index revs inputs = (evs, revs') ->
  (N.of_nat (index + length inputs) < 4294967296)%N ->
  StronglySorted pos_lt (position <$> evs) /\
  forall e, e ∈ evs -> ev_commit_cursor e = cursor /\
    (N.of_nat index <= ev_transaction_index e)%N.
Proof.
  induction inputs as [|i inputs IH]; intros index revs evs revs' Hs Hlt; cbn in Hs.
  - injection Hs as <- <-. split; [constructor | by intros e ?%not_elem_of_nil].
  - destruct (stamp_events _ _ _ _ (S index) _ inputs) as [evs0 revs0] eqn:E.
    injection Hs as <- <-. apply IH in E as [Hss Hall]; [|cbn in Hlt; lia].
    assert (N.of_nat index mod 4294967296 = N.of_nat index)%N as Hidx
      by (apply N.mod_small; cbn in Hlt; lia).
    split.
    + cbn. constructor; [done|]. apply Forall_forall.
      intros p (e & -> & He)%list_elem_of_fmap. apply Hall in He as [Hc Hi].
      apply pos_lt_spec. cbn. rewrite Hidx, Hc. lia.
    + intros e [->|He]%elem_of_cons; cbn; [rewrite Hidx; split; [done | lia]|].
      apply Hall in He as [? ?]. split; [done | lia].
Qed.

Lemma expected_revisions_lookup l : forall s (m : gmap string N),
  NoDup (es_stream_id <$> l) -> s ∈ l ->
  foldl (fun m s => <[es_stream_id s := es_expected_revision s]> m) m l !! es_stream_id s
    = Some (es_expected_revision s).
Proof.
  induction l as [|x l IH]; intros s m Hnd Hs; [by apply not_elem_of_nil in Hs|].
  apply NoDup_cons in Hnd as [Hx Hnd]. cbn.
  apply elem_of_cons in Hs as [->|Hs]; [|by apply IH].
  assert (Hkeep : forall l (m : gmap string N) k v, k ∉ es_stream_id <$> l -> m !! k = Some v ->
    foldl (fun m s => <[es_stream_id s := es_expected_revision s]> m) m l !! k = Some v).
  { clear. induction l as [|y l IH]; intros m k v Hk Hm; [done|]. cbn in *.
    apply not_elem_of_cons in Hk as [Hne Hk]. apply IH; [done|]. by rewrite lookup_insert_ne. }
  apply Hkeep; [done|]. apply lookup_insert_eq.
Qed.

Lemma check_expected_Ok st l :
  try_fold (check_expected st) tt l = Ok tt ->
  forall s, s ∈ l -> stream_revision st (es_stream_id s) = es_expected_revision s.
Proof.
  intros Hf s Hs. revert s Hs. eapply try_fold_Ok_inv; [|exact Hf].
  intros u x u' Hx. unfold check_expected in Hx. ok_inv.
  by apply negb_false_iff, N.eqb_eq in Hx.
Qed.

(** *** One append *)

Lemma append_inner_cases uuid now req term st r st' :
  append_inner uuid now req term st = (r, st') ->
  (st' = st /\ (forall rcp, r = Ok rcp -> rcp_duplicate rcp = true /\
      exists rcp0, ep_transactions st !! rq_transaction_id req = Some rcp0 /\
                   rcp = as_duplicate rcp0)) \/
  exists hash rcp, append_checks req term = Ok hash /\
    ep_transactions st !! rq_transaction_id req = None /\
    (forall s, s ∈ rq_expected_streams req ->
       stream_revision st (es_stream_id s) = es_expected_revision s) /\
    r = Ok rcp /\ commit_fresh uuid now req term hash st = (rcp, st').
Proof.
  unfold append_inner. destruct (append_checks req term) as [hash|e] eqn:Ec.
  2:{ intros [= <- <-]. left. split; [done | by intros ? [=]]. }
  destruct (ep_transactions st !! rq_transaction_id req) as [rcp0|] eqn:Et.
  - destruct (bool_decide _); intros [= <- <-]; left.
    + split; [done|]. intros rcp [= <-]. split; [done | by eexists].
    + split; [done | by intros ? [=]].
  - destruct (try_fold _ _ _) as [[]|e] eqn:Ef.
    2:{ intros [= <- <-]. left. split; [done | by intros ? [=]]. }
    destruct (commit_fresh uuid now req term hash st) as [rcp st1] eqn:Ecf.
    intros [= <- <-]. right. exists hash, rcp. split_and!; try done.
    by apply check_expected_Ok.
Qed.

Lemma append_checks_valid req term hash :
  append_checks req term = Ok hash -> validate_transaction req = Ok tt.
Proof. unfold append_checks. intros Hc. ok_inv. by destruct a. Qed.

(** What a fresh commit does to the journal. *)
Lemma commit_fresh_spec uuid now req term hash st rcp st' :
  StoreInv st -> append_checks req term = Ok hash ->
  (forall s, s ∈ rq_expected_streams req ->
     stream_revision st (es_stream_id s) = es_expected_revision s) ->
  commit_fresh uuid now req term hash st = (rcp, st') ->
  exists evs, ep_events st' = ep_events st ++ evs /\
    length evs = length (rq_events req) /\
    (forall id, ev_sequence <$> List.filter (on_stream id) evs
       = nseq (stream_revision st id) (length (List.filter (input_on_stream id) (rq_events req)))) /\
    (forall e, e ∈ evs -> ev_commit_cursor e = rcp_commit_cursor rcp) /\
    StronglySorted pos_lt (position <$> evs) /\
    rcp_commit_cursor rcp = (ep_next_cursor st + 1)%N /\
    rcp_event_ids rcp = ev_event_id <$> evs.
Proof.
  intros Hinv Hc Hexp Hcf.
  apply append_checks_valid, validate_transaction_Ok in Hc as (_ & Hlen & Hnd & Hin).
  unfold commit_fresh in Hcf. destruct (stamp_events _ _ _ _ _ _ _) as [evs revs] eqn:Es.
  injection Hcf as <- <-. exists evs. split; [done|]. split; [by eapply stamp_events_length|].
  split.
  - intros id. destruct (stamp_events_stream _ _ _ _ id _ _ _ _ _ Es) as [Hseq _].
    rewrite Hseq. destruct (List.filter (input_on_stream id) (rq_events req)) as [|i l] eqn:Ef; [done|].
    f_equal. assert (i ∈ List.filter (input_on_stream id) (rq_events req)) as Hi by (rewrite Ef; left).
    apply elem_of_filterb in Hi as [Hi Hid%String.eqb_eq].
    apply Hin in Hi. rewrite Hid in Hi. apply list_elem_of_fmap in Hi as (s & -> & Hs).
    unfold expected_revisions. rewrite expected_revisions_lookup by done. cbn. symmetry. auto.
  - destruct (stamp_events_positions _ _ _ _ _ _ _ _ _ Es) as [Hss Hall].
    { assert (N.of_nat MAX_TRANSACTION_EVENTS = 10000%N) as Hmax by apply N2Nat.id.
      apply (N.le_lt_trans _ (N.of_nat MAX_TRANSACTION_EVENTS)); [cbn; lia | by rewrite Hmax]. }
    split_and!; [|done..]. intros e He. by apply Hall.
Qed.

Lemma StronglySorted_app_pos (l1 l2 : list (N * N)) :
  StronglySorted pos_lt l1 -> StronglySorted pos_lt l2 ->
  (forall p q, p ∈ l1 -> q ∈ l2 -> pos_lt p q) -> StronglySorted pos_lt (l1 ++ l2).
Proof.
  intros H1 H2 H12. induction H1 as [|p l1 Hss IH Hp]; [done|]. cbn. constructor.
  - apply IH. intros q r Hq Hr. apply H12; [by right | done].
  - apply Forall_app. split; [done|]. apply Forall_forall. intros q Hq. apply H12; [left | done].
Qed.

Lemma append_inner_inv uuid now req term st r st' :
  StoreInv st -> append_inner uuid now req term st = (r, st') -> StoreInv st'.
Proof.
  intros Hinv Ha. destruct (append_inner_cases _ _ _ _ _ _ _ Ha)
    as [[-> _]|(hash & rcp & Hc & Hnone & Hexp & -> & Hcf)]; [done|].
  destruct (commit_fresh_spec _ _ _ _ _ _ _ _ Hinv Hc Hexp Hcf)
    as (evs & Hev & Hlen & Hseq & Hcur & Hss & Hrc & Hids).
  assert (Hnext : ep_next_cursor st' = rcp_commit_cursor rcp).
  { clear -Hcf Hrc. unfold commit_fresh in Hcf.
    destruct (stamp_events _ _ _ _ _ _ _). by injection Hcf as <- <-. }
  assert (Htx : ep_transactions st' = <[rq_transaction_id req := rcp]> (ep_transactions st) /\
                ep_transaction_hashes st' =
                  <[rq_transaction_id req := rcp_request_hash rcp]> (ep_transaction_hashes st) /\
                rcp_transaction_id rcp = rq_transaction_id req).
  { clear -Hcf. unfold commit_fresh in Hcf.
    destruct (stamp_events _ _ _ _ _ _ _). by injection Hcf as <- <-. }
  destruct Htx as (Htx & Hhash & Htid). destruct Hinv as [Hst Hso Hcu Hha] eqn:Einv.
  split.
  - intros id. unfold list_stream, matching. rewrite Hev, List.filter_app, fmap_app, length_app, nseq_app.
    change (List.filter (fun e => String.eqb (ev_stream_id e) id) evs)
      with (List.filter (on_stream id) evs).
    change (List.filter (fun e => String.eqb (ev_stream_id e) id) (ep_events st))
      with (list_stream st id).
    rewrite Hst, Hseq, (stream_revision_length _ _ Hinv), N.add_0_l. do 2 f_equal.
    pose proof (f_equal length (Hseq id)) as Hl. by rewrite length_fmap, length_nseq in Hl.
  - rewrite Hev, fmap_app. apply StronglySorted_app_pos; [done | done |].
    intros p q (e & -> & He)%list_elem_of_fmap (e' & -> & He')%list_elem_of_fmap.
    apply pos_lt_spec. cbn. apply Hcu in He. apply Hcur in He'. lia.
  - intros e He. rewrite Hev in He. apply elem_of_app in He as [He|He].
    + apply Hcu in He. lia.
    + apply Hcur in He. lia.
  - intros tx rc. rewrite Htx, Hhash, Hnext. destruct (decide (tx = rq_transaction_id req)) as [->|Hne].
    + rewrite !lookup_insert_eq. intros [= <-]. split_and!; [done | done | lia].
    + rewrite !lookup_insert_ne by done. intros Hl. apply Hha in Hl as (? & ? & ?).
      split_and!; [done | done | lia].
Qed.

(** *** Every operation *)

(** Operations that only touch leases, checkpoints or the outbox. *)
Definition journal (st : EphemeralState) :=
  (ep_events st, ep_transactions st, ep_transaction_hashes st, ep_next_cursor st).

Lemma StoreInv_journal st st' : journal st' = journal st -> StoreInv st -> StoreInv st'.
Proof.
  unfold journal. intros [= He Ht Hh Hn] [Hst Hso Hcu Hha].
  assert (Hls : forall id, list_stream st' id = list_stream st id)
    by (intros id; unfold list_stream, matching; by rewrite He).
  split.
  - intros id. by rewrite Hls.
  - by rewrite He.
  - rewrite He, Hn. done.
  - rewrite Ht, Hh, Hn. done.
Qed.

Inductive store_step (st st' : EphemeralState) : Prop :=
| StepAppend uuid now req term r :
    append_inner uuid now req term st = (r, st') -> store_step st st'
| StepAppendOne tx uuid now input r :
    append tx uuid now input st = (r, st') -> store_step st st'
| StepAppendLease uuid now req lease r :
    append_transaction_with_verified_decision_lease uuid now req lease st = (r, st') ->
    store_step st st'
| StepConsumeLease a b c d e f r :
    consume_verified_decision_lease a b c d e f st = (r, st') -> store_step st st'
| StepPutCheckpoint id cursor expected payload at_ms r :
    compare_and_put_projection_checkpoint id cursor expected payload at_ms st = (r, st') ->
    store_step st st'
| StepRepairCheckpoint id cursor expected payload at_ms r :
    compare_and_repair_projection_checkpoint id cursor expected payload at_ms st = (r, st') ->
    store_step st st'
| StepDeleteCheckpoint id r :
    delete_projection_checkpoint id st = (r, st') -> store_step st st'
| StepEnqueue id message session cursor payload r :
    enqueue_session_terminal id message session cursor payload st = (r, st') ->
    store_step st st'
| StepClaim worker now lease limit r :
    claim_session_terminals worker now lease limit st = (r, st') -> store_step st st'
| StepMutate id worker revision change r :
    mutate_terminal id worker revision change st = (r, st') -> store_step st st'.

(** What any operation does to the committed history: it only appends. *)
Definition history_extends (st st' : EphemeralState) : Prop :=
  (exists evs, ep_events st' = ep_events st ++ evs) /\
  (forall tx r, ep_transactions st !! tx = Some r -> ep_transactions st' !! tx = Some r) /\
  (ep_next_cursor st <= ep_next_cursor st')%N.

Lemma history_extends_journal st st' : journal st' = journal st -> history_extends st st'.
Proof.
  unfold journal. intros [= He Ht Hh Hn]. split_and!.
  - exists []. by rewrite app_nil_r.
  - by rewrite Ht.
  - rewrite Hn. lia.
Qed.

Lemma append_inner_extends uuid now req term st r st' :
  StoreInv st -> append_inner uuid now req term st = (r, st') -> history_extends st st'.
Proof.
  intros Hinv Ha. destruct (append_inner_cases _ _ _ _ _ _ _ Ha)
    as [[-> _]|(hash & rcp & Hc & Hnone & Hexp & -> & Hcf)].
  { by apply history_extends_journal. }
  clear Ha. unfold commit_fresh in Hcf. destruct (stamp_events _ _ _ _ _ _ _) as [evs revs].
  injection Hcf as <- <-. split_and!; cbn.
  - by exists evs.
  - intros tx r Hl. rewrite lookup_insert_ne; [done|]. intros Heq. congruence.
  - lia.
Qed.

Lemma store_step_append st st' :
  store_step st st' ->
  journal st' = journal st \/
  exists uuid now req term r st1, append_inner uuid now req term st = (r, st1) /\
    journal st' = journal st1.
Proof.
  intros [? ? ? ? ? H2 | ? ? ? ? ? H2 | ? ? ? ? ? H2 | ? ? ? ? ? ? ? H2 | ? ? ? ? ? ? H2
    | ? ? ? ? ? ? H2 | ? ? H2 | ? ? ? ? ? ? H2 | ? ? ? ? ? H2 | ? ? ? ? ? H2].
  - right. eauto 10.
  - right. unfold append, append_batch_if_revision in H2.
    destruct (append_inner _ _ _ _ _) as [r1 st1] eqn:E. injection H2 as <- <-. eauto 10.
  - right. unfold append_transaction_with_verified_decision_lease in H2.
    destruct (append_inner _ _ _ _ _) as [[rcp|e] st1] eqn:E.
    + exists uuid, now, req, None, (Ok rcp), st1. split; [done|].
      destruct (_ && _); by injection H2 as <- <-.
    + injection H2 as <- <-. eauto 10.
  - left. unfold consume_verified_decision_lease in H2. destruct (validate_decision_lease_claims _ _ _ _ _ _).
    + destruct (bool_decide _); by injection H2 as <- <-.
    + by injection H2 as <- <-.
  - left. unfold compare_and_put_projection_checkpoint in H2.
    repeat case_match; by injection H2 as <- <-.
  - left. unfold compare_and_repair_projection_checkpoint in H2.
    repeat case_match; by injection H2 as <- <-.
  - left. by injection H2 as <- <-.
  - left. unfold enqueue_session_terminal in H2. case_match; by injection H2 as <- <-.
  - left. by injection H2 as <- <-.
  - left. unfold mutate_terminal in H2. repeat case_match; by injection H2 as <- <-.
Qed.

Lemma store_step_inv st st' :
  StoreInv st -> store_step st st' -> StoreInv st' /\ history_extends st st'.
Proof.
  intros Hinv Hs. destruct (store_step_append _ _ Hs)
    as [Hj|(uuid & now & req & term & r & st1 & Ha & Hj)].
  - split; [by eapply StoreInv_journal | by apply history_extends_journal].
  - pose proof (append_inner_inv _ _ _ _ _ _ _ Hinv Ha) as Hinv1.
    destruct (append_inner_extends _ _ _ _ _ _ _ Hinv Ha) as (He & Ht & Hn).
    split; [by eapply StoreInv_journal|]. unfold journal in Hj. injection Hj as He1 Ht1 _ Hn1.
    split_and!; rewrite ?He1, ?Ht1, ?Hn1; done.
Qed.

Lemma StoreInv_default : StoreInv ephemeral_default.
Proof.
  split.
  - done.
  - constructor.
  - intros e He. by apply not_elem_of_nil in He.
  - intros tx r Hl. cbn in Hl. by rewrite lookup_empty in Hl.
Qed.

Lemma store_run_inv st st' :
  StoreInv st -> rtc store_step st st' -> StoreInv st' /\ history_extends st st'.
Proof.
  intros Hinv Hrun. revert Hinv. induction Hrun as [st|st st1 st' Hs _ IH]; intros Hinv.
  - split; [done | by apply history_extends_journal].
  - destruct (store_step_inv _ _ Hinv Hs) as [Hinv1 ([evs1 He1] & Ht1 & Hn1)].
    destruct (IH Hinv1) as [Hinv' ([evs2 He2] & Ht2 & Hn2)]. split; [done|]. split_and!.
    + exists (evs1 ++ evs2). by rewrite He2, He1, app_assoc.
    + auto.
    + lia.
Qed.

Lemma list_stream_extends st st' id :
  history_extends st st' -> exists l, list_stream st' id = list_stream st id ++ l.
Proof.
  intros ([evs He] & _ & _). unfold list_stream, matching. rewrite He, List.filter_app. eauto.
Qed.

Lemma stream_revision_mono st st' id :
  StoreInv st -> StoreInv st' -> history_extends st st' ->
  (stream_revision st id <= stream_revision st' id)%N.
Proof.
  intros Hi Hi' He. rewrite !stream_revision_length by done.
  destruct (list_stream_extends st st' id He) as [l ->]. rewrite length_app. lia.
Qed.

(** The store view of a fresh commit. *)
Lemma append_fresh_spec uuid now req term st rcp st' :
  StoreInv st -> append_inner uuid now req term st = (Ok rcp, st') ->
  rcp_duplicate rcp = false ->
  (forall s, s ∈ rq_expected_streams req ->
     stream_revision st (es_stream_id s) = es_expected_revision s) /\
  exists evs, ep_events st' = ep_events st ++ evs /\
    length evs = length (rq_events req) /\
    (forall id, stream_revision st' id
       = (stream_revision st id
          + N.of_nat (length (List.filter (input_on_stream id) (rq_events req))))%N) /\
    (forall e, e ∈ evs -> ev_commit_cursor e = rcp_commit_cursor rcp) /\
    rcp_event_ids rcp = ev_event_id <$> evs.
Proof.
  intros Hinv Ha Hd. pose proof (append_inner_inv _ _ _ _ _ _ _ Hinv Ha) as Hinv'.
  destruct (append_inner_cases _ _ _ _ _ _ _ Ha)
    as [[_ Hdup]|(hash & rcp' & Hc & Hnone & Hexp & [= <-] & Hcf)].
  { destruct (Hdup rcp eq_refl). congruence. }
  destruct (commit_fresh_spec _ _ _ _ _ _ _ _ Hinv Hc Hexp Hcf)
    as (evs & Hev & Hlen & Hseq & Hcur & _ & _ & Hids).
  split; [done|]. exists evs. split_and!; try done.
  intros id. rewrite !stream_revision_length by done. unfold list_stream, matching.
  rewrite Hev, List.filter_app, length_app, Nat2N.inj_add. do 2 f_equal.
  pose proof (f_equal length (Hseq id)) as Hl. by rewrite length_fmap, length_nseq in Hl.
Qed.

Lemma store_sequence st id k e :
  StoreInv st -> list_stream st id !! k = Some e -> ev_sequence e = N.of_nat (S k).
Proof.
  intros Hinv Hk. assert ((ev_sequence <$> list_stream st id) !! k = Some (ev_sequence e)) as Hs
    by (by rewrite list_lookup_fmap, Hk).
  rewrite (si_streams st Hinv) in Hs. unfold nseq in Hs. rewrite list_lookup_fmap in Hs.
  destruct (seq 1 _ !! k) as [x|] eqn:Ex; [|done]. apply lookup_seq in Ex as [-> _].
  cbn in Hs. injection Hs as <-. lia.
Qed.

(** C30. Whatever sequence of operations the store performs, every stream is
    numbered 1, 2, 3, ... without gaps or repetitions, its revision is the
    number of its events, and the global order of events follows strictly
    increasing (commit cursor, index) positions. *)
Theorem store_streams_contiguous st (Hrun : rtc store_step ephemeral_default st) :
  (forall id k e, list_stream st id !! k = Some e -> ev_sequence e = N.of_nat (S k)) /\
  (forall id, stream_revision st id = N.of_nat (length (list_stream st id))) /\
  (forall i j e e', i < j -> ep_events st !! i = Some e -> ep_events st !! j = Some e' ->
     pos_lt (position e) (position e')).
Proof.
  destruct (store_run_inv _ _ StoreInv_default Hrun) as [Hinv _]. split_and!.
  - intros id k e. by apply store_sequence.
  - intros id. by apply stream_revision_length.
  - intros i j e e' Hij Hi Hj. pose proof (si_sorted st Hinv) as Hso.
    apply (StronglySorted_lookup_lt _ _ Hso i j); [done| |];
      by rewrite list_lookup_fmap, ?Hi, ?Hj.
Qed.

(** A transaction is atomic: when it fails, or when it repeats a
    committed transaction, the store is unchanged; when it commits, every
    expected revision was current, all of its events are appended under one
    fresh cursor, and every stream's revision grows by exactly the number of
    its events. *)
Theorem append_transaction_atomic uuid now req term st (Hinv : StoreInv st) :
  match append_inner uuid now req term st with
  | (Err _, st') => st' = st
  | (Ok rcp, st') =>
      if rcp_duplicate rcp then st' = st
      else (forall s, s ∈ rq_expected_streams req ->
              stream_revision st (es_stream_id s) = es_expected_revision s) /\
           (exists evs, ep_events st' = ep_events st ++ evs /\
              length evs = length (rq_events req) /\
              forall e, e ∈ evs -> ev_commit_cursor e = rcp_commit_cursor rcp) /\
           (forall id, stream_revision st' id
              = (stream_revision st id
                 + N.of_nat (length (List.filter (input_on_stream id) (rq_events req))))%N) /\
           (forall e, e ∈ ep_events st -> (ev_commit_cursor e < rcp_commit_cursor rcp)%N)
  end.
Proof.
  destruct (append_inner uuid now req term st) as [[rcp|e] st'] eqn:Ha.
  - destruct (rcp_duplicate rcp) eqn:Hd.
    + destruct (append_inner_cases _ _ _ _ _ _ _ Ha)
        as [[-> _]|(hash & rcp' & _ & _ & _ & [= <-] & Hcf)]; [done|].
      unfold commit_fresh in Hcf. destruct (stamp_events _ _ _ _ _ _ _).
      injection Hcf as Hr _. by rewrite <- Hr in Hd.
    + destruct (append_fresh_spec _ _ _ _ _ _ _ Hinv Ha Hd) as (Hexp & evs & He & Hl & Hrev & Hc & _).
      split_and!; try done; [by exists evs|].
      intros e Hin. apply (si_cursor st Hinv) in Hin as [_ Hle].
      destruct (append_inner_cases _ _ _ _ _ _ _ Ha)
        as [[_ Hdup]|(hash & rcp' & _ & _ & _ & [= <-] & Hcf)]; [destruct (Hdup rcp eq_refl); congruence|].
      unfold commit_fresh in Hcf. destruct (stamp_events _ _ _ _ _ _ _).
      injection Hcf as <- _. cbn. lia.
  - destruct (append_inner_cases _ _ _ _ _ _ _ Ha) as [[-> _]|(? & ? & _ & _ & _ & [=] & _)].
    done.
Qed.

(** Submission is idempotent: once a transaction has committed, then
    after any further operations the same request returns the same receipt
    (marked as a duplicate) and changes nothing, and a request with the same
    transaction id but another hash is refused. *)
Theorem append_idempotent uuid now req term st rcp st1 st2
  (Hinv : StoreInv st)
  (Hok : append_inner uuid now req term st = (Ok rcp, st1))
  (Hrun : rtc store_step st1 st2) :
  (forall uuid' now', append_inner uuid' now' req term st2 = (Ok (as_duplicate rcp), st2)) /\
  (forall uuid' now' req' term' hash',
     rq_transaction_id req' = rq_transaction_id req ->
     append_checks req' term' = Ok hash' -> hash' <> rcp_request_hash rcp ->
     append_inner uuid' now' req' term' st2
       = (Err (TransactionConflict (rq_transaction_id req)), st2)).
Proof.
  assert (exists r0, ep_transactions st1 !! rq_transaction_id req = Some r0 /\
            as_duplicate r0 = as_duplicate rcp /\ rcp_request_hash r0 = rcp_request_hash rcp /\
            append_checks req term = Ok (rcp_request_hash rcp)) as (r0 & Hr0 & Hdup & Hh & Hck).
  { pose proof Hok as Ha. unfold append_inner in Ha.
    destruct (append_checks req term) as [hash|] eqn:Ec; [|done].
    destruct (ep_transactions st !! _) as [r0|] eqn:Et.
    - destruct (bool_decide_reflect (ep_transaction_hashes st !! rq_transaction_id req = Some hash))
        as [Hhash|]; [|done]. injection Ha as <- <-. exists r0.
      destruct (si_hashes st Hinv _ _ Et) as (Hr & _ & _). rewrite Hhash in Hr. injection Hr as ->.
      done.
    - destruct (try_fold _ _ _); [|done]. unfold commit_fresh in Ha.
      destruct (stamp_events _ _ _ _ _ _ _). injection Ha as <- <-. cbn.
      eexists. rewrite lookup_insert_eq. done. }
  pose proof (append_inner_inv _ _ _ _ _ _ _ Hinv Hok) as Hinv1.
  destruct (store_run_inv _ _ Hinv1 Hrun) as [Hinv2 (_ & Ht & _)].
  apply Ht in Hr0. destruct (si_hashes st2 Hinv2 _ _ Hr0) as (Hhash & _ & _).
  split.
  - intros uuid' now'. unfold append_inner. rewrite Hck, Hr0, Hhash, Hh.
    rewrite bool_decide_eq_true_2 by done. by rewrite Hdup.
  - intros uuid' now' req' term' hash' Htx Hck' Hne. unfold append_inner.
    rewrite Hck', Htx, Hr0, Hhash. rewrite bool_decide_eq_false_2; [done|]. congruence.
Qed.

(** Optimistic concurrency: of two transactions that read a stream at the
    same revision, if the first one commits an event to it then, whatever
    happens in between, the second one cannot commit. *)
Theorem append_one_winner uuid now uuid' now' req1 req2 term1 term2 st rcp st1 st2 s r
  (Hinv : StoreInv st)
  (Hfirst : append_inner uuid now req1 term1 st = (Ok rcp, st1))
  (Hfresh : rcp_duplicate rcp = false)
  (Hrun : rtc store_step st1 st2)
  (Hread1 : {| es_stream_id := s; es_expected_revision := r |} ∈ rq_expected_streams req1)
  (Hwrite1 : exists e, e ∈ rq_events req1 /\ in_stream_id (te_event e) = s)
  (Hread2 : {| es_stream_id := s; es_expected_revision := r |} ∈ rq_expected_streams req2)
  (Hnew : ep_transactions st2 !! rq_transaction_id req2 = None) :
  exists e, append_inner uuid' now' req2 term2 st2 = (Err e, st2).
Proof.
  destruct (append_fresh_spec _ _ _ _ _ _ _ Hinv Hfirst Hfresh) as (Hexp & evs & _ & _ & Hrev & _).
  pose proof (append_inner_inv _ _ _ _ _ _ _ Hinv Hfirst) as Hinv1.
  destruct (store_run_inv _ _ Hinv1 Hrun) as [Hinv2 Hext].
  pose proof (stream_revision_mono st1 st2 s Hinv1 Hinv2 Hext) as Hmono.
  specialize (Hexp _ Hread1). cbn in Hexp. specialize (Hrev s).
  assert (0 < length (List.filter (input_on_stream s) (rq_events req1))) as Hpos.
  { destruct Hwrite1 as (e & He & Hs).
    assert (e ∈ List.filter (input_on_stream s) (rq_events req1)) as Hin.
    { apply elem_of_filterb. split; [done|]. by apply String.eqb_eq. }
    destruct (List.filter _ _); [by apply not_elem_of_nil in Hin | cbn; lia]. }
  destruct (append_inner uuid' now' req2 term2 st2) as [res st3] eqn:Ha.
  destruct (append_inner_cases _ _ _ _ _ _ _ Ha) as [[-> Hdup]|(hash & rcp' & _ & _ & Hexp2 & _ & _)].
  - destruct res as [rcp'|e]; [|by exists e].
    destruct (Hdup rcp' eq_refl) as (_ & r0 & Hr0 & _). congruence.
  - specialize (Hexp2 _ Hread2). cbn in Hexp2. lia.
Qed.

(** *** Paged replay *)

Lemma pos_lt_irrefl p : ~ pos_lt p p.
Proof. rewrite pos_lt_spec. lia. Qed.

Lemma pos_lt_asym p q : pos_lt p q -> ~ pos_lt q p.
Proof. rewrite !pos_lt_spec. lia. Qed.

(** In a position-sorted list, "after the last element of a prefix" selects
    exactly the rest. *)
Lemma filter_after_prefix (P R : list (DurableRuntimeEvent Value)) :
  StronglySorted pos_lt (position <$> (P ++ R)) ->
  List.filter (fun e => after e (option_map position (last P))) (P ++ R) = R.
Proof.
  intros Hso. rewrite List.filter_app. destruct (last P) as [e0|] eqn:El; cbn.
  2:{ apply last_None in El as ->. by apply filterb_all. }
  apply last_Some in El as [P' ->]. rewrite filterb_none, filterb_all; [done| |].
  - intros e He. rewrite <- app_assoc in Hso.
    change ([e0] ++ R) with (e0 :: R) in Hso. unfold after.
    apply list_elem_of_lookup in He as [i Hi].
    apply (StronglySorted_lookup_lt _ _ Hso (length P') (S (length P' + i))); [lia| |];
      rewrite list_lookup_fmap; rewrite lookup_app_r by lia.
    + by rewrite Nat.sub_diag.
    + replace (S (length P' + i) - length P') with (S i) by lia.
      change ((e0 :: R) !! S i) with (R !! i). by rewrite Hi.
  - intros e He. unfold after. apply not_true_iff_false. intros Hlt.
    apply elem_of_app in He as [He|He%list_elem_of_singleton]; [|subst; by eapply pos_lt_irrefl].
    apply list_elem_of_lookup in He as [i Hi]. pose proof (lookup_lt_Some _ _ _ Hi) as Hlen.
    eapply pos_lt_asym; [exact Hlt|].
    apply (StronglySorted_lookup_lt _ _ Hso i (length P')); [done| |];
      rewrite list_lookup_fmap, <- app_assoc.
    + by rewrite lookup_app_l, Hi by lia.
    + by rewrite lookup_app_r, Nat.sub_diag by lia.
Qed.

Definition scope_events (st : EphemeralState) (scope : RuntimeEventScope) :=
  matching st (fun e => bool_decide (ev_scope e = scope)).

Lemma StronglySorted_filter_pos (f : DurableRuntimeEvent Value -> bool) l :
  StronglySorted pos_lt (position <$> l) ->
  StronglySorted pos_lt (position <$> List.filter f l).
Proof.
  induction l as [|e l IH]; cbn; intros Hso; [constructor|].
  apply StronglySorted_inv in Hso as [Hso Hall]. destruct (f e); [|auto].
  cbn. constructor; [auto|]. apply Forall_forall. intros p (x & -> & [Hx _]%elem_of_filterb)%list_elem_of_fmap.
  rewrite Forall_forall in Hall. apply Hall. by apply list_elem_of_fmap_2.
Qed.

Lemma replay_scope_from fuel page_size st scope : forall P R,
  StronglySorted pos_lt (position <$> ep_events st) -> 0 < page_size ->
  scope_events st scope = P ++ R -> length R < fuel ->
  replay_scope fuel page_size st scope (option_map position (last P)) P
    = Done (scope_events st scope).
Proof.
  induction fuel as [|fuel IH]; intros P R Hso Hpos HPR Hf; [lia|]. cbn [replay_scope].
  assert (Hpage : list_scope_page_asc st scope (option_map position (last P)) page_size
                  = take page_size R).
  { unfold list_scope_page_asc, matching. f_equal.
    rewrite <- (filterb_filterb (fun e => after e (option_map position (last P)))
                  (fun e => bool_decide (ev_scope e = scope))).
    change (List.filter (fun e => bool_decide (ev_scope e = scope)) (ep_events st))
      with (scope_events st scope). rewrite HPR. apply filter_after_prefix.
    rewrite <- HPR. by apply StronglySorted_filter_pos. }
  rewrite Hpage. destruct (take page_size R) as [|e page] eqn:Et.
  { destruct R as [|x R]; [by rewrite HPR, app_nil_r|]. destruct page_size; [lia | done]. }
  rewrite <- Et. destruct (Nat.ltb_spec (length (take page_size R)) page_size) as [Hlt|Hge].
  - rewrite HPR, firstn_all2; [done|]. rewrite length_take in Hlt. lia.
  - assert (last (take page_size R) = last (P ++ take page_size R)) as ->.
    { rewrite Et. symmetry. apply last_app_cons. }
    apply (IH (P ++ take page_size R) (drop page_size R)); [done | done | |].
    + by rewrite <- app_assoc, take_drop.
    + rewrite length_drop. rewrite length_take in Hge. lia.
Qed.

(** Paged replay is complete: for every positive page size, reading a
    scope page by page terminates and returns exactly the scope's events, in
    commit order, with none lost or repeated at page borders. *)
Theorem replay_scope_complete page_size st scope
  (Hinv : StoreInv st) (Hpage : 0 < page_size) :
  replay_scope (S (length (ep_events st))) page_size st scope None []
    = Done (matching st (fun e => bool_decide (ev_scope e = scope))).
Proof.
  apply (replay_scope_from _ page_size st scope [] (scope_events st scope)); try done.
  - apply (si_sorted st Hinv).
  - unfold scope_events, matching. pose proof (List.filter_length_le
      (fun e => bool_decide (ev_scope e = scope)) (ep_events st)). lia.
Qed.

(** *** Projection checkpoints *)

(** A projection's source cursor is a fence: a compare-and-put with a
    stale revision or an older source cursor is refused and changes nothing;
    an accepted one never moves the cursor back, advances the row revision by
    one when it writes, and is a no-op when it repeats the stored row. *)
Theorem checkpoint_fence id cursor expected payload at_ms st :
  match compare_and_put_projection_checkpoint id cursor expected payload at_ms st with
  | (Err (StoreStaleRevision _ _ _), st') =>
      st' = st /\ (expected <> checkpoint_revision st id \/
        exists c, ep_checkpoints st !! id = Some c /\ (cursor < pc_source_cursor c)%N)
  | (Err _, _) => False
  | (Ok c', st') =>
      expected = checkpoint_revision st id /\ ep_checkpoints st' !! id = Some c' /\
      pc_source_cursor c' = cursor /\ pc_payload c' = payload /\
      (forall c, ep_checkpoints st !! id = Some c -> (pc_source_cursor c <= cursor)%N) /\
      (st' = st \/ pc_revision c' = (checkpoint_revision st id + 1)%N) /\
      (forall id', id' <> id -> ep_checkpoints st' !! id' = ep_checkpoints st !! id')
  end.
Proof.
  unfold compare_and_put_projection_checkpoint.
  destruct (N.eqb_spec (checkpoint_revision st id) expected) as [He|Hne]; cbn; [|auto].
  destruct (ep_checkpoints st !! id) as [c|] eqn:Ec.
  - destruct (N.ltb_spec cursor (pc_source_cursor c)) as [Hlt|Hge]; [eauto 6|].
    destruct (N.eqb_spec cursor (pc_source_cursor c)) as [Heq|Hneq];
      [destruct (bool_decide_reflect (pc_payload c = payload)) as [Hp|Hp]|]; cbn.
    + split_and!; try done; [by intros ? [= <-] | by left].
    + rewrite lookup_insert_eq. split_and!; try done; [by intros ? [= <-] | by right |].
      intros. by apply lookup_insert_ne.
    + rewrite lookup_insert_eq. split_and!; try done; [by intros ? [= <-] | by right |].
      intros. by apply lookup_insert_ne.
  - cbn. rewrite lookup_insert_eq. split_and!; try done; [by right|].
    intros. by apply lookup_insert_ne.
Qed.

(** The in-process backend appends before it consumes the decision
    lease: presenting an already consumed lease with a new, valid transaction
    reports [DecisionLeaseAlreadyConsumed], yet the transaction's events are
    committed. *)
Theorem consumed_lease_still_commits uuid now req lease st rcp st1
  (Hinv : StoreInv st) (Hlease : lease ∈ ep_consumed_leases st)
  (Hok : append_inner uuid now req None st = (Ok rcp, st1))
  (Hfresh : rcp_duplicate rcp = false) :
  append_transaction_with_verified_decision_lease uuid now req lease st
    = (Err (DecisionLeaseAlreadyConsumed lease), st1) /\
  length (ep_events st1) = length (ep_events st) + length (rq_events req).
Proof.
  assert (Hl1 : lease ∈ ep_consumed_leases st1).
  { destruct (append_inner_cases _ _ _ _ _ _ _ Hok) as [[-> _]|(? & ? & _ & _ & _ & _ & Hcf)]; [done|].
    unfold commit_fresh in Hcf. destruct (stamp_events _ _ _ _ _ _ _). by injection Hcf as _ <-. }
  split.
  - unfold append_transaction_with_verified_decision_lease. rewrite Hok.
    by rewrite bool_decide_eq_true_2, Hfresh by done.
  - destruct (append_fresh_spec _ _ _ _ _ _ _ Hinv Hok Hfresh) as (_ & evs & -> & Hlen & _).
    rewrite length_app. lia.
Qed.
End EphemeralStore.
Arguments EphemeralState : clear implicits.
