(* ===== verification/Samples.v ===== *)
(** * Concrete instances

    A small JSON model and digest that satisfy the interfaces of [Ports], with
    sample requests and stores: the inputs at which the witnesses of the later
    files evaluate. *)

From S2P Require Import Prelude Facts Contract Approval Validation Delta Ports EventStore.

#[export] Instance ExecutionGraphEvent_eq_dec : EqDecision ExecutionGraphEvent.
Proof. solve_decision. Defined.

Inductive SampleLeaf :=
| LStr (s : string)
| LNum (n : N)
| LStatus (s : ExecutionNodeStatus)
| LResult (r : option ExecutionNodeResult)
| LBinding (b : RuntimeActivityBinding)
| LEvent (e : ExecutionGraphEvent)
| LGraph (g : ExecutionGraph)
| LBool (b : bool)
| LRequest (r : ApprovalRequest)
| LDecision (d : ApprovalDecision)
| LGrant (g : ApprovalGrant)
| LRisk (r : TaskRisk)
| LScope (s : ApprovalGrantScope)
| LTimeout (t : ApprovalTimeoutPolicy)
| LApplication (a : ApprovalApplicationSource).

#[export] Instance SampleLeaf_eq_dec : EqDecision SampleLeaf.
Proof. solve_decision. Defined.

(** Objects are member lists ending in [SvEmpty] or in a serialized event. *)
Inductive SampleValue :=
| SvLeaf (l : SampleLeaf)
| SvEmpty
| SvMember (key : string) (value rest : SampleValue).

#[export] Instance SampleValue_eq_dec : EqDecision SampleValue.
Proof. solve_decision. Defined.

Fixpoint sv_get (v : SampleValue) (k : string) : option SampleValue :=
  match v with
  | SvMember k' x rest => if String.eqb k k' then Some x else sv_get rest k
  | _ => None
  end.

Definition sv_insert (v : SampleValue) (k : string) (x : SampleValue) : option SampleValue :=
  match v with
  | SvLeaf (LEvent _) | SvEmpty | SvMember _ _ _ => Some (SvMember k x v)
  | SvLeaf _ => None
  end.

Definition sv_object (l : list (string * SampleValue)) : SampleValue :=
  foldr (fun kv acc => SvMember kv.1 kv.2 acc) SvEmpty l.

Fixpoint sv_event (v : SampleValue) : option ExecutionGraphEvent :=
  match v with
  | SvLeaf (LEvent e) => Some e
  | SvMember _ _ rest => sv_event rest
  | _ => None
  end.

#[export] Instance sample_json : Json SampleValue :=
  {| value_get := sv_get;
     value_as_str := fun v => match v with SvLeaf (LStr s) => Some s | _ => None end;
     value_insert := sv_insert;
     value_object := sv_object;
     value_string := fun s => SvLeaf (LStr s);
     value_u64 := fun n => SvLeaf (LNum n);
     status_to_value := fun s => SvLeaf (LStatus s);
     result_to_value := fun r => SvLeaf (LResult r);
     binding_to_value := fun b => SvLeaf (LBinding b);
     binding_from_value := fun v => match v with SvLeaf (LBinding b) => Some b | _ => None end;
     event_to_value := fun e => SvLeaf (LEvent e);
     event_from_value := sv_event;
     graph_from_value := fun v => match v with SvLeaf (LGraph g) => Some g | _ => None end |}.

#[export] Instance sample_json_laws : JsonLaws SampleValue.
Proof.
  split.
  - intros e v. by eexists.
  - intros [|f fields] v; by eexists.
  - intros o k v o'. destruct o as [[]| |]; cbn; try done; intros [= <-]; cbn;
      by rewrite String.eqb_refl.
  - intros e v w [= <-]. done.
  - intros e d v w _ [= <-]. done.
  - done.
Qed.

#[export] Instance sample_digest : Digest SampleValue :=
  {| to_vec_request := fun r => Ok (rq_transaction_id r);
     to_vec_terminal := fun r t => Ok (rq_transaction_id r +:+ st_terminal_id t)%string;
     sha256_hex := fun s => s |}.

Definition sample_uuid (n : nat) : string := "u".
Definition sample_now (n : nat) : N := 0.

Definition sample_input (stream : string) : RuntimeTransactionEventInput SampleValue :=
  {| te_event := {| in_stream_id := stream; in_scope := ScTask; in_kind := "task.created";
                    in_status := None; in_actor := None; in_refs := [];
                    in_payload := SvEmpty |};
     te_idempotency_key := None; te_schema_version := 1 |}.

Definition sample_request (tx stream : string) (revision : N) :
  AppendTransactionRequest SampleValue :=
  {| rq_transaction_id := tx;
     rq_expected_streams := [{| es_stream_id := stream; es_expected_revision := revision |}];
     rq_events := [sample_input stream; sample_input stream] |}.

Definition store0 : EphemeralState SampleValue := with_lease "lease" ephemeral_default.

Definition store1 : EphemeralState SampleValue :=
  (append_inner sample_uuid sample_now (sample_request "t1" "s" 0) None store0).2.

Definition receipt1 : AppendTransactionReceipt :=
  {| rcp_commit_cursor := 1; rcp_transaction_id := "t1"; rcp_request_hash := "t1";
     rcp_stream_revisions := [{| cs_stream_id := "s"; cs_expected_revision := 0;
                                 cs_committed_revision := 2 |}];
     rcp_event_ids := ["runtime-event-u"; "runtime-event-u"]%string; rcp_duplicate := false |}.

(** [append_transaction_atomic] at a state where it commits. *)
Lemma store0_step :
  append_inner sample_uuid sample_now (sample_request "t1" "s" 0) None store0
  = (Ok receipt1, store1).
Proof. vm_compute. reflexivity. Qed.

Lemma store0_run : rtc store_step (@ephemeral_default SampleValue) store0.
Proof.
  apply rtc_once. apply (StepConsumeLease _ _ "lease" "p" "r" "a" "s" "d" (Ok tt)).
  vm_compute. reflexivity.
Qed.

Lemma store1_run : rtc store_step (@ephemeral_default SampleValue) store1.
Proof.
  apply (rtc_r _ store0 _); [exact store0_run|].
  apply (StepAppend _ _ sample_uuid sample_now (sample_request "t1" "s" 0) None (Ok receipt1)).
  exact store0_step.
Qed.

Lemma store0_inv : StoreInv store0.
Proof. exact (proj1 (store_run_inv _ _ StoreInv_default store0_run)). Qed.

Lemma store1_inv : StoreInv store1.
Proof. exact (proj1 (store_run_inv _ _ StoreInv_default store1_run)). Qed.

Lemma store_streams_contiguous_witness :
  (forall id k e, list_stream store1 id !! k = Some e -> ev_sequence e = N.of_nat (S k)) /\
  length (list_stream store1 "s") = 2.
Proof.
  split; [|vm_compute; reflexivity].
  exact (proj1 (store_streams_contiguous store1 store1_run)).
Defined.

Lemma append_transaction_atomic_witness :
  length (ep_events store1) = 2 /\ stream_revision store1 "s" = 2%N.
Proof.
  pose proof (append_transaction_atomic sample_uuid sample_now (sample_request "t1" "s" 0) None
                store0 store0_inv) as H.
  rewrite store0_step in H. cbn [rcp_duplicate receipt1] in H.
  destruct H as (_ & (evs & He & Hl & _) & Hrev & _). split.
  - rewrite He, length_app, Hl. reflexivity.
  - rewrite Hrev. reflexivity.
Defined.

Lemma append_idempotent_witness :
  append_inner sample_uuid sample_now (sample_request "t1" "s" 0) None store1
  = (Ok (as_duplicate receipt1), store1).
Proof.
  exact (proj1 (append_idempotent sample_uuid sample_now (sample_request "t1" "s" 0) None
                  store0 receipt1 store1 store1 store0_inv store0_step (rtc_refl _ _))
           sample_uuid sample_now).
Defined.

Lemma append_one_winner_witness :
  exists e, append_inner sample_uuid sample_now (sample_request "t2" "s" 0) None store1
            = (Err e, store1).
Proof.
  apply (append_one_winner sample_uuid sample_now sample_uuid sample_now
           (sample_request "t1" "s" 0) (sample_request "t2" "s" 0) None None
           store0 receipt1 store1 store1 "s" 0).
  - exact store0_inv.
  - exact store0_step.
  - reflexivity.
  - apply rtc_refl.
  - left.
  - exists (sample_input "s"). split; [left | reflexivity].
  - left.
  - vm_compute. reflexivity.
Defined.

Lemma replay_scope_complete_witness :
  replay_scope 3 1 store1 ScTask None [] = Done (ep_events store1).
Proof.
  exact (replay_scope_complete 1 store1 ScTask store1_inv (le_n 1)).
Defined.

Lemma consumed_lease_still_commits_witness :
  append_transaction_with_verified_decision_lease sample_uuid sample_now
    (sample_request "t1" "s" 0) "lease" store0
  = (Err (DecisionLeaseAlreadyConsumed "lease"), store1).
Proof.
  apply (consumed_lease_still_commits sample_uuid sample_now (sample_request "t1" "s" 0)
           "lease" store0 receipt1 store1 store0_inv).
  - apply (proj1 (bool_decide_eq_true _)). vm_compute. reflexivity.
  - exact store0_step.
  - reflexivity.
Defined.
