(* ===== verification/Backend.v ===== *)
(** * The event-store interface of the graph services

    [RuntimeEventStoreBackend] ([ports.rs]) as the graph services use it, with
    the laws they rely on, and the proof that the in-process backend satisfies
    them.  The graph services are verified against this interface only. *)

From S2P Require Import Prelude Facts Contract Validation Delta Ports EventStore.

(** What an appended event must look like to its readers. *)
Definition event_core {Value} (e : DurableRuntimeEvent Value) :
  N * RuntimeEventScope * string * Value * N :=
  (ev_sequence e, ev_scope e, ev_kind e, ev_payload e, ev_commit_cursor e).

Definition input_core {Value} (cursor revision : N) (k : nat)
    (i : RuntimeTransactionEventInput Value) : N * RuntimeEventScope * string * Value * N :=
  ((revision + N.of_nat (S k))%N, in_scope (te_event i), in_kind (te_event i),
   in_payload (te_event i), cursor).

Definition on_input_stream {Value} (id : string) (i : RuntimeTransactionEventInput Value) : bool :=
  String.eqb (in_stream_id (te_event i)) id.

Class EventBackend (Value S : Type) := {
  eb_append : AppendTransactionRequest Value -> option SessionTerminalInput -> S ->
    StoreResult AppendTransactionReceipt * S;
  eb_list_stream : S -> string -> list (DurableRuntimeEvent Value);
  eb_stream_revision : S -> string -> N;
  eb_event_by_key : S -> string -> string -> option (DurableRuntimeEvent Value)
}.

Class EventBackendLaws (Value S : Type) `{EventBackend Value S} := {
  eb_inv : S -> Prop;
  eb_append_inv : forall r t s res s',
    eb_inv s -> eb_append r t s = (res, s') -> eb_inv s';
  (** a failed or repeated transaction changes nothing *)
  eb_append_same : forall r t s res s',
    eb_inv s -> eb_append r t s = (res, s') ->
    (forall rcp, res = Ok rcp -> rcp_duplicate rcp = true) -> s' = s;
  (** a fresh transaction was expected at the current revisions and appends its
      events to their streams, in order, numbered on *)
  eb_append_fresh : forall r t s rcp s',
    eb_inv s -> eb_append r t s = (Ok rcp, s') -> rcp_duplicate rcp = false ->
    (forall x, x ∈ rq_expected_streams r ->
       eb_stream_revision s (es_stream_id x) = es_expected_revision x) /\
    forall id, event_core <$> eb_list_stream s' id =
      (event_core <$> eb_list_stream s id)
      ++ imap (input_core (rcp_commit_cursor rcp) (eb_stream_revision s id))
           (List.filter (on_input_stream id) (rq_events r));
  eb_revision_length : forall s id,
    eb_inv s -> eb_stream_revision s id = N.of_nat (length (eb_list_stream s id));
  (** streams are numbered from 1 *)
  eb_sequences : forall s id k e,
    eb_inv s -> eb_list_stream s id !! k = Some e -> ev_sequence e = N.of_nat (Datatypes.S k)
}.

Section Ephemeral.
Context {Value : Type} `{EqDecision Value} `{Json Value} `{Digest Value}.
Context (uuid : nat -> string) (now : nat -> N).

Definition ephemeral_backend : EventBackend Value (EphemeralState Value) :=
  {| eb_append := append_inner uuid now;
     eb_list_stream := list_stream;
     eb_stream_revision := stream_revision;
     eb_event_by_key := event_by_idempotency_key |}.

Lemma stamp_events_core tx cursor id (inputs : list (RuntimeTransactionEventInput Value)) : forall index revs evs revs',
  stamp_events tx cursor uuid now index revs inputs = (evs, revs') ->
  event_core <$> List.filter (on_stream id) evs
    = imap (input_core cursor (default 0%N (revs !! id)))
        (List.filter (on_input_stream id) inputs).
Proof.
  induction inputs as [|i inputs IH]; intros index revs evs revs' Hs; cbn in Hs.
  - by injection Hs as <- <-.
  - destruct (stamp_events _ _ _ _ (S index) _ inputs) as [evs0 revs0] eqn:E.
    injection Hs as <- <-. apply IH in E. cbn [List.filter].
    change (on_stream id (stamp_event tx cursor uuid now index
              (default 0 (revs !! in_stream_id (te_event i)) + 1)%N i))
      with (on_input_stream id i).
    destruct (on_input_stream id i) eqn:Ei; unfold on_input_stream in Ei.
    + apply String.eqb_eq in Ei. rewrite Ei in *. rewrite lookup_insert_eq in E.
      rewrite imap_cons. cbn [fmap list_fmap]. f_equal.
      rewrite E. apply imap_ext. intros k x _. unfold input_core. cbn. do 4 f_equal. lia.
    + apply String.eqb_neq in Ei. by rewrite lookup_insert_ne in E.
Qed.

Lemma ephemeral_append_core r t st rcp st' :
  StoreInv st -> append_inner uuid now r t st = (Ok rcp, st') -> rcp_duplicate rcp = false ->
  forall id, event_core <$> list_stream st' id =
    (event_core <$> list_stream st id)
    ++ imap (input_core (rcp_commit_cursor rcp) (stream_revision st id))
         (List.filter (on_input_stream id) (rq_events r)).
Proof.
  intros Hinv Ha Hd id.
  destruct (append_inner_cases _ _ _ _ _ _ _ Ha)
    as [[_ Hdup]|(hash & rcp' & Hc & _ & Hexp & [= <-] & Hcf)].
  { destruct (Hdup rcp eq_refl). congruence. }
  apply append_checks_valid, validate_transaction_Ok in Hc as (_ & _ & Hnd & Hin).
  unfold commit_fresh in Hcf. destruct (stamp_events _ _ _ _ _ _ _) as [evs revs] eqn:Es.
  injection Hcf as <- <-. unfold list_stream at 1, matching. cbn [ep_events rcp_commit_cursor].
  rewrite List.filter_app, fmap_app. f_equal.
  change (List.filter (fun e => String.eqb (ev_stream_id e) id) evs)
    with (List.filter (on_stream id) evs).
  rewrite (stamp_events_core _ _ id _ _ _ _ _ Es).
  destruct (List.filter (on_input_stream id) (rq_events r)) as [|i l] eqn:Ef; [done|].
  assert (default 0%N (expected_revisions (rq_expected_streams r) !! id) = stream_revision st id)
    as ->; [|done].
  assert (i ∈ List.filter (on_input_stream id) (rq_events r)) as Hi by (rewrite Ef; left).
  apply elem_of_filterb in Hi as [Hi Hid%String.eqb_eq].
  apply Hin in Hi. rewrite Hid in Hi. apply list_elem_of_fmap in Hi as (s & -> & Hs).
  unfold expected_revisions. rewrite expected_revisions_lookup by done. cbn. symmetry. auto.
Qed.

Definition ephemeral_backend_laws : @EventBackendLaws Value (EphemeralState Value) ephemeral_backend.
Proof.
  refine {| eb_inv := StoreInv |}.
  - intros r t s res s' Hinv Ha. exact (append_inner_inv uuid now r t s res s' Hinv Ha).
  - intros r t s res s' Hinv Ha Hdup.
    destruct (append_inner_cases _ _ _ _ _ _ _ Ha)
      as [[-> _]|(hash & rcp & _ & _ & _ & -> & Hcf)]; [done|].
    specialize (Hdup rcp eq_refl). unfold commit_fresh in Hcf.
    destruct (stamp_events _ _ _ _ _ _ _). injection Hcf as <- _. done.
  - intros r t s rcp s' Hinv Ha Hd. split.
    + exact (proj1 (append_fresh_spec _ _ _ _ _ _ _ Hinv Ha Hd)).
    + exact (ephemeral_append_core r t s rcp s' Hinv Ha Hd).
  - intros s id Hinv. exact (stream_revision_length s id Hinv).
  - intros s id k e Hinv Hk. exact (store_sequence s id k e Hinv Hk).
Defined.
End Ephemeral.
