(* ===== verification/ApprovalJournal.v ===== *)
(** * Approvals in the event journal

    How approval facts are written to and read back from the event store
    ([runtime/src/approval/approval_queue.rs]): the events of a decision, the
    replay of one approval stream ([restore_approval_request]) and of the whole
    approval scope ([restore_approval_state]).

    [Journal] states what the approval code relies on about the store beyond
    [Backend]: one ordered journal behind the stream and scope reads, in which a
    transaction id is used once.  The in-process store satisfies it. *)

From S2P Require Import Prelude Facts Contract Validation Delta Ports EventStore.
From S2P Require Import Samples Backend Approval.

(** ** JSON of the approval contract *)

Class ApprovalJson (Value : Type) := {
  value_as_u64 : Value -> option N;
  value_bool : bool -> Value;
  request_to_value : ApprovalRequest -> Value;
  request_from_value : Value -> option ApprovalRequest;
  decision_to_value : ApprovalDecision -> Value;
  decision_from_value : Value -> option ApprovalDecision;
  grant_to_value : ApprovalGrant -> Value;
  grant_from_value : Value -> option ApprovalGrant;
  risk_to_value : TaskRisk -> Value;
  scope_to_value : ApprovalGrantScope -> Value;
  timeout_policy_to_value : ApprovalTimeoutPolicy -> Value;
  application_to_value : ApprovalApplicationSource -> Value
}.

(** The first member of an object literal with a key. *)
Definition field {Value} (k : string) (fields : list (string * Value)) : option Value :=
  snd <$> List.find (fun kv => String.eqb kv.1 k) fields.

(** Documented behaviour of [serde_json] relied on: an object literal with
    distinct keys has its members; the scalars and the derived serializers are
    inverted; a string is not a decision record. *)
Class ApprovalJsonLaws (Value : Type) `{Json Value} `{ApprovalJson Value} := {
  object_get : forall (fields : list (string * Value)) k,
    NoDup (fields.*1) -> value_get (value_object fields) k = field k fields;
  string_as_str : forall s, value_as_str (value_string s) = Some s;
  u64_as_u64 : forall n, value_as_u64 (value_u64 n) = Some n;
  request_roundtrip : forall r, request_from_value (request_to_value r) = Some r;
  decision_roundtrip : forall d, decision_from_value (decision_to_value d) = Some d;
  grant_roundtrip : forall g, grant_from_value (grant_to_value g) = Some g;
  decision_of_string : forall s, decision_from_value (value_string s) = None
}.

#[export] Instance sample_approval_json : ApprovalJson SampleValue :=
  {| value_as_u64 := fun v => match v with SvLeaf (LNum n) => Some n | _ => None end;
     value_bool := fun b => SvLeaf (LBool b);
     request_to_value := fun r => SvLeaf (LRequest r);
     request_from_value := fun v => match v with SvLeaf (LRequest r) => Some r | _ => None end;
     decision_to_value := fun d => SvLeaf (LDecision d);
     decision_from_value := fun v => match v with SvLeaf (LDecision d) => Some d | _ => None end;
     grant_to_value := fun g => SvLeaf (LGrant g);
     grant_from_value := fun v => match v with SvLeaf (LGrant g) => Some g | _ => None end;
     risk_to_value := fun r => SvLeaf (LRisk r);
     scope_to_value := fun s => SvLeaf (LScope s);
     timeout_policy_to_value := fun t => SvLeaf (LTimeout t);
     application_to_value := fun a => SvLeaf (LApplication a) |}.

#[export] Instance sample_approval_json_laws : ApprovalJsonLaws SampleValue.
Proof.
  split; try done. intros fields k _. unfold field. cbn.
  induction fields as [|[k' v] fields IH]; [done|]. cbn. rewrite (String.eqb_sym k k').
  by destruct (String.eqb k' k).
Qed.

(** ** The journal behind the store *)

(** What a reader of approval events sees of an event. *)
Definition event_view {Value} (e : DurableRuntimeEvent Value) :=
  (ev_stream_id e, ev_scope e, ev_kind e, ev_status e, ev_payload e, ev_idempotency_key e).

Definition input_view {Value} (i : RuntimeTransactionEventInput Value) :=
  (in_stream_id (te_event i), in_scope (te_event i), in_kind (te_event i),
   in_status (te_event i), in_payload (te_event i), te_idempotency_key i).

(** [RuntimeEventStore::replay_scope], [events_after_cursor] and the head of
    [subscribe_commits]. *)
Class ScopeReads (Value S : Type) := {
  sr_replay_scope : S -> RuntimeEventScope -> list (DurableRuntimeEvent Value);
  sr_events_after_cursor : S -> N -> nat -> list (N * list (DurableRuntimeEvent Value));
  sr_head_commit : S -> N
}.

Class Journal (Value S : Type) `{EventBackend Value S} `{ScopeReads Value S} := {
  jl_inv : S -> Prop;
  jl_journal : S -> list (DurableRuntimeEvent Value);
  jl_used : S -> string -> Prop;
  (** an append fails or repeats, and changes nothing, or commits a new
      transaction at the expected revisions *)
  jl_append : forall r t s res s',
    jl_inv s -> eb_append r t s = (res, s') ->
    (s' = s /\ forall rcp, res = Ok rcp -> jl_used s (rq_transaction_id r)) \/
    (exists rcp evs, res = Ok rcp /\ jl_inv s' /\ ~ jl_used s (rq_transaction_id r) /\
       (forall x, jl_used s' x <-> x = rq_transaction_id r \/ jl_used s x) /\
       (forall x, x ∈ rq_expected_streams r ->
          eb_stream_revision s (es_stream_id x) = es_expected_revision x) /\
       jl_journal s' = jl_journal s ++ evs /\
       event_view <$> evs = input_view <$> rq_events r);
  jl_stream : forall s id, jl_inv s ->
    eb_list_stream s id = List.filter (on_stream id) (jl_journal s);
  jl_revision : forall s id, jl_inv s ->
    eb_stream_revision s id = N.of_nat (length (eb_list_stream s id));
  jl_by_key : forall s id key, jl_inv s ->
    eb_event_by_key s id key
      = head (List.filter (fun e => bool_decide (ev_idempotency_key e = Some key))
                (eb_list_stream s id));
  jl_scope : forall s scope, jl_inv s ->
    sr_replay_scope s scope
      = List.filter (fun e => bool_decide (ev_scope e = scope)) (jl_journal s);
  jl_sorted : forall s, jl_inv s -> StronglySorted N.le (ev_commit_cursor <$> jl_journal s);
  (** the commits after a cursor, whole and in order *)
  jl_after : forall s c, jl_inv s -> exists batches,
    (forall n, sr_events_after_cursor s c n = take n batches) /\
    concat (snd <$> batches) = List.filter (fun e => (c <? ev_commit_cursor e)%N) (jl_journal s) /\
    StronglySorted N.lt (fst <$> batches) /\
    forall b, b ∈ batches -> b.2 <> [] /\ forall e, e ∈ b.2 -> ev_commit_cursor e = b.1
}.

(** *** Grouping a sorted list by a key *)

Lemma partition_least {A} (f : A -> N) c l :
  StronglySorted N.le (f <$> l) -> (forall x, x ∈ l -> (c <= f x)%N) ->
  l = List.filter (fun x => (f x =? c)%N) l ++ List.filter (fun x => (c <? f x)%N) l.
Proof.
  induction l as [|x l IH]; intros Hs Hle; [done|]. cbn [List.filter].
  rewrite fmap_cons in Hs. apply StronglySorted_inv in Hs as [Hs Hall].
  assert (c <= f x)%N as Hx by (apply Hle; left).
  destruct (N.eqb_spec (f x) c) as [He|Hne].
  - rewrite (proj2 (N.ltb_ge c (f x))) by lia. cbn. f_equal. apply IH; [done|].
    intros y Hy. apply Hle. by right.
  - rewrite (proj2 (N.ltb_lt c (f x))) by lia.
    assert (forall y, y ∈ l -> (c < f y)%N) as Hlt.
    { intros y Hy. rewrite Forall_forall in Hall.
      specialize (Hall (f y) ltac:(by apply list_elem_of_fmap_2)). lia. }
    rewrite filterb_none, filterb_all; [done| |].
    + intros y Hy. apply N.ltb_lt. auto.
    + intros y Hy. apply N.eqb_neq. specialize (Hlt y Hy). lia.
Qed.

Lemma concat_groups {A} (f : A -> N) (cs : list N) : forall l,
  StronglySorted N.lt cs -> StronglySorted N.le (f <$> l) -> (forall x, x ∈ l -> f x ∈ cs) ->
  concat ((fun c => List.filter (fun x => (f x =? c)%N) l) <$> cs) = l.
Proof.
  induction cs as [|c cs IH]; intros l Hcs Hs Hin.
  { destruct l as [|x l]; [done|]. pose proof (Hin x ltac:(left)) as Hx.
    by apply not_elem_of_nil in Hx. }
  apply StronglySorted_inv in Hcs as [Hcs Hall]. rewrite Forall_forall in Hall.
  assert (forall x, x ∈ l -> (c <= f x)%N) as Hle.
  { intros x Hx. apply Hin, elem_of_cons in Hx as [->|Hx]; [lia|]. apply Hall in Hx. lia. }
  rewrite fmap_cons. cbn [concat]. etrans; [|symmetry; apply (partition_least f c l Hs Hle)].
  f_equal. rewrite <- (IH (List.filter (fun x => (c <? f x)%N) l)).
  - f_equal. apply list_fmap_ext. intros i c' Hc'. apply list_elem_of_lookup_2, Hall in Hc'.
    rewrite filterb_filterb. apply filterb_ext. intros x _.
    destruct (N.eqb_spec (f x) c') as [Hx|Hx].
    + rewrite Hx. by rewrite (proj2 (N.ltb_lt c c')).
    + by rewrite andb_false_r.
  - done.
  - pose proof (partition_least f c l Hs Hle) as Hp. rewrite Hp, fmap_app in Hs.
    revert Hs. generalize (f <$> List.filter (fun x => (f x =? c)%N) l).
    induction l0 as [|y l0 IHl]; [done|]. intros Hs. apply IHl.
    cbn in Hs. apply StronglySorted_inv in Hs as [Hs' _]. exact Hs'.
  - intros x [Hx Hlt%N.ltb_lt]%elem_of_filterb. apply Hin, elem_of_cons in Hx as [Hx|Hx]; [lia|done].
Qed.

Lemma remove_dups_sorted l : StronglySorted N.le l -> StronglySorted N.lt (remove_dups l).
Proof.
  induction l as [|x l IH]; intros Hs; cbn; [constructor|].
  apply StronglySorted_inv in Hs as [Hs Hall]. case_decide as Hin; [auto|].
  constructor; [auto|]. rewrite Forall_forall in *. intros y Hy.
  specialize (Hall y (proj1 (elem_of_remove_dups _ _) Hy)). 
  assert (x <> y) by (intros ->; by apply Hin, elem_of_remove_dups). lia.
Qed.

(** ** The in-process store is a journal *)

Section EphemeralJournal.
Context {Value : Type} `{EqDecision Value} `{Json Value} `{Digest Value}.
Context (uuid : nat -> string) (now : nat -> N).

Definition SCOPE_REPLAY_PAGE_SIZE : nat := 1024.

Definition exec_default {A} (a : A) (e : Exec A) : A :=
  match e with Done x => x | _ => a end.

Definition ephemeral_reads : ScopeReads Value (EphemeralState Value) :=
  {| sr_replay_scope := fun st scope =>
       exec_default [] (replay_scope (Datatypes.S (length (ep_events st)))
                          SCOPE_REPLAY_PAGE_SIZE st scope None []);
     sr_events_after_cursor := events_after_cursor;
     sr_head_commit := ep_next_cursor |}.

Lemma stamp_events_view tx cursor (inputs : list (RuntimeTransactionEventInput Value)) :
  forall index revs evs revs',
  stamp_events tx cursor uuid now index revs inputs = (evs, revs') ->
  event_view <$> evs = input_view <$> inputs.
Proof.
  induction inputs as [|i inputs IH]; intros index revs evs revs' Hs; cbn in Hs.
  - by injection Hs as <- <-.
  - destruct (stamp_events _ _ _ _ (Datatypes.S index) _ inputs) as [evs0 revs0] eqn:E.
    injection Hs as <- <-. rewrite !fmap_cons. f_equal. by eapply IH.
Qed.

Lemma ephemeral_append_cases r t (st : EphemeralState Value) res st' :
  StoreInv st -> append_inner uuid now r t st = (res, st') ->
  (st' = st /\ forall rcp, res = Ok rcp -> is_Some (ep_transactions st !! rq_transaction_id r)) \/
  (exists rcp evs, res = Ok rcp /\ StoreInv st' /\
     ~ is_Some (ep_transactions st !! rq_transaction_id r) /\
     (forall x, is_Some (ep_transactions st' !! x)
        <-> x = rq_transaction_id r \/ is_Some (ep_transactions st !! x)) /\
     (forall x, x ∈ rq_expected_streams r ->
        stream_revision st (es_stream_id x) = es_expected_revision x) /\
     ep_events st' = ep_events st ++ evs /\ event_view <$> evs = input_view <$> rq_events r).
Proof.
  intros Hinv Ha.
  destruct (append_inner_cases _ _ _ _ _ _ _ Ha)
    as [[-> Hdup]|(hash & rcp & _ & Hnone & Hexp & -> & Hcf)].
  - left. split; [done|]. intros rcp Hr. destruct (Hdup rcp Hr) as (_ & rcp0 & Ht & _).
    by exists rcp0.
  - right. pose proof (append_inner_inv _ _ _ _ _ _ _ Hinv Ha) as Hinv'.
    unfold commit_fresh in Hcf. destruct (stamp_events _ _ _ _ _ _ _) as [evs revs] eqn:Es.
    injection Hcf as <- <-. eexists _, evs. split_and!; try done.
    + rewrite Hnone. by intros [? [=]].
    + intros x. cbn [ep_transactions]. rewrite lookup_insert_is_Some'.
      split; intros [?|?]; auto.
    + by eapply stamp_events_view.
Qed.

Lemma ephemeral_replay_scope (st : EphemeralState Value) scope :
  StoreInv st ->
  exec_default [] (replay_scope (Datatypes.S (length (ep_events st)))
                     SCOPE_REPLAY_PAGE_SIZE st scope None []) = scope_events st scope.
Proof.
  intros Hinv.
  rewrite (replay_scope_from _ _ st scope [] (scope_events st scope));
    [done | apply (si_sorted st Hinv) | unfold SCOPE_REPLAY_PAGE_SIZE; lia | done |].
  unfold scope_events, matching.
  pose proof (List.filter_length_le (fun e => bool_decide (ev_scope e = scope)) (ep_events st)).
  lia.
Qed.

Lemma ephemeral_cursors_sorted (st : EphemeralState Value) :
  StoreInv st -> StronglySorted N.le (ev_commit_cursor <$> ep_events st).
Proof.
  intros Hinv. pose proof (si_sorted st Hinv) as Hs. revert Hs.
  generalize (ep_events st). induction l as [|e l IH]; intros Hs; [constructor|].
  rewrite fmap_cons in *. apply StronglySorted_inv in Hs as [Hs Hall]. constructor; [auto|].
  apply Forall_forall. intros c (x & -> & Hx)%list_elem_of_fmap.
  pose proof (proj1 (Forall_forall _ _) Hall (position x)
                (list_elem_of_fmap_2 position l x Hx)) as Hp.
  clear Hall. rename Hp into Hall. apply pos_lt_spec in Hall. unfold position in Hall. cbn in Hall. lia.
Qed.

Lemma filter_fmap_sorted {A} (f : A -> N) (g : A -> bool) l :
  StronglySorted N.le (f <$> l) -> StronglySorted N.le (f <$> List.filter g l).
Proof.
  induction l as [|x l IH]; intros Hs; [constructor|]. rewrite fmap_cons in Hs.
  apply StronglySorted_inv in Hs as [Hs Hall]. cbn. destruct (g x); [|auto].
  rewrite fmap_cons. constructor; [auto|]. rewrite Forall_forall in *.
  intros c (y & -> & [Hy _]%elem_of_filterb)%list_elem_of_fmap.
  apply Hall. by apply list_elem_of_fmap_2.
Qed.

Lemma ephemeral_after (st : EphemeralState Value) c :
  StoreInv st -> exists batches,
    (forall n, events_after_cursor st c n = take n batches) /\
    concat (snd <$> batches)
      = List.filter (fun e => (c <? ev_commit_cursor e)%N) (ep_events st) /\
    StronglySorted N.lt (fst <$> batches) /\
    forall b, b ∈ batches -> b.2 <> [] /\ forall e, e ∈ b.2 -> ev_commit_cursor e = b.1.
Proof.
  intros Hinv. set (later := matching st (fun e => (c <? ev_commit_cursor e)%N)).
  set (cursors := remove_dups (merge_sort N.le (ev_commit_cursor <$> later))).
  exists ((fun x => (x, List.filter (fun e => (ev_commit_cursor e =? x)%N) later)) <$> cursors).
  split; [done|]. split; [|split].
  - rewrite <- list_fmap_compose. apply (concat_groups ev_commit_cursor cursors later).
    + apply remove_dups_sorted, StronglySorted_merge_sort; typeclasses eauto.
    + apply filter_fmap_sorted. by apply ephemeral_cursors_sorted.
    + intros x Hx. apply elem_of_remove_dups. rewrite merge_sort_Permutation.
      by apply list_elem_of_fmap_2.
  - rewrite <- list_fmap_compose. change (StronglySorted N.lt (id <$> cursors)).
    rewrite list_fmap_id.
    apply remove_dups_sorted, StronglySorted_merge_sort; typeclasses eauto.
  - intros b (x & -> & Hx)%list_elem_of_fmap. cbn. split.
    + apply (proj1 (elem_of_remove_dups _ _)) in Hx. rewrite merge_sort_Permutation in Hx.
      apply list_elem_of_fmap in Hx as (e & -> & He). intros Hnil.
      assert (e ∈ List.filter (fun y => (ev_commit_cursor y =? ev_commit_cursor e)%N) later) as Hin
        by (apply elem_of_filterb; split; [done | apply N.eqb_refl]).
      rewrite Hnil in Hin. by apply not_elem_of_nil in Hin.
    + by intros e [_ He%N.eqb_eq]%elem_of_filterb.
Qed.

Definition ephemeral_journal :
  @Journal Value (EphemeralState Value) (ephemeral_backend uuid now) ephemeral_reads.
Proof.
  refine (@Build_Journal Value (EphemeralState Value) (ephemeral_backend uuid now)
            ephemeral_reads StoreInv ep_events
            (fun s x => is_Some (ep_transactions s !! x)) _ _ _ _ _ _ _).
  - exact ephemeral_append_cases.
  - done.
  - intros s id Hinv. exact (stream_revision_length s id Hinv).
  - intros s id key Hinv. cbn. unfold event_by_idempotency_key, list_stream, matching.
    f_equal. rewrite filterb_filterb. by apply filterb_ext.
  - intros s scope Hinv. exact (ephemeral_replay_scope s scope Hinv).
  - exact ephemeral_cursors_sorted.
  - exact ephemeral_after.
Defined.
End EphemeralJournal.

(** ** Replay *)

Definition approval_stream (id : string) : string := "approval:" +:+ id.

Definition is_resolution_kind (kind : string) : bool :=
  memb ["approval.decided"; "approval.decided.application"; "approval.timed_out";
        "approval.cancelled"; "approval.superseded"]%string kind.

Definition with_resolution (r : ApprovalRequest) (status : ApprovalStatus)
    (decision : option ApprovalDecision) (resolved_at_ms : option N) : ApprovalRequest :=
  {| aq_approval_id := aq_approval_id r; aq_source := aq_source r; aq_context := aq_context r;
     aq_action := aq_action r; aq_summary := aq_summary r; aq_risk := aq_risk r;
     aq_domain := aq_domain r; aq_blocks_execution := aq_blocks_execution r;
     aq_skippable := aq_skippable r; aq_allowed_scopes := aq_allowed_scopes r;
     aq_evidence_refs := aq_evidence_refs r; aq_timeout_policy := aq_timeout_policy r;
     aq_status := status; aq_decision := decision; aq_created_at_ms := aq_created_at_ms r;
     aq_expires_at_ms := aq_expires_at_ms r; aq_resolved_at_ms := resolved_at_ms |}.

Definition with_grant_status (g : ApprovalGrant) (status : ApprovalGrantStatus)
    (expires_at_ms revoked_at_ms : option N) (revoke_reason : option string) : ApprovalGrant :=
  {| gt_grant_id := gt_grant_id g; gt_approval_id := gt_approval_id g; gt_scope := gt_scope g;
     gt_principal_id := gt_principal_id g; gt_profile_id := gt_profile_id g;
     gt_workspace_key := gt_workspace_key g; gt_capability := gt_capability g;
     gt_session_id := gt_session_id g; gt_turn_id := gt_turn_id g; gt_task_id := gt_task_id g;
     gt_invocation_id := gt_invocation_id g; gt_resource_targets := gt_resource_targets g;
     gt_effect_descriptor_hash := gt_effect_descriptor_hash g;
     gt_risk_ceiling := gt_risk_ceiling g; gt_policy_revision := gt_policy_revision g;
     gt_status := status; gt_issued_by := gt_issued_by g;
     gt_created_at_ms := gt_created_at_ms g; gt_expires_at_ms := expires_at_ms;
     gt_revoked_at_ms := revoked_at_ms; gt_revoke_reason := revoke_reason |}.

Section Replay.
Context {Value : Type} `{Json Value} `{ApprovalJson Value}.

Abbreviation Event := (DurableRuntimeEvent Value).

Definition payload_request (payload : Value) : option ApprovalRequest :=
  value_get payload "request" ≫= request_from_value.

Definition payload_decision (payload : Value) : option ApprovalDecision :=
  match value_get payload "decision" with
  | Some d => Some d
  | None => value_get payload "decision_record"
  end ≫= decision_from_value.

Definition payload_grant (payload : Value) : option ApprovalGrant :=
  value_get payload "grant" ≫= grant_from_value.

Definition payload_grant_id (payload : Value) : option string :=
  value_get payload "grant_id" ≫= value_as_str.

(** [payload.get(key).and_then(as_u64).or(Some(event.created_at_ms))] *)
Definition payload_time (e : Event) (key : string) : option N :=
  match value_get (ev_payload e) key ≫= value_as_u64 with
  | Some n => Some n
  | None => Some (ev_created_at_ms e)
  end.

Definition resolve_request (e : Event) (r : ApprovalRequest) : ApprovalRequest :=
  let status := status_of_event (ev_status e) (aq_status r) in
  with_resolution r status (payload_decision (ev_payload e))
    (if decide (status = StPending) then None else payload_time e "resolved_at_ms").

Definition close_grant (e : Event) (g : ApprovalGrant) : ApprovalGrant :=
  if String.eqb (ev_kind e) "approval.grant_revoked"
  then with_grant_status g AgRevoked (gt_expires_at_ms g) (payload_time e "revoked_at_ms")
         (value_get (ev_payload e) "reason" ≫= value_as_str)
  else with_grant_status g AgExpired (payload_time e "consumed_at_ms") (gt_revoked_at_ms g)
         (gt_revoke_reason g).

(** [apply_approval_event] *)
Definition apply_approval_event
    (state : gmap string ApprovalRequest * gmap string ApprovalGrant) (e : Event) :
  gmap string ApprovalRequest * gmap string ApprovalGrant :=
  let '(requests, grants) := state in
  if String.eqb (ev_kind e) "approval.submitted" then
    match payload_request (ev_payload e) with
    | Some request => (<[aq_approval_id request := request]> requests, grants)
    | None => (requests, grants)
    end
  else if is_resolution_kind (ev_kind e) then
    match strip_prefix (ev_stream_id e) "approval:" with
    | None => (requests, grants)
    | Some approval_id =>
        match requests !! approval_id with
        | None => (requests, grants)
        | Some request => (<[approval_id := resolve_request e request]> requests, grants)
        end
    end
  else if String.eqb (ev_kind e) "approval.grant_issued" then
    match payload_grant (ev_payload e) with
    | Some grant => (requests, <[gt_grant_id grant := grant]> grants)
    | None => (requests, grants)
    end
  else if String.eqb (ev_kind e) "approval.grant_revoked"
          || String.eqb (ev_kind e) "approval.grant_consumed" then
    match payload_grant_id (ev_payload e) with
    | None => (requests, grants)
    | Some grant_id =>
        match grants !! grant_id with
        | None => (requests, grants)
        | Some grant => (requests, <[grant_id := close_grant e grant]> grants)
        end
    end
  else (requests, grants).

(** The loop body of [restore_approval_request]. *)
Definition restore_event (request : option ApprovalRequest) (e : Event) :
  option ApprovalRequest :=
  if String.eqb (ev_kind e) "approval.submitted" then payload_request (ev_payload e)
  else if is_resolution_kind (ev_kind e) then resolve_request e <$> request
  else request.

Context {S : Type} `{EventBackend Value S} `{ScopeReads Value S}.

(** [restore_approval_state] *)
Definition restore_approval_state (s : S) :
  gmap string ApprovalRequest * gmap string ApprovalGrant :=
  fold_left apply_approval_event (sr_replay_scope s ScApproval) (∅, ∅).

(** [restore_approval_request] *)
Definition restore_approval_request (s : S) (approval_id : string) : option ApprovalRequest :=
  fold_left restore_event (eb_list_stream s (approval_stream approval_id)) None.

(** ** What the approval writers keep *)

Definition approval_grant_id (approval_id : string) : string := "approval-grant:" +:+ approval_id.

(** The events of the approval scope are exactly those of the approval
    streams; a submission, a grant and the end of a grant name the approval of
    their stream. *)
Record Disciplined (stream : string) (scope : RuntimeEventScope) (kind : string)
    (payload : Value) : Prop := {
  di_scope : scope = ScApproval <-> exists id, stream = approval_stream id;
  di_request : scope = ScApproval -> kind = "approval.submitted"%string ->
    exists r, payload_request payload = Some r /\ stream = approval_stream (aq_approval_id r);
  di_grant : scope = ScApproval -> kind = "approval.grant_issued"%string ->
    exists g, payload_grant payload = Some g /\ stream = approval_stream (gt_approval_id g) /\
      gt_grant_id g = approval_grant_id (gt_approval_id g);
  di_close : scope = ScApproval ->
    kind = "approval.grant_revoked"%string \/ kind = "approval.grant_consumed"%string ->
    exists id, payload_grant_id payload = Some (approval_grant_id id) /\
      stream = approval_stream id
}.

Definition disciplined_event (e : Event) : Prop :=
  Disciplined (ev_stream_id e) (ev_scope e) (ev_kind e) (ev_payload e).

Definition disciplined_input (i : RuntimeTransactionEventInput Value) : Prop :=
  Disciplined (in_stream_id (te_event i)) (in_scope (te_event i)) (in_kind (te_event i))
    (in_payload (te_event i)).

(** The state of one approval, read off its stream. *)
Definition grant_event (grant : option ApprovalGrant) (e : Event) : option ApprovalGrant :=
  if String.eqb (ev_kind e) "approval.submitted" || is_resolution_kind (ev_kind e) then grant
  else if String.eqb (ev_kind e) "approval.grant_issued" then payload_grant (ev_payload e)
  else if String.eqb (ev_kind e) "approval.grant_revoked"
          || String.eqb (ev_kind e) "approval.grant_consumed"
  then close_grant e <$> grant else grant.

Definition approval_state (s : S) (id : string) : option ApprovalRequest * option ApprovalGrant :=
  (restore_approval_request s id,
   fold_left grant_event (eb_list_stream s (approval_stream id)) None).
End Replay.

(** ** The two replays agree *)

Section Agreement.
Context {Value S : Type} `{Json Value} `{ApprovalJson Value}
  `{EventBackend Value S} `{ScopeReads Value S} `{!Journal Value S}.

Abbreviation Event := (DurableRuntimeEvent Value).

Lemma approval_stream_inj a b : approval_stream a = approval_stream b -> a = b.
Proof. unfold approval_stream. intros Hab. by injection Hab. Qed.

Lemma approval_grant_id_inj a b : approval_grant_id a = approval_grant_id b -> a = b.
Proof. unfold approval_grant_id. intros Hab. by injection Hab. Qed.

Lemma strip_approval_stream id : strip_prefix (approval_stream id) "approval:" = Some id.
Proof. by apply strip_prefix_Some. Qed.

Definition in_scope_approval (e : Event) : bool := bool_decide (ev_scope e = ScApproval).

(** One event changes the entry of its own approval only, and the way the
    stream replay says. *)
Lemma apply_own_entry state (e : Event) id :
  disciplined_event e -> ev_scope e = ScApproval -> ev_stream_id e = approval_stream id ->
  (apply_approval_event state e).1 !! id = restore_event (state.1 !! id) e /\
  (apply_approval_event state e).2 !! approval_grant_id id
    = grant_event (state.2 !! approval_grant_id id) e.
Proof.
  intros [Hs Hr Hg Hc] Hsc Hid. destruct state as [reqs grants].
  unfold apply_approval_event, restore_event, grant_event.
  destruct (String.eqb_spec (ev_kind e) "approval.submitted") as [Hk|Hk]; cbn [orb].
  { destruct (Hr Hsc Hk) as (r & -> & Hst). rewrite Hid in Hst.
    apply approval_stream_inj in Hst as ->. cbn. by rewrite lookup_insert_eq. }
  destruct (is_resolution_kind (ev_kind e)).
  { rewrite Hid, strip_approval_stream. destruct (reqs !! id) as [r|] eqn:Er; cbn;
      rewrite ?lookup_insert_eq, ?Er; done. }
  destruct (String.eqb_spec (ev_kind e) "approval.grant_issued") as [Hk'|Hk'].
  { destruct (Hg Hsc Hk') as (g & -> & Hst & Hgid). rewrite Hid in Hst.
    apply approval_stream_inj in Hst as ->. cbn. by rewrite Hgid, lookup_insert_eq. }
  destruct (String.eqb (ev_kind e) "approval.grant_revoked"
            || String.eqb (ev_kind e) "approval.grant_consumed") eqn:Hk''; [|done].
  destruct Hc as (id' & -> & Hst); [done | |].
  { apply orb_true_iff in Hk'' as [?%String.eqb_eq|?%String.eqb_eq]; auto. }
  rewrite Hid in Hst. apply approval_stream_inj in Hst as ->.
  destruct (grants !! approval_grant_id id') as [g|] eqn:Eg; cbn;
    rewrite ?lookup_insert_eq, ?Eg; done.
Qed.

Lemma apply_other_entry state (e : Event) id :
  disciplined_event e -> ev_scope e = ScApproval -> ev_stream_id e <> approval_stream id ->
  (apply_approval_event state e).1 !! id = state.1 !! id /\
  (apply_approval_event state e).2 !! approval_grant_id id = state.2 !! approval_grant_id id.
Proof.
  intros [Hs Hr Hg Hc] Hsc Hid. destruct state as [reqs grants]. unfold apply_approval_event.
  destruct (String.eqb_spec (ev_kind e) "approval.submitted") as [Hk|Hk].
  { destruct (Hr Hsc Hk) as (r & -> & Hst). cbn. rewrite lookup_insert_ne; [done|congruence]. }
  destruct (is_resolution_kind (ev_kind e)).
  { destruct (strip_prefix _ _) as [i|] eqn:Ei; [|done]. apply strip_prefix_Some in Ei.
    destruct (reqs !! i); [|done]. cbn. rewrite lookup_insert_ne; [done|].
    intros ->. by rewrite Ei in Hid. }
  destruct (String.eqb_spec (ev_kind e) "approval.grant_issued") as [Hk'|Hk'].
  { destruct (Hg Hsc Hk') as (g & -> & Hst & Hgid). cbn. rewrite lookup_insert_ne; [done|].
    rewrite Hgid. intros ?%approval_grant_id_inj. congruence. }
  destruct (String.eqb (ev_kind e) "approval.grant_revoked"
            || String.eqb (ev_kind e) "approval.grant_consumed") eqn:Hk''; [|done].
  destruct Hc as (id' & -> & Hst); [done | |].
  { apply orb_true_iff in Hk'' as [?%String.eqb_eq|?%String.eqb_eq]; auto. }
  destruct (grants !! approval_grant_id id'); [|done]. cbn. rewrite lookup_insert_ne; [done|].
  intros ?%approval_grant_id_inj. congruence.
Qed.

Lemma fold_apply_entry id (l : list Event) : forall state,
  (forall e, e ∈ l -> disciplined_event e) ->
  (fold_left apply_approval_event (List.filter in_scope_approval l) state).1 !! id
    = fold_left restore_event (List.filter (on_stream (approval_stream id)) l) (state.1 !! id) /\
  (fold_left apply_approval_event (List.filter in_scope_approval l) state).2 !! approval_grant_id id
    = fold_left grant_event (List.filter (on_stream (approval_stream id)) l)
        (state.2 !! approval_grant_id id).
Proof.
  induction l as [|e l IH]; intros state Hd; [done|].
  assert (Hde : disciplined_event e) by (apply Hd; left).
  assert (Hl : forall x, x ∈ l -> disciplined_event x) by (intros; apply Hd; by right).
  cbn [List.filter].
  assert (on_stream (approval_stream id) e
          = bool_decide (ev_stream_id e = approval_stream id)) as Hon.
  { unfold on_stream. case_bool_decide as Hb; [by apply String.eqb_eq | by apply String.eqb_neq]. }
  rewrite Hon. destruct (decide (ev_stream_id e = approval_stream id)) as [Hid|Hid].
  - assert (in_scope_approval e = true) as ->.
    { apply bool_decide_eq_true, (di_scope _ _ _ _ Hde). eauto. }
    rewrite bool_decide_true by done. cbn [fold_left].
    destruct (apply_own_entry state e id Hde) as [<- <-]; [|done|by apply IH].
    apply (di_scope _ _ _ _ Hde). eauto.
  - rewrite bool_decide_false by done. destruct (in_scope_approval e) eqn:Hsc; [|by apply IH].
    apply bool_decide_eq_true in Hsc. cbn [fold_left].
    destruct (apply_other_entry state e id Hde Hsc Hid) as [<- <-]. by apply IH.
Qed.

Definition disciplined_store (s : S) : Prop :=
  jl_inv s /\ forall e, e ∈ jl_journal s -> disciplined_event e.

Lemma restore_state_lookup s id :
  disciplined_store s ->
  ((restore_approval_state s).1 !! id, (restore_approval_state s).2 !! approval_grant_id id)
    = approval_state s id.
Proof.
  intros [Hinv Hd]. unfold restore_approval_state, approval_state, restore_approval_request.
  rewrite (jl_scope s _ Hinv), (jl_stream s _ Hinv).
  destruct (fold_apply_entry id (jl_journal s) (∅, ∅) Hd) as [Hr Hg].
  cbn [fst snd] in Hr, Hg. rewrite lookup_empty in Hr. rewrite lookup_empty in Hg.
  unfold in_scope_approval in Hr, Hg. by rewrite Hr, Hg.
Qed.

(** Every replayed grant is kept under the name of its approval. *)
Definition grants_keyed (m : gmap string ApprovalGrant) : Prop :=
  forall gid g, m !! gid = Some g -> gid = approval_grant_id (gt_approval_id g).

Lemma close_grant_approval (e : Event) g : gt_approval_id (close_grant e g) = gt_approval_id g.
Proof. unfold close_grant. by case_match. Qed.

Lemma apply_grants_keyed state (e : Event) :
  disciplined_event e -> ev_scope e = ScApproval -> grants_keyed state.2 ->
  grants_keyed (apply_approval_event state e).2.
Proof.
  intros [_ _ Hg Hc] Hsc Hk. destruct state as [reqs grants]. unfold apply_approval_event.
  destruct (String.eqb (ev_kind e) "approval.submitted"); [by case_match|].
  destruct (is_resolution_kind (ev_kind e)); [by repeat case_match|].
  destruct (String.eqb_spec (ev_kind e) "approval.grant_issued") as [Hk'|_].
  { destruct (Hg Hsc Hk') as (g & -> & _ & Hgid). intros gid g'. cbn.
    rewrite lookup_insert_Some. intros [[<- <-]|[_ Hl]]; [done | by apply Hk]. }
  case_match; [|done]. destruct (payload_grant_id _) as [gid0|]; [|done].
  destruct (grants !! gid0) as [g0|] eqn:E0; [|done]. intros gid g'. cbn.
  rewrite lookup_insert_Some. intros [[<- <-]|[_ Hl]]; [|by apply Hk].
  rewrite close_grant_approval. by apply Hk.
Qed.

Lemma restore_grants_keyed s : disciplined_store s -> grants_keyed (restore_approval_state s).2.
Proof.
  intros [Hinv Hd]. unfold restore_approval_state. rewrite (jl_scope s _ Hinv).
  assert (forall l state, (forall e, e ∈ l -> disciplined_event e /\ ev_scope e = ScApproval) ->
            grants_keyed state.2 -> grants_keyed (fold_left apply_approval_event l state).2) as Hf.
  { induction l as [|e l IH]; intros state Hl Hk; cbn; [done|].
    apply IH; [intros; apply Hl; by right|].
    destruct (Hl e) as [? ?]; [left|]. by apply apply_grants_keyed. }
  apply Hf; [|by intros ? ? [=]].
  intros e [He Hs%bool_decide_eq_true]%elem_of_filterb. auto.
Qed.
End Agreement.
