(* ===== verification/ApprovalQueue.v ===== *)
(** * The approval queue

    [runtime/src/approval/approval_queue.rs].  The queue is a cache over the
    approval streams; every decision reads the durable state, appends with the
    revision it read, and then updates the cache.  An operation is written as a
    plan over the store it reads followed by at most one append ([perform]), so
    that [ApprovalLifecycle] can let other writers run in between.

    [clk 0], [clk 1], ... are the successive readings of [now_ms]. *)

From S2P Require Import Prelude Facts Contract Validation Delta Ports EventStore.
From S2P Require Import Samples Backend Approval ApprovalJournal.

Record ApprovalRequestIndexes := {
  ix_by_session : gmap string (gset string);
  ix_by_agent : gmap string (gset string);
  ix_by_team : gmap string (gset string)
}.

Record ApprovalQueue := {
  q_requests : gmap string ApprovalRequest;
  q_indexes : ApprovalRequestIndexes;
  q_grants : gmap string ApprovalGrant;
  q_deadlines : gmap N (gset string);
  q_last_refresh_commit : N
}.

Definition with_requests (q : ApprovalQueue) requests : ApprovalQueue :=
  {| q_requests := requests; q_indexes := q_indexes q; q_grants := q_grants q;
     q_deadlines := q_deadlines q; q_last_refresh_commit := q_last_refresh_commit q |}.
Definition with_indexes (q : ApprovalQueue) indexes : ApprovalQueue :=
  {| q_requests := q_requests q; q_indexes := indexes; q_grants := q_grants q;
     q_deadlines := q_deadlines q; q_last_refresh_commit := q_last_refresh_commit q |}.
Definition with_grants (q : ApprovalQueue) grants : ApprovalQueue :=
  {| q_requests := q_requests q; q_indexes := q_indexes q; q_grants := grants;
     q_deadlines := q_deadlines q; q_last_refresh_commit := q_last_refresh_commit q |}.
Definition with_deadlines (q : ApprovalQueue) deadlines : ApprovalQueue :=
  {| q_requests := q_requests q; q_indexes := q_indexes q; q_grants := q_grants q;
     q_deadlines := deadlines; q_last_refresh_commit := q_last_refresh_commit q |}.

Definition put_request (id : string) (r : ApprovalRequest) (q : ApprovalQueue) : ApprovalQueue :=
  with_requests q (<[id := r]> (q_requests q)).
Definition drop_request (id : string) (q : ApprovalQueue) : ApprovalQueue :=
  with_requests q (delete id (q_requests q)).
Definition put_grant (g : ApprovalGrant) (q : ApprovalQueue) : ApprovalQueue :=
  with_grants q (<[gt_grant_id g := g]> (q_grants q)).
Definition drop_grant (id : string) (q : ApprovalQueue) : ApprovalQueue :=
  with_grants q (delete id (q_grants q)).

(** ** Indexes and deadlines *)

(** [entry(key).or_default().insert(id)] *)
Definition entry_insert {K} `{Countable K} (key : K) (id : string) (m : gmap K (gset string)) :
  gmap K (gset string) := <[key := {[id]} ∪ default ∅ (m !! key)]> m.

Definition entry_insert_opt (key : option string) (id : string) (m : gmap string (gset string)) :
  gmap string (gset string) :=
  match key with Some k => entry_insert k id m | None => m end.

(** [index_approval_request] *)
Definition index_approval_request (ix : ApprovalRequestIndexes) (id : string)
    (r : ApprovalRequest) : ApprovalRequestIndexes :=
  {| ix_by_session := entry_insert_opt (as_session_id (aq_source r)) id (ix_by_session ix);
     ix_by_agent := entry_insert_opt (as_agent_id (aq_source r)) id (ix_by_agent ix);
     ix_by_team := entry_insert_opt (as_team_id (aq_source r)) id (ix_by_team ix) |}.

(** [approval_request_indexes] *)
Definition approval_request_indexes (requests : gmap string ApprovalRequest) :
  ApprovalRequestIndexes :=
  fold_left (fun ix kv => index_approval_request ix kv.1 kv.2) (btree_entries requests)
    {| ix_by_session := ∅; ix_by_agent := ∅; ix_by_team := ∅ |}.

(** The deadline [approval_deadline_index] gives a request. *)
Definition request_deadline (r : ApprovalRequest) : option N :=
  match aq_expires_at_ms r with
  | Some e => Some e
  | None => if negb (aq_blocks_execution r)
            then Some (u64_saturating_add (aq_created_at_ms r)
                         (nonblocking_approval_ttl_ms (aq_risk r)))
            else None
  end.

(** [approval_deadline_index] *)
Definition approval_deadline_index (requests : gmap string ApprovalRequest) :
  gmap N (gset string) :=
  fold_left (fun m kv =>
               if decide (aq_status kv.2 = StPending) then
                 match request_deadline kv.2 with
                 | Some d => entry_insert d kv.1 m
                 | None => m
                 end
               else m)
    (btree_entries requests) ∅.

(** [remove_active_deadline] *)
Definition remove_active_deadline (id : string) (q : ApprovalQueue) : ApprovalQueue :=
  with_deadlines q
    (omap (fun ids : gset string => let ids' := ids ∖ {[id]} in
                       if decide (ids' = ∅) then None else Some ids') (q_deadlines q)).

(** [active_deadline_count], [active_request_count] *)
Definition active_deadline_count (q : ApprovalQueue) : nat :=
  sum_list (map (fun kv => size kv.2) (map_to_list (q_deadlines q))).
Definition active_request_count (q : ApprovalQueue) : nat := size (q_requests q).

(** [active_approval_requests], [active_approval_grants] *)
Definition active_approval_requests (m : gmap string ApprovalRequest) :
  gmap string ApprovalRequest := filter (fun kv => aq_status kv.2 = StPending) m.

Definition grant_is_active (now : N) (g : ApprovalGrant) : bool :=
  bool_decide (gt_status g = AgActive)
  && match gt_expires_at_ms g with Some e => (now <? e)%N | None => true end.

Definition active_approval_grants (now : N) (m : gmap string ApprovalGrant) :
  gmap string ApprovalGrant := filter (fun kv => grant_is_active now kv.2 = true) m.

(** ** Events *)

(** [approval_source_refs] *)
Definition approval_source_refs (s : ApprovalSource) : list RuntimeEventRef :=
  let opt kind o := match o with
                    | Some id => [{| ref_kind := kind; ref_id := id |}]
                    | None => []
                    end in
  opt "session"%string (as_session_id s) ++ opt "agent"%string (as_agent_id s)
  ++ opt "team"%string (as_team_id s) ++ opt "mission"%string (as_mission_id s)
  ++ opt "resource"%string (as_resource_ref s) ++ opt "review"%string (as_review_ref s)
  ++ match as_application s with
     | Some a => [{| ref_kind := "application"; ref_id := aa_app_id a |};
                  {| ref_kind := "approval_correlation_schema";
                     ref_id := aa_correlation_schema a |}]
     | None => []
     end.

(** [TRUST_ALL_POLICY_ACTOR_IDS] *)
Definition TRUST_ALL_POLICY_ACTOR_IDS : list string :=
  ["yolo-trust-all"; "autonomous-session-policy"; "approval-router-auto"].

Inductive Plan (Value A : Type) :=
| Answer (a : A)
| Commit (r : AppendTransactionRequest Value) (finish : ApprovalQueue -> A * ApprovalQueue).
Arguments Answer {Value A} _.
Arguments Commit {Value A} _ _.

(** The plan of an operation and the queue it leaves, whatever its result. *)
Definition Planned (Value A : Type) : Type := Result string (Plan Value A) * ApprovalQueue.

(** The append a plan makes, if it makes one. *)
Definition plan_append {Value A} (p : Planned Value A) : option (AppendTransactionRequest Value) :=
  match p with (Ok (Commit r _), _) => Some r | _ => None end.

Definition already (r : ApprovalRequest) (grant_id : option string) : ApprovalDecisionReceipt :=
  {| rd_approval_id := aq_approval_id r; rd_status := aq_status r; rd_route_back := aq_source r;
     rd_message := "approval already " +:+ approval_status_as_str (aq_status r);
     rd_grant_id := grant_id |}.

(** The receipt of a request that is no longer pending; it leaves the cache. *)
Definition answer_closed {Value} (r : ApprovalRequest) (grant_id : option string)
    (q : ApprovalQueue) : Planned Value ApprovalDecisionReceipt :=
  (Ok (Answer (already r grant_id)),
   drop_request (aq_approval_id r) (remove_active_deadline (aq_approval_id r) q)).

(** [remove_active_deadline] and [requests.remove] at the end of an operation. *)
Definition finish_request (id : string) (receipt : ApprovalDecisionReceipt)
    (grant : option ApprovalGrant) (q : ApprovalQueue) : ApprovalDecisionReceipt * ApprovalQueue :=
  (receipt,
   drop_request id (remove_active_deadline id
     match grant with Some g => put_grant g q | None => q end)).

Section Queue.
Context {Value S : Type} `{Json Value} `{ApprovalJson Value}
  `{EventBackend Value S} `{ScopeReads Value S}.

Abbreviation Input := (RuntimeTransactionEventInput Value).
Abbreviation PlannedReceipt := (Planned Value ApprovalDecisionReceipt).

(** An event of an approval stream. *)
Definition approval_event (stream kind status actor : string) (refs : list RuntimeEventRef)
    (payload : Value) : RuntimeEventInput Value :=
  {| in_stream_id := stream; in_scope := ScApproval; in_kind := kind; in_status := Some status;
     in_actor := Some actor; in_refs := refs; in_payload := payload |}.

(** The transaction of [append_batch_if_revision]. *)
Definition batch (stream : string) (revision : N) (transaction_id : string)
    (events : list Input) : AppendTransactionRequest Value :=
  {| rq_transaction_id := transaction_id;
     rq_expected_streams := [{| es_stream_id := stream; es_expected_revision := revision |}];
     rq_events := events |}.

(** Run a plan: its append, if it has one, then the cache update. *)
Definition perform {A} (p : Planned Value A) (s : S) : Result string A * ApprovalQueue * S :=
  match p with
  | (Err e, q) => (Err e, q, s)
  | (Ok (Answer a), q) => (Ok a, q, s)
  | (Ok (Commit r finish), q) =>
      match eb_append r None s with
      | (Err e, s') => (Err (store_error_to_string e), q, s')
      | (Ok _, s') => let '(a, q') := finish q in (Ok a, q', s')
      end
  end.

(** ** Construction and reads *)

(** [ApprovalQueue::new] *)
Definition queue_new (now : N) (s : S) : ApprovalQueue :=
  let '(requests, grants) := restore_approval_state s in
  let requests := active_approval_requests requests in
  {| q_requests := requests; q_indexes := approval_request_indexes requests;
     q_grants := active_approval_grants now grants;
     q_deadlines := approval_deadline_index requests;
     q_last_refresh_commit := sr_head_commit s |}.

(** [get], [pending], [list], [grants] *)
Definition queue_get (q : ApprovalQueue) (s : S) (id : string) : option ApprovalRequest :=
  match q_requests q !! id with Some r => Some r | None => restore_approval_request s id end.

Definition queue_pending (q : ApprovalQueue) : list ApprovalRequest :=
  List.filter (fun r => bool_decide (aq_status r = StPending)) (btree_values (q_requests q)).

Definition queue_list (s : S) : list ApprovalRequest := btree_values (restore_approval_state s).1.

(** [list_for_execution_scope] *)
Definition list_for_execution_scope (s : S) (session_id : option string)
    (agent_ids team_ids : gset string) : list ApprovalRequest :=
  List.filter
    (fun r => same_some session_id (as_session_id (aq_source r))
              || match as_agent_id (aq_source r) with
                 | Some a => bool_decide (a ∈ agent_ids) | None => false end
              || match as_team_id (aq_source r) with
                 | Some t => bool_decide (t ∈ team_ids) | None => false end)
    (queue_list s).

Definition queue_grants (s : S) : list ApprovalGrant := btree_values (restore_approval_state s).2.

(** [grant_for_approval] *)
Definition grant_for_approval (s : S) (id : string) : option ApprovalGrant :=
  List.find (fun g => String.eqb (gt_approval_id g) id) (queue_grants s).

(** [active_grants] *)
Definition active_grants (now : N) (q : ApprovalQueue) : list ApprovalGrant * ApprovalQueue :=
  let grants := active_approval_grants now (q_grants q) in
  (btree_values grants, with_grants q grants).

(** [sort_by_key]: a stable sort on the five scopes. *)
Definition sort_by_scope (grants : list ApprovalGrant) : list ApprovalGrant :=
  flat_map (fun scope => List.filter (fun g => bool_decide (gt_scope g = scope)) grants)
    [GsOnce; GsTurn; GsTask; GsSession; GsGlobal].

(** [matching_grant] *)
Definition matching_grant (clk : nat -> N) (q : ApprovalQueue) (c : ApprovalContext)
    (risk : TaskRisk) : option ApprovalGrant * ApprovalQueue :=
  let '(grants, q') := active_grants (clk 0) q in
  (List.find (fun g => grant_matches g c risk (clk 1)) (sort_by_scope grants), q').

(** [hydrate_request] *)
Definition hydrate_request (q : ApprovalQueue) (s : S) (id : string) :
  Result string ApprovalQueue :=
  match q_requests q !! id with
  | Some _ => Ok q
  | None =>
      request ← ok_or ("approval request not found: " +:+ id) (restore_approval_request s id);
      Ok (put_request id request q)
  end.

(** [decision_result_snapshot]; the store does not change between its two
    readings of the revision. *)
Definition decision_result_snapshot (s : S) (session_id id : string) :
  Result string (ApprovalRequest * ExpectedStreamRevision) :=
  let stream := approval_stream id in
  let revision := eb_stream_revision s stream in
  request ← ok_or "external decision does not have a readable durable source"%string
              (restore_approval_request s id);
  _ ← guard_err (negb (bool_decide (as_session_id (aq_source request) = Some session_id))
                 || negb (bool_decide (cx_session_id (aq_context request) = Some session_id)))
        "external decision is outside the authenticated Session"%string;
  decision ← ok_or "external decision is pending or unavailable"%string (aq_decision request);
  _ ← guard_err
        (negb (match aq_status request with StApproved | StDenied => true | _ => false end)
         || negb (match ada_kind (dn_actor decision) with
                  | ActorHuman | ActorPolicy => true | _ => false end)
         || trim_is_empty (ada_actor_id (dn_actor decision))
         || negb (Bool.eqb (bool_decide (aq_status request = StApproved)) (dn_approved decision)))
        "external result requires a current Human or Policy decision"%string;
  Ok (request, {| es_stream_id := stream; es_expected_revision := revision |}).

(** ** Submission *)

Definition request_payload (r : ApprovalRequest) : Value :=
  value_object
    [("schema_version", value_u64 2); ("request", request_to_value r);
     ("action", value_string (aq_action r)); ("summary", value_string (aq_summary r));
     ("risk", risk_to_value (aq_risk r));
     ("timeout_policy", timeout_policy_to_value (aq_timeout_policy r))]%string.

Definition submit_events (r : ApprovalRequest) : list Input :=
  [transaction_event_from
     (approval_event (approval_stream (aq_approval_id r)) "approval.submitted"
        (approval_status_as_str (aq_status r)) "approval_queue"
        (approval_source_refs (aq_source r)) (request_payload r))].

(** The record [submit_scoped_with_policy] builds. *)
Definition new_request (id : string) (sub : SubmitApprovalRequest) (skippable : bool)
    (allowed_scopes : list ApprovalGrantScope) (timeout_policy : ApprovalTimeoutPolicy)
    (created_at_ms : N) (expires_at_ms : option N) : ApprovalRequest :=
  {| aq_approval_id := id; aq_source := sa_source sub; aq_context := sa_context sub;
     aq_action := sa_action sub; aq_summary := sa_summary sub; aq_risk := sa_risk sub;
     aq_domain := sa_domain sub; aq_blocks_execution := sa_blocks_execution sub;
     aq_skippable := skippable; aq_allowed_scopes := allowed_scopes;
     aq_evidence_refs := sa_evidence_refs sub; aq_timeout_policy := timeout_policy;
     aq_status := StPending; aq_decision := None; aq_created_at_ms := created_at_ms;
     aq_expires_at_ms := expires_at_ms; aq_resolved_at_ms := None |}.

Definition finish_submit (id : string) (r : ApprovalRequest) (q : ApprovalQueue) :
  ApprovalRequest * ApprovalQueue :=
  let q := put_request id r q in
  let q := match aq_expires_at_ms r with
           | Some d => with_deadlines q (entry_insert d id (q_deadlines q))
           | None => q
           end in
  (r, with_indexes q (index_approval_request (q_indexes q) id r)).

Definition validate_submission (id : string) (sub : SubmitApprovalRequest) : Result string unit :=
  _ ← source_validate (sa_source sub);
  _ ← guard_err (trim_is_empty (sa_action sub)) "approval action must not be empty"%string;
  _ ← guard_err (trim_is_empty (sa_summary sub)) "approval summary must not be empty"%string;
  _ ← validate_approval_context (sa_context sub);
  guard_err (trim_is_empty id) "approval id must not be empty"%string.

(** [submit_scoped_with_policy] *)
Definition submit_plan (clk : nat -> N) (id : string) (sub : SubmitApprovalRequest)
    (expires_at_ms : option N) (skippable : bool) (allowed_scopes : list ApprovalGrantScope)
    (q : ApprovalQueue) (s : S) : Planned Value ApprovalRequest :=
  let created_at_ms := clk 0 in
  let expires_at_ms :=
    match expires_at_ms with
    | Some e => Some e
    | None => if negb (sa_blocks_execution sub)
              then Some (u64_saturating_add created_at_ms
                           (nonblocking_approval_ttl_ms (sa_risk sub)))
              else None
    end in
  let timeout_policy :=
    if negb (sa_blocks_execution sub) && bool_decide (sa_timeout_policy sub = ToPending)
    then ToContinueAlternative else sa_timeout_policy sub in
  match validate_submission id sub with
  | Err e => (Err e, q)
  | Ok _ =>
      match queue_get q s id with
      | Some existing =>
          if bool_decide (aq_source existing = sa_source sub)
             && String.eqb (aq_action existing) (sa_action sub)
             && String.eqb (aq_summary existing) (sa_summary sub)
          then (Ok (Answer existing), q)
          else (Err ("approval idempotency conflict: " +:+ id), q)
      | None =>
          let approval := new_request id sub skippable allowed_scopes timeout_policy
                            created_at_ms expires_at_ms in
          let stream := approval_stream id in
          (Ok (Commit (batch stream (eb_stream_revision s stream) ("approval-submit:" +:+ id)
                         (submit_events approval))
                 (finish_submit id approval)), q)
      end
  end.

Definition submit_scoped_with_policy clk id sub expires skippable scopes q s :=
  perform (submit_plan clk id sub expires skippable scopes q s) s.

(** [submit_scoped_with_deadline], [submit_scoped], [submit] *)
Definition submit_scoped_with_deadline clk id sub expires q s :=
  submit_scoped_with_policy clk id sub expires false
    [GsOnce; GsTurn; GsTask; GsSession; GsGlobal] q s.

Definition submit_scoped clk id sub q s := submit_scoped_with_deadline clk id sub None q s.

Definition submit (uuid : string) clk sub q s :=
  submit_scoped clk ("approval-" +:+ uuid)%string sub q s.

(** ** Decisions *)

Definition decision_payload (d : ApprovalDecision) (skip : bool) (message : string)
    (resolved_at_ms : N) : Value :=
  value_object
    [("schema_version", value_u64 2); ("decision", decision_to_value d);
     ("approved", value_bool (dn_approved d)); ("skipped", value_bool skip);
     ("reason", value_string (dn_reason d)); ("scope", scope_to_value (dn_scope d));
     ("message", value_string message); ("resolved_at_ms", value_u64 resolved_at_ms)]%string.

Definition grant_payload (g : ApprovalGrant) : Value :=
  value_object [("schema_version", value_u64 2); ("grant", grant_to_value g)]%string.

Definition decided_event (r : ApprovalRequest) (status : ApprovalStatus) (d : ApprovalDecision)
    (skip : bool) (message : string) (resolved_at_ms : N) : RuntimeEventInput Value :=
  approval_event (approval_stream (aq_approval_id r)) "approval.decided"
    (approval_status_as_str status) (ada_actor_id (dn_actor d))
    (approval_source_refs (aq_source r)) (decision_payload d skip message resolved_at_ms).

Definition grant_issued_event (r : ApprovalRequest) (g : ApprovalGrant) : RuntimeEventInput Value :=
  approval_event (approval_stream (aq_approval_id r)) "approval.grant_issued" "active"
    (ada_actor_id (gt_issued_by g)) (approval_source_refs (aq_source r)) (grant_payload g).

Definition decision_of (c : ApprovalDecisionCommand) (decided_at_ms : N) : ApprovalDecision :=
  {| dn_approved := ad_approved c; dn_reason := ad_reason c; dn_scope := ad_scope c;
     dn_actor := ad_actor c; dn_evidence_refs := ad_evidence_refs c;
     dn_decided_at_ms := decided_at_ms |}.

Definition decided_status (c : ApprovalDecisionCommand) : ApprovalStatus :=
  if ad_skip c then StSkipped else if ad_approved c then StApproved else StDenied.

Definition decided_message (c : ApprovalDecisionCommand) : string :=
  let decided_by := ada_actor_id (ad_actor c) in
  if ad_skip c then "skipped by " +:+ decided_by +:+ ": " +:+ ad_reason c
  else if ad_approved c then "approved by " +:+ decided_by
  else "denied by " +:+ decided_by +:+ ": " +:+ ad_reason c.

Definition issued_grant (c : ApprovalDecisionCommand) (r : ApprovalRequest) (at_ms : N) :
  option ApprovalGrant :=
  if ad_approved c then Some (approval_grant_from_request r (ad_scope c) (ad_actor c) at_ms)
  else None.

Definition decided_receipt (c : ApprovalDecisionCommand) (r : ApprovalRequest) :
  ApprovalDecisionReceipt :=
  {| rd_approval_id := aq_approval_id r; rd_status := decided_status c;
     rd_route_back := aq_source r; rd_message := decided_message c;
     rd_grant_id := if ad_approved c then Some (approval_grant_id (aq_approval_id r)) else None |}.

(** The checks of [decide_authorized] on the durable request. *)
Definition decision_allowed (c : ApprovalDecisionCommand) (r : ApprovalRequest) :
  Result string unit :=
  _ ← guard_err (bool_decide (as_kind (aq_source r) = AsEvolution))
        "evolution_release_requires_typed_decision_service"%string;
  _ ← guard_err (bool_decide (is_Some (typed_application (aq_source r))))
        "application_review_requires_typed_decision_service"%string;
  _ ← guard_err (ad_skip c && negb (aq_skippable r))
        "approval_skip_not_allowed_for_subject"%string;
  guard_err (negb (memb (aq_allowed_scopes r) (ad_scope c)))
    "approval_scope_not_allowed_for_subject"%string.

(** [decide_authorized] *)
Definition decide_authorized (clk : nat -> N) (c : ApprovalDecisionCommand) (q : ApprovalQueue)
    (s : S) : PlannedReceipt :=
  let id := ad_approval_id c in
  if trim_is_empty (ada_actor_id (ad_actor c))
  then (Err "approval decision actor must not be empty"%string, q)
  else
    let stream := approval_stream id in
    let revision := eb_stream_revision s stream in
    match restore_approval_request s id with
    | None => (Err ("approval request not found: " +:+ id)%string, q)
    | Some r =>
        match hydrate_request q s id with
        | Err e => (Err e, q)
        | Ok q =>
            let q := put_request id r q in
            match decision_allowed c r with
            | Err e => (Err e, q)
            | Ok _ =>
                if negb (bool_decide (aq_status r = StPending))
                   && negb (bool_decide (aq_status r = StDenied))
                then answer_closed r (gt_grant_id <$> grant_for_approval s (aq_approval_id r)) q
                else
                  let resolved_at_ms := clk 0 in
                  let decided_at_ms := clk 1 in
                  let grant := issued_grant c r decided_at_ms in
                  (Ok (Commit
                         (batch stream revision ("approval-decision:" +:+ aq_approval_id r)
                            (transaction_event_from <$>
                               decided_event r (decided_status c) (decision_of c decided_at_ms)
                                 (ad_skip c) (decided_message c) resolved_at_ms
                               :: match grant with
                                  | Some g => [grant_issued_event r g]
                                  | None => []
                                  end))
                         (finish_request (aq_approval_id r) (decided_receipt c r) grant)), q)
            end
        end
    end.

Definition with_actor (c : ApprovalDecisionCommand) (kind : ApprovalDecisionActorKind)
    (actor_id : string) : ApprovalDecisionCommand :=
  {| ad_approval_id := ad_approval_id c; ad_approved := ad_approved c; ad_skip := ad_skip c;
     ad_reason := ad_reason c; ad_scope := ad_scope c;
     ad_actor := {| ada_kind := kind; ada_actor_id := actor_id |};
     ad_evidence_refs := ad_evidence_refs c |}.

(** [decide] *)
Definition decide_plan (clk : nat -> N) (p : PrincipalClaims) (c : ApprovalDecisionCommand)
    (q : ApprovalQueue) (s : S) : PlannedReceipt :=
  if negb (is_human_interactive p) || negb (has_capability p "approval.respond")
  then (Err "approval_human_interactive_capability_required"%string, q)
  else decide_authorized clk (with_actor c ActorHuman (pl_principal_id p)) q s.

(** [decide_surface_human] *)
Definition decide_surface_human_plan (clk : nat -> N) (actor_id : string)
    (c : ApprovalDecisionCommand) (q : ApprovalQueue) (s : S) : PlannedReceipt :=
  if trim_is_empty actor_id then (Err "approval_surface_actor_required"%string, q)
  else if bool_decide (ad_scope c = GsGlobal)
  then (Err "global_approval_requires_interactive_control_surface"%string, q)
  else decide_authorized clk (with_actor c ActorHuman actor_id) q s.

(** [decide_internal] *)
Definition decide_internal_plan (clk : nat -> N) (c : ApprovalDecisionCommand)
    (q : ApprovalQueue) (s : S) : PlannedReceipt :=
  let kind := ada_kind (ad_actor c) in
  if bool_decide (ad_scope c = GsGlobal) && negb (bool_decide (kind = ActorHuman))
     && negb (bool_decide (kind = ActorPolicy)
              && memb TRUST_ALL_POLICY_ACTOR_IDS (ada_actor_id (ad_actor c)))
  then (Err "global_approval_requires_human_actor"%string, q)
  else if bool_decide (kind = ActorHuman)
  then (Err "human_approval_requires_verified_principal"%string, q)
  else decide_authorized clk c q s.

Definition queue_decide clk p c q s := perform (decide_plan clk p c q s) s.
Definition decide_surface_human clk actor c q s :=
  perform (decide_surface_human_plan clk actor c q s) s.
Definition decide_internal clk c q s := perform (decide_internal_plan clk c q s) s.

(** [record_application_decision_fact]; it reads the request from the cache. *)
Definition application_fact_payload (app : ApprovalApplicationSource) (d : ApprovalDecision)
    (review_ref decision lease_ref message : string) : Value :=
  value_object
    [("schema_version", value_u64 2); ("decision_record", decision_to_value d);
     ("approved", value_bool (dn_approved d)); ("decision", value_string decision);
     ("reason", value_string (dn_reason d)); ("review_ref", value_string review_ref);
     ("decision_lease_ref", value_string lease_ref);
     ("application", application_to_value app); ("message", value_string message);
     ("resolved_at_ms", value_u64 (dn_decided_at_ms d))]%string.

Definition application_fact_message (app : ApprovalApplicationSource)
    (review_ref decided_by decision : string) : string :=
  "application " +:+ aa_app_id app +:+ " " +:+ decision +:+ " recorded for review "
  +:+ review_ref +:+ " by " +:+ decided_by.

Definition application_correlates (app : ApprovalApplicationSource) (review_ref : string)
    (src : ApprovalSource) : bool :=
  bool_decide (as_kind src = AsApplication) && bool_decide (as_application src = Some app)
  && bool_decide (as_review_ref src = Some review_ref).

Definition record_application_decision_plan (clk : nat -> N) (id : string)
    (app : ApprovalApplicationSource) (review_ref decided_by : string) (approved : bool)
    (decision reason lease_ref : string) (q : ApprovalQueue) (s : S) : PlannedReceipt :=
  if trim_is_empty review_ref || trim_is_empty decided_by || trim_is_empty decision
     || trim_is_empty lease_ref
  then (Err "application_typed_decision_fact_is_incomplete"%string, q)
  else
    match hydrate_request q s id with
    | Err e => (Err e, q)
    | Ok q =>
        match q_requests q !! id with
        | None => (Err ("approval request not found: " +:+ id)%string, q)
        | Some r =>
            let next_status := if approved then StApproved else StDenied in
            if negb (application_correlates app review_ref (aq_source r))
            then (Err "application_approval_correlation_mismatch"%string, q)
            else if negb (bool_decide (aq_status r = StPending))
            then if bool_decide (aq_status r = next_status)
                 then (Ok (Answer (already r None)), q)
                 else (Err "application_approval_decision_conflict"%string, q)
            else
              let at_ms := clk 0 in
              let message := application_fact_message app review_ref decided_by decision in
              let d := {| dn_approved := approved; dn_reason := reason; dn_scope := GsOnce;
                          dn_actor := {| ada_kind := ActorTypedOwner; ada_actor_id := decided_by |};
                          dn_evidence_refs := [lease_ref]; dn_decided_at_ms := at_ms |} in
              let stream := approval_stream (aq_approval_id r) in
              (Ok (Commit
                     (batch stream (eb_stream_revision s stream)
                        ("application-approval-decision:" +:+ aa_app_id app +:+ ":"
                         +:+ review_ref +:+ ":" +:+ decision)
                        [transaction_event_from
                           (approval_event stream "approval.decided.application"
                              (approval_status_as_str next_status) decided_by
                              (approval_source_refs (aq_source r))
                              (application_fact_payload app d review_ref decision lease_ref
                                 message))])
                     (finish_request (aq_approval_id r)
                        {| rd_approval_id := aq_approval_id r; rd_status := next_status;
                           rd_route_back := aq_source r; rd_message := message;
                           rd_grant_id := None |} None)), q)
        end
    end.

Definition record_application_decision_fact clk id app review_ref decided_by approved decision
    reason lease_ref q s :=
  perform (record_application_decision_plan clk id app review_ref decided_by approved decision
             reason lease_ref q s) s.

(** ** Timeouts *)

Definition timeout_message (r : ApprovalRequest) : string :=
  match aq_timeout_policy r with
  | ToPending =>
      if aq_blocks_execution r
      then "approval timed out before a human decision; the blocked execution was released"
      else "non-blocking approval timed out; source should continue without promotion"
  | ToAutoDeny => "approval timed out and must deny"
  | ToContinueAlternative => "approval timed out; source should continue alternative path"
  | ToAutoApproveOnce =>
      "approval timed out; request was not eligible for low-risk auto approval"
  end.

Definition auto_approve_command (id : string) : ApprovalDecisionCommand :=
  {| ad_approval_id := id; ad_approved := true; ad_skip := false;
     ad_reason := "approval veto window elapsed; approved once by the scoped timeout policy";
     ad_scope := GsOnce;
     ad_actor := {| ada_kind := ActorTimeoutPolicy; ada_actor_id := "scoped-timeout-policy" |};
     ad_evidence_refs := ["approval.timeout.auto_approve_once"%string] |}.

Definition timeout_decision (r : ApprovalRequest) (at_ms : N) : ApprovalDecision :=
  {| dn_approved := false; dn_reason := timeout_message r; dn_scope := GsOnce;
     dn_actor := {| ada_kind := ActorTimeoutPolicy; ada_actor_id := "approval-timeout-policy" |};
     dn_evidence_refs := ["approval.timeout"%string]; dn_decided_at_ms := at_ms |}.

Definition timeout_payload (r : ApprovalRequest) (at_ms : N) : Value :=
  value_object
    [("schema_version", value_u64 2);
     ("timeout_policy", timeout_policy_to_value (aq_timeout_policy r));
     ("message", value_string (timeout_message r)); ("resolved_at_ms", value_u64 at_ms);
     ("decision", decision_to_value (timeout_decision r at_ms))]%string.

Definition timeout_receipt (r : ApprovalRequest) : ApprovalDecisionReceipt :=
  {| rd_approval_id := aq_approval_id r; rd_status := StTimedOut; rd_route_back := aq_source r;
     rd_message := timeout_message r; rd_grant_id := None |}.

(** [timeout] *)
Definition timeout_plan (clk : nat -> N) (id : string) (q : ApprovalQueue) (s : S) :
  PlannedReceipt :=
  let stream := approval_stream id in
  let revision := eb_stream_revision s stream in
  match restore_approval_request s id with
  | None => (Err ("approval request not found: " +:+ id)%string, q)
  | Some r =>
      match hydrate_request q s id with
      | Err e => (Err e, q)
      | Ok q =>
          let q := put_request id r q in
          if negb (bool_decide (aq_status r = StPending))
          then answer_closed r (gt_grant_id <$> grant_for_approval s (aq_approval_id r)) q
          else if bool_decide (aq_timeout_policy r = ToAutoApproveOnce)
                  && negb (cx_explicit_ask (aq_context r))
          then decide_internal_plan clk (auto_approve_command (aq_approval_id r)) q s
          else
            let at_ms := clk 0 in
            let marker_key := ("approval-timeout:" +:+ aq_approval_id r)%string in
            let finish := finish_request (aq_approval_id r) (timeout_receipt r) None in
            match eb_event_by_key s stream marker_key with
            | Some _ => let '(receipt, q') := finish q in (Ok (Answer receipt), q')
            | None =>
                (Ok (Commit
                       (batch stream revision marker_key
                          [{| te_event :=
                                approval_event stream "approval.timed_out"
                                  (approval_status_as_str StTimedOut) "approval_queue"
                                  (approval_source_refs (aq_source r)) (timeout_payload r at_ms);
                              te_idempotency_key := Some marker_key; te_schema_version := 1 |}])
                       finish), q)
            end
      end
  end.

Definition timeout clk id q s := perform (timeout_plan clk id q s) s.

(** [reconcile_deadlines_at]: the due part of the deadline set, in deadline
    order, then one [timeout] each. *)
Definition due_ids (now : N) (deadlines : gmap N (gset string)) : list string :=
  let due := filter (fun kv => (kv.1 < u64_saturating_add now 1)%N) deadlines in
  flat_map (fun d => btree_set_iter (default ∅ (due !! d)))
    (merge_sort N.le (elements (dom due))).

Definition later_deadlines (now : N) (deadlines : gmap N (gset string)) : gmap N (gset string) :=
  filter (fun kv => (u64_saturating_add now 1 <= kv.1)%N) deadlines.

Definition resolves_timeout (r : Result string ApprovalDecisionReceipt) : bool :=
  match r with Ok receipt => negb (bool_decide (rd_status receipt = StPending)) | _ => false end.

Fixpoint timeout_all (clk : nat -> nat -> N) (i : nat) (ids : list string) (q : ApprovalQueue)
    (s : S) : list string * ApprovalQueue * S :=
  match ids with
  | [] => ([], q, s)
  | id :: ids =>
      let '(r, q, s) := timeout (clk i) id q s in
      let '(resolved, q, s) := timeout_all clk (Datatypes.S i) ids q s in
      (if resolves_timeout r then id :: resolved else resolved, q, s)
  end.

Definition reconcile_deadlines_at (clk : nat -> nat -> N) (now : N) (q : ApprovalQueue) (s : S) :
  list string * ApprovalQueue * S :=
  timeout_all clk 0 (due_ids now (q_deadlines q))
    (with_deadlines q (later_deadlines now (q_deadlines q))) s.

(** ** Cancellation *)

Definition cancel_decision (reason : string) (at_ms : N) : ApprovalDecision :=
  {| dn_approved := false; dn_reason := reason; dn_scope := GsOnce;
     dn_actor := {| ada_kind := ActorPolicy; ada_actor_id := "session-control" |};
     dn_evidence_refs := ["session.control"%string]; dn_decided_at_ms := at_ms |}.

Definition cancel_payload (d : ApprovalDecision) : Value :=
  value_object
    [("schema_version", value_u64 2); ("decision", decision_to_value d);
     ("reason", value_string (dn_reason d)); ("resolved_at_ms", value_u64 (dn_decided_at_ms d))]%string.

(** [cancel] *)
Definition cancel_plan (clk : nat -> N) (id reason : string) (superseded : bool)
    (q : ApprovalQueue) (s : S) : PlannedReceipt :=
  let stream := approval_stream id in
  let revision := eb_stream_revision s stream in
  match restore_approval_request s id with
  | None => (Err ("approval request not found: " +:+ id)%string, q)
  | Some r =>
      match hydrate_request q s id with
      | Err e => (Err e, q)
      | Ok q =>
          let q := put_request id r q in
          if negb (bool_decide (aq_status r = StPending)) then answer_closed r None q
          else
            let status := if superseded then StSuperseded else StCancelled in
            let d := cancel_decision reason (clk 0) in
            (Ok (Commit
                   (batch stream revision ("approval-cancel:" +:+ aq_approval_id r)
                      [transaction_event_from
                         (approval_event stream
                            (if superseded then "approval.superseded" else "approval.cancelled")
                            (approval_status_as_str status) (ada_actor_id (dn_actor d))
                            (approval_source_refs (aq_source r)) (cancel_payload d))])
                   (finish_request (aq_approval_id r)
                      {| rd_approval_id := aq_approval_id r; rd_status := status;
                         rd_route_back := aq_source r; rd_message := reason;
                         rd_grant_id := None |} None)), q)
      end
  end.

Definition queue_cancel clk id reason superseded q s :=
  perform (cancel_plan clk id reason superseded q s) s.

(** ** The end of a grant *)

Definition grant_ref (grant_id : string) : list RuntimeEventRef :=
  [{| ref_kind := "approval_grant"; ref_id := grant_id |}].

(** [consume_once_grant] *)
Definition consume_once_grant_plan (clk : nat -> N) (grant_id : string) (q : ApprovalQueue)
    (s : S) : Planned Value unit :=
  match q_grants q !! grant_id with
  | None => (Err ("approval grant not found: " +:+ grant_id)%string, q)
  | Some g =>
      if negb (bool_decide (gt_scope g = GsOnce)) || negb (bool_decide (gt_status g = AgActive))
      then (Ok (Answer tt), q)
      else
        let stream := approval_stream (gt_approval_id g) in
        let revision := eb_stream_revision s stream in
        (Ok (Commit
               (batch stream revision ("approval-grant-consume:" +:+ grant_id)
                  [transaction_event_from
                     (approval_event stream "approval.grant_consumed" "expired"
                        "approval_coordinator" (grant_ref grant_id)
                        (value_object
                           [("schema_version", value_u64 2); ("grant_id", value_string grant_id);
                            ("consumed_at_ms", value_u64 (clk 0))]%string))])
               (fun q => (tt, drop_grant grant_id q))), q)
  end.

Definition consume_once_grant clk grant_id q s :=
  perform (consume_once_grant_plan clk grant_id q s) s.

(** [revoke_grant] *)
Definition revoke_grant_plan (clk : nat -> N) (p : PrincipalClaims) (grant_id reason : string)
    (q : ApprovalQueue) (s : S) : Planned Value ApprovalGrant :=
  if negb (is_human_interactive p) || negb (has_capability p "approval.respond")
  then (Err "approval_human_interactive_capability_required"%string, q)
  else
    match q_grants q !! grant_id with
    | None => (Err ("approval grant not found: " +:+ grant_id)%string, q)
    | Some g =>
        if negb (bool_decide (gt_status g = AgActive)) then (Ok (Answer g), q)
        else
          let stream := approval_stream (gt_approval_id g) in
          let revision := eb_stream_revision s stream in
          let at_ms := clk 0 in
          (Ok (Commit
                 (batch stream revision ("approval-grant-revoke:" +:+ grant_id)
                    [transaction_event_from
                       (approval_event stream "approval.grant_revoked" "revoked"
                          (pl_principal_id p) (grant_ref grant_id)
                          (value_object
                             [("schema_version", value_u64 2); ("grant_id", value_string grant_id);
                              ("reason", value_string reason);
                              ("revoked_at_ms", value_u64 at_ms)]%string))])
                 (fun q => (with_grant_status g AgRevoked (gt_expires_at_ms g) (Some at_ms)
                              (Some reason), drop_grant grant_id q))), q)
    end.

Definition revoke_grant clk p grant_id reason q s :=
  perform (revoke_grant_plan clk p grant_id reason q s) s.

(** ** Decisions committed with a graph *)

(** [canonical_graph_decision_events]: the stream, the revision it must still
    have, and the events. *)
Definition canonical_graph_decision (s : S) (c : ApprovalDecisionCommand) (decided_at_ms : N) :
  Result string (string * N * list Input) :=
  _ ← guard_err (ad_skip c) "graph approval skip must use the queue-owned skip path"%string;
  _ ← guard_err (negb (bool_decide (ada_kind (ad_actor c) = ActorHuman))
                 || trim_is_empty (ada_actor_id (ad_actor c)))
        "graph approval requires an authenticated human actor"%string;
  let stream := approval_stream (ad_approval_id c) in
  let revision := eb_stream_revision s stream in
  r ← ok_or ("approval request not found: " +:+ ad_approval_id c)%string
        ((restore_approval_state s).1 !! ad_approval_id c);
  _ ← guard_err (negb (bool_decide (aq_status r = StPending)))
        ("approval request is not pending: " +:+ ad_approval_id c)%string;
  _ ← guard_err (negb (memb (aq_allowed_scopes r) (ad_scope c)))
        "approval_scope_not_allowed_for_subject"%string;
  let keyed kind e := {| te_event := e;
                         te_idempotency_key := Some (kind +:+ aq_approval_id r)%string;
                         te_schema_version := 2 |} in
  Ok (stream, revision,
      keyed "approval-decision:"%string
        (decided_event r (decided_status c) (decision_of c decided_at_ms) false
           (decided_message c) decided_at_ms)
      :: match issued_grant c r decided_at_ms with
         | Some g => [keyed "approval-grant:"%string (grant_issued_event r g)]
         | None => []
         end).

(** ** Refresh *)

Definition APPROVAL_REFRESH_COMMIT_PAGE : nat := 256.

Definition apply_batch (state : gmap string ApprovalRequest * gmap string ApprovalGrant)
    (batch : N * list (DurableRuntimeEvent Value)) :=
  fold_left apply_approval_event
    (List.filter (fun e => bool_decide (ev_scope e = ScApproval)) batch.2) state.

(** The loop of [refresh]: the commits after the cursor, a page at a time. *)
Fixpoint refresh_pages (fuel : nat) (s : S) (cursor : N)
    (state : gmap string ApprovalRequest * gmap string ApprovalGrant) :
  Exec (N * (gmap string ApprovalRequest * gmap string ApprovalGrant)) :=
  match fuel with
  | 0 => OutOfFuel
  | Datatypes.S fuel' =>
      let batches := sr_events_after_cursor s cursor APPROVAL_REFRESH_COMMIT_PAGE in
      let state := fold_left apply_batch batches state in
      let cursor := from_option fst cursor (last batches) in
      if length batches <? APPROVAL_REFRESH_COMMIT_PAGE then Done (cursor, state)
      else refresh_pages fuel' s cursor state
  end.

(** [refresh] *)
Definition refresh (fuel : nat) (now : N) (q : ApprovalQueue) (s : S) : Exec ApprovalQueue :=
  let observed_commit := sr_head_commit s in
  if (observed_commit <=? q_last_refresh_commit q)%N then Done q
  else
    p ← refresh_pages fuel s (q_last_refresh_commit q) (q_requests q, q_grants q);
    let '(cursor, (requests, grants)) := p in
    let requests := active_approval_requests requests in
    Done {| q_requests := requests; q_indexes := approval_request_indexes requests;
            q_grants := active_approval_grants now grants;
            q_deadlines := approval_deadline_index requests;
            q_last_refresh_commit := N.max cursor observed_commit |}.
End Queue.
