(* ===== verification/ApprovalMachine.v ===== *)
(** * The abstract machine of an approval

    [life] is the specification of one approval stream: how a submission, a
    decision, a timeout, a cancellation and the end of a grant may change its
    request and its grant.  Every transaction an operation of the queue plans,
    and every decision committed with a graph, is shown to make one of its
    transitions, on the store it was planned on ([write_ok]). *)

From S2P Require Import Prelude Facts Contract Validation Delta Ports EventStore.
From S2P Require Import Samples Backend Approval ApprovalJournal ApprovalQueue.

Section Machine.
Context {Value S : Type} `{Json Value} `{ApprovalJson Value} `{!ApprovalJsonLaws Value}
  `{EventBackend Value S} `{ScopeReads Value S} `{!Journal Value S}.

Abbreviation Event := (DurableRuntimeEvent Value).
Abbreviation Input := (RuntimeTransactionEventInput Value).
Abbreviation Request := (AppendTransactionRequest Value).

(** ** Extensions of the journal *)

Record extends (s0 s : S) : Prop := {
  ex_inv0 : jl_inv s0;
  ex_inv : jl_inv s;
  ex_journal : exists l, jl_journal s = jl_journal s0 ++ l;
  ex_used : forall x, jl_used s0 x -> jl_used s x
}.

Lemma extends_refl s : jl_inv s -> extends s s.
Proof. intros Hi. split; [done | done | exists []; by rewrite app_nil_r | done]. Qed.

Lemma extends_trans s1 s2 s3 : extends s1 s2 -> extends s2 s3 -> extends s1 s3.
Proof.
  intros [Ha Hb [l1 H12] Hu] [_ Hc [l2 H23] Hu']. split; [done..| |auto].
  exists (l1 ++ l2). by rewrite H23, H12, app_assoc.
Qed.

(** A stream at the revision it had is the stream it was. *)
Lemma stream_unchanged s0 s id :
  extends s0 s -> eb_stream_revision s id = eb_stream_revision s0 id ->
  eb_list_stream s id = eb_list_stream s0 id.
Proof.
  intros [Hi0 Hi [l Hl] _] Hrev. rewrite !jl_revision in Hrev by done.
  rewrite !jl_stream in * by done. rewrite Hl, List.filter_app in *.
  rewrite length_app in Hrev. destruct (List.filter (on_stream id) l); [by rewrite app_nil_r|].
  cbn in Hrev. lia.
Qed.

Lemma state_unchanged s0 s id :
  extends s0 s ->
  eb_stream_revision s (approval_stream id) = eb_stream_revision s0 (approval_stream id) ->
  approval_state s id = approval_state s0 id.
Proof.
  intros He Hr. pose proof (stream_unchanged _ _ _ He Hr) as Hs.
  unfold approval_state, restore_approval_request. by rewrite Hs.
Qed.

(** ** What one transaction does to an approval *)

Definition on_approval (id : string) (i : Input) : bool :=
  String.eqb (in_stream_id (te_event i)) (approval_stream id).

(** Events with the views of given inputs. *)
Definition views_of (inputs : list Input) (evs : list Event) : Prop :=
  event_view <$> evs = input_view <$> inputs.

Lemma views_filter id inputs evs :
  views_of inputs evs ->
  views_of (List.filter (on_approval id) inputs)
    (List.filter (on_stream (approval_stream id)) evs).
Proof.
  unfold views_of. revert evs. induction inputs as [|i inputs IH]; intros [|e evs] Hv;
    try discriminate; [done|].
  rewrite !fmap_cons in Hv. injection Hv as Hs Hsc Hk Hst Hp Hkey Hv. cbn [List.filter].
  assert (on_stream (approval_stream id) e = on_approval id i) as ->.
  { unfold on_stream, on_approval. by rewrite Hs. }
  destruct (on_approval id i); [|by apply IH]. rewrite !fmap_cons. f_equal; [|by apply IH].
  unfold event_view, input_view. by rewrite Hs, Hsc, Hk, Hst, Hp, Hkey.
Qed.

Lemma views_disciplined inputs evs :
  views_of inputs evs -> (forall i, i ∈ inputs -> disciplined_input i) ->
  forall e, e ∈ evs -> disciplined_event e.
Proof.
  unfold views_of. revert evs. induction inputs as [|i inputs IH]; intros [|x evs] Hv Hd e He;
    try discriminate; [by apply not_elem_of_nil in He|].
  rewrite !fmap_cons in Hv. injection Hv as Hs Hsc Hk Hst Hp Hkey Hv.
  apply elem_of_cons in He as [->|He].
  - unfold disciplined_event. rewrite Hs, Hsc, Hk, Hp. apply Hd. left.
  - apply (IH evs Hv); [|done]. intros j Hj. apply Hd. by right.
Qed.

Lemma views_elem inputs evs e : views_of inputs evs -> e ∈ evs ->
  exists i, i ∈ inputs /\ event_view e = input_view i.
Proof.
  intros Hv He. assert (event_view e ∈ input_view <$> inputs) as Hin
    by (rewrite <- Hv; by apply list_elem_of_fmap_2).
  apply list_elem_of_fmap in Hin as (i & ? & ?). eauto.
Qed.

(** The outcome of an append: nothing, or a new transaction. *)
Inductive appended (r : Request) (s s' : S) : Prop :=
| AppendedNothing : s' = s -> appended r s s'
| AppendedNew evs :
    extends s s' -> ~ jl_used s (rq_transaction_id r) ->
    (forall x, jl_used s' x <-> x = rq_transaction_id r \/ jl_used s x) ->
    (forall x, x ∈ rq_expected_streams r ->
       eb_stream_revision s (es_stream_id x) = es_expected_revision x) ->
    jl_journal s' = jl_journal s ++ evs -> views_of (rq_events r) evs -> appended r s s'.

Lemma append_appended r t s res s' :
  jl_inv s -> eb_append r t s = (res, s') -> appended r s s'.
Proof.
  intros Hi Ha.
  destruct (jl_append _ _ _ _ _ Hi Ha)
    as [[-> _]|(rcp & evs & _ & Hi' & Hn & Hu & Hx & Hj & Hv)].
  - by apply AppendedNothing.
  - apply (AppendedNew _ _ _ evs); try done.
    split; [done | done | by exists evs |]. intros x Hxu. apply Hu. by right.
Qed.

Lemma appended_extends r s s' : jl_inv s -> appended r s s' -> extends s s'.
Proof. intros Hi [->|evs He]; [by apply extends_refl | done]. Qed.

Lemma appended_stream s s' evs id :
  extends s s' -> jl_journal s' = jl_journal s ++ evs ->
  eb_list_stream s' id = eb_list_stream s id ++ List.filter (on_stream id) evs.
Proof.
  intros [Hi Hi' _ _] Hj. rewrite !jl_stream by done. by rewrite Hj, List.filter_app.
Qed.

(** The state of an approval after events. *)
Definition after_events (st : option ApprovalRequest * option ApprovalGrant) (evs : list Event) :=
  (fold_left restore_event evs st.1, fold_left grant_event evs st.2).

Lemma appended_state s s' evs id :
  extends s s' -> jl_journal s' = jl_journal s ++ evs ->
  approval_state s' id
    = after_events (approval_state s id) (List.filter (on_stream (approval_stream id)) evs).
Proof.
  intros He Hj. unfold approval_state, restore_approval_request, after_events.
  rewrite (appended_stream _ _ _ _ He Hj).
  by rewrite !fold_left_app.
Qed.

Lemma appended_disciplined r s s' :
  (forall i, i ∈ rq_events r -> disciplined_input i) ->
  disciplined_store s -> appended r s s' -> disciplined_store s'.
Proof.
  intros Hd [Hi Hs] [->|evs He _ _ _ Hj Hv]; [done|]. split; [apply (ex_inv _ _ He)|].
  intros e. rewrite Hj, elem_of_app. intros [?|Hin]; [auto|].
  by eapply views_disciplined.
Qed.

(** ** What each written event says when read back *)

Ltac object_field :=
  rewrite object_get by (apply (bool_decide_unpack _); vm_compute; exact I); cbn.

Lemma payload_of_request r : payload_request (request_payload r : Value) = Some r.
Proof. unfold payload_request, request_payload. object_field. apply request_roundtrip. Qed.

Lemma decision_of_payload d skip m t : payload_decision (decision_payload d skip m t : Value) = Some d.
Proof. unfold payload_decision, decision_payload. object_field. apply decision_roundtrip. Qed.

Lemma decision_of_timeout r t :
  payload_decision (timeout_payload r t : Value) = Some (timeout_decision r t).
Proof. unfold payload_decision, timeout_payload. object_field. apply decision_roundtrip. Qed.

Lemma decision_of_cancel d : payload_decision (cancel_payload d : Value) = Some d.
Proof. unfold payload_decision, cancel_payload. object_field. apply decision_roundtrip. Qed.

(** The ["decision"] member of an application fact is the decision's name. *)
Lemma decision_of_application app d review decision lease m :
  payload_decision (application_fact_payload app d review decision lease m : Value) = None.
Proof. unfold payload_decision, application_fact_payload. object_field. apply decision_of_string. Qed.

Definition resolved_member (payload : Value) : option N :=
  value_get payload "resolved_at_ms" ≫= value_as_u64.

Lemma resolved_of_payload d skip m t : resolved_member (decision_payload d skip m t) = Some t.
Proof. unfold resolved_member, decision_payload. object_field. apply u64_as_u64. Qed.

Lemma resolved_of_timeout r t : resolved_member (timeout_payload r t) = Some t.
Proof. unfold resolved_member, timeout_payload. object_field. apply u64_as_u64. Qed.

Lemma resolved_of_cancel d : resolved_member (cancel_payload d) = Some (dn_decided_at_ms d).
Proof. unfold resolved_member, cancel_payload. object_field. apply u64_as_u64. Qed.

Lemma resolved_of_application app d review decision lease m :
  resolved_member (application_fact_payload app d review decision lease m)
    = Some (dn_decided_at_ms d).
Proof. unfold resolved_member, application_fact_payload. object_field. apply u64_as_u64. Qed.

Lemma payload_of_grant g : payload_grant (grant_payload g : Value) = Some g.
Proof. unfold payload_grant, grant_payload. object_field. apply grant_roundtrip. Qed.

Lemma status_read_back st cur : st <> StPending ->
  status_of_event (Some (approval_status_as_str st)) cur = st.
Proof. by destruct st. Qed.

Lemma resolution_not_submitted kind :
  is_resolution_kind kind = true -> String.eqb kind "approval.submitted" = false.
Proof. intros Hk. apply String.eqb_neq. by intros ->. Qed.

(** A resolution event resolves the request and leaves the grant. *)
Lemma resolution_event (e : Event) x g st stream kind payload key d t :
  event_view e = (stream, ScApproval, kind, Some (approval_status_as_str st), payload, key) ->
  is_resolution_kind kind = true -> st <> StPending ->
  payload_decision payload = d -> resolved_member payload = Some t ->
  restore_event (Some x) e = Some (with_resolution x st d (Some t)) /\ grant_event g e = g.
Proof.
  intros [= Hs Hsc Hk Hst Hp _] Hkind Hpend Hd Ht.
  unfold restore_event, grant_event. rewrite Hk, resolution_not_submitted, Hkind by done.
  split; [|done]. cbn. unfold resolve_request, payload_time. rewrite Hst, status_read_back by done.
  rewrite decide_False by done. fold (resolved_member (ev_payload e)). by rewrite Hp, Hd, Ht.
Qed.

(** A submission starts the request over and leaves the grant. *)
Lemma submitted_event (e : Event) o g stream st payload key r :
  event_view e = (stream, ScApproval, "approval.submitted"%string, st, payload, key) ->
  payload_request payload = Some r ->
  restore_event o e = Some r /\ grant_event g e = g.
Proof.
  intros [= Hs Hsc Hk Hst Hp _] Hr. unfold restore_event, grant_event. rewrite Hk. cbn.
  by rewrite Hp, Hr.
Qed.

(** A grant event leaves the request. *)
Lemma issued_event (e : Event) o g0 stream st payload key g :
  event_view e = (stream, ScApproval, "approval.grant_issued"%string, st, payload, key) ->
  payload_grant payload = Some g ->
  restore_event o e = o /\ grant_event g0 e = Some g.
Proof.
  intros [= Hs Hsc Hk Hst Hp _] Hr. unfold restore_event, grant_event. rewrite Hk. cbn.
  by rewrite Hp, Hr.
Qed.

Lemma payload_grant_id_consume gid t :
  payload_grant_id (value_object
    [("schema_version", value_u64 2); ("grant_id", value_string gid);
     ("consumed_at_ms", value_u64 t)]%string : Value) = Some gid.
Proof. unfold payload_grant_id. object_field. apply string_as_str. Qed.

Lemma payload_grant_id_revoke gid reason t :
  payload_grant_id (value_object
    [("schema_version", value_u64 2); ("grant_id", value_string gid);
     ("reason", value_string reason); ("revoked_at_ms", value_u64 t)]%string : Value) = Some gid.
Proof. unfold payload_grant_id. object_field. apply string_as_str. Qed.

Definition is_close_kind (kind : string) : Prop :=
  kind = "approval.grant_revoked"%string \/ kind = "approval.grant_consumed"%string.

Lemma closing_event (e : Event) o g stream st kind payload key :
  event_view e = (stream, ScApproval, kind, st, payload, key) -> is_close_kind kind ->
  restore_event o e = o /\ grant_event g e = close_grant e <$> g.
Proof.
  intros [= Hs Hsc Hk Hst Hp _] Hc. unfold restore_event, grant_event. rewrite Hk.
  by destruct Hc as [-> | ->].
Qed.

(** ** The abstract machine of one approval *)

Abbreviation ApprovalState := (option ApprovalRequest * option ApprovalGrant)%type.

(** Who may grant authority beyond one session. *)
Definition global_authority (a : ApprovalDecisionActor) : Prop :=
  ada_kind a = ActorHuman \/
  ada_kind a = ActorPolicy /\ ada_actor_id a ∈ TRUST_ALL_POLICY_ACTOR_IDS.

(** The transaction ids of the queue, and those of other components. *)
Definition submit_tx (id : string) : string := "approval-submit:" +:+ id.
Definition decision_tx (id : string) : string := "approval-decision:" +:+ id.
Definition timeout_key (id : string) : string := "approval-timeout:" +:+ id.
Definition cancel_tx (id : string) : string := "approval-cancel:" +:+ id.
Definition grant_tx (tx : string) : Prop :=
  exists gid, tx = ("approval-grant-consume:" +:+ gid)%string \/
              tx = ("approval-grant-revoke:" +:+ gid)%string.
Definition application_tx (tx : string) : Prop :=
  exists x, tx = ("application-approval-decision:" +:+ x)%string.
Definition foreign_tx (tx : string) : Prop :=
  ~ grant_tx tx /\
  forall id, tx <> submit_tx id /\ tx <> decision_tx id /\ tx <> timeout_key id /\
             tx <> cancel_tx id.

(** Transactions that close the approval [id]. *)
Definition closing_tx (id tx : string) : Prop :=
  tx = decision_tx id \/ tx = timeout_key id \/ tx = cancel_tx id.

(** One transition of an approval by the transaction [tx]. *)
Inductive life (id tx : string) : ApprovalState -> ApprovalState -> Prop :=
| LifeSubmit r :
    aq_approval_id r = id -> aq_status r = StPending -> aq_decision r = None ->
    aq_resolved_at_ms r = None -> tx = submit_tx id ->
    life id tx (None, None) (Some r, None)
| LifeDecide r c t1 t2 :
    aq_status r = StPending /\ foreign_tx tx \/
    (aq_status r = StPending \/ aq_status r = StDenied) /\ tx = decision_tx id ->
    ad_scope c ∈ aq_allowed_scopes r -> (ad_skip c = true -> aq_skippable r = true) ->
    (ad_scope c = GsGlobal -> global_authority (ad_actor c)) ->
    life id tx (Some r, None)
      (Some (with_resolution r (decided_status c) (Some (decision_of c t2)) (Some t1)),
       issued_grant c r t2)
| LifeApplication r approved t :
    aq_status r = StPending -> is_Some (typed_application (aq_source r)) -> application_tx tx ->
    life id tx (Some r, None)
      (Some (with_resolution r (if approved : bool then StApproved else StDenied) None (Some t)),
       None)
| LifeTimeout r t :
    aq_status r = StPending -> tx = timeout_key id ->
    life id tx (Some r, None)
      (Some (with_resolution r StTimedOut (Some (timeout_decision r t)) (Some t)), None)
| LifeCancel r (superseded : bool) reason t :
    aq_status r = StPending -> tx = cancel_tx id ->
    life id tx (Some r, None)
      (Some (with_resolution r (if superseded then StSuperseded else StCancelled)
               (Some (cancel_decision reason t)) (Some t)), None)
| LifeClose o g st exp rev reason :
    st <> AgActive -> grant_tx tx ->
    life id tx (o, Some g) (o, Some (with_grant_status g st exp rev reason)).

(** A grant is what a recorded approving decision of its request issued, up to
    its end. *)
Definition backed (r : ApprovalRequest) (g : ApprovalGrant) : Prop :=
  exists d st exp rev reason,
    aq_decision r = Some d /\ dn_approved d = true /\
    (aq_status r = StApproved \/ aq_status r = StSkipped /\ aq_skippable r = true) /\
    dn_scope d ∈ aq_allowed_scopes r /\
    (dn_scope d = GsGlobal -> global_authority (dn_actor d)) /\
    g = with_grant_status
          (approval_grant_from_request r (dn_scope d) (dn_actor d) (dn_decided_at_ms d))
          st exp rev reason.

(** A recorded decision that says [approved], within the request's scopes. *)
Definition recorded_verdict (r : ApprovalRequest) (approved : bool) : Prop :=
  exists d, aq_decision r = Some d /\ dn_approved d = approved /\ dn_scope d ∈ aq_allowed_scopes r.

(** The verdict of an application is recorded in its review, not here. *)
Definition application_verdict (r : ApprovalRequest) : Prop :=
  aq_decision r = None /\ is_Some (typed_application (aq_source r)).

(** The decision record each status comes with. *)
Definition decision_fits (r : ApprovalRequest) : Prop :=
  match aq_status r with
  | StPending => aq_decision r = None /\ aq_resolved_at_ms r = None
  | StApproved => recorded_verdict r true \/ application_verdict r
  | StDenied => recorded_verdict r false \/ application_verdict r
  | StSkipped => aq_skippable r = true /\
                 (recorded_verdict r true \/ recorded_verdict r false)
  | StTimedOut | StCancelled | StSuperseded =>
      exists d, aq_decision r = Some d /\ dn_approved d = false /\
                ada_kind (dn_actor d) <> ActorHuman
  end.

(** The well-formed states of an approval. *)
Definition life_ok (id : string) (st : ApprovalState) : Prop :=
  match st with
  | (None, g) => g = None
  | (Some r, g) =>
      aq_approval_id r = id /\
      decision_fits r /\
      (aq_status r <> StPending -> is_Some (aq_resolved_at_ms r)) /\
      match g with None => True | Some g => backed r g end
  end.

Lemma backed_closed r g st exp rev reason :
  backed r g -> backed r (with_grant_status g st exp rev reason).
Proof.
  intros (d & st0 & e0 & r0 & re0 & Hd & Ha & Hst & Hsc & Hgl & ->).
  by exists d, st, exp, rev, reason.
Qed.

Lemma decided_status_resolved c : decided_status c <> StPending.
Proof. unfold decided_status. by destruct (ad_skip c), (ad_approved c). Qed.

Lemma decided_backed r c t1 t2 g :
  ad_scope c ∈ aq_allowed_scopes r -> (ad_skip c = true -> aq_skippable r = true) ->
  (ad_scope c = GsGlobal -> global_authority (ad_actor c)) ->
  issued_grant c r t2 = Some g ->
  backed (with_resolution r (decided_status c) (Some (decision_of c t2)) (Some t1)) g.
Proof.
  unfold issued_grant. destruct (ad_approved c) eqn:Ea; [|done]. intros Hsc Hsk Hgl [= <-].
  exists (decision_of c t2), AgActive, None, None, None. split_and!; try done.
  unfold decided_status. cbn. destruct (ad_skip c) eqn:Es; [right; auto | left].
  by rewrite Ea.
Qed.

Lemma decided_fits r c t1 t2 :
  ad_scope c ∈ aq_allowed_scopes r -> (ad_skip c = true -> aq_skippable r = true) ->
  decision_fits (with_resolution r (decided_status c) (Some (decision_of c t2)) (Some t1)).
Proof.
  intros Hsc Hsk. unfold decision_fits, recorded_verdict, decided_status. cbn.
  destruct (ad_skip c) eqn:Es; cbn.
  - split; [auto|]. destruct (ad_approved c) eqn:Ea; [left | right]; exists (decision_of c t2); done.
  - destruct (ad_approved c) eqn:Ea; cbn; left; exists (decision_of c t2); done.
Qed.

Lemma life_preserves_ok id tx st st' : life_ok id st -> life id tx st st' -> life_ok id st'.
Proof.
  intros Hok Hl. destruct Hl as [r|r c t1 t2 Hs Hsc Hsk Hgl|r a t Hs Happ _|r t Hs _
                                |r sup reason t Hs _|o g st exp rev reason Hne _]; cbn in *.
  - split_and!; [done | | congruence | done]. unfold decision_fits.
    by match goal with Hp : aq_status r = StPending |- _ => rewrite Hp end.
  - destruct Hok as (Hid & _). split_and!; [done | by apply decided_fits | done |].
    destruct (issued_grant c r t2) as [g|] eqn:Eg; [|done]. by apply decided_backed.
  - destruct Hok as (Hid & _). split_and!; [done | | done | done].
    destruct a; right; (split; [done | exact Happ]).
  - destruct Hok as (Hid & _). split_and!; [done | | done | done]. by exists (timeout_decision r t).
  - destruct Hok as (Hid & _). split_and!; [done | | done | done].
    destruct sup; by exists (cancel_decision reason t).
  - destruct o as [r|]; [|done]. destruct Hok as (Hid & Hp & Hr & Hb).
    split_and!; [done..|]. by apply backed_closed.
Qed.

(** The transaction names the approval it closes, and leaves it closed. *)
Lemma life_closing id id' tx st st' : life id tx st st' -> closing_tx id' tx ->
  id' = id /\ exists r, st'.1 = Some r /\ aq_status r <> StPending.
Proof.
  unfold closing_tx, submit_tx, decision_tx, timeout_key, cancel_tx. intros Hl Hc.
  destruct Hl as [r _ _ _ _ ->|r c t1 t2 [[_ Hf]|[_ ->]] _ _ _|r a t _ _ [x ->]|r t _ ->
                  |r sup reason t _ ->|o g st exp rev reason _ [gid [-> | ->]]].
  all: try (destruct Hc as [Hc|[Hc|Hc]]; discriminate Hc).
  - destruct (proj2 Hf id') as (_ & Ha & Hb & Hd). destruct Hc as [Hc|[Hc|Hc]]; by subst.
  - split; [|eexists; split; [done | apply decided_status_resolved]].
    destruct Hc as [Hc|[Hc|Hc]]; [by injection Hc | discriminate Hc | discriminate Hc].
  - split; [|by eexists].
    destruct Hc as [Hc|[Hc|Hc]]; [discriminate Hc | by injection Hc | discriminate Hc].
  - split; [|eexists; split; [done | by destruct sup]].
    destruct Hc as [Hc|[Hc|Hc]]; [discriminate Hc | discriminate Hc | by injection Hc].
Qed.

Lemma life_submitting id id' tx st st' : life id tx st st' -> tx = submit_tx id' ->
  id' = id /\ st'.1 <> None.
Proof.
  unfold closing_tx, submit_tx, decision_tx, timeout_key, cancel_tx. intros Hl Hc.
  destruct Hl as [r _ _ _ _ ->|r c t1 t2 [[_ Hf]|[_ ->]] _ _ _|r a t _ _ [x ->]|r t _ ->
                  |r sup reason t _ ->|o g st exp rev reason _ [gid [-> | ->]]];
    try discriminate Hc.
  - split; [by injection Hc | done].
  - by destruct (proj2 Hf id') as (Ha & _).
Qed.

(** A request stays submitted, and stays closed. *)
Lemma life_keeps_request id tx st st' r : life id tx st st' -> st.1 = Some r ->
  exists r', st'.1 = Some r' /\ (aq_status r <> StPending -> aq_status r' <> StPending).
Proof.
  intros Hl. destruct Hl as [y|y c t1 t2 Hs ? ? ?|y a t Hs ? ?|y t Hs ?|y sup reason t Hs ?|];
    cbn; intros Hr; simplify_eq; eexists; (split; [done|]); cbn; intros Hne; try done;
    apply decided_status_resolved.
Qed.

Lemma life_creates id tx g st' : life id tx (None, g) st' -> st'.1 = None \/ tx = submit_tx id.
Proof. intros Hl. inversion Hl; subst; auto. Qed.

(** Only the end of a grant touches a grant. *)
Lemma life_keeps_grant id tx st st' g :
  life id tx st st' -> ~ grant_tx tx -> st.2 = Some g -> st'.2 = Some g.
Proof. intros Hl Hn. by destruct Hl. Qed.

Lemma grant_tx_open id tx : grant_tx tx -> tx <> submit_tx id /\ ~ closing_tx id tx.
Proof.
  intros [gid [-> | ->]]; (split; [discriminate|]); intros [Hc|[Hc|Hc]]; discriminate Hc.
Qed.

(** No grant exists for a request that is pending or denied. *)
Lemma open_no_grant id r g :
  life_ok id (Some r, g) -> aq_status r = StPending \/ aq_status r = StDenied -> g = None.
Proof.
  destruct g as [g|]; [|done]. cbn.
  intros (_ & _ & _ & d & st & exp & rev & reason & _ & _ & Hst & _) Hs.
  destruct Hs as [Hs|Hs]; rewrite Hs in Hst; by destruct Hst as [|[]].
Qed.

(** ** Transactions that move one approval *)

(** Written into the stream of [id] at the revision [s0] had: they make one
    transition of the machine, and no other approval moves. *)
Record write_ok (s0 : S) (id : string) (r : Request) : Prop := {
  wo_expected : {| es_stream_id := approval_stream id;
                   es_expected_revision := eb_stream_revision s0 (approval_stream id) |}
                  ∈ rq_expected_streams r;
  wo_disciplined : forall i, i ∈ rq_events r -> disciplined_input i;
  wo_others : forall id', id' <> id -> List.filter (on_approval id') (rq_events r) = [];
  wo_life : forall evs, views_of (List.filter (on_approval id) (rq_events r)) evs ->
    approval_state s0 id = after_events (approval_state s0 id) evs /\
      grant_tx (rq_transaction_id r) \/
    life id (rq_transaction_id r) (approval_state s0 id) (after_events (approval_state s0 id) evs);
  wo_key : forall i, i ∈ List.filter (on_approval id) (rq_events r) ->
    te_idempotency_key i = Some (timeout_key id) -> rq_transaction_id r = timeout_key id
}.

Definition foreign_input (i : Input) : Prop :=
  in_scope (te_event i) <> ScApproval /\
  forall id, in_stream_id (te_event i) <> approval_stream id.

Lemma foreign_disciplined i : foreign_input i -> disciplined_input i.
Proof.
  intros [Hs Hid]. split; try (by intros Hsc); try (by intros Hsc; destruct (Hs Hsc)).
  split; [by intros Hsc | by intros [id Hi]; destruct (Hid id)].
Qed.

Lemma foreign_filter id l : (forall i, i ∈ l -> foreign_input i) ->
  List.filter (on_approval id) l = [].
Proof.
  intros Hf. apply filterb_none. intros i Hi. apply String.eqb_neq. by apply Hf.
Qed.

Lemma on_approval_own id id' (i : Input) :
  in_stream_id (te_event i) = approval_stream id ->
  on_approval id' i = bool_decide (id' = id).
Proof.
  intros Hi. unfold on_approval. rewrite Hi. case_bool_decide as Hb.
  - subst. apply String.eqb_refl.
  - apply String.eqb_neq. intros ?%approval_stream_inj. congruence.
Qed.

(** An event of the approval's own stream is disciplined when what it carries
    names the approval. *)
Lemma own_disciplined id kind status actor refs payload key v :
  (kind = "approval.submitted"%string ->
     exists r, payload_request payload = Some r /\ aq_approval_id r = id) ->
  (kind = "approval.grant_issued"%string ->
     exists g, payload_grant payload = Some g /\ gt_approval_id g = id /\
       gt_grant_id g = approval_grant_id id) ->
  (is_close_kind kind -> payload_grant_id payload = Some (approval_grant_id id)) ->
  disciplined_input {| te_event := approval_event (approval_stream id) kind status actor refs payload;
                       te_idempotency_key := key; te_schema_version := v |}.
Proof.
  intros Hr Hg Hc. split; cbn.
  - split; [by exists id | done].
  - intros _ Hk. destruct (Hr Hk) as (r & ? & <-). by exists r.
  - intros _ Hk. destruct (Hg Hk) as (g & ? & <- & ?). by exists g.
  - intros _ Hk. exists id. split; [by apply Hc | done].
Qed.

(** The same for a resolution, which carries nothing that names it. *)
Lemma resolution_disciplined id kind status actor refs payload key v :
  is_resolution_kind kind = true ->
  disciplined_input {| te_event := approval_event (approval_stream id) kind status actor refs payload;
                       te_idempotency_key := key; te_schema_version := v |}.
Proof.
  intros Hk. apply own_disciplined; [by intros -> | by intros -> | by intros [-> | ->]].
Qed.

(** A batch on the approval's stream. *)
Lemma batch_write_ok s0 id tx inputs :
  (forall i, i ∈ inputs -> in_stream_id (te_event i) = approval_stream id /\ disciplined_input i /\
     (te_idempotency_key i = Some (timeout_key id) -> tx = timeout_key id)) ->
  (forall evs, views_of inputs evs ->
     approval_state s0 id = after_events (approval_state s0 id) evs /\ grant_tx tx \/
     life id tx (approval_state s0 id) (after_events (approval_state s0 id) evs)) ->
  write_ok s0 id
    (batch (approval_stream id) (eb_stream_revision s0 (approval_stream id)) tx inputs).
Proof.
  intros Hi Hl.
  assert (List.filter (on_approval id) inputs = inputs) as Hown.
  { apply filterb_all. intros i Hin. rewrite (on_approval_own id) by apply (Hi i Hin).
    by apply bool_decide_eq_true. }
  split; cbn.
  - left.
  - intros i Hin. apply (Hi i Hin).
  - intros id' Hne. apply filterb_none. intros i Hin.
    rewrite (on_approval_own id) by apply (Hi i Hin). by apply bool_decide_eq_false.
  - rewrite Hown. apply Hl.
  - rewrite Hown. intros i Hin. apply (Hi i Hin).
Qed.

Lemma views_nil evs : views_of [] evs -> evs = [].
Proof. intros Hv. by apply fmap_nil_inv in Hv. Qed.

Lemma views_cons i l evs : views_of (i :: l) evs ->
  exists e evs', evs = e :: evs' /\ event_view e = input_view i /\ views_of l evs'.
Proof.
  unfold views_of. destruct evs as [|e evs]; [done|]. rewrite !fmap_cons. intros Hv.
  exists e, evs. split_and!; [done | congruence | congruence].
Qed.

(** ** The plans of the queue *)

Lemma approval_state_restore s id o g :
  approval_state s id = (o, g) -> restore_approval_request s id = o.
Proof. by intros [= <- _]. Qed.

Lemma submit_write_ok clk id sub expires skippable scopes q s0 r finish q' :
  life_ok id (approval_state s0 id) ->
  submit_plan clk id sub expires skippable scopes q s0 = (Ok (Commit r finish), q') ->
  write_ok s0 id r.
Proof.
  intros Hok Hp. unfold submit_plan in Hp. destruct (validate_submission id sub); [|discriminate].
  unfold queue_get in Hp. destruct (q_requests q !! id); [by repeat case_match|].
  destruct (approval_state s0 id) as [o g] eqn:Est.
  rewrite (approval_state_restore _ _ _ _ Est) in Hp.
  destruct o as [x|]; [by repeat case_match|]. cbn in Hok. subst g. injection Hp as <- _ _.
  apply batch_write_ok.
  - intros i ->%list_elem_of_singleton. split_and!; [done | | done].
    apply own_disciplined; [intros _ | done | by intros [|]].
    eexists. split; [apply payload_of_request | done].
  - intros evs (e & evs' & -> & He & ->%views_nil)%views_cons. right. rewrite Est.
    unfold after_events. cbn [fold_left fst snd].
    destruct (submitted_event e None None _ _ _ _ _ He (payload_of_request _)) as [-> ->].
    by apply LifeSubmit.
Qed.

(** The one or two events of a decision, as the queue (no keys) and the graph
    (keyed) write them. *)
Definition decision_inputs (c : ApprovalDecisionCommand) (x : ApprovalRequest) (t1 t2 : N)
    (skip : bool) (m : string) (key key2 : option string) (v : N) : list Input :=
  {| te_event := decided_event x (decided_status c) (decision_of c t2) skip m t1;
     te_idempotency_key := key; te_schema_version := v |}
  :: match issued_grant c x t2 with
     | Some g => [{| te_event := grant_issued_event x g; te_idempotency_key := key2;
                     te_schema_version := v |}]
     | None => []
     end.

(** What [decide_authorized] writes. *)
Lemma decide_authorized_commit clk c q s0 r finish q' :
  decide_authorized clk c q s0 = (Ok (Commit r finish), q') ->
  exists x, restore_approval_request s0 (ad_approval_id c) = Some x /\
    (aq_status x = StPending \/ aq_status x = StDenied) /\ decision_allowed c x = Ok tt /\
    trim_is_empty (ada_actor_id (ad_actor c)) = false /\
    r = batch (approval_stream (ad_approval_id c))
          (eb_stream_revision s0 (approval_stream (ad_approval_id c)))
          (decision_tx (aq_approval_id x))
          (decision_inputs c x (clk 0) (clk 1) (ad_skip c) (decided_message c) None None
             EVENT_SCHEMA_VERSION) /\
    finish = finish_request (aq_approval_id x) (decided_receipt c x) (issued_grant c x (clk 1)).
Proof.
  unfold decide_authorized. destruct (trim_is_empty _) eqn:Ea; [discriminate|].
  destruct (restore_approval_request s0 (ad_approval_id c)) as [x|]; [|discriminate].
  destruct (hydrate_request q s0 (ad_approval_id c)) as [q1|]; [|discriminate].
  destruct (decision_allowed c x) as [[]|] eqn:Eall; [|discriminate].
  destruct (negb (bool_decide (aq_status x = StPending))
            && negb (bool_decide (aq_status x = StDenied))) eqn:Es; [discriminate|].
  intros [= <- <- _]. exists x. split_and!; try done;
    [|unfold decision_inputs; by destruct (issued_grant c x (clk 1))].
  apply andb_false_iff in Es as [Es|Es]; apply negb_false_iff, bool_decide_eq_true in Es; auto.
Qed.

Lemma decision_allowed_inv c x : decision_allowed c x = Ok tt ->
  as_kind (aq_source x) <> AsEvolution /\ typed_application (aq_source x) = None /\
  (ad_skip c = true -> aq_skippable x = true) /\ ad_scope c ∈ aq_allowed_scopes x.
Proof.
  unfold decision_allowed. intros Hd. ok_inv. split_and!.
  - by apply bool_decide_eq_false in Ha.
  - apply bool_decide_eq_false in Ha0. by apply eq_None_not_Some.
  - intros Hs. rewrite Hs in Ha1. cbn in Ha1. by apply negb_false_iff in Ha1.
  - by apply negb_false_iff, memb_true in Hd.
Qed.

Lemma decision_events_state c x t1 t2 skip m evs key key2 v :
  views_of (decision_inputs c x t1 t2 skip m key key2 v) evs ->
  after_events (Some x, None) evs
    = (Some (with_resolution x (decided_status c) (Some (decision_of c t2)) (Some t1)),
       issued_grant c x t2).
Proof.
  intros (e & evs' & -> & He & Hv)%views_cons. unfold after_events. cbn [fold_left fst snd].
  destruct (resolution_event e x None _ _ _ _ _ _ _ He eq_refl (decided_status_resolved c)
              (decision_of_payload _ _ _ _) (resolved_of_payload _ _ _ _)) as [-> ->].
  destruct (issued_grant c x t2) as [g|]; [|apply views_nil in Hv as ->; done].
  apply views_cons in Hv as (e2 & evs'' & -> & He2 & ->%views_nil). cbn [fold_left].
  by destruct (issued_event e2 (Some (with_resolution x (decided_status c)
       (Some (decision_of c t2)) (Some t1))) None _ _ _ _ _ He2 (payload_of_grant _)) as [-> ->].
Qed.

Lemma decision_inputs_ok id c x t1 t2 skip m key key2 v i :
  aq_approval_id x = id -> key <> Some (timeout_key id) -> key2 <> Some (timeout_key id) ->
  i ∈ decision_inputs c x t1 t2 skip m key key2 v ->
  in_stream_id (te_event i) = approval_stream id /\ disciplined_input i /\
  te_idempotency_key i <> Some (timeout_key id).
Proof.
  intros <- Hk Hk2 [-> | Hi]%elem_of_cons; [by split_and!; [|apply resolution_disciplined|]|].
  unfold issued_grant in Hi. destruct (ad_approved c); [|by apply not_elem_of_nil in Hi].
  apply list_elem_of_singleton in Hi as ->. split_and!; [done | | done].
  apply own_disciplined; [done | intros _ | by intros [|]].
  eexists. split; [apply payload_of_grant | done].
Qed.

Lemma decision_write_ok clk c q s0 r finish q' :
  life_ok (ad_approval_id c) (approval_state s0 (ad_approval_id c)) ->
  (ad_scope c = GsGlobal -> global_authority (ad_actor c)) ->
  decide_authorized clk c q s0 = (Ok (Commit r finish), q') ->
  write_ok s0 (ad_approval_id c) r /\
  rq_transaction_id r = decision_tx (ad_approval_id c).
Proof.
  intros Hok Hgl Hp.
  destruct (decide_authorized_commit _ _ _ _ _ _ _ Hp) as (x & Hx & Hst & Hall & _ & -> & _).
  destruct (decision_allowed_inv _ _ Hall) as (_ & _ & Hskip & Hscope).
  destruct (approval_state s0 (ad_approval_id c)) as [o g] eqn:Est.
  rewrite (approval_state_restore _ _ _ _ Est) in Hx. subst o.
  rewrite (open_no_grant _ _ _ Hok Hst) in *. destruct Hok as (Hid & _).
  rewrite Hid. split; [|done].
  apply batch_write_ok.
  - intros i Hi. by eapply decision_inputs_ok in Hi as (? & ? & ?).
  - intros evs Hv. right. rewrite Est, (decision_events_state _ _ _ _ _ _ _ _ _ _ Hv).
    apply LifeDecide; try done. by right.
Qed.

(** The three entrances of [decide_authorized] allow a global grant to people
    and to the trust-all policies only. *)
Lemma decide_plan_inv clk p c q s0 pl q' :
  decide_plan clk p c q s0 = (Ok pl, q') ->
  decide_authorized clk (with_actor c ActorHuman (pl_principal_id p)) q s0 = (Ok pl, q').
Proof. unfold decide_plan. by case_match. Qed.

Lemma decide_surface_inv clk actor c q s0 pl q' :
  decide_surface_human_plan clk actor c q s0 = (Ok pl, q') ->
  ad_scope c <> GsGlobal /\
  decide_authorized clk (with_actor c ActorHuman actor) q s0 = (Ok pl, q').
Proof.
  unfold decide_surface_human_plan. case_match; [done|]. case_bool_decide; [done|]. done.
Qed.

Lemma decide_internal_inv clk c q s0 pl q' :
  decide_internal_plan clk c q s0 = (Ok pl, q') ->
  (ad_scope c = GsGlobal -> global_authority (ad_actor c)) /\
  ada_kind (ad_actor c) <> ActorHuman /\
  decide_authorized clk c q s0 = (Ok pl, q').
Proof.
  unfold decide_internal_plan. cbv zeta.
  destruct (bool_decide (ad_scope c = GsGlobal) && _ && _) eqn:Eg; [done|].
  destruct (bool_decide (ada_kind (ad_actor c) = ActorHuman)) eqn:Hh; [done|].
  apply bool_decide_eq_false in Hh. intros Hd. split_and!; [|done..]. intros Hg.
  rewrite (bool_decide_true _ Hg) in Eg. cbn in Eg.
  apply negb_false_iff, andb_true_iff in Eg as [Hk Hm].
  right. split; [by apply bool_decide_eq_true in Hk | by apply memb_true in Hm].
Qed.

Lemma with_actor_global c id : ad_scope (with_actor c ActorHuman id) = GsGlobal ->
  global_authority (ad_actor (with_actor c ActorHuman id)).
Proof. intros _. by left. Qed.

(** The state a single resolution event leaves. *)
Lemma one_resolution evs x i st payload t d :
  views_of [i] evs ->
  input_view i = (in_stream_id (te_event i), ScApproval, in_kind (te_event i),
                  Some (approval_status_as_str st), payload, te_idempotency_key i) ->
  is_resolution_kind (in_kind (te_event i)) = true -> st <> StPending ->
  payload_decision payload = d -> resolved_member payload = Some t ->
  after_events (Some x, None) evs = (Some (with_resolution x st d (Some t)), None).
Proof.
  intros (e & evs' & -> & He & ->%views_nil)%views_cons Hi Hk Hne Hd Ht.
  unfold after_events. cbn [fold_left fst snd]. rewrite Hi in He.
  by destruct (resolution_event e x None _ _ _ _ _ _ _ He Hk Hne Hd Ht) as [-> ->].
Qed.

Lemma timeout_write_ok clk id q s0 r finish q' :
  life_ok id (approval_state s0 id) ->
  timeout_plan clk id q s0 = (Ok (Commit r finish), q') -> write_ok s0 id r.
Proof.
  intros Hok Hp. unfold timeout_plan in Hp.
  destruct (approval_state s0 id) as [o g] eqn:Est.
  rewrite (approval_state_restore _ _ _ _ Est) in Hp. destruct o as [x|]; [|discriminate].
  destruct (hydrate_request q s0 id) as [q1|]; [|discriminate].
  destruct (negb (bool_decide (aq_status x = StPending))) eqn:Es; [discriminate|].
  apply negb_false_iff, bool_decide_eq_true in Es.
  pose proof (open_no_grant _ _ _ Hok (or_introl Es)) as ->.
  assert (aq_approval_id x = id) as Hid by (by destruct Hok).
  destruct (_ && _).
  { apply decide_internal_inv in Hp as (_ & _ & Hp). rewrite Hid in Hp.
    eapply (decision_write_ok _ (auto_approve_command id)); [|done|exact Hp].
    change (life_ok id (approval_state s0 id)). by rewrite Est. }
  destruct (eb_event_by_key _ _ _); [by destruct (finish_request _ _ _)|].
  injection Hp as <- _ _. rewrite Hid. apply batch_write_ok.
  - intros i ->%list_elem_of_singleton. split_and!; [done | by apply resolution_disciplined | done].
  - intros evs Hv. right. rewrite Est.
    rewrite (one_resolution _ _ _ StTimedOut _ _ _ Hv eq_refl eq_refl ltac:(done)
               (decision_of_timeout _ _) (resolved_of_timeout _ _)).
    by apply LifeTimeout.
Qed.

Lemma cancel_write_ok clk id reason superseded q s0 r finish q' :
  life_ok id (approval_state s0 id) ->
  cancel_plan clk id reason superseded q s0 = (Ok (Commit r finish), q') -> write_ok s0 id r.
Proof.
  intros Hok Hp. unfold cancel_plan in Hp.
  destruct (approval_state s0 id) as [o g] eqn:Est.
  rewrite (approval_state_restore _ _ _ _ Est) in Hp. destruct o as [x|]; [|discriminate].
  destruct (hydrate_request q s0 id) as [q1|]; [|discriminate].
  destruct (negb (bool_decide (aq_status x = StPending))) eqn:Es; [discriminate|].
  apply negb_false_iff, bool_decide_eq_true in Es.
  pose proof (open_no_grant _ _ _ Hok (or_introl Es)) as ->.
  assert (aq_approval_id x = id) as Hid by (by destruct Hok).
  injection Hp as <- _ _. rewrite Hid. apply batch_write_ok.
  - intros i ->%list_elem_of_singleton. split_and!; [done | | done].
    apply resolution_disciplined. by destruct superseded.
  - intros evs Hv. right. rewrite Est.
    rewrite (one_resolution _ _ _ (if superseded then StSuperseded else StCancelled) _ _ _ Hv
               eq_refl ltac:(by destruct superseded) ltac:(by destruct superseded)
               (decision_of_cancel _) (resolved_of_cancel _)).
    by apply LifeCancel.
Qed.

(** The fact of an application is written on the cached request: here the
    cache holds the durable one. *)
Lemma application_write_ok clk id app review decided_by approved decision reason lease q s0 r
    finish q' :
  life_ok id (approval_state s0 id) ->
  (forall x, q_requests q !! id = Some x -> restore_approval_request s0 id = Some x) ->
  record_application_decision_plan clk id app review decided_by approved decision reason lease q s0
    = (Ok (Commit r finish), q') -> write_ok s0 id r.
Proof.
  intros Hok Hq Hp. unfold record_application_decision_plan in Hp.
  destruct (_ || trim_is_empty lease); [discriminate|].
  destruct (hydrate_request q s0 id) as [q1|] eqn:Eh; [|discriminate].
  destruct (q_requests q1 !! id) as [x|] eqn:Ex; [|discriminate].
  assert (restore_approval_request s0 id = Some x) as Hx.
  { unfold hydrate_request in Eh. destruct (q_requests q !! id) as [y|] eqn:Ey.
    - injection Eh as <-. rewrite Ey in Ex. injection Ex as <-. by apply Hq.
    - ok_inv. subst q1. cbn in Ex. rewrite lookup_insert_eq in Ex. congruence. }
  destruct (application_correlates app review (aq_source x)) eqn:Ec; [|discriminate]. cbn in Hp.
  destruct (negb (bool_decide (aq_status x = StPending))) eqn:Es; [by case_match|].
  apply negb_false_iff, bool_decide_eq_true in Es.
  destruct (approval_state s0 id) as [o g] eqn:Est.
  rewrite (approval_state_restore _ _ _ _ Est) in Hx. subst o.
  pose proof (open_no_grant _ _ _ Hok (or_introl Es)) as ->.
  assert (aq_approval_id x = id) as Hid by (by destruct Hok).
  injection Hp as <- _ _. rewrite Hid. apply batch_write_ok.
  - intros i ->%list_elem_of_singleton. split_and!; [done | by apply resolution_disciplined | done].
  - intros evs Hv. right. rewrite Est.
    rewrite (one_resolution _ _ _ (if approved then StApproved else StDenied) _ _ _ Hv
               eq_refl eq_refl ltac:(by destruct approved)
               (decision_of_application _ _ _ _ _ _) (resolved_of_application _ _ _ _ _ _)).
    apply LifeApplication; [done| |by eexists]. unfold application_correlates in Ec.
    apply andb_true_iff in Ec as [[Hk%bool_decide_eq_true Ha%bool_decide_eq_true]%andb_true_iff _].
    unfold typed_application. rewrite decide_True by done. by rewrite Ha.
Qed.

(** Grants are cached under the name of their approval. *)
Definition grants_named (q : ApprovalQueue) : Prop :=
  forall gid g, q_grants q !! gid = Some g -> gid = approval_grant_id (gt_approval_id g).

Lemma close_grant_with e g : exists st exp rev reason,
  close_grant e g = with_grant_status g st exp rev reason /\ st <> AgActive.
Proof. unfold close_grant. case_match; by eexists _, _, _, _. Qed.

Lemma close_write_ok s0 id tx kind status actor refs payload :
  is_close_kind kind -> grant_tx tx -> payload_grant_id payload = Some (approval_grant_id id) ->
  write_ok s0 id
    (batch (approval_stream id) (eb_stream_revision s0 (approval_stream id)) tx
       [transaction_event_from (approval_event (approval_stream id) kind status actor refs payload)]).
Proof.
  intros Hk Htx Hp. apply batch_write_ok.
  - intros i ->%list_elem_of_singleton. split_and!; [done | | done].
    apply own_disciplined; [by destruct Hk as [-> | ->] | by destruct Hk as [-> | ->] | done].
  - intros evs (e & evs' & -> & He & ->%views_nil)%views_cons.
    destruct (approval_state s0 id) as [o g]. unfold after_events. cbn [fold_left fst snd].
    destruct (closing_event e o g _ _ _ _ _ He Hk) as [-> ->].
    destruct g as [g|]; [right | by left].
    destruct (close_grant_with e g) as (st & exp & rev & reason & Hc & Hne). cbn. rewrite Hc.
    by apply LifeClose.
Qed.

Lemma consume_write_ok clk gid q s0 r finish q' :
  grants_named q -> consume_once_grant_plan clk gid q s0 = (Ok (Commit r finish), q') ->
  exists id, write_ok s0 id r.
Proof.
  intros Hq Hp. unfold consume_once_grant_plan in Hp.
  destruct (q_grants q !! gid) as [g|] eqn:Eg; [|discriminate]. case_match; [discriminate|].
  injection Hp as <- _ _. exists (gt_approval_id g). apply close_write_ok; [by right | eexists; by left |].
  rewrite (Hq _ _ Eg). apply payload_grant_id_consume.
Qed.

Lemma revoke_write_ok clk p gid reason q s0 r finish q' :
  grants_named q -> revoke_grant_plan clk p gid reason q s0 = (Ok (Commit r finish), q') ->
  exists id, write_ok s0 id r.
Proof.
  intros Hq Hp. unfold revoke_grant_plan in Hp. case_match; [discriminate|].
  destruct (q_grants q !! gid) as [g|] eqn:Eg; [|discriminate]. case_match; [discriminate|].
  injection Hp as <- _ _. exists (gt_approval_id g). apply close_write_ok; [by left | eexists; by right |].
  rewrite (Hq _ _ Eg). apply payload_grant_id_revoke.
Qed.

(** A graph decision, committed with events of other components. *)
Lemma graph_write_ok s0 c t stream rev evs l1 l2 r :
  disciplined_store s0 -> life_ok (ad_approval_id c) (approval_state s0 (ad_approval_id c)) ->
  canonical_graph_decision s0 c t = Ok (stream, rev, evs) ->
  {| es_stream_id := stream; es_expected_revision := rev |} ∈ rq_expected_streams r ->
  rq_events r = l1 ++ evs ++ l2 ->
  (forall i, i ∈ l1 ++ l2 -> foreign_input i) -> foreign_tx (rq_transaction_id r) ->
  write_ok s0 (ad_approval_id c) r.
Proof.
  intros Hds Hok Hc Hexp Hev Hf Htx. set (id := ad_approval_id c) in *.
  unfold canonical_graph_decision in Hc. ok_inv. fold id in Ha1. subst stream rev evs.
  pose proof (restore_state_lookup s0 id Hds) as Hst. rewrite Ha1 in Hst.
  rewrite <- Hst in Hok.
  apply negb_false_iff, bool_decide_eq_true in Ha2. apply negb_false_iff, memb_true in Ha3.
  pose proof (open_no_grant _ _ _ Hok (or_introl Ha2)) as Hg. rewrite Hg in Hst, Hok.
  destruct Hok as (Hid & _). apply orb_false_iff in Ha0 as [Hh _].
  apply negb_false_iff, bool_decide_eq_true in Hh.
  set (evs := _ :: _) in Hev.
  assert (Hown : forall i, i ∈ evs -> in_stream_id (te_event i) = approval_stream id /\
    disciplined_input i /\ te_idempotency_key i <> Some (timeout_key id)).
  { intros i Hi. subst evs. by eapply decision_inputs_ok in Hi. }
  assert (Hfil : forall id', List.filter (on_approval id') (rq_events r)
                 = if decide (id' = id) then evs else []).
  { intros id'. rewrite Hev, !List.filter_app.
    rewrite (foreign_filter id' l1), (foreign_filter id' l2), app_nil_r; cbn [app];
      [|intros i Hi; apply Hf, elem_of_app; auto..].
    destruct (decide (id' = id)) as [->|Hne]; [apply filterb_all | apply filterb_none];
      intros i Hi; rewrite (on_approval_own id) by apply (Hown i Hi);
      [by apply bool_decide_eq_true | by apply bool_decide_eq_false]. }
  split.
  - done.
  - intros i. rewrite Hev, !elem_of_app. intros [Hi|[Hi|Hi]];
      [| by apply Hown |]; apply foreign_disciplined, Hf, elem_of_app; auto.
  - intros id' Hne. by rewrite Hfil, decide_False.
  - rewrite Hfil, decide_True by done. intros evs0 Hv. right. rewrite <- Hst.
    subst evs. rewrite (decision_events_state _ _ _ _ _ _ _ _ _ _ Hv).
    apply LifeDecide; [by left | done | | by left].
    intros Hs. congruence.
  - rewrite Hfil, decide_True by done. intros i Hi Hk. by destruct (Hown i Hi) as (_ & _ & ?).
Qed.
End Machine.
