(* ===== verification/ApprovalLifecycle.v ===== *)
(** * The life of an approval

    What the approval streams can and cannot become, whatever queue operations,
    graph decisions and unrelated transactions interleave on the store
    ([approval_history]): an operation plans on the store it reads and appends
    on a store other writers may have extended in the meantime. *)

From S2P Require Import Prelude Facts Contract Validation Delta Ports EventStore.
From S2P Require Import Samples Backend Approval ApprovalJournal ApprovalQueue.
From S2P Require Import ApprovalMachine.

Section Lifecycle.
Context {Value S : Type} `{Json Value} `{ApprovalJson Value} `{!ApprovalJsonLaws Value}
  `{EventBackend Value S} `{ScopeReads Value S} `{!Journal Value S}.

Abbreviation Event := (DurableRuntimeEvent Value).
Abbreviation Input := (RuntimeTransactionEventInput Value).
Abbreviation Request := (AppendTransactionRequest Value).
Abbreviation ApprovalState := (option ApprovalRequest * option ApprovalGrant)%type.

(** ** Histories of the store *)

Lemma plan_append_inv {A} (p : Planned Value A) r :
  plan_append p = Some r -> exists finish q', p = (Ok (Commit r finish), q').
Proof. destruct p as [[[a|r' f]|] q]; [done | intros [= ->]; eauto | done]. Qed.

(** A transaction some component prepares on the store [s0]. *)
Inductive approval_write (s0 : S) (r : Request) : Prop :=
| WriteSubmit clk id sub expires skippable scopes q :
    plan_append (submit_plan clk id sub expires skippable scopes q s0) = Some r ->
    approval_write s0 r
| WriteDecide clk p c q :
    plan_append (decide_plan clk p c q s0) = Some r -> approval_write s0 r
| WriteDecideSurface clk actor c q :
    plan_append (decide_surface_human_plan clk actor c q s0) = Some r -> approval_write s0 r
| WriteDecideInternal clk c q :
    plan_append (decide_internal_plan clk c q s0) = Some r -> approval_write s0 r
| WriteApplication clk id app review decided_by approved decision reason lease q :
    (forall x, q_requests q !! id = Some x -> restore_approval_request s0 id = Some x) ->
    plan_append (record_application_decision_plan clk id app review decided_by approved decision
                   reason lease q s0) = Some r -> approval_write s0 r
| WriteTimeout clk id q :
    plan_append (timeout_plan clk id q s0) = Some r -> approval_write s0 r
| WriteCancel clk id reason superseded q :
    plan_append (cancel_plan clk id reason superseded q s0) = Some r -> approval_write s0 r
| WriteConsume clk gid q :
    grants_named q -> plan_append (consume_once_grant_plan clk gid q s0) = Some r ->
    approval_write s0 r
| WriteRevoke clk p gid reason q :
    grants_named q -> plan_append (revoke_grant_plan clk p gid reason q s0) = Some r ->
    approval_write s0 r
| WriteGraph c t stream rev evs l1 l2 :
    canonical_graph_decision s0 c t = Ok (stream, rev, evs) ->
    {| es_stream_id := stream; es_expected_revision := rev |} ∈ rq_expected_streams r ->
    rq_events r = l1 ++ evs ++ l2 -> (forall i, i ∈ l1 ++ l2 -> foreign_input i) ->
    foreign_tx (rq_transaction_id r) -> approval_write s0 r
| WriteOther :
    (forall i, i ∈ rq_events r -> foreign_input i) -> foreign_tx (rq_transaction_id r) ->
    approval_write s0 r.

(** The states the store went through, newest first: each came from the one
    before by an append that was prepared on this or an earlier state. *)
Inductive approval_history : list S -> Prop :=
| HistoryStart s :
    jl_inv s -> jl_journal s = [] -> (forall tx, ~ jl_used s tx) -> approval_history [s]
| HistoryAppend h s s0 r terminal res s' :
    approval_history (s :: h) -> s0 ∈ s :: h -> approval_write s0 r ->
    eb_append r terminal s = (res, s') -> approval_history (s' :: s :: h).

(** What holds in every state of a history. *)
Record ApprovalInv (s : S) : Prop := {
  ai_disciplined : disciplined_store s;
  ai_life : forall id, life_ok id (approval_state s id);
  ai_submitted : forall id, restore_approval_request s id <> None <-> jl_used s (submit_tx id);
  ai_closed : forall id tx, closing_tx id tx -> jl_used s tx ->
    exists r, restore_approval_request s id = Some r /\ aq_status r <> StPending;
  ai_marker : forall id e, e ∈ eb_list_stream s (approval_stream id) ->
    ev_idempotency_key e = Some (timeout_key id) -> jl_used s (timeout_key id)
}.

Lemma approval_write_ok s0 r :
  ApprovalInv s0 -> approval_write s0 r ->
  (exists id, write_ok s0 id r) \/
  (forall i, i ∈ rq_events r -> foreign_input i) /\ foreign_tx (rq_transaction_id r).
Proof.
  intros [Hd Hl _] Hw. destruct Hw;
    try (match goal with Hp : plan_append _ = _ |- _ =>
           apply plan_append_inv in Hp as (finish & q' & Hp) end; left).
  - eexists. by eapply submit_write_ok.
  - eexists. eapply decision_write_ok; [apply Hl | apply with_actor_global|].
    by eapply decide_plan_inv.
  - eexists. eapply decision_write_ok; [apply Hl | apply with_actor_global|].
    by eapply decide_surface_inv.
  - match goal with Hp : decide_internal_plan _ _ _ _ = _ |- _ =>
      apply decide_internal_inv in Hp as (? & _ & ?) end.
    eexists. by eapply decision_write_ok.
  - eexists. by eapply application_write_ok.
  - eexists. by eapply timeout_write_ok.
  - eexists. by eapply cancel_write_ok.
  - by eapply consume_write_ok.
  - by eapply revoke_write_ok.
  - left. eexists. by eapply graph_write_ok.
  - by right.
Qed.

(** What a transaction does: nothing, or it is new and moves one approval by one
    transition, or moves none and has none of the queue's closing ids. *)
Inductive moves (s s' : S) (tx : string) : Prop :=
| MovesNothing : s' = s -> moves s s' tx
| MovesOne id :
    extends s s' -> ~ jl_used s tx -> (forall x, jl_used s' x <-> x = tx \/ jl_used s x) ->
    life id tx (approval_state s id) (approval_state s' id) ->
    (forall id', id' <> id -> approval_state s' id' = approval_state s id') -> moves s s' tx
| MovesNone :
    extends s s' -> ~ jl_used s tx -> (forall x, jl_used s' x <-> x = tx \/ jl_used s x) ->
    grant_tx tx \/ foreign_tx tx ->
    (forall id, approval_state s' id = approval_state s id) -> moves s s' tx.

Lemma append_moves s0 s r s' :
  ApprovalInv s0 -> extends s0 s -> approval_write s0 r -> appended r s s' ->
  moves s s' (rq_transaction_id r).
Proof.
  intros Hi0 He Hw [->|evs He' Hn Hu Hx Hj Hv]; [by apply MovesNothing|].
  pose proof (fun id => appended_state _ _ _ id He' Hj) as Hst.
  assert (Hnone : forall id, List.filter (on_approval id) (rq_events r) = [] ->
            approval_state s' id = approval_state s id).
  { intros id Hf. pose proof (views_filter id _ _ Hv) as Hvid. rewrite Hf in Hvid.
    rewrite Hst, (views_nil _ Hvid). by destruct (approval_state s id). }
  destruct (approval_write_ok _ _ Hi0 Hw) as [(id & Hok)|[Hf Htx]].
  - assert (Hoth : forall id', id' <> id -> approval_state s' id' = approval_state s id')
      by (intros id' Hne; by apply Hnone, (wo_others _ _ _ Hok)).
    pose proof (Hx _ (wo_expected _ _ _ Hok)) as Hrev. cbn in Hrev.
    pose proof (state_unchanged _ _ _ He Hrev) as Hsame.
    destruct (wo_life _ _ _ Hok _ (views_filter id _ _ Hv)) as [[Heq Hg]|Hl];
      rewrite <- Hsame in *.
    + apply MovesNone; auto. intros id'. destruct (decide (id' = id)) as [->|]; [|auto].
      by rewrite Hst, <- Heq.
    + apply (MovesOne _ _ _ id); auto. by rewrite Hst.
  - apply MovesNone; auto. intros id. by apply Hnone, foreign_filter.
Qed.

(** What happens to one approval when a transaction moves. *)
Lemma moves_life s s' tx id : moves s s' tx ->
  approval_state s' id = approval_state s id \/
  life id tx (approval_state s id) (approval_state s' id) /\ ~ jl_used s tx /\ jl_used s' tx.
Proof.
  intros [->|id' He Hn Hu Hl Hoth|He Hn Hu _ Hoth]; [by left | |by left].
  destruct (decide (id = id')) as [->|Hne]; [right|left; auto].
  split_and!; [done | done | apply Hu; by left].
Qed.

Lemma moves_request s s' tx id r : moves s s' tx -> restore_approval_request s id = Some r ->
  exists r', restore_approval_request s' id = Some r' /\
    (aq_status r <> StPending -> aq_status r' <> StPending).
Proof.
  intros Hm Hr. destruct (moves_life _ _ _ id Hm) as [Hs|(Hl & _)].
  - injection Hs as -> _. eauto.
  - by apply (life_keeps_request _ _ _ _ r Hl).
Qed.

Lemma moves_submitted s s' tx id :
  ApprovalInv s -> moves s s' tx ->
  restore_approval_request s' id <> None <-> jl_used s' (submit_tx id).
Proof.
  intros Hi Hm. pose proof (ai_submitted _ Hi id) as Hsub.
  assert (Hsame : approval_state s' id = approval_state s id ->
            restore_approval_request s' id = restore_approval_request s id)
    by (by intros [= -> _]).
  destruct Hm as [->|id' He Hn Hu Hl Hoth|He Hn Hu Htx Hoth]; [done| |]; rewrite Hu.
  - destruct (decide (id = id')) as [->|Hne].
    + split.
      * intros Hr. destruct (restore_approval_request s id') as [x|] eqn:Ex;
          [right; by apply Hsub|]. left. unfold approval_state at 1 in Hl. rewrite Ex in Hl.
        by destruct (life_creates _ _ _ _ Hl).
      * intros [Heq|Hus]; [by apply (life_submitting _ id' _ _ _ Hl)|].
        apply Hsub in Hus. destruct (restore_approval_request s id') as [x|] eqn:Ex; [|done].
        destruct (life_keeps_request _ _ _ _ x Hl Ex) as (x' & Hx' & _). cbn in Hx'. congruence.
    + rewrite (Hsame (Hoth _ Hne)), Hsub. split; [auto|]. intros [Heq|]; [|done].
      by destruct (life_submitting _ id _ _ _ Hl (eq_sym Heq)).
  - rewrite (Hsame (Hoth id)), Hsub. split; [auto|]. intros [Heq|]; [|done].
    destruct Htx as [Hg|Hf].
    + by destruct (grant_tx_open id _ Hg).
    + by destruct (proj2 Hf id).
Qed.

Lemma moves_closed s s' tx id tx' :
  ApprovalInv s -> moves s s' tx -> closing_tx id tx' -> jl_used s' tx' ->
  exists r, restore_approval_request s' id = Some r /\ aq_status r <> StPending.
Proof.
  intros Hi Hm Hc Hus.
  assert (Hold : jl_used s tx' ->
    exists r, restore_approval_request s' id = Some r /\ aq_status r <> StPending).
  { intros Hu. destruct (ai_closed _ Hi _ _ Hc Hu) as (r & Hr & Hne).
    destruct (moves_request _ _ _ _ _ Hm Hr) as (r' & ? & ?); eauto. }
  destruct Hm as [->|id' He Hn Hu Hl Hoth|He Hn Hu Htx Hoth]; [auto| |];
    apply Hu in Hus as [->|]; auto.
  - by destruct (life_closing _ _ _ _ _ Hl Hc) as [-> ?].
  - destruct Htx as [Hg|Hf]; [by destruct (grant_tx_open id _ Hg)|].
    destruct (proj2 Hf id) as (_ & ? & ? & ?). by destruct Hc as [|[|]].
Qed.

Lemma appended_marker s0 s r s' id e :
  ApprovalInv s0 -> ApprovalInv s -> approval_write s0 r -> appended r s s' ->
  e ∈ eb_list_stream s' (approval_stream id) ->
  ev_idempotency_key e = Some (timeout_key id) -> jl_used s' (timeout_key id).
Proof.
  intros Hi0 Hi Hw Happ He Hk. destruct Happ as [->|evs Hext Hn Hu Hx Hj Hv];
    [by apply (ai_marker _ Hi id e)|].
  rewrite (appended_stream _ _ _ _ Hext Hj) in He. apply Hu.
  apply elem_of_app in He as [He|He]; [right; by apply (ai_marker _ Hi id e)|].
  destruct (views_elem _ _ _ (views_filter id _ _ Hv) He) as (i & Hin & Hview).
  assert (te_idempotency_key i = Some (timeout_key id)) as Hki 
    by (unfold event_view, input_view in Hview; congruence).
  destruct (approval_write_ok _ _ Hi0 Hw) as [(id' & Hok)|[Hf _]].
  - destruct (decide (id = id')) as [->|Hne].
    + left. symmetry. by apply (wo_key _ _ _ Hok i).
    + rewrite (wo_others _ _ _ Hok _ Hne) in Hin. by apply not_elem_of_nil in Hin.
  - rewrite (foreign_filter id _ Hf) in Hin. by apply not_elem_of_nil in Hin.
Qed.

Lemma append_inv s0 s r s' :
  ApprovalInv s0 -> ApprovalInv s -> extends s0 s -> approval_write s0 r -> appended r s s' ->
  ApprovalInv s'.
Proof.
  intros Hi0 Hi He Hw Happ. pose proof (append_moves _ _ _ _ Hi0 He Hw Happ) as Hm. split.
  - eapply appended_disciplined; [|apply Hi | done].
    destruct (approval_write_ok _ _ Hi0 Hw) as [(id' & Hok)|[Hf _]]; [apply Hok|].
    intros i Hin. by apply foreign_disciplined, Hf.
  - intros id. destruct (moves_life _ _ _ id Hm) as [->|[Hl _]];
      [apply Hi | eapply life_preserves_ok; [apply Hi | done]].
  - intros id. by eapply moves_submitted.
  - intros id tx. by eapply moves_closed.
  - intros id e Hin Hk. by eapply (appended_marker s0 s r).
Qed.

Lemma start_inv s :
  jl_inv s -> jl_journal s = [] -> (forall tx, ~ jl_used s tx) -> ApprovalInv s.
Proof.
  intros Hi Hj Hu. assert (forall id, approval_state s id = (None, None)) as Hs.
  { intros id. unfold approval_state, restore_approval_request.
    by rewrite !jl_stream, Hj by done. }
  split.
  - split; [done|]. rewrite Hj. intros e He. by apply not_elem_of_nil in He.
  - intros id. by rewrite Hs.
  - intros id. rewrite (approval_state_restore _ _ _ _ (Hs id)). split; [done|].
    by intros ?%Hu.
  - intros id tx _ ?%Hu. done.
  - intros id e. rewrite jl_stream, Hj by done. by intros ?%not_elem_of_nil.
Qed.

(** Every state of a history is well formed and extended by the newest one. *)
Lemma history_inv s h : approval_history (s :: h) ->
  (forall x, x ∈ s :: h -> ApprovalInv x /\ extends x s).
Proof.
  remember (s :: h) as l eqn:El. intros Hh. revert s h El.
  induction Hh as [s Hi Hj Hu|h s s0 r terminal res s' Hh IH Hin Hw Ha]; intros x0 h0 [= <- <-] x Hx.
  - apply list_elem_of_singleton in Hx as ->.
    split; [by apply start_inv | by apply extends_refl].
  - specialize (IH s h eq_refl).
    destruct (IH s ltac:(left)) as [Hi _]. destruct (IH s0 Hin) as [Hi0 He0].
    pose proof (append_appended _ _ _ _ _ (proj1 (ai_disciplined _ Hi)) Ha) as Happ.
    pose proof (append_inv _ _ _ _ Hi0 Hi He0 Hw Happ) as Hi'.
    pose proof (appended_extends _ _ _ (proj1 (ai_disciplined _ Hi)) Happ) as He'.
    apply elem_of_cons in Hx as [->|Hx].
    + split; [done | apply extends_refl, (proj1 (ai_disciplined _ Hi'))].
    + destruct (IH x Hx) as [? He]. split; [done | by eapply extends_trans].
Qed.

(** A property of an approval that no later transition of the machine takes
    away stays with it. *)
Lemma history_keeps (P : ApprovalState -> Prop) id s h s1 :
  approval_history (s :: h) -> s1 ∈ s :: h ->
  (forall x tx st', ApprovalInv x -> extends s1 x -> P (approval_state x id) -> ~ jl_used x tx ->
     life id tx (approval_state x id) st' -> P st') ->
  P (approval_state s1 id) -> P (approval_state s id).
Proof.
  remember (s :: h) as l eqn:El. intros Hh. revert s h El.
  induction Hh as [s Hi Hj Hu|h s s0 r terminal res s' Hh IH Hin Hw Ha];
    intros x0 h0 [= <- <-] Hs1 Hlife HP.
  - by apply list_elem_of_singleton in Hs1 as ->.
  - apply elem_of_cons in Hs1 as [->|Hs1]; [done|].
    pose proof (IH s h eq_refl Hs1 Hlife HP) as HPs.
    destruct (history_inv _ _ Hh s1 Hs1) as [_ He1].
    destruct (history_inv _ _ Hh s ltac:(left)) as [Hi _].
    destruct (history_inv _ _ Hh s0 Hin) as [Hi0 He0].
    pose proof (append_appended _ _ _ _ _ (proj1 (ai_disciplined _ Hi)) Ha) as Happ.
    destruct (moves_life _ _ _ id (append_moves _ _ _ _ Hi0 He0 Hw Happ)) as [->|(Hl & Hn & _)];
      [done|].
    by eapply (Hlife s).
Qed.




(** A denial made through the queue is final as well: the queue decides an
    approval under the transaction id ["approval-decision:<id>"], which a store
    accepts once, so a second decision never replaces the first. *)
Theorem queue_denial_final s h s1 id r
    (Hh : approval_history (s :: h)) (Hin : s1 ∈ s :: h)
    (Hr : restore_approval_request s1 id = Some r) (Hd : aq_status r = StDenied)
    (Hu : jl_used s1 (decision_tx id)) :
  restore_approval_request s id = Some r.
Proof.
  apply (history_keeps (fun st => st.1 = Some r) id s h s1 Hh Hin); [|exact Hr].
  intros x tx st' _ He Hst Hn Hl.
  generalize dependent (approval_state x id). intros st Hst Hl.
  destruct Hl as [| ? ? ? ? [[Hs _]|[[Hs|_] ->]] | ? ? ? Hs | ? ? Hs | ? ? ? ? Hs |];
    cbn in *; simplify_eq; try congruence.
  destruct Hn. by apply (ex_used _ _ He).
Qed.

(** The end of a grant is final: a grant that was consumed or revoked is
    never active again, and no new grant takes its place. *)
Theorem grant_end_final s h s1 id g
    (Hh : approval_history (s :: h)) (Hin : s1 ∈ s :: h)
    (Hg : (restore_approval_state s1).2 !! approval_grant_id id = Some g)
    (Hs : gt_status g <> AgActive) :
  exists g', (restore_approval_state s).2 !! approval_grant_id id = Some g' /\
    gt_status g' <> AgActive /\
    exists st exp rev reason, g' = with_grant_status g st exp rev reason.
Proof.
  destruct (history_inv _ _ Hh s1 Hin) as [Hi1 _].
  destruct (history_inv _ _ Hh s ltac:(left)) as [Hi _].
  pose proof (f_equal snd (restore_state_lookup s id (ai_disciplined _ Hi))) as Es.
  pose proof (f_equal snd (restore_state_lookup s1 id (ai_disciplined _ Hi1))) as Es1.
  cbn [snd] in Es, Es1. rewrite Es. rewrite Es1 in Hg.
  apply (history_keeps (fun st => exists g', st.2 = Some g' /\ gt_status g' <> AgActive /\
           exists st0 exp rev reason, g' = with_grant_status g st0 exp rev reason)
           id s h s1 Hh Hin).
  - intros x tx st' Hx _ (g' & Hg' & Hne & st0 & exp & rev & reason & ->) _ Hl.
    generalize dependent (approval_state x id). intros st Hg' Hl.
    destruct Hl; cbn in *; simplify_eq; try done.
    eexists. split_and!; [done | done |]. by eexists _, _, _, _.
  - exists g. split_and!; [exact Hg | done |]. exists (gt_status g), (gt_expires_at_ms g),
      (gt_revoked_at_ms g), (gt_revoke_reason g). by destruct g.
Qed.

(** ** What an operation answers is what the store says *)

(** A batch that is accepted: repeated, or appended to its stream. *)
Lemma batch_committed id tx inputs s rev rcp s' :
  jl_inv s -> (forall i, i ∈ inputs -> in_stream_id (te_event i) = approval_stream id) ->
  eb_append (batch (approval_stream id) rev tx inputs) None s = (Ok rcp, s') ->
  s' = s /\ jl_used s tx \/
  ~ jl_used s tx /\ exists evs, views_of inputs evs /\
    approval_state s' id = after_events (approval_state s id) evs.
Proof.
  intros Hi Hown Ha.
  destruct (jl_append _ _ _ _ _ Hi Ha)
    as [[-> Hu]|(rcp' & evs & _ & Hi' & Hn & Hu & Hx & Hj & Hv)].
  - left. split; [done | by apply (Hu rcp)].
  - right. split; [done|]. exists (List.filter (on_stream (approval_stream id)) evs).
    assert (extends s s') as Hext.
    { split; [done | done | by exists evs |]. intros x Hxu. apply Hu. by right. }
    rewrite (appended_state _ _ _ id Hext Hj). split; [|done].
    pose proof (views_filter id _ _ Hv) as Hvid. cbn in Hvid.
    rewrite (filterb_all _ inputs) in Hvid; [done|].
    intros i Hin. rewrite (on_approval_own id) by auto. by apply bool_decide_eq_true.
Qed.

Lemma perform_commit {A} (p : Planned Value A) s a q' s' r :
  plan_append p = Some r -> perform p s = (Ok a, q', s') ->
  exists rcp finish q1, p = (Ok (Commit r finish), q1) /\ eb_append r None s = (Ok rcp, s') /\
    finish q1 = (a, q').
Proof.
  intros Hp Hd. destruct (plan_append_inv _ _ Hp) as (finish & q1 & ->). cbn in Hd.
  destruct (eb_append r None s) as [[rcp|e] s1] eqn:Ea; [|discriminate].
  destruct (finish q1) as [a1 q2] eqn:Ef. injection Hd as <- <- <-. eauto 6.
Qed.

(** The cache no longer holds an approval, nor a deadline for it. *)
Definition forgotten (id : string) (q : ApprovalQueue) : Prop :=
  q_requests q !! id = None /\
  forall d ids, q_deadlines q !! d = Some ids -> id ∉ ids.

Lemma forgotten_drop id q : forgotten id (drop_request id (remove_active_deadline id q)).
Proof.
  split; cbn; [apply lookup_delete_eq|]. intros d ids Hd.
  apply lookup_omap_Some in Hd as (ids' & Hd & _). case_match; [done|].
  injection Hd as <-. set_solver.
Qed.

Lemma restored_id s id x : ApprovalInv s -> restore_approval_request s id = Some x ->
  aq_approval_id x = id.
Proof.
  intros Hi Hx. pose proof (ai_life _ Hi id) as Hok. unfold approval_state in Hok.
  rewrite Hx in Hok. by destruct Hok.
Qed.

(** ["already <status>"] answers of [decide_authorized], [timeout], [cancel]. *)
Lemma perform_closed x grant q s receipt q' s' :
  perform (answer_closed (Value := Value) x grant q) s = (Ok receipt, q', s') ->
  s' = s /\ rd_status receipt = aq_status x /\ forgotten (aq_approval_id x) q'.
Proof. intros [= <- <- <-]. split_and!; [done | done | apply forgotten_drop]. Qed.

(** The three entrances, with the command each of them decides. *)
Definition decision_entry (clk : nat -> N) (c : ApprovalDecisionCommand) (q : ApprovalQueue)
    (s : S) (p : Planned Value ApprovalDecisionReceipt) : Prop :=
  (exists pr c0, is_human_interactive pr && has_capability pr "approval.respond" = true /\
     c = with_actor c0 ActorHuman (pl_principal_id pr) /\ p = decide_plan clk pr c0 q s) \/
  (exists actor c0, ad_scope c0 <> GsGlobal /\ c = with_actor c0 ActorHuman actor /\
     p = decide_surface_human_plan clk actor c0 q s) \/
  ada_kind (ad_actor c) <> ActorHuman /\ p = decide_internal_plan clk c q s.

Lemma decision_entry_authorized clk c q s p pl q1 :
  decision_entry clk c q s p -> p = (Ok pl, q1) ->
  decide_authorized clk c q s = (Ok pl, q1) /\
  (ad_scope c = GsGlobal -> global_authority (ad_actor c)).
Proof.
  intros [(pr & c0 & _ & -> & ->)|[(actor & c0 & _ & -> & ->)|[_ ->]]] Hp.
  - split; [by apply decide_plan_inv | apply with_actor_global].
  - split; [by eapply decide_surface_inv | apply with_actor_global].
  - apply decide_internal_inv in Hp as (? & _ & ?). done.
Qed.

Lemma decision_committed clk c q s r finish q1 rcp s' :
  ApprovalInv s -> decide_authorized clk c q s = (Ok (Commit r finish), q1) ->
  eb_append r None s = (Ok rcp, s') ->
  exists x, restore_approval_request s (ad_approval_id c) = Some x /\
    aq_approval_id x = ad_approval_id c /\ decision_allowed c x = Ok tt /\
    finish = finish_request (ad_approval_id c) (decided_receipt c x) (issued_grant c x (clk 1)) /\
    (aq_status x = StPending \/ aq_status x = StDenied) /\
    (s' = s /\ aq_status x = StDenied /\ jl_used s (decision_tx (ad_approval_id c)) \/
     approval_state s' (ad_approval_id c)
       = (Some (with_resolution x (decided_status c) (Some (decision_of c (clk 1)))
                  (Some (clk 0))), issued_grant c x (clk 1))).
Proof.
  intros Hi Hp Ha.
  destruct (decide_authorized_commit _ _ _ _ _ _ _ Hp) as (x & Hx & Hst & Hall & _ & -> & ->).
  pose proof (ai_life _ Hi (ad_approval_id c)) as Hok.
  destruct (approval_state s (ad_approval_id c)) as [o g] eqn:Est.
  pose proof (approval_state_restore _ _ _ _ Est) as Ho. rewrite Hx in Ho. subst o.
  pose proof (open_no_grant _ _ _ Hok Hst) as ->.
  assert (aq_approval_id x = ad_approval_id c) as Hid by (by destruct Hok).
  exists x. rewrite Hid in *. split_and!; try done.
  assert (Hown : forall i, i ∈ decision_inputs c x (clk 0) (clk 1) (ad_skip c)
      (decided_message c) None None EVENT_SCHEMA_VERSION ->
    in_stream_id (te_event i) = approval_stream (ad_approval_id c)).
  { intros i Hin. by apply (decision_inputs_ok (ad_approval_id c)) in Hin as (? & _). }
  destruct (batch_committed _ _ _ _ _ _ _ (proj1 (ai_disciplined _ Hi)) Hown Ha)
    as [[-> Hu]|[_ (evs & Hv & Hs')]].
  - left. destruct Hst as [Hst|Hst]; [|done].
    destruct (ai_closed _ Hi (ad_approval_id c) _ (or_introl eq_refl) Hu) as (y & Hy & Hne).
    congruence.
  - right. rewrite Hs', Est. by apply (decision_events_state _ _ _ _ _ _ _ _ _ _ Hv).
Qed.

(** One resolution event under a closing transaction of a pending request. *)
Lemma closing_committed s id tx rev x i st payload t d rcp s' :
  ApprovalInv s -> restore_approval_request s id = Some x -> aq_status x = StPending ->
  closing_tx id tx ->
  eb_append (batch (approval_stream id) rev tx [i]) None s = (Ok rcp, s') ->
  input_view i = (in_stream_id (te_event i), ScApproval, in_kind (te_event i),
                  Some (approval_status_as_str st), payload, te_idempotency_key i) ->
  in_stream_id (te_event i) = approval_stream id ->
  is_resolution_kind (in_kind (te_event i)) = true -> st <> StPending ->
  payload_decision payload = d -> resolved_member payload = Some t ->
  approval_state s' id = (Some (with_resolution x st d (Some t)), None).
Proof.
  intros Hi Hx Hp Hc Ha Hv Hid Hk Hne Hd Ht.
  assert (Hown : forall j, j ∈ [i] -> in_stream_id (te_event j) = approval_stream id)
    by (by intros j ->%list_elem_of_singleton).
  destruct (batch_committed _ _ _ _ _ _ _ (proj1 (ai_disciplined _ Hi)) Hown Ha)
    as [[-> Hu]|[_ (evs & Hvs & Hs')]].
  - destruct (ai_closed _ Hi id tx Hc Hu) as (y & Hy & Hny). congruence.
  - pose proof (ai_life _ Hi id) as Hok.
    destruct (approval_state s id) as [o g] eqn:Est.
    pose proof (approval_state_restore _ _ _ _ Est) as Ho. rewrite Hx in Ho. subst o.
    pose proof (open_no_grant _ _ _ Hok (or_introl Hp)) as ->.
    rewrite Hs'. by apply (one_resolution _ _ i st payload t d).
Qed.

(** What [decide_authorized] has recorded when it answers. *)
Definition decision_outcome (clk : nat -> N) (c : ApprovalDecisionCommand) (x : ApprovalRequest)
    (receipt : ApprovalDecisionReceipt) (s s' : S) : Prop :=
  let id := ad_approval_id c in
  let recorded :=
    approval_state s' id
      = (Some (with_resolution x (decided_status c) (Some (decision_of c (clk 1)))
                 (Some (clk 0))), issued_grant c x (clk 1)) in
  match aq_status x with
  | StPending => receipt = decided_receipt c x /\ recorded
  | StDenied => receipt = decided_receipt c x /\
                (recorded \/ s' = s /\ jl_used s (decision_tx id))
  | _ => s' = s /\ rd_status receipt = aq_status x
  end.

Lemma decide_authorized_recorded s clk c q pl q1 receipt q' s' :
  ApprovalInv s -> decide_authorized clk c q s = (Ok pl, q1) ->
  perform (Ok pl, q1) s = (Ok receipt, q', s') ->
  forgotten (ad_approval_id c) q' /\
  exists x, restore_approval_request s (ad_approval_id c) = Some x /\
    decision_allowed c x = Ok tt /\ decision_outcome clk c x receipt s s'.
Proof.
  intros Hi Hp Hd. destruct pl as [a|r finish].
  - unfold decide_authorized in Hp. destruct (trim_is_empty _); [discriminate|].
    destruct (restore_approval_request s (ad_approval_id c)) as [x|] eqn:Ex; [|discriminate].
    destruct (hydrate_request q s (ad_approval_id c)) as [q2|]; [|discriminate].
    destruct (decision_allowed c x) as [[]|] eqn:Eall; [|discriminate].
    destruct (negb (bool_decide (aq_status x = StPending))
              && negb (bool_decide (aq_status x = StDenied))) eqn:Es; [|discriminate].
    apply andb_true_iff in Es as [Es1%negb_true_iff%bool_decide_eq_false
                                  Es2%negb_true_iff%bool_decide_eq_false].
    rewrite <- Hp in Hd. apply perform_closed in Hd as (-> & Hrs & Hf).
    rewrite (restored_id s _ _ Hi Ex) in Hf. split; [done|]. exists x. split_and!; [done | done |].
    unfold decision_outcome. by destruct (aq_status x).
  - cbn in Hd. destruct (eb_append r None s) as [[rcp|e] s1] eqn:Ea; [|discriminate].
    destruct (finish q1) as [a q2] eqn:Ef. injection Hd as <- <- <-.
    destruct (decision_committed _ _ _ _ _ _ _ _ _ Hi Hp Ea)
      as (x & Hx & Hid & Hall & -> & Hst & Hs'). injection Ef as <- <-.
    split; [apply forgotten_drop|]. exists x. split_and!; [done | done |]. unfold decision_outcome.
    destruct Hst as [Hst|Hst]; rewrite Hst.
    + split; [done|]. destruct Hs' as [(_ & Hs' & _)|Hs']; [congruence | done].
    + split; [done|]. destruct Hs' as [(? & _ & ?)|Hs']; auto.
Qed.

(** A decision is what its receipt says.  When [decide],
    [decide_surface_human] or [decide_internal] answers with a receipt, the
    approval leaves the cache and its deadline is gone, and: a pending request
    is recorded with the decided status, decision and time, with the grant the
    receipt names if it was approved; for a request already approved, skipped,
    timed out, cancelled or superseded nothing is written and the receipt
    reports its status; a denied request is decided anew unless the queue's one
    decision transaction for it is spent. *)
Theorem decide_recorded s h clk c q p receipt q' s'
    (Hh : approval_history (s :: h)) (He : decision_entry clk c q s p)
    (Hd : perform p s = (Ok receipt, q', s')) :
  forgotten (ad_approval_id c) q' /\
  exists x, restore_approval_request s (ad_approval_id c) = Some x /\
    decision_allowed c x = Ok tt /\ decision_outcome clk c x receipt s s'.
Proof.
  destruct (history_inv _ _ Hh s ltac:(left)) as [Hi _].
  destruct p as [[pl|e] q1]; [|discriminate].
  destruct (decision_entry_authorized _ _ _ _ _ _ _ He eq_refl) as [Hp _].
  by eapply decide_authorized_recorded.
Qed.

(** What [timeout] has recorded when it answers. *)
Definition timeout_outcome (clk : nat -> N) (id : string) (x : ApprovalRequest)
    (receipt : ApprovalDecisionReceipt) (s s' : S) : Prop :=
  match aq_status x with
  | StPending =>
      if bool_decide (aq_timeout_policy x = ToAutoApproveOnce)
         && negb (cx_explicit_ask (aq_context x))
      then decision_outcome clk (auto_approve_command id) x receipt s s'
      else receipt = timeout_receipt x /\
           approval_state s' id
             = (Some (with_resolution x StTimedOut (Some (timeout_decision x (clk 0)))
                        (Some (clk 0))), None)
  | _ => s' = s /\ rd_status receipt = aq_status x
  end.

Lemma timeout_result s clk id q receipt q' s' :
  ApprovalInv s -> timeout clk id q s = (Ok receipt, q', s') ->
  forgotten id q' /\
  exists x, restore_approval_request s id = Some x /\ timeout_outcome clk id x receipt s s'.
Proof.
  intros Hi Hd. unfold timeout_outcome. unfold timeout, timeout_plan in Hd.
  destruct (restore_approval_request s id) as [x|] eqn:Ex; [|discriminate].
  pose proof (restored_id s _ _ Hi Ex) as Hid.
  destruct (hydrate_request q s id) as [q1|]; [|discriminate].
  destruct (aq_status x) eqn:Es; cbn [negb] in Hd; rewrite Hid in Hd.
  2-7: rewrite bool_decide_false in Hd by done;
       apply perform_closed in Hd as (-> & Hrs & Hf); rewrite Hid in Hf;
       (split; [done|]); exists x; rewrite Es in *; done.
  rewrite bool_decide_true in Hd by done. cbn [negb] in Hd.
  destruct (bool_decide _ && _) eqn:Eauto.
  - destruct (decide_internal_plan clk _ _ s) as [[pl|e] q2] eqn:Ep; [|discriminate].
    apply decide_internal_inv in Ep as (_ & _ & Ep).
    destruct (decide_authorized_recorded _ _ _ _ _ _ _ _ _ Hi Ep Hd) as (Hf & y & Hy & _ & Ho).
    cbn in Hf, Hy. rewrite Ex in Hy. injection Hy as <-. split; [done|]. exists x.
    by rewrite Es, Eauto.
  - destruct (eb_event_by_key s (approval_stream id) _) as [e|] eqn:Ekey.
    { rewrite jl_by_key in Ekey by apply Hi. exfalso.
      assert (e ∈ List.filter (fun e => bool_decide (ev_idempotency_key e
                = Some (timeout_key id))) (eb_list_stream s (approval_stream id))) as He.
      { unfold timeout_key. destruct (List.filter _ _); [done|]. injection Ekey as <-. left. }
      apply elem_of_filterb in He as [He Hk%bool_decide_eq_true].
      destruct (ai_closed _ Hi id (timeout_key id)) as (y & Hy & Hne);
        [by right; left | by apply (ai_marker _ Hi id e) | congruence]. }
    cbn in Hd. destruct (eb_append _ None s) as [[rcp|e] s1] eqn:Ea; [|discriminate].
    injection Hd as <- <- <-. split; [apply forgotten_drop|]. exists x.
    rewrite Es, Eauto. split_and!; [done | done |].
    rewrite (closing_committed s id (timeout_key id) _ x _ StTimedOut _ _ _ _ _ Hi Ex Es
      (or_intror (or_introl eq_refl)) Ea eq_refl eq_refl eq_refl
      ltac:(done) (decision_of_timeout _ _) (resolved_of_timeout _ _)). done.
Qed.

(** A timeout is what its receipt says.  When [timeout] answers, the
    approval leaves the cache and its deadline is gone, and a pending request is
    recorded as timed out by the timeout policy without any grant, or, when its
    policy is to approve once and nobody asked explicitly, as approved once by
    the timeout policy; a request that is no longer pending is left as it is. *)
Theorem timeout_recorded s h clk id q receipt q' s'
    (Hh : approval_history (s :: h))
    (Hd : timeout clk id q s = (Ok receipt, q', s')) :
  forgotten id q' /\
  exists x, restore_approval_request s id = Some x /\ timeout_outcome clk id x receipt s s'.
Proof. by apply (timeout_result s clk id q), Hd; apply (history_inv _ _ Hh s ltac:(left)). Qed.

(** A cancellation is what its receipt says: when [cancel] answers, the
    approval leaves the cache and its deadline is gone, and a pending request is
    recorded as cancelled, or superseded, by the session control with no grant;
    a request that is no longer pending is left as it is. *)
Theorem cancel_recorded s h clk id reason superseded q receipt q' s'
    (Hh : approval_history (s :: h))
    (Hd : queue_cancel clk id reason superseded q s = (Ok receipt, q', s')) :
  forgotten id q' /\
  exists x, restore_approval_request s id = Some x /\
    match aq_status x with
    | StPending =>
        rd_status receipt = (if superseded then StSuperseded else StCancelled) /\
        rd_grant_id receipt = None /\
        approval_state s' id
          = (Some (with_resolution x (rd_status receipt) (Some (cancel_decision reason (clk 0)))
                     (Some (clk 0))), None)
    | _ => s' = s /\ rd_status receipt = aq_status x
    end.
Proof.
  destruct (history_inv _ _ Hh s ltac:(left)) as [Hi _].
  unfold queue_cancel, cancel_plan in Hd.
  destruct (restore_approval_request s id) as [x|] eqn:Ex; [|discriminate].
  pose proof (restored_id s _ _ Hi Ex) as Hid.
  destruct (hydrate_request q s id) as [q1|]; [|discriminate].
  destruct (aq_status x) eqn:Es; cbn [negb] in Hd; rewrite Hid in Hd.
  2-7: rewrite bool_decide_false in Hd by done;
       apply perform_closed in Hd as (-> & Hrs & Hf); rewrite Hid in Hf;
       (split; [done|]); exists x; rewrite Es in *; done.
  rewrite bool_decide_true in Hd by done. cbn in Hd.
  destruct (eb_append _ None s) as [[rcp|e] s1] eqn:Ea; [|discriminate].
  injection Hd as <- <- <-. split; [apply forgotten_drop|]. exists x. rewrite Es.
  split_and!; [done..|]. cbn [rd_status].
  rewrite (closing_committed s id (cancel_tx id) _ x _
    (if superseded then StSuperseded else StCancelled) _ _ _ _ _ Hi Ex Es
    (or_intror (or_intror eq_refl)) Ea eq_refl eq_refl
    ltac:(by destruct superseded)
    ltac:(by destruct superseded) (decision_of_cancel _) (resolved_of_cancel _)). done.
Qed.

Lemma durable_grant_backed s h gid g :
  approval_history (s :: h) -> (restore_approval_state s).2 !! gid = Some g ->
  gid = approval_grant_id (gt_approval_id g) /\
  exists r, restore_approval_request s (gt_approval_id g) = Some r /\ backed r g.
Proof.
  intros Hh Hg. destruct (history_inv _ _ Hh s ltac:(left)) as [Hi _].
  pose proof (restore_grants_keyed s (ai_disciplined _ Hi) _ _ Hg) as Hk.
  split; [done|]. rewrite Hk in Hg.
  pose proof (restore_state_lookup s (gt_approval_id g) (ai_disciplined _ Hi)) as Hl.
  rewrite Hg in Hl. pose proof (ai_life _ Hi (gt_approval_id g)) as Hok. rewrite <- Hl in Hok.
  injection Hl as _ Hr. pose proof (f_equal fst (restore_state_lookup s (gt_approval_id g)
                                                    (ai_disciplined _ Hi))) as Hf.
  cbn [fst] in Hf. destruct ((restore_approval_state s).1 !! gt_approval_id g) as [r|] eqn:Er;
    [|done].
  exists r. split; [done|]. by destruct Hok as (_ & _ & _ & Hb).
Qed.

(** Authority has a source.  In every reachable store each grant, active or
    ended, belongs to an approval that was approved (or skipped with approval,
    where skipping is allowed), was issued by the recorded decision with the
    recorded actor and a scope the request allows, and carries exactly the
    principal, profile, workspace, capability, session, turn, task, invocation,
    targets, effect and risk of the request; a global grant was issued by a human
    or a trust-all policy. *)
Theorem grant_backed s h gid g (Hh : approval_history (s :: h))
    (Hg : (restore_approval_state s).2 !! gid = Some g) :
  gid = approval_grant_id (gt_approval_id g) /\
  exists r, restore_approval_request s (gt_approval_id g) = Some r /\ backed r g.
Proof. by eapply durable_grant_backed. Qed.

(** The two replays agree: in every reachable store, reading one approval
    from its own stream gives the entry of the replay of the whole approval
    scope, under the same id. *)
Theorem replays_agree s h id (Hh : approval_history (s :: h)) :
  (restore_approval_state s).1 !! id = restore_approval_request s id /\
  forall r, restore_approval_request s id = Some r -> aq_approval_id r = id.
Proof.
  destruct (history_inv _ _ Hh s ltac:(left)) as [Hi _]. split.
  - by pose proof (f_equal fst (restore_state_lookup s id (ai_disciplined _ Hi))).
  - intros r Hr. by apply (restored_id s).
Qed.

(** ** Reconciliation of deadlines *)

Lemma timeout_history s h clk id q res q' s' :
  approval_history (s :: h) -> timeout clk id q s = (res, q', s') ->
  exists h', approval_history (s' :: h') /\ (forall x, x ∈ s :: h -> x ∈ s' :: h').
Proof.
  intros Hh Hd. unfold timeout, perform in Hd.
  destruct (timeout_plan clk id q s) as [[[a|r finish]|e] q1] eqn:Ep.
  - injection Hd as _ _ <-. eauto.
  - destruct (eb_append r None s) as [[rcp|e] s1] eqn:Ea.
    + destruct (finish q1). injection Hd as _ _ <-. exists (s :: h).
      split; [|intros; by right]. eapply HistoryAppend; [done | left | | exact Ea].
      apply (WriteTimeout _ _ clk id q). by rewrite Ep.
    + injection Hd as _ _ <-. exists (s :: h).
      split; [|intros; by right]. eapply HistoryAppend; [done | left | | exact Ea].
      apply (WriteTimeout _ _ clk id q). by rewrite Ep.
  - injection Hd as _ _ <-. eauto.
Qed.

(** An approval that is closed in some state is closed in every later one. *)
Lemma history_stays_closed s h s1 id r :
  approval_history (s :: h) -> s1 ∈ s :: h ->
  restore_approval_request s1 id = Some r -> aq_status r <> StPending ->
  exists r', restore_approval_request s id = Some r' /\ aq_status r' <> StPending.
Proof.
  intros Hh Hin Hr Hne.
  apply (history_keeps (fun st => exists r', st.1 = Some r' /\ aq_status r' <> StPending)
           id s h s1 Hh Hin); [|eauto].
  intros x tx st' _ _ (y & Hy & Hny) _ Hl.
  destruct (life_keeps_request _ _ _ _ y Hl Hy) as (y' & ? & ?). eauto.
Qed.

Lemma timeout_closes s h clk id q receipt q' s' :
  approval_history (s :: h) -> timeout clk id q s = (Ok receipt, q', s') ->
  exists r, restore_approval_request s' id = Some r /\ aq_status r <> StPending.
Proof.
  intros Hh Hd. destruct (history_inv _ _ Hh s ltac:(left)) as [Hi _].
  destruct (timeout_result _ _ _ _ _ _ _ Hi Hd) as (_ & x & Hx & Ho).
  unfold timeout_outcome in Ho. destruct (aq_status x) eqn:Es;
    [|destruct Ho as [-> _]; exists x; rewrite Es; done..].
  destruct (_ && _).
  - unfold decision_outcome in Ho. rewrite Es in Ho. destruct Ho as [_ [= -> _]]. by eexists.
  - destruct Ho as [_ [= -> _]]. by eexists.
Qed.

Lemma timeout_all_result clk ids : forall i q s h resolved q' s',
  approval_history (s :: h) -> timeout_all clk i ids q s = (resolved, q', s') ->
  exists h', approval_history (s' :: h') /\ (forall x, x ∈ s :: h -> x ∈ s' :: h') /\
    forall id, id ∈ resolved -> id ∈ ids /\
      exists r, restore_approval_request s' id = Some r /\ aq_status r <> StPending.
Proof.
  induction ids as [|id ids IH]; intros i q s h resolved q' s' Hh Hd; cbn in Hd.
  { injection Hd as <- _ <-. exists h. split_and!; [done | done |]. by intros id ?%not_elem_of_nil. }
  destruct (timeout (clk i) id q s) as [[r q1] s1] eqn:Et.
  destruct (timeout_all clk (Datatypes.S i) ids q1 s1) as [[res q2] s2] eqn:Ea.
  injection Hd as <- <- <-.
  destruct (timeout_history _ _ _ _ _ _ _ _ Hh Et) as (h1 & Hh1 & Hsub1).
  destruct (IH _ _ _ _ _ _ _ Hh1 Ea) as (h2 & Hh2 & Hsub2 & Hres).
  exists h2. split_and!; [done | auto |]. intros id'.
  destruct (resolves_timeout r) eqn:Er.
  - intros [->|Hin]%elem_of_cons.
    + split; [left|]. destruct r as [receipt|]; [|done].
      destruct (timeout_closes _ _ _ _ _ _ _ _ Hh Et) as (x & Hx & Hne).
      apply (history_stays_closed s2 h2 s1 id x Hh2); [apply Hsub2; left | done | done].
    + destruct (Hres id' Hin) as [? ?]. split; [by right | done].
  - intros Hin. destruct (Hres id' Hin) as [? ?]. split; [by right | done].
Qed.

Lemma elem_of_due_ids now m id :
  id ∈ due_ids now m -> exists d ids, m !! d = Some ids /\ id ∈ ids /\ (d < u64_saturating_add now 1)%N.
Proof.
  unfold due_ids. intros (d & Hd & Hin)%list_elem_of_In%in_flat_map.
  apply list_elem_of_In, elem_of_btree_set_iter in Hin.
  destruct (filter _ m !! d) as [ids|] eqn:Ef; [|set_solver].
  apply map_lookup_filter_Some in Ef as [? ?]. eauto.
Qed.


(** ** Decisions of applications *)

Lemma application_plan_commit clk id app review decided_by approved decision reason lease q s r
    finish q1 :
  record_application_decision_plan clk id app review decided_by approved decision reason lease q s
    = (Ok (Commit r finish), q1) ->
  exists y d, q_requests q1 !! id = Some y /\ dn_decided_at_ms d = clk 0 /\
    (exists receipt, finish = finish_request (aq_approval_id y) receipt None) /\
    r = batch (approval_stream (aq_approval_id y))
          (eb_stream_revision s (approval_stream (aq_approval_id y)))
          ("application-approval-decision:" +:+ aa_app_id app +:+ ":" +:+ review +:+ ":"
           +:+ decision)
          [transaction_event_from
             (approval_event (approval_stream (aq_approval_id y)) "approval.decided.application"
                (approval_status_as_str (if approved then StApproved else StDenied)) decided_by
                (approval_source_refs (aq_source y))
                (application_fact_payload app d review decision lease
                   (application_fact_message app review decided_by decision)))].
Proof.
  unfold record_application_decision_plan. destruct (_ || trim_is_empty lease); [discriminate|].
  destruct (hydrate_request q s id) as [q2|]; [|discriminate].
  destruct (q_requests q2 !! id) as [y|] eqn:Ey; [|discriminate].
  destruct (negb (application_correlates _ _ _)); [discriminate|].
  destruct (negb (bool_decide (aq_status y = StPending))); [by case_match|].
  intros [= <- <- <-]. eexists y, _. split_and!; [done| |by eexists|reflexivity]. done.
Qed.

(** The fact of an application overwrites any outcome, and loses its
    decision.  [record_application_decision_fact] looks at the cached request
    only: if its append is new, the approval replays to the application's verdict
    whatever its durable status was, and to no decision record at all, because
    the replay reads the event's ["decision"] member, a string, before
    ["decision_record"]. *)
Theorem application_fact_overrides s h clk id app review decided_by approved decision reason
    lease q receipt q' s' x
    (Hh : approval_history (s :: h))
    (Hd : record_application_decision_fact clk id app review decided_by approved decision reason
            lease q s = (Ok receipt, q', s'))
    (Hx : restore_approval_request s id = Some x)
    (Hc : forall y, q_requests q !! id = Some y -> aq_approval_id y = id)
    (Hn : s' <> s) :
  restore_approval_request s' id
    = Some (with_resolution x (if approved then StApproved else StDenied) None (Some (clk 0))).
Proof.
  destruct (history_inv _ _ Hh s ltac:(left)) as [Hi _].
  unfold record_application_decision_fact, perform in Hd.
  destruct (record_application_decision_plan _ _ _ _ _ _ _ _ _ q s) as [[[a|r finish]|e] q1] eqn:Ep;
    [by injection Hd as _ _ -> | | by injection Hd].
  destruct (application_plan_commit _ _ _ _ _ _ _ _ _ _ _ _ _ _ Ep) as (y & d & Hy & Hat & _ & ->).
  assert (aq_approval_id y = id) as Hid.
  { unfold record_application_decision_plan in Ep.
    destruct (_ || trim_is_empty lease); [discriminate|].
    destruct (hydrate_request q s id) as [q2|] eqn:Eh; [|discriminate].
    assert (q1 = q2) as -> by (by repeat case_match; simplify_eq).
    unfold hydrate_request in Eh. destruct (q_requests q !! id) as [z|] eqn:Ez.
    - injection Eh as <-. apply Hc. congruence.
    - rewrite Hx in Eh. injection Eh as <-. cbn in Hy. rewrite lookup_insert_eq in Hy.
      injection Hy as <-. by apply (restored_id s). }
  rewrite Hid in *. destruct (eb_append _ None s) as [[rcp|e] s1] eqn:Ea; [|discriminate].
  destruct (finish q1). injection Hd as _ _ <-.
  assert (Hown : forall i, i ∈ [transaction_event_from
             (approval_event (approval_stream id) "approval.decided.application"
                (approval_status_as_str (if approved then StApproved else StDenied)) decided_by
                (approval_source_refs (aq_source y))
                (application_fact_payload app d review decision lease
                   (application_fact_message app review decided_by decision)))] ->
            in_stream_id (te_event i) = approval_stream id)
    by (by intros i ->%list_elem_of_singleton).
  destruct (batch_committed _ _ _ _ _ _ _ (proj1 (ai_disciplined _ Hi)) Hown Ea)
    as [[-> _]|[_ (evs & Hvs & Hs')]]; [done|].
  apply views_cons in Hvs as (e & evs' & -> & He & ->%views_nil).
  unfold after_events, approval_state at 2 in Hs'. cbn [fold_left fst snd] in Hs'.
  rewrite Hx in Hs'. apply (f_equal fst) in Hs'. cbn [fst] in Hs'.
  change (restore_approval_request s1 id = restore_event (Some x) e) in Hs'. rewrite Hs'.
  destruct (resolution_event e x None (if approved then StApproved else StDenied) _ _ _ _ _ _
              He eq_refl ltac:(by destruct approved)
              (decision_of_application _ _ _ _ _ _) (resolved_of_application _ _ _ _ _ _)) as [-> _].
  by rewrite Hat.
Qed.

(** A request that may be approved once by its timeout policy but does not
    allow the scope once cannot time out: [timeout] fails, writes nothing,
    leaves it pending, and does not restore the deadline that
    [reconcile_deadlines_at] took out before calling it. *)
Theorem ineligible_auto_approval_stays_pending s h clk id q x
    (Hh : approval_history (s :: h))
    (Hx : restore_approval_request s id = Some x) (Hp : aq_status x = StPending)
    (Hpol : aq_timeout_policy x = ToAutoApproveOnce)
    (Hask : cx_explicit_ask (aq_context x) = false) (Hskip : as_kind (aq_source x) = AsSession)
    (Hsc : GsOnce ∉ aq_allowed_scopes x) :
  exists q', timeout clk id q s = (Err "approval_scope_not_allowed_for_subject"%string, q', s) /\
    q_deadlines q' = q_deadlines q.
Proof.
  destruct (history_inv _ _ Hh s ltac:(left)) as [Hi _].
  pose proof (restored_id s _ _ Hi Hx) as Hid.
  unfold timeout, timeout_plan. rewrite Hx. unfold hydrate_request at 1. rewrite Hx.
  set (q0 := match q_requests q !! id with Some _ => Ok q | None => _ end).
  assert (exists q1, q0 = Ok q1 /\ q_deadlines q1 = q_deadlines q) as (q1 & -> & Hq1).
  { subst q0. destruct (q_requests q !! id); cbn; eexists; done. }
  rewrite (bool_decide_true (aq_status x = StPending)) by done. cbn [negb].
  rewrite (bool_decide_true (aq_timeout_policy x = ToAutoApproveOnce)), Hask by done. cbn [andb negb].
  unfold decide_internal_plan. cbn [auto_approve_command ad_scope ad_actor ada_kind].
  rewrite !bool_decide_false by done. cbn [andb].
  unfold decide_authorized. cbn [auto_approve_command ad_scope ad_actor ada_actor_id ad_approval_id].
  rewrite Hid. change (trim_is_empty "scoped-timeout-policy") with false. cbv iota. rewrite Hx.
  unfold hydrate_request. cbn [put_request with_requests q_requests]. rewrite lookup_insert_eq.
  assert (decision_allowed (auto_approve_command id) x
          = Err "approval_scope_not_allowed_for_subject"%string) as ->.
  { unfold decision_allowed, typed_application. rewrite Hskip. cbn.
    rewrite (proj2 (memb_false _ _) Hsc). done. }
  cbn. eexists. split; [reflexivity | done].
Qed.
End Lifecycle.
