(* ===== verification/ApprovalAuthority.v ===== *)
(** * What a matched grant proves

    The cache of grants between [ApprovalQueue::new], the operations of the queue
    and its [refresh]: every cached grant is the active grant the streams replay
    to, so an action that [matching_grant] lets through has an approval behind
    it.  Also: [refresh] reads every later commit, page by page, and terminates. *)

From S2P Require Import Prelude Facts Contract Validation Delta Ports EventStore.
From S2P Require Import Samples Backend Approval ApprovalJournal ApprovalQueue.
From S2P Require Import ApprovalMachine ApprovalLifecycle.

Section Authority.
Context {Value S : Type} `{Json Value} `{ApprovalJson Value} `{!ApprovalJsonLaws Value}
  `{EventBackend Value S} `{ScopeReads Value S} `{!Journal Value S}.

Abbreviation Event := (DurableRuntimeEvent Value).
Abbreviation Request := (AppendTransactionRequest Value).

(** ** Matching *)

Lemma elem_of_sort_by_scope g grants : g ∈ sort_by_scope grants <-> g ∈ grants.
Proof.
  unfold sort_by_scope. rewrite list_elem_of_In, in_flat_map. split.
  - intros (sc & _ & Hg). by apply list_elem_of_In, elem_of_filterb in Hg as [? _].
  - intros Hg. exists (gt_scope g). split; [by destruct (gt_scope g); cbn; auto 6|].
    apply list_elem_of_In, elem_of_filterb. by rewrite bool_decide_true.
Qed.

Definition scope_rank (s : ApprovalGrantScope) : nat :=
  match s with GsOnce => 0 | GsTurn => 1 | GsTask => 2 | GsSession => 3 | GsGlobal => 4 end.

Lemma sort_by_scope_sorted grants :
  StronglySorted (fun a b => scope_rank (gt_scope a) <= scope_rank (gt_scope b))
    (sort_by_scope grants).
Proof.
  unfold sort_by_scope.
  assert (forall sc l2, StronglySorted (fun a b => scope_rank (gt_scope a) <= scope_rank (gt_scope b)) l2 ->
     (forall g, g ∈ l2 -> scope_rank sc <= scope_rank (gt_scope g)) ->
     StronglySorted (fun a b => scope_rank (gt_scope a) <= scope_rank (gt_scope b))
       (List.filter (fun g => bool_decide (gt_scope g = sc)) grants ++ l2)) as Happ.
  { intros sc l2 Hs Hle. induction grants as [|g l IH]; cbn; [done|].
    case_bool_decide as Hg; [|done]. cbn. constructor; [done|]. apply Forall_forall.
    intros x [[_ Hx%bool_decide_eq_true]%elem_of_filterb|Hx]%elem_of_app; rewrite Hg;
      [by rewrite Hx | by apply Hle]. }
  cbn [flat_map]. repeat apply Happ; [constructor | by intros g ?%not_elem_of_nil | ..];
    intros g; rewrite ?elem_of_app, ?elem_of_nil;
    repeat (intros [[_ Hg%bool_decide_eq_true]%elem_of_filterb|Hin]; [rewrite Hg; cbn; lia|];
            revert Hin); done.
Qed.

Lemma find_covering c risk now l :
  StronglySorted (fun a b => scope_rank (gt_scope a) <= scope_rank (gt_scope b)) l ->
  match List.find (fun g => grant_matches g c risk now) l with
  | Some g => g ∈ l /\ covers g c risk now /\
              forall g', g' ∈ l -> covers g' c risk now ->
                scope_rank (gt_scope g) <= scope_rank (gt_scope g')
  | None => forall g, g ∈ l -> ~ covers g c risk now
  end.
Proof.
  induction l as [|g l IH]; intros Hs; cbn; [by intros g ?%not_elem_of_nil|].
  apply StronglySorted_inv in Hs as [Hs Hle]. rewrite Forall_forall in Hle.
  destruct (grant_matches g c risk now) eqn:Em.
  - apply grant_matches_covers in Em. split_and!; [left | done |].
    intros g' [->|Hin]%elem_of_cons _; [done | by apply Hle].
  - assert (~ covers g c risk now) as Hn.
    { intros Hc%grant_matches_covers. congruence. }
    specialize (IH Hs). destruct (List.find _ l) as [g0|].
    + destruct IH as (Hin & Hc & Hmin). split_and!; [by right | done |].
      intros g' [->|Hin']%elem_of_cons Hc'; [done | by apply Hmin].
    + intros g' [->|Hin']%elem_of_cons; [done | by apply IH].
Qed.

(** [matching_grant] answers with the narrowest grant that covers the
    context: the one it returns is a cached grant that covers the action (same
    principal, profile, workspace, capability, policy revision and effect, a
    risk within its ceiling, targets within its targets, not expired, and the
    identities its scope is bound to), and no cached grant of a narrower scope
    covers it; it answers with none only if no cached active grant covers it. *)
Theorem matching_grant_narrowest clk q c risk :
  match (matching_grant clk q c risk).1 with
  | Some g => g ∈ btree_values (active_approval_grants (clk 0) (q_grants q)) /\
              covers g c risk (clk 1) /\
              forall g', g' ∈ btree_values (active_approval_grants (clk 0) (q_grants q)) ->
                covers g' c risk (clk 1) -> scope_rank (gt_scope g) <= scope_rank (gt_scope g')
  | None => forall g, g ∈ btree_values (active_approval_grants (clk 0) (q_grants q)) ->
              ~ covers g c risk (clk 1)
  end.
Proof.
  unfold matching_grant. cbn [active_grants fst snd].
  set (grants := btree_values _).
  pose proof (find_covering c risk (clk 1) _ (sort_by_scope_sorted grants)) as Hf.
  destruct (List.find _ _) as [g|].
  - destruct Hf as (Hin & Hc & Hmin). split_and!; [by apply elem_of_sort_by_scope | done |].
    intros g' Hin'. by apply Hmin, elem_of_sort_by_scope.
  - intros g Hin. by apply Hf, elem_of_sort_by_scope.
Qed.

(** ** Refresh *)

Abbreviation Batch := (N * list Event)%type.

Definition later_events (s : S) (c : N) : list Event :=
  List.filter (fun e => (c <? ev_commit_cursor e)%N) (jl_journal s).

Definition batch_events (l : list Batch) : list Event := concat (snd <$> l).

Lemma batch_events_app l1 l2 : batch_events (l1 ++ l2) = batch_events l1 ++ batch_events l2.
Proof. unfold batch_events. by rewrite fmap_app, concat_app. Qed.

Lemma elem_of_batch_events e l : e ∈ batch_events l -> exists b, b ∈ l /\ e ∈ b.2.
Proof.
  unfold batch_events. induction l as [|b l IH]; [by intros ?%not_elem_of_nil|].
  rewrite fmap_cons. cbn [concat]. intros [He|He]%elem_of_app.
  - exists b. split; [left | done].
  - destruct (IH He) as (b' & ? & ?). exists b'. split; [by right | done].
Qed.

Lemma apply_batches l : forall st,
  fold_left apply_batch l st
    = fold_left apply_approval_event (List.filter in_scope_approval (batch_events l)) st.
Proof.
  induction l as [|b l IH]; intros st; [done|]. unfold batch_events in *.
  rewrite fmap_cons. cbn [concat fold_left]. rewrite List.filter_app, fold_left_app. apply IH.
Qed.

(** Reading on from the last commit of a page reads the rest. *)
Lemma rest_after_page (T D : list Batch) b :
  StronglySorted N.lt (fst <$> (T ++ [b]) ++ D) ->
  (forall x, x ∈ (T ++ [b]) ++ D -> x.2 <> [] /\ forall e, e ∈ x.2 -> ev_commit_cursor e = x.1) ->
  List.filter (fun e => (b.1 <? ev_commit_cursor e)%N) (batch_events ((T ++ [b]) ++ D))
    = batch_events D.
Proof.
  intros Hs Hb. rewrite batch_events_app, List.filter_app.
  assert (forall i j x y, ((T ++ [b]) ++ D) !! i = Some x -> ((T ++ [b]) ++ D) !! j = Some y ->
            i < j -> (x.1 < y.1)%N) as Hlt.
  { intros i j x y Hi Hj Hij. apply (StronglySorted_lookup_lt N.lt _ Hs i j); [done| |];
      by rewrite list_lookup_fmap, ?Hi, ?Hj. }
  assert (Hbi : ((T ++ [b]) ++ D) !! length T = Some b)
    by (rewrite <- app_assoc; by apply list_lookup_middle).
  rewrite filterb_none, filterb_all; [done| |].
  - intros e (x & Hx & He)%elem_of_batch_events. apply N.ltb_lt.
    rewrite (proj2 (Hb x ltac:(apply elem_of_app; by right)) e He).
    apply list_elem_of_lookup in Hx as [j Hj].
    apply (Hlt (length T) (length (T ++ [b]) + j) b x Hbi).
    + by rewrite lookup_app_r, Nat.add_comm, Nat.add_sub by lia.
    + rewrite length_app. cbn. lia.
  - intros e (x & Hx & He)%elem_of_batch_events. apply N.ltb_ge.
    rewrite (proj2 (Hb x ltac:(apply elem_of_app; by left)) e He).
    apply elem_of_app in Hx as [Hx|Hx]; [|apply list_elem_of_singleton in Hx as ->; lia].
    apply list_elem_of_lookup in Hx as [i Hi].
    assert (i < length T) by (by eapply lookup_lt_Some).
    apply N.lt_le_incl, (Hlt i (length T) x b); [|done | done].
    rewrite lookup_app_l; [|rewrite length_app; cbn; lia]. by rewrite lookup_app_l.
Qed.

Lemma refresh_pages_complete s : jl_inv s -> forall fuel c st,
  length (later_events s c) < fuel ->
  exists c', refresh_pages fuel s c st
    = Done (c', fold_left apply_approval_event
                  (List.filter in_scope_approval (later_events s c)) st).
Proof.
  intros Hi. induction fuel as [|fuel IH]; intros c st Hf; [lia|]. cbn [refresh_pages].
  destruct (jl_after s c Hi) as (B & Hn & Hc & Hs & Hb). rewrite Hn.
  change (batch_events B = later_events s c) in Hc. rewrite <- Hc.
  destruct (Nat.ltb_spec (length (take APPROVAL_REFRESH_COMMIT_PAGE B))
              APPROVAL_REFRESH_COMMIT_PAGE) as [Hlt|Hge].
  - rewrite take_ge by (rewrite length_take in Hlt; lia). rewrite apply_batches. eauto.
  - set (T := take APPROVAL_REFRESH_COMMIT_PAGE B) in *.
    assert (B = T ++ drop APPROVAL_REFRESH_COMMIT_PAGE B) as HB by (symmetry; apply take_drop).
    set (D := drop APPROVAL_REFRESH_COMMIT_PAGE B) in *.
    destruct (exists_last (l := T)) as (T' & b & HT).
    { intros HT. rewrite HT in Hge. cbn in Hge. unfold APPROVAL_REFRESH_COMMIT_PAGE in Hge. lia. }
    rewrite HT, last_snoc. cbn [from_option].
    rewrite HB, HT in Hs, Hb, Hc.
    assert (later_events s b.1 = batch_events D) as Hrest.
    { rewrite <- (rest_after_page T' D b Hs Hb), Hc. unfold later_events at 2.
      rewrite filterb_filterb. apply filterb_ext. intros e _.
      assert (c < b.1)%N as Hcb.
      { destruct (Hb b) as [Hne Hcur]; [rewrite !elem_of_app; left; right; left|].
        destruct b.2 as [|x xs] eqn:Ex; [done|]. rewrite <- (Hcur x) by left.
        assert (x ∈ later_events s c) as Hx.
        { rewrite <- Hc, !batch_events_app, !elem_of_app. left. right.
          unfold batch_events. cbn. rewrite Ex. left. }
        apply elem_of_filterb in Hx as [_ Hx]. by apply N.ltb_lt in Hx. }
      destruct (N.ltb_spec b.1 (ev_commit_cursor e)); [|by rewrite andb_false_r].
      by rewrite (proj2 (N.ltb_lt _ _)) by lia. }
    destruct (IH b.1 (fold_left apply_batch (T' ++ [b]) st)) as [c' ->].
    { rewrite Hrest. rewrite <- Hc in Hf. rewrite !batch_events_app, !length_app in Hf.
      destruct (Hb b) as [Hne _]; [rewrite !elem_of_app; left; right; left|].
      assert (length (batch_events [b]) <> 0).
      { unfold batch_events. cbn. rewrite app_nil_r. by destruct b.2. }
      lia. }
    exists c'. rewrite Hrest, apply_batches, HB, HT, (batch_events_app (T' ++ [b]) D).
    by rewrite List.filter_app, fold_left_app.
Qed.

(** [refresh] terminates and misses nothing: with fuel above the number of
    events committed after the queue's cursor, the page loop stops, and the cache
    it leaves is the old one with every later approval event applied once, in
    commit order, then reduced to pending requests and active grants, with the
    deadlines of exactly those requests. *)
Theorem refresh_applies_every_later_event fuel now q s h (Hh : approval_history (s :: h))
    (Hf : length (later_events s (q_last_refresh_commit q)) < fuel) :
  exists q', refresh fuel now q s = Done q' /\
    if (sr_head_commit s <=? q_last_refresh_commit q)%N then q' = q
    else
      let st := fold_left apply_approval_event
                  (List.filter in_scope_approval (later_events s (q_last_refresh_commit q)))
                  (q_requests q, q_grants q) in
      q_requests q' = active_approval_requests st.1 /\
      q_grants q' = active_approval_grants now st.2 /\
      q_deadlines q' = approval_deadline_index (q_requests q') /\
      (sr_head_commit s <= q_last_refresh_commit q')%N.
Proof.
  destruct (history_inv _ _ Hh s ltac:(left)) as [Hi _].
  unfold refresh. destruct (_ <=? _)%N; [by eexists|].
  destruct (refresh_pages_complete s (proj1 (ai_disciplined _ Hi)) fuel
              (q_last_refresh_commit q) (q_requests q, q_grants q) Hf) as [c' ->].
  cbn. destruct (fold_left apply_approval_event _ _) as [reqs grants].
  eexists. split; [reflexivity|]. cbn. split_and!; [done | done | done | lia].
Qed.

(** ** The cache of grants *)

(** Every cached grant is the active grant of the streams. *)
Definition grants_coherent (q : ApprovalQueue) (s : S) : Prop :=
  forall gid g, q_grants q !! gid = Some g ->
    gt_status g = AgActive /\ (restore_approval_state s).2 !! gid = Some g.

Lemma coherent_named q s : ApprovalInv s -> grants_coherent q s -> grants_named q.
Proof.
  intros Hi Hc gid g Hg. destruct (Hc _ _ Hg) as [_ Hd].
  by apply (restore_grants_keyed s (ai_disciplined _ Hi)).
Qed.

(** The grant of an approval, by either replay. *)
Lemma durable_grant s id : ApprovalInv s ->
  (restore_approval_state s).2 !! approval_grant_id id = (approval_state s id).2.
Proof. intros Hi. by rewrite <- (restore_state_lookup s id (ai_disciplined _ Hi)). Qed.

(** Cached grants stay coherent where the stream of their approval keeps its
    grant. *)
Lemma coherent_preserved q q' s s' :
  ApprovalInv s -> ApprovalInv s' -> grants_coherent q s ->
  (forall gid g, q_grants q' !! gid = Some g -> q_grants q !! gid = Some g /\
     forall id, gid = approval_grant_id id ->
       (approval_state s id).2 = Some g -> (approval_state s' id).2 = Some g) ->
  grants_coherent q' s'.
Proof.
  intros Hi Hi' Hc Hk gid g Hg. destruct (Hk _ _ Hg) as [Hq Hkeep].
  pose proof (coherent_named _ _ Hi Hc _ _ Hq) as Hgid.
  destruct (Hc _ _ Hq) as [Ha Hd]. split; [done|].
  rewrite Hgid in Hd |- *. rewrite durable_grant in Hd |- * by done. by apply (Hkeep _ Hgid).
Qed.

Lemma moves_keeps_grant s s' tx id g :
  moves s s' tx -> ~ grant_tx tx -> (approval_state s id).2 = Some g ->
  (approval_state s' id).2 = Some g.
Proof.
  intros Hm Hn Hg. destruct (moves_life _ _ _ id Hm) as [->|(Hl & _)]; [done|].
  by apply (life_keeps_grant _ _ _ _ _ Hl).
Qed.

(** ** The operations of one queue *)

(** A decision is not repeated on an approval the queue already denied (the
    store would answer that its transaction id is taken). *)
Definition fresh_decision (s : S) (c : ApprovalDecisionCommand) : Prop :=
  forall x, restore_approval_request s (ad_approval_id c) = Some x ->
    aq_status x = StDenied -> ~ jl_used s (decision_tx (ad_approval_id c)).

Inductive queue_operation (q : ApprovalQueue) (s : S) : forall A, Planned Value A -> Prop :=
| OpSubmit clk id sub expires skippable scopes :
    queue_operation q s _ (submit_plan clk id sub expires skippable scopes q s)
| OpDecide clk c p :
    decision_entry clk c q s p -> fresh_decision s c -> queue_operation q s _ p
| OpApplication clk id app review decided_by approved decision reason lease :
    (forall x, q_requests q !! id = Some x -> restore_approval_request s id = Some x) ->
    queue_operation q s _
      (record_application_decision_plan clk id app review decided_by approved decision reason
         lease q s)
| OpTimeout clk id : queue_operation q s _ (timeout_plan clk id q s)
| OpCancel clk id reason superseded :
    queue_operation q s _ (cancel_plan clk id reason superseded q s)
| OpConsume clk gid : queue_operation q s _ (consume_once_grant_plan clk gid q s)
| OpRevoke clk p gid reason : queue_operation q s _ (revoke_grant_plan clk p gid reason q s).

Lemma operation_write q s A (p : Planned Value A) r :
  grants_named q -> queue_operation q s A p -> plan_append p = Some r -> approval_write s r.
Proof.
  intros Hq Ho Hp.
  destruct Ho as [|clk c p [(pr & c0 & _ & _ & ->)|[(actor & c0 & _ & _ & ->)|[_ ->]]] _| | | | |].
  - by eapply WriteSubmit.
  - by eapply WriteDecide.
  - by eapply WriteDecideSurface.
  - by eapply WriteDecideInternal.
  - by eapply WriteApplication.
  - by eapply WriteTimeout.
  - by eapply WriteCancel.
  - by eapply WriteConsume.
  - by eapply WriteRevoke.
Qed.

Lemma append_failed r t s e s' : jl_inv s -> eb_append r t s = (Err e, s') -> s' = s.
Proof.
  intros Hi Ha. by destruct (jl_append _ _ _ _ _ Hi Ha) as [[? _]|(rcp & evs & [=] & _)].
Qed.

(** An operation leaves the store, or appends what it planned. *)
Lemma perform_cases {A} (p : Planned Value A) s res q' s' :
  jl_inv s -> perform p s = (res, q', s') ->
  (s' = s /\ q' = p.2) \/
  exists r finish a rcp, p.1 = Ok (Commit r finish) /\ eb_append r None s = (Ok rcp, s') /\
    finish p.2 = (a, q') /\ res = Ok a.
Proof.
  intros Hi Hd. destruct p as [[[a|r finish]|e] q1]; cbn in *.
  - injection Hd as _ <- <-. by left.
  - destruct (eb_append r None s) as [[rcp|e] s1] eqn:Ea.
    + destruct (finish q1) as [a q2] eqn:Ef. injection Hd as <- <- <-. right. eauto 8.
    + injection Hd as _ <- <-. left. split; [by eapply append_failed | done].
  - injection Hd as _ <- <-. by left.
Qed.

(** *** What operations do to the cached grants *)

Lemma hydrate_grants q s id q1 : hydrate_request q s id = Ok q1 -> q_grants q1 = q_grants q.
Proof.
  unfold hydrate_request. destruct (q_requests q !! id); [by intros [= <-]|].
  intros Hh. ok_inv. by subst.
Qed.

Lemma decide_authorized_grants clk c q s : q_grants (decide_authorized clk c q s).2 = q_grants q.
Proof.
  unfold decide_authorized. case_match; [done|]. case_match; [|done].
  destruct (hydrate_request q s (ad_approval_id c)) as [q1|] eqn:Eh; [|done].
  apply hydrate_grants in Eh. case_match; [|done]. by case_match.
Qed.

Lemma decide_internal_grants clk c q s : q_grants (decide_internal_plan clk c q s).2 = q_grants q.
Proof.
  unfold decide_internal_plan. cbv zeta. case_match; [done|]. case_match; [done|].
  apply decide_authorized_grants.
Qed.

Lemma decision_entry_grants clk c q s p :
  decision_entry clk c q s p -> q_grants p.2 = q_grants q.
Proof.
  intros [(pr & c0 & _ & _ & ->)|[(actor & c0 & _ & _ & ->)|[_ ->]]].
  - unfold decide_plan. case_match; [done | apply decide_authorized_grants].
  - unfold decide_surface_human_plan. case_match; [done|]. case_match; [done|].
    apply decide_authorized_grants.
  - apply decide_internal_grants.
Qed.

Lemma timeout_grants clk id q s : q_grants (timeout_plan clk id q s).2 = q_grants q.
Proof.
  unfold timeout_plan. case_match; [|done].
  destruct (hydrate_request q s id) as [q1|] eqn:Eh; [|done].
  apply hydrate_grants in Eh. case_match; [done|]. case_match.
  - by rewrite decide_internal_grants.
  - by case_match.
Qed.

Lemma operation_grants q s A (p : Planned Value A) :
  queue_operation q s A p -> q_grants p.2 = q_grants q.
Proof.
  intros Ho. destruct Ho.
  - unfold submit_plan. repeat case_match; done.
  - by eapply decision_entry_grants.
  - unfold record_application_decision_plan. case_match; [done|].
    destruct (hydrate_request q s id) as [q1|] eqn:Eh; [|done].
    apply hydrate_grants in Eh. repeat case_match; done.
  - apply timeout_grants.
  - unfold cancel_plan. case_match; [|done].
    destruct (hydrate_request q s id) as [q1|] eqn:Eh; [|done].
    apply hydrate_grants in Eh. by case_match.
  - unfold consume_once_grant_plan. repeat case_match; done.
  - unfold revoke_grant_plan. repeat case_match; done.
Qed.

Lemma appended_others s s' id r id' :
  write_ok s id r -> appended r s s' -> id' <> id -> approval_state s' id' = approval_state s id'.
Proof.
  intros Hok [->|evs He Hn Hu Hx Hj Hv] Hne; [done|].
  rewrite (appended_state _ _ _ id' He Hj).
  pose proof (views_filter id' _ _ Hv) as Hvid. rewrite (wo_others _ _ _ Hok _ Hne) in Hvid.
  rewrite (views_nil _ Hvid). by destruct (approval_state s id').
Qed.

(** A committed decision leaves its grant in the cache and in the streams. *)
Lemma decision_coherent clk c q s r finish q1 rcp s' a q' :
  ApprovalInv s -> ApprovalInv s' -> grants_coherent q s -> q_grants q1 = q_grants q ->
  fresh_decision s c -> moves s s' (decision_tx (ad_approval_id c)) ->
  decide_authorized clk c q s = (Ok (Commit r finish), q1) ->
  eb_append r None s = (Ok rcp, s') -> finish q1 = (a, q') -> grants_coherent q' s'.
Proof.
  intros Hi Hi' Hc Hq1 Hfresh Hm Hp Ha Hf.
  destruct (decision_committed _ _ _ _ _ _ _ _ _ Hi Hp Ha)
    as (x & Hx & Hid & _ & -> & _ & Hs'). injection Hf as _ <-.
  assert (~ grant_tx (decision_tx (ad_approval_id c))) as Hn
    by (intros [gid [E|E]]; discriminate E).
  destruct Hs' as [(_ & Hden & Hu)|Hs']; [by destruct (Hfresh x Hx Hden)|].
  assert (Hold : forall gid g, q_grants q !! gid = Some g ->
            gt_status g = AgActive /\ (restore_approval_state s').2 !! gid = Some g).
  { apply (coherent_preserved q q s s' Hi Hi' Hc). intros gid g Hg. split; [done|].
    intros id _. by apply moves_keeps_grant with (1 := Hm). }
  intros gid g. cbn.
  destruct (issued_grant c x (clk 1)) as [g1|] eqn:Eg; cbn; rewrite Hq1; [|by apply Hold].
  rewrite lookup_insert_Some. intros [[<- <-]|[_ Hg]]; [|by apply Hold].
  assert (gt_status g1 = AgActive /\ gt_grant_id g1 = approval_grant_id (ad_approval_id c))
    as [Hact Hgid].
  { unfold issued_grant in Eg. destruct (ad_approved c); [|done]. injection Eg as <-. cbn.
    by rewrite Hid. }
  split; [done|]. rewrite Hgid, durable_grant by done. by rewrite Hs'.
Qed.

(** A commit that leaves the cached grants alone. *)
Lemma neutral_coherent q q' s s' tx :
  ApprovalInv s -> ApprovalInv s' -> grants_coherent q s -> q_grants q' = q_grants q ->
  moves s s' tx -> ~ grant_tx tx -> grants_coherent q' s'.
Proof.
  intros Hi Hi' Hc Hq Hm Hn. apply (coherent_preserved q q' s s' Hi Hi' Hc).
  intros gid g. rewrite Hq. intros Hg. split; [done|]. intros id _.
  by apply moves_keeps_grant with (1 := Hm).
Qed.

(** The end of a grant takes it out of the cache. *)
Lemma closing_coherent q q' s s' r id :
  ApprovalInv s -> ApprovalInv s' -> grants_coherent q s ->
  q_grants q' = delete (approval_grant_id id) (q_grants q) ->
  write_ok s id r -> appended r s s' -> grants_coherent q' s'.
Proof.
  intros Hi Hi' Hc Hq Hok Happ. apply (coherent_preserved q q' s s' Hi Hi' Hc).
  intros gid g. rewrite Hq. intros [Hne Hg]%lookup_delete_Some. split; [done|].
  intros id' -> Hg'. rewrite (appended_others _ _ id r id' Hok Happ); [done|].
  by intros ->.
Qed.

Lemma finish_submit_grants id r q : q_grants (finish_submit id r q).2 = q_grants q.
Proof. unfold finish_submit. cbn. by case_match. Qed.

Lemma submit_plan_finish clk id sub expires skippable scopes q s r finish :
  (submit_plan clk id sub expires skippable scopes q s).1 = Ok (Commit r finish) ->
  exists x, finish = finish_submit id x /\ rq_transaction_id r = submit_tx id.
Proof.
  unfold submit_plan. cbv zeta. destruct (validate_submission id sub); [|discriminate].
  destruct (queue_get q s id); [by case_match|]. intros [= <- <-]. by eexists.
Qed.

Lemma cancel_plan_finish clk id reason superseded q s r finish :
  (cancel_plan clk id reason superseded q s).1 = Ok (Commit r finish) ->
  exists x receipt, finish = finish_request (aq_approval_id x) receipt None /\
    rq_transaction_id r = cancel_tx (aq_approval_id x).
Proof.
  unfold cancel_plan. destruct (restore_approval_request s id) as [x|]; [|discriminate].
  destruct (hydrate_request q s id) as [q1|]; [|discriminate]. case_match; [discriminate|].
  intros [= <- <-]. by eexists _, _.
Qed.

Ltac not_grant_tx := intros [? [E|E]]; discriminate E.

Lemma timeout_coherent clk id q s s' q' a r finish rcp :
  ApprovalInv s -> ApprovalInv s' -> grants_coherent q s ->
  moves s s' (rq_transaction_id r) ->
  (timeout_plan clk id q s).1 = Ok (Commit r finish) ->
  eb_append r None s = (Ok rcp, s') -> finish (timeout_plan clk id q s).2 = (a, q') ->
  grants_coherent q' s'.
Proof.
  intros Hi Hi' Hc Hm Hp Ha Hf. unfold timeout_plan in Hp, Hf.
  destruct (restore_approval_request s id) as [x|] eqn:Ex; [|discriminate].
  pose proof (restored_id s _ _ Hi Ex) as Hid.
  destruct (hydrate_request q s id) as [q1|] eqn:Eh; [|discriminate].
  apply hydrate_grants in Eh.
  destruct (negb (bool_decide (aq_status x = StPending))) eqn:Es; [discriminate|].
  apply negb_false_iff, bool_decide_eq_true in Es. destruct (_ && _).
  - destruct (decide_internal_plan _ _ _ _) as [res q2] eqn:Ep. cbn in Hp, Hf. subst res.
    assert (q_grants q2 = q_grants q) as Hq2.
    { pose proof (decide_internal_grants clk (auto_approve_command (aq_approval_id x))
                    (put_request id x q1) s) as Hg. rewrite Ep in Hg. by rewrite <- Eh. }
    apply decide_internal_inv in Ep as (_ & _ & Ep). rewrite Hid in Ep.
    assert (rq_transaction_id r = decision_tx id) as Htx.
    { eapply (decision_write_ok _ (auto_approve_command id)); [apply (ai_life _ Hi)|done|exact Ep]. }
    rewrite Htx in Hm.
    assert (Hc1 : grants_coherent (put_request id x q1) s)
      by (intros gid g; cbn; rewrite Eh; apply Hc).
    assert (Hq21 : q_grants q2 = q_grants (put_request id x q1)) by (cbn; by rewrite Hq2, Eh).
    assert (Hfr : fresh_decision s (auto_approve_command id))
      by (intros y Hy Hd; cbn in Hy; congruence).
    exact (decision_coherent clk (auto_approve_command id) _ s r finish q2 rcp s' a q' Hi Hi' Hc1
             Hq21 Hfr Hm Ep Ha Hf).
  - destruct (eb_event_by_key _ _ _); [by destruct (finish_request _ _ _)|].
    injection Hp as <- <-. injection Hf as _ <-.
    eapply (neutral_coherent q); [exact Hi | exact Hi' | exact Hc | exact Eh | exact Hm | cbn; not_grant_tx].
Qed.

Lemma operation_coherent q s A (p : Planned Value A) res q' s' :
  ApprovalInv s -> ApprovalInv s' -> grants_coherent q s -> queue_operation q s A p ->
  perform p s = (res, q', s') -> grants_coherent q' s'.
Proof.
  intros Hi Hi' Hc Ho Hd. pose proof (operation_grants _ _ _ _ Ho) as Hq.
  destruct (perform_cases _ _ _ _ _ (proj1 (ai_disciplined _ Hi)) Hd)
    as [[-> ->]|(r & finish & a & rcp & Hp & Ha & Hf & _)].
  { intros gid g. rewrite Hq. apply Hc. }
  assert (Hw : approval_write s r).
  { eapply operation_write; [exact (coherent_named _ _ Hi Hc) | exact Ho|].
    destruct p as [r0 q0]. cbn in Hp. by subst r0. }
  pose proof (append_appended _ _ _ _ _ (proj1 (ai_disciplined _ Hi)) Ha) as Happ.
  pose proof (append_moves _ _ _ _ Hi (extends_refl _ (proj1 (ai_disciplined _ Hi))) Hw Happ) as Hm.
  destruct Ho as [clk id sub ex sk sc|clk c p He Hfr|clk id app rv actor ap dc rs ls Hx|clk id
                 |clk id rs sup|clk gid|clk pr gid rs].
  - destruct (submit_plan_finish _ _ _ _ _ _ _ _ _ _ Hp) as (x & -> & Htx).
    rewrite Htx in Hm. apply (f_equal snd) in Hf. cbn [snd] in Hf. subst q'.
    eapply (neutral_coherent q); [exact Hi | exact Hi' | exact Hc | |exact Hm | not_grant_tx].
    by rewrite finish_submit_grants.
  - destruct p as [r0 q0]; cbn in Hp, Hq, Hf; subst r0.
    destruct (decision_entry_authorized _ _ _ _ _ _ _ He eq_refl) as [Hauth Hgl].
    eapply decision_coherent; [exact Hi | done | exact Hc | exact Hq | done | | exact Hauth
                              | exact Ha | exact Hf].
    by destruct (decision_write_ok _ _ _ _ _ _ _ (ai_life _ Hi _) Hgl Hauth) as [_ <-].
  - destruct (record_application_decision_plan _ _ _ _ _ _ _ _ _ _ _) as [r0 q0] eqn:Ep.
    cbn in Hp, Hq, Hf. subst r0.
    destruct (application_plan_commit _ _ _ _ _ _ _ _ _ _ _ _ _ _ Ep)
      as (y & d & _ & _ & (receipt & ->) & ->).
    injection Hf as _ <-.
    eapply (neutral_coherent q); [exact Hi | exact Hi' | exact Hc |exact Hq | exact Hm
                                 | cbn; not_grant_tx].
  - exact (timeout_coherent clk id q s s' q' a r finish rcp Hi Hi' Hc Hm Hp Ha Hf).
  - destruct (cancel_plan_finish _ _ _ _ _ _ _ _ Hp) as (x & receipt & -> & Htx).
    rewrite Htx in Hm. injection Hf as _ <-.
    eapply (neutral_coherent q); [exact Hi | exact Hi' | exact Hc |exact Hq | exact Hm
                                 | not_grant_tx].
  - unfold consume_once_grant_plan in Hp, Hf. destruct (q_grants q !! gid) as [g|] eqn:Eg; [|done].
    case_match; simplify_eq/=. pose proof (coherent_named _ _ Hi Hc _ _ Eg) as Hgid.
    eapply (closing_coherent q _ _ _ _ (gt_approval_id g)); [exact Hi | exact Hi' | exact Hc | | |exact Happ].
    + cbn. by rewrite Hgid.
    + apply close_write_ok; [by right | eexists; by left |]. rewrite Hgid. apply payload_grant_id_consume.
  - unfold revoke_grant_plan in Hp, Hf. case_match; [done|].
    destruct (q_grants q !! gid) as [g|] eqn:Eg; [|done].
    case_match; simplify_eq/=. pose proof (coherent_named _ _ Hi Hc _ _ Eg) as Hgid.
    eapply (closing_coherent q _ _ _ _ (gt_approval_id g)); [exact Hi | exact Hi' | exact Hc | | |exact Happ].
    + cbn. by rewrite Hgid.
    + apply close_write_ok; [by left | eexists; by right |]. rewrite Hgid. apply payload_grant_id_revoke.
Qed.

(** ** Refresh keeps the cached grants coherent *)

Lemma split_after (c : N) (l : list Event) :
  StronglySorted N.le (ev_commit_cursor <$> l) ->
  l = List.filter (fun e => (ev_commit_cursor e <=? c)%N) l
      ++ List.filter (fun e => (c <? ev_commit_cursor e)%N) l.
Proof.
  induction l as [|e l IH]; intros Hs; [done|]. cbn [List.filter].
  rewrite fmap_cons in Hs. apply StronglySorted_inv in Hs as [Hs Hall].
  destruct (N.leb_spec (ev_commit_cursor e) c) as [Hle|Hlt].
  - rewrite (proj2 (N.ltb_ge _ _)) by lia. cbn. f_equal. auto.
  - rewrite (proj2 (N.ltb_lt _ _)) by lia.
    assert (forall x, x ∈ l -> (c < ev_commit_cursor x)%N) as Hx.
    { intros x Hx. pose proof (proj1 (Forall_forall _ _) Hall (ev_commit_cursor x)
        (list_elem_of_fmap_2 _ _ _ Hx)). cbn in *. lia. }
    rewrite filterb_none, filterb_all; [done| |].
    + intros x ?%Hx. apply N.ltb_lt. lia.
    + intros x ?%Hx. apply N.leb_gt. lia.
Qed.

(** An active grant at the end of a replay was there at its start, or is what the
    replay ends with from any start. *)
Lemma grant_fold_active (evs : list Event) g0 g :
  fold_left grant_event evs g0 = Some g -> gt_status g = AgActive ->
  g0 = Some g \/ forall g1, fold_left grant_event evs g1 = Some g.
Proof.
  intros Hf Ha. revert Hf. induction evs as [|e evs IH] using rev_ind; [by left|].
  rewrite fold_left_app. cbn [fold_left]. unfold grant_event at 1.
  destruct (_ || is_resolution_kind _) eqn:E1.
  { intros [?|Hall]%IH; [by left | right]. intros g1.
    rewrite fold_left_app. cbn [fold_left]. unfold grant_event at 1. by rewrite E1. }
  destruct (String.eqb _ "approval.grant_issued") eqn:E2.
  { intros Hp. right. intros g1. rewrite fold_left_app. cbn [fold_left].
    unfold grant_event at 1. by rewrite E1, E2. }
  destruct (_ || String.eqb _ "approval.grant_consumed") eqn:E3.
  { intros (y & _ & ->)%fmap_Some. exfalso.
    destruct (close_grant_with e y) as (st & exp & rev & reason & Hc & Hne).
    rewrite Hc in Ha. by cbn in Ha. }
  intros [?|Hall]%IH; [by left | right]. intros g1.
  rewrite fold_left_app. cbn [fold_left]. unfold grant_event at 1. by rewrite E1, E2, E3.
Qed.

Lemma fold_grants_keyed (l : list Event) : forall st,
  (forall e, e ∈ l -> disciplined_event e) -> grants_keyed st.2 ->
  grants_keyed (fold_left apply_approval_event (List.filter in_scope_approval l) st).2.
Proof.
  induction l as [|e l IH]; intros st Hd Hk; [done|]. cbn.
  assert (Hl : forall x, x ∈ l -> disciplined_event x) by (intros; apply Hd; by right).
  destruct (in_scope_approval e) eqn:Es; [|by apply IH]. cbn. apply IH; [done|].
  apply apply_grants_keyed; [apply Hd; left | by apply bool_decide_eq_true in Es | done].
Qed.

Lemma refresh_coherent fuel now q s q' :
  ApprovalInv s -> grants_coherent q s ->
  length (later_events s (q_last_refresh_commit q)) < fuel ->
  refresh fuel now q s = Done q' -> grants_coherent q' s.
Proof.
  intros Hi Hc Hf Hr. unfold refresh in Hr. destruct (_ <=? _)%N; [by injection Hr as <-|].
  pose proof (proj1 (ai_disciplined _ Hi)) as Hinv.
  destruct (refresh_pages_complete s Hinv fuel
              (q_last_refresh_commit q) (q_requests q, q_grants q) Hf) as [c' Hp].
  rewrite Hp in Hr. clear Hp. cbn in Hr.
  set (Q := later_events s (q_last_refresh_commit q)) in *.
  assert (Hd : forall e, e ∈ Q -> disciplined_event e).
  { intros e [He _]%elem_of_filterb. by apply (proj2 (ai_disciplined _ Hi)). }
  pose proof (fold_grants_keyed Q (q_requests q, q_grants q) Hd (coherent_named _ _ Hi Hc)) as Hk.
  pose proof (fun id => fold_apply_entry id Q (q_requests q, q_grants q) Hd) as Hentry.
  destruct (fold_left apply_approval_event _ _) as [reqs grants]. injection Hr as <-.
  intros gid g. cbn [q_grants]. unfold active_approval_grants.
  intros [Hg Hact]%map_lookup_filter_Some. cbn in Hact.
  apply andb_true_iff in Hact as [Hact%bool_decide_eq_true _]. split; [done|].
  pose proof (Hk _ _ Hg) as Hgid. destruct (Hentry (gt_approval_id g)) as [_ He].
  cbn [snd] in He. rewrite <- Hgid, Hg in He.
  destruct (grant_fold_active _ _ _ (eq_sym He) Hact) as [Hq|Hall]; [by apply Hc|].
  rewrite Hgid, durable_grant by done. unfold approval_state. cbn [snd].
  rewrite jl_stream by done.
  rewrite (split_after (q_last_refresh_commit q) (jl_journal s)) by by apply jl_sorted.
  rewrite List.filter_app, fold_left_app. apply Hall.
Qed.

(** ** Runs of one queue *)

(** Transactions that are not this queue's. *)
Inductive external_write (s0 : S) (r : Request) : Prop :=
| ExternalGraph c t stream rev evs l1 l2 :
    canonical_graph_decision s0 c t = Ok (stream, rev, evs) ->
    {| es_stream_id := stream; es_expected_revision := rev |} ∈ rq_expected_streams r ->
    rq_events r = l1 ++ evs ++ l2 -> (forall i, i ∈ l1 ++ l2 -> foreign_input i) ->
    foreign_tx (rq_transaction_id r) -> external_write s0 r
| ExternalOther :
    (forall i, i ∈ rq_events r -> foreign_input i) -> foreign_tx (rq_transaction_id r) ->
    external_write s0 r.

Lemma external_approval_write s0 r :
  external_write s0 r -> approval_write s0 r /\ ~ grant_tx (rq_transaction_id r).
Proof.
  intros [c t stream rev evs l1 l2 Hc Hx He Hf Ht|Hf Ht]; (split; [|apply Ht]).
  - by eapply WriteGraph.
  - by apply WriteOther.
Qed.

(** The store's history after a plan ran. *)
Definition after_perform {A} (p : Planned Value A) (s' : S) (h : list S) : list S :=
  match plan_append p with Some _ => s' :: h | None => h end.

(** One queue over a store: it is built at some state, runs its operations,
    refreshes, looks grants up, reconciles deadlines, while the graph decisions
    and unrelated transactions of other components reach the store. *)
Inductive queue_run : ApprovalQueue -> list S -> Prop :=
| RunNew now s h : approval_history (s :: h) -> queue_run (queue_new now s) (s :: h)
| RunOperation A (p : Planned Value A) q s h res q' s' :
    queue_run q (s :: h) -> queue_operation q s A p -> perform p s = (res, q', s') ->
    queue_run q' (after_perform p s' (s :: h))
| RunRefresh fuel now q s h q' :
    queue_run q (s :: h) -> length (later_events s (q_last_refresh_commit q)) < fuel ->
    refresh fuel now q s = Done q' -> queue_run q' (s :: h)
| RunLookup clk c risk q h : queue_run q h -> queue_run (matching_grant clk q c risk).2 h
| RunDeadlines deadlines q h : queue_run q h -> queue_run (with_deadlines q deadlines) h
| RunExternal q s h s0 r terminal res s' :
    queue_run q (s :: h) -> s0 ∈ s :: h -> external_write s0 r ->
    eb_append r terminal s = (res, s') -> queue_run q (s' :: s :: h).

Lemma queue_new_coherent now s : ApprovalInv s -> grants_coherent (queue_new now s) s.
Proof.
  intros Hi gid g. unfold queue_new.
  destruct (restore_approval_state s) as [reqs grants] eqn:Er. cbn.
  unfold active_approval_grants. intros [Hg Hact]%map_lookup_filter_Some. cbn in Hact.
  by apply andb_true_iff in Hact as [Hact%bool_decide_eq_true _].
Qed.

Lemma queue_run_inv q hs : queue_run q hs ->
  exists s h, hs = s :: h /\ approval_history (s :: h) /\ grants_coherent q s.
Proof.
  induction 1 as [now s h Hh|A p q s h res q' s' _ IH Ho Hd|fuel now q s h q' _ IH Hf Hr
                 |clk c risk q h _ IH|d q h _ IH|q s h s0 r t res s' _ IH Hin Hw Ha].
  - exists s, h. split_and!; [done..|]. apply queue_new_coherent.
    apply (history_inv _ _ Hh s ltac:(left)).
  - destruct IH as (s1 & h1 & [= <- <-] & Hh & Hc).
    destruct (history_inv _ _ Hh s ltac:(left)) as [Hi _].
    assert (exists s1 h1, after_perform p s' (s :: h) = s1 :: h1 /\ s1 = s' /\
              approval_history (s1 :: h1)) as (s1 & h1 & Ha & -> & Hh').
    { unfold after_perform. destruct (plan_append p) as [r|] eqn:Ep.
      - exists s', (s :: h). split_and!; [done..|].
        pose proof (operation_write _ _ _ _ _ (coherent_named _ _ Hi Hc) Ho Ep) as Hw.
        destruct (plan_append_inv _ _ Ep) as (finish & q1 & ->). cbn in Hd.
        destruct (eb_append r None s) as [[rcp|e] s1] eqn:Ea.
        + destruct (finish q1). injection Hd as _ _ <-.
          by eapply HistoryAppend; [done | left | exact Hw | exact Ea].
        + injection Hd as _ _ <-. by eapply HistoryAppend; [done | left | exact Hw | exact Ea].
      - exists s, h. split_and!; [done| |done].
        destruct p as [[[a|r f]|e] q1]; cbn in *; by simplify_eq. }
    exists s', h1. split_and!; [done..|]. eapply operation_coherent; [exact Hi| |exact Hc|exact Ho|exact Hd].
    apply (history_inv _ _ Hh' s' ltac:(left)).
  - destruct IH as (s1 & h1 & [= <- <-] & Hh & Hc). exists s, h. split_and!; [done..|].
    eapply refresh_coherent; [|exact Hc | exact Hf | exact Hr].
    apply (history_inv _ _ Hh s ltac:(left)).
  - destruct IH as (s & h1 & -> & Hh & Hc). exists s, h1. split_and!; [done..|].
    intros gid g. cbn. unfold active_approval_grants.
    intros [Hg _]%map_lookup_filter_Some. by apply Hc.
  - destruct IH as (s & h1 & -> & Hh & Hc). by exists s, h1.
  - destruct IH as (s1 & h1 & [= <- <-] & Hh & Hc).
    destruct (external_approval_write _ _ Hw) as [Hw' Hn].
    assert (Hh' : approval_history (s' :: s :: h)) by (by eapply HistoryAppend).
    exists s', (s :: h). split_and!; [done..|].
    destruct (history_inv _ _ Hh s ltac:(left)) as [Hi _].
    destruct (history_inv _ _ Hh s0 Hin) as [Hi0 He0].
    pose proof (append_appended _ _ _ _ _ (proj1 (ai_disciplined _ Hi)) Ha) as Happ.
    eapply (neutral_coherent q q s s'); [exact Hi| |exact Hc|done| |exact Hn].
    + apply (history_inv _ _ Hh' s' ltac:(left)).
    + exact (append_moves _ _ _ _ Hi0 He0 Hw' Happ).
Qed.

Lemma matched_backed q s h clk c risk g :
  queue_run q (s :: h) -> (matching_grant clk q c risk).1 = Some g ->
  (restore_approval_state s).2 !! gt_grant_id g = Some g /\ covers g c risk (clk 1) /\
  exists r, restore_approval_request s (gt_approval_id g) = Some r /\ backed r g /\
    cx_principal_id (aq_context r) = cx_principal_id c /\
    cx_profile_id (aq_context r) = cx_profile_id c /\
    cx_workspace_key (aq_context r) = cx_workspace_key c /\
    cx_capability (aq_context r) = cx_capability c /\
    (risk_rank risk <= risk_rank (aq_risk r))%N.
Proof.
  intros Hr Hm.
  destruct (queue_run_inv _ _ Hr) as (s1 & h1 & [= <- <-] & Hh & Hc).
  destruct (history_inv _ _ Hh s ltac:(left)) as [Hi _].
  unfold matching_grant in Hm. cbn [active_grants fst snd] in Hm.
  pose proof (find_covering c risk (clk 1) _ (sort_by_scope_sorted
    (btree_values (active_approval_grants (clk 0) (q_grants q))))) as Hf.
  rewrite Hm in Hf. destruct Hf as (Hin & Hcov & _).
  apply elem_of_sort_by_scope, elem_of_btree_values in Hin as [gid Hg].
  apply map_lookup_filter_Some in Hg as [Hg _]. destruct (Hc _ _ Hg) as [Ha Hd].
  pose proof (coherent_named _ _ Hi Hc _ _ Hg) as Hgid.
  pose proof Hd as Hd'. rewrite Hgid, durable_grant in Hd' by done.
  pose proof (ai_life _ Hi (gt_approval_id g)) as Hok.
  destruct (approval_state s (gt_approval_id g)) as [o g0] eqn:Est. cbn in Hd'. subst g0.
  destruct o as [r|]; [|done]. destruct Hok as (Hid & _ & _ & Hb).
  pose proof (approval_state_restore _ _ _ _ Est) as Hrest.
  destruct Hb as (d & st & exp & rev & reason & Hdec & Hap & Hst & Hsc & Hgl & Heq).
  assert (gt_grant_id g = gid) as Hgg by (rewrite Hgid, Heq; cbn; by rewrite Hid).
  rewrite Hgg. split_and!; [done | done |]. exists r. destruct Hcov as [_ C1 C2 C3 C4 _ C5 _ _ _ _].
  rewrite Heq in C1, C2, C3, C4, C5. cbn in C1, C2, C3, C4, C5.
  split_and!; try done. by exists d, st, exp, rev, reason.
Qed.

(** C3. A matched grant is an approval.  However one queue's operations,
    refreshes and lookups interleave with graph decisions and other
    transactions, a grant that [matching_grant] answers with is the active grant
    the streams replay to at that moment, it covers the action, and its approval
    was approved: the durable request records the approving decision that issued
    it, for this principal, profile, workspace and capability. *)
Theorem matched_grant_authorized q s h clk c risk g
    (Hr : queue_run q (s :: h)) (Hm : (matching_grant clk q c risk).1 = Some g) :
  (restore_approval_state s).2 !! gt_grant_id g = Some g /\ covers g c risk (clk 1) /\
  exists r, restore_approval_request s (gt_approval_id g) = Some r /\ backed r g /\
    cx_principal_id (aq_context r) = cx_principal_id c /\
    cx_profile_id (aq_context r) = cx_profile_id c /\
    cx_workspace_key (aq_context r) = cx_workspace_key c /\
    cx_capability (aq_context r) = cx_capability c /\
    (risk_rank risk <= risk_rank (aq_risk r))%N.
Proof. by eapply matched_backed. Qed.
End Authority.
