(* ===== verification/ApprovalSamples.v ===== *)
(** * Concrete approvals

    Runs of the approval queue on the in-process store with the sample JSON
    model: the inputs at which the witnesses of [ApprovalLifecycle] and
    [ApprovalAuthority] evaluate. *)

From S2P Require Import Prelude Facts Contract Validation Delta Ports EventStore.
From S2P Require Import Samples Backend Approval ApprovalJournal ApprovalQueue.
From S2P Require Import ApprovalMachine ApprovalLifecycle ApprovalAuthority.

Definition SampleStore : Type := EphemeralState SampleValue.

#[export] Instance sample_backend : EventBackend SampleValue SampleStore :=
  ephemeral_backend sample_uuid sample_now.
#[export] Instance sample_reads : ScopeReads SampleValue SampleStore := ephemeral_reads.
#[export] Instance sample_journal : Journal SampleValue SampleStore :=
  ephemeral_journal sample_uuid sample_now.

Definition sample_clk (n : nat) : N := 100 + N.of_nat n.

Definition session_source : ApprovalSource :=
  {| as_kind := AsSession; as_session_id := Some "session"%string; as_agent_id := None;
     as_team_id := None; as_mission_id := None; as_resource_ref := None; as_review_ref := None;
     as_application := None |}.

Definition sample_application : ApprovalApplicationSource :=
  {| aa_app_id := "app"; aa_correlation_schema := "schema"; aa_decision_capability := "cap" |}.

Definition application_source : ApprovalSource :=
  {| as_kind := AsApplication; as_session_id := Some "session"%string; as_agent_id := None;
     as_team_id := None; as_mission_id := None; as_resource_ref := None;
     as_review_ref := Some "review"%string; as_application := Some sample_application |}.

Definition sample_context : ApprovalContext :=
  {| cx_principal_id := "principal"; cx_profile_id := "balanced"; cx_approval_profile := None;
     cx_workspace_key := "workspace"; cx_session_id := Some "session"%string;
     cx_turn_id := Some "turn"%string; cx_task_id := Some "task"%string; cx_capability := "shell";
     cx_invocation_id := Some "call"%string; cx_execution_id := None;
     cx_strategy_decision_ref := None; cx_source_surface := None; cx_resource_targets := [];
     cx_effect := None; cx_explicit_ask := false; cx_policy_revision := 1;
     cx_requested_sandbox_posture := None; cx_effective_sandbox_posture := None |}.

Definition sample_submission (source : ApprovalSource) (policy : ApprovalTimeoutPolicy) :
  SubmitApprovalRequest :=
  {| sa_source := source; sa_context := sample_context; sa_action := "run"; sa_summary := "run it";
     sa_risk := RiskHigh; sa_domain := AdExecution; sa_blocks_execution := true;
     sa_evidence_refs := []; sa_timeout_policy := policy |}.

Definition sample_human : PrincipalClaims :=
  {| pl_principal_id := "person"; pl_tenant_id := "t"; pl_grant_id := "g"; pl_kind := PkHuman;
     pl_scopes := []; pl_capabilities := ["approval.respond"%string];
     pl_assurance := PaHumanInteractive; pl_issuer := "i"; pl_issued_at_ms := 0;
     pl_expires_at_ms := None; pl_credential_fingerprint := "f"; pl_credential_epoch := 1;
     pl_profile_revision := 1; pl_app_profiles := ∅ |}.

Definition sample_command (approved : bool) (scope : ApprovalGrantScope) :
  ApprovalDecisionCommand :=
  {| ad_approval_id := "a"; ad_approved := approved; ad_skip := false; ad_reason := "because";
     ad_scope := scope; ad_actor := {| ada_kind := ActorPolicy; ada_actor_id := "ignored" |};
     ad_evidence_refs := [] |}.

Definition all_scopes : list ApprovalGrantScope := [GsOnce; GsTurn; GsTask; GsSession; GsGlobal].

(** ** One approval, approved by a person for the session *)

Definition st0 : SampleStore := ephemeral_default.
Definition qu0 : ApprovalQueue := queue_new 0 st0.

Definition submit_a source policy scopes : Planned SampleValue ApprovalRequest :=
  submit_plan sample_clk "a" (sample_submission source policy) (Some 500%N) false scopes qu0 st0.

Definition no_request : AppendTransactionRequest SampleValue :=
  {| rq_transaction_id := EmptyString; rq_expected_streams := []; rq_events := [] |}.

Definition append_of {A} (p : Planned SampleValue A) : AppendTransactionRequest SampleValue :=
  default no_request (plan_append p).

Definition run1 := perform (submit_a session_source ToPending all_scopes) st0.
Definition qu1 : ApprovalQueue := run1.1.2.
Definition st1 : SampleStore := run1.2.

Definition decide_a (approved : bool) : Planned SampleValue ApprovalDecisionReceipt :=
  decide_plan sample_clk sample_human (sample_command approved GsSession) qu1 st1.

Definition run2 (approved : bool) := perform (decide_a approved) st1.
Definition qu2 approved : ApprovalQueue := (run2 approved).1.2.
Definition st2 approved : SampleStore := (run2 approved).2.

(** A step of a history, from the append of a plan. *)
Lemma sample_step {A} (p : Planned SampleValue A) (h : list SampleStore) (s s0 : SampleStore) :
  approval_history (s :: h) -> s0 ∈ s :: h -> approval_write s0 (append_of p) ->
  approval_history ((eb_append (append_of p) None s).2 :: s :: h).
Proof.
  intros Hh Hin Hw. destruct (eb_append (append_of p) None s) as [res s'] eqn:Ea.
  by apply (HistoryAppend h s s0 (append_of p) None res s').
Qed.

Lemma sample_start : approval_history [st0].
Proof.
  apply HistoryStart; [apply StoreInv_default | done |]. intros tx [r Hr]. cbn in Hr.
  by rewrite lookup_empty in Hr.
Qed.

(** The submission of "a" at the empty store. *)
Lemma history1_of source policy scopes s1 :
  plan_append (submit_a source policy scopes) <> None ->
  (eb_append (append_of (submit_a source policy scopes)) None st0).2 = s1 ->
  approval_history [s1; st0].
Proof.
  intros Hp <-. apply (sample_step (submit_a source policy scopes) [] st0 st0 sample_start);
    [left|]. unfold append_of. destruct (plan_append _) as [r|] eqn:E; [|done]. cbn.
  eapply WriteSubmit. exact E.
Qed.

Lemma history1 : approval_history [st1; st0].
Proof.
  apply (history1_of session_source ToPending all_scopes).
  - vm_compute. discriminate.
  - vm_compute. reflexivity.
Qed.

Lemma history2 approved : approval_history [st2 approved; st1; st0].
Proof.
  assert ((eb_append (append_of (decide_a approved)) None st1).2 = st2 approved) as <-
    by (destruct approved; vm_compute; reflexivity).
  apply (sample_step _ _ _ st1 history1); [left|].
  apply (WriteDecide _ _ sample_clk sample_human (sample_command approved GsSession) qu1).
  destruct approved; vm_compute; reflexivity.
Qed.

(** ** Later writers *)

(** A timeout prepared while the approval was pending, appended after it was
    approved; a second decision after a denial; the end of the grant. *)
Definition late_timeout : Planned SampleValue ApprovalDecisionReceipt :=
  timeout_plan sample_clk "a" qu1 st1.
Definition st3 : SampleStore := (eb_append (append_of late_timeout) None (st2 true)).2.

Definition second_decision : Planned SampleValue ApprovalDecisionReceipt :=
  decide_plan sample_clk sample_human (sample_command true GsSession) (qu2 false) (st2 false).
Definition st3_denied : SampleStore := (eb_append (append_of second_decision) None (st2 false)).2.

Definition revoke_a : Planned SampleValue ApprovalGrant :=
  revoke_grant_plan sample_clk sample_human (approval_grant_id "a") "done" (qu2 true) (st2 true).
Definition st3_revoked : SampleStore := (eb_append (append_of revoke_a) None (st2 true)).2.

Lemma history3 : approval_history [st3; st2 true; st1; st0].
Proof.
  apply (sample_step late_timeout [st1; st0] (st2 true) st1 (history2 true)); [right; left|].
  apply (WriteTimeout _ _ sample_clk "a" qu1). vm_compute. reflexivity.
Qed.

Lemma history3_denied : approval_history [st3_denied; st2 false; st1; st0].
Proof.
  apply (sample_step second_decision [st1; st0] (st2 false) (st2 false) (history2 false)); [left|].
  apply (WriteDecide _ _ sample_clk sample_human (sample_command true GsSession) (qu2 false)).
  vm_compute. reflexivity.
Qed.

Lemma qu2_named : grants_named (qu2 true).
Proof.
  assert (q_grants (qu2 true) = {[approval_grant_id "a" :=
    approval_grant_from_request (default (new_request "a" (sample_submission session_source ToPending)
        false all_scopes ToPending 100 (Some 500%N)) (restore_approval_request st1 "a"))
      GsSession {| ada_kind := ActorHuman; ada_actor_id := "person" |} 101]}) as Hg
    by (vm_compute; reflexivity).
  intros gid g. rewrite Hg. intros [<- <-]%lookup_singleton_Some. by vm_compute.
Qed.

Lemma history3_revoked : approval_history [st3_revoked; st2 true; st1; st0].
Proof.
  apply (sample_step revoke_a [st1; st0] (st2 true) (st2 true) (history2 true)); [left|].
  apply (WriteRevoke _ _ sample_clk sample_human (approval_grant_id "a") "done" (qu2 true));
    [exact qu2_named|]. vm_compute. reflexivity.
Qed.

(** ** Witnesses *)

Definition resolved_a (s : SampleStore) : ApprovalRequest :=
  default (new_request "a" (sample_submission session_source ToPending) false all_scopes ToPending
             0 None) (restore_approval_request s "a").




Lemma queue_denial_final_witness :
  restore_approval_request st3_denied "a" = Some (resolved_a (st2 false)) /\
  aq_status (resolved_a (st2 false)) = StDenied /\
  plan_append second_decision <> None.
Proof.
  split_and!; [|vm_compute; reflexivity | vm_compute; discriminate].
  apply (queue_denial_final st3_denied [st2 false; st1; st0] (st2 false) "a"
           (resolved_a (st2 false)) history3_denied);
    [right; left | vm_compute; reflexivity | vm_compute; reflexivity |].
  vm_compute. eexists. reflexivity.
Defined.

Definition ended_grant : ApprovalGrant :=
  default (approval_grant_from_request (resolved_a st1) GsOnce
             {| ada_kind := ActorHuman; ada_actor_id := EmptyString |} 0)
    ((restore_approval_state st3_revoked).2 !! approval_grant_id "a").

Lemma grant_end_final_witness :
  exists g', (restore_approval_state st3_revoked).2 !! approval_grant_id "a" = Some g' /\
    gt_status g' <> AgActive.
Proof.
  destruct (grant_end_final st3_revoked [st2 true; st1; st0] st3_revoked "a" ended_grant
              history3_revoked) as (g' & Hg & Hs & _);
    [left | vm_compute; reflexivity | vm_compute; discriminate |].
  exists g'. exact (conj Hg Hs).
Defined.

Definition issued_a : ApprovalGrant :=
  default ended_grant ((restore_approval_state (st2 true)).2 !! approval_grant_id "a").

Lemma grant_backed_witness :
  gt_status issued_a = AgActive /\
  exists r, restore_approval_request (st2 true) (gt_approval_id issued_a) = Some r /\
    backed r issued_a.
Proof.
  split; [vm_compute; reflexivity|].
  exact (proj2 (grant_backed (st2 true) [st1; st0] (approval_grant_id "a") issued_a (history2 true)
                  ltac:(vm_compute; reflexivity))).
Defined.

Lemma replays_agree_witness :
  (restore_approval_state (st2 true)).1 !! "a"%string = Some (resolved_a (st2 true)) /\
  aq_approval_id (resolved_a (st2 true)) = "a"%string.
Proof.
  destruct (replays_agree (st2 true) [st1; st0] "a" (history2 true)) as [-> Hid].
  split; [vm_compute; reflexivity|]. apply Hid. vm_compute. reflexivity.
Defined.

Lemma decide_recorded_witness :
  exists receipt q' s', run2 true = (Ok receipt, q', s') /\ forgotten "a" q' /\
    rd_status receipt = StApproved.
Proof.
  destruct (run2 true) as [[[receipt|e] q'] s'] eqn:E; [|exfalso; revert E; vm_compute; discriminate].
  exists receipt, q', s'. split; [reflexivity|].
  destruct (decide_recorded st1 [st0] sample_clk
              (with_actor (sample_command true GsSession) ActorHuman "person") qu1
              (decide_a true) receipt q' s' history1) as (Hf & x & Hx & _ & Ho);
    [left; exists sample_human, (sample_command true GsSession); split_and!; reflexivity
    | exact E |].
  split; [exact Hf|]. change (restore_approval_request st1 "a" = Some x) in Hx.
  assert (x = resolved_a st1) as -> by (unfold resolved_a; rewrite Hx; reflexivity).
  unfold decision_outcome in Ho.
  assert (aq_status (resolved_a st1) = StPending) as Hp by (vm_compute; reflexivity).
  rewrite Hp in Ho. destruct Ho as [-> _]. reflexivity.
Defined.

Definition run_timeout := timeout sample_clk "a" qu1 st1.

Lemma timeout_recorded_witness :
  exists receipt q' s', run_timeout = (Ok receipt, q', s') /\ forgotten "a" q' /\
    exists x, restore_approval_request st1 "a" = Some x /\
      timeout_outcome sample_clk "a" x receipt st1 s'.
Proof.
  destruct run_timeout as [[[receipt|e] q'] s'] eqn:E; [|exfalso; revert E; vm_compute; discriminate].
  exists receipt, q', s'. split; [reflexivity|].
  exact (timeout_recorded st1 [st0] sample_clk "a" qu1 receipt q' s' history1 E).
Defined.

Definition run_cancel := queue_cancel sample_clk "a" "newer input" true qu1 st1.

Lemma cancel_recorded_witness :
  exists receipt q' s', run_cancel = (Ok receipt, q', s') /\ forgotten "a" q'.
Proof.
  destruct run_cancel as [[[receipt|e] q'] s'] eqn:E; [|exfalso; revert E; vm_compute; discriminate].
  exists receipt, q', s'. split; [reflexivity|].
  exact (proj1 (cancel_recorded st1 [st0] sample_clk "a" "newer input" true qu1 receipt q' s'
                  history1 E)).
Defined.

Definition run_reconcile := reconcile_deadlines_at (fun _ => sample_clk) 500 qu1 st1.


(** *** An application's fact over a timeout *)

Definition submit_app := submit_a application_source ToPending all_scopes.
Definition run_app := perform submit_app st0.
Definition qu_app : ApprovalQueue := run_app.1.2.
Definition st1_app : SampleStore := run_app.2.
Definition timeout_app : Planned SampleValue ApprovalDecisionReceipt :=
  timeout_plan sample_clk "a" qu_app st1_app.
Definition st2_app : SampleStore := (eb_append (append_of timeout_app) None st1_app).2.

(** The cache still holds the pending request when the fact is recorded. *)
Definition run_fact :=
  record_application_decision_fact sample_clk "a" sample_application "review" "owner" true "publish"
    "fine" "lease" qu_app st2_app.

Lemma history2_app : approval_history [st2_app; st1_app; st0].
Proof.
  apply (sample_step timeout_app [st0] st1_app st1_app); [|left|].
  - apply (history1_of application_source ToPending all_scopes).
    + vm_compute. discriminate.
    + vm_compute. reflexivity.
  - apply (WriteTimeout _ _ sample_clk "a" qu_app). vm_compute. reflexivity.
Qed.

Lemma application_fact_overrides_witness :
  aq_status (resolved_a st2_app) = StTimedOut /\
  restore_approval_request run_fact.2 "a"
    = Some (with_resolution (resolved_a st2_app) StApproved None (Some 100%N)).
Proof.
  split; [vm_compute; reflexivity|].
  destruct run_fact as [[[receipt|e] q'] s'] eqn:E;
    [|exfalso; revert E; vm_compute; discriminate].
  apply (application_fact_overrides st2_app [st1_app; st0] sample_clk "a" sample_application "review"
           "owner" true "publish" "fine" "lease" qu_app receipt q' s' (resolved_a st2_app)
           history2_app E).
  - vm_compute. reflexivity.
  - assert (aq_approval_id <$> q_requests qu_app !! "a"%string = Some "a"%string) as Hq
      by (vm_compute; reflexivity).
    intros y Hy. rewrite Hy in Hq. by injection Hq.
  - intros ->. assert (length (ep_events run_fact.2) = 3) as Hl by (vm_compute; reflexivity).
    rewrite E in Hl. revert Hl. vm_compute. discriminate.
Defined.

(** *** A request the timeout policy may not approve *)

Definition submit_turn := submit_a session_source ToAutoApproveOnce [GsTurn].
Definition st1_turn : SampleStore := (eb_append (append_of submit_turn) None st0).2.

Lemma history1_turn : approval_history [st1_turn; st0].
Proof.
  apply (history1_of session_source ToAutoApproveOnce [GsTurn]).
  - vm_compute. discriminate.
  - reflexivity.
Qed.

Lemma ineligible_auto_approval_stays_pending_witness :
  exists q', timeout sample_clk "a" qu0 st1_turn
    = (Err "approval_scope_not_allowed_for_subject"%string, q', st1_turn).
Proof.
  destruct (ineligible_auto_approval_stays_pending st1_turn [st0] sample_clk "a" qu0
              (resolved_a st1_turn) history1_turn) as (q' & Ht & _);
    [vm_compute; reflexivity | vm_compute; reflexivity | vm_compute; reflexivity
    | vm_compute; reflexivity | vm_compute; reflexivity | |].
  - apply (bool_decide_unpack _). vm_compute. exact I.
  - exists q'. exact Ht.
Defined.

(** *** A grant that is matched *)

Lemma after_perform_commits {A} (p : Planned SampleValue A) (s' : SampleStore) h :
  plan_append p <> None -> after_perform p s' h = s' :: h.
Proof. unfold after_perform. by destruct (plan_append p). Qed.

Lemma run1_queue : queue_run qu1 [st1; st0].
Proof.
  rewrite <- (after_perform_commits (submit_a session_source ToPending all_scopes) st1 [st0])
    by (vm_compute; discriminate).
  assert (exists r, run1 = (r, qu1, st1)) as [r Hr]
    by (exists run1.1.1; unfold qu1, st1; by destruct run1 as [[? ?] ?]).
  apply (RunOperation _ (submit_a session_source ToPending all_scopes) qu0 st0 [] r qu1 st1).
  - exact (RunNew 0 st0 [] sample_start).
  - apply OpSubmit.
  - exact Hr.
Qed.

Lemma run2_queue : queue_run (qu2 true) [st2 true; st1; st0].
Proof.
  rewrite <- (after_perform_commits (decide_a true) (st2 true) [st1; st0])
    by (vm_compute; discriminate).
  assert (exists r, run2 true = (r, qu2 true, st2 true)) as [r Hr]
    by (exists (run2 true).1.1; unfold qu2, st2; by destruct (run2 true) as [[? ?] ?]).
  apply (RunOperation _ (decide_a true) qu1 st1 [st0] r (qu2 true) (st2 true)).
  - exact run1_queue.
  - apply (OpDecide _ _ sample_clk (with_actor (sample_command true GsSession) ActorHuman "person")).
    + left. exists sample_human, (sample_command true GsSession). split_and!; reflexivity.
    + assert (aq_status <$> restore_approval_request st1 "a" = Some StPending) as Hs
        by (vm_compute; reflexivity).
      intros x Hx Hd. change (restore_approval_request st1 "a" = Some x) in Hx.
      rewrite Hx in Hs. cbn in Hs. congruence.
  - exact Hr.
Qed.

Lemma matched_grant_authorized_witness :
  exists g, (matching_grant sample_clk (qu2 true) sample_context RiskMedium).1 = Some g /\
    (restore_approval_state (st2 true)).2 !! gt_grant_id g = Some g /\
    exists r, restore_approval_request (st2 true) (gt_approval_id g) = Some r /\ backed r g.
Proof.
  destruct ((matching_grant sample_clk (qu2 true) sample_context RiskMedium).1) as [g|] eqn:E;
    [|exfalso; revert E; vm_compute; discriminate].
  exists g. split; [reflexivity|].
  destruct (matched_grant_authorized (qu2 true) (st2 true) [st1; st0] sample_clk sample_context
              RiskMedium g run2_queue E) as (Hd & _ & r & Hr & Hb & _).
  split; [exact Hd|]. exists r. exact (conj Hr Hb).
Defined.

Lemma refresh_applies_every_later_event_witness :
  exists q', refresh 5 0 qu0 (st2 true) = Done q' /\ length (later_events (st2 true) 0) = 3 /\
    (sr_head_commit (st2 true) <= q_last_refresh_commit q')%N.
Proof.
  destruct (refresh_applies_every_later_event 5 0 qu0 (st2 true) [st1; st0] (history2 true))
    as (q' & Hq & Hrest); [apply Nat.ltb_lt; vm_compute; reflexivity|].
  exists q'. split; [exact Hq|]. split; [vm_compute; reflexivity|].
  assert ((sr_head_commit (st2 true) <=? q_last_refresh_commit qu0)%N = false) as Hh
    by (vm_compute; reflexivity).
  rewrite Hh in Hrest. exact (proj2 (proj2 (proj2 Hrest))).
Defined.
