(* ===== verification/WaitRegistry.v ===== *)
(** * Waking the waiters of an approval

    [ApprovalWaitRegistry] and the loop of [wait_for_resolution] in
    [runtime/src/approval/coordinator.rs], as the steps that tasks interleave:
    a waiter registers, enables its notification, reads the request, and sleeps;
    a decision is committed and then notified.  [Notify::notify_waiters] wakes
    the notifications that are enabled at that moment and stores nothing. *)

From S2P Require Import Prelude.

(** ** The registry *)

(** One [Notify] per approval id; a [Notify] is a number. *)
Record ApprovalWaitRegistry := {
  wr_waiters : gmap string nat;
  wr_fresh : nat
}.

Definition registry_new : ApprovalWaitRegistry := {| wr_waiters := ∅; wr_fresh := 0 |}.

(** [register] *)
Definition registry_register (id : string) (r : ApprovalWaitRegistry) :
  nat * ApprovalWaitRegistry :=
  match wr_waiters r !! id with
  | Some n => (n, r)
  | None => (wr_fresh r, {| wr_waiters := <[id := wr_fresh r]> (wr_waiters r);
                            wr_fresh := S (wr_fresh r) |})
  end.

(** [remove], [count] *)
Definition registry_remove (id : string) (r : ApprovalWaitRegistry) : ApprovalWaitRegistry :=
  {| wr_waiters := delete id (wr_waiters r); wr_fresh := wr_fresh r |}.

Definition registry_count (r : ApprovalWaitRegistry) : nat := size (wr_waiters r).

(** ** Waiters *)

(** Where a waiter of [wait_for_resolution] is; [woken]: its enabled
    notification was notified. *)
Inductive Waiter :=
| Registered (n : nat)
| Enabled (n : nat) (woken : bool)
| Sleeping (n : nat) (woken : bool)
| Returned.

(** [notify_waiters] of the notification [n]. *)
Definition wake (n : nat) (w : Waiter) : Waiter :=
  match w with
  | Enabled m b => Enabled m (b || (m =? n))
  | Sleeping m b => Sleeping m (b || (m =? n))
  | _ => w
  end.

(** The registry, the approvals that are no longer pending, the waiters with
    the approval each waits for, and the notifications that are still due. *)
Record Waits := {
  ws_registry : ApprovalWaitRegistry;
  ws_closed : gset string;
  ws_waiters : gmap nat (string * Waiter);
  ws_due : list string
}.

Definition waits_new : Waits :=
  {| ws_registry := registry_new; ws_closed := ∅; ws_waiters := ∅; ws_due := [] |}.

Definition put_waiter (k : nat) (id : string) (w : Waiter) (st : Waits) : Waits :=
  {| ws_registry := ws_registry st; ws_closed := ws_closed st;
     ws_waiters := <[k := (id, w)]> (ws_waiters st); ws_due := ws_due st |}.

Definition set_registry (r : ApprovalWaitRegistry) (st : Waits) : Waits :=
  {| ws_registry := r; ws_closed := ws_closed st; ws_waiters := ws_waiters st;
     ws_due := ws_due st |}.

Definition close_approval (id : string) (due : list string) (st : Waits) : Waits :=
  {| ws_registry := ws_registry st; ws_closed := {[id]} ∪ ws_closed st;
     ws_waiters := ws_waiters st; ws_due := due |}.

(** A waiter that returns takes its approval out of the registry. *)
Definition return_waiter (k : nat) (id : string) (st : Waits) : Waits :=
  put_waiter k id Returned (set_registry (registry_remove id (ws_registry st)) st).

(** [notify] *)
Definition registry_notify (id : string) (due : list string) (st : Waits) : Waits :=
  {| ws_registry := ws_registry st; ws_closed := ws_closed st;
     ws_waiters := match wr_waiters (ws_registry st) !! id with
                   | Some n => prod_map (fun x => x) (wake n) <$> ws_waiters st
                   | None => ws_waiters st
                   end;
     ws_due := due |}.

(** What a waiter does next with the steps of its own. *)
Definition waiter_turn (k : nat) (st : Waits) : option Waits :=
  match ws_waiters st !! k with
  | Some (id, Registered n) => Some (put_waiter k id (Enabled n false) st)
  | Some (id, Enabled n woken) =>
      Some (if bool_decide (id ∈ ws_closed st) then return_waiter k id st
            else put_waiter k id (Sleeping n woken) st)
  | Some (id, Sleeping n true) => Some (put_waiter k id (Registered n) st)
  | _ => None
  end.

Inductive wait_step : Waits -> Waits -> Prop :=
| StepRegister k id n r st :
    ws_waiters st !! k = None -> registry_register id (ws_registry st) = (n, r) ->
    wait_step st (put_waiter k id (Registered n) (set_registry r st))
| StepTurn k st st' : waiter_turn k st = Some st' -> wait_step st st'
| StepCancel k id n woken st :
    ws_waiters st !! k = Some (id, Sleeping n woken) ->
    wait_step st (return_waiter k id (close_approval id (ws_due st) st))
| StepClose id st : wait_step st (close_approval id (id :: ws_due st) st)
| StepNotify id l1 l2 st :
    ws_due st = l1 ++ id :: l2 -> wait_step st (registry_notify id (l1 ++ l2) st).

(** ** One waiter per approval *)

Definition active (w : Waiter) : bool := match w with Returned => false | _ => true end.

Definition waits_on (w : Waiter) : option nat :=
  match w with
  | Registered n | Enabled n _ | Sleeping n _ => Some n
  | Returned => None
  end.

(** No two waiters of one approval. *)
Definition sole (st : Waits) : Prop :=
  forall k k' id w w', ws_waiters st !! k = Some (id, w) -> ws_waiters st !! k' = Some (id, w') ->
    active w = true -> active w' = true -> k = k'.

Definition sole_step (st st' : Waits) : Prop := wait_step st st' /\ sole st'.

(** An active waiter's notification is the registered one, and a waiter sleeps
    past the end of its approval only until a due notification. *)
Definition waiter_ok (st : Waits) (id : string) (w : Waiter) : Prop :=
  (forall n, waits_on w = Some n -> wr_waiters (ws_registry st) !! id = Some n) /\
  (forall n, w = Sleeping n false -> id ∈ ws_closed st -> id ∈ ws_due st).

Definition waits_ok (st : Waits) : Prop :=
  forall k id w, ws_waiters st !! k = Some (id, w) -> waiter_ok st id w.

Lemma waits_on_wake n w : waits_on (wake n w) = waits_on w.
Proof. by destruct w. Qed.

Lemma active_wake n w : active (wake n w) = active w.
Proof. by destruct w. Qed.

Lemma active_waits_on w : active w = true <-> is_Some (waits_on w).
Proof. destruct w; cbn; split; intros Hw; try done; by destruct Hw. Qed.

(** What waits on the approval of [k] is [k]. *)
Lemma sole_other st k id w k' w' : sole st ->
  ws_waiters st !! k = Some (id, w) -> active w = true ->
  ws_waiters st !! k' = Some (id, w') -> k' <> k -> w' = Returned.
Proof.
  intros Hs Hk Ha Hk' Hne. destruct (active w') eqn:E; [|by destruct w'].
  by destruct Hne; apply (Hs _ _ _ _ _ Hk' Hk).
Qed.

Lemma return_waiter_ok st k id w :
  sole st -> waits_ok st -> ws_waiters st !! k = Some (id, w) -> active w = true ->
  waits_ok (return_waiter k id st).
Proof.
  intros Hs Hok Hk Ha k' id' w' Hw'. cbn in Hw'.
  apply lookup_insert_Some in Hw' as [[<- [= <- <-]]|[Hne Hw']]; [by split|].
  pose proof (Hok _ _ _ Hw') as [H1 H2]. split; [|exact H2].
  intros n Hn. cbn. rewrite lookup_delete_ne; [by apply H1|]. intros ->.
  by rewrite (sole_other _ _ _ _ _ _ Hs Hk Ha Hw') in Hn.
Qed.

Lemma close_approval_ok st id due :
  (forall k w n, ws_waiters st !! k = Some (id, w) -> w = Sleeping n false -> id ∈ due) ->
  (forall x, x ∈ ws_due st -> x ∈ due) -> waits_ok st -> waits_ok (close_approval id due st).
Proof.
  intros Hid Hdue Hok k id' w Hw. pose proof (Hok _ _ _ Hw) as [H1 H2]. split; [exact H1|].
  intros n -> [->%elem_of_singleton|Hc]%elem_of_union; [by eapply Hid|]. eauto.
Qed.

Lemma turn_inv st k st' : waiter_turn k st = Some st' ->
  exists id w, ws_waiters st !! k = Some (id, w) /\ active w = true /\
    (st' = return_waiter k id st /\ id ∈ ws_closed st \/
     exists w', st' = put_waiter k id w' st /\ waits_on w' = waits_on w /\
       (forall n, w' = Sleeping n false -> id ∉ ws_closed st)).
Proof.
  unfold waiter_turn. intros Ht.
  destruct (ws_waiters st !! k) as [[id [n|n b|n []|]]|]; try done; exists id; eexists;
    (split; [done|]); (split; [done|]); injection Ht as <-.
  - right. eexists. split; [done|]. by split.
  - case_bool_decide; [by left | right]. eexists. split; [done|]. by split.
  - right. eexists. split; [done|]. by split.
Qed.

Lemma wait_step_ok st st' : sole st -> waits_ok st -> wait_step st st' -> sole st' -> waits_ok st'.
Proof.
  intros Hs Hok Hstep Hs'. destruct Hstep as [k id n r st Hk Hr|k st st' Ht|k id n b st Hk
                                               |id st|id l1 l2 st Hd].
  - intros k' id' w' Hw'. cbn in Hw'.
    assert (forall m i, wr_waiters (ws_registry st) !! i = Some m -> wr_waiters r !! i = Some m)
      as Hkeep.
    { intros m i Hi. unfold registry_register in Hr.
      destruct (wr_waiters (ws_registry st) !! id) as [n0|] eqn:E; [by injection Hr as <- <-|].
      injection Hr as <- <-. cbn. rewrite lookup_insert_ne; [done | congruence]. }
    apply lookup_insert_Some in Hw' as [[<- [= <- <-]]|[Hne Hw']].
    + split; [|done]. intros m [= <-]. cbn. unfold registry_register in Hr.
      destruct (wr_waiters (ws_registry st) !! id) as [n0|] eqn:E; injection Hr as <- <-; [done|].
      cbn. apply lookup_insert_eq.
    + pose proof (Hok _ _ _ Hw') as [H1 H2]. split; [|exact H2]. intros m Hm. by apply Hkeep, H1.
  - apply turn_inv in Ht as (id & w & Hk & Ha & [[-> _]|(w' & -> & Hw & Hsl)]).
    + by eapply return_waiter_ok.
    + pose proof (Hok _ _ _ Hk) as [H1 _]. intros k' id' w2 Hw2. cbn in Hw2.
      apply lookup_insert_Some in Hw2 as [[<- [= <- <-]]|[_ Hw2]]; [|by apply (Hok _ _ _ Hw2)].
      split; [intros n0; rewrite Hw; apply H1|]. intros n0 Hn0 Hc. by destruct (Hsl _ Hn0).
  - intros k' id' w' Hw'. cbn in Hw'.
    apply lookup_insert_Some in Hw' as [[<- [= <- <-]]|[Hne Hw']]; [by split|].
    pose proof (Hok _ _ _ Hw') as [H1 H2].
    assert (active w' = true -> id' <> id) as Hid.
    { intros Ha ->. by rewrite (sole_other _ _ _ _ _ _ Hs Hk eq_refl Hw') in Ha. }
    split; cbn.
    + intros m Hm. rewrite lookup_delete_ne; [by apply H1|].
      apply not_eq_sym, Hid, active_waits_on. by eexists.
    + intros m Hm [->%elem_of_singleton|Hc]%elem_of_union; [|by apply (H2 m)].
      by destruct Hid; [subst w'|].
  - apply close_approval_ok; [intros; left | by right | done].
  - intros k id' w Hw. cbn in Hw.
    assert (exists w0, ws_waiters st !! k = Some (id', w0) /\ waits_on w = waits_on w0 /\
              (forall n, w = Sleeping n false -> w0 = Sleeping n false /\
                 (wr_waiters (ws_registry st) !! id = Some n -> False))) as (w0 & Hw0 & Hon & Hsl).
    { destruct (wr_waiters (ws_registry st) !! id) as [m|] eqn:E.
      - rewrite lookup_fmap in Hw. apply fmap_Some in Hw as ([i w0] & Hw0 & [= -> ->]).
        exists w0. split; [done|]. split; [apply waits_on_wake|]. intros n Hn.
        destruct w0 as [| |m0 b|]; cbn in Hn; try done. injection Hn as -> Hb.
        apply orb_false_iff in Hb as [-> Hb]. apply Nat.eqb_neq in Hb. split; [done|].
        congruence.
      - exists w. split; [done|]. split; [done|]. intros n Hn. split; [done|]. congruence. }
    pose proof (Hok _ _ _ Hw0) as [H1 H2]. split; [intros n; rewrite Hon; apply H1|].
    intros n Hn Hc. destruct (Hsl n Hn) as [-> Hno]. pose proof (H2 n eq_refl Hc) as Hdue.
    rewrite Hd in Hdue. cbn in *. rewrite elem_of_app, elem_of_cons in Hdue.
    rewrite elem_of_app. destruct Hdue as [?|[->|?]]; auto. by destruct Hno; apply H1.
Qed.

Lemma waits_reachable_ok st : rtc sole_step waits_new st -> waits_ok st /\ sole st.
Proof.
  intros Hr. apply (rtc_ind_r (R := sole_step) (fun st => waits_ok st /\ sole st) waits_new); [..|exact Hr].
  - split; [intros k id w Hw | intros k k' id w w' Hw]; cbn in Hw; by apply lookup_empty_Some in Hw.
  - intros y z _ [Hst Hs'] [Hok Hs]. split; [by eapply wait_step_ok | done].
Qed.

(** The steps a waiter has left before it returns, once its approval is closed
    and nothing is due: to run its turns. *)
Fixpoint run_turns (fuel k : nat) (st : Waits) : Waits :=
  match fuel with
  | 0 => st
  | S fuel => match waiter_turn k st with Some st' => run_turns fuel k st' | None => st end
  end.

Lemma run_turns_registered fuel k id n st :
  ws_waiters st !! k = Some (id, Registered n) -> id ∈ ws_closed st -> 2 <= fuel ->
  ws_waiters (run_turns fuel k st) !! k = Some (id, Returned).
Proof.
  intros Hk Hc Hf. destruct fuel as [|[|fuel]]; [lia..|]. cbn [run_turns].
  unfold waiter_turn at 1. rewrite Hk. unfold waiter_turn at 1. cbn.
  rewrite lookup_insert_eq, bool_decide_true by done.
  assert (forall f st, ws_waiters st !! k = Some (id, Returned) -> run_turns f k st = st) as Hdone.
  { intros [|f] st0 H0; [done|]. cbn. unfold waiter_turn. by rewrite H0. }
  rewrite Hdone; cbn; by rewrite lookup_insert_eq.
Qed.


(** ** Two waiters *)

(** A waiter nobody can wake: its notification is in no registry entry. *)
Definition stranded (k : nat) (id : string) (n : nat) (st : Waits) : Prop :=
  ws_waiters st !! k = Some (id, Sleeping n false) /\ n < wr_fresh (ws_registry st) /\
  forall i, wr_waiters (ws_registry st) !! i <> Some n.

Lemma stranded_step k id n st st' :
  stranded k id n st -> wait_step st st' ->
  stranded k id n st' \/ ws_waiters st' !! k = Some (id, Returned).
Proof.
  intros (Hk & Hf & Hno) Hstep.
  assert (forall i w r, wr_fresh r = wr_fresh (ws_registry st) ->
            (forall j, wr_waiters r !! j = None \/ wr_waiters r !! j = wr_waiters (ws_registry st) !! j) ->
            forall k' due closed, k' <> k ->
            stranded k id n {| ws_registry := r; ws_closed := closed;
                               ws_waiters := <[k' := (i, w)]> (ws_waiters st); ws_due := due |}) as Hput.
  { intros i w r Hr Hj k' due closed Hne. unfold stranded. cbn. rewrite lookup_insert_ne by done.
    rewrite Hr. split; [done|]. split; [done|]. intros j. destruct (Hj j) as [->| ->]; [done|apply Hno]. }
  assert (forall i j, wr_waiters (registry_remove i (ws_registry st)) !! j = None \/
            wr_waiters (registry_remove i (ws_registry st)) !! j
              = wr_waiters (ws_registry st) !! j) as Hrem.
  { intros i j. cbn. destruct (decide (i = j)) as [->|Hj]; [left; apply lookup_delete_eq|right].
    by apply lookup_delete_ne. }
  destruct Hstep as [k' id' m r st Hk' Hr|k' st st' Ht|k' id' m b st Hk'|id' st|id' l1 l2 st Hd].
  - left. unfold stranded. cbn. rewrite lookup_insert_ne by congruence.
    unfold registry_register in Hr. destruct (wr_waiters (ws_registry st) !! id') as [n0|];
      injection Hr as <- <-; [done|]. cbn. split; [done|]. split; [lia|].
    intros i. destruct (decide (i = id')) as [->|Hne]; [rewrite lookup_insert_eq; intros [= <-]; lia|].
    rewrite lookup_insert_ne by done. apply Hno.
  - left. assert (k' <> k) as Hne by (intros ->; unfold waiter_turn in Ht; by rewrite Hk in Ht).
    apply turn_inv in Ht as (i & w & _ & _ & [[-> _]|(w' & -> & _)]); (apply Hput; [done| |done]); [apply Hrem|by right].
  - destruct (decide (k' = k)) as [->|Hne].
    + right. rewrite Hk in Hk'. injection Hk' as <- _ _. cbn. apply lookup_insert_eq.
    + left. apply Hput; [done|apply Hrem|done].
  - by left.
  - left. unfold stranded. cbn. destruct (wr_waiters (ws_registry st) !! id') as [m|] eqn:E; [|done].
    rewrite lookup_fmap, Hk. cbn. rewrite (proj2 (Nat.eqb_neq n m)); [done|].
    intros ->. by apply (Hno id').
Qed.

(** Notifications are given to one approval each. *)
Definition registry_ok (st : Waits) : Prop :=
  (forall i n, wr_waiters (ws_registry st) !! i = Some n -> n < wr_fresh (ws_registry st)) /\
  (forall i j n, wr_waiters (ws_registry st) !! i = Some n ->
     wr_waiters (ws_registry st) !! j = Some n -> i = j) /\
  (forall k id w n, ws_waiters st !! k = Some (id, w) -> waits_on w = Some n ->
     n < wr_fresh (ws_registry st) /\
     forall i, wr_waiters (ws_registry st) !! i = Some n -> i = id).

(** Waiters that change without changing what they wait on, in a registry that
    has lost entries. *)
Lemma registry_ok_shrinks st st' :
  registry_ok st -> wr_fresh (ws_registry st') = wr_fresh (ws_registry st) ->
  wr_waiters (ws_registry st') ⊆ wr_waiters (ws_registry st) ->
  (forall k id w n, ws_waiters st' !! k = Some (id, w) -> waits_on w = Some n ->
     exists w0, ws_waiters st !! k = Some (id, w0) /\ waits_on w0 = Some n) ->
  registry_ok st'.
Proof.
  intros (H1 & H2 & H3) Hf Hsub Hw. rewrite map_subseteq_spec in Hsub. split; [|split].
  - intros i n Hi. rewrite Hf. by eapply H1, Hsub.
  - intros i j n Hi Hj. by apply (H2 i j n); apply Hsub.
  - intros k id w n Hk Hn. destruct (Hw _ _ _ _ Hk Hn) as (w0 & Hk0 & Hn0).
    destruct (H3 _ _ _ _ Hk0 Hn0) as [Hlt Hid]. rewrite Hf. split; [done|].
    intros i Hi. by apply Hid, Hsub.
Qed.

Lemma put_waiter_on k id w st k' id' w' n :
  (forall m, waits_on w = Some m -> exists w0, ws_waiters st !! k = Some (id, w0) /\ waits_on w0 = Some m) ->
  <[k := (id, w)]> (ws_waiters st) !! k' = Some (id', w') -> waits_on w' = Some n ->
  exists w0, ws_waiters st !! k' = Some (id', w0) /\ waits_on w0 = Some n.
Proof.
  intros Hw [[<- [= <- <-]]|[_ Hk]]%lookup_insert_Some Hn; [by apply Hw|]. eauto.
Qed.

Lemma wait_step_registry st st' : registry_ok st -> wait_step st st' -> registry_ok st'.
Proof.
  intros Hok Hstep. destruct Hstep as [k id n r st Hk Hr|k st st' Ht|k id n b st Hk
                                      |id st|id l1 l2 st Hd].
  - destruct Hok as (H1 & H2 & H3). unfold registry_register in Hr.
    destruct (wr_waiters (ws_registry st) !! id) as [n0|] eqn:E; injection Hr as <- <-.
    + split; [exact H1|]. split; [exact H2|]. intros k' id' w' m Hw Hm. cbn in Hw.
      apply lookup_insert_Some in Hw as [[<- [= <- <-]]|[_ Hw]]; [|by eapply H3].
      injection Hm as <-. split; [by eapply H1|]. intros i Hi. by apply (H2 i id n0).
    + unfold registry_ok. cbn. split; [|split].
      * intros i m [[_ <-]|[_ Hi]]%lookup_insert_Some; [lia|]. apply H1 in Hi. lia.
      * intros i j m [[<- <-]|[_ Hi]]%lookup_insert_Some [[<- Hj]|[_ Hj]]%lookup_insert_Some; try done.
        -- apply H1 in Hj. lia.
        -- subst m. apply H1 in Hi. lia.
        -- by eapply H2.
      * intros k' id' w' m [[<- [= <- <-]]|[_ Hw]]%lookup_insert_Some Hm.
        -- injection Hm as <-. split; [lia|].
           intros i [[<- _]|[_ Hi]]%lookup_insert_Some; [done|]. apply H1 in Hi. lia.
        -- destruct (H3 _ _ _ _ Hw Hm) as [Hlt Hid]. split; [lia|].
           intros i [[_ <-]|[_ Hi]]%lookup_insert_Some; [lia|]. by apply Hid.
  - apply turn_inv in Ht as (id & w & Hk & _ & [[-> _]|(w' & -> & Hw & _)]).
    + apply (registry_ok_shrinks st); [done..|cbn; apply delete_subseteq|].
      intros k' id' w' n. cbn. by apply put_waiter_on.
    + apply (registry_ok_shrinks st); [done..|]. intros k' id' w2 n. cbn. apply put_waiter_on.
      intros m Hm. exists w. by rewrite <- Hw.
  - apply (registry_ok_shrinks st); [done..|cbn; apply delete_subseteq|].
    intros k' id' w' m. cbn. by apply put_waiter_on.
  - apply (registry_ok_shrinks st); [done..|]. intros k' id' w' m. cbn. eauto.
  - apply (registry_ok_shrinks st); [done..|]. intros k' id' w' m. cbn.
    destruct (wr_waiters (ws_registry st) !! id) as [m0|]; [|eauto].
    rewrite lookup_fmap. intros ([i w0] & Hw0 & [= -> ->])%fmap_Some Hm.
    exists w0. by rewrite waits_on_wake in Hm.
Qed.

Lemma waits_registry_ok st : rtc wait_step waits_new st -> registry_ok st.
Proof.
  intros Hr. apply (rtc_ind_r (R := wait_step) registry_ok waits_new); [| |exact Hr].
  - split; [|split]; cbn; intros *; by rewrite ?lookup_empty.
  - intros y z _ Hst Hok. by eapply wait_step_registry.
Qed.

(** A cancelled waiter takes the others with it.  When two waiters sleep on one
    approval and one of them is cancelled, the approval is closed and the shared
    registration is removed without a notification: the other sleeps on, and in
    every later state it still sleeps unwoken, whatever is decided or notified,
    unless it is cancelled itself. *)
Theorem cancelled_waiter_strands_other st (k1 k2 : nat) (id : string) n b :
  rtc wait_step waits_new st -> k1 <> k2 ->
  ws_waiters st !! k1 = Some (id, Sleeping n b) ->
  ws_waiters st !! k2 = Some (id, Sleeping n false) ->
  let st1 := return_waiter k1 id (close_approval id (ws_due st) st) in
  wait_step st st1 /\ id ∈ ws_closed st1 /\
  forall st2, rtc wait_step st1 st2 ->
    ws_waiters st2 !! k2 = Some (id, Sleeping n false) \/
    ws_waiters st2 !! k2 = Some (id, Returned).
Proof.
  intros Hr Hne H1 H2 st1. destruct (waits_registry_ok _ Hr) as (_ & _ & H3).
  destruct (H3 _ _ _ _ H2 eq_refl) as [Hlt Hid].
  assert (stranded k2 id n st1) as Hst.
  { unfold stranded. cbn. rewrite lookup_insert_ne by done. split; [done|]. split; [done|].
    intros i. destruct (decide (id = i)) as [<-|Hi]; [by rewrite lookup_delete_eq|].
    rewrite lookup_delete_ne by done. intros Hx. by apply Hi, eq_sym, Hid. }
  split; [by eapply StepCancel|]. split; [cbn; set_solver|]. intros st2 Hr2.
  assert (stranded k2 id n st2 \/ ws_waiters st2 !! k2 = Some (id, Returned)) as [[? _]|?]; [|auto..].
  apply (rtc_ind_r (R := wait_step)
    (fun st => stranded k2 id n st \/ ws_waiters st !! k2 = Some (id, Returned)) st1);
    [by left| |exact Hr2].
  intros y z _ Hyz [Hy|Hy]; [by eapply stranded_step|right].
  destruct Hyz as [k i m r y Hk _|k y z Ht|k i m b' y Hk|i y|i l1 l2 y _]; cbn.
  - by rewrite lookup_insert_ne by congruence.
  - assert (k <> k2) as Hk by (intros ->; unfold waiter_turn in Ht; by rewrite Hy in Ht).
    apply turn_inv in Ht as (i & w & _ & _ & [[-> _]|(w' & -> & _)]); cbn; by rewrite lookup_insert_ne.
  - by rewrite lookup_insert_ne by congruence.
  - done.
  - destruct (wr_waiters (ws_registry y) !! i); [|done]. by rewrite lookup_fmap, Hy.
Qed.

(** ** A run *)

Definition asleep_of (k n : nat) (st : Waits) : Waits :=
  put_waiter k "tool-approval:1" (Sleeping n false)
    (put_waiter k "tool-approval:1" (Enabled n false)
       (put_waiter k "tool-approval:1" (Registered n)
          (set_registry (registry_register "tool-approval:1" (ws_registry st)).2 st))).

Definition one_asleep : Waits := asleep_of 0 0 waits_new.
Definition one_closed : Waits := close_approval "tool-approval:1" ["tool-approval:1"%string] one_asleep.
Definition two_asleep : Waits := asleep_of 1 0 one_asleep.

Lemma sole_single st : (forall k, k <> 0 -> ws_waiters st !! k = None) -> sole st.
Proof.
  intros Hn k k' id w w' Hk Hk' _ _. destruct (decide (k = 0)) as [->|]; [|by rewrite Hn in Hk].
  destruct (decide (k' = 0)) as [->|]; [done|by rewrite Hn in Hk'].
Qed.

Lemma asleep_reachable (P : Waits -> Prop) k n st :
  ws_waiters st !! k = None ->
  (registry_register "tool-approval:1" (ws_registry st)).1 = n ->
  "tool-approval:1"%string ∉ ws_closed st ->
  (forall w, P (put_waiter k "tool-approval:1" w
                  (set_registry (registry_register "tool-approval:1" (ws_registry st)).2 st))) ->
  (forall w w', P (put_waiter k "tool-approval:1" w' (put_waiter k "tool-approval:1" w
                  (set_registry (registry_register "tool-approval:1" (ws_registry st)).2 st)))) ->
  P (asleep_of k n st) ->
  rtc (fun a b => wait_step a b /\ P b) st (asleep_of k n st).
Proof.
  intros Hk Hn Hc H1 H2 H3.
  eapply rtc_l; [split; [eapply StepRegister; [exact Hk|by apply surjective_pairing]|rewrite Hn; apply H1]|].
  rewrite Hn. eapply rtc_l.
  { split; [|apply (H2 (Registered n) (Enabled n false))]. apply (StepTurn k). unfold waiter_turn. cbn.
    by rewrite lookup_insert_eq. }
  eapply rtc_l; [|apply rtc_refl].
  split; [|exact H3]. apply (StepTurn k). unfold waiter_turn. cbn. rewrite lookup_insert_eq.
  rewrite bool_decide_false by done. done.
Qed.

Lemma one_closed_reachable : rtc sole_step waits_new one_closed.
Proof.
  assert (forall k (m : gmap nat (string * Waiter)) x y z, k <> 0 -> m !! k = None ->
    <[0:=x]> (<[0:=y]> (<[0:=z]> m)) !! k = None) as Hins.
  { intros k m x y z Hk Hm. by rewrite !lookup_insert_ne by done. }
  transitivity one_asleep.
  - apply (asleep_reachable sole); [done|done|set_solver|..]; intros; apply sole_single; intros k Hk;
      cbn; rewrite ?lookup_insert_ne by done; apply lookup_empty.
  - apply rtc_once. split; [by apply (StepClose _ one_asleep)|].
    apply sole_single. intros k Hk. cbn. apply Hins; [done|apply lookup_empty].
Qed.


Lemma two_asleep_reachable : rtc wait_step waits_new two_asleep.
Proof.
  assert (forall k n st, rtc (fun a b => wait_step a b /\ True) st (asleep_of k n st) ->
            rtc wait_step st (asleep_of k n st)) as Hdrop.
  { intros k n st Hr. eapply rtc_subrel; [|exact Hr]. by intros x y [? _]. }
  transitivity one_asleep; apply Hdrop; apply (asleep_reachable (fun _ => True)); try done.
Qed.

Lemma cancelled_waiter_strands_other_witness :
  let st1 := return_waiter 0 "tool-approval:1"
               (close_approval "tool-approval:1" (ws_due two_asleep) two_asleep) in
  wait_step two_asleep st1 /\ "tool-approval:1"%string ∈ ws_closed st1 /\
  forall st2, rtc wait_step st1 st2 ->
    ws_waiters st2 !! 1 = Some ("tool-approval:1"%string, Sleeping 0 false) \/
    ws_waiters st2 !! 1 = Some ("tool-approval:1"%string, Returned).
Proof.
  apply (cancelled_waiter_strands_other two_asleep 0 1 "tool-approval:1" 0 false);
    [exact two_asleep_reachable|lia|reflexivity|reflexivity].
Defined.
