(* ===== verification/Coordinator.v ===== *)
(** * The approval coordinator

    [runtime/src/approval/coordinator.rs]: how a tool call that needs approval is
    answered, by a grant there is, by the router's policy, or by waiting for a
    decision, and the registry of waiters that decisions wake.

    The coordinator shares the queue with other tasks.  What they do between two
    of its operations is [env], a function of the queue and the store for every
    such place, and the branches [tokio::select!] takes are a list of [Wake]s. *)

From S2P Require Import Prelude Facts Contract Validation Delta Ports EventStore Backend.
From S2P Require Import Approval ApprovalJournal ApprovalQueue.

Record ApprovalConfig := {
  cf_profile : ApprovalProfile;
  cf_low_risk_timeout : LowRiskTimeoutAction
}.

Definition ApprovalConfig_default : ApprovalConfig :=
  {| cf_profile := ApBalanced; cf_low_risk_timeout := LrAutoApproveOnce |}.

Inductive ApprovalResolution :=
| Approved (approval_id : string) (grant : ApprovalGrant)
| Denied (approval_id reason : string)
| Cancelled (approval_id reason : string)
| ControlRequested (approval_id reason : string).

Definition resolution_approval_id (r : ApprovalResolution) : string :=
  match r with
  | Approved id _ | Denied id _ | Cancelled id _ | ControlRequested id _ => id
  end.

(** ** The summary of a request *)

(** [str::chars] of valid UTF-8: every byte but a continuation byte starts a
    character. *)
Definition starts_char (a : Ascii.ascii) : bool := negb ((128 <=? Ascii.N_of_ascii a) && (Ascii.N_of_ascii a <? 192))%N.

Fixpoint chars_count (s : string) : nat :=
  match s with
  | EmptyString => 0
  | String a s => (if starts_char a then 1 else 0) + chars_count s
  end.

Fixpoint take_chars (n : nat) (s : string) : string :=
  match s with
  | EmptyString => EmptyString
  | String a s =>
      if starts_char a
      then match n with 0 => EmptyString | S n => String a (take_chars n s) end
      else String a (take_chars n s)
  end.

Definition MAX_CHARS : nat := 240.

Definition summarize_tool_action (tool_id input : string) : string :=
  let preview := take_chars MAX_CHARS input in
  let suffix := if MAX_CHARS <? chars_count input then "…" else EmptyString in
  match (qualified ← strip_prefix tool_id "mcp__"; split_once qualified "__") with
  | Some (server, tool) =>
      "MCP server `" +:+ server +:+ "` tool `" +:+ tool +:+ "`: " +:+ preview +:+ suffix
  | None => tool_id +:+ ": " +:+ preview +:+ suffix
  end.

(** ** What [resolve_tool] asks for *)

Definition approval_profile_id (p : ApprovalProfile) : string :=
  match p with
  | ApSupervised => "supervised" | ApBalanced => "balanced"
  | ApAutonomous => "autonomous" | ApTrustAll => "trust-all"
  end.

(** The context as completed by [resolve_tool], without the explicit ask. *)
Definition tool_context (profile : ApprovalProfile) (d : ToolEffectDescriptor) (c : ApprovalContext) :
  ApprovalContext :=
  {| cx_principal_id := cx_principal_id c; cx_profile_id := approval_profile_id profile;
     cx_approval_profile := Some profile; cx_workspace_key := cx_workspace_key c;
     cx_session_id := cx_session_id c; cx_turn_id := cx_turn_id c; cx_task_id := cx_task_id c;
     cx_capability := cx_capability c; cx_invocation_id := cx_invocation_id c;
     cx_execution_id := cx_execution_id c; cx_strategy_decision_ref := cx_strategy_decision_ref c;
     cx_source_surface := cx_source_surface c;
     cx_resource_targets := if bool_decide (cx_resource_targets c = [])
                            then omap ps_target (td_scopes d) else cx_resource_targets c;
     cx_effect := Some d; cx_explicit_ask := cx_explicit_ask c;
     cx_policy_revision := cx_policy_revision c;
     cx_requested_sandbox_posture := cx_requested_sandbox_posture c;
     cx_effective_sandbox_posture := cx_effective_sandbox_posture c |}.

Definition with_explicit_ask (ask : bool) (c : ApprovalContext) : ApprovalContext :=
  {| cx_principal_id := cx_principal_id c; cx_profile_id := cx_profile_id c;
     cx_approval_profile := cx_approval_profile c; cx_workspace_key := cx_workspace_key c;
     cx_session_id := cx_session_id c; cx_turn_id := cx_turn_id c; cx_task_id := cx_task_id c;
     cx_capability := cx_capability c; cx_invocation_id := cx_invocation_id c;
     cx_execution_id := cx_execution_id c; cx_strategy_decision_ref := cx_strategy_decision_ref c;
     cx_source_surface := cx_source_surface c; cx_resource_targets := cx_resource_targets c;
     cx_effect := cx_effect c; cx_explicit_ask := ask; cx_policy_revision := cx_policy_revision c;
     cx_requested_sandbox_posture := cx_requested_sandbox_posture c;
     cx_effective_sandbox_posture := cx_effective_sandbox_posture c |}.

Definition asks_explicitly (c : ApprovalContext) (d : ToolEffectDescriptor) : bool :=
  cx_explicit_ask c || match td_approval_class d with TaUser | TaAdministrator => true | _ => false end.

Definition tool_timeout_policy (config : ApprovalConfig) (risk : TaskRisk) (explicit_ask : bool) :
  ApprovalTimeoutPolicy :=
  if bool_decide (risk = RiskLow) && negb explicit_ask
     && bool_decide (cf_low_risk_timeout config = LrAutoApproveOnce)
  then ToAutoApproveOnce else ToPending.

Definition tool_approval_id (uuid : string) (c : ApprovalContext) : string :=
  "tool-approval:" +:+ default uuid (cx_invocation_id c).

Definition tool_submission (source : ApprovalSource) (c : ApprovalContext)
    (d : ToolEffectDescriptor) (input : string) (timeout_policy : ApprovalTimeoutPolicy) :
  SubmitApprovalRequest :=
  {| sa_source := source; sa_context := c; sa_action := td_tool_id d;
     sa_summary := summarize_tool_action (td_tool_id d) input; sa_risk := task_risk_for_effect d;
     sa_domain := AdExecution; sa_blocks_execution := true;
     sa_evidence_refs := [("tool-descriptor:" +:+ td_descriptor_hash d)%string;
                          ("tool-invocation:" +:+ default "n/a" (cx_invocation_id c))%string];
     sa_timeout_policy := timeout_policy |}.

(** [{:?}] of a profile. *)
Definition autonomy_debug (p : AutonomyProfileId) : string :=
  match p with
  | AuCautious => "Cautious" | AuSupervised => "Supervised" | AuStewarded => "Stewarded"
  | AuAutonomous => "Autonomous" | AuYolo => "Yolo"
  end.

Definition router_command (id : string) (p : AutonomyProfileId) : ApprovalDecisionCommand :=
  {| ad_approval_id := id; ad_approved := true; ad_skip := false;
     ad_reason := "approval router auto-approval; audit only"; ad_scope := GsOnce;
     ad_actor := {| ada_kind := ActorPolicy; ada_actor_id := "approval-router-auto" |};
     ad_evidence_refs := ["approval.router.auto"%string;
                          ("approval.router.profile:" +:+ autonomy_debug p)%string] |}.

Definition steward_command (id : string) : ApprovalDecisionCommand :=
  {| ad_approval_id := id; ad_approved := true; ad_skip := false;
     ad_reason := "approval router Steward approval for a known reversible effect";
     ad_scope := GsOnce;
     ad_actor := {| ada_kind := ActorStewardAgent; ada_actor_id := "runtime-approval-steward" |};
     ad_evidence_refs := ["approval.steward.eligible"%string;
                          "approval.router.decision:StewardApprove"%string] |}.

(** ** Waiting *)

(** The branches of the [select!]. *)
Inductive Wake := WakeCancellation | WakeDecision | WakeControl | WakeTimeout.

Section Coordinator.
Context {Value S : Type} `{Json Value} `{ApprovalJson Value}
  `{EventBackend Value S} `{ScopeReads Value S}.

Abbreviation World := (ApprovalQueue * S)%type.
Abbreviation Answer := (Result string ApprovalResolution).

(** [queue.cancel], [queue.timeout], [queue.decide_internal] on a world. *)
Definition on_world {A} (r : Result string A * ApprovalQueue * S) : Result string A * World :=
  (r.1.1, (r.1.2, r.2)).

(** The answer of one look at a request, if its status is final. *)
Definition closed_answer (id : string) (r : ApprovalRequest) (s : S) : option Answer :=
  let reason := match aq_decision r with
                | Some d => dn_reason d
                | None => approval_status_as_str (aq_status r)
                end in
  match aq_status r with
  | StPending => None
  | StApproved =>
      Some (grant ← ok_or "approved request did not create a grant"%string (grant_for_approval s id);
            Ok (Approved id grant))
  | StDenied | StTimedOut | StSkipped => Some (Ok (Denied id reason))
  | StCancelled | StSuperseded => Some (Ok (Cancelled id reason))
  end.

(** The branch of the [select!] that was taken: the end of the wait, or
    ([None]) another turn of the loop. *)
Definition take_wake (clk : nat -> N) (id : string) (wake : Wake) (w : World) :
  option Answer * World :=
  match wake with
  | WakeCancellation =>
      let '(r, w) := on_world (queue_cancel clk id
                       "the active Turn was cancelled while waiting for approval" false w.1 w.2) in
      (Some (receipt ← r; Ok (Cancelled (rd_approval_id receipt) (rd_message receipt))), w)
  | WakeControl =>
      let '(r, w) := on_world (queue_cancel clk id
                       "a newer Session input superseded the pending approval wait" true w.1 w.2) in
      (Some (receipt ← r; Ok (ControlRequested (rd_approval_id receipt) (rd_message receipt))), w)
  | WakeDecision => (None, w)
  | WakeTimeout =>
      let '(r, w) := on_world (timeout clk id w.1 w.2) in
      (match r with Ok _ => None | Err e => Some (Err e) end, w)
  end.

(** The timer runs only for requests that approve themselves. *)
Definition wake_enabled (r : ApprovalRequest) (wake : Wake) : bool :=
  match wake with
  | WakeTimeout => bool_decide (aq_timeout_policy r = ToAutoApproveOnce)
  | _ => true
  end.

(** [wait_for_resolution] along the branches [wakes]: in turn [i] the request is
    read, [env (2 * i)] runs before the grant of an approved one is looked up,
    and [env (2 * i + 1)] while the turn waits.  [None]: it still waits. *)
Fixpoint wait_for_resolution (clk : nat -> nat -> N) (env : nat -> World -> World) (id : string)
    (i : nat) (wakes : list Wake) (w : World) : option Answer * World :=
  match queue_get w.1 w.2 id with
  | None => (Some (Err ("approval request not found: " +:+ id)%string), w)
  | Some r =>
      if negb (bool_decide (aq_status r = StPending))
      then let w := env (2 * i) w in (closed_answer id r w.2, w)
      else
        match wakes with
        | [] => (None, w)
        | wake :: wakes =>
            let w := env (2 * i + 1) w in
            if negb (wake_enabled r wake) then (None, w)
            else match take_wake (clk i) id wake w with
                 | (Some answer, w) => (Some answer, w)
                 | (None, w) => wait_for_resolution clk env id (Datatypes.S i) wakes w
                 end
        end
  end.

(** ** [resolve_tool] *)

(** A decision of the coordinator's own, and the grant it left; [env] runs
    between the two. *)
Definition decide_for (clk : nat -> N) (env : World -> World) (c : ApprovalDecisionCommand)
    (missing : string) (w : World) : Answer * World :=
  let '(r, w) := on_world (decide_internal clk c w.1 w.2) in
  match r with
  | Err e => (Err e, w)
  | Ok receipt =>
      let w := env w in
      (grant ← ok_or missing (grant_for_approval w.2 (ad_approval_id c));
       Ok (Approved (rd_approval_id receipt) grant), w)
  end.

(** The clocks of the operations, and what others do before each of them. *)
Record Schedule := {
  sc_match : nat -> N;
  sc_deadline : N;
  sc_submit : nat -> N;
  sc_decide : nat -> N;
  sc_wait : nat -> nat -> N;
  sc_before_submit : World -> World;
  sc_before_decide : World -> World;
  sc_before_grant : World -> World;
  sc_waiting : nat -> World -> World
}.

Definition resolve_tool (config : ApprovalConfig) (uuid : string) (sch : Schedule)
    (wakes : list Wake) (source : ApprovalSource) (c : ApprovalContext)
    (autonomy_profile : option AutonomyProfileId) (d : ToolEffectDescriptor) (input : string)
    (timeout_ms : N) (w : World) : option Answer * World :=
  let profile := default (cf_profile config) (cx_approval_profile c) in
  let c := tool_context profile d c in
  let risk := task_risk_for_effect d in
  let '(matched, q) := matching_grant (sc_match sch) w.1 c risk in
  let w := (q, w.2) in
  match matched with
  | Some grant => (Some (Ok (Approved (gt_approval_id grant) grant)), w)
  | None =>
      let explicit_ask := asks_explicitly c d in
      let c := with_explicit_ask explicit_ask c in
      let w := sc_before_submit sch w in
      let deadline := u64_saturating_add (sc_deadline sch) (N.min timeout_ms u64_max) in
      let '(submitted, w) :=
        on_world (submit_scoped_with_deadline (sc_submit sch) (tool_approval_id uuid c)
                    (tool_submission source c d input (tool_timeout_policy config risk explicit_ask))
                    (Some deadline) w.1 w.2) in
      match submitted with
      | Err e => (Some (Err e), w)
      | Ok request =>
          let id := aq_approval_id request in
          let router_profile := default (profile_for_approval_profile profile) autonomy_profile in
          let routed := router_resolve router_profile AdExecution risk true explicit_ask in
          let w := sc_before_decide sch w in
          if bool_decide (routed = RtAutoApprove)
          then let '(a, w) :=
                 decide_for (sc_decide sch) (sc_before_grant sch) (router_command id router_profile)
                   "approval router auto-approval did not create a grant" w in (Some a, w)
          else if bool_decide (routed = RtStewardApprove) && negb explicit_ask
                  && steward_can_approve profile d risk
          then let '(a, w) :=
                 decide_for (sc_decide sch) (sc_before_grant sch) (steward_command id)
                   "steward approval did not create a grant" w in (Some a, w)
          else wait_for_resolution (sc_wait sch) (sc_waiting sch) id 0 wakes w
      end
  end.
End Coordinator.
