(* ===== verification/CoordinatorSafety.v ===== *)
(** * What an approval answer rests on

    The answers of [resolve_tool] and [wait_for_resolution], against the histories
    of [ApprovalLifecycle] and with other tasks between any two operations: an
    approval is backed by a recorded decision, nothing is approved without
    somebody's decision where a person is asked, and an answered wait leaves no
    pending request. *)

From S2P Require Import Prelude Facts Contract Validation Delta Ports EventStore.
From S2P Require Import Backend Approval ApprovalJournal ApprovalQueue.
From S2P Require Import ApprovalMachine ApprovalLifecycle ApprovalAuthority Coordinator.

(** ** The policy matrix *)

(** The timer is only set on requests that the router approves at once, whatever
    the profile. *)
Lemma timed_requests_are_routed config risk explicit_ask profile :
  tool_timeout_policy config risk explicit_ask = ToAutoApproveOnce ->
  router_resolve profile AdExecution risk true explicit_ask = RtAutoApprove.
Proof.
  unfold tool_timeout_policy. destruct (bool_decide (risk = RiskLow)) eqn:Er; [|done].
  apply bool_decide_eq_true in Er as ->. by destruct explicit_ask, profile.
Qed.

Lemma tool_timeout_cases config risk explicit_ask :
  tool_timeout_policy config risk explicit_ask = ToPending \/
  tool_timeout_policy config risk explicit_ask = ToAutoApproveOnce.
Proof. unfold tool_timeout_policy. destruct (_ && _); auto. Qed.

Section Safety.
Context {Value S : Type} `{Json Value} `{ApprovalJson Value} `{!ApprovalJsonLaws Value}
  `{EventBackend Value S} `{ScopeReads Value S} `{!Journal Value S}.

Abbreviation World := (ApprovalQueue * S)%type.

(** Other tasks continue the history of the store. *)
Definition continues (f : World -> World) : Prop :=
  forall w h, approval_history (w.2 :: h) ->
  exists h', approval_history ((f w).2 :: h') /\ forall x, x ∈ w.2 :: h -> x ∈ (f w).2 :: h'.

Lemma performed_history {A} (p : Planned Value A) s h res q' s' :
  approval_history (s :: h) ->
  (forall r, plan_append p = Some r -> approval_write s r) ->
  perform p s = (res, q', s') ->
  exists h', approval_history (s' :: h') /\ forall x, x ∈ s :: h -> x ∈ s' :: h'.
Proof.
  intros Hh Hw Hd. destruct p as [[[a|r finish]|e] q1]; cbn in Hd.
  - injection Hd as _ _ <-. eauto.
  - assert (exists res1, eb_append r None s = (res1, s')) as [res1 Ea].
    { destruct (eb_append r None s) as [[rcp|e] s1]; [destruct (finish q1)|];
        injection Hd as _ _ <-; by eexists. }
    exists (s :: h). split; [|intros; by right].
    eapply HistoryAppend; [done|left|by apply Hw|exact Ea].
  - injection Hd as _ _ <-. eauto.
Qed.

Lemma decide_internal_history clk c q s h res q' s' :
  approval_history (s :: h) -> decide_internal clk c q s = (res, q', s') ->
  exists h', approval_history (s' :: h') /\ forall x, x ∈ s :: h -> x ∈ s' :: h'.
Proof. intros Hh. apply performed_history; [done|]. intros r. by apply WriteDecideInternal. Qed.

Lemma submit_history clk id sub expires q s h res q' s' :
  approval_history (s :: h) ->
  submit_scoped_with_deadline clk id sub expires q s = (res, q', s') ->
  exists h', approval_history (s' :: h') /\ forall x, x ∈ s :: h -> x ∈ s' :: h'.
Proof. intros Hh. apply performed_history; [done|]. intros r. by apply WriteSubmit. Qed.

Lemma cancel_history clk id reason superseded q s h res q' s' :
  approval_history (s :: h) -> queue_cancel clk id reason superseded q s = (res, q', s') ->
  exists h', approval_history (s' :: h') /\ forall x, x ∈ s :: h -> x ∈ s' :: h'.
Proof. intros Hh. apply performed_history; [done|]. intros r. by apply WriteCancel. Qed.

Lemma take_wake_history clk id wake w h res w' :
  approval_history (w.2 :: h) -> take_wake clk id wake w = (res, w') ->
  exists h', approval_history (w'.2 :: h') /\ forall x, x ∈ w.2 :: h -> x ∈ w'.2 :: h'.
Proof.
  destruct w as [q s], w' as [q' s']. cbn. intros Hh Ht. destruct wake; cbn in Ht.
  - destruct (queue_cancel _ _ _ _ _ _) as [[r q1] s1] eqn:E. cbn in Ht. injection Ht as _ <- <-.
    by eapply cancel_history.
  - injection Ht as _ <- <-. eauto.
  - destruct (queue_cancel _ _ _ _ _ _) as [[r q1] s1] eqn:E. cbn in Ht. injection Ht as _ <- <-.
    by eapply cancel_history.
  - destruct (timeout _ _ _ _) as [[r q1] s1] eqn:E. cbn in Ht. injection Ht as _ <- <-.
    by eapply timeout_history.
Qed.

(** ** The grant of an answer *)

(** The grant is in the streams, and a recorded decision of its approval issued
    it. *)
Definition grant_on_record (g : ApprovalGrant) (s : S) : Prop :=
  (restore_approval_state s).2 !! gt_grant_id g = Some g /\
  exists r, restore_approval_request s (gt_approval_id g) = Some r /\ backed r g.

Lemma found_grant s h id g :
  approval_history (s :: h) -> grant_for_approval s id = Some g ->
  gt_approval_id g = id /\ grant_on_record g s.
Proof.
  intros Hh Hf. unfold grant_for_approval, queue_grants in Hf.
  apply List.find_some in Hf as [Hin Hid%String.eqb_eq].
  apply list_elem_of_In, elem_of_btree_values in Hin as [gid Hg].
  destruct (durable_grant_backed _ _ _ _ Hh Hg) as [-> (r & Hr & Hb)].
  split; [done|]. split; [|by exists r].
  destruct Hb as (d & st & exp & rev & reason & _ & _ & _ & _ & _ & E).
  destruct (history_inv _ _ Hh s ltac:(left)) as [Hi _].
  assert (gt_grant_id g = approval_grant_id (gt_approval_id g)) as ->; [|done].
  rewrite E. cbn. by rewrite (restored_id _ _ _ Hi Hr).
Qed.

(** An answer of the waiting loop. *)
Lemma wait_for_resolution_cases clk env id : (forall n, continues (env n)) ->
  forall wakes i w h a w',
  approval_history (w.2 :: h) ->
  wait_for_resolution clk env id i wakes w = (a, w') ->
  (exists h', approval_history (w'.2 :: h') /\ forall x, x ∈ w.2 :: h -> x ∈ w'.2 :: h') /\
  forall aid g, a = Some (Ok (Approved aid g)) ->
    aid = id /\ gt_approval_id g = id /\ grant_on_record g w'.2.
Proof.
  intros Henv. induction wakes as [|wake wakes IH]; intros i w h a w' Hh Hw; cbn -[Nat.mul] in Hw;
    (destruct (queue_get w.1 w.2 id) as [r|]; [|injection Hw as <- <-; split; [eauto|discriminate]]);
    (destruct (negb _) eqn:Es;
      [destruct (Henv (2 * i) w h Hh) as (h1 & Hh1 & Hsub); injection Hw as <- <-;
       split; [eauto|]; intros aid g Ha; unfold closed_answer in Ha; case_match; try done;
       injection Ha as Ha; apply bind_Ok_inv in Ha as (g1 & Hg%ok_or_Ok_inv & [= <- <-]);
       by destruct (found_grant _ _ _ _ Hh1 Hg)|]).
  - injection Hw as <- <-. split; [eauto|discriminate].
  - destruct (Henv (2 * i + 1) w h Hh) as (h1 & Hh1 & Hsub1).
    destruct (negb (wake_enabled r wake)); [injection Hw as <- <-; split; [eauto|discriminate]|].
    destruct (take_wake _ _ _ _) as [res w1] eqn:Et.
    destruct (take_wake_history _ _ _ _ _ _ _ Hh1 Et) as (h2 & Hh2 & Hsub2).
    destruct res as [ans|].
    + injection Hw as <- <-. split; [eauto|]. intros aid g [= ->]. exfalso.
      destruct wake; cbn in Et; try (injection Et as Et _; discriminate).
      * destruct (queue_cancel _ _ _ _ _ _) as [[rr q1] s1]. cbn in Et. injection Et as Et _.
        apply bind_Ok_inv in Et as (? & _ & [=]).
      * destruct (queue_cancel _ _ _ _ _ _) as [[rr q1] s1]. cbn in Et. injection Et as Et _.
        apply bind_Ok_inv in Et as (? & _ & [=]).
      * destruct (timeout _ _ _ _) as [[[rr|e] q1] s1]; cbn in Et; by injection Et as Et _.
    + destruct (IH _ _ _ _ _ Hh2 Hw) as [(h3 & Hh3 & Hsub3) Ha]. split; [|exact Ha]. eauto 10.
Qed.

Lemma decide_internal_receipt clk c q s receipt q' s' :
  ApprovalInv s -> decide_internal clk c q s = (Ok receipt, q', s') ->
  rd_approval_id receipt = ad_approval_id c.
Proof.
  intros Hi Hd. unfold decide_internal in Hd.
  destruct (decide_internal_plan clk c q s) as [[pl|e] q1] eqn:Ep; [|discriminate].
  apply decide_internal_inv in Ep as (_ & _ & Ep). destruct pl as [a|r finish]; cbn in Hd.
  - injection Hd as <- _ _. unfold decide_authorized in Ep. destruct (trim_is_empty _); [done|].
    destruct (restore_approval_request s (ad_approval_id c)) as [x|] eqn:Ex; [|discriminate].
    destruct (hydrate_request q s (ad_approval_id c)) as [q2|]; [|discriminate].
    destruct (decision_allowed c x) as [[]|]; [|discriminate]. case_match; [|discriminate].
    injection Ep as <- _. by apply (restored_id s).
  - destruct (eb_append r None s) as [[rcp|e] s1] eqn:Ea; [|discriminate].
    destruct (finish q1) as [a q2] eqn:Ef. injection Hd as <- _ _.
    destruct (decision_committed _ _ _ _ _ _ _ _ _ Hi Ep Ea) as (x & _ & Hid & _ & -> & _).
    by injection Ef as <- _.
Qed.

Lemma decide_for_cases clk env c missing w h a w' :
  continues env -> approval_history (w.2 :: h) -> decide_for clk env c missing w = (a, w') ->
  (exists h', approval_history (w'.2 :: h') /\ forall x, x ∈ w.2 :: h -> x ∈ w'.2 :: h') /\
  forall aid g, a = Ok (Approved aid g) ->
    aid = ad_approval_id c /\ gt_approval_id g = aid /\ grant_on_record g w'.2.
Proof.
  destruct w as [q s]. cbn. intros Henv Hh Hd. unfold decide_for in Hd. cbn in Hd.
  destruct (decide_internal clk c q s) as [[r q1] s1] eqn:Ed.
  destruct (decide_internal_history _ _ _ _ _ _ _ _ Hh Ed) as (h1 & Hh1 & Hsub1).
  cbn in Hd. destruct r as [receipt|e]; [|injection Hd as <- <-; split; [cbn; eauto|discriminate]].
  destruct (Henv (q1, s1) h1 Hh1) as (h2 & Hh2 & Hsub2). injection Hd as <- <-.
  split; [eauto|]. intros aid g Ha. apply bind_Ok_inv in Ha as (g1 & Hg%ok_or_Ok_inv & [= <- <-]).
  destruct (found_grant _ _ _ _ Hh2 Hg) as [Hid Hr].
  rewrite (decide_internal_receipt clk c q s receipt q1 s1) by
    (done || apply (history_inv _ _ Hh s ltac:(left))).
  by split; [|split].
Qed.

(** ** [resolve_tool] *)

(** The other tasks of a schedule continue the history. *)
Record schedule_ok (sch : Schedule (S := S)) : Prop := {
  so_submit : continues (sc_before_submit sch);
  so_decide : continues (sc_before_decide sch);
  so_grant : continues (sc_before_grant sch);
  so_waiting : forall n, continues (sc_waiting sch n)
}.

(** An approved call has a decision behind it.  Whatever other tasks do between
    its operations: when [resolve_tool] answers that a call is approved, the
    grant it answers with is in the streams of the store, its approval is the one
    the answer names, and the durable request of that approval records the
    approving decision that issued the grant, within its scopes. *)
Theorem resolved_grant_on_record config uuid sch wakes source c autonomy d input timeout_ms q s h
    aid g w' :
  queue_run q (s :: h) -> schedule_ok sch ->
  resolve_tool config uuid sch wakes source c autonomy d input timeout_ms (q, s)
    = (Some (Ok (Approved aid g)), w') ->
  gt_approval_id g = aid /\ grant_on_record g w'.2 /\
  exists h', approval_history (w'.2 :: h') /\ forall x, x ∈ s :: h -> x ∈ w'.2 :: h'.
Proof.
  intros Hrun [Hes Hed Heg Hew] Hr. destruct (queue_run_inv _ _ Hrun) as (s0 & h0 & [= <- <-] & Hh & _).
  unfold resolve_tool in Hr. cbv zeta in Hr.
  destruct (matching_grant (sc_match sch) (q, s).1 _ _) as [[g0|] q0] eqn:Em.
  { injection Hr as <- <- <-. split; [done|]. split; [|by exists h].
    destruct (matched_backed q s h _ _ _ g0 Hrun (f_equal fst Em)) as (Hg & _ & r & Hr & Hb & _).
    split; [done|]. by exists r. }
  cbn [snd] in Hr. destruct (Hes (q0, s) h Hh) as (h1 & Hh1 & Hsub1).
  destruct (sc_before_submit sch (q0, s)) as [q1 s1]. cbn [fst snd] in *.
  destruct (submit_scoped_with_deadline _ _ _ _ _ _) as [[sub q2] s2] eqn:Es.
  destruct (submit_history _ _ _ _ _ _ _ _ _ _ Hh1 Es) as (h2 & Hh2 & Hsub2).
  cbn [on_world fst snd] in Hr. destruct sub as [x|]; [|discriminate].
  destruct (Hed (q2, s2) h2 Hh2) as (h3 & Hh3 & Hsub3).
  set (w3 := sc_before_decide sch (q2, s2)) in *.
  assert (forall z, z ∈ s :: h -> z ∈ w3.2 :: h3) as Hsub by auto.
  assert (forall clk env cmd missing,
    continues env ->
    (let '(a, w) := decide_for clk env cmd missing w3 in (Some a, w))
      = (Some (Ok (Approved aid g)), w') ->
    gt_approval_id g = aid /\ grant_on_record g w'.2 /\
    exists h', approval_history (w'.2 :: h') /\ forall x, x ∈ s :: h -> x ∈ w'.2 :: h') as Hdec.
  { intros clk env cmd missing Henv Hx. destruct (decide_for clk env cmd missing w3) as [a w] eqn:Edf.
    injection Hx as -> ->.
    destruct (decide_for_cases _ _ _ _ _ _ _ _ Henv Hh3 Edf) as [(h' & Hh' & Hsub') Ha].
    destruct (Ha _ _ eq_refl) as (_ & Hid & Hrec). eauto 10. }
  case_bool_decide; [by eapply Hdec|]. destruct (_ && _ && _); [by eapply Hdec|].
  destruct (wait_for_resolution_cases _ _ _ Hew _ _ _ _ _ _ Hh3 Hr) as [(h' & Hh' & Hsub') Ha].
  destruct (Ha _ _ eq_refl) as (-> & Hid & Hrec). eauto 10.
Qed.

(** ** Submission *)

Lemma submitted_durable s id r rev rcp s' :
  ApprovalInv s -> aq_approval_id r = id -> restore_approval_request s id = None ->
  eb_append (batch (approval_stream id) rev (submit_tx id) (submit_events r)) None s = (Ok rcp, s') ->
  approval_state s' id = (Some r, None).
Proof.
  intros Hi Hid Hn Ha.
  destruct (approval_state s id) as [o g] eqn:Est.
  pose proof (approval_state_restore _ _ _ _ Est) as Ho. rewrite Hn in Ho. subst o.
  pose proof (ai_life _ Hi id) as Hok. rewrite Est in Hok. cbn in Hok. subst g.
  apply (batch_committed id) in Ha as [[-> Hu]|[_ (evs & Hv & Hs)]];
    [by destruct (proj2 (ai_submitted _ Hi id) Hu)| |apply Hi|].
  - apply views_cons in Hv as (e & evs' & -> & He & ->%views_nil).
    rewrite Hs, Est. unfold after_events. cbn [fold_left fst snd].
    by destruct (submitted_event e None None _ _ _ _ _ He (payload_of_request r)) as [-> ->].
  - intros i ->%list_elem_of_singleton. cbn. by rewrite Hid.
Qed.

Lemma finish_submit_put id r q : q_requests (finish_submit id r q).2 !! id = Some r.
Proof. unfold finish_submit. cbn. destruct (aq_expires_at_ms r); apply lookup_insert_eq. Qed.

(** A submission answers with the request that is there, or records a new one. *)
Lemma submit_recorded s h clk id sub expires q r q' s' :
  approval_history (s :: h) ->
  submit_scoped_with_deadline clk id sub expires q s = (Ok r, q', s') ->
  (s' = s /\ q' = q /\ queue_get q s id = Some r) \/
  (queue_get q s id = None /\ approval_state s' id = (Some r, None) /\
   q_requests q' !! id = Some r /\ exists timeout_policy expires_at,
     r = new_request id sub false [GsOnce; GsTurn; GsTask; GsSession; GsGlobal] timeout_policy
           (clk 0) expires_at /\
     (sa_blocks_execution sub = true -> timeout_policy = sa_timeout_policy sub)).
Proof.
  intros Hh Hd. destruct (history_inv _ _ Hh s ltac:(left)) as [Hi _].
  unfold submit_scoped_with_deadline, submit_scoped_with_policy, submit_plan in Hd. cbv zeta in Hd.
  destruct (validate_submission id sub); [|discriminate].
  destruct (queue_get q s id) as [x|] eqn:Eg.
  { case_match; [|discriminate]. injection Hd as <- <- <-. by left. }
  right. revert Hd. set (r0 := new_request _ _ _ _ _ _ _). intros Hd. cbn in Hd.
  destruct (eb_append _ None s) as [[rcp|e] s1] eqn:Ea; [|discriminate].
  injection Hd as Hd1 Hd2 <-. change (r0 = r) in Hd1. subst r.
  assert (restore_approval_request s id = None) as Hn.
  { unfold queue_get in Eg. by destruct (q_requests q !! id). }
  split; [done|]. split; [by eapply submitted_durable|].
  split; [rewrite <- Hd2; apply (finish_submit_put id r0)|].
  eexists _, _. split; [reflexivity|]. by intros ->.
Qed.

(** ** Calls a person is asked about *)

(** As far as the cache and the store know, the approval is not approved and will
    not approve itself. *)
Definition unapproved (id : string) (w : World) : Prop :=
  forall r, q_requests w.1 !! id = Some r \/ restore_approval_request w.2 id = Some r ->
    aq_approval_id r = id /\ aq_status r <> StApproved /\ aq_timeout_policy r <> ToAutoApproveOnce.

(** A task that does not approve it. *)
Definition approves_not (id : string) (f : World -> World) : Prop :=
  forall w, unapproved id w -> unapproved id (f w).

Lemma unapproved_get id w r : unapproved id w -> queue_get w.1 w.2 id = Some r ->
  aq_approval_id r = id /\ aq_status r <> StApproved /\ aq_timeout_policy r <> ToAutoApproveOnce.
Proof.
  intros Hu Hg. apply Hu. unfold queue_get in Hg. destruct (q_requests w.1 !! id); auto.
Qed.

Lemma wait_unapproved clk env id : (forall n, approves_not id (env n)) ->
  forall wakes i w a w' aid g,
  unapproved id w -> wait_for_resolution clk env id i wakes w = (a, w') ->
  a <> Some (Ok (Approved aid g)).
Proof.
  intros Henv. induction wakes as [|wake wakes IH]; intros i w a w' aid g Hu Hw;
    cbn -[Nat.mul] in Hw;
    (destruct (queue_get w.1 w.2 id) as [r|] eqn:Eg; [|by injection Hw as <- _]);
    destruct (unapproved_get _ _ _ Hu Eg) as (_ & Hst & Hto);
    (destruct (negb _); [injection Hw as <- _; unfold closed_answer; by destruct (aq_status r)|]).
  - by injection Hw as <- _.
  - destruct wake; cbn -[Nat.mul] in Hw.
    + destruct (queue_cancel _ _ _ _ _ _) as [[[x|e] q1] s1]; cbn in Hw; by injection Hw as <- _.
    + eapply IH; [|exact Hw]. by apply Henv.
    + destruct (queue_cancel _ _ _ _ _ _) as [[[x|e] q1] s1]; cbn in Hw; by injection Hw as <- _.
    + rewrite bool_decide_false in Hw by done. by injection Hw as <- _.
Qed.

Lemma submit_unapproved s h clk id sub expires q r q' s' :
  approval_history (s :: h) -> unapproved id (q, s) -> sa_blocks_execution sub = true ->
  sa_timeout_policy sub <> ToAutoApproveOnce ->
  submit_scoped_with_deadline clk id sub expires q s = (Ok r, q', s') ->
  aq_approval_id r = id /\ unapproved id (q', s').
Proof.
  intros Hh Hu Hb Ht Hd.
  destruct (submit_recorded _ _ _ _ _ _ _ _ _ _ Hh Hd)
    as [(-> & -> & Hg)|(_ & Hs & Hq & t & x & Hr & Hto)].
  - split; [by apply (unapproved_get id (q, s))|done].
  - split; [by rewrite Hr|]. intros y [Hy|Hy]; cbn in Hy.
    + rewrite Hq in Hy. injection Hy as <-. rewrite Hr. cbn. by rewrite Hto.
    + rewrite (approval_state_restore _ _ _ _ Hs) in Hy. injection Hy as <-. rewrite Hr. cbn.
      by rewrite Hto.
Qed.

(** The coordinator asks somebody: neither the router nor the steward answers. *)
Definition asks_somebody (config : ApprovalConfig) (c : ApprovalContext)
    (autonomy : option AutonomyProfileId) (d : ToolEffectDescriptor) : Prop :=
  let profile := default (cf_profile config) (cx_approval_profile c) in
  let routed := router_resolve (default (profile_for_approval_profile profile) autonomy)
                  AdExecution (task_risk_for_effect d) true (asks_explicitly c d) in
  routed <> RtAutoApprove /\
  (routed = RtStewardApprove ->
   asks_explicitly c d = true \/ steward_can_approve profile d (task_risk_for_effect d) = false).

(** C9. Nobody approves, nothing is approved.  When the router does not answer a
    call itself and the steward may not, and no other task approves its request,
    [resolve_tool] never answers that it is approved, whatever happens while it
    waits, unless a grant there already was covers it. *)
Theorem unattended_call_not_approved config uuid sch wakes source c autonomy d input timeout_ms
    q s h :
  let id := tool_approval_id uuid c in
  let profile := default (cf_profile config) (cx_approval_profile c) in
  approval_history (s :: h) -> continues (sc_before_submit sch) ->
  asks_somebody config c autonomy d -> unapproved id (q, s) ->
  approves_not id (sc_before_submit sch) -> approves_not id (sc_before_decide sch) ->
  (forall n, approves_not id (sc_waiting sch n)) ->
  (matching_grant (sc_match sch) q (tool_context profile d c) (task_risk_for_effect d)).1 = None ->
  forall aid g,
    (resolve_tool config uuid sch wakes source c autonomy d input timeout_ms (q, s)).1
      <> Some (Ok (Approved aid g)).
Proof.
  intros id profile Hh Hc [Ha Hst] Hu Hs Hd Hw Hm aid g Hr.
  unfold resolve_tool in Hr. cbv zeta in Hr. cbn [fst snd] in Hr. fold profile in Hr.
  destruct (matching_grant (sc_match sch) q _ _) as [m q0] eqn:Em. cbn in Hm. subst m.
  assert (unapproved id (q0, s)) as Hu0.
  { intros r Hx. apply Hu. unfold matching_grant, active_grants in Em. by injection Em as _ <-. }
  destruct (Hc (q0, s) h Hh) as (h1 & Hh1 & _). apply Hs in Hu0.
  destruct (sc_before_submit sch (q0, s)) as [q1 s1]. cbn [fst snd] in *.
  change (asks_explicitly (tool_context _ d c) d) with (asks_explicitly c d) in Hr.
  change (tool_approval_id uuid (with_explicit_ask _ (tool_context _ d c))) with id in Hr.
  destruct (submit_scoped_with_deadline _ _ _ _ _ _) as [[[x|e] q2] s2] eqn:Es; [|discriminate].
  cbn [on_world fst snd] in Hr.
  assert (tool_timeout_policy config (task_risk_for_effect d) (asks_explicitly c d)
            <> ToAutoApproveOnce) as Ht
    by (intros Ht; by eapply Ha, timed_requests_are_routed).
  pose proof (fun Hb Hp => submit_unapproved _ _ _ _ _ _ _ _ _ _ Hh1 Hu0 Hb Hp Es) as Hsub.
  destruct (Hsub eq_refl Ht) as [Hx Hu2].
  rewrite Hx in Hr. apply Hd in Hu2.
  rewrite bool_decide_false in Hr by done.
  destruct (_ && _ && _) eqn:E.
  - apply andb_prop in E as [[E1%bool_decide_eq_true E2%negb_true_iff]%andb_prop E3].
    destruct (Hst E1) as [?|Hx1]; [congruence|]. unfold profile in E3. congruence.
  - destruct (wait_for_resolution _ _ _ _ _ _) as [ans w'] eqn:Ew. cbn in Hr.
    by eapply (wait_unapproved _ _ _ Hw _ _ _ _ _ _ _ Hu2 Ew).
Qed.

(** ** Calls the coordinator answers itself *)

Lemma found_grant_state s h id g :
  approval_history (s :: h) -> grant_for_approval s id = Some g -> (approval_state s id).2 = Some g.
Proof.
  intros Hh Hf. destruct (history_inv _ _ Hh s ltac:(left)) as [Hi _].
  destruct (found_grant _ _ _ _ Hh Hf) as [<- [Hg _]].
  rewrite <- durable_grant by done. destruct (durable_grant_backed _ _ _ _ Hh Hg) as [<- _]. done.
Qed.

(** The recorded answer of an automatic actor to a request. *)
Definition answered_by (c : ApprovalDecisionCommand) (context : ApprovalContext) (g : ApprovalGrant)
    (s : S) : Prop :=
  exists x t1 t2, approval_state s (ad_approval_id c) = (Some x, Some g) /\
    aq_status x = StApproved /\ aq_decision x = Some (decision_of c t1) /\
    aq_resolved_at_ms x = Some t2 /\ aq_context x = context /\
    gt_scope g = GsOnce /\ gt_status g = AgActive /\ gt_issued_by g = ad_actor c.

Lemma decide_for_recorded clk env c missing q s h x a w' :
  approval_history (s :: h) -> (forall w, env w = w) ->
  approval_state s (ad_approval_id c) = (Some x, None) -> aq_status x = StPending ->
  ad_approved c = true -> ad_skip c = false -> ad_scope c = GsOnce ->
  decide_for clk env c missing (q, s) = (a, w') ->
  forall r, a = Ok r -> exists g, r = Approved (ad_approval_id c) g /\
    answered_by c (aq_context x) g w'.2.
Proof.
  intros Hh Henv Hx Hst Hap Hsk Hsc Hd r ->. unfold decide_for in Hd. cbn in Hd.
  destruct (history_inv _ _ Hh s ltac:(left)) as [Hi _].
  destruct (decide_internal clk c q s) as [[res q1] s1] eqn:Ed. cbn in Hd.
  destruct (decide_internal_history _ _ _ _ _ _ _ _ Hh Ed) as (h1 & Hh1 & _).
  destruct res as [receipt|]; [|discriminate]. rewrite Henv in Hd. injection Hd as Hd <-.
  apply bind_Ok_inv in Hd as (g & Hg%ok_or_Ok_inv & [= <-]). cbn in Hg.
  exists g. rewrite (decide_internal_receipt _ _ _ _ _ _ _ Hi Ed). split; [done|].
  unfold decide_internal in Ed.
  destruct (decide_internal_plan clk c q s) as [[pl|e] q2] eqn:Ep; [|discriminate].
  apply decide_internal_inv in Ep as (_ & _ & Ep).
  destruct (decide_authorized_recorded _ _ _ _ _ _ _ _ _ Hi Ep Ed) as (_ & y & Hy & _ & Ho).
  rewrite (approval_state_restore _ _ _ _ Hx) in Hy. injection Hy as <-.
  unfold decision_outcome in Ho. rewrite Hst in Ho. destruct Ho as [_ Hs1].
  apply found_grant_state with (2 := Hg) in Hh1. cbn in Hs1. rewrite Hs1 in Hh1. cbn in Hh1.
  rewrite Hh1 in Hs1. unfold issued_grant in Hh1. rewrite Hap in Hh1. injection Hh1 as <-.
  eexists _, _, _. split; [exact Hs1|]. unfold decided_status. rewrite Hap, Hsk, Hsc. done.
Qed.

(** An automatic answer is on record.  When the router approves a call, or routes
    it to the steward and the steward may approve it, and the approval is new and
    no other task interferes: [resolve_tool] does not wait, and if it does not
    fail it answers with a grant for this one call, active, issued by a durable
    decision of the router's policy, or of the steward, on the request of this
    call. *)
Theorem automatic_answer_recorded config uuid sch wakes source c autonomy d input timeout_ms q s h :
  let id := tool_approval_id uuid c in
  let profile := default (cf_profile config) (cx_approval_profile c) in
  let router_profile := default (profile_for_approval_profile profile) autonomy in
  let routed := router_resolve router_profile AdExecution (task_risk_for_effect d) true
                  (asks_explicitly c d) in
  let command := if bool_decide (routed = RtAutoApprove) then router_command id router_profile
                 else steward_command id in
  let context := with_explicit_ask (asks_explicitly c d) (tool_context profile d c) in
  approval_history (s :: h) ->
  (forall w, sc_before_submit sch w = w) -> (forall w, sc_before_decide sch w = w) ->
  (forall w, sc_before_grant sch w = w) ->
  (matching_grant (sc_match sch) q (tool_context profile d c) (task_risk_for_effect d)).1 = None ->
  queue_get q s id = None ->
  routed = RtAutoApprove \/
    routed = RtStewardApprove /\ asks_explicitly c d = false /\
    steward_can_approve profile d (task_risk_for_effect d) = true ->
  exists ans w',
    resolve_tool config uuid sch wakes source c autonomy d input timeout_ms (q, s) = (Some ans, w') /\
    forall r, ans = Ok r ->
      exists g, r = Approved id g /\ answered_by command context g w'.2.
Proof.
  intros id profile router_profile routed command context Hh E1 E2 E3 Hm Hg Hr.
  unfold resolve_tool. cbv zeta. cbn [fst snd]. fold profile.
  destruct (matching_grant (sc_match sch) q _ _) as [m q0] eqn:Em. cbn in Hm. subst m.
  rewrite E1. cbn [fst snd].
  change (asks_explicitly (tool_context _ d c) d) with (asks_explicitly c d).
  change (tool_approval_id uuid (with_explicit_ask _ (tool_context _ d c))) with id.
  fold context router_profile routed.
  destruct (submit_scoped_with_deadline _ _ _ _ _ _) as [[[x|e] q2] s2] eqn:Es;
    cbn [on_world fst snd]; [|by eexists _, _].
  destruct (submit_history _ _ _ _ _ _ _ _ _ _ Hh Es) as (h2 & Hh2 & _).
  assert (queue_get q0 s id = None) as Hg0.
  { unfold matching_grant, active_grants in Em. injection Em as _ <-. exact Hg. }
  destruct (submit_recorded _ _ _ _ _ _ _ _ _ _ Hh Es) as [(_ & _ & Hx)|(_ & Hx & _ & t & y & Hnew & _)];
    [congruence|].
  rewrite E2. assert (aq_approval_id x = id) as Hid by (by rewrite Hnew). rewrite Hid.
  assert (aq_context x = context) as Hctx by (by rewrite Hnew).
  assert (aq_status x = StPending) as Hst by (by rewrite Hnew).
  assert (forall cmd missing, ad_approval_id cmd = id -> cmd = command ->
    exists ans w', (let '(a, w) := decide_for (sc_decide sch) (sc_before_grant sch) cmd missing (q2, s2)
                    in (Some a, w)) = (Some ans, w') /\
      forall r, ans = Ok r -> exists g, r = Approved id g /\ answered_by command context g w'.2)
    as Hdec.
  { intros cmd missing Hcid Hcmd.
    destruct (decide_for (sc_decide sch) (sc_before_grant sch) cmd missing (q2, s2)) as [a w'] eqn:Edf.
    exists a, w'. split; [done|]. rewrite <- Hcmd, <- Hctx, <- Hcid.
    eapply decide_for_recorded; [exact Hh2|exact E3|by rewrite Hcid|exact Hst|..|exact Edf];
      rewrite Hcmd; unfold command; by case_bool_decide. }
  destruct Hr as [Hr|(Hr & Ha & Hs)].
  - rewrite bool_decide_true by done. apply Hdec; [done|]. unfold command.
    by rewrite bool_decide_true.
  - rewrite bool_decide_false by (by rewrite Hr). rewrite bool_decide_true, Ha, Hs by done. cbn [negb andb].
    apply Hdec; [done|]. unfold command. by rewrite bool_decide_false by (by rewrite Hr).
Qed.

(** ** The end of a wait *)

Definition closed (id : string) (s : S) : Prop :=
  exists r, restore_approval_request s id = Some r /\ aq_status r <> StPending.

(** What the cache shows as closed is closed. *)
Definition shows_truth (id : string) (w : World) : Prop :=
  forall r, q_requests w.1 !! id = Some r -> aq_status r <> StPending -> closed id w.2.

(** Another task: it continues the history, and keeps the cache to the truth. *)
Definition keeps_truth (id : string) (f : World -> World) : Prop :=
  continues f /\ forall w, shows_truth id w -> shows_truth id (f w).

Lemma closed_stays s h s' h' id :
  approval_history (s' :: h') -> (forall x, x ∈ s :: h -> x ∈ s' :: h') -> closed id s -> closed id s'.
Proof.
  intros Hh Hsub (r & Hr & Hne). eapply history_stays_closed; [exact Hh|apply Hsub; left|done..].
Qed.

Lemma cancel_closes s h clk id reason superseded q receipt q' s' :
  approval_history (s :: h) -> queue_cancel clk id reason superseded q s = (Ok receipt, q', s') ->
  closed id s'.
Proof.
  intros Hh Hd. destruct (cancel_recorded _ _ _ _ _ _ _ _ _ _ Hh Hd) as (_ & x & Hx & Ho).
  destruct (aq_status x) eqn:Es;
    [|destruct Ho as [-> _]; exists x; split; [done|by rewrite Es]..].
  destruct Ho as (Hs & _ & Ho). exists (with_resolution x (rd_status receipt)
    (Some (cancel_decision reason (clk 0))) (Some (clk 0))).
  split; [by apply (approval_state_restore _ _ _ _ Ho)|]. cbn. rewrite Hs. by destruct superseded.
Qed.

Lemma take_wake_closes clk id wake w h res w' :
  approval_history (w.2 :: h) -> shows_truth id w -> take_wake clk id wake w = (res, w') ->
  (forall a, res = Some (Ok a) -> closed id w'.2) /\ (res = None -> shows_truth id w').
Proof.
  destruct w as [q s]. cbn. intros Hh Ht Hd. destruct wake; cbn in Hd.
  - destruct (queue_cancel _ _ _ _ _ _) as [[r q1] s1] eqn:E. injection Hd as <- <-.
    split; [|done]. intros a [= Ha]. apply bind_Ok_inv in Ha as (x & -> & _).
    by eapply cancel_closes.
  - injection Hd as <- <-. by split.
  - destruct (queue_cancel _ _ _ _ _ _) as [[r q1] s1] eqn:E. injection Hd as <- <-.
    split; [|done]. intros a [= Ha]. apply bind_Ok_inv in Ha as (x & -> & _).
    by eapply cancel_closes.
  - destruct (timeout _ _ _ _) as [[r q1] s1] eqn:E. injection Hd as <- <-.
    destruct r as [x|e]; (split; [done|]); [|done]. intros _ y Hy. exfalso.
    destruct (history_inv _ _ Hh s ltac:(left)) as [Hi _].
    destruct (timeout_result _ _ _ _ _ _ _ Hi E) as [[Hn _] _]. cbn in Hy. congruence.
Qed.

(** C11. An answered wait is over.  While other tasks keep the cache truthful: when
    [wait_for_resolution] answers, by a decision, a cancellation, new input or a
    timeout, the durable request is no longer pending, so nothing the turn goes
    on with leaves an approval open behind it. *)
Theorem answered_wait_is_closed clk env id wakes i w h a w' :
  approval_history (w.2 :: h) -> shows_truth id w -> (forall n, keeps_truth id (env n)) ->
  wait_for_resolution clk env id i wakes w = (Some (Ok a), w') ->
  closed id w'.2 /\ exists h', approval_history (w'.2 :: h').
Proof.
  intros Hh Ht Henv. revert i w h Hh Ht.
  induction wakes as [|wake wakes IH]; intros i w h Hh Ht Hw; cbn -[Nat.mul] in Hw;
    (destruct (queue_get w.1 w.2 id) as [r|] eqn:Eg; [|discriminate]);
    (destruct (negb _) eqn:Es;
      [apply negb_true_iff, bool_decide_eq_false in Es;
       destruct (proj1 (Henv (2 * i)) w h Hh) as (h1 & Hh1 & Hsub);
       injection Hw as _ <-; split; [|by eexists];
       apply (closed_stays _ _ _ _ _ Hh1 Hsub); unfold queue_get in Eg;
       destruct (q_requests w.1 !! id) as [x|] eqn:Eq;
         [injection Eg as ->; by apply (Ht r)|by exists r]|]).
  - discriminate.
  - destruct (Henv (2 * i + 1)) as [Hc Hk]. destruct (Hc w h Hh) as (h1 & Hh1 & _).
    specialize (Hk w Ht). destruct (negb (wake_enabled r wake)); [discriminate|].
    destruct (take_wake _ _ _ _) as [res w1] eqn:Et.
    destruct (take_wake_closes _ _ _ _ _ _ _ Hh1 Hk Et) as [Hx Hy].
    destruct (take_wake_history _ _ _ _ _ _ _ Hh1 Et) as (h2 & Hh2 & _).
    destruct res as [ans|]; [|by eapply IH; [exact Hh2|apply Hy|]].
    injection Hw as -> <-. split; [by eapply Hx|by exists h2].
Qed.
End Safety.
