(* ===== verification/Permissions.v ===== *)
(** * Session policy and permission rules

    [runtime/src/policy/permissions.rs] with the policy presets of
    [harness-contract/src/policy/mod.rs]: the session policy and its live
    control, permission rules and their text form, and the route a tool call
    takes (allow, ask or hard deny).

    Rules are scanned as UTF-8 bytes; the code scans characters, and every
    character it looks for is ASCII. [serde_json::from_str] is the parameter
    [from_str]. *)

From S2P Require Import Prelude Facts Contract Ports Approval.

(** ** Permission modes *)

(** [PermissionMode::rank], [permits], [as_str]; [minimum_mode] *)
Definition pm_rank (m : PermissionMode) : N :=
  match m with PmReadOnly => 0 | PmWorkspaceWrite => 1 | PmDangerFullAccess => 2 end.

Definition pm_permits (m required : PermissionMode) : bool := (pm_rank required <=? pm_rank m)%N.

Definition pm_as_str (m : PermissionMode) : string :=
  match m with
  | PmReadOnly => "read-only" | PmWorkspaceWrite => "workspace-write"
  | PmDangerFullAccess => "danger-full-access"
  end.

Definition minimum_mode (left right : PermissionMode) : PermissionMode :=
  if (pm_rank left <=? pm_rank right)%N then left else right.

(** ** The session execution policy *)

Inductive InterruptionPolicy :=
| IpAlwaysPauseForHuman | IpPauseOnRisk | IpContinueWithAudit | IpContinueUntilBlocked.

Inductive SessionExecutionPolicyOrigin :=
| SoConfigDefault | SoSessionExplicit | SoSurfaceCommand | SoRecoveryReplan.

Record SessionExecutionPolicy := {
  sp_autonomy_profile : AutonomyProfileId;
  sp_permission_mode : PermissionMode;
  sp_sandbox_posture : SandboxPosture;
  sp_approval_profile : ApprovalProfile;
  sp_interruption_policy : InterruptionPolicy;
  sp_revision : N;
  sp_origin : SessionExecutionPolicyOrigin
}.

#[export] Instance InterruptionPolicy_eq_dec : EqDecision InterruptionPolicy.
Proof. solve_decision. Defined.
#[export] Instance SessionExecutionPolicyOrigin_eq_dec : EqDecision SessionExecutionPolicyOrigin.
Proof. solve_decision. Defined.
#[export] Instance SessionExecutionPolicy_eq_dec : EqDecision SessionExecutionPolicy.
Proof. solve_decision. Defined.

(** [AutonomyProfileId::sandbox_posture], [permission_mode_for],
    [approval_profile_for], [interruption_policy_for] *)
Definition sandbox_posture (p : AutonomyProfileId) : SandboxPosture :=
  match p with
  | AuCautious => SpReadOnly
  | AuSupervised | AuStewarded => SpWorkspaceWrite
  | AuAutonomous | AuYolo => SpHostFullAccess
  end.

Definition permission_mode_for (p : AutonomyProfileId) : PermissionMode :=
  match p with
  | AuCautious => PmReadOnly
  | AuSupervised | AuStewarded => PmWorkspaceWrite
  | AuAutonomous | AuYolo => PmDangerFullAccess
  end.

Definition approval_profile_for (p : AutonomyProfileId) : ApprovalProfile :=
  match p with
  | AuCautious => ApSupervised
  | AuSupervised => ApBalanced
  | AuStewarded | AuAutonomous => ApAutonomous
  | AuYolo => ApTrustAll
  end.

Definition interruption_policy_for (p : AutonomyProfileId) : InterruptionPolicy :=
  match p with
  | AuCautious => IpAlwaysPauseForHuman
  | AuSupervised => IpPauseOnRisk
  | AuStewarded | AuAutonomous => IpContinueWithAudit
  | AuYolo => IpContinueUntilBlocked
  end.

(** [SessionExecutionPolicy::from_defaults] *)
Definition policy_from_defaults (mode : PermissionMode) (approval : ApprovalProfile) :
  SessionExecutionPolicy :=
  let profile := match mode with
                 | PmReadOnly => AuCautious
                 | PmWorkspaceWrite => AuSupervised
                 | PmDangerFullAccess => AuAutonomous
                 end in
  {| sp_autonomy_profile := profile; sp_permission_mode := mode;
     sp_sandbox_posture := sandbox_posture profile; sp_approval_profile := approval;
     sp_interruption_policy := interruption_policy_for profile; sp_revision := 1;
     sp_origin := SoConfigDefault |}.

(** [SessionExecutionPolicy::from_profile] *)
Definition policy_from_profile (profile : AutonomyProfileId) (revision : N)
    (origin : SessionExecutionPolicyOrigin) : SessionExecutionPolicy :=
  {| sp_autonomy_profile := profile; sp_permission_mode := permission_mode_for profile;
     sp_sandbox_posture := sandbox_posture profile;
     sp_approval_profile := approval_profile_for profile;
     sp_interruption_policy := interruption_policy_for profile;
     sp_revision := N.max revision 1; sp_origin := origin |}.

(** [SessionExecutionPolicy::matched_preset], [next_revision] *)
Definition matched_preset (p : SessionExecutionPolicy) : option AutonomyProfileId :=
  let expected := policy_from_profile (sp_autonomy_profile p) (sp_revision p) (sp_origin p) in
  if bool_decide (sp_permission_mode p = sp_permission_mode expected)
     && bool_decide (sp_sandbox_posture p = sp_sandbox_posture expected)
     && bool_decide (sp_approval_profile p = sp_approval_profile expected)
     && bool_decide (sp_interruption_policy p = sp_interruption_policy expected)
  then Some (sp_autonomy_profile p) else None.

Definition next_revision (p : SessionExecutionPolicy) (origin : SessionExecutionPolicyOrigin) :
  SessionExecutionPolicy :=
  {| sp_autonomy_profile := sp_autonomy_profile p; sp_permission_mode := sp_permission_mode p;
     sp_sandbox_posture := sp_sandbox_posture p; sp_approval_profile := sp_approval_profile p;
     sp_interruption_policy := sp_interruption_policy p;
     sp_revision := u64_saturating_add (sp_revision p) 1; sp_origin := origin |}.

(** The error of [SessionExecutionPolicyControl::replace], with its arguments. *)
Inductive ReplaceError :=
| RevisionBackwards (current next : N)
| RevisionReused (revision : N).

(** [SessionExecutionPolicyControl::replace]: the new content of the cell. *)
Definition control_replace (policy current : SessionExecutionPolicy) :
  Result ReplaceError N * SessionExecutionPolicy :=
  if (sp_revision policy <? sp_revision current)%N
  then (Err (RevisionBackwards (sp_revision current) (sp_revision policy)), current)
  else if (sp_revision policy =? sp_revision current)%N
          && negb (bool_decide (current = policy))
  then (Err (RevisionReused (sp_revision policy)), current)
  else (Ok (sp_revision policy), policy).

(** ** Permission rules *)

Inductive PermissionRuleMatcher := MatchAny | MatchExact (subject : string) | MatchPrefix (prefix : string).

Record PermissionRule := {
  pr_raw : string;
  pr_tool_name : string;
  pr_matcher : PermissionRuleMatcher
}.

Definition backslash : Ascii.ascii := Ascii.ascii_of_nat 92.
Definition paren_open : Ascii.ascii := Ascii.ascii_of_nat 40.
Definition paren_close : Ascii.ascii := Ascii.ascii_of_nat 41.

(** [find_first_unescaped] *)
Fixpoint find_first_from (needle : Ascii.ascii) (escaped : bool) (idx : nat) (s : string) :
  option nat :=
  match s with
  | EmptyString => None
  | String c s' =>
      if Ascii.eqb c backslash then find_first_from needle (negb escaped) (S idx) s'
      else if Ascii.eqb c needle && negb escaped then Some idx
      else find_first_from needle false (S idx) s'
  end.

Definition find_first_unescaped (value : string) (needle : Ascii.ascii) : option nat :=
  find_first_from needle false 0 value.

(** [find_last_unescaped]: from the last character backwards, with the
    backslashes before each candidate. *)
Fixpoint backslashes (before : list Ascii.ascii) : nat :=
  match before with
  | c :: before' => if Ascii.eqb c backslash then S (backslashes before') else 0
  | [] => 0
  end.

Fixpoint find_last_back (needle : Ascii.ascii) (back : list Ascii.ascii) : option nat :=
  match back with
  | [] => None
  | c :: before =>
      if Ascii.eqb c needle && Nat.even (backslashes before) then Some (length before)
      else find_last_back needle before
  end.

Definition find_last_unescaped (value : string) (needle : Ascii.ascii) : option nat :=
  find_last_back needle (rev (String.list_ascii_of_string value)).

(** [str::replace] of a two-character pattern by one character. *)
Fixpoint replace2 (a b c : Ascii.ascii) (s : string) : string :=
  match s with
  | String x ((String y s'') as s') =>
      if Ascii.eqb x a && Ascii.eqb y b then String c (replace2 a b c s'')
      else String x (replace2 a b c s')
  | _ => s
  end.

(** [unescape_rule_content] *)
Definition unescape_rule_content (content : string) : string :=
  replace2 backslash backslash backslash
    (replace2 backslash paren_close paren_close (replace2 backslash paren_open paren_open content)).

(** [str::strip_suffix] *)
Definition strip_suffix (s suffix : string) : option string :=
  let n := String.length s - String.length suffix in
  if (String.length suffix <=? String.length s)
     && String.eqb (String.substring n (String.length suffix) s) suffix
  then Some (String.substring 0 n s) else None.

(** [parse_rule_matcher] *)
Definition parse_rule_matcher (content : string) : PermissionRuleMatcher :=
  let unescaped := unescape_rule_content (trim content) in
  if String.eqb unescaped "" || String.eqb unescaped "*" then MatchAny
  else match strip_suffix unescaped ":*" with
       | Some prefix => MatchPrefix prefix
       | None => MatchExact unescaped
       end.

(** [PermissionRule::parse] *)
Definition rule_parse (raw : string) : PermissionRule :=
  let trimmed := trim raw in
  let whole := {| pr_raw := trimmed; pr_tool_name := trimmed; pr_matcher := MatchAny |} in
  match find_first_unescaped trimmed paren_open, find_last_unescaped trimmed paren_close with
  | Some open, Some close =>
      if (close =? String.length trimmed - 1) && (open <? close) then
        let tool_name := trim (String.substring 0 open trimmed) in
        let content := String.substring (S open) (close - S open) trimmed in
        if negb (String.eqb tool_name "")
        then {| pr_raw := trimmed; pr_tool_name := tool_name;
                pr_matcher := parse_rule_matcher content |}
        else whole
      else whole
  | _, _ => whole
  end.

(** ** Hooks *)

Inductive PermissionOverride := OvAllow | OvDeny | OvAsk.

#[export] Instance PermissionOverride_eq_dec : EqDecision PermissionOverride.
Proof. solve_decision. Defined.

Record PermissionContext := {
  pc_override_decision : option PermissionOverride;
  pc_override_reason : option string
}.

(** ** The policy *)

Record PermissionPolicy := {
  pp_control : SessionExecutionPolicy;
  pp_immutable_ceiling : option PermissionMode;
  pp_tool_requirements : gmap string PermissionMode;
  pp_allow_rules : list PermissionRule;
  pp_deny_rules : list PermissionRule;
  pp_ask_rules : list PermissionRule
}.

Inductive PermissionPolicyRoute :=
| RouteAllow (standing_grant : bool) (reason : string)
| RouteAsk (reason : string)
| RouteHardDeny (reason : string).

Record PermissionRequest := {
  pq_tool_name : string;
  pq_input : string;
  pq_current_mode : PermissionMode;
  pq_required_mode : PermissionMode;
  pq_reason : option string
}.

Inductive PermissionPromptDecision := PromptAllow | PromptDeny (reason : string).
Inductive PermissionOutcome := OutcomeAllow | OutcomeDeny (reason : string).

(** [PermissionPolicy::with_execution_policy_control], [new] *)
Definition policy_with_control (control : SessionExecutionPolicy) : PermissionPolicy :=
  {| pp_control := control; pp_immutable_ceiling := None; pp_tool_requirements := ∅;
     pp_allow_rules := []; pp_deny_rules := []; pp_ask_rules := [] |}.

Definition permission_policy_new (active_mode : PermissionMode) : PermissionPolicy :=
  policy_with_control (policy_from_defaults active_mode ApBalanced).

(** [with_immutable_ceiling], [bound_to_snapshot] *)
Definition with_immutable_ceiling (ceiling : PermissionMode) (p : PermissionPolicy) :
  PermissionPolicy :=
  {| pp_control := pp_control p; pp_immutable_ceiling := Some ceiling;
     pp_tool_requirements := pp_tool_requirements p; pp_allow_rules := pp_allow_rules p;
     pp_deny_rules := pp_deny_rules p; pp_ask_rules := pp_ask_rules p |}.

Definition bound_to_snapshot (snapshot : SessionExecutionPolicy) (p : PermissionPolicy) :
  PermissionPolicy :=
  {| pp_control := snapshot; pp_immutable_ceiling := pp_immutable_ceiling p;
     pp_tool_requirements := pp_tool_requirements p; pp_allow_rules := pp_allow_rules p;
     pp_deny_rules := pp_deny_rules p; pp_ask_rules := pp_ask_rules p |}.

(** [with_permission_rules], [with_tool_requirement] *)
Definition with_permission_rules (allow deny ask : list string) (p : PermissionPolicy) :
  PermissionPolicy :=
  {| pp_control := pp_control p; pp_immutable_ceiling := pp_immutable_ceiling p;
     pp_tool_requirements := pp_tool_requirements p; pp_allow_rules := rule_parse <$> allow;
     pp_deny_rules := rule_parse <$> deny; pp_ask_rules := rule_parse <$> ask |}.

Definition with_tool_requirement (tool_name : string) (required : PermissionMode)
    (p : PermissionPolicy) : PermissionPolicy :=
  {| pp_control := pp_control p; pp_immutable_ceiling := pp_immutable_ceiling p;
     pp_tool_requirements := <[tool_name := required]> (pp_tool_requirements p);
     pp_allow_rules := pp_allow_rules p; pp_deny_rules := pp_deny_rules p;
     pp_ask_rules := pp_ask_rules p |}.

(** [active_mode], [required_mode_for] *)
Definition active_mode (p : PermissionPolicy) : PermissionMode :=
  match pp_immutable_ceiling p with
  | Some ceiling => minimum_mode (sp_permission_mode (pp_control p)) ceiling
  | None => sp_permission_mode (pp_control p)
  end.

Definition required_mode_for (p : PermissionPolicy) (tool_name : string) : PermissionMode :=
  default PmDangerFullAccess (pp_tool_requirements p !! tool_name).

Section Route.
Context {Value : Type} `{Json Value} (from_str : string -> option Value).

Definition SUBJECT_KEYS : list string :=
  ["command"; "path"; "file_path"; "filePath"; "notebook_path"; "notebookPath"; "url"; "pattern";
   "code"; "message"].

(** [extract_permission_subject] *)
Definition extract_permission_subject (input : string) : option string :=
  let member v := head (omap (fun key => value_get v key ≫= value_as_str) SUBJECT_KEYS) in
  match from_str input ≫= member with
  | Some subject => Some subject
  | None => if trim_is_empty input then None else Some input
  end.

(** [PermissionRule::matches] *)
Definition rule_matches (r : PermissionRule) (tool_name input : string) : bool :=
  String.eqb (pr_tool_name r) tool_name
  && match pr_matcher r with
     | MatchAny => true
     | MatchExact expected => bool_decide (extract_permission_subject input = Some expected)
     | MatchPrefix prefix =>
         match extract_permission_subject input with
         | Some candidate => starts_with candidate prefix
         | None => false
         end
     end.

(** [find_matching_rule] *)
Definition find_matching_rule (rules : list PermissionRule) (tool_name input : string) :
  option PermissionRule := List.find (fun r => rule_matches r tool_name input) rules.

(** [route_required_with_context] *)
Definition route_required_with_context (p : PermissionPolicy) (tool_name input : string)
    (required_mode : PermissionMode) (context : PermissionContext) : PermissionPolicyRoute :=
  match find_matching_rule (pp_deny_rules p) tool_name input with
  | Some rule =>
      RouteHardDeny ("Permission to use " +:+ tool_name +:+ " has been denied by rule '"
                     +:+ pr_raw rule +:+ "'")
  | None =>
      if bool_decide (pc_override_decision context = Some OvDeny)
      then RouteHardDeny (default ("tool '" +:+ tool_name +:+ "' denied by hook")%string
                            (pc_override_reason context))
      else
        let current_mode := active_mode p in
        match find_matching_rule (pp_ask_rules p) tool_name input with
        | Some rule =>
            RouteAsk ("tool '" +:+ tool_name +:+ "' requires approval due to ask rule '"
                      +:+ pr_raw rule +:+ "'")
        | None =>
            if bool_decide (pc_override_decision context = Some OvAsk)
            then RouteAsk (default ("tool '" +:+ tool_name
                                    +:+ "' requires approval due to hook guidance")%string
                             (pc_override_reason context))
            else
              let standing_grant :=
                bool_decide (is_Some (find_matching_rule (pp_allow_rules p) tool_name input)) in
              if standing_grant || pm_permits current_mode required_mode
              then RouteAllow standing_grant
                     (if standing_grant then "matching standing scoped grant"
                      else "active policy ceiling permits assessed effect")
              else if bool_decide (current_mode = PmWorkspaceWrite)
                      && bool_decide (required_mode = PmDangerFullAccess)
              then RouteAsk ("tool '" +:+ tool_name +:+ "' requires approval to escalate from "
                             +:+ pm_as_str current_mode +:+ " to " +:+ pm_as_str required_mode)
              else RouteAsk ("tool '" +:+ tool_name +:+ "' requires a scoped elevation from "
                             +:+ pm_as_str current_mode +:+ " to " +:+ pm_as_str required_mode)
        end
  end.

(** [prompt_or_deny] and [authorize_required_with_context]; the prompter is a
    function of the request. *)
Definition prompt_or_deny (tool_name input : string) (current_mode required_mode : PermissionMode)
    (reason : option string)
    (prompter : option (PermissionRequest -> PermissionPromptDecision)) : PermissionOutcome :=
  let request := {| pq_tool_name := tool_name; pq_input := input; pq_current_mode := current_mode;
                    pq_required_mode := required_mode; pq_reason := reason |} in
  match prompter with
  | Some ask => match ask request with
                | PromptAllow => OutcomeAllow
                | PromptDeny reason => OutcomeDeny reason
                end
  | None =>
      OutcomeDeny
        (default ("tool '" +:+ tool_name +:+ "' requires approval to run while mode is "
                  +:+ pm_as_str current_mode)%string reason)
  end.

Definition authorize_required_with_context (p : PermissionPolicy) (tool_name input : string)
    (required_mode : PermissionMode) (context : PermissionContext)
    (prompter : option (PermissionRequest -> PermissionPromptDecision)) : PermissionOutcome :=
  match route_required_with_context p tool_name input required_mode context with
  | RouteAllow _ _ => OutcomeAllow
  | RouteAsk reason =>
      prompt_or_deny tool_name input (active_mode p) required_mode (Some reason) prompter
  | RouteHardDeny reason => OutcomeDeny reason
  end.

(** [authorize], [authorize_with_context] *)
Definition authorize_with_context (p : PermissionPolicy) (tool_name input : string)
    (context : PermissionContext)
    (prompter : option (PermissionRequest -> PermissionPromptDecision)) : PermissionOutcome :=
  authorize_required_with_context p tool_name input (required_mode_for p tool_name) context
    prompter.

Definition authorize (p : PermissionPolicy) (tool_name input : string)
    (prompter : option (PermissionRequest -> PermissionPromptDecision)) : PermissionOutcome :=
  authorize_with_context p tool_name input
    {| pc_override_decision := None; pc_override_reason := None |} prompter.
End Route.

(** ** The text of a rule

    [render_rule] writes a rule the way a configuration does, with the
    characters the parser treats specially escaped. *)

Fixpoint escape_with (f : Ascii.ascii -> bool) (s : string) : string :=
  match s with
  | EmptyString => EmptyString
  | String c s' =>
      if f c then String backslash (String c (escape_with f s')) else String c (escape_with f s')
  end.

Definition escape_content : string -> string :=
  escape_with (fun c => Ascii.eqb c backslash || Ascii.eqb c paren_open || Ascii.eqb c paren_close).

Definition render_matcher (m : PermissionRuleMatcher) : string :=
  match m with
  | MatchAny => "*"
  | MatchExact subject => escape_content subject
  | MatchPrefix prefix => escape_content (prefix +:+ ":*")
  end.

Definition render_rule (tool_name : string) (m : PermissionRuleMatcher) : string :=
  tool_name +:+ String paren_open (render_matcher m +:+ String paren_close "").

(** A tool name or matcher the text form can express. *)
Definition plain_name (s : string) : bool :=
  negb (String.eqb s "") && String.eqb (trim s) s
  && str_forallb (fun c => negb (Ascii.eqb c backslash) && negb (Ascii.eqb c paren_open)) s.

Definition expressible (m : PermissionRuleMatcher) : bool :=
  String.eqb (trim (render_matcher m)) (render_matcher m)
  && match m with
     | MatchExact s =>
         negb (String.eqb s "") && negb (String.eqb s "*")
         && bool_decide (strip_suffix s ":*" = None)
     | _ => true
     end.

(** *** Escaping *)

Lemma replace2_skip a b c x s : x <> a -> replace2 a b c (String x s) = String x (replace2 a b c s).
Proof.
  intros Hx. destruct s as [|y s]; [done|]. cbn [replace2].
  by rewrite (proj2 (Ascii.eqb_neq x a) Hx).
Qed.

Lemma replace2_hit a b c s : replace2 a b c (String a (String b s)) = String c (replace2 a b c s).
Proof. cbn [replace2]. by rewrite !Ascii.eqb_refl. Qed.

Definition not_head (b : Ascii.ascii) (s : string) : Prop :=
  match s with String y _ => y <> b | EmptyString => True end.

Lemma replace2_miss a b c s :
  not_head b s -> replace2 a b c (String a s) = String a (replace2 a b c s).
Proof.
  destruct s as [|y s]; [done|]. cbn [not_head replace2]. intros Hy.
  by rewrite (proj2 (Ascii.eqb_neq y b) Hy), andb_false_r.
Qed.

Lemma escape_head f b s : f b = true -> b <> backslash -> not_head b (escape_with f s).
Proof.
  intros Hf Hb. destruct s as [|c s]; [done|]. cbn [escape_with].
  destruct (f c) eqn:E; cbn [not_head]; congruence.
Qed.

(** One pass of [str::replace] undoes the escapes of one character. *)
Lemma unescape_pass f b s :
  f b = true -> f backslash = true -> b <> backslash ->
  replace2 backslash b b (escape_with f s)
    = escape_with (fun c => f c && negb (Ascii.eqb c b)) s.
Proof.
  intros Hf Hs Hb. induction s as [|c s IH]; [done|]. cbn [escape_with].
  pose proof (escape_head f b s Hf Hb) as Hh.
  destruct (Ascii.eqb_spec c b) as [->|Hc].
  { rewrite Hf, replace2_hit, IH. done. }
  rewrite andb_true_r. destruct (f c) eqn:Ec.
  - rewrite replace2_miss by done.
    destruct (Ascii.eqb_spec c backslash) as [->|Hcb].
    + by rewrite replace2_miss, IH by done.
    + by rewrite replace2_skip, IH by done.
  - rewrite replace2_skip by congruence. by rewrite IH.
Qed.

Lemma unescape_backslashes f s :
  (forall c, f c = Ascii.eqb c backslash) ->
  replace2 backslash backslash backslash (escape_with f s) = s.
Proof.
  intros Hf. induction s as [|c s IH]; [done|]. cbn [escape_with]. rewrite Hf.
  destruct (Ascii.eqb_spec c backslash) as [->|Hc].
  - by rewrite replace2_hit, IH.
  - by rewrite replace2_skip, IH by done.
Qed.

Lemma escape_with_ext f g s : (forall c, f c = g c) -> escape_with f s = escape_with g s.
Proof. intros E. induction s as [|c s IH]; [done|]. cbn [escape_with]. by rewrite E, IH. Qed.

Lemma unescape_escape s : unescape_rule_content (escape_content s) = s.
Proof.
  unfold unescape_rule_content, escape_content.
  rewrite unescape_pass by done. rewrite unescape_pass by done.
  apply unescape_backslashes. intros c.
  destruct (Ascii.eqb_spec c backslash) as [->|]; [done|].
  destruct (Ascii.eqb_spec c paren_open) as [->|]; [done|].
  by destruct (Ascii.eqb c paren_close).
Qed.

(** *** Positions in a rendered rule *)

Lemma str_app_cons a s t : (String a s +:+ t)%string = String a (s +:+ t)%string.
Proof. reflexivity. Qed.

Lemma str_length_app s t : String.length (s +:+ t) = String.length s + String.length t.
Proof. induction s as [|a s IH]; [done|]. rewrite str_app_cons. cbn. by rewrite IH. Qed.

Lemma str_app_assoc (s t u : string) : ((s +:+ t) +:+ u)%string = (s +:+ (t +:+ u))%string.
Proof. induction s as [|a s IH]; [done|]. rewrite !str_app_cons. by rewrite IH. Qed.

Lemma substring_all s : forall n, String.length s <= n -> String.substring 0 n s = s.
Proof.
  induction s as [|a s IH]; intros [|n] Hn; cbn in *; try done; [lia|].
  by rewrite IH by lia.
Qed.

Lemma substring_prefix s t : String.substring 0 (String.length s) (s +:+ t) = s.
Proof.
  induction s as [|a s IH]; [by destruct t|]. rewrite str_app_cons. cbn. by rewrite IH.
Qed.

Lemma substring_drop s t n m :
  n = String.length s -> String.substring n m (s +:+ t) = String.substring 0 m t.
Proof.
  intros ->. induction s as [|a s IH]; [done|]. rewrite str_app_cons. cbn. apply IH.
Qed.

Lemma strip_suffix_app s suffix : strip_suffix (s +:+ suffix) suffix = Some s.
Proof.
  unfold strip_suffix. rewrite str_length_app.
  replace (String.length s + String.length suffix - String.length suffix) with (String.length s) by lia.
  rewrite (substring_drop s suffix) by done. rewrite substring_all by done.
  rewrite String.eqb_refl, substring_prefix.
  by rewrite (proj2 (Nat.leb_le _ _)) by lia.
Qed.

Lemma find_first_plain needle name rest : forall idx,
  needle <> backslash ->
  str_forallb (fun c => negb (Ascii.eqb c backslash) && negb (Ascii.eqb c needle)) name = true ->
  find_first_from needle false idx (name +:+ String needle rest) = Some (idx + String.length name).
Proof.
  intros idx Hn. revert idx. induction name as [|c name IH]; intros idx Hf.
  - change ("" +:+ String needle rest)%string with (String needle rest). cbn [find_first_from].
    rewrite (proj2 (Ascii.eqb_neq needle backslash) Hn), Ascii.eqb_refl. cbn. f_equal. lia.
  - rewrite str_app_cons. cbn [str_forallb] in Hf. apply andb_prop in Hf as [Hc Hf].
    apply andb_prop in Hc as [Hc1 Hc2]. apply negb_true_iff in Hc1, Hc2.
    cbn [find_first_from]. rewrite Hc1, Hc2. cbn [andb]. rewrite IH by done. cbn. f_equal. lia.
Qed.

Lemma list_ascii_app s t :
  String.list_ascii_of_string (s +:+ t)
    = String.list_ascii_of_string s ++ String.list_ascii_of_string t.
Proof. induction s as [|a s IH]; [done|]. rewrite str_app_cons. cbn. by rewrite IH. Qed.

Lemma list_ascii_length s : length (String.list_ascii_of_string s) = String.length s.
Proof. induction s as [|a s IH]; cbn; [done|]. by rewrite IH. Qed.

Lemma escape_with_chars f s :
  String.list_ascii_of_string (escape_with f s)
    = flat_map (fun c => if f c then [backslash; c] else [c]) (String.list_ascii_of_string s).
Proof.
  induction s as [|c s IH]; [done|]. cbn [escape_with String.list_ascii_of_string flat_map].
  by destruct (f c); cbn; rewrite IH.
Qed.

(** A run of backslashes that ends an escaped text is even. *)
Lemma escape_run_even f l tail :
  f backslash = true -> Nat.even (backslashes tail) = true ->
  Nat.even (backslashes (rev (flat_map (fun c => if f c then [backslash; c] else [c]) l) ++ tail))
    = true.
Proof.
  intros Hf Ht. induction l as [|c l IH] using rev_ind; [done|].
  rewrite flat_map_app, rev_app_distr. cbn [flat_map]. rewrite app_nil_r.
  destruct (Ascii.eqb_spec c backslash) as [->|Hc].
  - rewrite Hf. cbn [rev app backslashes]. rewrite !Ascii.eqb_refl. exact IH.
  - destruct (f c); cbn [rev app backslashes];
      by rewrite (proj2 (Ascii.eqb_neq c backslash) Hc).
Qed.

Lemma render_run_even name m :
  Nat.even (backslashes
    (rev (String.list_ascii_of_string (name +:+ String paren_open (render_matcher m))))) = true.
Proof.
  rewrite list_ascii_app, rev_app_distr. cbn [String.list_ascii_of_string rev].
  rewrite <- app_assoc. cbn [app].
  destruct m as [|s|s]; cbn [render_matcher]; [done| |];
    unfold escape_content; rewrite escape_with_chars; by apply escape_run_even.
Qed.

Lemma find_last_rendered name m :
  find_last_unescaped (render_rule name m) paren_close
    = Some (String.length name + S (String.length (render_matcher m))).
Proof.
  unfold find_last_unescaped, render_rule.
  rewrite <- str_app_cons, <- str_app_assoc.
  rewrite list_ascii_app, rev_app_distr.
  change (rev (String.list_ascii_of_string (String paren_close ""))) with [paren_close].
  cbn [app find_last_back].
  rewrite Ascii.eqb_refl, render_run_even. cbn [andb].
  by rewrite length_rev, list_ascii_length, str_length_app.
Qed.

(** *** Trimming a rendered rule *)

Lemma trim_start_guarded s c t :
  s <> EmptyString -> trim_start s = s -> Ascii.nat_of_ascii c < 128 ->
  trim_start (s +:+ String c t) = (s +:+ String c t)%string.
Proof.
  intros Hs Ht Hc.
  assert (forall a, is_ws2 a c = false) as H2.
  { intros a. unfold is_ws2. apply andb_false_iff. right. apply orb_false_iff.
    split; apply Nat.eqb_neq; lia. }
  assert (forall a b, is_ws3 a b c = false) as H3.
  { intros a b. unfold is_ws3. rewrite !orb_false_iff, !andb_false_iff.
    repeat split; right; rewrite ?orb_false_iff, ?andb_false_iff, ?Nat.leb_gt, ?Nat.eqb_neq; lia. }
  assert (forall a x, is_ws3 a c x = false) as H3'.
  { intros a x. unfold is_ws3. rewrite !orb_false_iff, !andb_false_iff.
    repeat split; left; right; apply Nat.eqb_neq; lia. }
  assert (forall x, String.length (trim_start x) <= String.length x) as Hlen.
  { assert (forall n x, String.length x <= n ->
              String.length (trim_start x) <= String.length x) as Hn; [|intros x; by eapply Hn].
    induction n as [|n IH]; intros [|a x] Hx; cbn in Hx; try done; [lia|]. cbn [trim_start].
    destruct (is_ws1 a). { etrans; [apply IH; lia|]. cbn. lia. }
    destruct x as [|b x]; [done|]. destruct (is_ws2 a b).
    { etrans; [apply IH; cbn in Hx; lia|]. cbn. lia. }
    destruct x as [|d x]; [done|]. destruct (is_ws3 a b d); [|done].
    etrans; [apply IH; cbn in Hx; lia|]. cbn. lia. }
  destruct s as [|a s]; [done|]. rewrite str_app_cons. cbn [trim_start] in Ht |- *.
  destruct (is_ws1 a). { pose proof (Hlen s). rewrite Ht in *. cbn in *. lia. }
  destruct s as [|b s].
  { change ("" +:+ String c t)%string with (String c t). cbn. rewrite H2.
    destruct t as [|x t]; [done|]. by rewrite H3'. }
  rewrite str_app_cons.
  destruct (is_ws2 a b). { pose proof (Hlen s). rewrite Ht in *. cbn in *. lia. }
  destruct s as [|d s].
  { change ("" +:+ String c t)%string with (String c t). cbn. by rewrite H3. }
  rewrite str_app_cons.
  destruct (is_ws3 a b d); [|done]. pose proof (Hlen s). rewrite Ht in *. cbn in *. lia.
Qed.

Lemma not_empty_guarded c : is_ws1 c = false -> Ascii.nat_of_ascii c < 128 ->
  forall n s, String.length s <= n -> trim_is_empty (s +:+ String c "") = false.
Proof.
  intros H1 Hc.
  assert (forall a, is_ws2 a c = false) as H2.
  { intros a. unfold is_ws2. apply andb_false_iff. right. apply orb_false_iff.
    split; apply Nat.eqb_neq; lia. }
  assert (forall a b, is_ws3 a b c = false) as H3.
  { intros a b. unfold is_ws3. rewrite !orb_false_iff, !andb_false_iff.
    repeat split; right; rewrite ?orb_false_iff, ?andb_false_iff, ?Nat.leb_gt, ?Nat.eqb_neq; lia. }
  unfold trim_is_empty. induction n as [|n IH]; intros [|a s] Hn; cbn in Hn; try lia.
  1, 2: change ("" +:+ String c "")%string with (String c ""); cbn; by rewrite H1.
  rewrite str_app_cons. cbn [trim_start]. destruct (is_ws1 a); [apply IH; lia|].
  destruct s as [|b s].
  { change ("" +:+ String c "")%string with (String c ""). cbn. by rewrite H2. }
  rewrite str_app_cons. destruct (is_ws2 a b); [apply IH; cbn in Hn; lia|].
  destruct s as [|d s].
  { change ("" +:+ String c "")%string with (String c ""). cbn. by rewrite H3. }
  rewrite str_app_cons. destruct (is_ws3 a b d); [apply IH; cbn in Hn; lia|done].
Qed.

Lemma trim_end_guarded c s : is_ws1 c = false -> Ascii.nat_of_ascii c < 128 ->
  trim_end (s +:+ String c "") = (s +:+ String c "")%string.
Proof.
  intros H1 Hc. induction s as [|a s IH].
  - change ("" +:+ String c "")%string with (String c ""). cbn [trim_end].
    assert (trim_is_empty (String c "") = false) as ->; [|done].
    by apply (not_empty_guarded c H1 Hc 0 "").
  - rewrite str_app_cons. cbn [trim_end]. rewrite <- str_app_cons.
    rewrite (not_empty_guarded c H1 Hc (S (String.length s)) (String a s)) by done.
    by rewrite IH.
Qed.

Lemma trim_start_trimmed s : trim s = s -> trim_start s = s.
Proof.
  assert (forall x, String.length (trim_end x) <= String.length x) as He.
  { induction x as [|a x IHx]; [done|]. cbn [trim_end]. destruct (trim_is_empty _); cbn; lia. }
  assert (forall n x, String.length x <= n ->
            trim_start x = x \/ String.length (trim_start x) < String.length x) as Hs.
  { induction n as [|n IH]; intros [|a x] Hx; cbn in Hx; try (by left); [lia|].
    cbn [trim_start]. destruct (is_ws1 a).
    { right. destruct (IH x ltac:(lia)) as [->|]; cbn; lia. }
    destruct x as [|b x]; [by left|]. destruct (is_ws2 a b).
    { right. cbn in Hx. destruct (IH x ltac:(lia)) as [->|]; cbn; lia. }
    destruct x as [|c x]; [by left|]. destruct (is_ws3 a b c); [|by left].
    right. cbn in Hx. destruct (IH x ltac:(lia)) as [->|]; cbn; lia. }
  intros Ht. destruct (Hs (String.length s) s ltac:(done)) as [|Hlt]; [done|].
  unfold trim in Ht. pose proof (He (trim_start s)) as Hle. rewrite Ht in Hle. lia.
Qed.

Lemma parens_ascii : Ascii.nat_of_ascii paren_open < 128 /\ Ascii.nat_of_ascii paren_close < 128.
Proof. by vm_compute; split; lia. Qed.

Lemma trim_rendered name m :
  name <> EmptyString -> trim name = name -> trim (render_rule name m) = render_rule name m.
Proof.
  intros Hne Ht. unfold trim. unfold render_rule.
  rewrite trim_start_guarded; [|done|by apply trim_start_trimmed|apply parens_ascii].
  rewrite <- str_app_cons, <- str_app_assoc. apply trim_end_guarded; [done|apply parens_ascii].
Qed.

Lemma parse_rendered_matcher m :
  expressible m = true -> parse_rule_matcher (render_matcher m) = m.
Proof.
  unfold expressible, parse_rule_matcher. intros [Ht%String.eqb_eq Hm]%andb_prop.
  rewrite Ht. destruct m as [|s|s]; cbn [render_matcher]; [done| |]; rewrite unescape_escape.
  - apply andb_prop in Hm as [[H1 H2]%andb_prop H3].
    apply negb_true_iff in H1, H2. rewrite H1, H2. apply bool_decide_eq_true in H3.
    by rewrite H3.
  - rewrite strip_suffix_app.
    assert (forall x, String.eqb x "" || String.eqb x "*" = true -> String.length x <= 1) as Hl.
    { intros x [->%String.eqb_eq| ->%String.eqb_eq]%orb_prop; cbn; lia. }
    destruct (_ || _) eqn:E; [|done]. apply Hl in E. rewrite str_length_app in E. cbn in E. lia.
Qed.

(** ** Properties *)

(** A rule means what it says: a rule written from a tool name and a matcher,
    with its parentheses and backslashes escaped, parses back to exactly that
    tool name and matcher. *)
Theorem rule_roundtrip name m :
  plain_name name = true -> expressible m = true ->
  rule_parse (render_rule name m)
    = {| pr_raw := render_rule name m; pr_tool_name := name; pr_matcher := m |}.
Proof.
  intros Hn Hm. unfold plain_name in Hn.
  apply andb_prop in Hn as [[Hne Ht]%andb_prop Hc].
  apply negb_true_iff, String.eqb_neq in Hne. apply String.eqb_eq in Ht.
  unfold rule_parse. rewrite trim_rendered by done.
  rewrite find_last_rendered. unfold find_first_unescaped, render_rule.
  rewrite find_first_plain; [|done|done]. cbn [Nat.add].
  rewrite str_length_app. cbn [String.length]. rewrite str_length_app. cbn [String.length].
  rewrite (proj2 (Nat.eqb_eq _ _)) by lia. rewrite (proj2 (Nat.ltb_lt _ _)) by lia. cbn [andb].
  rewrite substring_prefix, Ht, (proj2 (String.eqb_neq _ _) Hne). cbn [negb]. f_equal.
  replace (name +:+ String paren_open (render_matcher m +:+ String paren_close ""))%string
    with ((name +:+ String paren_open "") +:+ (render_matcher m +:+ String paren_close ""))%string
    by by rewrite str_app_assoc.
  rewrite (substring_drop (name +:+ String paren_open "")); [|rewrite str_length_app; cbn; lia].
  replace (_ - _) with (String.length (render_matcher m)) by lia.
  rewrite substring_prefix. by apply parse_rendered_matcher.
Qed.

Lemma rule_roundtrip_witness :
  rule_parse "bash(rm \(-rf\) /:*)"
    = {| pr_raw := "bash(rm \(-rf\) /:*)"; pr_tool_name := "bash";
         pr_matcher := MatchPrefix "rm (-rf) /" |}.
Proof. exact (rule_roundtrip "bash" (MatchPrefix "rm (-rf) /") eq_refl eq_refl). Defined.


Section RouteProperties.
Context {Value : Type} `{Json Value} (from_str : string -> option Value).

(** Some rule of the list matches the call. *)
Definition some_rule (rules : list PermissionRule) (tool_name input : string) : Prop :=
  exists r, r ∈ rules /\ rule_matches from_str r tool_name input = true.

Lemma find_matching_rule_spec rules tool_name input :
  match find_matching_rule from_str rules tool_name input with
  | Some r => some_rule rules tool_name input
  | None => ~ some_rule rules tool_name input
  end.
Proof.
  unfold find_matching_rule, some_rule.
  destruct (List.find _ _) as [r|] eqn:E.
  - apply List.find_some in E as [E1 E2]. exists r. by rewrite list_elem_of_In.
  - intros (r & E1%list_elem_of_In & E2). pose proof (List.find_none _ _ E r E1) as E3.
    cbn in E3. congruence.
Qed.

(** What decides a route: denials first, then questions, then permission. *)
Definition denied p tool_name input context : Prop :=
  some_rule (pp_deny_rules p) tool_name input \/ pc_override_decision context = Some OvDeny.
Definition questioned p tool_name input context : Prop :=
  some_rule (pp_ask_rules p) tool_name input \/ pc_override_decision context = Some OvAsk.

(** Three exclusive cases characterize the three routes. *)
Inductive route_case (D Q A : Prop) (P : bool) : PermissionPolicyRoute -> Prop :=
| CaseDeny why : D -> route_case D Q A P (RouteHardDeny why)
| CaseAsk why : ~ D -> Q \/ (~ A /\ P = false) -> route_case D Q A P (RouteAsk why)
| CaseAllow (standing : bool) why :
    ~ D -> ~ Q -> (if standing then A else ~ A /\ P = true) ->
    route_case D Q A P (RouteAllow standing why).

Lemma route_case_spec D Q A P route : route_case D Q A P route ->
  ((exists why, route = RouteHardDeny why) <-> D) /\
  ((exists why, route = RouteAsk why) <-> ~ D /\ (Q \/ (~ A /\ P = false))) /\
  (forall standing, (exists why, route = RouteAllow standing why) <->
     ~ D /\ ~ Q /\ (if standing then A else ~ A) /\ (A \/ P = true)).
Proof.
  intros [why HD|why HD HQ|st why HD HQ HA].
  - split; [|split]; [split; eauto|split|intros b; split].
    + by intros [? [=]].
    + by intros [? _].
    + by intros [? [=]].
    + by intros [? _].
  - split; [|split]; [split|split; eauto|intros b; split].
    + by intros [? [=]].
    + done.
    + by intros [? [=]].
    + intros (_ & HQ' & _ & HA). destruct HQ as [?|[HnA HP]]; [done|].
      destruct HA; [done|congruence].
  - split; [|split]; [split|split|intros b; split].
    + by intros [? [=]].
    + done.
    + by intros [? [=]].
    + intros [_ [?|[HnA HP]]]; [done|]. destruct st; [done|]. destruct HA; congruence.
    + intros [w [= -> ->]]. destruct b; [by eauto|]. destruct HA; eauto.
    + intros (_ & _ & Hb & _). destruct st, b; [eauto|done|by destruct HA|eauto].
Qed.

(** The order of precedence a route has to follow. *)
Definition precedence (p : PermissionPolicy) (tool_name input : string) (required : PermissionMode)
    (context : PermissionContext) (route : PermissionPolicyRoute) : Prop :=
  let denied := denied p tool_name input context in
  let questioned := questioned p tool_name input context in
  let allowed := some_rule (pp_allow_rules p) tool_name input in
  ((exists why, route = RouteHardDeny why) <-> denied) /\
  ((exists why, route = RouteAsk why) <->
     ~ denied /\ (questioned \/ (~ allowed /\ pm_permits (active_mode p) required = false))) /\
  (forall standing, (exists why, route = RouteAllow standing why) <->
     ~ denied /\ ~ questioned /\ (if standing then allowed else ~ allowed) /\
     (allowed \/ pm_permits (active_mode p) required = true)).

Lemma route_precedence p tool_name input required context :
  precedence p tool_name input required context
    (route_required_with_context from_str p tool_name input required context).
Proof.
  unfold precedence. cbn zeta. apply route_case_spec. unfold route_required_with_context, denied, questioned.
  pose proof (find_matching_rule_spec (pp_deny_rules p) tool_name input) as Hd.
  pose proof (find_matching_rule_spec (pp_ask_rules p) tool_name input) as Ha.
  pose proof (find_matching_rule_spec (pp_allow_rules p) tool_name input) as Hs.
  destruct (find_matching_rule _ (pp_deny_rules p) _ _) as [rd|]; [by constructor; left|].
  case_bool_decide as Hod; [by constructor; right|].
  assert (~ (some_rule (pp_deny_rules p) tool_name input
             \/ pc_override_decision context = Some OvDeny)) as HD by (by intros [?|?]).
  destruct (find_matching_rule _ (pp_ask_rules p) _ _) as [ra|]; [by constructor; [|left; left]|].
  case_bool_decide as Hoa; [by constructor; [|left; right]|].
  assert (~ (some_rule (pp_ask_rules p) tool_name input
             \/ pc_override_decision context = Some OvAsk)) as HQ by (by intros [?|?]).
  destruct (find_matching_rule _ (pp_allow_rules p) _ _) as [rs|].
  - rewrite bool_decide_true by eauto. by constructor.
  - rewrite bool_decide_false by (by intros [? [=]]). cbn [orb].
    destruct (pm_permits _ _); [by constructor|].
    destruct (_ && _); constructor; auto.
Qed.

(** Precedence of the permission policy.  A call is hard denied exactly when
    a deny rule matches or a hook denies it, whatever the other rules, the hook
    and the mode say; otherwise it is asked when an ask rule or a hook asks, or
    when no allow rule matches and the active mode does not reach the required
    mode; and it is allowed in all other cases, as a standing grant exactly when
    an allow rule matches.  A hook that allows decides nothing. *)
Theorem permission_route_precedence p tool_name input required context :
  precedence p tool_name input required context
    (route_required_with_context from_str p tool_name input required context).
Proof. apply route_precedence. Qed.

Lemma minimum_mode_rank a b : pm_rank (minimum_mode a b) = N.min (pm_rank a) (pm_rank b).
Proof. by destruct a, b. Qed.

(** A delegated policy stays under its ceiling.  Whatever session policy a
    delegated agent observes, and whatever revision it moves to, a call that no
    standing grant covers is allowed only when its required mode is within both
    the live session mode and the immutable ceiling of the delegation. *)
Theorem delegated_ceiling_holds p ceiling snapshot tool_name input required context why :
  route_required_with_context from_str
    (bound_to_snapshot snapshot (with_immutable_ceiling ceiling p))
    tool_name input required context = RouteAllow false why ->
  (pm_rank required <= pm_rank ceiling)%N /\
  (pm_rank required <= pm_rank (sp_permission_mode snapshot))%N.
Proof.
  intros Hr.
  destruct (route_precedence (bound_to_snapshot snapshot (with_immutable_ceiling ceiling p))
              tool_name input required context) as (_ & _ & Ha).
  destruct (proj1 (Ha false) ltac:(eauto)) as (_ & _ & Hna & [?|Hp]); [done|].
  unfold pm_permits, active_mode in Hp. cbn in Hp. apply N.leb_le in Hp.
  rewrite minimum_mode_rank in Hp. lia.
Qed.
End RouteProperties.

(** *** The live control of a session *)

Fixpoint control_run (writes : list SessionExecutionPolicy) (current : SessionExecutionPolicy) :
  SessionExecutionPolicy :=
  match writes with
  | [] => current
  | w :: writes => control_run writes (control_replace w current).2
  end.

Lemma control_replace_step w current :
  let next := (control_replace w current).2 in
  (sp_revision current <= sp_revision next)%N /\
  (sp_revision next = sp_revision current -> next = current).
Proof.
  cbn zeta. unfold control_replace.
  destruct (sp_revision w <? sp_revision current)%N eqn:E1; [done|].
  apply N.ltb_ge in E1. destruct (sp_revision w =? sp_revision current)%N eqn:E2; cbn [andb].
  - by case_bool_decide as Ec; cbn; [subst|].
  - apply N.eqb_neq in E2. cbn. split; [lia|done].
Qed.

(** The policy revision of a session names one policy.  Over any sequence of
    attempts to replace the live policy the revision never decreases, and as
    long as it stays the same the whole policy is the same. *)
Theorem control_revision_monotone writes current :
  let final := control_run writes current in
  (sp_revision current <= sp_revision final)%N /\
  (sp_revision final = sp_revision current -> final = current).
Proof.
  cbn zeta. revert current. induction writes as [|w writes IH]; intros current; cbn [control_run].
  { done. }
  destruct (control_replace_step w current) as [H1 H2]. destruct (IH (control_replace w current).2) as [H3 H4].
  split; [lia|]. intros E. rewrite H4 by lia. apply H2. lia.
Qed.
