(* ===== verification/Negotiator.v ===== *)
(** * Authorization leases

    [runtime/src/policy/authorization_negotiator.rs] with the lease types of
    [harness-contract/src/policy/mod.rs]: the normalization of an effect, the
    decision whether a call is authorized, and the registry of leases with its
    transition evidence and recovery claims.

    Every site that reads the clock or draws a uuid has its own index in the
    streams [clk] and [uuid].  The process secret, [serde_json::to_vec] and the
    hash are parameters. *)

From S2P Require Import Prelude Facts Contract Ports Approval Permissions.

(** ** Data *)

Inductive RiskLevel := RlLow | RlMedium | RlHigh | RlCritical.

Inductive CapabilityGapKind :=
| GkMissingLease | GkScopeMismatch | GkPermissionCeiling | GkApprovalRequired | GkHardDenied
| GkCapabilityUnavailable.

Inductive AuthorizationPath :=
| PathExistingLease | PathStandingGrant | PathPolicyAutoGrant | PathSafeAlternate | PathHumanApproval
| PathHardDeny.

Inductive AuthorizationLeaseStatus := LsActive | LsExhausted | LsExpired | LsRevoked.
Inductive AuthorizationLeaseTransitionKind := TkIssued | TkConsumed | TkExpired | TkRevoked.

#[export] Instance RiskLevel_eq_dec : EqDecision RiskLevel.
Proof. solve_decision. Defined.
#[export] Instance CapabilityGapKind_eq_dec : EqDecision CapabilityGapKind.
Proof. solve_decision. Defined.
#[export] Instance AuthorizationPath_eq_dec : EqDecision AuthorizationPath.
Proof. solve_decision. Defined.
#[export] Instance AuthorizationLeaseStatus_eq_dec : EqDecision AuthorizationLeaseStatus.
Proof. solve_decision. Defined.
#[export] Instance AuthorizationLeaseTransitionKind_eq_dec :
  EqDecision AuthorizationLeaseTransitionKind.
Proof. solve_decision. Defined.

Record AuthorizationLease := {
  al_lease_id : string;
  al_principal_id : string;
  al_parent_lease_id : option string;
  al_capability : string;
  al_scopes : list PermissionScope;
  al_ceiling : PermissionMode;
  al_issued_at_ms : N;
  al_expires_at_ms : N;
  al_max_uses : N;
  al_remaining_uses : N;
  al_idempotency_key : string;
  al_policy_revision : N;
  al_effect_descriptor_hash : string;
  al_signature : string;
  al_status : AuthorizationLeaseStatus
}.

Record AuthorizationLeaseTransition := {
  lt_transition_id : string;
  lt_kind : AuthorizationLeaseTransitionKind;
  lt_lease : AuthorizationLease;
  lt_idempotency_key : option string;
  lt_occurred_at_ms : N;
  lt_evidence : string
}.

Record CapabilityGap := {
  cg_fingerprint : string;
  cg_kind : CapabilityGapKind;
  cg_capability : string;
  cg_requested_scopes : list PermissionScope;
  cg_required_mode : PermissionMode;
  cg_active_ceiling : PermissionMode;
  cg_parent_ceiling : PermissionMode;
  cg_reason : string;
  cg_safe_alternatives : list string;
  cg_recoverable : bool
}.

Record CapabilityAssessment := {
  ca_assessment_id : string;
  ca_capability : string;
  ca_effect : EffectAssessment;
  ca_requested_scopes : list PermissionScope;
  ca_required_mode : PermissionMode;
  ca_active_ceiling : PermissionMode;
  ca_parent_ceiling : PermissionMode;
  ca_risk : RiskLevel;
  ca_path : AuthorizationPath;
  ca_lease : option AuthorizationLease;
  ca_gap : option CapabilityGap;
  ca_evidence_refs : list string;
  ca_assessed_at_ms : N
}.

Record AuthorizationRequest := {
  ar_principal_id : string;
  ar_capability : string;
  ar_input : string;
  ar_idempotency_key : string;
  ar_effect : ToolEffectDescriptor;
  ar_parent_ceiling : PermissionMode;
  ar_parent_lease_id : option string;
  ar_policy_revision : N;
  ar_recovery_scope : string;
  ar_context : PermissionContext;
  ar_safe_alternatives : list string
}.

Record EffectiveToolAuthorizationDescriptor := {
  ed_descriptor : ToolEffectDescriptor;
  ed_fingerprint : string
}.

Record LeaseRegistry := {
  lr_leases : gmap string AuthorizationLease;
  lr_lease_by_fingerprint : gmap string string;
  lr_fingerprint_by_lease : gmap string string;
  lr_consumed : gset (string * string);
  lr_revoked : gset string;
  lr_recovery_claims : gmap string string;
  lr_transitions : list AuthorizationLeaseTransition;
  lr_awaiting : list AuthorizationLeaseTransition
}.

#[export] Instance AuthorizationLease_eq_dec : EqDecision AuthorizationLease.
Proof. solve_decision. Defined.
#[export] Instance AuthorizationLeaseTransition_eq_dec : EqDecision AuthorizationLeaseTransition.
Proof. solve_decision. Defined.

(** [LeaseRegistry::new] *)
Definition lease_registry_new : LeaseRegistry :=
  {| lr_leases := ∅; lr_lease_by_fingerprint := ∅; lr_fingerprint_by_lease := ∅;
     lr_consumed := ∅; lr_revoked := ∅; lr_recovery_claims := ∅; lr_transitions := [];
     lr_awaiting := [] |}.

(** [AuthorizationLease::is_active_at], [permits] *)
Definition lease_active_at (l : AuthorizationLease) (now : N) : bool :=
  bool_decide (al_status l = LsActive) && (0 <? al_remaining_uses l)%N
  && (now <=? al_expires_at_ms l)%N.

Definition lease_permits (l : AuthorizationLease) (capability : string)
    (required : PermissionMode) : bool :=
  String.eqb (al_capability l) capability && pm_permits (al_ceiling l) required.

(** ** Updates of a lease and of the registry *)

Definition with_lease_status (st : AuthorizationLeaseStatus) (l : AuthorizationLease) :
  AuthorizationLease :=
  {| al_lease_id := al_lease_id l; al_principal_id := al_principal_id l;
     al_parent_lease_id := al_parent_lease_id l; al_capability := al_capability l;
     al_scopes := al_scopes l; al_ceiling := al_ceiling l; al_issued_at_ms := al_issued_at_ms l;
     al_expires_at_ms := al_expires_at_ms l; al_max_uses := al_max_uses l;
     al_remaining_uses := al_remaining_uses l; al_idempotency_key := al_idempotency_key l;
     al_policy_revision := al_policy_revision l;
     al_effect_descriptor_hash := al_effect_descriptor_hash l; al_signature := al_signature l;
     al_status := st |}.

(** [remaining_uses.saturating_sub(1)], and [Exhausted] at zero. *)
Definition use_lease (l : AuthorizationLease) : AuthorizationLease :=
  {| al_lease_id := al_lease_id l; al_principal_id := al_principal_id l;
     al_parent_lease_id := al_parent_lease_id l; al_capability := al_capability l;
     al_scopes := al_scopes l; al_ceiling := al_ceiling l; al_issued_at_ms := al_issued_at_ms l;
     al_expires_at_ms := al_expires_at_ms l; al_max_uses := al_max_uses l;
     al_remaining_uses := al_remaining_uses l - 1; al_idempotency_key := al_idempotency_key l;
     al_policy_revision := al_policy_revision l;
     al_effect_descriptor_hash := al_effect_descriptor_hash l; al_signature := al_signature l;
     al_status := if (al_remaining_uses l - 1 =? 0)%N then LsExhausted else al_status l |}.

(** [execution_snapshot] *)
Definition execution_snapshot (l : AuthorizationLease) (idempotency_key : string) :
  AuthorizationLease :=
  {| al_lease_id := al_lease_id l; al_principal_id := al_principal_id l;
     al_parent_lease_id := al_parent_lease_id l; al_capability := al_capability l;
     al_scopes := al_scopes l; al_ceiling := al_ceiling l; al_issued_at_ms := al_issued_at_ms l;
     al_expires_at_ms := al_expires_at_ms l; al_max_uses := al_max_uses l;
     al_remaining_uses := 1; al_idempotency_key := idempotency_key;
     al_policy_revision := al_policy_revision l;
     al_effect_descriptor_hash := al_effect_descriptor_hash l; al_signature := al_signature l;
     al_status := LsActive |}.

Definition set_leases (leases : gmap string AuthorizationLease)
    (transitions : list AuthorizationLeaseTransition) (r : LeaseRegistry) : LeaseRegistry :=
  {| lr_leases := leases; lr_lease_by_fingerprint := lr_lease_by_fingerprint r;
     lr_fingerprint_by_lease := lr_fingerprint_by_lease r; lr_consumed := lr_consumed r;
     lr_revoked := lr_revoked r; lr_recovery_claims := lr_recovery_claims r;
     lr_transitions := lr_transitions r ++ transitions; lr_awaiting := lr_awaiting r |}.

Definition set_queues (transitions awaiting : list AuthorizationLeaseTransition)
    (r : LeaseRegistry) : LeaseRegistry :=
  {| lr_leases := lr_leases r; lr_lease_by_fingerprint := lr_lease_by_fingerprint r;
     lr_fingerprint_by_lease := lr_fingerprint_by_lease r; lr_consumed := lr_consumed r;
     lr_revoked := lr_revoked r; lr_recovery_claims := lr_recovery_claims r;
     lr_transitions := transitions; lr_awaiting := awaiting |}.

Definition set_claims (claims : gmap string string) (r : LeaseRegistry) : LeaseRegistry :=
  {| lr_leases := lr_leases r; lr_lease_by_fingerprint := lr_lease_by_fingerprint r;
     lr_fingerprint_by_lease := lr_fingerprint_by_lease r; lr_consumed := lr_consumed r;
     lr_revoked := lr_revoked r; lr_recovery_claims := claims;
     lr_transitions := lr_transitions r; lr_awaiting := lr_awaiting r |}.

Definition add_consumed (key : string * string) (r : LeaseRegistry) : LeaseRegistry :=
  {| lr_leases := lr_leases r; lr_lease_by_fingerprint := lr_lease_by_fingerprint r;
     lr_fingerprint_by_lease := lr_fingerprint_by_lease r; lr_consumed := {[key]} ∪ lr_consumed r;
     lr_revoked := lr_revoked r; lr_recovery_claims := lr_recovery_claims r;
     lr_transitions := lr_transitions r; lr_awaiting := lr_awaiting r |}.

Definition add_revoked (id : string) (r : LeaseRegistry) : LeaseRegistry :=
  {| lr_leases := lr_leases r; lr_lease_by_fingerprint := lr_lease_by_fingerprint r;
     lr_fingerprint_by_lease := lr_fingerprint_by_lease r; lr_consumed := lr_consumed r;
     lr_revoked := {[id]} ∪ lr_revoked r; lr_recovery_claims := lr_recovery_claims r;
     lr_transitions := lr_transitions r; lr_awaiting := lr_awaiting r |}.

Definition add_fingerprint (fingerprint id : string) (r : LeaseRegistry) : LeaseRegistry :=
  {| lr_leases := lr_leases r;
     lr_lease_by_fingerprint := <[fingerprint := id]> (lr_lease_by_fingerprint r);
     lr_fingerprint_by_lease := <[id := fingerprint]> (lr_fingerprint_by_lease r);
     lr_consumed := lr_consumed r; lr_revoked := lr_revoked r;
     lr_recovery_claims := lr_recovery_claims r; lr_transitions := lr_transitions r;
     lr_awaiting := lr_awaiting r |}.

(** [lease_transition] *)
Definition lease_transition (id : string) (at_ms : N) (kind : AuthorizationLeaseTransitionKind)
    (l : AuthorizationLease) (key : option string) (evidence : string) :
  AuthorizationLeaseTransition :=
  {| lt_transition_id := "authorization-transition-" +:+ id; lt_kind := kind; lt_lease := l;
     lt_idempotency_key := key; lt_occurred_at_ms := at_ms; lt_evidence := evidence |}.

(** ** The assessed effect *)

(** [EffectAssessment::default] *)
Definition effect_assessment_default : EffectAssessment :=
  {| ea_reversibility := ErUnknown; ea_externality := EeUnknown; ea_data_sensitivity := DcInternal;
     ea_novelty := EnUnknown; ea_blast_radius := EbUnknown |}.

(** [normalized_effect_assessment] *)
Definition normalized_effect_assessment (d : ToolEffectDescriptor) : EffectAssessment :=
  if negb (bool_decide (td_assessment d = effect_assessment_default)) then td_assessment d
  else match td_effect_kind d with
  | TeRead =>
      {| ea_reversibility := ErReversible; ea_externality := EeInternal;
         ea_data_sensitivity := DcInternal; ea_novelty := EnRoutine; ea_blast_radius := EbItem |}
  | TeWrite =>
      {| ea_reversibility := ErCompensatable; ea_externality := EeWorkspace;
         ea_data_sensitivity := DcInternal; ea_novelty := EnRoutine;
         ea_blast_radius := EbWorkspace |}
  | TeNetwork =>
      {| ea_reversibility := ErReversible; ea_externality := EeNetworkRead;
         ea_data_sensitivity := DcPublic; ea_novelty := EnRoutine; ea_blast_radius := EbItem |}
  | TeProcess | TePackage =>
      {| ea_reversibility := ErCompensatable; ea_externality := EeWorkspace;
         ea_data_sensitivity := DcInternal; ea_novelty := EnNewTarget;
         ea_blast_radius := EbWorkspace |}
  | TeSystem | TeDestructive | TeUnknown =>
      {| ea_reversibility := ErUnknown; ea_externality := EeSystem;
         ea_data_sensitivity := DcInternal; ea_novelty := EnUnknown;
         ea_blast_radius := EbSystem |}
  end.

(** [required_mode_for_effect] *)
Definition required_mode_for_effect (d : ToolEffectDescriptor) (a : EffectAssessment) :
  PermissionMode :=
  let assessed_mode :=
    if match ea_externality a with EeSystem | EeExternalMutation => true | _ => false end
       || bool_decide (ea_reversibility a = ErIrreversible)
       || bool_decide (ea_data_sensitivity a = DcSecret)
    then PmDangerFullAccess
    else if bool_decide (ea_externality a = EeWorkspace)
       || match td_effect_kind d with TeWrite | TeProcess | TePackage => true | _ => false end
    then PmWorkspaceWrite
    else if bool_decide (ea_externality a = EeNetworkRead)
       && bool_decide (ea_data_sensitivity a = DcPublic)
    then PmReadOnly
    else td_required_permission d in
  if (pm_rank assessed_mode <=? pm_rank (td_required_permission d))%N
  then td_required_permission d else assessed_mode.

(** The derived orders of [EffectBlastRadius] and [RiskLevel]. *)
Definition blast_rank (b : EffectBlastRadius) : N :=
  match b with
  | EbItem => 0 | EbWorkspace => 1 | EbExternalAccount => 2 | EbSystem => 3 | EbUnbounded => 4
  | EbUnknown => 5
  end.

Definition risk_level_rank (r : RiskLevel) : N :=
  match r with RlLow => 0 | RlMedium => 1 | RlHigh => 2 | RlCritical => 3 end.

(** [risk_for_effect] *)
Definition risk_for_effect (a : EffectAssessment) : RiskLevel :=
  if (blast_rank EbSystem <=? blast_rank (ea_blast_radius a))%N
     || bool_decide (ea_reversibility a = ErIrreversible)
  then RlCritical
  else if bool_decide (ea_externality a = EeExternalMutation)
     || bool_decide (ea_data_sensitivity a = DcSecret)
     || bool_decide (ea_blast_radius a = EbExternalAccount)
  then RlHigh
  else if bool_decide (ea_externality a = EeWorkspace)
     || bool_decide (ea_data_sensitivity a = DcConfidential)
     || bool_decide (ea_novelty a = EnNewCapability)
  then RlMedium
  else RlLow.

(** [requires_human_boundary] *)
Definition requires_human_boundary (a : EffectAssessment) (risk : RiskLevel)
    (approval_class : ToolApprovalClass) : bool :=
  bool_decide (approval_class = TaAdministrator) || bool_decide (approval_class = TaUser)
  || (risk_level_rank RlHigh <=? risk_level_rank risk)%N
  || bool_decide (ea_externality a = EeExternalMutation)
  || bool_decide (ea_data_sensitivity a = DcSecret).

(** [lease_scopes_cover] *)
Definition lease_scopes_cover (l : AuthorizationLease) (requested : list PermissionScope) : bool :=
  forallb (fun s => memb (al_scopes l) s) requested.

(** [validate_approval_grant]; [now] is the clock at the expiry check. *)
Definition validate_approval_grant (g : ApprovalGrant) (r : AuthorizationRequest)
    (descriptor_hash : string) (now : N) : Result string unit :=
  _ ← guard_err (negb (bool_decide (gt_status g = AgActive))) "approval grant is not active"%string;
  _ ← guard_err (match gt_expires_at_ms g with Some d => (d <? now)%N | None => false end)
        "approval grant expired"%string;
  _ ← guard_err ((ar_policy_revision r =? 0)%N
                 || negb (gt_policy_revision g =? ar_policy_revision r)%N)
        "approval grant policy revision mismatch"%string;
  _ ← guard_err (negb (String.eqb (gt_capability g) (ar_capability r)))
        "approval grant capability mismatch"%string;
  _ ← guard_err (match gt_invocation_id g with
                 | Some i => negb (String.eqb i (ar_idempotency_key r)) | None => false end)
        "approval grant invocation mismatch"%string;
  _ ← guard_err (negb (bool_decide (gt_effect_descriptor_hash g = Some descriptor_hash)))
        "approval grant effect descriptor mismatch"%string;
  guard_err (negb (bool_decide (gt_resource_targets g = []))
             && negb (forallb (fun s => match ps_target s with
                                        | Some t => memb (gt_resource_targets g) t
                                        | None => false
                                        end) (td_scopes (ar_effect r))))
    "approval grant resource scope mismatch"%string.

(** ** Signatures and fingerprints *)

Class AuthorizationJson (Value : Type) := {
  scopes_to_value : list PermissionScope -> Value;
  mode_to_value : PermissionMode -> Value;
  option_string_to_value : option string -> Value;
  effect_kind_to_value : ToolEffectKind -> Value;
  idempotency_to_value : ToolIdempotency -> Value;
  approval_class_to_value : ToolApprovalClass -> Value;
  assessment_to_value : EffectAssessment -> Value;
  transition_to_value : AuthorizationLeaseTransition -> Value;
  (** [serde_json::to_vec(..).unwrap_or_default()] *)
  to_vec : Value -> string
}.

Section Registry.
Context {Value : Type} `{Json Value} `{Digest Value} `{AuthorizationJson Value}.
Context (secret : string) (from_str : string -> option Value).

(** [AuthorizationNegotiator::sign], [verify_lease_signature] *)
Definition sign (l : AuthorizationLease) : string :=
  "sha256:" +:+ sha256_hex (secret +:+ to_vec (value_object
    [("lease_id", value_string (al_lease_id l)); ("principal_id", value_string (al_principal_id l));
     ("parent_lease_id", option_string_to_value (al_parent_lease_id l));
     ("capability", value_string (al_capability l)); ("scopes", scopes_to_value (al_scopes l));
     ("ceiling", mode_to_value (al_ceiling l)); ("issued_at_ms", value_u64 (al_issued_at_ms l));
     ("expires_at_ms", value_u64 (al_expires_at_ms l)); ("max_uses", value_u64 (al_max_uses l));
     ("policy_revision", value_u64 (al_policy_revision l));
     ("effect_descriptor_hash", value_string (al_effect_descriptor_hash l))]%string)).

Definition verify_lease_signature (l : AuthorizationLease) : bool :=
  negb (String.eqb (al_signature l) "") && String.eqb (al_signature l) (sign l).

(** [capability_fingerprint] *)
Definition capability_fingerprint (r : AuthorizationRequest) (required_mode : PermissionMode) :
  string :=
  "sha256:" +:+ sha256_hex (to_vec (value_object
    [("principal", value_string (ar_principal_id r));
     ("capability", value_string (ar_capability r));
     ("scopes", scopes_to_value (td_scopes (ar_effect r)));
     ("required_mode", mode_to_value required_mode);
     ("parent_ceiling", mode_to_value (ar_parent_ceiling r));
     ("recovery_scope", value_string (ar_recovery_scope r));
     ("effect_descriptor", value_string (td_descriptor_hash (ar_effect r)));
     ("input_digest", value_string (sha256_hex (ar_input r)))]%string)).

(** [compile_effective_descriptor] *)
Definition compile_effective_descriptor (d : ToolEffectDescriptor) (input : string) :
  EffectiveToolAuthorizationDescriptor :=
  let assessment := normalized_effect_assessment d in
  let required_mode := required_mode_for_effect d assessment in
  let descriptor :=
    {| td_tool_id := td_tool_id d; td_descriptor_hash := td_descriptor_hash d;
       td_effect_kind := td_effect_kind d; td_idempotency := td_idempotency d;
       td_scopes := td_scopes d; td_required_permission := required_mode;
       td_approval_class := td_approval_class d; td_uses_network := td_uses_network d;
       td_spawns_process := td_spawns_process d; td_mutates_packages := td_mutates_packages d;
       td_mutates_system := td_mutates_system d; td_assessment := assessment |} in
  {| ed_descriptor := descriptor;
     ed_fingerprint :=
       "sha256:" +:+ sha256_hex (to_vec (value_object
         [("tool_id", value_string (td_tool_id d));
          ("registered_descriptor_hash", value_string (td_descriptor_hash d));
          ("effect_kind", effect_kind_to_value (td_effect_kind d));
          ("idempotency", idempotency_to_value (td_idempotency d));
          ("scopes", scopes_to_value (td_scopes d));
          ("required_mode", mode_to_value required_mode);
          ("approval_class", approval_class_to_value (td_approval_class d));
          ("assessment", assessment_to_value assessment);
          ("input_digest", value_string (sha256_hex input))]%string)) |}.

(** [request.effect = effective.descriptor] *)
Definition with_effect (d : ToolEffectDescriptor) (r : AuthorizationRequest) :
  AuthorizationRequest :=
  {| ar_principal_id := ar_principal_id r; ar_capability := ar_capability r;
     ar_input := ar_input r; ar_idempotency_key := ar_idempotency_key r; ar_effect := d;
     ar_parent_ceiling := ar_parent_ceiling r; ar_parent_lease_id := ar_parent_lease_id r;
     ar_policy_revision := ar_policy_revision r; ar_recovery_scope := ar_recovery_scope r;
     ar_context := ar_context r; ar_safe_alternatives := ar_safe_alternatives r |}.

(** ** Leases *)

(** [issue_and_consume] *)
Definition lease_max_uses (path : AuthorizationPath) (required_mode : PermissionMode) : N :=
  match path with
  | PathStandingGrant => 64
  | PathPolicyAutoGrant => if bool_decide (required_mode = PmReadOnly) then 32 else 1
  | _ => 1
  end.

Definition lease_ttl_ms (path : AuthorizationPath) : N :=
  match path with
  | PathHumanApproval => 30 * 60 * 1000
  | PathStandingGrant => 60 * 60 * 1000
  | _ => 15 * 60 * 1000
  end.

Definition new_lease (id : string) (r : AuthorizationRequest)
    (required_mode active_ceiling : PermissionMode) (path : AuthorizationPath) (now : N) :
  AuthorizationLease :=
  let uses := lease_max_uses path required_mode in
  let unsigned :=
    {| al_lease_id := "authorization-lease-" +:+ id; al_principal_id := ar_principal_id r;
       al_parent_lease_id := ar_parent_lease_id r; al_capability := ar_capability r;
       al_scopes := td_scopes (ar_effect r); al_ceiling := active_ceiling; al_issued_at_ms := now;
       al_expires_at_ms := u64_saturating_add now (lease_ttl_ms path); al_max_uses := uses;
       al_remaining_uses := uses; al_idempotency_key := ar_idempotency_key r;
       al_policy_revision := ar_policy_revision r;
       al_effect_descriptor_hash := td_descriptor_hash (ar_effect r); al_signature := "";
       al_status := LsActive |} in
  {| al_lease_id := al_lease_id unsigned; al_principal_id := al_principal_id unsigned;
     al_parent_lease_id := al_parent_lease_id unsigned; al_capability := al_capability unsigned;
     al_scopes := al_scopes unsigned; al_ceiling := al_ceiling unsigned;
     al_issued_at_ms := al_issued_at_ms unsigned; al_expires_at_ms := al_expires_at_ms unsigned;
     al_max_uses := al_max_uses unsigned; al_remaining_uses := al_remaining_uses unsigned;
     al_idempotency_key := al_idempotency_key unsigned;
     al_policy_revision := al_policy_revision unsigned;
     al_effect_descriptor_hash := al_effect_descriptor_hash unsigned;
     al_signature := sign unsigned; al_status := LsActive |}.

Definition issue_and_consume (uuid : nat -> string) (clk : nat -> N) (r : AuthorizationRequest)
    (required_mode active_ceiling : PermissionMode) (fingerprint : string)
    (path : AuthorizationPath) (reg : LeaseRegistry) : AuthorizationLease * LeaseRegistry :=
  let issued := new_lease (uuid 0) r required_mode active_ceiling path (clk 0) in
  let id := al_lease_id issued in
  let consumed := use_lease issued in
  let reg := add_consumed (id, ar_idempotency_key r) (add_fingerprint fingerprint id reg) in
  (issued,
   set_leases (<[id := consumed]> (lr_leases reg))
     [lease_transition (uuid 1) (clk 1) TkIssued issued None
        "authorization negotiator issued a scoped lease";
      lease_transition (uuid 2) (clk 2) TkConsumed consumed (Some (ar_idempotency_key r))
        "new authorization lease consumed for the assessed request"] reg).

(** [consume_existing] *)
Definition consume_existing (uuid : nat -> string) (clk : nat -> N) (fingerprint : string)
    (r : AuthorizationRequest) (required_mode : PermissionMode) (reg : LeaseRegistry) :
  option (AuthorizationLease * LeaseRegistry) :=
  id ← lr_lease_by_fingerprint reg !! fingerprint;
  if bool_decide (id ∈ lr_revoked reg) then None
  else
    let key := (id, ar_idempotency_key r) in
    l ← lr_leases reg !! id;
    if bool_decide (key ∈ lr_consumed reg)
    then Some (execution_snapshot l (ar_idempotency_key r), reg)
    else if negb (lease_active_at l (clk 0))
            || negb (lease_permits l (ar_capability r) required_mode)
            || negb (lease_scopes_cover l (td_scopes (ar_effect r)))
            || (al_policy_revision l =? 0)%N
            || negb (al_policy_revision l =? ar_policy_revision r)%N
            || negb (String.eqb (al_effect_descriptor_hash l) (td_descriptor_hash (ar_effect r)))
            || negb (verify_lease_signature l)
    then None
    else
      let used := use_lease l in
      Some (execution_snapshot used (ar_idempotency_key r),
            set_leases (<[id := used]> (lr_leases reg))
              [lease_transition (uuid 1) (clk 1) TkConsumed used (Some (ar_idempotency_key r))
                 "existing authorization lease consumed"] (add_consumed key reg)).

(** ** Assessments *)

(** [authorized_assessment], [gap_assessment], [denied_assessment] *)
Definition authorized_assessment (uuid : nat -> string) (clk : nat -> N) (r : AuthorizationRequest)
    (active_ceiling : PermissionMode) (path : AuthorizationPath) (lease : AuthorizationLease)
    (evidence : string) : CapabilityAssessment :=
  let d := ar_effect r in
  {| ca_assessment_id := "capability-assessment-" +:+ uuid 3; ca_capability := ar_capability r;
     ca_effect := td_assessment d; ca_requested_scopes := td_scopes d;
     ca_required_mode := td_required_permission d; ca_active_ceiling := active_ceiling;
     ca_parent_ceiling := ar_parent_ceiling r; ca_risk := risk_for_effect (td_assessment d);
     ca_path := path; ca_lease := Some lease; ca_gap := None; ca_evidence_refs := [evidence];
     ca_assessed_at_ms := clk 3 |}.

Definition gap_assessment (uuid : nat -> string) (clk : nat -> N) (r : AuthorizationRequest)
    (active_ceiling : PermissionMode) (fingerprint : string) (path : AuthorizationPath)
    (kind : CapabilityGapKind) (reason : string) (recoverable : bool) : CapabilityAssessment :=
  let d := ar_effect r in
  {| ca_assessment_id := "capability-assessment-" +:+ uuid 3; ca_capability := ar_capability r;
     ca_effect := td_assessment d; ca_requested_scopes := td_scopes d;
     ca_required_mode := td_required_permission d; ca_active_ceiling := active_ceiling;
     ca_parent_ceiling := ar_parent_ceiling r; ca_risk := risk_for_effect (td_assessment d);
     ca_path := path; ca_lease := None;
     ca_gap := Some {| cg_fingerprint := fingerprint; cg_kind := kind;
                       cg_capability := ar_capability r; cg_requested_scopes := td_scopes d;
                       cg_required_mode := td_required_permission d;
                       cg_active_ceiling := active_ceiling;
                       cg_parent_ceiling := ar_parent_ceiling r; cg_reason := reason;
                       cg_safe_alternatives := ar_safe_alternatives r;
                       cg_recoverable := recoverable |};
     ca_evidence_refs := [reason]; ca_assessed_at_ms := clk 3 |}.

Definition denied_assessment (uuid : nat -> string) (clk : nat -> N) (r : AuthorizationRequest)
    (active_ceiling : PermissionMode) (fingerprint : string) (kind : CapabilityGapKind)
    (reason : string) (recoverable : bool) : CapabilityAssessment :=
  gap_assessment uuid clk r active_ceiling fingerprint PathHardDeny kind reason recoverable.

(** [request.parent_lease_id.is_some() && required > parent_ceiling] *)
Definition exceeds_parent (r : AuthorizationRequest) : bool :=
  bool_decide (is_Some (ar_parent_lease_id r))
  && (pm_rank (ar_parent_ceiling r) <? pm_rank (td_required_permission (ar_effect r)))%N.

(** [assess_compiled] *)
Definition assess_compiled (uuid : nat -> string) (clk : nat -> N) (p : PermissionPolicy)
    (r : AuthorizationRequest) (reg : LeaseRegistry) : CapabilityAssessment * LeaseRegistry :=
  let d := ar_effect r in
  let required_mode := td_required_permission d in
  let risk := risk_for_effect (td_assessment d) in
  let ceiling := active_mode p in
  let fingerprint := capability_fingerprint r required_mode in
  if exceeds_parent r
  then (denied_assessment uuid clk r ceiling fingerprint GkPermissionCeiling
          "requested effect exceeds the parent Mission permission ceiling" false, reg)
  else
    let route := route_required_with_context from_str p (ar_capability r) (ar_input r)
                   required_mode (ar_context r) in
    match route with
    | RouteHardDeny reason =>
        (denied_assessment uuid clk r ceiling fingerprint GkHardDenied reason false, reg)
    | _ =>
        match consume_existing uuid clk fingerprint r required_mode reg with
        | Some (lease, reg) =>
            (authorized_assessment uuid clk r ceiling PathExistingLease lease
               "existing scoped lease", reg)
        | None =>
            let human :=
              requires_human_boundary (td_assessment d) risk (td_approval_class d) in
            match route with
            | RouteAllow standing_grant reason =>
                if human && (negb standing_grant
                             || bool_decide (td_approval_class d = TaAdministrator))
                then (gap_assessment uuid clk r ceiling fingerprint PathHumanApproval
                        GkApprovalRequired "the assessed effect crosses a human approval boundary"
                        true, reg)
                else
                  let path := if standing_grant then PathStandingGrant else PathPolicyAutoGrant in
                  let '(lease, reg) := issue_and_consume uuid clk r required_mode ceiling
                                         fingerprint path reg in
                  (authorized_assessment uuid clk r ceiling path lease reason, reg)
            | RouteAsk reason =>
                if negb (bool_decide (ar_safe_alternatives r = [])) && negb human
                then (gap_assessment uuid clk r ceiling fingerprint PathSafeAlternate
                        GkMissingLease reason true, reg)
                else (gap_assessment uuid clk r ceiling fingerprint PathHumanApproval
                        GkApprovalRequired reason true, reg)
            | RouteHardDeny reason =>
                (denied_assessment uuid clk r ceiling fingerprint GkHardDenied reason false, reg)
            end
        end
    end.

(** [assess_effective] *)
Definition assess_effective (uuid : nat -> string) (clk : nat -> N) (p : PermissionPolicy)
    (r : AuthorizationRequest) (reg : LeaseRegistry) :
  EffectiveToolAuthorizationDescriptor * CapabilityAssessment * LeaseRegistry :=
  let effective := compile_effective_descriptor (ar_effect r) (ar_input r) in
  let '(assessment, reg) :=
    assess_compiled uuid clk p (with_effect (ed_descriptor effective) r) reg in
  (effective, assessment, reg).

(** [approve_effective]; [clk 4] is the clock at the grant's expiry check. *)
Definition approve_effective (uuid : nat -> string) (clk : nat -> N) (p : PermissionPolicy)
    (r : AuthorizationRequest) (effective : EffectiveToolAuthorizationDescriptor)
    (g : ApprovalGrant) (reg : LeaseRegistry) : CapabilityAssessment * LeaseRegistry :=
  let r := with_effect (ed_descriptor effective) r in
  let required_mode := td_required_permission (ar_effect r) in
  let ceiling := active_mode p in
  let fingerprint := capability_fingerprint r required_mode in
  match validate_approval_grant g r (td_descriptor_hash (ed_descriptor effective)) (clk 4) with
  | Err reason =>
      (denied_assessment uuid clk r ceiling fingerprint GkApprovalRequired reason true, reg)
  | Ok _ =>
      if exceeds_parent r
      then (denied_assessment uuid clk r ceiling fingerprint GkPermissionCeiling
              "human approval cannot widen the parent Mission permission ceiling" false, reg)
      else
        match route_required_with_context from_str p (ar_capability r) (ar_input r)
                required_mode (ar_context r) with
        | RouteHardDeny reason =>
            (denied_assessment uuid clk r ceiling fingerprint GkHardDenied reason false, reg)
        | _ =>
            let '(lease, reg) := issue_and_consume uuid clk r required_mode ceiling fingerprint
                                   PathHumanApproval reg in
            (authorized_assessment uuid clk r ceiling PathHumanApproval lease
               ("verified human approval `" +:+ gt_grant_id g +:+ "`"), reg)
        end
  end.
End Registry.

(** ** The life of a lease *)

(** [revoke] *)
Definition lease_revoke (uuid : string) (now : N) (id : string) (reg : LeaseRegistry) :
  bool * LeaseRegistry :=
  match lr_leases reg !! id with
  | None => (false, reg)
  | Some l =>
      if bool_decide (al_status l = LsRevoked) then (true, reg)
      else
        let revoked := with_lease_status LsRevoked l in
        (true, set_leases (<[id := revoked]> (lr_leases reg))
                 [lease_transition uuid now TkRevoked revoked None
                    "authorization lease explicitly revoked"] (add_revoked id reg))
  end.

(** [reconcile_expirations_at] *)
Definition lapsed (now : N) (l : AuthorizationLease) : bool :=
  bool_decide (al_status l = LsActive) && (al_expires_at_ms l <? now)%N.

Definition reconcile_expirations_at (uuid : nat -> string) (clk : nat -> N) (now : N)
    (reg : LeaseRegistry) : nat * LeaseRegistry :=
  let expire l := if lapsed now l then with_lease_status LsExpired l else l in
  let expired := expire <$> List.filter (lapsed now) (btree_values (lr_leases reg)) in
  let leases := expire <$> lr_leases reg in
  (size (filter (fun kv => al_status kv.2 = LsExpired) leases),
   set_leases leases
     (imap (fun i l => lease_transition (uuid i) (clk i) TkExpired l None
                         "authorization lease TTL elapsed") expired) reg).

(** [drain_transitions], [take_transitions_for_persistence],
    [transitions_awaiting_persistence] *)
Definition drain_transitions (reg : LeaseRegistry) :
  list AuthorizationLeaseTransition * LeaseRegistry :=
  (lr_transitions reg, set_queues [] (lr_awaiting reg) reg).

Definition take_transitions_for_persistence (reg : LeaseRegistry) :
  list AuthorizationLeaseTransition * LeaseRegistry :=
  (lr_transitions reg, set_queues [] (lr_awaiting reg ++ lr_transitions reg) reg).

(** [transition_ends_hot_lease] *)
Definition transition_ends_hot_lease (t : AuthorizationLeaseTransition) : bool :=
  match lt_kind t with
  | TkExpired | TkRevoked => true
  | TkConsumed => bool_decide (al_status (lt_lease t) = LsExhausted)
  | TkIssued => false
  end.

(** [release_terminal_lease] *)
Definition release_terminal_lease (id : string) (reg : LeaseRegistry) : LeaseRegistry :=
  match lr_leases reg !! id with
  | None => reg
  | Some l =>
      if bool_decide (al_status l = LsActive) then reg
      else
        {| lr_leases := delete id (lr_leases reg);
           lr_lease_by_fingerprint :=
             match lr_fingerprint_by_lease reg !! id with
             | Some fingerprint =>
                 if bool_decide (lr_lease_by_fingerprint reg !! fingerprint = Some id)
                 then delete fingerprint (lr_lease_by_fingerprint reg)
                 else lr_lease_by_fingerprint reg
             | None => lr_lease_by_fingerprint reg
             end;
           lr_fingerprint_by_lease := delete id (lr_fingerprint_by_lease reg);
           lr_consumed := filter (fun key => key.1 <> id) (lr_consumed reg);
           lr_revoked := lr_revoked reg ∖ {[id]};
           lr_recovery_claims := lr_recovery_claims reg;
           lr_transitions := lr_transitions reg; lr_awaiting := lr_awaiting reg |}
  end.

(** What acknowledging a persisted transition releases. *)
Definition release_acknowledged (t : AuthorizationLeaseTransition) (reg : LeaseRegistry) :
  LeaseRegistry :=
  if transition_ends_hot_lease t then release_terminal_lease (al_lease_id (lt_lease t)) reg
  else reg.

(** The loop of [acknowledge_persisted_transitions] over the taken queue. *)
Fixpoint acknowledge_loop (selected : gset string) (gap : bool)
    (pending : list AuthorizationLeaseTransition) (acknowledged : nat) (reg : LeaseRegistry) :
  nat * LeaseRegistry :=
  match pending with
  | [] => (acknowledged, reg)
  | t :: pending =>
      if negb gap && bool_decide (lt_transition_id t ∈ selected)
      then acknowledge_loop selected gap pending (S acknowledged) (release_acknowledged t reg)
      else acknowledge_loop selected true pending acknowledged
             (set_queues (lr_transitions reg) (lr_awaiting reg ++ [t]) reg)
  end.

(** [acknowledge_persisted_transitions] *)
Definition acknowledge_persisted_transitions (transition_ids : list string)
    (reg : LeaseRegistry) : nat * LeaseRegistry :=
  let selected : gset string := list_to_set transition_ids in
  if (size selected =? 1)
     && match lr_awaiting reg with
        | t :: _ => bool_decide (lt_transition_id t ∈ selected)
        | [] => false
        end
  then match lr_awaiting reg with
       | t :: rest => (1, release_acknowledged t (set_queues (lr_transitions reg) rest reg))
       | [] => (0, reg)
       end
  else if size selected =? 1 then (0, reg)
  else acknowledge_loop selected false (lr_awaiting reg) 0
         (set_queues (lr_transitions reg) [] reg).

(** ** Recovery claims *)

(** [claim_controlled_recovery], [restore_controlled_recovery_claim] *)
Definition insert_claim (fingerprint scope : string) (reg : LeaseRegistry) : bool * LeaseRegistry :=
  if bool_decide (is_Some (lr_recovery_claims reg !! fingerprint)) then (false, reg)
  else (true, set_claims (<[fingerprint := scope]> (lr_recovery_claims reg)) reg).

Definition claim_controlled_recovery (a : CapabilityAssessment) (scope : string)
    (reg : LeaseRegistry) : bool * LeaseRegistry :=
  match ca_gap a with
  | None => (false, reg)
  | Some gap =>
      if negb (cg_recoverable gap) || negb (starts_with scope "turn:") then (false, reg)
      else insert_claim (cg_fingerprint gap) scope reg
  end.

Definition restore_controlled_recovery_claim (fingerprint scope : string) (reg : LeaseRegistry) :
  bool * LeaseRegistry :=
  if trim_is_empty fingerprint || negb (starts_with scope "turn:") then (false, reg)
  else insert_claim fingerprint scope reg.

(** [controlled_recovery_claims_for_scope] *)
Definition controlled_recovery_claims_for_scope (scope : string) (reg : LeaseRegistry) :
  list string :=
  (List.filter (fun kv => String.eqb kv.2 scope) (btree_entries (lr_recovery_claims reg))).*1.

(** [rollback_unpersisted_controlled_recovery_claim],
    [acknowledge_controlled_recovery_terminals] *)
Definition remove_claim (fingerprint : string) (reg : LeaseRegistry) : bool * LeaseRegistry :=
  (bool_decide (is_Some (lr_recovery_claims reg !! fingerprint)),
   set_claims (delete fingerprint (lr_recovery_claims reg)) reg).

Definition rollback_unpersisted_controlled_recovery_claim := remove_claim.

Fixpoint acknowledge_controlled_recovery_terminals (fingerprints : list string)
    (reg : LeaseRegistry) : nat * LeaseRegistry :=
  match fingerprints with
  | [] => (0, reg)
  | f :: fingerprints =>
      let '(removed, reg) := remove_claim f reg in
      let '(n, reg) := acknowledge_controlled_recovery_terminals fingerprints reg in
      ((if removed then S n else n), reg)
  end.
