(* ===== verification/LeaseSafety.v ===== *)
(** * What the lease registry guarantees

    Runs of the authorization negotiator: any sequence of assessments,
    approvals, revocations, expirations, persistence hand-overs and recovery
    claims.  A run keeps, beside the registry, the evidence emitted so far, the
    evidence acknowledged as durable and the authorizations handed out.  Lease
    uuids are not reused within a run. *)

From S2P Require Import Prelude Facts Contract Ports Approval Permissions Negotiator.

(** ** Acknowledging evidence *)

(** The acknowledged prefix of a queue. *)
Fixpoint selected_prefix (selected : gset string) (pending : list AuthorizationLeaseTransition) :
  nat :=
  match pending with
  | t :: pending =>
      if bool_decide (lt_transition_id t ∈ selected) then S (selected_prefix selected pending)
      else 0
  | [] => 0
  end.

Definition release_all (ts : list AuthorizationLeaseTransition) (reg : LeaseRegistry) :
  LeaseRegistry := fold_left (fun reg t => release_acknowledged t reg) ts reg.

(** What an acknowledgement of the first [n] queued transitions does. *)
Definition acknowledge_first (n : nat) (reg : LeaseRegistry) : LeaseRegistry :=
  set_queues (lr_transitions reg) (drop n (lr_awaiting reg))
    (release_all (take n (lr_awaiting reg)) reg).

Lemma release_queues t a b reg :
  release_acknowledged t (set_queues a b reg) = set_queues a b (release_acknowledged t reg).
Proof.
  unfold release_acknowledged, release_terminal_lease.
  destruct (transition_ends_hot_lease t); [|done]. cbn.
  destruct (lr_leases reg !! al_lease_id (lt_lease t)) as [l|]; [|done].
  by destruct (bool_decide _).
Qed.

Lemma release_all_queues ts a b : forall reg,
  release_all ts (set_queues a b reg) = set_queues a b (release_all ts reg).
Proof.
  induction ts as [|t ts IH]; intros reg; [done|].
  unfold release_all in *. cbn [fold_left]. by rewrite release_queues, IH.
Qed.

Lemma release_same_queues t reg :
  lr_transitions (release_acknowledged t reg) = lr_transitions reg /\
  lr_awaiting (release_acknowledged t reg) = lr_awaiting reg.
Proof.
  unfold release_acknowledged, release_terminal_lease.
  destruct (transition_ends_hot_lease t); [|done].
  destruct (lr_leases reg !! al_lease_id (lt_lease t)) as [l|]; [|done].
  by destruct (bool_decide _).
Qed.

Lemma acknowledge_loop_gap selected pending : forall n reg,
  acknowledge_loop selected true pending n reg
    = (n, set_queues (lr_transitions reg) (lr_awaiting reg ++ pending) reg).
Proof.
  induction pending as [|t pending IH]; intros n reg; cbn.
  - rewrite app_nil_r. by destruct reg.
  - rewrite IH. cbn. by rewrite <- app_assoc.
Qed.

Lemma acknowledge_loop_spec selected pending : forall n reg,
  lr_awaiting reg = [] ->
  acknowledge_loop selected false pending n reg
    = (n + selected_prefix selected pending,
       set_queues (lr_transitions reg) (drop (selected_prefix selected pending) pending)
         (release_all (take (selected_prefix selected pending) pending) reg)).
Proof.
  induction pending as [|t pending IH]; intros n reg Hw; cbn.
  - rewrite Nat.add_0_r. destruct reg; cbn in *. by rewrite Hw.
  - case_bool_decide as Ht.
    + cbn [andb negb]. destruct (release_same_queues t reg) as [H1 H2].
      rewrite IH by (by rewrite H2). rewrite H1. f_equal. lia.
    + cbn [andb negb]. rewrite acknowledge_loop_gap. cbn. rewrite Hw, Nat.add_0_r. done.
Qed.

Lemma acknowledge_spec ids reg :
  NoDup (lt_transition_id <$> lr_awaiting reg) ->
  let n := selected_prefix (list_to_set ids) (lr_awaiting reg) in
  acknowledge_persisted_transitions ids reg = (n, acknowledge_first n reg).
Proof.
  intros Hd. cbn zeta. unfold acknowledge_persisted_transitions, acknowledge_first.
  set (sel := list_to_set ids : gset string).
  destruct (Nat.eqb_spec (size sel) 1) as [Hs|Hs].
  - apply size_1_elem_of in Hs as [x Hx%leibniz_equiv].
    destruct (lr_awaiting reg) as [|t rest] eqn:Hw; cbn [andb selected_prefix].
    { unfold acknowledge_first, release_all. cbn. destruct reg; cbn in *. by rewrite Hw. }
    case_bool_decide as Ht; cbn [andb].
    + assert (selected_prefix sel rest = 0) as ->.
      { destruct rest as [|t2 rest]; [done|]. cbn. rewrite bool_decide_false; [done|].
        rewrite fmap_cons, NoDup_cons in Hd. destruct Hd as [Hd _]. rewrite Hx in *.
        apply elem_of_singleton in Ht. rewrite elem_of_singleton. intros Ht2.
        apply Hd. rewrite Ht, <- Ht2. by left. }
      cbn. by rewrite release_queues.
    + unfold release_all. cbn. destruct reg; cbn in *. by rewrite Hw.
  - cbn [andb]. rewrite acknowledge_loop_spec by done. cbn.
    by rewrite release_all_queues.
Qed.

(** Acknowledgement is first in, first out.  The three branches of
    [acknowledge_persisted_transitions] (the fast path for one id, its refusal,
    and the loop) are one function: they acknowledge the longest prefix of the
    queue whose ids were named, release the leases this ends in order, and keep
    the rest in order; what was named behind a gap stays queued.  Transition ids
    are unique in the queue. *)
Theorem acknowledge_takes_prefix ids reg :
  NoDup (lt_transition_id <$> lr_awaiting reg) ->
  let n := selected_prefix (list_to_set ids) (lr_awaiting reg) in
  acknowledge_persisted_transitions ids reg = (n, acknowledge_first n reg) /\
  (forall t, t ∈ take n (lr_awaiting reg) -> lt_transition_id t ∈ ids) /\
  (forall t, lr_awaiting reg !! n = Some t -> lt_transition_id t ∉ ids) /\
  lr_awaiting (acknowledge_persisted_transitions ids reg).2 = drop n (lr_awaiting reg).
Proof.
  intros Hd n. rewrite acknowledge_spec by done. fold n. split; [done|].
  split; [|split; [|done]]; unfold n; clear.
  - induction (lr_awaiting reg) as [|t l IH]; intros t'; cbn; [by intros ?%not_elem_of_nil|].
    case_bool_decide as Ht; [|by intros ?%not_elem_of_nil]. cbn.
    intros [->|?]%elem_of_cons; [by rewrite elem_of_list_to_set in Ht|auto].
  - induction (lr_awaiting reg) as [|t l IH]; intros t'; cbn; [done|].
    case_bool_decide as Ht; [apply IH|]. intros [= <-]. by rewrite elem_of_list_to_set in Ht.
Qed.

(** Acknowledging one and then [n] more. *)
Lemma acknowledge_first_S n t rest reg :
  lr_awaiting reg = t :: rest ->
  acknowledge_first (S n) reg = acknowledge_first n (acknowledge_first 1 reg).
Proof.
  intros Haw. unfold acknowledge_first. rewrite Haw. cbn [take drop].
  unfold release_all at 1. cbn [fold_left]. fold (release_all (take n rest) (release_acknowledged t reg)).
  cbn [lr_transitions lr_awaiting set_queues]. rewrite !release_all_queues.
  replace (drop 0 rest) with rest by done. done.
Qed.

(** ** Runs *)

Record World := {
  w_reg : LeaseRegistry;
  w_log : list AuthorizationLeaseTransition;
  w_acked : list AuthorizationLeaseTransition;
  w_answers : gset (string * string);
  w_issued : gset string
}.

Definition world_new : World :=
  {| w_reg := lease_registry_new; w_log := []; w_acked := []; w_answers := ∅; w_issued := ∅ |}.

(** An operation that emitted transitions and handed out authorizations. *)
Definition advance (w : World) (reg : LeaseRegistry) (answers : gset (string * string)) : World :=
  {| w_reg := reg;
     w_log := w_log w ++ drop (length (lr_transitions (w_reg w))) (lr_transitions reg);
     w_acked := w_acked w; w_answers := answers ∪ w_answers w;
     w_issued := w_issued w ∪ dom (lr_leases reg) |}.

Definition answers_of (a : CapabilityAssessment) (key : string) : gset (string * string) :=
  match ca_lease a with Some l => {[ (al_lease_id l, key) ]} | None => ∅ end.

Definition lease_name (uuid : string) : string := "authorization-lease-" +:+ uuid.

Section Runs.
Context {Value : Type} `{Json Value} `{Digest Value} `{AuthorizationJson Value}.
Context (secret : string) (from_str : string -> option Value).

Inductive claim_operation (reg : LeaseRegistry) : LeaseRegistry -> Prop :=
| ClaimTake a scope : claim_operation reg (claim_controlled_recovery a scope reg).2
| ClaimRestore f scope : claim_operation reg (restore_controlled_recovery_claim f scope reg).2
| ClaimRollback f : claim_operation reg (rollback_unpersisted_controlled_recovery_claim f reg).2
| ClaimTerminal fs : claim_operation reg (acknowledge_controlled_recovery_terminals fs reg).2.

Inductive lease_step (w : World) : World -> Prop :=
| StepAssess uuid clk p r eff a reg :
    lease_name (uuid 0) ∉ w_issued w ->
    assess_effective secret from_str uuid clk p r (w_reg w) = (eff, a, reg) ->
    lease_step w (advance w reg (answers_of a (ar_idempotency_key r)))
| StepApprove uuid clk p r eff g a reg :
    lease_name (uuid 0) ∉ w_issued w ->
    approve_effective secret from_str uuid clk p r eff g (w_reg w) = (a, reg) ->
    lease_step w (advance w reg (answers_of a (ar_idempotency_key r)))
| StepRevoke uuid now id :
    lease_step w (advance w (lease_revoke uuid now id (w_reg w)).2 ∅)
| StepExpire uuid clk now :
    lease_step w (advance w (reconcile_expirations_at uuid clk now (w_reg w)).2 ∅)
| StepTake :
    lease_step w {| w_reg := (take_transitions_for_persistence (w_reg w)).2; w_log := w_log w;
                    w_acked := w_acked w; w_answers := w_answers w; w_issued := w_issued w |}
| StepAcknowledge ids :
    NoDup (lt_transition_id <$> lr_awaiting (w_reg w)) ->
    lease_step w
      {| w_reg := (acknowledge_persisted_transitions ids (w_reg w)).2; w_log := w_log w;
         w_acked := w_acked w
           ++ take (acknowledge_persisted_transitions ids (w_reg w)).1 (lr_awaiting (w_reg w));
         w_answers := w_answers w; w_issued := w_issued w |}
| StepClaim reg :
    claim_operation (w_reg w) reg ->
    lease_step w {| w_reg := reg; w_log := w_log w; w_acked := w_acked w;
                    w_answers := w_answers w; w_issued := w_issued w |}.

(** ** The invariant *)

(** The idempotency keys that used a lease. *)
Definition uses (id : string) (s : gset (string * string)) : gset (string * string) :=
  filter (fun key => key.1 = id) s.

(** The state of each lease according to the evidence. *)
Definition replay_leases (log : list AuthorizationLeaseTransition) :
  gmap string AuthorizationLease :=
  fold_left (fun m t => <[al_lease_id (lt_lease t) := lt_lease t]> m) log ∅.

Record lease_ok (l : AuthorizationLease) (used : nat) : Prop := {
  lo_signed : verify_lease_signature secret l = true;
  lo_uses : (al_remaining_uses l + N.of_nat used)%N = al_max_uses l;
  lo_bound : (al_max_uses l <= 64)%N;
  lo_active : al_status l = LsActive -> (0 < al_remaining_uses l)%N
}.

Record LeaseInv (w : World) : Prop := {
  li_named : forall id l, lr_leases (w_reg w) !! id = Some l ->
    al_lease_id l = id /\ id ∈ w_issued w;
  li_ok : forall id l, lr_leases (w_reg w) !! id = Some l ->
    lease_ok l (size (uses id (lr_consumed (w_reg w))));
  li_keys : forall id key, (id, key) ∈ lr_consumed (w_reg w) <->
    (id, key) ∈ w_answers w /\ is_Some (lr_leases (w_reg w) !! id);
  li_fingerprints : forall id, is_Some (lr_fingerprint_by_lease (w_reg w) !! id) <->
    is_Some (lr_leases (w_reg w) !! id);
  li_by_fingerprint : forall f id, lr_lease_by_fingerprint (w_reg w) !! f = Some id ->
    lr_fingerprint_by_lease (w_reg w) !! id = Some f;
  li_revoked : forall id, id ∈ lr_revoked (w_reg w) <->
    exists l, lr_leases (w_reg w) !! id = Some l /\ al_status l = LsRevoked;
  li_replay : forall id l, lr_leases (w_reg w) !! id = Some l ->
    replay_leases (w_log w) !! id = Some l;
  li_queue : w_log w = w_acked w ++ lr_awaiting (w_reg w) ++ lr_transitions (w_reg w);
  li_released : forall id, id ∈ w_issued w -> lr_leases (w_reg w) !! id = None ->
    exists t, t ∈ w_acked w /\ transition_ends_hot_lease t = true /\ al_lease_id (lt_lease t) = id;
  li_answered : forall id key, (id, key) ∈ w_answers w -> id ∈ w_issued w;
  li_issued : forall id, id ∈ w_issued w ->
    exists t, t ∈ w_log w /\ lt_kind t = TkIssued /\ al_lease_id (lt_lease t) = id;
  li_bounded : forall t, t ∈ w_log w -> lt_kind t = TkIssued ->
    (N.of_nat (size (uses (al_lease_id (lt_lease t)) (w_answers w))) <= al_max_uses (lt_lease t))%N
    /\ (forall l, lr_leases (w_reg w) !! al_lease_id (lt_lease t) = Some l ->
          al_max_uses l = al_max_uses (lt_lease t))
    /\ (al_max_uses (lt_lease t) <= 64)%N /\ al_lease_id (lt_lease t) ∈ w_issued w
}.

Lemma LeaseInv_new : LeaseInv world_new.
Proof.
  split; cbn; try (intros; set_solver).
  intros id. by rewrite !lookup_empty.
Qed.

Lemma uses_add id key s :
  uses id ({[ (id, key) ]} ∪ s) = {[ (id, key) ]} ∪ uses id s.
Proof. unfold uses. set_solver. Qed.

Lemma uses_add_other id id' key s : id <> id' -> uses id ({[ (id', key) ]} ∪ s) = uses id s.
Proof. unfold uses. set_solver. Qed.

Lemma size_uses_add id key s : (id, key) ∉ s ->
  size (uses id ({[ (id, key) ]} ∪ s)) = S (size (uses id s)).
Proof.
  intros Hn. rewrite uses_add, size_union, size_singleton; [done|]. unfold uses. set_solver.
Qed.

(** The signature covers neither the uses, the status nor the key. *)
Lemma verify_use l : verify_lease_signature secret (use_lease l) = verify_lease_signature secret l.
Proof. reflexivity. Qed.
Lemma verify_status st l :
  verify_lease_signature secret (with_lease_status st l) = verify_lease_signature secret l.
Proof. reflexivity. Qed.
Lemma verify_snapshot l key :
  verify_lease_signature secret (execution_snapshot l key) = verify_lease_signature secret l.
Proof. reflexivity. Qed.

Lemma verify_new id r m c path now :
  verify_lease_signature secret (new_lease secret id r m c path now) = true.
Proof.
  unfold verify_lease_signature. apply andb_true_iff. split; [done|].
  apply String.eqb_eq. reflexivity.
Qed.

Lemma replay_leases_app log new :
  replay_leases (log ++ new)
    = fold_left (fun m t => <[al_lease_id (lt_lease t) := lt_lease t]> m) new (replay_leases log).
Proof. unfold replay_leases. by rewrite fold_left_app. Qed.

(** Evidence that shows the leases as they are brings the replay to them. *)
Lemma replay_agrees (leases : gmap string AuthorizationLease) new :
  forall m : gmap string AuthorizationLease,
  (forall t, t ∈ new -> leases !! al_lease_id (lt_lease t) = Some (lt_lease t)) ->
  (forall id l, leases !! id = Some l ->
     m !! id = Some l \/ exists t, t ∈ new /\ al_lease_id (lt_lease t) = id) ->
  forall id l, leases !! id = Some l ->
    fold_left (fun m t => <[al_lease_id (lt_lease t) := lt_lease t]> m) new m !! id = Some l.
Proof.
  induction new as [|t new IH]; intros m Hnew Hm id l Hl; cbn [fold_left].
  { destruct (Hm id l Hl) as [?|(t & Ht & _)]; [done|]. by apply not_elem_of_nil in Ht. }
  apply IH; [intros t' Ht'; apply Hnew; by right| |done].
  intros id' l' Hl'. destruct (decide (al_lease_id (lt_lease t) = id')) as [<-|Hne].
  - left. rewrite lookup_insert_eq, <- Hl'. symmetry. apply Hnew. by left.
  - rewrite lookup_insert_ne by done.
    destruct (Hm id' l' Hl') as [?|(t' & Ht' & <-)]; [by left|].
    apply elem_of_cons in Ht' as [->|Ht']; [done|]. right. eauto.
Qed.

Lemma advance_same w answers :
  LeaseInv w -> answers ⊆ w_answers w -> advance w (w_reg w) answers = w.
Proof.
  intros Hw Ha. unfold advance. rewrite drop_all, app_nil_r.
  replace (answers ∪ w_answers w) with (w_answers w) by set_solver.
  replace (w_issued w ∪ dom (lr_leases (w_reg w))) with (w_issued w).
  { by destruct w. }
  apply set_eq. intros id. rewrite elem_of_union, elem_of_dom. split; [by left|].
  intros [?|[l Hl]]; [done|]. by destruct (li_named w Hw id l Hl).
Qed.

Lemma uses_elem id key s : key ∈ uses id s <-> key.1 = id /\ key ∈ s.
Proof. unfold uses. by rewrite elem_of_filter. Qed.

(** The keys that used a hot lease are the ones it was handed out for. *)
Lemma uses_hot w id :
  (forall id key, (id, key) ∈ lr_consumed (w_reg w) <->
     (id, key) ∈ w_answers w /\ is_Some (lr_leases (w_reg w) !! id)) ->
  is_Some (lr_leases (w_reg w) !! id) ->
  uses id (w_answers w) = uses id (lr_consumed (w_reg w)).
Proof.
  intros Hk Hl. apply set_eq. intros [i k]. rewrite !uses_elem. cbn. rewrite Hk.
  split; [by intros [-> ?]|by intros (-> & ? & _)].
Qed.

(** *** Operations on the leases there are *)

Record touched (w : World) (reg : LeaseRegistry) (answers : gset (string * string))
    (ts : list AuthorizationLeaseTransition) : Prop := {
  tc_leases : forall id l', lr_leases reg !! id = Some l' -> exists l,
    lr_leases (w_reg w) !! id = Some l /\ al_lease_id l' = al_lease_id l /\
    al_max_uses l' = al_max_uses l /\ lease_ok l' (size (uses id (lr_consumed reg)));
  tc_kept : forall id, is_Some (lr_leases (w_reg w) !! id) -> is_Some (lr_leases reg !! id);
  tc_keys : forall id key, (id, key) ∈ lr_consumed reg <->
    (id, key) ∈ answers ∪ w_answers w /\ is_Some (lr_leases reg !! id);
  tc_revoked : forall id, id ∈ lr_revoked reg <->
    exists l, lr_leases reg !! id = Some l /\ al_status l = LsRevoked;
  tc_fingerprints : lr_fingerprint_by_lease reg = lr_fingerprint_by_lease (w_reg w);
  tc_by_fingerprint : lr_lease_by_fingerprint reg = lr_lease_by_fingerprint (w_reg w);
  tc_emitted : forall t, t ∈ ts -> lt_kind t <> TkIssued /\
    lr_leases reg !! al_lease_id (lt_lease t) = Some (lt_lease t);
  tc_evidence : forall id l, lr_leases reg !! id = Some l ->
    lr_leases (w_reg w) !! id = Some l \/ exists t, t ∈ ts /\ al_lease_id (lt_lease t) = id;
  tc_answered : forall id key, (id, key) ∈ answers -> is_Some (lr_leases (w_reg w) !! id);
  tc_transitions : lr_transitions reg = lr_transitions (w_reg w) ++ ts;
  tc_awaiting : lr_awaiting reg = lr_awaiting (w_reg w)
}.

Lemma touched_inv w reg answers ts :
  LeaseInv w -> touched w reg answers ts -> LeaseInv (advance w reg answers).
Proof.
  intros Hw Ht.
  assert (w_log (advance w reg answers) = w_log w ++ ts) as Hlog.
  { cbn. by rewrite (tc_transitions _ _ _ _ Ht), drop_app_length. }
  assert (forall id, is_Some (lr_leases reg !! id) <-> is_Some (lr_leases (w_reg w) !! id)) as Hdom.
  { intros id. split; [|apply (tc_kept _ _ _ _ Ht)].
    intros [l' Hl']. by apply (tc_leases _ _ _ _ Ht) in Hl' as (l & Hl & _). }
  split; rewrite ?Hlog; cbn [advance w_reg w_acked w_answers w_issued].
  - intros id l' Hl'. destruct (tc_leases _ _ _ _ Ht id l' Hl') as (l & Hl & -> & _).
    destruct (li_named w Hw id l Hl) as [? ?]. set_solver.
  - intros id l' Hl'. by destruct (tc_leases _ _ _ _ Ht id l' Hl') as (l & _ & _ & _ & ?).
  - apply (tc_keys _ _ _ _ Ht).
  - intros id. rewrite (tc_fingerprints _ _ _ _ Ht), Hdom. apply (li_fingerprints w Hw).
  - intros f id. rewrite (tc_fingerprints _ _ _ _ Ht), (tc_by_fingerprint _ _ _ _ Ht).
    apply (li_by_fingerprint w Hw).
  - apply (tc_revoked _ _ _ _ Ht).
  - intros id l Hl. rewrite replay_leases_app.
    apply (replay_agrees (lr_leases reg)); [intros t' Ht'; by apply (tc_emitted _ _ _ _ Ht)| |done].
    intros id' l' Hl'. destruct (tc_evidence _ _ _ _ Ht id' l' Hl') as [Ho|?]; [left|by right].
    by apply (li_replay w Hw).
  - rewrite (tc_awaiting _ _ _ _ Ht), (tc_transitions _ _ _ _ Ht), (li_queue w Hw).
    by rewrite <- !app_assoc.
  - intros id Hid Hn. apply (li_released w Hw).
    + apply elem_of_union in Hid as [?|[l Hl]%elem_of_dom]; [done|]. by rewrite Hl in Hn.
    + apply eq_None_not_Some. rewrite <- Hdom, Hn. by intros [? [=]].
  - intros id key [Ha|Ha]%elem_of_union.
    + apply (tc_answered _ _ _ _ Ht) in Ha as [l Hl]. apply (li_named w Hw) in Hl. set_solver.
    + apply (li_answered w Hw) in Ha. set_solver.
  - intros id Hid. assert (id ∈ w_issued w) as Hi.
    { apply elem_of_union in Hid as [?|Hd%elem_of_dom]; [done|].
      apply Hdom in Hd as [l Hl]. by destruct (li_named w Hw id l Hl). }
    destruct (li_issued w Hw id Hi) as (t & Ht1 & Ht2).
    exists t. split; [apply elem_of_app; by left|done].
  - intros t [Hin|Hin]%elem_of_app Hk; [|by destruct (tc_emitted _ _ _ _ Ht t Hin)].
    destruct (li_bounded w Hw t Hin Hk) as (Hb & Hm & Hc & Hi).
    split; [|split; [|split; [done|set_solver]]].
    + destruct (lr_leases reg !! al_lease_id (lt_lease t)) as [l'|] eqn:El.
      * destruct (tc_leases _ _ _ _ Ht _ _ El) as (l & Hl & _ & Em & [_ Hu _ _]).
        rewrite (uses_hot (advance w reg answers) _ (tc_keys _ _ _ _ Ht)) by (by exists l').
        cbn. rewrite <- (Hm l Hl). lia.
      * etrans; [|apply Hb]. apply N2Z.inj_le. rewrite !nat_N_Z. apply inj_le.
        apply subseteq_size. intros [i k]. rewrite !uses_elem. cbn. intros [-> [Ha|Ha]%elem_of_union].
        -- apply (tc_answered _ _ _ _ Ht), Hdom in Ha as [? Ha]. congruence.
        -- done.
    + intros l' Hl'. destruct (tc_leases _ _ _ _ Ht _ _ Hl') as (l & Hl & _ & -> & _). by apply Hm.
Qed.

Lemma lease_ok_use l used : lease_ok l used -> (0 < al_remaining_uses l)%N ->
  lease_ok (use_lease l) (S used).
Proof.
  intros [Hs Hu Hb Ha] Hp. split; [by rewrite verify_use| |done|]; cbn; [lia|].
  destruct (N.eqb_spec (al_remaining_uses l - 1) 0); [done|lia].
Qed.

Lemma lease_ok_status st l used : st <> LsActive -> lease_ok l used ->
  lease_ok (with_lease_status st l) used.
Proof. intros Hst [Hs Hu Hb Ha]. by split. Qed.

(** [touched] for an operation that rewrites one lease. *)
Lemma touched_one w id l l' reg answers ts :
  LeaseInv w -> lr_leases (w_reg w) !! id = Some l ->
  lr_leases reg = <[id := l']> (lr_leases (w_reg w)) ->
  al_lease_id l' = id -> al_max_uses l' = al_max_uses l ->
  lease_ok l' (size (uses id (lr_consumed reg))) ->
  (forall i, i <> id -> uses i (lr_consumed reg) = uses i (lr_consumed (w_reg w))) ->
  (forall i k, (i, k) ∈ lr_consumed reg <->
     (i, k) ∈ answers ∪ w_answers w /\ is_Some (lr_leases (w_reg w) !! i)) ->
  (forall i, i ∈ lr_revoked reg <-> (i = id /\ al_status l' = LsRevoked) \/
                                   (i <> id /\ i ∈ lr_revoked (w_reg w))) ->
  lr_fingerprint_by_lease reg = lr_fingerprint_by_lease (w_reg w) ->
  lr_lease_by_fingerprint reg = lr_lease_by_fingerprint (w_reg w) ->
  (exists t, ts = [t] /\ lt_kind t <> TkIssued /\ lt_lease t = l') ->
  (forall i k, (i, k) ∈ answers -> i = id) ->
  lr_transitions reg = lr_transitions (w_reg w) ++ ts ->
  lr_awaiting reg = lr_awaiting (w_reg w) ->
  touched w reg answers ts.
Proof.
  intros Hw Hl Hls Hid Hmax Hok Huses Hkeys Hrev Hf Hbf (t & -> & Hk & Hlt) Hans Htr Haw.
  destruct (li_named w Hw id l Hl) as [Hn _].
  split; try done.
  - intros i li. rewrite Hls. destruct (decide (i = id)) as [->|Hne].
    + rewrite lookup_insert_eq. intros [= <-]. exists l. by rewrite Hid, Hn.
    + rewrite lookup_insert_ne by done. intros Hi. exists li. rewrite Huses by done.
      split; [done|]. split; [done|]. split; [done|by apply (li_ok w Hw)].
  - intros i [x Hx]. rewrite Hls. destruct (decide (i = id)) as [->|Hne].
    + rewrite lookup_insert_eq. eauto.
    + rewrite lookup_insert_ne by done. eauto.
  - intros i k. rewrite Hkeys, Hls. destruct (decide (i = id)) as [->|Hne].
    + rewrite lookup_insert_eq, Hl. by split; intros [? _].
    + by rewrite lookup_insert_ne.
  - intros i. rewrite Hrev, Hls, (li_revoked w Hw). destruct (decide (i = id)) as [->|Hne].
    + rewrite lookup_insert_eq. split; [intros [[_ ?]|[? _]]; [eauto|done]|].
      intros (x & [= <-] & ?). by left.
    + rewrite lookup_insert_ne by done. split; [intros [[? _]|[_ ?]]; done|by right].
  - intros t' ->%list_elem_of_singleton. rewrite Hlt, Hid, Hls, lookup_insert_eq. done.
  - intros i li. rewrite Hls. destruct (decide (i = id)) as [->|Hne].
    + intros _. right. exists t. rewrite Hlt. split; [by left|done].
    + rewrite lookup_insert_ne by done. by left.
  - intros i k Hi. apply Hans in Hi as ->. eauto.
Qed.

Lemma consume_existing_inv w uuid clk f r m l reg :
  LeaseInv w -> consume_existing secret uuid clk f r m (w_reg w) = Some (l, reg) ->
  LeaseInv (advance w reg {[ (al_lease_id l, ar_idempotency_key r) ]}).
Proof.
  intros Hw Hc. unfold consume_existing in Hc.
  apply bind_Some in Hc as (id & Hid & Hc). case_bool_decide as Hrev; [done|].
  apply bind_Some in Hc as (x & Hx & Hc).
  destruct (li_named w Hw id x Hx) as [Hn Hi].
  case_bool_decide as Hk.
  { injection Hc as <- <-. cbn. rewrite Hn. rewrite advance_same; [done|done|].
    apply (li_keys w Hw) in Hk as [Hk _]. set_solver. }
  destruct (_ || _) eqn:E; [done|]. injection Hc as <- <-.
  rewrite !orb_false_iff in E. destruct E as [[[[[[Ea _] _] _] _] _] Hs].
  apply negb_false_iff in Ea, Hs. unfold lease_active_at in Ea.
  apply andb_prop in Ea as [[Ea Er]%andb_prop _]. apply N.ltb_lt in Er.
  apply bool_decide_eq_true in Ea.
  eapply touched_inv; [done|]. cbn.
  eapply (touched_one w id x (use_lease x)); cbn; try done.
  - rewrite size_uses_add by done. apply lease_ok_use; [by apply (li_ok w Hw)|done].
  - intros i Hne. by rewrite uses_add_other.
  - intros i k. rewrite Hn, !elem_of_union, elem_of_singleton, (li_keys w Hw).
    split; [intros [[= -> ->]|[? ?]]; eauto|intros [[[= -> ->]|?] ?]; auto].
  - intros i. destruct (_ =? _)%N; rewrite ?Ea; split; try naive_solver.
    all: intros Hr; right; split; [|done]; intros ->; done.
  - eexists. split; [done|]. done.
  - intros i k [= -> _]%elem_of_singleton. done.
Qed.

Lemma revoke_inv w uuid now id :
  LeaseInv w -> LeaseInv (advance w (lease_revoke uuid now id (w_reg w)).2 ∅).
Proof.
  intros Hw. unfold lease_revoke. destruct (lr_leases (w_reg w) !! id) as [l|] eqn:El.
  2: { cbn. by rewrite advance_same. }
  case_bool_decide as Es; cbn; [by rewrite advance_same|].
  destruct (li_named w Hw id l El) as [Hn _].
  eapply touched_inv; [done|]. eapply (touched_one w id l (with_lease_status LsRevoked l)); cbn; try done.
  - apply lease_ok_status; [done|by apply (li_ok w Hw)].
  - intros i k. rewrite (li_keys w Hw). by rewrite (left_id_L ∅ union).
  - intros i. rewrite elem_of_union, elem_of_singleton.
    destruct (decide (i = id)); [naive_solver|]. split; [intros [?|?]|]; naive_solver.
  - eexists. split; [done|]. done.
Qed.

Definition expire (now : N) (l : AuthorizationLease) : AuthorizationLease :=
  if lapsed now l then with_lease_status LsExpired l else l.

Lemma expire_inv w uuid clk now :
  LeaseInv w -> LeaseInv (advance w (reconcile_expirations_at uuid clk now (w_reg w)).2 ∅).
Proof.
  intros Hw. apply (touched_inv _ _ _
    (imap (fun i l => lease_transition (uuid i) (clk i) TkExpired l None
                        "authorization lease TTL elapsed")
       (expire now <$> List.filter (lapsed now) (btree_values (lr_leases (w_reg w)))))); [done|].
  assert (forall id l', (expire now <$> lr_leases (w_reg w)) !! id = Some l' ->
            exists l, lr_leases (w_reg w) !! id = Some l /\ l' = expire now l) as Hf.
  { intros id l'. rewrite lookup_fmap. intros (l & -> & Hl)%fmap_Some. eauto. }
  assert (forall l, al_lease_id (expire now l) = al_lease_id l /\
            al_max_uses (expire now l) = al_max_uses l /\
            (al_status (expire now l) = LsRevoked <-> al_status l = LsRevoked)) as He.
  { intros l. unfold expire, lapsed. case_bool_decide as Ea; cbn; [|done].
    destruct (_ <? _)%N; cbn; [|done]. by rewrite Ea. }
  split; cbn; fold (expire now).
  - intros id l' (l & Hl & ->)%Hf. exists l. destruct (He l) as (E1 & E2 & _).
    split; [done|]. split; [done|]. split; [done|].
    pose proof (li_ok w Hw id l Hl). unfold expire. destruct (lapsed now l); [|done].
    by apply lease_ok_status.
  - intros id [l Hl]. rewrite lookup_fmap, Hl. by eexists.
  - intros id key. rewrite (left_id_L ∅ union), (li_keys w Hw), lookup_fmap.
    destruct (lr_leases (w_reg w) !! id); cbn; split; intros [? [? ?]]; eauto.
  - intros id. rewrite (li_revoked w Hw). split.
    + intros (l & Hl & Hs). exists (expire now l). rewrite lookup_fmap, Hl. split; [done|].
      by apply He.
    + intros (l' & (l & Hl & ->)%Hf & Hs). exists l. split; [done|]. by apply He.
  - done.
  - done.
  - intros t Ht. destruct (elem_of_lookup_imap_1 _ _ _ Ht) as (i & l' & -> & Hl').
    split; [done|]. cbn.
    apply list_elem_of_lookup_2, list_elem_of_fmap in Hl' as (l & -> & Hl).
    apply list_elem_of_In, List.filter_In in Hl as [Hl _]. apply list_elem_of_In in Hl.
    apply elem_of_btree_values in Hl as [id Hid].
    destruct (He l) as (-> & _). destruct (li_named w Hw id l Hid) as [-> _].
    by rewrite lookup_fmap, Hid.
  - intros id l' (l & Hl & ->)%Hf. unfold expire at 1. destruct (lapsed now l) eqn:E; [right|by left].
    assert (expire now l ∈ (expire now <$> List.filter (lapsed now) (btree_values (lr_leases (w_reg w)))))
      as Hin.
    { apply list_elem_of_fmap_2, list_elem_of_In, List.filter_In. split; [|done].
      apply list_elem_of_In, elem_of_btree_values. eauto. }
    apply list_elem_of_lookup in Hin as [i Hi]. eexists. split.
    + apply (elem_of_lookup_imap_2 _ _ _ _ Hi).
    + cbn. destruct (He l) as (-> & _). by destruct (li_named w Hw id l Hl).
  - intros id key. set_solver.
  - done.
  - done.
Qed.

Lemma issue_inv w uuid clk r m c f path l reg :
  LeaseInv w -> lease_name (uuid 0) ∉ w_issued w ->
  issue_and_consume secret uuid clk r m c f path (w_reg w) = (l, reg) ->
  LeaseInv (advance w reg {[ (al_lease_id l, ar_idempotency_key r) ]}).
Proof.
  intros Hw Hfresh Hi. unfold issue_and_consume in Hi.
  set (issued := new_lease secret (uuid 0) r m c path (clk 0)) in *.
  cbv zeta in Hi. injection Hi as <- <-. set (id := al_lease_id issued) in *.
  change (lease_name (uuid 0)) with id in Hfresh.
  assert (lr_leases (w_reg w) !! id = None) as Hn.
  { apply eq_None_not_Some. intros [x Hx]. by destruct (li_named w Hw id x Hx). }
  assert (forall k, (id, k) ∉ w_answers w) as Hna.
  { intros k Hk. by apply (li_answered w Hw) in Hk. }
  assert (uses id (lr_consumed (w_reg w)) = ∅) as Huc.
  { apply set_eq. intros [i k]. rewrite uses_elem. cbn. split; [|set_solver].
    intros [-> Hk]. apply (li_keys w Hw) in Hk as [Hk _]. by apply Hna in Hk. }
  assert (uses id (w_answers w) = ∅) as Hua.
  { apply set_eq. intros [i k]. rewrite uses_elem. cbn. split; [|set_solver].
    intros [-> Hk]. by apply Hna in Hk. }
  assert (1 <= lease_max_uses path m <= 64)%N as Hmax.
  { unfold lease_max_uses. destruct path; try lia. case_bool_decide; lia. }
  assert (lease_ok (use_lease issued) 1) as Hok.
  { split; [by rewrite verify_use; apply verify_new| | |]; cbn; [lia|lia|].
    destruct (N.eqb_spec (lease_max_uses path m - 1) 0); [done|lia]. }
  assert (al_status (use_lease issued) <> LsRevoked) as Hrv by (cbn; by destruct (_ =? _)%N).
  assert (1 <= al_max_uses issued <= 64)%N as Hmi by done.
  assert (al_lease_id issued = id) as Hid by done. clear Hmax.
  change ("authorization-lease-" +:+ uuid 0)%string with id. clearbody id issued.
  split; cbn [advance w_reg w_log w_acked w_answers w_issued set_leases add_consumed add_fingerprint
              lr_leases lr_lease_by_fingerprint lr_fingerprint_by_lease lr_consumed lr_revoked
              lr_transitions lr_awaiting]; rewrite ?drop_app_length, ?Hid.
  - intros i x. destruct (decide (i = id)) as [->|Hne].
    + rewrite lookup_insert_eq. intros [= <-]. split; [done|]. rewrite dom_insert. set_solver.
    + rewrite lookup_insert_ne by done. intros Hx. destruct (li_named w Hw i x Hx). set_solver.
  - intros i x. destruct (decide (i = id)) as [->|Hne].
    + rewrite lookup_insert_eq. intros [= <-]. rewrite size_uses_add; [by rewrite Huc, size_empty|].
      intros Hk. apply (li_keys w Hw) in Hk as [Hk _]. by apply Hna in Hk.
    + rewrite lookup_insert_ne, uses_add_other by done. apply (li_ok w Hw).
  - intros i k. rewrite !elem_of_union, !elem_of_singleton, (li_keys w Hw).
    destruct (decide (i = id)) as [->|Hne].
    + rewrite lookup_insert_eq, Hn. split; [|intros [[|Hk] _]; [by left|by apply Hna in Hk]].
      intros [?|[_ [? [=]]]]. eauto.
    + rewrite lookup_insert_ne by done. split; [intros [[= ? _]|[? ?]]; [done|eauto]|].
      intros [[[= ? _]|?] ?]; [done|eauto].
  - intros i. destruct (decide (i = id)) as [->|Hne].
    + rewrite !lookup_insert_eq. by split; eexists.
    + rewrite !lookup_insert_ne by done. apply (li_fingerprints w Hw).
  - intros f' i. destruct (decide (f' = f)) as [->|Hne].
    + rewrite lookup_insert_eq. intros [= <-]. by rewrite lookup_insert_eq.
    + rewrite lookup_insert_ne by done. intros Hb%(li_by_fingerprint w Hw).
      rewrite lookup_insert_ne; [done|]. intros <-.
      assert (is_Some (lr_leases (w_reg w) !! id)) as [? ?]; [|congruence].
      apply (li_fingerprints w Hw). eauto.
  - intros i. rewrite (li_revoked w Hw). destruct (decide (i = id)) as [->|Hne].
    + rewrite lookup_insert_eq, Hn. split; [by intros (? & [=] & _)|].
      by intros (x & [= <-] & Hs).
    + by rewrite lookup_insert_ne.
  - intros i x Hx. rewrite replay_leases_app. cbn [fold_left lt_lease lease_transition].
    change (al_lease_id (use_lease issued)) with (al_lease_id issued). rewrite Hid.
    destruct (decide (i = id)) as [->|Hne].
    + rewrite lookup_insert_eq in Hx |- *. done.
    + rewrite lookup_insert_ne in Hx by done. rewrite !lookup_insert_ne by done.
      by apply (li_replay w Hw).
  - rewrite (li_queue w Hw). by rewrite <- !app_assoc.
  - intros i Hi Hx. rewrite dom_insert in Hi.
    destruct (decide (i = id)) as [->|Hne]; [by rewrite lookup_insert_eq in Hx|].
    rewrite lookup_insert_ne in Hx by done. apply (li_released w Hw); [|done].
    assert (i ∉ dom (lr_leases (w_reg w))) by (by apply not_elem_of_dom). set_solver.
  - intros i k. rewrite dom_insert. intros [[= -> ->]%elem_of_singleton|Hk]%elem_of_union; [set_solver|].
    apply (li_answered w Hw) in Hk. set_solver.
  - intros i. rewrite dom_insert. intros Hi. destruct (decide (i = id)) as [->|Hne].
    + eexists. split; [apply elem_of_app; right; left|done].
    + assert (i ∈ w_issued w) as Hiw.
      { apply elem_of_union in Hi as [?|Hi]; [done|]. apply elem_of_union in Hi as [?|[x Hx]%elem_of_dom].
        - set_solver.
        - by destruct (li_named w Hw i x Hx). }
      destruct (li_issued w Hw i Hiw) as (t & Ht & ?). exists t. split; [apply elem_of_app; by left|done].
  - intros t [Ht|Ht]%elem_of_app Hk.
    + destruct (li_bounded w Hw t Ht Hk) as (Hb & Hm & Hc & Hi).
      assert (al_lease_id (lt_lease t) <> id) as Hne by (by intros E; rewrite E in Hi).
      rewrite uses_add_other, lookup_insert_ne by done.
      split; [done|]. split; [done|]. split; [done|set_solver].
    + apply elem_of_cons in Ht as [->|Ht]; [|apply list_elem_of_singleton in Ht as ->; done].
      cbn [lt_lease lease_transition]. rewrite Hid.
      rewrite size_uses_add, Hua, size_empty by done. rewrite lookup_insert_eq, dom_insert.
      split; [cbn; lia|]. split; [by intros x [= <-]|]. split; [cbn; lia|set_solver].
Qed.

(** *** Handing over and acknowledging evidence *)

(** The registry part of a world changed, the leases not. *)
Lemma same_leases_inv w reg acked :
  LeaseInv w ->
  lr_leases reg = lr_leases (w_reg w) -> lr_consumed reg = lr_consumed (w_reg w) ->
  lr_fingerprint_by_lease reg = lr_fingerprint_by_lease (w_reg w) ->
  lr_lease_by_fingerprint reg = lr_lease_by_fingerprint (w_reg w) ->
  lr_revoked reg = lr_revoked (w_reg w) ->
  (forall t, t ∈ w_acked w -> t ∈ acked) ->
  w_log w = acked ++ lr_awaiting reg ++ lr_transitions reg ->
  LeaseInv {| w_reg := reg; w_log := w_log w; w_acked := acked; w_answers := w_answers w;
              w_issued := w_issued w |}.
Proof.
  intros [] E1 E2 E3 E4 E5 Ha Hq.
  split; cbn; rewrite ?E1, ?E2, ?E3, ?E4, ?E5; try done.
  intros id Hi Hn. destruct (li_released0 id Hi Hn) as (t & Ht & ?). eauto.
Qed.

Lemma take_inv w : LeaseInv w ->
  LeaseInv {| w_reg := (take_transitions_for_persistence (w_reg w)).2; w_log := w_log w;
              w_acked := w_acked w; w_answers := w_answers w; w_issued := w_issued w |}.
Proof.
  intros Hw. apply same_leases_inv; cbn; try done. rewrite app_nil_r. apply (li_queue w Hw).
Qed.

Lemma claim_operation_claims reg reg' :
  claim_operation reg reg' -> exists claims, reg' = set_claims claims reg.
Proof.
  assert (forall f scope r, exists c, (insert_claim f scope r).2 = set_claims c r) as Hi.
  { intros f scope r. unfold insert_claim. case_bool_decide; cbn; [|by eexists].
    exists (lr_recovery_claims r). by destruct r. }
  assert (reg = set_claims (lr_recovery_claims reg) reg) as Hsame by by destruct reg.
  intros [a scope|f scope|f|fs].
  - unfold claim_controlled_recovery. destruct (ca_gap a) as [g|]; [|eauto].
    destruct (_ || _); eauto.
  - unfold restore_controlled_recovery_claim. destruct (_ || _); eauto.
  - by eexists.
  - clear Hsame. revert reg. induction fs as [|f fs IH]; intros reg; cbn.
    + exists (lr_recovery_claims reg). by destruct reg.
    + destruct (IH (set_claims (delete f (lr_recovery_claims reg)) reg)) as [c Hc].
      destruct (acknowledge_controlled_recovery_terminals fs _) as [n r] eqn:E.
      cbn in Hc |- *. subst r. by exists c.
Qed.

Lemma claim_inv w reg : LeaseInv w -> claim_operation (w_reg w) reg ->
  LeaseInv {| w_reg := reg; w_log := w_log w; w_acked := w_acked w; w_answers := w_answers w;
              w_issued := w_issued w |}.
Proof.
  intros Hw [c ->]%claim_operation_claims. apply same_leases_inv; cbn; try done.
  apply (li_queue w Hw).
Qed.

(** The first queued transition becomes durable. *)
Definition pop_world (t : AuthorizationLeaseTransition)
    (rest : list AuthorizationLeaseTransition) (w : World) : World :=
  {| w_reg := release_acknowledged t (set_queues (lr_transitions (w_reg w)) rest (w_reg w));
     w_log := w_log w; w_acked := w_acked w ++ [t]; w_answers := w_answers w;
     w_issued := w_issued w |}.

Lemma pop_inv w t rest :
  LeaseInv w -> lr_awaiting (w_reg w) = t :: rest -> LeaseInv (pop_world t rest w).
Proof.
  intros Hw Haw. unfold pop_world.
  assert (w_log w = (w_acked w ++ [t]) ++ rest ++ lr_transitions (w_reg w)) as Hq.
  { rewrite (li_queue w Hw), Haw. by rewrite <- app_assoc. }
  assert (LeaseInv {| w_reg := set_queues (lr_transitions (w_reg w)) rest (w_reg w);
            w_log := w_log w; w_acked := w_acked w ++ [t]; w_answers := w_answers w;
            w_issued := w_issued w |}) as Hw1.
  { apply same_leases_inv; try done. intros x Hx. apply elem_of_app. by left. }
  unfold release_acknowledged. destruct (transition_ends_hot_lease t) eqn:Et; [|done].
  unfold release_terminal_lease. set (id := al_lease_id (lt_lease t)).
  destruct (lr_leases (set_queues _ _ _) !! id) as [l|] eqn:El; [|done].
  case_bool_decide as Es; [done|]. cbn in El.
  clear Hw1. split; cbn; try done.
  - intros i x [Hne Hx]%lookup_delete_Some. by apply (li_named w Hw).
  - intros i x [Hne Hx]%lookup_delete_Some.
    replace (uses i (filter _ _)) with (uses i (lr_consumed (w_reg w))); [by apply (li_ok w Hw)|].
    apply set_eq. intros [i' k]. rewrite !uses_elem, elem_of_filter. cbn. naive_solver.
  - intros i k. rewrite elem_of_filter, (li_keys w Hw). cbn.
    destruct (decide (i = id)) as [->|Hne].
    + rewrite lookup_delete_eq. split; [by intros [? _]|by intros [_ [? [=]]]].
    + rewrite lookup_delete_ne by done. naive_solver.
  - intros i. destruct (decide (i = id)) as [->|Hne].
    + by rewrite !lookup_delete_eq.
    + rewrite !lookup_delete_ne by done. apply (li_fingerprints w Hw).
  - intros f i Hb.
    assert (lr_lease_by_fingerprint (w_reg w) !! f = Some i /\
            (i = id -> lr_fingerprint_by_lease (w_reg w) !! id = Some f -> False)) as [Hb' Hne].
    { destruct (lr_fingerprint_by_lease (w_reg w) !! id) as [f0|] eqn:Ef.
      - case_bool_decide as Eb.
        + apply lookup_delete_Some in Hb as [Hne Hb]. split; [done|]. by intros _ [= ->].
        + split; [done|]. intros -> [= ->]. done.
      - split; [done|]. by intros _ [=]. }
    apply (li_by_fingerprint w Hw) in Hb' as Hf.
    rewrite lookup_delete_ne; [done|]. intros <-. by apply Hne.
  - intros i. rewrite elem_of_difference, elem_of_singleton, (li_revoked w Hw).
    destruct (decide (i = id)) as [->|Hne].
    + rewrite lookup_delete_eq. split; [by intros [_ ?]|by intros (? & [=] & _)].
    + rewrite lookup_delete_ne by done. naive_solver.
  - intros i x [Hne Hx]%lookup_delete_Some. by apply (li_replay w Hw).
  - intros i Hi Hn. destruct (decide (i = id)) as [->|Hne].
    + exists t. split; [apply elem_of_app; right; left|done].
    + rewrite lookup_delete_ne in Hn by done.
      destruct (li_released w Hw i Hi Hn) as (t' & Ht' & ?).
      exists t'. split; [apply elem_of_app; by left|done].
  - apply (li_answered w Hw).
  - apply (li_issued w Hw).
  - intros t' Ht' Hk. destruct (li_bounded w Hw t' Ht' Hk) as (Hb & Hm & ?).
    split; [done|]. split; [|done]. intros x [_ Hx]%lookup_delete_Some. by apply Hm.
Qed.

Lemma acknowledge_first_inv n : forall w, LeaseInv w ->
  LeaseInv {| w_reg := acknowledge_first n (w_reg w); w_log := w_log w;
              w_acked := w_acked w ++ take n (lr_awaiting (w_reg w)); w_answers := w_answers w;
              w_issued := w_issued w |}.
Proof.
  induction n as [|n IH]; intros w Hw; unfold acknowledge_first.
  - rewrite take_0, drop_0, app_nil_r. cbn. apply same_leases_inv; try done.
    apply (li_queue w Hw).
  - destruct (lr_awaiting (w_reg w)) as [|t rest] eqn:Haw.
    { cbn. rewrite app_nil_r. apply same_leases_inv; try done.
      cbn. rewrite (li_queue w Hw), Haw. done. }
    pose proof (pop_inv w t rest Hw Haw) as Hp. apply IH in Hp. revert Hp.
    unfold acknowledge_first, pop_world. cbn [w_reg w_log w_acked w_answers w_issued].
    rewrite release_queues. cbn [lr_transitions lr_awaiting set_queues].
    rewrite release_all_queues. cbn [take drop]. by rewrite <- app_assoc.
Qed.

(** ** What an assessment can answer *)

(** The ways an assessment of a compiled request ends. *)
Inductive assessed (uuid : nat -> string) (clk : nat -> N) (p : PermissionPolicy)
    (r : AuthorizationRequest) (reg : LeaseRegistry) (a : CapabilityAssessment)
    (reg' : LeaseRegistry) : Prop :=
| AssessedGap : ca_lease a = None -> is_Some (ca_gap a) -> reg' = reg ->
    assessed uuid clk p r reg a reg'
| AssessedExisting l :
    exceeds_parent r = false ->
    (forall why, route_required_with_context from_str p (ar_capability r) (ar_input r)
       (td_required_permission (ar_effect r)) (ar_context r) <> RouteHardDeny why) ->
    consume_existing secret uuid clk
      (capability_fingerprint r (td_required_permission (ar_effect r))) r
      (td_required_permission (ar_effect r)) reg = Some (l, reg') ->
    ca_lease a = Some l -> ca_path a = PathExistingLease ->
    assessed uuid clk p r reg a reg'
| AssessedIssued l path :
    exceeds_parent r = false ->
    (forall why, route_required_with_context from_str p (ar_capability r) (ar_input r)
       (td_required_permission (ar_effect r)) (ar_context r) <> RouteHardDeny why) ->
    (path = PathHumanApproval \/
     exists standing why,
       route_required_with_context from_str p (ar_capability r) (ar_input r)
         (td_required_permission (ar_effect r)) (ar_context r) = RouteAllow standing why /\
       path = (if standing then PathStandingGrant else PathPolicyAutoGrant) /\
       (requires_human_boundary (td_assessment (ar_effect r))
          (risk_for_effect (td_assessment (ar_effect r))) (td_approval_class (ar_effect r)) = true ->
        standing = true /\ td_approval_class (ar_effect r) <> TaAdministrator)) ->
    issue_and_consume secret uuid clk r (td_required_permission (ar_effect r)) (active_mode p)
      (capability_fingerprint r (td_required_permission (ar_effect r))) path reg = (l, reg') ->
    ca_lease a = Some l -> ca_path a = path ->
    assessed uuid clk p r reg a reg'.

Lemma assess_compiled_cases uuid clk p r reg a reg' :
  assess_compiled secret from_str uuid clk p r reg = (a, reg') -> assessed uuid clk p r reg a reg'.
Proof.
  unfold assess_compiled. cbv zeta. intros Ha.
  destruct (exceeds_parent r) eqn:Ep; [injection Ha as <- <-; by constructor|].
  destruct (route_required_with_context _ _ _ _ _ _) as [standing why|why|why] eqn:Er;
    [..|injection Ha as <- <-; by constructor].
  - destruct (consume_existing _ _ _ _ _ _ _) as [[l reg1]|] eqn:Ec.
    { injection Ha as <- <-. 
      eapply (AssessedExisting _ _ _ _ _ _ _ l); [done| |exact Ec|done|done]. by rewrite Er. }
    destruct (_ && (_ || _)) eqn:Eh; [injection Ha as <- <-; by constructor|].
    destruct (issue_and_consume _ _ _ _ _ _ _ _ _) as [l reg1] eqn:Ei.
    injection Ha as <- <-.
    eapply (AssessedIssued _ _ _ _ _ _ _ l); [done|by rewrite Er| |exact Ei|done|done].
    right. exists standing, why. split; [done|]. split; [done|]. intros Hh. rewrite Hh in Eh.
    cbn in Eh. apply orb_false_iff in Eh as [E1 E2]. apply negb_false_iff in E1.
    by apply bool_decide_eq_false in E2.
  - destruct (consume_existing _ _ _ _ _ _ _) as [[l reg1]|] eqn:Ec.
    { injection Ha as <- <-. 
      eapply (AssessedExisting _ _ _ _ _ _ _ l); [done| |exact Ec|done|done]. by rewrite Er. }
    destruct (_ && _); injection Ha as <- <-; by constructor.
Qed.

Lemma assess_cases uuid clk p r reg eff a reg' :
  assess_effective secret from_str uuid clk p r reg = (eff, a, reg') ->
  eff = compile_effective_descriptor (ar_effect r) (ar_input r) /\
  assessed uuid clk p (with_effect (ed_descriptor eff) r) reg a reg'.
Proof.
  unfold assess_effective. destruct (assess_compiled _ _ _ _ _ _ _) as [a1 reg1] eqn:E.
  intros [= <- <- <-]. split; [done|]. by apply assess_compiled_cases.
Qed.

Lemma approve_cases uuid clk p r eff g reg a reg' :
  approve_effective secret from_str uuid clk p r eff g reg = (a, reg') ->
  assessed uuid clk p (with_effect (ed_descriptor eff) r) reg a reg' /\
  (is_Some (ca_lease a) ->
   validate_approval_grant g (with_effect (ed_descriptor eff) r)
     (td_descriptor_hash (ed_descriptor eff)) (clk 4) = Ok tt).
Proof.
  unfold approve_effective. cbv zeta. set (r' := with_effect (ed_descriptor eff) r). intros Ha.
  destruct (validate_approval_grant _ _ _ _) as [[]|e] eqn:Ev;
    [|injection Ha as <- <-; split; [by constructor|by intros [? [=]]]].
  destruct (exceeds_parent r') eqn:Ep;
    [injection Ha as <- <-; split; [by constructor|by intros [? [=]]]|].
  destruct (route_required_with_context _ _ _ _ _ _) as [standing why|why|why] eqn:Er;
    [..|injection Ha as <- <-; split; [by constructor|by intros [? [=]]]].
  all: destruct (issue_and_consume _ _ _ _ _ _ _ _ _) as [l reg1] eqn:Ei.
  all: injection Ha as <- <-; split; [|done].
  all: eapply (AssessedIssued _ _ _ _ _ _ _ l); [done|by rewrite Er|by left|exact Ei|done|done].
Qed.

Lemma assessed_inv w uuid clk p r a reg :
  LeaseInv w -> lease_name (uuid 0) ∉ w_issued w -> assessed uuid clk p r (w_reg w) a reg ->
  LeaseInv (advance w reg (answers_of a (ar_idempotency_key r))).
Proof.
  intros Hw Hf Ha. unfold answers_of.
  destruct Ha as [-> _ ->|l _ _ Hc -> _|l path _ _ _ Hi -> _].
  - by rewrite advance_same.
  - by eapply consume_existing_inv.
  - by eapply issue_inv.
Qed.

Lemma lease_step_inv w w' : LeaseInv w -> lease_step w w' -> LeaseInv w'.
Proof.
  intros Hw Hs. destruct Hs as [uuid clk p r eff a reg Hf Ha|uuid clk p r eff g a reg Hf Ha| | | |ids Hd|].
  - apply assess_cases in Ha as [_ Ha]. by apply (assessed_inv w _ _ _ _ _ _ Hw Hf) in Ha.
  - apply approve_cases in Ha as [Ha _]. by apply (assessed_inv w _ _ _ _ _ _ Hw Hf) in Ha.
  - by apply revoke_inv.
  - by apply expire_inv.
  - by apply take_inv.
  - rewrite acknowledge_spec by done. by apply acknowledge_first_inv.
  - by apply claim_inv.
Qed.

Lemma lease_run_inv w : rtc lease_step world_new w -> LeaseInv w.
Proof.
  intros Hr. pose proof LeaseInv_new as Hw. revert Hr Hw. generalize world_new. intros w0 Hr.
  induction Hr; eauto using lease_step_inv.
Qed.

(** C33. A lease is used at most as often as it says.  In every run, each lease
    ever handed out has evidence of its issue, with a bound of at most 64 uses,
    and the number of different idempotency keys it authorized stays within that
    bound, also after it left the registry. *)
Theorem lease_uses_bounded w :
  rtc lease_step world_new w ->
  forall id key, (id, key) ∈ w_answers w ->
  exists t, t ∈ w_log w /\ lt_kind t = TkIssued /\ al_lease_id (lt_lease t) = id /\
    (N.of_nat (size (uses id (w_answers w))) <= al_max_uses (lt_lease t))%N /\
    (al_max_uses (lt_lease t) <= 64)%N.
Proof.
  intros Hw%lease_run_inv id key Ha.
  apply (li_answered w Hw) in Ha. destruct (li_issued w Hw id Ha) as (t & Ht & Hk & <-).
  destruct (li_bounded w Hw t Ht Hk) as (? & _ & ? & _). exists t. auto.
Qed.

(** The evidence is the state.  In every run, replaying the emitted
    transitions gives each lease of the registry exactly as it is, with a valid
    signature; no transition is lost or reordered between emission, hand-over
    and acknowledgement; and a lease leaves the registry only after a transition
    that ends it was acknowledged as durable. *)
Theorem lease_evidence_complete w :
  rtc lease_step world_new w ->
  w_log w = w_acked w ++ lr_awaiting (w_reg w) ++ lr_transitions (w_reg w) /\
  (forall id l, lr_leases (w_reg w) !! id = Some l ->
     replay_leases (w_log w) !! id = Some l /\ verify_lease_signature secret l = true) /\
  (forall id, id ∈ w_issued w -> lr_leases (w_reg w) !! id = None ->
     exists t, t ∈ w_acked w /\ transition_ends_hot_lease t = true /\
               al_lease_id (lt_lease t) = id).
Proof.
  intros Hw%lease_run_inv. split; [apply (li_queue w Hw)|]. split; [|apply (li_released w Hw)].
  intros id l Hl. split; [by apply (li_replay w Hw)|]. by apply (lo_signed _ _ (li_ok w Hw id l Hl)).
Qed.

(** ** Revocation *)

(** A lease that was issued and is revoked or gone. *)
Definition dead (id : string) (w : World) : Prop :=
  id ∈ w_issued w /\ (lr_leases (w_reg w) !! id = None \/ id ∈ lr_revoked (w_reg w)).

Lemma dead_mono id w w' :
  dead id w -> w_issued w ⊆ w_issued w' ->
  (lr_leases (w_reg w) !! id = None -> lr_leases (w_reg w') !! id = None) ->
  (id ∈ lr_revoked (w_reg w) -> lr_leases (w_reg w') !! id = None \/ id ∈ lr_revoked (w_reg w')) ->
  dead id w'.
Proof. intros [Hi [Hn|Hr]] Hs Hl Hv; split; auto. Qed.

Lemma assessed_dead id w uuid clk p r a reg :
  LeaseInv w -> lease_name (uuid 0) ∉ w_issued w -> assessed uuid clk p r (w_reg w) a reg ->
  dead id w ->
  dead id (advance w reg (answers_of a (ar_idempotency_key r))) /\
  (forall l, ca_lease a = Some l -> al_lease_id l <> id).
Proof.
  intros Hw Hf Ha Hd.
  destruct Ha as [Hl _ ->|l _ _ Hc Hl _|l path _ _ _ Hi Hl _].
  - split; [|intros x; by rewrite Hl]. eapply dead_mono; cbn; [exact Hd|set_solver|done|by right].
  - assert (exists x, al_lease_id x = al_lease_id l /\ lr_leases (w_reg w) !! al_lease_id l = Some x /\
             ~ (al_lease_id l ∈ lr_revoked (w_reg w)) /\ lr_revoked reg = lr_revoked (w_reg w) /\
             (exists y, lr_leases reg = <[al_lease_id l := y]> (lr_leases (w_reg w))))
      as (x & Hn & Hx & Hr & Hrr & y & Hy).
    { unfold consume_existing in Hc. apply bind_Some in Hc as (i & _ & Hc).
      case_bool_decide as Hr; [done|]. apply bind_Some in Hc as (x & Hx & Hc).
      destruct (li_named w Hw i x Hx) as [Hn _]. case_bool_decide.
      - injection Hc as <- <-. cbn. rewrite Hn. exists x. repeat split; try done.
        exists x. by rewrite insert_id.
      - destruct (_ || _); [done|]. injection Hc as <- <-. cbn. rewrite Hn.
        exists x. repeat split; try done. by eexists. }
    assert (al_lease_id l <> id) as Hne.
    { intros E. destruct Hd as [_ [Hd|Hd]]; [|by rewrite E in Hr]. rewrite E in Hx. congruence. }
    split; [|intros l' E; by rewrite Hl in E; injection E as <-].
    eapply dead_mono; cbn; [exact Hd|set_solver| |right; by rewrite Hrr].
    by rewrite Hy, lookup_insert_ne.
  - unfold issue_and_consume in Hi. cbv zeta in Hi. injection Hi as <- <-.
    assert (lease_name (uuid 0) <> id) as Hne by (intros <-; by destruct Hd).
    split; [|intros l' E; rewrite Hl in E; by injection E as <-].
    eapply dead_mono; cbn; [exact Hd|set_solver| |by right].
    by rewrite lookup_insert_ne.
Qed.

Lemma release_all_dead id ts : forall reg,
  lr_leases reg !! id = None \/ id ∈ lr_revoked reg ->
  lr_leases (release_all ts reg) !! id = None \/ id ∈ lr_revoked (release_all ts reg).
Proof.
  induction ts as [|t ts IH]; intros reg Hd; [done|]. apply IH.
  unfold release_acknowledged, release_terminal_lease.
  destruct (transition_ends_hot_lease t); [|done].
  destruct (lr_leases reg !! al_lease_id (lt_lease t)) as [l|]; [|done].
  case_bool_decide; [done|]. cbn.
  destruct (decide (al_lease_id (lt_lease t) = id)) as [->|Hne].
  - left. apply lookup_delete_eq.
  - rewrite lookup_delete_ne by done. set_solver.
Qed.

Lemma lease_step_dead id w w' : LeaseInv w -> lease_step w w' -> dead id w -> dead id w'.
Proof.
  intros Hw Hs Hd.
  destruct Hs as [uuid clk p r eff a reg Hf Ha|uuid clk p r eff g a reg Hf Ha|uuid now i
                 |uuid clk now| |ids Hnd|reg Hc].
  - apply assess_cases in Ha as [_ Ha]. by apply (assessed_dead id w _ _ _ _ _ _ Hw Hf Ha Hd).
  - apply approve_cases in Ha as [Ha _]. by apply (assessed_dead id w _ _ _ _ _ _ Hw Hf Ha Hd).
  - unfold lease_revoke. destruct (lr_leases (w_reg w) !! i) as [l|] eqn:El.
    + case_bool_decide; eapply dead_mono; cbn; try exact Hd; [set_solver|done|by right|set_solver| |].
      * intros Hn. destruct (decide (i = id)) as [->|]; [congruence|by rewrite lookup_insert_ne].
      * right. set_solver.
    + eapply dead_mono; cbn; [exact Hd|set_solver|done|by right].
  - eapply dead_mono; cbn; [exact Hd|set_solver| |by right].
    intros Hn. by rewrite lookup_fmap, Hn.
  - eapply dead_mono; cbn; [exact Hd|done|done|by right].
  - rewrite acknowledge_spec by done. destruct Hd as [Hi Hd]. split; [done|]. cbn.
    by apply release_all_dead.
  - apply claim_operation_claims in Hc as [c ->]. exact Hd.
Qed.

Lemma lease_run_dead id w w' : rtc lease_step w w' -> LeaseInv w -> dead id w -> dead id w'.
Proof. induction 1; eauto using lease_step_inv, lease_step_dead. Qed.

(** A revoked lease is dead.  Once [revoke] answered [true] for a lease id,
    then whatever happens next (assessments, approvals, expirations, hand-overs,
    acknowledgements that drop the lease and its revocation mark from memory),
    no assessment and no approval ever answers with that lease again, not even
    for an idempotency key it had authorized before. *)
Theorem revoked_lease_dead w w' uuid now id :
  rtc lease_step world_new w ->
  (lease_revoke uuid now id (w_reg w)).1 = true ->
  rtc lease_step (advance w (lease_revoke uuid now id (w_reg w)).2 ∅) w' ->
  forall u c p r, lease_name (u 0) ∉ w_issued w' ->
  (forall l, ca_lease (assess_effective secret from_str u c p r (w_reg w')).1.2 = Some l ->
     al_lease_id l <> id) /\
  (forall eff g l, ca_lease (approve_effective secret from_str u c p r eff g (w_reg w')).1 = Some l ->
     al_lease_id l <> id).
Proof.
  intros Hw%lease_run_inv Hr Hrun u c p r Hf.
  pose proof (revoke_inv w uuid now id Hw) as Hw1.
  assert (dead id (advance w (lease_revoke uuid now id (w_reg w)).2 ∅)) as Hd.
  { unfold lease_revoke in *. destruct (lr_leases (w_reg w) !! id) as [l|] eqn:El; [|done].
    destruct (li_named w Hw id l El) as [_ Hi].
    case_bool_decide as Es; split; cbn; try set_solver. right. apply (li_revoked w Hw). eauto. }
  pose proof (lease_run_dead _ _ _ Hrun Hw1 Hd) as Hd'.
  assert (LeaseInv w') as Hw' by (clear -Hrun Hw1; induction Hrun; eauto using lease_step_inv).
  split.
  - destruct (assess_effective _ _ _ _ _ _ _) as [[eff a] reg] eqn:Ea. cbn.
    apply assess_cases in Ea as [_ Ea]. by apply (assessed_dead id w' _ _ _ _ _ _ Hw' Hf Ea Hd').
  - intros eff g. destruct (approve_effective _ _ _ _ _ _ _ _ _) as [a reg] eqn:Ea. cbn.
    apply approve_cases in Ea as [Ea _]. by apply (assessed_dead id w' _ _ _ _ _ _ Hw' Hf Ea Hd').
Qed.
End Runs.
