(* ===== verification/Evidence.v ===== *)
(** * Durable authorization evidence

    [runtime/src/policy/authorization_negotiator.rs]: how lease transitions and
    controlled-recovery claims reach the event store, and
    [record_capability_assessment] of [conversation/turn_engine.rs], which hands
    the queued transitions over.

    The per-stream lock excludes other writers of this process only; what other
    processes commit meanwhile is [env], a function of the store for every place
    where a loop can be overtaken: [env (2 * n)] before the revision is read in
    attempt [n] and [env (2 * n + 1)] between that and the append. *)

From S2P Require Import Prelude Facts Contract Validation Delta Ports EventStore Backend.
From S2P Require Import Approval ApprovalJournal Permissions Negotiator LeaseSafety.

(** ** Records *)

Record ControlledRecoveryClaimRecord := {
  rc_fingerprint : string;
  rc_recovery_scope : string;
  rc_session_id : string;
  rc_turn_id : string;
  rc_execution_id : string;
  rc_capability : string
}.

Record ControlledRecoveryTerminalRecord := {
  rt_recovery_scope : string;
  rt_session_id : string;
  rt_turn_id : string;
  rt_execution_id : string;
  rt_fingerprints : list string
}.

#[export] Instance ControlledRecoveryClaimRecord_eq_dec :
  EqDecision ControlledRecoveryClaimRecord.
Proof. solve_decision. Defined.

(** [serde_json::to_value], [from_value] of the records. *)
Class EvidenceJson (Value : Type) := {
  claim_to_value : ControlledRecoveryClaimRecord -> Value;
  claim_from_value : Value -> Result string ControlledRecoveryClaimRecord;
  terminal_to_value : ControlledRecoveryTerminalRecord -> Value;
  terminal_from_value : Value -> Result string ControlledRecoveryTerminalRecord
}.

Class EvidenceJsonLaws (Value : Type) `{EvidenceJson Value} := {
  claim_roundtrip : forall c, claim_from_value (claim_to_value c) = Ok c;
  terminal_roundtrip : forall t, terminal_from_value (terminal_to_value t) = Ok t
}.

Definition CONTROLLED_RECOVERY_CLAIMED_EVENT : string := "authorization.controlled_recovery_claimed".
Definition CONTROLLED_RECOVERY_TERMINAL_EVENT : string :=
  "authorization.controlled_recovery_terminal".
Definition LEASE_TRANSITION_EVENT : string := "authorization.lease_transition".

(** [controlled_recovery_stream_id], [legacy_controlled_recovery_stream_id],
    [controlled_recovery_claim_idempotency_key],
    [controlled_recovery_terminal_idempotency_key] *)
Definition legacy_controlled_recovery_stream_id (session turn : string) : string :=
  "authorization-recovery:" +:+ session +:+ ":turn:" +:+ turn.
Definition controlled_recovery_stream_id (session turn execution : string) : string :=
  "authorization-recovery:" +:+ session +:+ ":turn:" +:+ turn +:+ ":execution:" +:+ execution.
Definition controlled_recovery_claim_idempotency_key (fingerprint : string) : string :=
  "authorization-recovery-claim:" +:+ fingerprint.
Definition controlled_recovery_terminal_idempotency_key (session turn execution : string) :
  string :=
  "authorization-recovery-terminal:" +:+ session +:+ ":turn:" +:+ turn
  +:+ ":execution:" +:+ execution.

(** [format!("authorization-lease:{}", lease_id)] *)
Definition lease_stream (t : AuthorizationLeaseTransition) : string :=
  "authorization-lease:" +:+ al_lease_id (lt_lease t).
Definition transition_tx (t : AuthorizationLeaseTransition) : string :=
  "authorization-transition:" +:+ lt_transition_id t.

(** [format!("{:?}", kind).to_ascii_lowercase()] *)
Definition transition_kind_status (k : AuthorizationLeaseTransitionKind) : string :=
  match k with
  | TkIssued => "issued" | TkConsumed => "consumed" | TkExpired => "expired"
  | TkRevoked => "revoked"
  end.

Definition event_ref (kind id : string) : RuntimeEventRef := {| ref_kind := kind; ref_id := id |}.

Section Evidence.
Context {Value S : Type} `{EqDecision Value} `{Json Value} `{AuthorizationJson Value}
  `{EvidenceJson Value} `{EventBackend Value S}.

(** A transaction of one event at one expected revision. *)
Definition one_event (tx : string) (stream : string) (revision : N) (kind : string)
    (status : string) (actor : string) (refs : list RuntimeEventRef) (payload : Value)
    (key : string) : AppendTransactionRequest Value :=
  {| rq_transaction_id := tx;
     rq_expected_streams := [{| es_stream_id := stream; es_expected_revision := revision |}];
     rq_events :=
       [{| te_event := {| in_stream_id := stream; in_scope := ScTool; in_kind := kind;
                          in_status := Some status; in_actor := Some actor; in_refs := refs;
                          in_payload := payload |};
           te_idempotency_key := Some key; te_schema_version := 1 |}] |}.

Definition is_race (e : RuntimeEventStoreError) : bool :=
  match e with StoreStaleRevision _ _ _ | TransactionConflict _ => true | _ => false end.

(** ** Lease transitions *)

Section Transition.
Context (env : nat -> S -> S) (stream actor : string) (t : AuthorizationLeaseTransition).

(** [persist_authorization_transition]; [attempts] of the three are left. *)
Fixpoint persist_attempts (attempts : nat) (s : S) : Result string unit * S :=
  match attempts with
  | 0 => (Err ("authorization transition persistence retry budget exhausted: "
               +:+ lt_transition_id t), s)
  | Datatypes.S attempts =>
      let n := 2 - attempts in
      match eb_event_by_key s stream (lt_transition_id t) with
      | Some existing =>
          if String.eqb (ev_kind existing) LEASE_TRANSITION_EVENT
             && bool_decide (ev_payload existing = transition_to_value t)
          then (Ok tt, s)
          else (Err ("authorization transition idempotency collision: " +:+ lt_transition_id t), s)
      | None =>
          let s := env (2 * n) s in
          let request :=
            one_event (transition_tx t) stream (eb_stream_revision s stream) LEASE_TRANSITION_EVENT
              (transition_kind_status (lt_kind t)) actor
              [event_ref "authorization_lease" (al_lease_id (lt_lease t))] (transition_to_value t)
              (lt_transition_id t) in
          let '(res, s) := eb_append request None (env (2 * n + 1) s) in
          match res with
          | Ok _ => (Ok tt, s)
          | Err e => if is_race e && (n <? 2) then persist_attempts attempts s
                     else (Err (store_error_to_string e), s)
          end
      end
  end.

Definition persist_authorization_transition (s : S) : Result string unit * S :=
  persist_attempts 3 s.
End Transition.

(** The hand-over of [record_capability_assessment]: the queued transitions are
    persisted one by one; the first failure leaves it and all later ones queued. *)
Fixpoint persist_pending (env : nat -> nat -> S -> S) (actor : string)
    (pending : list AuthorizationLeaseTransition) (reg : LeaseRegistry) (s : S) :
  LeaseRegistry * S :=
  match pending with
  | [] => (reg, s)
  | t :: pending =>
      let '(res, s) :=
        persist_authorization_transition (env (length pending)) (lease_stream t) actor t s in
      match res with
      | Err _ => (reg, s)
      | Ok _ =>
          persist_pending env actor pending
            (acknowledge_persisted_transitions [lt_transition_id t] reg).2 s
      end
  end.

Definition record_transitions (env : nat -> nat -> S -> S) (actor : string) (reg : LeaseRegistry)
    (store : option S) : LeaseRegistry * option S :=
  match store with
  | None => ((drain_transitions reg).2, None)
  | Some s =>
      let reg := (take_transitions_for_persistence reg).2 in
      let '(reg, s) := persist_pending env actor (lr_awaiting reg) reg s in
      (reg, Some s)
  end.

(** ** Controlled recovery *)

(** [persisted_controlled_recovery_claim] *)
Definition persisted_controlled_recovery_claim (s : S) (stream key : string) :
  Result string (option ControlledRecoveryClaimRecord) :=
  match eb_event_by_key s stream key with
  | None => Ok None
  | Some e => r ← map_err (fun m => "decode controlled recovery claim: " +:+ m)%string
                    (claim_from_value (ev_payload e));
              Ok (Some r)
  end.

Section Claim.
Context (env : nat -> S -> S) (record : ControlledRecoveryClaimRecord).

Let stream : string :=
  controlled_recovery_stream_id (rc_session_id record) (rc_turn_id record) (rc_execution_id record).
Let key : string := controlled_recovery_claim_idempotency_key (rc_fingerprint record).
Let terminal_key : string :=
  controlled_recovery_terminal_idempotency_key (rc_session_id record) (rc_turn_id record)
    (rc_execution_id record).

Definition same_claim (persisted : ControlledRecoveryClaimRecord) : Result string unit :=
  guard_err (negb (bool_decide (persisted = record)))
    "controlled recovery claim identity collision"%string.

(** One attempt answers, or ([None]) is repeated. *)
Definition claim_attempt (n : nat) (s : S) : option (Result string unit) * S :=
  match eb_event_by_key s stream terminal_key with
  | Some _ => (Some (Err "controlled recovery turn is already terminal"%string), s)
  | None =>
      match persisted_controlled_recovery_claim s stream key with
      | Err e => (Some (Err e), s)
      | Ok (Some persisted) => (Some (same_claim persisted), s)
      | Ok None =>
          let s := env (2 * n) s in
          let request :=
            one_event key stream (eb_stream_revision s stream) CONTROLLED_RECOVERY_CLAIMED_EVENT
              "claimed" "authorization_negotiator"
              [event_ref "capability_gap" (rc_fingerprint record);
               event_ref "execution" (rc_execution_id record);
               event_ref "session" (rc_session_id record); event_ref "turn" (rc_turn_id record)]
              (claim_to_value record) key in
          let '(res, s) := eb_append request None (env (2 * n + 1) s) in
          match res with
          | Ok _ => (Some (Ok tt), s)
          | Err e =>
              if is_race e
              then match persisted_controlled_recovery_claim s stream key with
                   | Err e => (Some (Err e), s)
                   | Ok (Some persisted) => (Some (same_claim persisted), s)
                   | Ok None => (None, s)
                   end
              else (Some (Err (store_error_to_string e)), s)
          end
      end
  end.

Fixpoint claim_attempts (attempts : nat) (s : S) : Result string unit * S :=
  match attempts with
  | 0 => (Err "controlled recovery claim persistence conflict retry exhausted"%string, s)
  | Datatypes.S attempts =>
      match claim_attempt (7 - attempts) s with
      | (Some res, s) => (res, s)
      | (None, s) => claim_attempts attempts s
      end
  end.

(** [persist_controlled_recovery_claim] *)
Definition persist_controlled_recovery_claim (s : S) : Result string unit * S :=
  if trim_is_empty (rc_fingerprint record) || trim_is_empty (rc_session_id record)
     || trim_is_empty (rc_turn_id record) || trim_is_empty (rc_execution_id record)
     || negb (String.eqb (rc_recovery_scope record) ("turn:" +:+ rc_turn_id record))
  then (Err "controlled recovery claim requires exact Session/execution/turn identity"%string, s)
  else claim_attempts 8 s.
End Claim.

(** The loop of [load_open_controlled_recovery_claims]. *)
Section Load.
Context (session turn execution : string) (exact_stream : bool).

Definition load_event (state : gmap string ControlledRecoveryClaimRecord * bool)
    (e : DurableRuntimeEvent Value) :
  Result string (gmap string ControlledRecoveryClaimRecord * bool) :=
  let '(claims, terminal) := state in
  if String.eqb (ev_kind e) CONTROLLED_RECOVERY_CLAIMED_EVENT then
    claim ← map_err (fun m => "decode controlled recovery claim: " +:+ m)%string
              (claim_from_value (ev_payload e));
    if negb exact_stream && negb (String.eqb (rc_execution_id claim) execution) then Ok state
    else
      _ ← guard_err (negb (String.eqb (rc_session_id claim) session)
                     || negb (String.eqb (rc_turn_id claim) turn)
                     || negb (String.eqb (rc_execution_id claim) execution)
                     || negb (String.eqb (rc_recovery_scope claim) ("turn:" +:+ turn)))
            "controlled recovery claim escaped its durable turn stream"%string;
      Ok (<[rc_fingerprint claim := claim]> claims, terminal)
  else if String.eqb (ev_kind e) CONTROLLED_RECOVERY_TERMINAL_EVENT then
    settled ← map_err (fun m => "decode controlled recovery terminal: " +:+ m)%string
                (terminal_from_value (ev_payload e));
    if negb exact_stream && negb (String.eqb (rt_execution_id settled) execution) then Ok state
    else
      _ ← guard_err (negb (String.eqb (rt_session_id settled) session)
                     || negb (String.eqb (rt_turn_id settled) turn)
                     || negb (String.eqb (rt_execution_id settled) execution)
                     || negb (String.eqb (rt_recovery_scope settled) ("turn:" +:+ turn)))
            "controlled recovery terminal escaped its durable turn stream"%string;
      Ok (claims, true)
  else Ok state.
End Load.

(** [load_open_controlled_recovery_claims] *)
Definition load_open_controlled_recovery_claims (s : S) (session turn execution : string) :
  Result string (list ControlledRecoveryClaimRecord) :=
  _ ← guard_err (trim_is_empty execution)
        "controlled recovery restore requires an exact execution"%string;
  let exact_events := eb_list_stream s (controlled_recovery_stream_id session turn execution) in
  let '(events, exact_stream) :=
    match exact_events with
    | [] => (eb_list_stream s (legacy_controlled_recovery_stream_id session turn), false)
    | _ => (exact_events, true)
    end in
  state ← try_fold (load_event session turn execution exact_stream) (∅, false) events;
  Ok (if state.2 : bool then [] else btree_values state.1).

(** [controlled_recovery_terminal_event] *)
Definition controlled_recovery_terminal_event (record : ControlledRecoveryTerminalRecord) :
  Result string (RuntimeTransactionEventInput Value) :=
  _ ← guard_err (negb (String.eqb (rt_recovery_scope record) ("turn:" +:+ rt_turn_id record)))
        "controlled recovery terminal requires an exact turn scope"%string;
  Ok {| te_event :=
          {| in_stream_id := controlled_recovery_stream_id (rt_session_id record)
                               (rt_turn_id record) (rt_execution_id record);
             in_scope := ScTool; in_kind := CONTROLLED_RECOVERY_TERMINAL_EVENT;
             in_status := Some "terminal"%string; in_actor := Some "SynthesizeNodeExecutor"%string;
             in_refs := [event_ref "execution" (rt_execution_id record);
                         event_ref "session" (rt_session_id record);
                         event_ref "turn" (rt_turn_id record)];
             in_payload := terminal_to_value record |};
        te_idempotency_key :=
          Some (controlled_recovery_terminal_idempotency_key (rt_session_id record)
                  (rt_turn_id record) (rt_execution_id record));
        te_schema_version := 1 |}.

(** [is_controlled_recovery_terminal_event] *)
Definition is_controlled_recovery_terminal_event (i : RuntimeEventInput Value) : bool :=
  if negb (bool_decide (in_scope i = ScTool))
     || negb (String.eqb (in_kind i) CONTROLLED_RECOVERY_TERMINAL_EVENT)
     || negb (bool_decide (in_status i = Some "terminal"%string))
  then false
  else match terminal_from_value (in_payload i) with
  | Err _ => false
  | Ok record =>
      String.eqb (rt_recovery_scope record) ("turn:" +:+ rt_turn_id record)
      && String.eqb (in_stream_id i)
           (controlled_recovery_stream_id (rt_session_id record) (rt_turn_id record)
              (rt_execution_id record))
      && memb (in_refs i) (event_ref "execution" (rt_execution_id record))
      && memb (in_refs i) (event_ref "session" (rt_session_id record))
      && memb (in_refs i) (event_ref "turn" (rt_turn_id record))
  end.
End Evidence.

(** ** Transitions become durable *)

Section Durable.
Context {Value S : Type} `{EqDecision Value} `{Json Value} `{AuthorizationJson Value}
  `{EvidenceJson Value} `{EventBackend Value S} `{ScopeReads Value S} `{!Journal Value S}.

(** The transitions of the system; their ids identify them. *)
Context (known : AuthorizationLeaseTransition -> Prop).
Context (known_unique : forall t t', known t -> known t' ->
  lt_transition_id t = lt_transition_id t' -> t = t').

Definition persisted (s : S) (t : AuthorizationLeaseTransition) : Prop :=
  exists e, eb_event_by_key s (lease_stream t) (lt_transition_id t) = Some e /\
    ev_kind e = LEASE_TRANSITION_EVENT /\ ev_payload e = transition_to_value t.

(** The transaction of a transition is only used to record it. *)
Definition evidence_ok (s : S) : Prop :=
  jl_inv s /\ forall t, known t -> jl_used s (transition_tx t) -> persisted s t.

(** What other processes may do to the store. *)
Record respects (f : S -> S) : Prop := {
  re_ok : forall s, evidence_ok s -> evidence_ok (f s);
  re_kept : forall s t, evidence_ok s -> persisted s t -> persisted (f s) t;
  re_key : forall s t, evidence_ok s -> known t ->
    eb_event_by_key s (lease_stream t) (lt_transition_id t) = None ->
    eb_event_by_key (f s) (lease_stream t) (lt_transition_id t) = None \/ persisted (f s) t
}.

Lemma by_key_append s s' evs stream key e :
  jl_inv s -> jl_inv s' -> jl_journal s' = jl_journal s ++ evs ->
  eb_event_by_key s stream key = Some e -> eb_event_by_key s' stream key = Some e.
Proof.
  intros Hs Hs' Hj. rewrite !jl_by_key, !jl_stream, Hj, !List.filter_app by done.
  by destruct (List.filter _ (List.filter _ (jl_journal s))).
Qed.

Lemma by_key_new s s' e stream key :
  jl_inv s -> jl_inv s' -> jl_journal s' = jl_journal s ++ [e] ->
  ev_stream_id e = stream -> ev_idempotency_key e = Some key ->
  eb_event_by_key s stream key = None -> eb_event_by_key s' stream key = Some e.
Proof.
  intros Hs Hs' Hj He Hk. rewrite !jl_by_key, !jl_stream, Hj, !List.filter_app by done.
  intros Hn. destruct (List.filter _ (List.filter _ (jl_journal s))); [|done]. cbn.
  unfold on_stream. rewrite He, String.eqb_refl. cbn. by rewrite bool_decide_true.
Qed.

Lemma transition_tx_inj t t' :
  transition_tx t = transition_tx t' -> lt_transition_id t = lt_transition_id t'.
Proof. unfold transition_tx. intros E. by injection E. Qed.

Lemma append_transition actor t s revision status refs res s' :
  evidence_ok s -> known t ->
  (eb_event_by_key s (lease_stream t) (lt_transition_id t) = None \/ persisted s t) ->
  eb_append (one_event (transition_tx t) (lease_stream t) revision LEASE_TRANSITION_EVENT
    status actor refs (transition_to_value t) (lt_transition_id t)) None s = (res, s') ->
  evidence_ok s' /\ (forall t', persisted s t' -> persisted s' t') /\
  (is_ok res = true -> persisted s' t).
Proof.
  intros [Hi Hu] Hk Hn Ha. destruct (jl_append _ _ _ _ _ Hi Ha)
    as [[-> Hd]|(rcp & evs & -> & Hi' & Hnu & Hused & _ & Hj & Hv)].
  { split; [done|]. split; [done|]. destruct res as [rcp|]; [|done]. intros _.
    apply Hu; [done|]. by apply (Hd rcp). }
  assert (forall t', persisted s t' -> persisted s' t') as Hmono.
  { intros t' (e & He & Hx). exists e. split; [|done]. by apply (by_key_append s s' evs). }
  cbn in Hv. destruct evs as [|e [|]]; try done. injection Hv as E1 _ E3 _ E5 E6.
  assert (persisted s' t) as Hp.
  { destruct Hn as [Hn|Hn]; [|auto]. exists e. split; [|done].
    by apply (by_key_new s s' e). }
  split; [split; [done|]|done].
  intros t' Hk' [E|Hu']%Hused; [|auto]. cbn in E. apply transition_tx_inj in E.
  by rewrite (known_unique t' t Hk' Hk E).
Qed.

Lemma persist_attempts_spec env actor t attempts : forall s res s',
  (forall n, respects (env n)) -> evidence_ok s -> known t ->
  persist_attempts env (lease_stream t) actor t attempts s = (res, s') ->
  evidence_ok s' /\ (forall t', persisted s t' -> persisted s' t') /\
  (is_ok res = true -> persisted s' t).
Proof.
  induction attempts as [|k IH]; intros s res s' Henv Hs Hk Hp; cbn -[Nat.mul] in Hp.
  { by injection Hp as <- <-. }
  destruct (eb_event_by_key s _ _) as [e|] eqn:Ee.
  { destruct (_ && _) eqn:Em; injection Hp as <- <-; [|done]. split; [done|]. split; [done|].
    intros _. apply andb_prop in Em as [E1%String.eqb_eq E2%bool_decide_eq_true]. by exists e. }
  set (s1 := env (2 * (2 - k)) s) in *. set (s2 := env (2 * (2 - k) + 1) s1) in *.
  pose proof (re_ok _ (Henv (2 * (2 - k))) s Hs) as Hs1. fold s1 in Hs1.
  pose proof (re_ok _ (Henv (2 * (2 - k) + 1)) s1 Hs1) as Hs2. fold s2 in Hs2.
  assert (forall t', persisted s t' -> persisted s2 t') as M2.
  { intros t' Ht'. apply (re_kept _ (Henv (2 * (2 - k) + 1))); [done|].
    by apply (re_kept _ (Henv (2 * (2 - k)))). }
  assert (eb_event_by_key s2 (lease_stream t) (lt_transition_id t) = None \/ persisted s2 t) as Hn.
  { destruct (re_key _ (Henv (2 * (2 - k))) s t Hs Hk Ee) as [Hn|Hn].
    - by apply (re_key _ (Henv (2 * (2 - k) + 1))).
    - right. by apply (re_kept _ (Henv (2 * (2 - k) + 1))). }
  destruct (eb_append _ None s2) as [r s3] eqn:Ea.
  destruct (append_transition _ _ _ _ _ _ _ _ Hs2 Hk Hn Ea) as (Hs3 & M3 & Hr).
  destruct r as [rcp|e].
  { injection Hp as <- <-. split; [done|]. split; auto. }
  destruct (is_race e && _); [|injection Hp as <- <-; split; [done|]; split; auto; done].
  apply IH in Hp as (A1 & A2 & A3); [|done..]. split; [done|]. split; auto.
Qed.

(** Evidence of a lease is recorded at most once and never silently lost.
    Whatever other processes commit during the retries of
    [persist_authorization_transition] (each respecting the rule that a
    transition's key and transaction belong to it), an [Ok] means that the
    lease's stream holds the transition under its id, with exactly this content;
    nothing recorded before is lost; and a repeated call answers [Ok] without
    writing. *)
Theorem persisted_transition_recorded env actor t s res s' :
  (forall n, respects (env n)) -> evidence_ok s -> known t ->
  persist_authorization_transition env (lease_stream t) actor t s = (res, s') ->
  evidence_ok s' /\ (forall t', persisted s t' -> persisted s' t') /\
  (is_ok res = true -> persisted s' t /\
     persist_authorization_transition env (lease_stream t) actor t s' = (Ok tt, s')).
Proof.
  intros Henv Hs Hk Hp.
  destruct (persist_attempts_spec env actor t 3 s res s' Henv Hs Hk Hp) as (A1 & A2 & A3).
  split; [done|]. split; [done|]. intros Hr. split; [auto|].
  destruct (A3 Hr) as (e & He & Ek & Ep). unfold persist_authorization_transition.
  cbn [persist_attempts]. by rewrite He, Ek, Ep, String.eqb_refl, bool_decide_true.
Qed.

(** *** The hand-over *)

Lemma acknowledge_one t rest reg :
  lr_awaiting reg = t :: rest -> NoDup (lt_transition_id <$> lr_awaiting reg) ->
  (acknowledge_persisted_transitions [lt_transition_id t] reg).2 = acknowledge_first 1 reg.
Proof.
  intros Haw Hd. rewrite acknowledge_spec by done. cbn [snd]. rewrite Haw in *. f_equal. cbn.
  rewrite bool_decide_true by set_solver. f_equal.
  rewrite fmap_cons, NoDup_cons in Hd. destruct Hd as [Hd _].
  destruct rest as [|t' rest]; [done|]. cbn. rewrite bool_decide_false; [done|].
  intros Hin. apply Hd. rewrite union_empty_r_L in Hin. apply elem_of_singleton in Hin.
  rewrite <- Hin. by left.
Qed.

(** The registry after a hand-over acknowledged the first [n] transitions, all
    of which are recorded. *)
Lemma persist_pending_spec env actor pending : forall reg s reg' s',
  (forall i n, respects (env i n)) -> evidence_ok s ->
  lr_awaiting reg = pending -> NoDup (lt_transition_id <$> pending) ->
  (forall t, t ∈ pending -> known t) ->
  persist_pending env actor pending reg s = (reg', s') ->
  exists n, n <= length pending /\ reg' = acknowledge_first n reg /\ evidence_ok s' /\
    (forall t, persisted s t -> persisted s' t) /\
    (forall t, t ∈ take n pending -> persisted s' t).
Proof.
  induction pending as [|t pending IH]; intros reg s reg' s' Henv Hs Haw Hd Hk Hp;
    cbn [persist_pending] in Hp.
  { injection Hp as <- <-. exists 0. split; [done|].
    split; [|split; [done|split; [done|by intros t ?%not_elem_of_nil]]].
    unfold acknowledge_first, release_all. rewrite Haw. cbn. by destruct reg; cbn in *; subst. }
  destruct (persist_authorization_transition _ _ _ t s) as [res s1] eqn:E.
  destruct (persist_attempts_spec (env (length pending)) actor t 3 s res s1) as (Hs1 & M1 & Hr);
    [done|done|apply Hk; by left|exact E|].
  destruct res as [[]|e].
  - rewrite (acknowledge_one t pending) in Hp; [|done|by rewrite Haw].
    apply IH in Hp as (n & Hn & -> & Hs' & M2 & Ht); [|done|done| | |].
    + exists (Datatypes.S n). split; [cbn; lia|]. split; [by rewrite (acknowledge_first_S n t pending)|].
      split; [done|]. split; [auto|]. intros t' [->|Hin]%elem_of_cons; [apply M2, Hr; done|auto].
    + unfold acknowledge_first. by rewrite Haw.
    + by rewrite fmap_cons, NoDup_cons in Hd; destruct Hd.
    + intros t' Hin. apply Hk. by right.
  - injection Hp as <- <-. exists 0. split; [lia|]. split; [|split; [done|split; [done|]]].
    + unfold acknowledge_first, release_all. cbn. by destruct reg.
    + by intros t' ?%not_elem_of_nil.
Qed.

(** *** Runs with a store *)

Context (secret : string) (from_str : string -> option Value) `{!Digest Value}.

(** The registry of a process and the durable store. *)
Inductive audited_step : World * S -> World * S -> Prop :=
| AuditOperation w w' s :
    lease_step secret from_str w w' -> w_acked w' = w_acked w -> audited_step (w, s) (w', s)
| AuditOthers w s f : respects f -> audited_step (w, s) (w, f s)
| AuditRecord env actor w s reg s' :
    (forall i n, respects (env i n)) ->
    NoDup (lt_transition_id <$> lr_awaiting (w_reg w) ++ lr_transitions (w_reg w)) ->
    (forall t, t ∈ lr_awaiting (w_reg w) ++ lr_transitions (w_reg w) -> known t) ->
    record_transitions env actor (w_reg w) (Some s) = (reg, Some s') ->
    audited_step (w, s)
      ({| w_reg := reg; w_log := w_log w;
          w_acked := w_acked w
            ++ take (length (lr_awaiting (w_reg w) ++ lr_transitions (w_reg w))
                     - length (lr_awaiting reg))
                 (lr_awaiting (w_reg w) ++ lr_transitions (w_reg w));
          w_answers := w_answers w; w_issued := w_issued w |}, s').

Record AuditInv (ws : World * S) : Prop := {
  ai_leases : LeaseInv secret ws.1;
  ai_store : evidence_ok ws.2;
  ai_durable : forall t, t ∈ w_acked ws.1 -> persisted ws.2 t
}.

Lemma record_inv env actor w s reg s' :
  (forall i n, respects (env i n)) -> AuditInv (w, s) ->
  NoDup (lt_transition_id <$> lr_awaiting (w_reg w) ++ lr_transitions (w_reg w)) ->
  (forall t, t ∈ lr_awaiting (w_reg w) ++ lr_transitions (w_reg w) -> known t) ->
  record_transitions env actor (w_reg w) (Some s) = (reg, Some s') ->
  AuditInv ({| w_reg := reg; w_log := w_log w;
      w_acked := w_acked w
        ++ take (length (lr_awaiting (w_reg w) ++ lr_transitions (w_reg w))
                 - length (lr_awaiting reg))
             (lr_awaiting (w_reg w) ++ lr_transitions (w_reg w));
      w_answers := w_answers w; w_issued := w_issued w |}, s').
Proof.
  intros Henv [Hw Hs Hd] Hnd Hk Hr. cbn in Hw, Hs, Hd.
  unfold record_transitions, take_transitions_for_persistence in Hr. cbn [snd] in Hr.
  cbn [lr_awaiting set_queues] in Hr.
  destruct (persist_pending _ _ _ _ _) as [reg1 s1] eqn:E. injection Hr as -> ->.
  set (q := lr_awaiting (w_reg w) ++ lr_transitions (w_reg w)) in *.
  apply persist_pending_spec in E as (n & Hn & -> & Hs' & M & Ht); [|done..].
  pose proof (take_inv secret w Hw) as Hw1. apply (acknowledge_first_inv secret from_str n) in Hw1.
  cbn -[acknowledge_first] in Hw1. fold q in Hw1.
  replace (length q - length _) with n.
  2: { unfold acknowledge_first. cbn. fold q. rewrite length_drop. lia. }
  split; cbn -[acknowledge_first]; [done|done|].
  intros t [?|?]%elem_of_app; auto.
Qed.

Lemma audited_step_inv ws ws' : AuditInv ws -> audited_step ws ws' -> AuditInv ws'.
Proof.
  intros Hi Hs. destruct Hs as [w w' s Hl Ha|w s f Hf|env actor w s reg s' Henv Hd Hk Hr].
  - destruct Hi as [Hw Hs Hd]. split; cbn in *; [|done|by rewrite Ha].
    by apply (lease_step_inv secret from_str w).
  - destruct Hi as [Hw Hs Hd]. cbn in *. split; cbn; [done|by apply (re_ok _ Hf)|].
    intros t Ht. apply (re_kept _ Hf); auto.
  - by eapply record_inv.
Qed.

Lemma audited_run_inv ws ws' : rtc audited_step ws ws' -> AuditInv ws -> AuditInv ws'.
Proof. induction 1; eauto using audited_step_inv. Qed.

(** An ended lease is on record.  In every run of a registry with its store,
    whatever other processes append and whichever hand-overs fail half-way: each
    transition the registry stopped waiting for is in the store with its exact
    content, so a lease that left the registry (and whose authority the process
    has therefore forgotten) has a durable transition that ended it. *)
Theorem ended_lease_is_on_record s0 w s :
  evidence_ok s0 -> rtc audited_step (world_new, s0) (w, s) ->
  (forall t, t ∈ w_acked w -> persisted s t) /\
  (forall id, id ∈ w_issued w -> lr_leases (w_reg w) !! id = None ->
     exists t, persisted s t /\ transition_ends_hot_lease t = true /\
               al_lease_id (lt_lease t) = id) /\
  w_log w = w_acked w ++ lr_awaiting (w_reg w) ++ lr_transitions (w_reg w).
Proof.
  intros Hs Hr.
  assert (AuditInv (world_new, s0)) as Hi.
  { split; cbn; [apply (LeaseInv_new secret from_str)|done|by intros t ?%not_elem_of_nil]. }
  destruct (audited_run_inv _ _ Hr Hi) as [Hw Hs' Hd].
  cbn in *. split; [done|]. split; [|apply (li_queue _ _ Hw)].
  intros id Hid Hn. destruct (li_released _ _ Hw id Hid Hn) as (t & Ht & ?). eauto.
Qed.
End Durable.


(** ** Controlled recovery over a journal *)

Section Recovery.
Context {Value S : Type} `{EqDecision Value} `{Json Value} `{AuthorizationJson Value}
  `{EvidenceJson Value} `{!EvidenceJsonLaws Value} `{EventBackend Value S} `{ScopeReads Value S}
  `{!Journal Value S}.

Abbreviation Event := (DurableRuntimeEvent Value).

(** The graph may commit exactly the terminal Runtime builds.  The event of
    [controlled_recovery_terminal_event] passes
    [is_controlled_recovery_terminal_event]; and an event of tool scope that
    passes decodes to a terminal record of the turn and execution whose stream
    it is written to. *)
Theorem terminal_event_admitted record i :
  (controlled_recovery_terminal_event record = Ok i ->
     is_controlled_recovery_terminal_event (te_event i) = true) /\
  (is_controlled_recovery_terminal_event (te_event i) = true ->
     exists r, terminal_from_value (in_payload (te_event i)) = Ok r /\
       in_stream_id (te_event i)
         = controlled_recovery_stream_id (rt_session_id r) (rt_turn_id r) (rt_execution_id r) /\
       rt_recovery_scope r = ("turn:" +:+ rt_turn_id r)%string).
Proof.
  split.
  - unfold controlled_recovery_terminal_event. intros Ho.
    apply bind_Ok_inv in Ho as ([] & Hg%guard_err_Ok_inv%negb_false_iff & Ho). injection Ho as <-.
    unfold is_controlled_recovery_terminal_event. cbn. rewrite terminal_roundtrip, String.eqb_refl.
    rewrite Hg. cbn. by rewrite !(proj2 (memb_true _ _)) by (repeat first [left|right]).
  - unfold is_controlled_recovery_terminal_event. destruct (_ || _); [done|].
    destruct (terminal_from_value _) as [r|]; [|done].
    intros [[[[E1%String.eqb_eq E2%String.eqb_eq]%andb_prop _]%andb_prop _]%andb_prop _]%andb_prop.
    exists r. done.
Qed.

Section Stream.
Context (session turn execution : string).

Let stream : string := controlled_recovery_stream_id session turn execution.

(** What the recovery stream of an execution holds. *)
Definition claim_event (c : ControlledRecoveryClaimRecord) (e : Event) : Prop :=
  ev_kind e = CONTROLLED_RECOVERY_CLAIMED_EVENT /\ ev_payload e = claim_to_value c /\
  ev_idempotency_key e = Some (controlled_recovery_claim_idempotency_key (rc_fingerprint c)) /\
  rc_session_id c = session /\ rc_turn_id c = turn /\ rc_execution_id c = execution /\
  rc_recovery_scope c = ("turn:" +:+ turn)%string.

Definition terminal_event (e : Event) : Prop :=
  ev_kind e = CONTROLLED_RECOVERY_TERMINAL_EVENT /\
  ev_idempotency_key e
    = Some (controlled_recovery_terminal_idempotency_key session turn execution) /\
  exists r, ev_payload e = terminal_to_value r /\ rt_session_id r = session /\
    rt_turn_id r = turn /\ rt_execution_id r = execution /\
    rt_recovery_scope r = ("turn:" +:+ turn)%string.

Definition recovery_stream (events : list Event) : Prop :=
  NoDup (ev_idempotency_key <$> events) /\
  forall e, e ∈ events -> (exists c, claim_event c e) \/ terminal_event e.

Definition is_terminal (e : Event) : bool :=
  String.eqb (ev_kind e) CONTROLLED_RECOVERY_TERMINAL_EVENT.

Lemma load_claim_event exact claims terminal c e :
  claim_event c e ->
  load_event session turn execution exact (claims, terminal) e
    = Ok (<[rc_fingerprint c := c]> claims, terminal).
Proof.
  intros (Hk & Hp & _ & <- & <- & <- & Hs). unfold load_event.
  rewrite Hk, String.eqb_refl, Hp, claim_roundtrip. cbn. rewrite Hs, !String.eqb_refl. cbn.
  by rewrite andb_false_r.
Qed.

Lemma load_terminal_event exact claims terminal e :
  terminal_event e -> load_event session turn execution exact (claims, terminal) e
    = Ok (claims, true).
Proof.
  intros (Hk & _ & r & Hp & <- & <- & <- & Hs). unfold load_event.
  rewrite Hk, Hp, terminal_roundtrip. cbn. rewrite Hs, !String.eqb_refl. cbn.
  by rewrite andb_false_r.
Qed.

Lemma recovery_stream_snoc events e :
  recovery_stream (events ++ [e]) -> recovery_stream events.
Proof.
  intros [Hd He]. rewrite fmap_app, NoDup_app in Hd. destruct Hd as (Hd & _).
  split; [done|]. intros x Hx. apply He, elem_of_app. by left.
Qed.

Lemma try_fold_snoc {E A B} (f : B -> A -> Result E B) s l x s1 :
  try_fold f s l = Ok s1 -> try_fold f s (l ++ [x]) = f s1 x.
Proof. intros Hl. rewrite try_fold_app, Hl. cbn. by destruct (f s1 x). Qed.

(** The loop of [load_open_controlled_recovery_claims] on such a stream. *)
Lemma load_fold exact events :
  recovery_stream events -> exists claims,
    try_fold (load_event session turn execution exact) (∅, false) events
      = Ok (claims, existsb is_terminal events) /\
    forall c e, e ∈ events -> claim_event c e -> claims !! rc_fingerprint c = Some c.
Proof.
  induction events as [|e events IH] using rev_ind; intros Hr.
  { exists ∅. split; [done|]. by intros c e ?%not_elem_of_nil. }
  destruct (IH (recovery_stream_snoc _ _ Hr)) as (claims & Hf & Hc).
  rewrite (try_fold_snoc _ _ _ _ _ Hf), existsb_app.
  destruct Hr as [Hd He].
  destruct (He e) as [(c & Hce)|Ht]; [apply elem_of_app; right; by left| |].
  - exists (<[rc_fingerprint c := c]> claims). split.
    + rewrite (load_claim_event _ _ _ c) by done.
      assert (is_terminal e = false) as Hte by (unfold is_terminal; by rewrite (proj1 Hce)).
      cbn [existsb]. by rewrite Hte, !orb_false_r.
    + intros c' e' Hin Hce'. destruct (decide (rc_fingerprint c = rc_fingerprint c')) as [Ef|Ef].
      * rewrite <- Ef, lookup_insert_eq. f_equal.
        apply elem_of_app in Hin as [Hin| ->%list_elem_of_singleton].
        -- rewrite fmap_app, NoDup_app in Hd. destruct Hd as (_ & Hd & _).
           destruct (Hd (ev_idempotency_key e)); [|cbn; by left].
           destruct Hce as (_ & _ & -> & _). rewrite Ef. apply list_elem_of_fmap.
           exists e'. split; [by destruct Hce' as (_ & _ & -> & _)|done].
        -- destruct Hce as (_ & E1 & _), Hce' as (_ & E2 & _).
           enough (@Ok string _ c = Ok c') as [= ->] by done.
           by rewrite <- !claim_roundtrip, <- E1, <- E2.
      * rewrite lookup_insert_ne by done.
        apply elem_of_app in Hin as [Hin| ->%list_elem_of_singleton]; [by apply (Hc c' e')|].
        destruct Hce as (_ & E1 & _), Hce' as (_ & E2 & _). destruct Ef.
        enough (@Ok string _ c = Ok c') as [= ->] by done.
        by rewrite <- !claim_roundtrip, <- E1, <- E2.
  - exists claims. split.
    + rewrite load_terminal_event by done.
      assert (is_terminal e = true) as Hte by (unfold is_terminal; by rewrite (proj1 Ht)).
      cbn [existsb]. by rewrite Hte, orb_true_r.
    + intros c' e' [Hin| ->%list_elem_of_singleton]%elem_of_app Hce'; [by apply (Hc c' e')|].
      destruct Ht as [Hk _], Hce' as [Hk' _]. by rewrite Hk in Hk'.
Qed.
End Stream.

Lemma by_key_elem s stream key e :
  jl_inv s -> e ∈ eb_list_stream s stream -> ev_idempotency_key e = Some key ->
  exists e', eb_event_by_key s stream key = Some e' /\ e' ∈ eb_list_stream s stream /\
    ev_idempotency_key e' = Some key.
Proof.
  intros Hi He Hk. rewrite jl_by_key by done.
  destruct (List.filter _ _) as [|e' l] eqn:Ef.
  - exfalso. assert (e ∈ (@nil Event)) as []%not_elem_of_nil. rewrite <- Ef.
    apply elem_of_filterb. split; [done|]. by apply bool_decide_eq_true.
  - exists e'. assert (e' ∈ e' :: l) as Hin by left. rewrite <- Ef in Hin.
    by apply elem_of_filterb in Hin as [? ?%bool_decide_eq_true].
Qed.

Lemma by_key_inv s stream key e :
  jl_inv s -> eb_event_by_key s stream key = Some e ->
  e ∈ eb_list_stream s stream /\ ev_idempotency_key e = Some key.
Proof.
  intros Hi. rewrite jl_by_key by done. intros He.
  destruct (List.filter _ _) as [|e' l] eqn:Ef; [done|]. injection He as ->.
  assert (e ∈ e :: l) as Hin by left. rewrite <- Ef in Hin.
  by apply elem_of_filterb in Hin as [? ?%bool_decide_eq_true].
Qed.

(** A settled turn stays closed.  Once the recovery stream of an execution
    holds its terminal event, then whatever is appended later (claims included),
    loading the open claims gives none (or reports a corrupt stream), and a
    further claim for that execution is refused without a write. *)
Theorem settled_turn_stays_closed session turn execution s s' evs e :
  jl_inv s -> jl_inv s' -> jl_journal s' = jl_journal s ++ evs ->
  e ∈ eb_list_stream s (controlled_recovery_stream_id session turn execution) ->
  terminal_event session turn execution e ->
  (forall l, load_open_controlled_recovery_claims s' session turn execution = Ok l -> l = []) /\
  (forall env record, rc_session_id record = session -> rc_turn_id record = turn ->
     rc_execution_id record = execution -> exists m,
     persist_controlled_recovery_claim env record s' = (Err m, s')).
Proof.
  intros Hi Hi' Hj He (Hk & Hkey & _).
  set (stream := controlled_recovery_stream_id session turn execution) in *.
  assert (e ∈ eb_list_stream s' stream) as He'.
  { rewrite jl_stream in He |- * by done. rewrite Hj, List.filter_app. apply elem_of_app. by left. }
  split.
  - intros l Hl. unfold load_open_controlled_recovery_claims in Hl. fold stream in Hl.
    apply bind_Ok_inv in Hl as ([] & _ & Hl).
    destruct (eb_list_stream s' stream) as [|e0 es]; [by apply not_elem_of_nil in He'|].
    apply bind_Ok_inv in Hl as ([claims terminal] & Hf & Hl). injection Hl as <-.
    enough (terminal = true) as -> by done.
    assert (existsb is_terminal (e0 :: es) = true) as Hx.
    { apply existsb_elem_of. exists e. split; [done|]. unfold is_terminal. by rewrite Hk. }
    revert Hf Hx. generalize (e0 :: es). intros l.
    apply (try_fold_ind _ (fun l st => existsb is_terminal l = true -> st.2 = true)); [done|].
    intros l1 x [c1 t1] [c2 t2] IH Hs. rewrite existsb_app. cbn [existsb snd] in *.
    unfold load_event in Hs. unfold is_terminal at 2.
    destruct (String.eqb_spec (ev_kind x) CONTROLLED_RECOVERY_CLAIMED_EVENT) as [->|_].
    + cbn. rewrite !orb_false_r. apply bind_Ok_inv in Hs as (c & _ & Hs). cbn in Hs.
      apply bind_Ok_inv in Hs as ([] & _ & Hs). by injection Hs as <- <-.
    + destruct (String.eqb_spec (ev_kind x) CONTROLLED_RECOVERY_TERMINAL_EVENT).
      * apply bind_Ok_inv in Hs as (c & _ & Hs). cbn in Hs.
        apply bind_Ok_inv in Hs as ([] & _ & Hs). by injection Hs as <- <-.
      * rewrite !orb_false_r. by injection Hs as <- <-.
  - intros env record <- <- <-. unfold persist_controlled_recovery_claim.
    destruct (_ || _); [by eexists|]. cbn [claim_attempts]. unfold claim_attempt.
    destruct (by_key_elem s' stream _ e Hi' He' Hkey) as (e' & Hb & _).
    unfold stream in Hb. rewrite Hb. by eexists.
Qed.

Section Restore.
Context (record : ControlledRecoveryClaimRecord).

Let session := rc_session_id record.
Let turn := rc_turn_id record.
Let execution := rc_execution_id record.
Let stream : string := controlled_recovery_stream_id session turn execution.
Let key : string := controlled_recovery_claim_idempotency_key (rc_fingerprint record).

(** The stream of the execution as Runtime writes it, and the claim's
    transaction not used elsewhere. *)
Definition claimable (s : S) : Prop :=
  jl_inv s /\ recovery_stream session turn execution (eb_list_stream s stream) /\
  (jl_used s key -> exists e, eb_event_by_key s stream key = Some e).

Definition claimed (s : S) : Prop :=
  jl_inv s /\ recovery_stream session turn execution (eb_list_stream s stream) /\
  existsb is_terminal (eb_list_stream s stream) = false /\
  exists e, e ∈ eb_list_stream s stream /\ claim_event session turn execution record e.

Lemma not_settled s :
  jl_inv s -> recovery_stream session turn execution (eb_list_stream s stream) ->
  eb_event_by_key s stream (controlled_recovery_terminal_idempotency_key session turn execution)
    = None -> existsb is_terminal (eb_list_stream s stream) = false.
Proof.
  intros Hi [_ Hr] Hn. apply existsb_false. intros e He.
  destruct (Hr e He) as [(c & Hk & _)|(_ & Hk & _)]; [unfold is_terminal; by rewrite Hk|].
  destruct (by_key_elem s stream _ e Hi He Hk) as (e' & Hb & _). by rewrite Hb in Hn.
Qed.

Lemma claimed_existing s persisted :
  jl_inv s -> recovery_stream session turn execution (eb_list_stream s stream) ->
  eb_event_by_key s stream (controlled_recovery_terminal_idempotency_key session turn execution)
    = None ->
  persisted_controlled_recovery_claim s stream key = Ok (Some persisted) ->
  same_claim record persisted = Ok tt -> claimed s.
Proof.
  intros Hi Hr Hn Hp Hs. split; [done|]. split; [done|]. split; [by apply not_settled|].
  unfold persisted_controlled_recovery_claim in Hp.
  destruct (eb_event_by_key s stream key) as [e|] eqn:Hb; [|done].
  apply by_key_inv in Hb as [He Hk]; [|done].
  apply bind_Ok_inv in Hp as (c & Hc%map_err_Ok_inv & Hp). injection Hp as ->.
  apply guard_err_Ok_inv, negb_false_iff, bool_decide_eq_true in Hs as ->.
  exists e. split; [done|]. destruct Hr as [_ Hr].
  destruct (Hr e He) as [(c & Hce)|(_ & Hk' & _)]; [|by rewrite Hk in Hk'].
  enough (record = c) as Ec by (rewrite Ec at 1; done).
  destruct Hce as (_ & E & _). rewrite E, claim_roundtrip in Hc. by injection Hc.
Qed.

Lemma claimed_fresh s s' evs refs status actor revision :
  claimable s -> jl_inv s' -> rc_recovery_scope record = ("turn:" +:+ turn)%string ->
  eb_event_by_key s stream (controlled_recovery_terminal_idempotency_key session turn execution)
    = None ->
  eb_event_by_key s stream key = None ->
  jl_journal s' = jl_journal s ++ evs ->
  event_view <$> evs = input_view <$> rq_events
    (one_event key stream revision CONTROLLED_RECOVERY_CLAIMED_EVENT status actor refs
       (claim_to_value record) key) ->
  claimed s'.
Proof.
  intros (Hi & Hr & _) Hi' Hsc Hnt Hn Hj Hv.
  cbn in Hv. destruct evs as [|e [|]]; try done. injection Hv as E1 _ E3 _ E5 E6.
  assert (eb_list_stream s' stream = eb_list_stream s stream ++ [e]) as Hst.
  { rewrite !jl_stream, Hj, List.filter_app by done. f_equal. cbn. unfold on_stream.
    by rewrite E1, String.eqb_refl. }
  assert (claim_event session turn execution record e) as Hce by done.
  split; [done|]. rewrite Hst. split; [|split].
  - destruct Hr as [Hd Hr]. split.
    + rewrite fmap_app. apply NoDup_app. split; [done|]. split; [|apply NoDup_singleton].
      intros k (e' & -> & He')%list_elem_of_fmap Hk%list_elem_of_singleton. rewrite E6 in Hk.
      destruct (by_key_elem s stream key e' Hi He' Hk) as (? & Hb & _). by rewrite Hb in Hn.
    + intros e' [He'| ->%list_elem_of_singleton]%elem_of_app; [auto|left; eauto].
  - rewrite existsb_app, (not_settled s) by done. cbn. unfold is_terminal. by rewrite E3.
  - exists e. split; [apply elem_of_app; right; by left|done].
Qed.

Lemma claim_attempts_claimed attempts s s' :
  claimable s -> rc_recovery_scope record = ("turn:" +:+ turn)%string ->
  claim_attempts (fun _ s => s) record attempts s = (Ok tt, s') -> claimed s'.
Proof.
  intros Hs Hsc. induction attempts as [|k IH]; [done|]. cbn [claim_attempts].
  unfold claim_attempt. fold session turn execution stream key.
  destruct (eb_event_by_key s stream (controlled_recovery_terminal_idempotency_key _ _ _)) as [t|]
    eqn:Et; [done|].
  destruct Hs as (Hi & Hr & Hu).
  destruct (persisted_controlled_recovery_claim s stream key) as [[c|]|m] eqn:Ep; [| |done].
  { intros [= E <-]. by apply (claimed_existing s c). }
  destruct (eb_append _ None s) as [res s1] eqn:Ea.
  assert (eb_event_by_key s stream key = None) as Hn.
  { unfold persisted_controlled_recovery_claim in Ep.
    destruct (eb_event_by_key s stream key); [|done]. by apply bind_Ok_inv in Ep as (? & _ & [=]). }
  destruct (jl_append _ _ _ _ _ Hi Ea) as [[-> Hd]|(rcp & evs & -> & Hi' & _ & _ & _ & Hj & Hv)].
  - destruct res as [rcp|m].
    + intros _. destruct (Hu (Hd rcp eq_refl)) as [e He]. by rewrite He in Hn.
    + destruct (is_race m); [|done]. rewrite Ep. exact IH.
  - intros [= <-]. by eapply (claimed_fresh s s1 evs).
Qed.

End Restore.
End Recovery.
