(* ===== verification/ToolEffect.v ===== *)
(** * Tool effects

    [tools/src/state/tool_orchestrator.rs]: the effect a tool call has, derived
    from the registered resolver and the concrete input, and the classifier of
    read-only shell commands.

    [JsonValue] has the variants of [serde_json::Value]; the object map iterates
    in key order and has each key once.  Parameters: [shlex::split], the text of
    a scalar value, the derived [Debug] of the properties and [DefaultHasher]
    (the texts hashed in order, the result in hexadecimal). *)

From S2P Require Import Prelude Facts Contract Approval Permissions.

(** ** JSON values *)

Inductive JsonValue :=
| JNull
| JBool (b : bool)
| JNumber (text : string)
| JString (s : string)
| JArray (items : list JsonValue)
| JObject (fields : list (string * JsonValue)).

Fixpoint field {A} (fields : list (string * A)) (key : string) : option A :=
  match fields with
  | [] => None
  | (k, v) :: fields => if String.eqb k key then Some v else field fields key
  end.

(** [Value::get], [as_str], [as_bool] *)
Definition jget (v : JsonValue) (key : string) : option JsonValue :=
  match v with JObject fields => field fields key | _ => None end.
Definition jstr (v : JsonValue) : option string :=
  match v with JString s => Some s | _ => None end.
Definition jbool (v : JsonValue) : option bool :=
  match v with JBool b => Some b | _ => None end.

(** [map.remove(key)] for each key of a list. *)
Definition remove_fields (keys : list string) (fields : list (string * JsonValue)) :
  list (string * JsonValue) := List.filter (fun kv => negb (memb keys kv.1)) fields.

(** ** Strings *)

(** [str::ends_with] *)
Fixpoint ends_with (s p : string) : bool :=
  String.eqb s p || match s with EmptyString => false | String _ s => ends_with s p end.

(** [s.split(f)] for a predicate on characters that every non-ASCII character
    satisfies: the parts, with further empty ones where such a character has
    several bytes. *)
Fixpoint split_where (f : Ascii.ascii -> bool) (s : string) : list string :=
  match s with
  | EmptyString => [EmptyString]
  | String a s =>
      if f a then EmptyString :: split_where f s
      else match split_where f s with
           | [] => [String a EmptyString]
           | part :: parts => String a part :: parts
           end
  end.

(** [char::is_ascii_alphanumeric], ['_'], ['-'] *)
Definition is_word_char (a : Ascii.ascii) : bool :=
  let n := Ascii.nat_of_ascii a in
  ((48 <=? n) && (n <=? 57)) || ((65 <=? n) && (n <=? 90)) || ((97 <=? n) && (n <=? 122))
  || (n =? 95) || (n =? 45).

(** [word.replace(' ', "")] *)
Fixpoint remove_spaces (s : string) : string :=
  match s with
  | EmptyString => EmptyString
  | String a s => if Ascii.nat_of_ascii a =? 32 then remove_spaces s else String a (remove_spaces s)
  end.

(** The tokens [contains_word] looks at. *)
Definition tokens (command : string) : list string :=
  split_where (fun a => negb (is_word_char a)) command.

Definition contains_word (command : string) (words : list string) : bool :=
  existsb (memb words) (tokens command).

Definition contains_sequence (command : string) (sequences : list string) : bool :=
  existsb (str_contains command) sequences.

(** ** Properties of an effect *)

Record EffectProperties := {
  ef_effect_kind : ToolEffectKind;
  ef_idempotency : ToolIdempotency;
  ef_scopes : list PermissionScope;
  ef_required_permission : PermissionMode;
  ef_approval_class : ToolApprovalClass;
  ef_uses_network : bool;
  ef_spawns_process : bool;
  ef_mutates_packages : bool;
  ef_mutates_system : bool
}.

Record ToolEffectResolverSpec := { rs_resolver_id : string; rs_resolver_version : N }.

Definition scope (resource : PermissionResource) (operation : PermissionOperation)
    (target : option string) : PermissionScope :=
  {| ps_resource := resource; ps_operation := operation; ps_target := target |}.

Definition TARGET_KEYS : list string := ["path"; "url"; "server"; "uri"; "target"]%string.

Fixpoint first_string (input : JsonValue) (keys : list string) : option string :=
  match keys with
  | [] => None
  | key :: keys =>
      match (v ← jget input key; jstr v) with
      | Some s => Some s
      | None => first_string input keys
      end
  end.

Definition resource_target (input : JsonValue) : option string := first_string input TARGET_KEYS.

Definition tool_id_target (name : string) (input : JsonValue) : option string :=
  match resource_target input with Some t => Some t | None => Some name end.

Definition stricter_permission (left right : PermissionMode) : PermissionMode :=
  if (pm_rank right <=? pm_rank left)%N then left else right.

Definition conservative_unknown (target : option string) : EffectProperties :=
  {| ef_effect_kind := TeUnknown; ef_idempotency := TiUnknown;
     ef_scopes := [scope PrTool PoCall target]; ef_required_permission := PmDangerFullAccess;
     ef_approval_class := TaUser; ef_uses_network := true; ef_spawns_process := true;
     ef_mutates_packages := false; ef_mutates_system := false |}.

(** ** Shell commands *)

Definition READ_COMMANDS : list string :=
  ["cd"; "pwd"; "ls"; "cat"; "head"; "tail"; "grep"; "rg"; "egrep"; "fgrep"; "wc"; "stat"; "file";
   "which"; "whereis"; "basename"; "dirname"; "realpath"; "readlink"; "date"; "uname"; "whoami";
   "id"; "groups"; "df"; "du"; "free"; "uptime"; "hostname"; "env"; "printenv"; "seq"; "sort";
   "uniq"; "cut"; "paste"; "tr"; "awk"; "jq"; "yq"; "sha256sum"; "md5sum"; "sha1sum"; "xxd"; "od";
   "strings"; "find"; "tree"; "diff"; "cmp"; "comm"; "test"; "true"; "false"]%string.

Definition GIT_READS : list string :=
  ["status"; "diff"; "log"; "show"; "rev-parse"; "ls-files"; "ls-tree"; "describe"]%string.

Definition is_known_read_only_words (words : list string) : bool :=
  match words with
  | [] => false
  | command :: arguments =>
      if memb READ_COMMANDS command then true
      else if memb ["printf"; "echo"]%string command
      then forallb (fun word => negb (str_contains word "$")) arguments
      else if String.eqb command "git"
      then match arguments with
           | [] => false
           | verb :: rest =>
               memb GIT_READS verb
               || String.eqb verb "remote" && forallb (memb ["-v"; "--verbose"]%string) rest
           end
      else false
  end.

Definition OPERATORS : list string := [";"; "|"; "&&"; "||"]%string.

(** The loop of [is_known_read_only_command]; [segment] is what was pushed. *)
Fixpoint read_only_segments (segment words : list string) : bool :=
  match words with
  | [] => negb (bool_decide (segment = [])) && is_known_read_only_words segment
  | word :: words =>
      if memb OPERATORS word
      then if bool_decide (segment = []) || negb (is_known_read_only_words segment)
           then false else read_only_segments [] words
      else read_only_segments (segment ++ [word]) words
  end.

Definition DISCARDS : list string :=
  [">/dev/null"; "2>/dev/null"; "1>/dev/null"; "2>&-"; ">&-"]%string.

Section Effect.
Context (shlex_split : string -> option (list string)).

Definition has_file_redirection (command : string) : bool :=
  match shlex_split command with
  | None => str_contains command ">"
  | Some words =>
      existsb (fun word => if str_contains word ">"
                           then negb (memb DISCARDS (remove_spaces word)) else false) words
  end.

Definition is_known_read_only_command (command : string) : bool :=
  if trim_is_empty command || str_contains command "$(" || str_contains command "`" then false
  else if has_file_redirection command then false
  else match shlex_split command with
       | None => false
       | Some words => read_only_segments [] words
       end.

Definition NETWORK_WORDS : list string := ["curl"; "wget"; "ssh"; "scp"; "rsync"; "nc"]%string.
Definition PACKAGE_SEQUENCES : list string :=
  ["cargo add"; "cargo install"; "npm install"; "pnpm add"; "yarn add"; "pip install";
   "apt install"; "dnf install"; "brew install"]%string.
Definition SYSTEM_WORDS : list string :=
  ["sudo"; "systemctl"; "mount"; "umount"; "reboot"; "shutdown"]%string.
Definition DESTRUCTIVE_WORDS : list string := ["rm"; "kill"]%string.
Definition DESTRUCTIVE_SEQUENCES : list string :=
  ["rm -"; "git reset --hard"; "git clean -"; "drop table"; "truncate table"; "mkfs"; "dd if="]%string.
Definition WRITE_WORDS : list string :=
  ["mv"; "cp"; "touch"; "mkdir"; "chmod"; "chown"; "sed"]%string.

Definition command_effect (command : string) : EffectProperties :=
  let normalized := to_ascii_lowercase command in
  let uses_network := contains_word normalized NETWORK_WORDS in
  let mutates_packages := contains_sequence normalized PACKAGE_SEQUENCES in
  let mutates_system := contains_word normalized SYSTEM_WORDS in
  let destructive := contains_word normalized DESTRUCTIVE_WORDS
                     || contains_sequence normalized DESTRUCTIVE_SEQUENCES in
  let writes := destructive || mutates_packages || str_contains normalized " >"
                || str_contains normalized ">>" || contains_word normalized WRITE_WORDS in
  let uses_network := if mutates_packages then true else uses_network in
  let read_only := negb destructive && negb mutates_system && negb mutates_packages && negb writes
                   && negb uses_network && is_known_read_only_command normalized in
  let effect_kind :=
    if destructive then TeDestructive
    else if mutates_system then TeSystem
    else if mutates_packages then TePackage
    else if writes then TeWrite
    else if uses_network then TeNetwork
    else if read_only then TeRead
    else TeProcess in
  let operation := if read_only then PoRead else if writes then PoWrite else PoExecute in
  {| ef_effect_kind := effect_kind;
     ef_idempotency := if read_only then TiIdempotent else TiUnknown;
     ef_scopes := [scope (if uses_network then PrNetwork else PrShell) operation None];
     ef_required_permission := if read_only then PmReadOnly else PmDangerFullAccess;
     ef_approval_class :=
       if read_only then TaNone
       else if destructive || mutates_system then TaAdministrator
       else TaUser;
     ef_uses_network := uses_network; ef_spawns_process := true;
     ef_mutates_packages := mutates_packages; ef_mutates_system := mutates_system |}.

(** ** Resolvers *)

Definition STATE_INSPECT_TOOL_ID : string := "state_inspect".

(** The property records of [resolve_effect_properties] differ in these. *)
Definition properties (kind : ToolEffectKind) (idempotency : ToolIdempotency)
    (s : PermissionScope) (permission : PermissionMode) (class : ToolApprovalClass)
    (network process : bool) : EffectProperties :=
  {| ef_effect_kind := kind; ef_idempotency := idempotency; ef_scopes := [s];
     ef_required_permission := permission; ef_approval_class := class; ef_uses_network := network;
     ef_spawns_process := process; ef_mutates_packages := false; ef_mutates_system := false |}.

(** [input.get("command").or_else(|| input.get("code")).and_then(as_str)] *)
Definition command_text (input : JsonValue) : string :=
  default EmptyString
    (v ← match jget input "command" with Some v => Some v | None => jget input "code" end; jstr v).

Definition resolve_effect_properties (resolver : ToolEffectResolverSpec) (tool_id : string)
    (input : JsonValue) : EffectProperties :=
  let target := resource_target input in
  let id := rs_resolver_id resolver in
  if String.eqb id "builtin.command" then command_effect (command_text input)
  else if String.eqb id "builtin.sandboxed_command" then
    properties TeProcess TiUnknown (scope PrShell PoExecute target) PmReadOnly TaPolicy false true
  else if memb ["builtin.readonly"; "runtime.readonly"]%string id then
    properties TeRead TiIdempotent (scope PrTool PoRead target) PmReadOnly TaNone false false
  else if memb ["runtime.agent_action"; "runtime.private_note"]%string id then
    if String.eqb tool_id STATE_INSPECT_TOOL_ID
    then properties TeRead TiIdempotent (scope PrTool PoRead target) PmReadOnly TaNone false false
    else properties TeWrite TiIdempotentWithKey (scope PrTool PoControl target) PmReadOnly TaNone
           false false
  else if String.eqb id "builtin.readonly_process" then
    properties TeRead TiIdempotent (scope PrTool PoRead target) PmReadOnly TaPolicy false true
  else if memb ["builtin.workspace_write"; "runtime.state_write"]%string id then
    properties TeWrite TiIdempotentWithKey (scope PrTool PoWrite target) PmWorkspaceWrite TaPolicy
      false false
  else if String.eqb id "builtin.network" then
    properties TeNetwork TiUnknown (scope PrNetwork PoCall target) PmReadOnly TaPolicy true false
  else if String.eqb id "runtime.external_read" then
    properties TeNetwork TiIdempotent (scope PrNetwork PoCall target) PmReadOnly TaPolicy true true
  else if String.eqb id "runtime.external_write" then
    properties TeNetwork TiIdempotentWithKey (scope PrNetwork PoCall target) PmWorkspaceWrite TaUser
      true true
  else if String.eqb id "runtime.external_danger" then
    properties TeNetwork TiNonIdempotent (scope PrNetwork PoCall target) PmDangerFullAccess TaUser
      true true
  else if String.eqb id "builtin.process" then
    properties TeProcess TiIdempotent (scope PrTool PoExecute target) PmReadOnly TaPolicy false false
  else if String.eqb id "builtin.external_unknown" then
    properties TeUnknown TiUnknown (scope PrTool PoCall target) PmDangerFullAccess TaUser true true
  else conservative_unknown (tool_id_target tool_id input).

(** ** Assessment *)

Definition data_classification (p : EffectProperties) (input : JsonValue) : DataClassification :=
  if default false (v ← jget input "contains_secrets"; jbool v) then DcSecret
  else match (v ← jget input "data_classification"; jstr v) with
  | Some classification =>
      let c := to_ascii_lowercase (trim classification) in
      if String.eqb c "public" then DcPublic
      else if String.eqb c "confidential" then DcConfidential
      else if String.eqb c "secret" then DcSecret
      else DcInternal
  | None =>
      let target := to_ascii_lowercase (default EmptyString (resource_target input)) in
      if String.eqb target ".env" || ends_with target "/.env" || str_contains target "/.ssh/"
         || str_contains target "credentials" || str_contains target "secrets."
      then DcSecret
      else if ef_uses_network p && bool_decide (ef_required_permission p = PmReadOnly)
      then DcPublic else DcInternal
  end.

Definition effect_assessment (p : EffectProperties) (input : JsonValue) : EffectAssessment :=
  let kind := ef_effect_kind p in
  let externality :=
    if ef_mutates_system p
       || match kind with TeSystem | TePackage | TeDestructive => true | _ => false end
    then EeSystem
    else if ef_uses_network p && negb (bool_decide (ef_required_permission p = PmReadOnly))
    then EeExternalMutation
    else if ef_uses_network p then EeNetworkRead
    else if match kind with TeWrite | TeProcess => true | _ => false end then EeWorkspace
    else EeInternal in
  {| ea_reversibility :=
       match kind with
       | TeRead | TeNetwork => ErReversible
       | TeWrite | TeProcess => ErCompensatable
       | TeDestructive | TeSystem => ErIrreversible
       | TePackage | TeUnknown => ErUnknown
       end;
     ea_externality := externality;
     ea_data_sensitivity := data_classification p input;
     ea_novelty :=
       match kind with
       | TePackage => EnNewCapability
       | TeProcess => EnNewTarget
       | TeUnknown => EnUnknown
       | _ => EnRoutine
       end;
     ea_blast_radius :=
       match externality with
       | EeInternal => EbItem
       | EeWorkspace => EbWorkspace
       | EeNetworkRead => EbItem
       | EeExternalMutation => EbExternalAccount
       | EeSystem => EbSystem
       | EeUnknown => EbUnknown
       end |}.

(** ** What the classifier accepts *)

(** Membership in a concrete list. *)
Ltac listed := first [apply memb_true; reflexivity | apply memb_false; reflexivity].

Lemma forallb_subset {A} `{EqDecision A} (l l' : list A) :
  forallb (memb l') l = true -> l ⊆ l'.
Proof. intros H x Hx. rewrite forallb_elem_of in H. by apply memb_true, H. Qed.

(** The parts of a word list between the operators. *)
Fixpoint segments (words : list string) : list (list string) :=
  match words with
  | [] => [[]]
  | word :: words =>
      if memb OPERATORS word then [] :: segments words
      else match segments words with
           | [] => [[word]]
           | s :: ss => (word :: s) :: ss
           end
  end.

Lemma segments_nonempty words : exists s ss, segments words = s :: ss.
Proof.
  destruct words as [|w words]; cbn; [eauto|]. destruct (memb OPERATORS w); [eauto|].
  destruct (segments words); eauto.
Qed.

Lemma read_only_segments_spec words : forall segment,
  read_only_segments segment words
    = match segments words with
      | s :: ss => forallb is_known_read_only_words ((segment ++ s) :: ss)
      | [] => false
      end.
Proof.
  induction words as [|w words IH]; intros segment; cbn.
  - rewrite app_nil_r, andb_true_r. by destruct segment.
  - destruct (segments_nonempty words) as (s & ss & E). rewrite E in IH.
    destruct (memb OPERATORS w); rewrite E, IH; cbn.
    + rewrite app_nil_r. destruct segment as [|x segment]; [done|].
      rewrite bool_decide_false by done. by destruct (is_known_read_only_words (x :: segment)).
    + by rewrite <- app_assoc.
Qed.

(** The grammar of the commands the classifier accepts. *)
Definition known_read_only (command : string) : Prop :=
  trim_is_empty command = false /\ str_contains command "$(" = false /\
  str_contains command "`" = false /\
  exists words, shlex_split command = Some words /\
    (forall w, w ∈ words -> str_contains w ">" = true -> remove_spaces w ∈ DISCARDS) /\
    (forall s, s ∈ segments words -> is_known_read_only_words s = true).

Lemma known_read_only_spec command :
  is_known_read_only_command command = true <-> known_read_only command.
Proof.
  unfold known_read_only, is_known_read_only_command, has_file_redirection.
  destruct (trim_is_empty command), (str_contains command "$("), (str_contains command "`");
    cbn [orb]; try naive_solver.
  destruct (shlex_split command) as [words|];
    [|destruct (str_contains command ">"); naive_solver].
  assert (read_only_segments [] words = forallb is_known_read_only_words (segments words)) as ->.
  { rewrite read_only_segments_spec. by destruct (segments_nonempty words) as (? & ? & ->). }
  match goal with |- context [existsb ?f words] => destruct (existsb f words) eqn:E end.
  - apply existsb_elem_of in E as (w & Hw & E). destruct (str_contains w ">") eqn:Eg; [|done].
    apply negb_true_iff, memb_false in E.
    split; [done|]. intros (_ & _ & _ & ? & [= <-] & Hd & _). by destruct E; apply Hd.
  - rewrite forallb_elem_of. split; [|by intros (_ & _ & _ & ? & [= <-] & _ & ?)].
    intros Hs. repeat split; try done. exists words. repeat split; try done.
    intros w Hw Hg. pose proof (proj1 (existsb_false _ _) E w Hw) as Ew. cbn in Ew.
    rewrite Hg in Ew. by apply negb_false_iff, memb_true in Ew.
Qed.

Lemma command_classes command :
  let e := command_effect command in
  ef_spawns_process e = true /\
  ((ef_effect_kind e = TeRead /\ ef_required_permission e = PmReadOnly /\
    ef_approval_class e = TaNone /\ ef_idempotency e = TiIdempotent /\
    ef_scopes e = [scope PrShell PoRead None] /\ ef_uses_network e = false /\
    ef_mutates_packages e = false /\ ef_mutates_system e = false /\
    is_known_read_only_command (to_ascii_lowercase command) = true) \/
   (ef_effect_kind e <> TeRead /\ ef_required_permission e = PmDangerFullAccess /\
    ef_idempotency e = TiUnknown /\
    ef_approval_class e
      = (if bool_decide (ef_effect_kind e = TeDestructive) || ef_mutates_system e
         then TaAdministrator else TaUser))).
Proof.
  cbn zeta. unfold command_effect. cbv zeta. set (c := to_ascii_lowercase command).
  generalize (contains_word c NETWORK_WORDS) (contains_sequence c PACKAGE_SEQUENCES)
    (contains_word c SYSTEM_WORDS) (is_known_read_only_command c).
  intros network packages system known.
  generalize (contains_word c DESTRUCTIVE_WORDS || contains_sequence c DESTRUCTIVE_SEQUENCES).
  intros destructive.
  generalize (str_contains c " >") (str_contains c ">>") (contains_word c WRITE_WORDS).
  intros r1 r2 w. split; [done|].
  destruct destructive, packages, system, r1, r2, w, network, known; cbn;
    first [left; by repeat split|right; by repeat split].
Qed.

(** A shell command is either a known read or a governed process.  The effect
    of a command has read authority without approval only together with the kind
    [Read], and then it uses no network, changes no package and no system and
    was accepted by the classifier; every other command needs full access and a
    user's approval, an administrator's when it is destructive or changes the
    system.  It always counts as a process. *)
Theorem command_effect_two_classes command :
  let e := command_effect command in
  ef_spawns_process e = true /\
  ((ef_effect_kind e = TeRead /\ ef_required_permission e = PmReadOnly /\
    ef_approval_class e = TaNone /\ ef_idempotency e = TiIdempotent /\
    ef_scopes e = [scope PrShell PoRead None] /\ ef_uses_network e = false /\
    ef_mutates_packages e = false /\ ef_mutates_system e = false /\
    is_known_read_only_command (to_ascii_lowercase command) = true) \/
   (ef_effect_kind e <> TeRead /\ ef_required_permission e = PmDangerFullAccess /\
    ef_idempotency e = TiUnknown /\
    ef_approval_class e
      = (if bool_decide (ef_effect_kind e = TeDestructive) || ef_mutates_system e
         then TaAdministrator else TaUser))).
Proof. apply command_classes. Qed.

(** What a read effect says of the command's text. *)
Lemma read_effect_inv command : ef_effect_kind (command_effect command) = TeRead ->
  let c := to_ascii_lowercase command in
  contains_word c NETWORK_WORDS = false /\ contains_sequence c PACKAGE_SEQUENCES = false /\
  contains_word c SYSTEM_WORDS = false /\ contains_word c DESTRUCTIVE_WORDS = false /\
  contains_sequence c DESTRUCTIVE_SEQUENCES = false /\ contains_word c WRITE_WORDS = false /\
  str_contains c " >" = false /\ str_contains c ">>" = false /\
  is_known_read_only_command c = true.
Proof.
  cbn zeta. unfold command_effect. cbv zeta. set (c := to_ascii_lowercase command).
  destruct (contains_word c DESTRUCTIVE_WORDS); [done|].
  destruct (contains_sequence c DESTRUCTIVE_SEQUENCES); [done|].
  destruct (contains_word c SYSTEM_WORDS); [done|].
  destruct (contains_sequence c PACKAGE_SEQUENCES); [done|].
  destruct (str_contains c " >"); [done|]. destruct (str_contains c ">>"); [done|].
  destruct (contains_word c WRITE_WORDS); [done|].
  destruct (contains_word c NETWORK_WORDS); [done|].
  by destruct (is_known_read_only_command c).
Qed.

(** The scanner of [is_known_read_only_command] is the grammar it stands for:
    a command counts as known read-only exactly when it is not blank, has no
    command substitution, splits into shell words of which none redirects except
    to the listed discards, and every part between the operators [;], [|], [&&]
    and [||] is a listed command; and a command whose effect is a read is one. *)
Theorem known_read_only_iff command :
  (is_known_read_only_command command = true <-> known_read_only command) /\
  (ef_effect_kind (command_effect command) = TeRead ->
     known_read_only (to_ascii_lowercase command)).
Proof.
  split; [apply known_read_only_spec|].
  intros (_ & _ & _ & _ & _ & _ & _ & _ & Hk)%read_effect_inv. by apply known_read_only_spec.
Qed.

Lemma contains_word_false c words : contains_word c words = false ->
  forall t, t ∈ tokens c -> t ∉ words.
Proof. intros H t Ht. by apply memb_false, (proj1 (existsb_false _ _) H). Qed.

(** What the denied words guarantee: when a command's effect is a read, no
    token of the lowercased text (maximal runs of letters, digits, [_] and [-])
    is a denied word, whatever the quoting, and none of the denied sequences
    occurs anywhere in it. *)
Theorem read_effect_has_no_denied_word command :
  ef_effect_kind (command_effect command) = TeRead ->
  (forall t, t ∈ tokens (to_ascii_lowercase command) ->
     t ∉ NETWORK_WORDS ++ SYSTEM_WORDS ++ DESTRUCTIVE_WORDS ++ WRITE_WORDS) /\
  (forall s, s ∈ PACKAGE_SEQUENCES ++ DESTRUCTIVE_SEQUENCES ++ [" >"; ">>"]%string ->
     str_contains (to_ascii_lowercase command) s = false).
Proof.
  intros (Hn & Hp & Hs & Hd & Hq & Hw & H1 & H2 & _)%read_effect_inv. split.
  - intros t Ht. rewrite !not_elem_of_app.
    repeat split; by eapply contains_word_false.
  - intros s. rewrite !elem_of_app, !elem_of_cons.
    intros [H|[H|[->|[->|H]]]]; [| |done|done|by apply not_elem_of_nil in H].
    + by apply (proj1 (existsb_false _ _) Hp).
    + by apply (proj1 (existsb_false _ _) Hq).
Qed.

(** Only the first word of a part is checked.  A command whose words start
    with a listed command and contain no operator standing alone has a read
    effect, needs no approval and read authority only, whatever the other words
    are: a command given to [env] or [awk] to run, or one after an operator
    written without spaces around it, as in [cat notes |sh]. *)
Theorem listed_command_reads_whatever_follows command head arguments :
  let c := to_ascii_lowercase command in
  trim_is_empty c = false ->
  shlex_split c = Some (head :: arguments) ->
  head ∈ READ_COMMANDS ->
  (forall w, w ∈ head :: arguments -> ~ (w ∈ OPERATORS) /\ str_contains w ">" = false) ->
  (forall t, t ∈ tokens c -> t ∉ NETWORK_WORDS ++ SYSTEM_WORDS ++ DESTRUCTIVE_WORDS ++ WRITE_WORDS) ->
  (forall s, s ∈ PACKAGE_SEQUENCES ++ DESTRUCTIVE_SEQUENCES ++ [" >"; ">>"; "$("; "`"]%string ->
     str_contains c s = false) ->
  ef_effect_kind (command_effect command) = TeRead /\
  ef_required_permission (command_effect command) = PmReadOnly /\
  ef_approval_class (command_effect command) = TaNone.
Proof.
  cbn zeta. set (c := to_ascii_lowercase command). intros He Hsplit Hh Hw Ht Hs.
  assert (is_known_read_only_command c = true) as Hk.
  { apply known_read_only_spec. split; [done|]. split; [apply Hs; listed|].
    split; [apply Hs; listed|]. exists (head :: arguments). split; [done|]. split.
    - intros w Hin Hg. destruct (Hw w Hin) as [_ Hn]. congruence.
    - assert (segments (head :: arguments) = [head :: arguments]) as ->.
      { revert Hw. generalize (head :: arguments). intros l.
        induction l as [|w l IH]; intros Hw; [done|]. cbn.
        rewrite (proj2 (memb_false _ _)); [|apply Hw; by left].
        rewrite IH; [done|]. intros w' Hin. apply Hw. by right. }
      intros s ->%list_elem_of_singleton. cbn.
      by rewrite (proj2 (memb_true READ_COMMANDS head) Hh). }
  assert (forall words,
            forallb (memb (NETWORK_WORDS ++ SYSTEM_WORDS ++ DESTRUCTIVE_WORDS ++ WRITE_WORDS)) words = true ->
            contains_word c words = false) as Hcw.
  { intros words Hsub%forallb_subset. apply existsb_false. intros t Hin. apply memb_false. intros Hx.
    by apply (Ht t Hin), Hsub. }
  assert (forall qs,
            forallb (memb (PACKAGE_SEQUENCES ++ DESTRUCTIVE_SEQUENCES ++ [" >"; ">>"; "$("; "`"]%string)) qs = true ->
            contains_sequence c qs = false) as Hcs.
  { intros qs Hsub%forallb_subset. apply existsb_false. intros q Hq. by apply Hs, Hsub. }
  assert (str_contains c " >" = false /\ str_contains c ">>" = false) as [H1 H2].
  { split; apply Hs; listed. }
  unfold command_effect. cbv zeta. fold c.
  by rewrite !Hcw, !Hcs, H1, H2, Hk by reflexivity.
Qed.

(** ** The descriptor *)

Context (scalar_to_string : JsonValue -> string) (properties_debug : EffectProperties -> string)
  (default_hash : list string -> string).

(** [entries.join(",")] *)
Fixpoint join (sep : string) (parts : list string) : string :=
  match parts with
  | [] => EmptyString
  | [part] => part
  | part :: parts => part +:+ sep +:+ join sep parts
  end.

Definition key_le (a b : string * string) : Prop := str_le a.1 b.1.

#[local] Instance key_le_dec : RelDecision key_le.
Proof. intros a b. unfold key_le. apply _. Defined.

Fixpoint canonical_json (input : JsonValue) : string :=
  match input with
  | JObject fields =>
      let rendered := List.map (fun kv => (kv.1, canonical_json kv.2)) fields in
      "{" +:+ join "," ((fun kv => kv.1 +:+ ":" +:+ kv.2) <$> merge_sort key_le rendered) +:+ "}"
  | JArray items => "[" +:+ join "," (List.map canonical_json items) +:+ "]"
  | _ => scalar_to_string input
  end.

Definition SANDBOX_FIELDS : list string :=
  ["dangerouslyDisableSandbox"; "isolateNetwork"; "workspaceAccess"]%string.

Definition effect_input (input : JsonValue) : JsonValue :=
  match input with
  | JObject fields => JObject (remove_fields SANDBOX_FIELDS fields)
  | _ => input
  end.

Definition descriptor_hash (tool_id : string) (input : JsonValue) (p : EffectProperties) : string :=
  default_hash [tool_id; canonical_json (effect_input input); properties_debug p].

Definition with_required (m : PermissionMode) (p : EffectProperties) : EffectProperties :=
  {| ef_effect_kind := ef_effect_kind p; ef_idempotency := ef_idempotency p;
     ef_scopes := ef_scopes p; ef_required_permission := m;
     ef_approval_class := ef_approval_class p; ef_uses_network := ef_uses_network p;
     ef_spawns_process := ef_spawns_process p; ef_mutates_packages := ef_mutates_packages p;
     ef_mutates_system := ef_mutates_system p |}.

Definition resolve_registered_tool_effect (resolver : ToolEffectResolverSpec) (tool_id : string)
    (input : JsonValue) (catalog_permission : PermissionMode) : ToolEffectDescriptor :=
  let p := resolve_effect_properties resolver tool_id input in
  let p := with_required (stricter_permission (ef_required_permission p) catalog_permission) p in
  {| td_tool_id := tool_id; td_descriptor_hash := descriptor_hash tool_id input p;
     td_effect_kind := ef_effect_kind p; td_idempotency := ef_idempotency p;
     td_scopes := ef_scopes p; td_required_permission := ef_required_permission p;
     td_approval_class := ef_approval_class p; td_uses_network := ef_uses_network p;
     td_spawns_process := ef_spawns_process p; td_mutates_packages := ef_mutates_packages p;
     td_mutates_system := ef_mutates_system p; td_assessment := effect_assessment p input |}.

(** ** What the descriptor depends on *)

Lemma field_remove keys fields key : key ∉ keys ->
  field (remove_fields keys fields) key = field fields key.
Proof.
  intros Hk. induction fields as [|[k v] fields IH]; [done|]. cbn.
  destruct (String.eqb_spec k key) as [->|Hne].
  - rewrite (proj2 (memb_false keys key)) by done. cbn. by rewrite String.eqb_refl.
  - destruct (memb keys k); cbn; [done|]. by rewrite (proj2 (String.eqb_neq k key)).
Qed.

Lemma remove_fields_twice keys fields :
  remove_fields keys (remove_fields keys fields) = remove_fields keys fields.
Proof.
  unfold remove_fields. rewrite filterb_filterb. apply filterb_ext. intros x _.
  by destruct (negb _).
Qed.

(** The sandbox is not the model's choice.  The fields of the input that ask
    for another sandbox do not change the descriptor at all: neither its hash,
    which a lease is bound to, nor its kind, permission, approval class, scopes
    or assessment. *)
Theorem sandbox_fields_do_not_matter resolver tool_id fields permission :
  resolve_registered_tool_effect resolver tool_id (JObject fields) permission
    = resolve_registered_tool_effect resolver tool_id
        (JObject (remove_fields SANDBOX_FIELDS fields)) permission.
Proof.
  set (o := JObject fields). set (o' := JObject (remove_fields SANDBOX_FIELDS fields)).
  assert (forall key, key ∉ SANDBOX_FIELDS -> jget o' key = jget o key) as Hg.
  { intros key Hk. by apply field_remove. }
  assert (resource_target o' = resource_target o) as Ht.
  { unfold resource_target, TARGET_KEYS. cbn [first_string]. by rewrite !Hg by listed. }
  assert (resolve_effect_properties resolver tool_id o' = resolve_effect_properties resolver tool_id o)
    as Hp.
  { unfold resolve_effect_properties, command_text, tool_id_target.
    by rewrite Ht, !Hg by listed. }
  assert (effect_input o' = effect_input o) as Hi.
  { cbn. by rewrite remove_fields_twice. }
  assert (forall p, data_classification p o' = data_classification p o) as Hd.
  { intros p. unfold data_classification. by rewrite Ht, !Hg by listed. }
  unfold resolve_registered_tool_effect. rewrite Hp. unfold descriptor_hash. rewrite Hi.
  f_equal. unfold effect_assessment. by rewrite Hd.
Qed.

(** Keys are not quoted in the canonical text: an input with two members and one
    with a single, cleverly named member have the same one. *)
Lemma canonical_json_collides k1 v1 k2 v2 :
  str_le k1 k2 ->
  canonical_json (JObject [(k1, v1); (k2, v2)])
    = canonical_json (JObject [(k1 +:+ ":" +:+ canonical_json v1 +:+ "," +:+ k2, v2)]).
Proof.
  intros Hle. cbn -[merge_sort]. replace (merge_sort key_le _) with
    [(k1, canonical_json v1); (k2, canonical_json v2)].
  2: { unfold merge_sort. cbn. rewrite decide_True; [done|exact Hle]. }
  cbn. f_equal. by rewrite !str_app_assoc.
Qed.
End Effect.
