(* ===== verification/ToolGate.v ===== *)
(** * The gate in front of a tool

    From the description of a call to its dispatch: [ToolPolicy::authorize] of
    [runtime/src/tooling/tool_policy.rs], the authorization part of
    [runtime/src/conversation/turn_engine.rs] and the boundary of
    [tools/src/host.rs], with the effect of [ToolEffect], the negotiator of
    [Negotiator] and the evidence of [Evidence].

    The catalog of tools is a record of its lookups; the answer of the approval
    coordinator, and what happened to the registry and the store while it was
    awaited, are arguments. *)

From stdpp Require Import pretty.
From S2P Require Import Prelude Facts Contract Validation Delta Ports EventStore Backend.
From S2P Require Import Approval ApprovalJournal Permissions Negotiator LeaseSafety Evidence.
From S2P Require Import Coordinator ToolEffect.

(** ** [ToolPolicy] *)

Record ToolExecutionAuthorization := {
  ta_request_id : string;
  ta_tool_id : string;
  ta_descriptor_hash : string;
  ta_policy_revision : N;
  ta_scope : PermissionScope;
  ta_authorization_lease : AuthorizationLease;
  ta_timeout_lease : string;
  ta_idempotency_key : option string
}.

Record ToolExecutionPolicyDecision := {
  pd_authorization : ToolExecutionAuthorization;
  pd_timeout_secs : N;
  pd_parallel_safe : bool
}.

Inductive ToolPolicyError :=
| MissingScope | LeaseScopeMismatch | PermissionDenied | PolicyIdempotencyMismatch.

Definition policy_error_to_string (e : ToolPolicyError) : string :=
  match e with
  | MissingScope => "tool effect descriptor has no permission scope"
  | LeaseScopeMismatch => "authorization lease does not cover tool effect"
  | PermissionDenied => "authorization lease does not permit required mode"
  | PolicyIdempotencyMismatch => "authorization lease idempotency key does not match request"
  end.

(** [ToolPolicy::authorize] *)
Definition tool_policy_authorize (effective : EffectiveToolAuthorizationDescriptor)
    (assessment : CapabilityAssessment) (request_id : string) (lease : AuthorizationLease)
    (timeout_secs : N) : Result ToolPolicyError ToolExecutionPolicyDecision :=
  let d := ed_descriptor effective in
  _ ← guard_err
        (negb (String.eqb (ca_capability assessment) (td_tool_id d))
         || negb (bool_decide (ca_effect assessment = td_assessment d))
         || negb (bool_decide (ca_requested_scopes assessment = td_scopes d))
         || negb (bool_decide (ca_required_mode assessment = td_required_permission d))
         || negb (lease_permits lease (ca_capability assessment) (ca_required_mode assessment))
         || (al_policy_revision lease =? 0)%N
         || negb (String.eqb (al_effect_descriptor_hash lease) (td_descriptor_hash d)))
        PermissionDenied;
  _ ← guard_err (negb (lease_scopes_cover lease (ca_requested_scopes assessment)))
        LeaseScopeMismatch;
  scope ← ok_or MissingScope (head (ca_requested_scopes assessment));
  key ← (if bool_decide (td_idempotency d = TiIdempotentWithKey)
         then _ ← guard_err (negb (String.eqb (al_idempotency_key lease) request_id))
                    PolicyIdempotencyMismatch;
              Ok (Some request_id)
         else Ok None);
  Ok {| pd_authorization :=
          {| ta_request_id := request_id; ta_tool_id := td_tool_id d;
             ta_descriptor_hash := td_descriptor_hash d;
             ta_policy_revision := al_policy_revision lease; ta_scope := scope;
             ta_authorization_lease := lease;
             ta_timeout_lease := "timeout:" +:+ pretty timeout_secs; ta_idempotency_key := key |};
        pd_timeout_secs := timeout_secs;
        pd_parallel_safe := bool_decide (td_idempotency d = TiIdempotent)
                            && bool_decide (td_effect_kind d = TeRead) |}.

(** ** [ToolHost] *)

Inductive ToolHostError :=
| ToolNotFound (tool : string)
| ToolMismatch (authorized requested : string)
| EffectEscalated (authorized_hash effective_hash : string)
| ScopeNotAuthorized
| MissingLeaseSignature
| InvalidLeaseSignature
| PolicyRevisionMismatch (authorization_revision lease_revision : N)
| LeaseEffectMismatch
| MissingTimeoutLease
| InactiveLease (status : AuthorizationLeaseStatus) (remaining_uses expires_at_ms observed_at_ms : N)
| LeasePermissionDenied (authorized required : PermissionMode)
| LeaseIdempotencyMismatch
| MissingIdempotencyKey.

(** The lookups of [ToolCatalog]. *)
Record ToolCatalog := {
  tc_canonical_name : string -> option string;
  tc_contains : string -> bool;
  tc_required_permission : string -> option PermissionMode;
  tc_effect_resolver : string -> ToolEffectResolverSpec
}.

Section Host.
Context (shlex_split : string -> option (list string)).
Context (scalar_to_string : JsonValue -> string) (properties_debug : EffectProperties -> string)
  (default_hash : list string -> string).
Context (catalog : ToolCatalog).

Definition canonical (tool_id : string) : string := default tool_id (tc_canonical_name catalog tool_id).

(** [describe_effect] *)
Definition describe_effect (tool_id : string) (input : JsonValue) : ToolEffectDescriptor :=
  let canonical_id := canonical tool_id in
  resolve_registered_tool_effect shlex_split scalar_to_string properties_debug default_hash
    (tc_effect_resolver catalog canonical_id) canonical_id input
    (default PmDangerFullAccess (tc_required_permission catalog canonical_id)).

Definition key_missing (key : option string) : bool :=
  match key with Some k => String.eqb k "" | None => true end.

(** [authorize_and_canonicalize], [validate_authorization] *)
Definition authorize_and_canonicalize (verifier : option (AuthorizationLease -> bool)) (now : N)
    (a : ToolExecutionAuthorization) (tool_id : string) (input : JsonValue) :
  Result ToolHostError string :=
  let canonical_id := canonical tool_id in
  _ ← guard_err (negb (String.eqb (ta_tool_id a) canonical_id))
        (ToolMismatch (ta_tool_id a) canonical_id);
  let effective := describe_effect canonical_id input in
  let lease := ta_authorization_lease a in
  _ ← guard_err (trim_is_empty (al_signature lease)) MissingLeaseSignature;
  _ ← guard_err (match verifier with Some f => negb (f lease) | None => true end)
        InvalidLeaseSignature;
  _ ← guard_err ((ta_policy_revision a =? 0)%N || (al_policy_revision lease =? 0)%N
                 || negb (ta_policy_revision a =? al_policy_revision lease)%N)
        (PolicyRevisionMismatch (ta_policy_revision a) (al_policy_revision lease));
  _ ← guard_err (negb (String.eqb (al_effect_descriptor_hash lease) (ta_descriptor_hash a)))
        LeaseEffectMismatch;
  _ ← guard_err (trim_is_empty (ta_timeout_lease a)) MissingTimeoutLease;
  _ ← guard_err (negb (lease_active_at lease now))
        (InactiveLease (al_status lease) (al_remaining_uses lease) (al_expires_at_ms lease) now);
  _ ← guard_err (negb (lease_permits lease canonical_id (td_required_permission effective)))
        (LeasePermissionDenied (al_ceiling lease) (td_required_permission effective));
  _ ← guard_err (negb (String.eqb (ta_descriptor_hash a) (td_descriptor_hash effective)))
        (EffectEscalated (ta_descriptor_hash a) (td_descriptor_hash effective));
  _ ← guard_err (negb (memb (td_scopes effective) (ta_scope a))) ScopeNotAuthorized;
  _ ← guard_err (negb (lease_scopes_cover lease (td_scopes effective))) ScopeNotAuthorized;
  _ ← guard_err (bool_decide (td_idempotency effective = TiIdempotentWithKey)
                 && key_missing (ta_idempotency_key a)) MissingIdempotencyKey;
  _ ← guard_err (match ta_idempotency_key a with
                 | Some key => negb (String.eqb (al_idempotency_key lease) "")
                               && negb (String.eqb (al_idempotency_key lease) key)
                 | None => false
                 end) LeaseIdempotencyMismatch;
  _ ← guard_err (negb (tc_contains catalog canonical_id)) (ToolNotFound canonical_id);
  Ok canonical_id.
End Host.

(** ** The turn *)

Record ExecutionContext := {
  ec_session_id : string;
  ec_turn_id : string;
  ec_execution_id : string
}.

(** What [ConversationRuntime] contributes. *)
Record TurnRuntime := {
  tr_session_id : string;
  tr_memory_agent_id : string;
  tr_memory_team_id : option string;
  tr_checkpoint_workspace_id : string;
  tr_activity_task_id : option string;
  tr_execution_context : option ExecutionContext;
  tr_permission_policy : PermissionPolicy
}.

Inductive ToolAuthorizationDecision :=
| Authorized (d : ToolExecutionPolicyDecision)
| Gap (assessment : CapabilityAssessment) (effective : EffectiveToolAuthorizationDescriptor).

Definition safe_alternatives_for (k : ToolEffectKind) : list string :=
  match k with
  | TeWrite => ["return a patch or proposed change without applying it"%string]
  | TeNetwork => ["use already-authorized local or cached evidence"%string]
  | TeProcess | TePackage =>
      ["inspect and report the required operation without executing it"%string]
  | TeRead | TeSystem | TeDestructive | TeUnknown => []
  end.

(** [authorization_request] *)
Definition authorization_request (rt : TurnRuntime) (d : ToolEffectDescriptor)
    (input idempotency_key : string) (context : PermissionContext)
    (execution_policy : SessionExecutionPolicy) : AuthorizationRequest :=
  let delegated := negb (String.eqb (tr_memory_agent_id rt) "primary") in
  {| ar_principal_id := if delegated then "agent:" +:+ tr_memory_agent_id rt
                        else "session:" +:+ tr_session_id rt;
     ar_capability := td_tool_id d; ar_input := input; ar_idempotency_key := idempotency_key;
     ar_effect := d;
     ar_parent_ceiling := if delegated then active_mode (tr_permission_policy rt)
                          else PmDangerFullAccess;
     ar_parent_lease_id := if delegated then Some ("binding:" +:+ tr_memory_agent_id rt)%string
                           else None;
     ar_policy_revision := sp_revision execution_policy;
     ar_recovery_scope := match tr_execution_context rt with
                          | Some c => "turn:" +:+ ec_turn_id c
                          | None => "session:" +:+ tr_session_id rt
                          end;
     ar_context := context; ar_safe_alternatives := safe_alternatives_for (td_effect_kind d) |}.

(** [AutonomyProfileId::as_str] *)
Definition autonomy_as_str (p : AutonomyProfileId) : string :=
  match p with
  | AuCautious => "cautious" | AuSupervised => "supervised" | AuStewarded => "stewarded"
  | AuAutonomous => "autonomous" | AuYolo => "yolo"
  end.

(** The source and the context [negotiate_tool_authorization] asks the
    coordinator with. *)
Definition turn_approval_source (rt : TurnRuntime) : ApprovalSource :=
  let delegated := negb (String.eqb (tr_memory_agent_id rt) "primary") in
  {| as_kind := if delegated then AsAgent else AsSession;
     as_session_id := Some (tr_session_id rt);
     as_agent_id := if delegated then Some (tr_memory_agent_id rt) else None;
     as_team_id := tr_memory_team_id rt; as_mission_id := None;
     as_resource_ref := Some (tr_checkpoint_workspace_id rt); as_review_ref := None;
     as_application := None |}.

Definition turn_approval_context (rt : TurnRuntime) (request : AuthorizationRequest)
    (d : ToolEffectDescriptor) (effective : EffectiveToolAuthorizationDescriptor)
    (idempotency_key : string) (execution_policy : SessionExecutionPolicy) : ApprovalContext :=
  {| cx_principal_id := ar_principal_id request;
     cx_profile_id := autonomy_as_str (sp_autonomy_profile execution_policy);
     cx_approval_profile := Some (sp_approval_profile execution_policy);
     cx_workspace_key := tr_checkpoint_workspace_id rt; cx_session_id := Some (tr_session_id rt);
     cx_turn_id := ec_turn_id <$> tr_execution_context rt; cx_task_id := tr_activity_task_id rt;
     cx_capability := td_tool_id d; cx_invocation_id := Some idempotency_key;
     cx_execution_id := ec_execution_id <$> tr_execution_context rt;
     cx_strategy_decision_ref := None; cx_source_surface := Some "gateway_session"%string;
     cx_resource_targets := omap ps_target (td_scopes d);
     cx_effect := Some (ed_descriptor effective);
     cx_explicit_ask := bool_decide (pc_override_decision (ar_context request) = Some OvAsk);
     cx_policy_revision := sp_revision execution_policy;
     cx_requested_sandbox_posture := Some (sp_sandbox_posture execution_policy);
     cx_effective_sandbox_posture := Some (sp_sandbox_posture execution_policy) |}.

Definition with_gap (path : AuthorizationPath) (lease : option AuthorizationLease)
    (gap : option CapabilityGap) (evidence : string) (a : CapabilityAssessment) :
  CapabilityAssessment :=
  {| ca_assessment_id := ca_assessment_id a; ca_capability := ca_capability a;
     ca_effect := ca_effect a; ca_requested_scopes := ca_requested_scopes a;
     ca_required_mode := ca_required_mode a; ca_active_ceiling := ca_active_ceiling a;
     ca_parent_ceiling := ca_parent_ceiling a; ca_risk := ca_risk a; ca_path := path;
     ca_lease := lease; ca_gap := gap; ca_evidence_refs := ca_evidence_refs a ++ [evidence];
     ca_assessed_at_ms := ca_assessed_at_ms a |}.

(** [close_controlled_recovery_gap] *)
Definition close_controlled_recovery_gap (reason evidence : string) (a : CapabilityAssessment) :
  CapabilityAssessment :=
  with_gap (ca_path a) (ca_lease a)
    ((fun g => {| cg_fingerprint := cg_fingerprint g; cg_kind := cg_kind g;
                  cg_capability := cg_capability g; cg_requested_scopes := cg_requested_scopes g;
                  cg_required_mode := cg_required_mode g; cg_active_ceiling := cg_active_ceiling g;
                  cg_parent_ceiling := cg_parent_ceiling g;
                  cg_reason := cg_reason g +:+ "; " +:+ reason;
                  cg_safe_alternatives := cg_safe_alternatives g; cg_recoverable := false |})
       <$> ca_gap a) evidence a.

(** [denied_capability_assessment] *)
Definition denied_capability_assessment (a : CapabilityAssessment) (reason approval_ref : string) :
  CapabilityAssessment :=
  with_gap PathHardDeny None
    (Some {| cg_fingerprint := match ca_gap a with
                               | Some g => cg_fingerprint g | None => ca_assessment_id a end;
             cg_kind := GkApprovalRequired; cg_capability := ca_capability a;
             cg_requested_scopes := ca_requested_scopes a; cg_required_mode := ca_required_mode a;
             cg_active_ceiling := ca_active_ceiling a; cg_parent_ceiling := ca_parent_ceiling a;
             cg_reason := reason;
             cg_safe_alternatives := match ca_gap a with
                                     | Some g => cg_safe_alternatives g | None => [] end;
             cg_recoverable := false |})
    ("approval:" +:+ approval_ref +:+ ":" +:+ reason) a.

Section Turn.
Context {Value S : Type} `{EqDecision Value} `{Json Value} `{Digest Value}
  `{AuthorizationJson Value} `{EvidenceJson Value} `{EventBackend Value S}.
Context (secret : string) (from_str : string -> option Value) (rt : TurnRuntime).

(** The registry and the store, if there is one. *)
Abbreviation State := (LeaseRegistry * option S)%type.

(** [record_capability_assessment]. The assessment it also appends, to the
    stream of the session, is interference with the streams of the leases and
    part of [env]. *)
Definition record_capability_assessment (env : nat -> nat -> S -> S) (st : State) : State :=
  record_transitions env "conversation_runtime" st.1 st.2.

(** [assess_tool_authorization_at] *)
Definition assess_tool_authorization_at (uuid : nat -> string) (clk : nat -> N)
    (env : nat -> nat -> S -> S) (d : ToolEffectDescriptor) (input idempotency_key : string)
    (context : PermissionContext) (timeout_secs : N) (execution_policy : SessionExecutionPolicy)
    (st : State) : Result string ToolAuthorizationDecision * State :=
  let request := authorization_request rt d input idempotency_key context execution_policy in
  let bound := bound_to_snapshot execution_policy (tr_permission_policy rt) in
  let '(effective, assessment, reg) := assess_effective secret from_str uuid clk bound request st.1 in
  match ca_lease assessment with
  | Some lease =>
      (map_err policy_error_to_string
         (decision ← tool_policy_authorize effective assessment idempotency_key lease timeout_secs;
          Ok (Authorized decision)),
       record_capability_assessment env (reg, st.2))
  | None => (Ok (Gap assessment effective), (reg, st.2))
  end.

(** [govern_capability_gap]; [env] is the interference with the claim. *)
Definition govern_capability_gap (env : nat -> S -> S) (a : CapabilityAssessment) (st : State) :
  CapabilityAssessment * State :=
  match (g ← ca_gap a; if cg_recoverable g then Some (cg_fingerprint g) else None) with
  | None => (a, st)
  | Some fingerprint =>
      match tr_execution_context rt with
      | None =>
          (close_controlled_recovery_gap
             "controlled recovery requires an exact durable turn identity"
             "authorization.recovery_missing_turn_identity" a, st)
      | Some c =>
          let recovery_scope := "turn:" +:+ ec_turn_id c in
          let '(claimed, reg) := claim_controlled_recovery a recovery_scope st.1 in
          if negb claimed then
            (close_controlled_recovery_gap
               "the same capability gap already consumed its single controlled recovery"
               "authorization.recovery_circuit_open" a, (reg, st.2))
          else
            let record :=
              {| rc_fingerprint := fingerprint; rc_recovery_scope := recovery_scope;
                 rc_session_id := ec_session_id c; rc_turn_id := ec_turn_id c;
                 rc_execution_id := ec_execution_id c; rc_capability := ca_capability a |} in
            let '(persisted, store) :=
              match st.2 with
              | None =>
                  (Err "controlled recovery requires the durable Runtime event store"%string, None)
              | Some s => let '(res, s) := persist_controlled_recovery_claim env record s in
                          (res, Some s)
              end in
            match persisted with
            | Err error =>
                (close_controlled_recovery_gap
                   ("controlled recovery claim was not durably recorded: " +:+ error)
                   "authorization.recovery_persistence_failed" a,
                 ((rollback_unpersisted_controlled_recovery_claim fingerprint reg).2, store))
            | Ok _ =>
                (with_gap (ca_path a) (ca_lease a) (ca_gap a)
                   ("authorization.controlled_recovery_claim:" +:+ fingerprint) a, (reg, store))
            end
      end
  end.

(** What [negotiate_tool_authorization] meets outside the registry: the answer
    of the coordinator and the control's revision after it, what others did to
    the registry and the store meanwhile, and [consume_once_grant]. *)
Record Surroundings := {
  su_coordinator : option (Result string ApprovalResolution);
  su_meanwhile : State -> State;
  su_revision : N;
  su_consume_once_grant : string -> Result string unit
}.

(** A denial of a resolved approval. *)
Definition deny_gap (env : nat -> nat -> S -> S) (a : CapabilityAssessment)
    (effective : EffectiveToolAuthorizationDescriptor) (reason approval_ref : string) (st : State) :
  Result string ToolAuthorizationDecision * State :=
  (Ok (Gap (denied_capability_assessment a reason approval_ref) effective),
   record_capability_assessment env st).

(** [negotiate_tool_authorization]; [uuid], [clk] are those of the assessment
    and [uuid'], [clk'] those of the approval. *)
Definition negotiate_tool_authorization (uuid uuid' : nat -> string) (clk clk' : nat -> N)
    (env : nat -> nat -> nat -> S -> S) (su : Surroundings) (d : ToolEffectDescriptor)
    (input idempotency_key : string) (context : PermissionContext) (timeout_secs : N) (st : State) :
  Result string ToolAuthorizationDecision * State :=
  let execution_policy := pp_control (tr_permission_policy rt) in
  let '(initial, st) := assess_tool_authorization_at uuid clk (env 0) d input idempotency_key context
                          timeout_secs execution_policy st in
  match initial with
  | Ok (Gap assessment effective) =>
      let ungranted st :=
        let '(assessment, st) := govern_capability_gap (env 1 0) assessment st in
        (Ok (Gap assessment effective), record_capability_assessment (env 2) st) in
      if negb (bool_decide (ca_path assessment = PathHumanApproval)) then ungranted st
      else
        match su_coordinator su with
        | None => ungranted st
        | Some resolution =>
            let st := su_meanwhile su st in
            match resolution with
            | Ok (Denied id reason) | Ok (Cancelled id reason) | Ok (ControlRequested id reason) =>
                deny_gap (env 2) assessment effective reason id st
            | Err error =>
                deny_gap (env 2) assessment effective error ("tool-approval:" +:+ idempotency_key) st
            | Ok (Approved _ grant) =>
                if negb (su_revision su =? sp_revision execution_policy)%N then
                  deny_gap (env 2) assessment effective
                    "session policy changed while approval was pending; replan the effect"
                    (gt_grant_id grant) st
                else
                  let request :=
                    authorization_request rt d input idempotency_key context execution_policy in
                  let bound := bound_to_snapshot execution_policy (tr_permission_policy rt) in
                  let '(approved, reg) :=
                    approve_effective secret from_str uuid' clk' bound request effective grant st.1 in
                  let st := record_capability_assessment (env 2) (reg, st.2) in
                  match ca_lease approved with
                  | None => (Ok (Gap approved effective), st)
                  | Some lease =>
                      (authorized ← map_err policy_error_to_string
                         (tool_policy_authorize effective approved idempotency_key lease
                            timeout_secs);
                       _ ← (if bool_decide (gt_scope grant = GsOnce)
                            then su_consume_once_grant su (gt_grant_id grant) else Ok tt);
                       Ok (Authorized authorized), st)
                  end
            end
        end
  | _ => (initial, st)
  end.
End Turn.
