(* ===== verification/ToolAuthority.v ===== *)
(** * What the gate guarantees

    The authority behind a dispatched tool call: what a lease that an assessment
    answers with is backed by, what the two checks in front of the tool
    establish together, which calls get through, and which approvals lead
    nowhere. *)

From S2P Require Import Prelude Facts Contract Validation Delta Ports EventStore Backend.
From S2P Require Import Approval ApprovalJournal Permissions Negotiator LeaseSafety Evidence.
From S2P Require Import Coordinator ToolEffect ToolGate.

(** ** Leases and policy *)

Section Authority.
Context {Value : Type} `{Json Value} `{Digest Value} `{AuthorizationJson Value}.
Context (secret : string) (from_str : string -> option Value).

Definition request_route (p : PermissionPolicy) (r : AuthorizationRequest) : PermissionPolicyRoute :=
  route_required_with_context from_str p (ar_capability r) (ar_input r)
    (td_required_permission (ar_effect r)) (ar_context r).

Definition crosses_human_boundary (d : ToolEffectDescriptor) : bool :=
  requires_human_boundary (td_assessment d) (risk_for_effect (td_assessment d))
    (td_approval_class d).

(** The lease is for this request, at this time. *)
Record covers (l : AuthorizationLease) (r : AuthorizationRequest) (now : N) : Prop := {
  cv_capability : al_capability l = ar_capability r;
  cv_scopes : forall s, s ∈ td_scopes (ar_effect r) -> s ∈ al_scopes l;
  cv_descriptor : al_effect_descriptor_hash l = td_descriptor_hash (ar_effect r);
  cv_revision : al_policy_revision l = ar_policy_revision r;
  cv_time : (now <= al_expires_at_ms l)%N
}.

(** What stands behind an answered lease: the repetition of an answer given for
    the same idempotency key, a lease there was, a rule of the user, the policy
    mode, or a person. *)
Inductive backing (p : PermissionPolicy) (r : AuthorizationRequest) (w : World) (now : N)
    (l : AuthorizationLease) : AuthorizationPath -> Prop :=
| BackedRepetition :
    (al_lease_id l, ar_idempotency_key r) ∈ w_answers w -> backing p r w now l PathExistingLease
| BackedLease :
    covers l r now -> (ar_policy_revision r <> 0)%N ->
    pm_permits (al_ceiling l) (td_required_permission (ar_effect r)) = true ->
    backing p r w now l PathExistingLease
| BackedRule why :
    covers l r now -> al_ceiling l = active_mode p -> request_route p r = RouteAllow true why ->
    (crosses_human_boundary (ar_effect r) = true ->
       td_approval_class (ar_effect r) <> TaAdministrator) ->
    backing p r w now l PathStandingGrant
| BackedMode why :
    covers l r now -> al_ceiling l = active_mode p -> request_route p r = RouteAllow false why ->
    crosses_human_boundary (ar_effect r) = false ->
    backing p r w now l PathPolicyAutoGrant
| BackedPerson :
    covers l r now -> al_ceiling l = active_mode p -> backing p r w now l PathHumanApproval.

Lemma scopes_cover_spec l scopes :
  lease_scopes_cover l scopes = true <-> forall s, s ∈ scopes -> s ∈ al_scopes l.
Proof.
  unfold lease_scopes_cover. rewrite forallb_elem_of.
  split; intros Hs s Hin; [by apply memb_true, Hs|by apply memb_true, Hs].
Qed.

Lemma new_lease_covers id r c path now :
  (now <= u64_max)%N ->
  covers (new_lease secret id r (td_required_permission (ar_effect r)) c path now) r now.
Proof.
  intros Hn. split; cbn; try done. unfold u64_saturating_add, sat_add.
  destruct path; cbn; lia.
Qed.

Lemma assessed_backing w uuid (clk : nat -> N) p r a reg l :
  LeaseInv secret w -> (clk 0%nat <= u64_max)%N ->
  assessed secret from_str uuid clk p r (w_reg w) a reg -> ca_lease a = Some l ->
  exceeds_parent r = false /\ (forall why, request_route p r <> RouteHardDeny why) /\
  verify_lease_signature secret l = true /\ al_idempotency_key l = ar_idempotency_key r /\
  al_status l = LsActive /\ backing p r w (clk 0) l (ca_path a).
Proof.
  intros Hw Hclk Ha Hl.
  destruct Ha as [Hn _ _|x Hp Hr Hc Hx Hpath|x path Hp Hr Hb Hi Hx Hpath]; [congruence| |];
    rewrite Hx in Hl; injection Hl as ->; rewrite Hpath; (split; [done|]); (split; [done|]).
  - unfold consume_existing in Hc. apply bind_Some in Hc as (id & _ & Hc).
    case_bool_decide; [done|]. apply bind_Some in Hc as (y & Hy & Hc).
    destruct (li_named secret w Hw id y Hy) as [Hn _].
    pose proof (lo_signed _ _ _ (li_ok secret w Hw id y Hy)) as Hs.
    case_bool_decide as Hk.
    + injection Hc as <- <-. split; [done|]. do 2 (split; [done|]). apply BackedRepetition.
      cbn. rewrite Hn. by apply (li_keys secret w Hw) in Hk as [Hk _].
    + destruct (_ || _) eqn:E; [done|]. injection Hc as <- <-.
      split; [done|]. do 2 (split; [done|]). rewrite !orb_false_iff in E.
      destruct E as [[[[[[Ea Eb] Ec] Ed] Ee] Ef] Eg]. rewrite !negb_false_iff in *.
      apply N.eqb_eq in Ee. apply String.eqb_eq in Ef.
      apply andb_prop in Ea as [_ Et%N.leb_le].
      apply andb_prop in Eb as [Eb%String.eqb_eq Em]. rewrite scopes_cover_spec in Ec.
      apply N.eqb_neq in Ed. apply BackedLease; [by split|by rewrite <- Ee|done].
  - unfold issue_and_consume in Hi. cbv zeta in Hi. injection Hi as <- _.
    split; [apply verify_new|]. do 2 (split; [done|]).
    destruct Hb as [->|(standing & why & Hroute & -> & Hh)].
    + apply BackedPerson; [by apply new_lease_covers|done].
    + destruct standing.
      * eapply BackedRule; [by apply new_lease_covers|done|exact Hroute|]. intros Hb. by apply Hh.
      * eapply BackedMode; [by apply new_lease_covers|done|exact Hroute|].
        unfold crosses_human_boundary. apply not_true_is_false. intros Hb. by destruct (Hh Hb).
Qed.

(** An assessment never speaks for a person, an approval always does. *)
Lemma assess_no_person uuid clk p r reg eff a reg' :
  assess_effective secret from_str uuid clk p r reg = (eff, a, reg') ->
  is_Some (ca_lease a) -> ca_path a <> PathHumanApproval.
Proof.
  unfold assess_effective. destruct (assess_compiled _ _ _ _ _ _ _) as [a1 reg1] eqn:E.
  intros [= _ <- <-] Hl. unfold assess_compiled in E. cbv zeta in E.
  destruct (exceeds_parent _); [injection E as <- <-; by destruct Hl|].
  destruct (route_required_with_context _ _ _ _ _ _) as [standing why|why|why];
    [..|injection E as <- <-; by destruct Hl].
  all: destruct (consume_existing _ _ _ _ _ _ _) as [[l reg2]|]; [by injection E as <- <-|].
  - destruct (_ && (_ || _)); [injection E as <- <-; by destruct Hl|].
    destruct (issue_and_consume _ _ _ _ _ _ _ _ _). injection E as <- <-. by destruct standing.
  - destruct (_ && _); injection E as <- <-; by destruct Hl.
Qed.

Lemma approve_person uuid clk p r eff g reg a reg' :
  approve_effective secret from_str uuid clk p r eff g reg = (a, reg') ->
  is_Some (ca_lease a) -> ca_path a = PathHumanApproval.
Proof.
  unfold approve_effective. cbv zeta. intros Ha Hl.
  destruct (validate_approval_grant _ _ _ _); [|injection Ha as <- <-; by destruct Hl].
  destruct (exceeds_parent _); [injection Ha as <- <-; by destruct Hl|].
  destruct (route_required_with_context _ _ _ _ _ _);
    [..|injection Ha as <- <-; by destruct Hl].
  all: destruct (issue_and_consume _ _ _ _ _ _ _ _ _); by injection Ha as <- <-.
Qed.

End Authority.

(** ** The two checks together *)

Section Gate.
Context (shlex_split : string -> option (list string)).
Context (scalar_to_string : JsonValue -> string) (properties_debug : EffectProperties -> string)
  (default_hash : list string -> string).
Context (catalog : ToolCatalog).

Abbreviation describe :=
  (describe_effect shlex_split scalar_to_string properties_debug default_hash catalog).
Abbreviation host_check :=
  (authorize_and_canonicalize shlex_split scalar_to_string properties_debug default_hash catalog).

(** What [ToolPolicy::authorize] answers. *)
Lemma tool_policy_authorize_Ok effective a id lease timeout dec :
  tool_policy_authorize effective a id lease timeout = Ok dec <->
  let d := ed_descriptor effective in
  ca_capability a = td_tool_id d /\ ca_effect a = td_assessment d /\
  ca_requested_scopes a = td_scopes d /\ ca_required_mode a = td_required_permission d /\
  lease_permits lease (ca_capability a) (ca_required_mode a) = true /\
  al_policy_revision lease <> 0%N /\ al_effect_descriptor_hash lease = td_descriptor_hash d /\
  (forall s, s ∈ td_scopes d -> s ∈ al_scopes lease) /\
  (td_idempotency d = TiIdempotentWithKey -> al_idempotency_key lease = id) /\
  exists scope, head (td_scopes d) = Some scope /\
  dec = {| pd_authorization :=
             {| ta_request_id := id; ta_tool_id := td_tool_id d;
                ta_descriptor_hash := td_descriptor_hash d;
                ta_policy_revision := al_policy_revision lease; ta_scope := scope;
                ta_authorization_lease := lease;
                ta_timeout_lease := "timeout:" +:+ stdpp.pretty.pretty timeout;
                ta_idempotency_key := if bool_decide (td_idempotency d = TiIdempotentWithKey)
                                      then Some id else None |};
           pd_timeout_secs := timeout;
           pd_parallel_safe := bool_decide (td_idempotency d = TiIdempotent)
                               && bool_decide (td_effect_kind d = TeRead) |}.
Proof.
  cbn zeta. unfold tool_policy_authorize. cbv zeta. set (d := ed_descriptor effective). split.
  - intros Ho. apply bind_Ok_inv in Ho as ([] & E1%guard_err_Ok_inv & Ho).
    apply bind_Ok_inv in Ho as ([] & E2%guard_err_Ok_inv%negb_false_iff & Ho).
    apply bind_Ok_inv in Ho as (scope & E3%ok_or_Ok_inv & Ho).
    apply bind_Ok_inv in Ho as (key & E4 & Ho). injection Ho as <-.
    rewrite !orb_false_iff, !negb_false_iff in E1.
    destruct E1 as [[[[[[A1%String.eqb_eq A2%bool_decide_eq_true] A3%bool_decide_eq_true]
      A4%bool_decide_eq_true] A5] A6%N.eqb_neq] A7%String.eqb_eq].
    rewrite A3 in E2, E3. rewrite scopes_cover_spec in E2.
    do 8 (split; [done|]). case_bool_decide as Ek.
    + apply bind_Ok_inv in E4 as ([] & E4%guard_err_Ok_inv%negb_false_iff%String.eqb_eq & [= <-]).
      split; [done|]. eauto.
    + injection E4 as <-. split; [done|]. eauto.
  - intros (A1 & A2 & A3 & A4 & A5 & A6%N.eqb_neq & A7 & A8%scopes_cover_spec & A9 & scope & A10 & ->).
    rewrite A5, A6, A3, A8, A10, A1, A2, A4, A7, !String.eqb_refl.
    rewrite (bool_decide_true (td_assessment d = td_assessment d)),
      (bool_decide_true (td_scopes d = td_scopes d)),
      (bool_decide_true (td_required_permission d = td_required_permission d)) by done.
    cbn. destruct (bool_decide (td_idempotency d = TiIdempotentWithKey)) eqn:Ek; [|done].
    apply bool_decide_eq_true in Ek. by rewrite (A9 Ek), String.eqb_refl.
Qed.

(** What the boundary of the host checks. *)
Record host_accepts (verifier : AuthorizationLease -> bool) (now : N)
    (a : ToolExecutionAuthorization) (tool_id : string) (d : ToolEffectDescriptor) : Prop := {
  ha_tool : ta_tool_id a = canonical catalog tool_id;
  ha_signature : trim_is_empty (al_signature (ta_authorization_lease a)) = false;
  ha_verified : verifier (ta_authorization_lease a) = true;
  ha_revision : ta_policy_revision a = al_policy_revision (ta_authorization_lease a) /\
                ta_policy_revision a <> 0%N;
  ha_effect : al_effect_descriptor_hash (ta_authorization_lease a) = ta_descriptor_hash a;
  ha_timeout : trim_is_empty (ta_timeout_lease a) = false;
  ha_active : lease_active_at (ta_authorization_lease a) now = true;
  ha_permits : lease_permits (ta_authorization_lease a) (canonical catalog tool_id)
                 (td_required_permission d) = true;
  ha_hash : ta_descriptor_hash a = td_descriptor_hash d;
  ha_scope : ta_scope a ∈ td_scopes d;
  ha_scopes : forall s, s ∈ td_scopes d -> s ∈ al_scopes (ta_authorization_lease a);
  ha_needs_key : td_idempotency d = TiIdempotentWithKey -> key_missing (ta_idempotency_key a) = false;
  ha_key : forall key, ta_idempotency_key a = Some key ->
             al_idempotency_key (ta_authorization_lease a) = EmptyString \/
             al_idempotency_key (ta_authorization_lease a) = key;
  ha_contains : tc_contains catalog (canonical catalog tool_id) = true
}.

Lemma host_check_Ok verifier now a tool_id input c :
  host_check (Some verifier) now a tool_id input = Ok c <->
  c = canonical catalog tool_id /\
  host_accepts verifier now a tool_id (describe (canonical catalog tool_id) input).
Proof.
  unfold authorize_and_canonicalize. cbv zeta.
  set (d := describe (canonical catalog tool_id) input). split.
  - intros Ho. repeat (apply bind_Ok_inv in Ho as ([] & ?%guard_err_Ok_inv & Ho)).
    injection Ho as <-. split; [done|].
    repeat match goal with
    | Hn : negb _ = false |- _ => apply negb_false_iff in Hn
    | Hn : String.eqb _ _ = true |- _ => apply String.eqb_eq in Hn
    | Hn : _ || _ = false |- _ => apply orb_false_iff in Hn as [? ?]
    | Hn : (_ =? _)%N = false |- _ => apply N.eqb_neq in Hn
    | Hn : (_ =? _)%N = true |- _ => apply N.eqb_eq in Hn
    | Hn : memb _ _ = true |- _ => apply memb_true in Hn
    | Hn : lease_scopes_cover _ _ = true |- _ => rewrite scopes_cover_spec in Hn
    | Hn : bool_decide _ && _ = false |- _ => apply andb_false_iff in Hn
    end.
    split; try done.
    + intros Hk. match goal with Hn : _ \/ _ |- _ => destruct Hn as [Hx|Hx]; [|done] end.
      by apply bool_decide_eq_false in Hx.
    + intros key Hkey. rewrite Hkey in *.
      match goal with Hn : negb (String.eqb _ _) && _ = false |- _ =>
        apply andb_false_iff in Hn as [Hx|Hx]; apply negb_false_iff, String.eqb_eq in Hx end; auto.
  - intros (-> & [A1 A2 A3 [A4 A4'] A5 A6 A7 A8 A9 A10 A11 A12 A13 A14]).
    apply N.eqb_neq in A4'. apply memb_true in A10. apply scopes_cover_spec in A11.
    assert ((bool_decide (td_idempotency d = TiIdempotentWithKey)
             && key_missing (ta_idempotency_key a)) = false) as E12.
    { case_bool_decide; [by apply A12|done]. }
    assert (match ta_idempotency_key a with
            | Some key => negb (String.eqb (al_idempotency_key (ta_authorization_lease a)) "")
                          && negb (String.eqb (al_idempotency_key (ta_authorization_lease a)) key)
            | None => false
            end = false) as E13.
    { destruct (ta_idempotency_key a) as [key|]; [|done].
      destruct (A13 key eq_refl) as [->| ->]; rewrite String.eqb_refl; cbn; [done|].
      by rewrite andb_false_r. }
    rewrite E12, E13, A1, A2, A3, A4', A5, A6, A7, A8, A9, A10, A11, A14, !String.eqb_refl.
    rewrite A4 in A4' |- *. by rewrite A4', N.eqb_refl.
Qed.

(** C7. What runs is what was authorized.  When the decision of
    [ToolPolicy::authorize] is accepted by the host for a tool and an input, the
    call that is about to run has, by the host's own description at that moment,
    the effect the lease was issued for: the same tool and descriptor hash, a
    permission within the lease's ceiling, every scope one of the lease's; the
    lease's signature is valid, its policy revision is real, and it is active
    and unexpired now; and a call that needs an idempotency key runs under the
    lease's own. *)
Theorem dispatched_call_is_authorized secret_check effective a id lease timeout dec now tool_id input c :
  tool_policy_authorize effective a id lease timeout = Ok dec ->
  host_check (Some secret_check) now (pd_authorization dec) tool_id input = Ok c ->
  let runs := describe c input in
  c = td_tool_id (ed_descriptor effective) /\ al_capability lease = c /\
  td_descriptor_hash runs = td_descriptor_hash (ed_descriptor effective) /\
  td_descriptor_hash runs = al_effect_descriptor_hash lease /\
  (pm_rank (td_required_permission runs) <= pm_rank (al_ceiling lease))%N /\
  (forall s, s ∈ td_scopes runs -> s ∈ al_scopes lease) /\
  secret_check lease = true /\ al_policy_revision lease <> 0%N /\
  al_status lease = LsActive /\ (0 < al_remaining_uses lease)%N /\
  (now <= al_expires_at_ms lease)%N /\
  (td_idempotency runs = TiIdempotentWithKey -> al_idempotency_key lease = id /\ id <> EmptyString).
Proof.
  intros (A1 & _ & _ & _ & _ & A6 & A7 & _ & A9 & scope & _ & ->)%tool_policy_authorize_Ok
    (-> & Hh)%host_check_Ok.
  destruct Hh as [B1 _ B3 _ B5 _ B7 B8 B9 _ B11 B12 B13 _]. cbn in *.
  apply andb_prop in B8 as [B8%String.eqb_eq B8'%N.leb_le].
  apply andb_prop in B7 as [[B7%bool_decide_eq_true B7'%N.ltb_lt]%andb_prop B7''%N.leb_le].
  do 11 (split; [first [done|congruence]|]).
  intros Hk%B12. destruct (bool_decide _) eqn:Ek; [|done].
  apply bool_decide_eq_true in Ek. split; [auto|]. by apply String.eqb_neq in Hk.
Qed.
End Gate.

(** ** Which calls get through *)

Lemma required_mode_floor d a :
  (pm_rank (td_required_permission d) <= pm_rank (required_mode_for_effect d a))%N.
Proof.
  unfold required_mode_for_effect.
  match goal with |- context [if (pm_rank ?m <=? _)%N then _ else _] => generalize m end.
  intros m. destruct (N.leb_spec (pm_rank m) (pm_rank (td_required_permission d))); lia.
Qed.

Lemma one_scope shlex_split scalar_to_string properties_debug default_hash resolver tool input permission :
  exists s, td_scopes (resolve_registered_tool_effect shlex_split scalar_to_string properties_debug
                         default_hash resolver tool input permission) = [s].
Proof.
  cbn. unfold resolve_effect_properties.
  repeat (destruct (String.eqb _ _) || destruct (memb _ _)); eauto.
Qed.

Section Dispatch.
Context {Value S : Type} `{EqDecision Value} `{Json Value} `{Digest Value}
  `{AuthorizationJson Value} `{EvidenceJson Value} `{EventBackend Value S}.
Context (secret : string) (from_str : string -> option Value) (rt : TurnRuntime).
Context (shlex_split : string -> option (list string)).
Context (scalar_to_string : JsonValue -> string) (properties_debug : EffectProperties -> string)
  (default_hash : list string -> string).
Context (catalog : ToolCatalog).

Abbreviation describe :=
  (describe_effect shlex_split scalar_to_string properties_debug default_hash catalog).
Abbreviation host_check :=
  (authorize_and_canonicalize shlex_split scalar_to_string properties_debug default_hash catalog).

(** The request of a turn, as the negotiator sees it. *)
Definition turn_request (d : ToolEffectDescriptor) (text id : string) (context : PermissionContext)
    (policy : SessionExecutionPolicy) : AuthorizationRequest :=
  with_effect (ed_descriptor (compile_effective_descriptor d text))
    (authorization_request rt d text id context policy).

Abbreviation bound policy := (bound_to_snapshot policy (tr_permission_policy rt)).

Lemma fresh_signature_not_blank id r m c path now :
  trim_is_empty (al_signature (new_lease secret id r m c path now)) = false.
Proof. reflexivity. Qed.

Lemma fresh_lease_active id r m c path now t :
  (t <= al_expires_at_ms (new_lease secret id r m c path now))%N ->
  lease_active_at (new_lease secret id r m c path now) t = true.
Proof.
  intros Ht. unfold lease_active_at. rewrite bool_decide_true by done. cbn.
  rewrite (proj2 (N.leb_le _ _)) by done. unfold lease_max_uses.
  destruct path; try done. by case_bool_decide.
Qed.

Lemma fresh_lease_gate d text id context policy uuid c path now timeout a :
  let r := turn_request d text id context policy in
  ca_capability a = td_tool_id d -> ca_effect a = td_assessment (ar_effect r) ->
  ca_requested_scopes a = td_scopes d -> ca_required_mode a = td_required_permission (ar_effect r) ->
  (exists s, td_scopes d = [s]) -> sp_revision policy <> 0%N ->
  pm_permits c (td_required_permission (ar_effect r)) = true -> exists dec,
  tool_policy_authorize (compile_effective_descriptor d text) a id
    (new_lease secret uuid r (td_required_permission (ar_effect r)) c path now) timeout = Ok dec.
Proof.
  intros r E1 E2 E3 E4 [s Es] Hrev Hm. eexists. apply tool_policy_authorize_Ok. cbn zeta.
  split; [done|]. split; [done|]. split; [done|]. split; [done|]. split.
  { unfold lease_permits. rewrite E1, E4. cbn -[pm_permits]. rewrite String.eqb_refl. exact Hm. }
  split; [done|]. split; [done|]. split; [done|]. split; [done|].
  exists s. split; [|reflexivity]. cbn. by rewrite Es.
Qed.

(** [permitted_call_runs] for the effect [d] the host describes. *)
Lemma granted_call_accepted tool d text id context policy standing why uuid clk env timeout
    reg store now :
  let r := turn_request d text id context policy in
  let path := if standing : bool then PathStandingGrant else PathPolicyAutoGrant in
  td_tool_id d = canonical catalog tool -> (exists s, td_scopes d = [s]) ->
  tc_contains catalog (canonical catalog tool) = true ->
  id <> EmptyString -> sp_revision policy <> 0%N ->
  exceeds_parent r = false ->
  request_route from_str (bound policy) r = RouteAllow standing why ->
  pm_permits (active_mode (bound policy)) (td_required_permission (ar_effect r)) = true ->
  crosses_human_boundary (ar_effect r) && (negb standing
    || bool_decide (td_approval_class (ar_effect r) = TaAdministrator)) = false ->
  consume_existing secret uuid clk
    (capability_fingerprint r (td_required_permission (ar_effect r))) r
    (td_required_permission (ar_effect r)) reg = None ->
  (now <= u64_saturating_add (clk 0%nat) (lease_ttl_ms path))%N ->
  exists dec st,
    assess_tool_authorization_at secret from_str rt uuid clk env d text id context timeout policy
      (reg, store) = (Ok (Authorized dec), st) /\
    host_accepts catalog (verify_lease_signature secret) now (pd_authorization dec) tool d.
Proof.
  intros r path Htool Hs Hin Hid Hrev Hex Hroute Hmode Hhum Hnone Hnow.
  unfold assess_tool_authorization_at. cbv zeta. cbn [fst].
  unfold assess_effective. change (with_effect _ _) with r.
  unfold assess_compiled. cbv zeta. rewrite Hex.
  unfold request_route in Hroute. rewrite Hroute, Hnone.
  unfold crosses_human_boundary in Hhum. rewrite Hhum. fold path.
  destruct (issue_and_consume _ _ _ _ _ _ _ _ _) as [l reg1] eqn:Ei.
  unfold issue_and_consume in Ei. cbv zeta in Ei. injection Ei as <- _.
  set (l := new_lease secret (uuid 0) r _ _ path (clk 0)).
  match goal with |- context [authorized_assessment uuid clk r ?c path l why] =>
    set (a := authorized_assessment uuid clk r c path l why) end.
  destruct (fresh_lease_gate d text id context policy (uuid 0) (active_mode (bound policy)) path
              (clk 0) timeout a) as [dec Hdec]; try done.
  change (ca_lease a) with (Some l). cbv beta iota.
  match type of Hdec with ?x = _ =>
    match goal with |- context [tool_policy_authorize ?e ?a' ?i ?l' ?t] =>
      change (tool_policy_authorize e a' i l' t) with x end end.
  rewrite Hdec. cbn [map_err mbind Result_bind]. eexists dec, _.
  split; [reflexivity|].
  apply tool_policy_authorize_Ok in Hdec as (_ & _ & _ & _ & _ & _ & _ & _ & _ & scope & B10 & ->).
  split; try done.
  - cbn. by rewrite (verify_new secret).
  - by apply fresh_lease_active.
  - unfold lease_permits. apply andb_true_iff. split; [by apply String.eqb_eq|].
    unfold pm_permits in Hmode |- *. apply N.leb_le in Hmode. apply N.leb_le.
    etrans; [apply (required_mode_floor d (normalized_effect_assessment d))|exact Hmode].
  - change (scope ∈ td_scopes d). change (head (td_scopes d) = Some scope) in B10.
    destruct Hs as [s Hs]. rewrite Hs in B10 |- *. injection B10 as ->. by left.
  - intros Hk. cbn [ta_idempotency_key pd_authorization].
    change (td_idempotency (ed_descriptor (compile_effective_descriptor d text))) with (td_idempotency d).
    rewrite bool_decide_true by done. by apply String.eqb_neq.
  - intros key Hk. right. revert Hk. cbn [ta_idempotency_key pd_authorization].
    destruct (bool_decide (_ = TiIdempotentWithKey)); [|done]. by intros [= <-].
Qed.

(** A permitted call runs.  If the policy allows the effect within the
    session's mode (and it needs no person, or a user's rule stands for it), the
    Mission's ceiling does not forbid it and there is no lease to reuse, then
    the assessment of the turn answers with an authorization, and the host
    accepts that authorization for the same tool and input at any time until the
    lease expires. *)
Theorem permitted_call_runs tool input text id context policy standing why uuid clk env timeout
    reg store now :
  let d := describe (canonical catalog tool) input in
  let r := turn_request d text id context policy in
  let path := if standing : bool then PathStandingGrant else PathPolicyAutoGrant in
  canonical catalog (canonical catalog tool) = canonical catalog tool ->
  tc_contains catalog (canonical catalog tool) = true ->
  id <> EmptyString -> sp_revision policy <> 0%N ->
  exceeds_parent r = false ->
  request_route from_str (bound policy) r = RouteAllow standing why ->
  pm_permits (active_mode (bound policy)) (td_required_permission (ar_effect r)) = true ->
  crosses_human_boundary (ar_effect r) && (negb standing
    || bool_decide (td_approval_class (ar_effect r) = TaAdministrator)) = false ->
  consume_existing secret uuid clk
    (capability_fingerprint r (td_required_permission (ar_effect r))) r
    (td_required_permission (ar_effect r)) reg = None ->
  (now <= u64_saturating_add (clk 0%nat) (lease_ttl_ms path))%N ->
  exists dec st,
    assess_tool_authorization_at secret from_str rt uuid clk env d text id context timeout policy
      (reg, store) = (Ok (Authorized dec), st) /\
    host_check (Some (verify_lease_signature secret)) now (pd_authorization dec) tool input
      = Ok (canonical catalog tool).
Proof.
  intros d r path Hcan Hin Hid Hrev Hex Hroute Hmode Hhum Hnone Hnow.
  destruct (granted_call_accepted tool d text id context policy standing why uuid clk env timeout
              reg store now) as (dec & st & Ha & Hh); try done; [apply one_scope|].
  exists dec, st. split; [exact Ha|]. by apply host_check_Ok.
Qed.

(** ** Approvals that lead nowhere *)

Lemma gate_refuses effective a id l timeout :
  pm_permits (al_ceiling l) (ca_required_mode a) = false ->
  tool_policy_authorize effective a id l timeout = Err PermissionDenied.
Proof.
  intros Hp. unfold tool_policy_authorize, lease_permits. cbv zeta.
  by rewrite Hp, !andb_false_r, !orb_true_r.
Qed.

Lemma turn_effect d text id context policy eff a reg reg' uuid clk :
  assess_effective secret from_str uuid clk (bound policy)
    (authorization_request rt d text id context policy) reg = (eff, a, reg') ->
  eff = compile_effective_descriptor d text /\
  assess_compiled secret from_str uuid clk (bound policy) (turn_request d text id context policy) reg
    = (a, reg').
Proof.
  unfold assess_effective. change (with_effect _ _) with (turn_request d text id context policy).
  destruct (assess_compiled _ _ _ _ _ _ _). intros [= <- <- <-]. done.
Qed.

Lemma assessed_mode uuid clk p r reg a reg' :
  assess_compiled secret from_str uuid clk p r reg = (a, reg') ->
  ca_required_mode a = td_required_permission (ar_effect r).
Proof.
  unfold assess_compiled. cbv zeta. intros Ha.
  destruct (exceeds_parent r); [by injection Ha as <- <-|].
  destruct (route_required_with_context _ _ _ _ _ _) as [standing why|why|why];
    [..|by injection Ha as <- <-].
  all: destruct (consume_existing _ _ _ _ _ _ _) as [[l reg2]|]; [by injection Ha as <- <-|].
  - destruct (_ && (_ || _)); [by injection Ha as <- <-|].
    destruct (issue_and_consume _ _ _ _ _ _ _ _ _). by injection Ha as <- <-.
  - destruct (_ && _); by injection Ha as <- <-.
Qed.

(** A gap that asks for a person: the request neither exceeds the Mission nor is
    denied. *)
Lemma human_gap_inv uuid clk p r reg a reg' :
  assess_compiled secret from_str uuid clk p r reg = (a, reg') ->
  ca_path a = PathHumanApproval ->
  exceeds_parent r = false /\ forall why, request_route from_str p r <> RouteHardDeny why.
Proof.
  unfold assess_compiled, request_route. cbv zeta. intros Ha Hp.
  destruct (exceeds_parent r); [by injection Ha as <- <-|]. split; [done|].
  destruct (route_required_with_context _ _ _ _ _ _); [done..|by injection Ha as <- <-].
Qed.

(** What an approval of a request that may be approved answers. *)
Lemma approve_granted uuid clk p r eff g reg :
  exceeds_parent (with_effect (ed_descriptor eff) r) = false ->
  (forall why, request_route from_str p (with_effect (ed_descriptor eff) r) <> RouteHardDeny why) ->
  validate_approval_grant g (with_effect (ed_descriptor eff) r)
    (td_descriptor_hash (ed_descriptor eff)) (clk 4%nat) = Ok tt ->
  exists a l reg', approve_effective secret from_str uuid clk p r eff g reg = (a, reg') /\
    ca_lease a = Some l /\ al_ceiling l = active_mode p /\
    ca_required_mode a = td_required_permission (ed_descriptor eff).
Proof.
  intros Hex Hr Hv. unfold approve_effective. cbv zeta. rewrite Hv, Hex.
  unfold request_route in Hr.
  destruct (route_required_with_context _ _ _ _ _ _) as [standing why|why|why];
    [..|by destruct (Hr why)].
  all: destruct (issue_and_consume _ _ _ _ _ _ _ _ _) as [l reg'] eqn:Ei.
  all: unfold issue_and_consume in Ei; cbv zeta in Ei; injection Ei as <- _.
  all: eexists _, _, _; split; [reflexivity|done].
Qed.

(** An approved elevation is lost.  A lease is issued with the session's mode
    as its ceiling, also where a person or a user's rule raised the authority of
    this one call above it.  So when the effect needs more than that mode: the
    call a rule grants is refused by [ToolPolicy::authorize]; and a call the
    policy put before a person "to escalate" fails with "authorization lease
    does not permit required mode" although the person approved it and the grant
    is valid. *)
Theorem approved_elevation_is_lost d text id context timeout :
  let policy := pp_control (tr_permission_policy rt) in
  let r := turn_request d text id context policy in
  pm_permits (active_mode (bound policy)) (td_required_permission (ar_effect r)) = false ->
  (forall uuid clk reg eff a reg' l,
     assess_effective secret from_str uuid clk (bound policy)
       (authorization_request rt d text id context policy) reg = (eff, a, reg') ->
     ca_lease a = Some l -> ca_path a <> PathExistingLease ->
     tool_policy_authorize eff a id l timeout = Err PermissionDenied) /\
  (forall uuid uuid' clk clk' env su approval_id grant st a eff st1,
     assess_tool_authorization_at secret from_str rt uuid clk (env 0) d text id context timeout
       policy st = (Ok (Gap a eff), st1) ->
     ca_path a = PathHumanApproval -> su_coordinator su = Some (Ok (Approved approval_id grant)) ->
     su_revision su = sp_revision policy ->
     validate_approval_grant grant r (td_descriptor_hash d) (clk' 4%nat) = Ok tt ->
     (negotiate_tool_authorization secret from_str rt uuid uuid' clk clk' env su d text id context
        timeout st).1 = Err "authorization lease does not permit required mode"%string).
Proof.
  intros policy r Hm. split.
  - intros uuid clk reg eff a reg' l Ha Hl Hp. apply turn_effect in Ha as [-> Ha].
    apply gate_refuses. rewrite (assessed_mode _ _ _ _ _ _ _ Ha). fold r.
    apply assess_compiled_cases in Ha.
    destruct Ha as [Hn _ _|x _ _ _ _ Hx|x path _ _ _ Hi Hx _]; [congruence|done|].
    unfold issue_and_consume in Hi. cbv zeta in Hi. injection Hi as <- _.
    rewrite Hx in Hl. by injection Hl as <-.
  - intros uuid uuid' clk clk' env su approval_id grant st a eff st1 Ha Hp Hsu Hrev Hv.
    unfold negotiate_tool_authorization. fold policy. cbv zeta. rewrite Ha, Hp, Hsu, Hrev, N.eqb_refl.
    cbn [bool_decide negb].
    unfold assess_tool_authorization_at in Ha. cbv zeta in Ha.
    destruct (assess_effective _ _ _ _ _ _ _) as [[eff1 a1] reg1] eqn:Hae.
    apply turn_effect in Hae as [-> Hac].
    destruct (ca_lease a1) as [l1|] eqn:Hl1.
    { injection Ha as Ha _. apply map_err_Ok_inv, bind_Ok_inv in Ha as (? & _ & [=]). }
    injection Ha as -> <- _.
    destruct (human_gap_inv _ _ _ _ _ _ _ Hac Hp) as [Hex Hr].
    rewrite bool_decide_true by done. cbn [negb].
    destruct (approve_granted uuid' clk' (bound policy)
                (authorization_request rt d text id context policy)
                (compile_effective_descriptor d text) grant (su_meanwhile su st1).1 Hex Hr Hv)
      as (b & l & reg' & -> & Hl & Hc & Hq).
    rewrite Hl, gate_refuses; [done|]. by rewrite Hc, Hq.
Qed.

(** ** Commands *)

(** A command that is not a known read is a person's decision.  In whatever
    session mode and with whatever rules: the effect of a shell command whose
    kind is not a read is never granted by the mode alone; it runs on a lease
    that was there, on a user's allow rule, or on a person's approval; and a
    destructive command, or one that changes the system, never on a rule. *)
Theorem command_needs_a_person resolver tool input permission uuid clk p r reg eff a reg' :
  rs_resolver_id resolver = "builtin.command"%string ->
  let e := command_effect shlex_split (command_text input) in
  ef_effect_kind e <> TeRead ->
  ar_effect r = resolve_registered_tool_effect shlex_split scalar_to_string properties_debug
                  default_hash resolver tool input permission ->
  assess_effective secret from_str uuid clk p r reg = (eff, a, reg') -> is_Some (ca_lease a) ->
  ca_path a = PathExistingLease \/
  (ca_path a = PathStandingGrant /\ ef_effect_kind e <> TeDestructive /\ ef_mutates_system e = false).
Proof.
  intros Hid e Hk Hd Ha Hl. pose proof (assess_no_person _ _ _ _ _ _ _ _ _ _ Ha Hl) as Hnp.
  apply assess_cases in Ha as [-> Ha].
  destruct (command_classes shlex_split (command_text input)) as [_ [(Hr & _)|(_ & _ & _ & Hc)]];
    [done|]. fold e in Hc.
  assert (td_approval_class (ar_effect r) = ef_approval_class e) as Hcl.
  { rewrite Hd. cbn. unfold resolve_effect_properties. by rewrite Hid. }
  destruct Ha as [Hn _ _|x _ _ _ _ Hx|x path _ _ Hb Hi Hx Hpath];
    [rewrite Hn in Hl; by destruct Hl|by left|]. subst path.
  destruct Hb as [Hb|(standing & why & _ & Hs & Hh)]; [done|].
  assert (td_approval_class (ar_effect (with_effect
            (ed_descriptor (compile_effective_descriptor (ar_effect r) (ar_input r))) r))
          = ef_approval_class e) as Hcl' by exact Hcl.
  destruct Hh as [-> Hadm].
  { rewrite Hcl'. unfold requires_human_boundary. rewrite Hc.
    destruct (_ || ef_mutates_system e); by rewrite ?orb_true_r. }
  right. split; [done|]. rewrite Hcl', Hc in Hadm.
  destruct (bool_decide (ef_effect_kind e = TeDestructive)) eqn:Ed; [done|].
  apply bool_decide_eq_false in Ed. by destruct (ef_mutates_system e).
Qed.

(** ** Repetitions *)

(** A key that was authorized is authorized again, as long as its lease is in
    memory and not revoked: the answer is an active single-use lease, whatever
    the clock, the lease's state and the policy revision of the request. *)
Lemma repetition_skips_checks uuid clk fingerprint r mode reg lease_id l :
  lr_lease_by_fingerprint reg !! fingerprint = Some lease_id -> lease_id ∉ lr_revoked reg ->
  lr_leases reg !! lease_id = Some l -> (lease_id, ar_idempotency_key r) ∈ lr_consumed reg ->
  consume_existing secret uuid clk fingerprint r mode reg
    = Some (execution_snapshot l (ar_idempotency_key r), reg).
Proof.
  intros Hf Hr Hl Hk. unfold consume_existing. rewrite Hf. cbn.
  rewrite bool_decide_false by done. rewrite Hl. cbn. by rewrite bool_decide_true.
Qed.
End Dispatch.
