(* ===== verification/ApprovalChain.v ===== *)
(** * From a decision to a tool

    [ToolGate] and [Coordinator] together: a turn asks the coordinator about the
    gap of a call, and runs the call on the grant it answers with. *)

From S2P Require Import Prelude Facts Contract Validation Delta Ports EventStore Backend.
From S2P Require Import Approval ApprovalJournal ApprovalQueue ApprovalMachine ApprovalLifecycle.
From S2P Require Import ApprovalAuthority Coordinator CoordinatorSafety.
From S2P Require Import Permissions Negotiator LeaseSafety Evidence ToolEffect ToolGate ToolAuthority.

Section Chain.
Context {Value S : Type} `{EqDecision Value} `{Json Value} `{Digest Value}
  `{ApprovalJson Value} `{!ApprovalJsonLaws Value}
  `{AuthorizationJson Value} `{EvidenceJson Value}
  `{EventBackend Value S} `{ScopeReads Value S} `{!Journal Value S}.
Context (secret : string) (from_str : string -> option Value) (rt : TurnRuntime).

Abbreviation policy := (pp_control (tr_permission_policy rt)).

(** The question of [negotiate_tool_authorization] to the coordinator, and its
    answer. *)
Definition turn_resolution (config : ApprovalConfig) (uuid : string) (sch : Schedule)
    (wakes : list Wake) (d : ToolEffectDescriptor) (input idempotency_key : string)
    (context : PermissionContext) (timeout_secs : N) (w : ApprovalQueue * S) :
  option (Result string ApprovalResolution) * (ApprovalQueue * S) :=
  let request := authorization_request rt d input idempotency_key context policy in
  let effective := compile_effective_descriptor d input in
  resolve_tool config uuid sch wakes (turn_approval_source rt)
    (turn_approval_context rt request d effective idempotency_key policy)
    (Some (sp_autonomy_profile policy)) (ed_descriptor effective) input
    (N.max timeout_secs 1 * 1000) w.

(** What a grant has to say to stand for a call. *)
Record grants_call (g : ApprovalGrant) (d : ToolEffectDescriptor) (idempotency_key : string) : Prop := {
  gc_active : gt_status g = AgActive;
  gc_capability : gt_capability g = td_tool_id d;
  gc_effect : gt_effect_descriptor_hash g = Some (td_descriptor_hash d);
  gc_revision : gt_policy_revision g = sp_revision policy /\ sp_revision policy <> 0%N;
  gc_invocation : forall i, gt_invocation_id g = Some i -> i = idempotency_key;
  gc_targets : gt_resource_targets g = [] \/
    forall s, s ∈ td_scopes d -> exists t, ps_target s = Some t /\ t ∈ gt_resource_targets g
}.

Lemma validated_grants_call g d input key context now :
  validate_approval_grant g
    (with_effect (ed_descriptor (compile_effective_descriptor d input))
       (authorization_request rt d input key context policy))
    (td_descriptor_hash (ed_descriptor (compile_effective_descriptor d input))) now = Ok tt ->
  grants_call g d key.
Proof.
  unfold validate_approval_grant. intros Ho.
  repeat (apply bind_Ok_inv in Ho as ([] & ?%guard_err_Ok_inv & Ho)).
  apply guard_err_Ok_inv in Ho. cbn in *.
  repeat match goal with
  | Hn : negb _ = false |- _ => apply negb_false_iff in Hn
  | Hn : _ || _ = false |- _ => apply orb_false_iff in Hn as [? ?]
  | Hn : bool_decide _ = true |- _ => apply bool_decide_eq_true in Hn
  | Hn : String.eqb _ _ = true |- _ => apply String.eqb_eq in Hn
  | Hn : (_ =? _)%N = true |- _ => apply N.eqb_eq in Hn
  | Hn : (_ =? _)%N = false |- _ => apply N.eqb_neq in Hn
  end.
  split; try done.
  - intros i Hi. rewrite Hi in *. by apply String.eqb_eq, negb_false_iff.
  - apply andb_false_iff in Ho as [Ho|Ho]; apply negb_false_iff in Ho;
      [left; by apply bool_decide_eq_true in Ho|right].
    intros s Hs. rewrite forallb_elem_of in Ho. specialize (Ho s Hs).
    destruct (ps_target s) as [t|]; [|done]. exists t. split; [done|]. by apply memb_true.
Qed.

Lemma approve_validated uuid clk p r eff g reg a reg' l :
  approve_effective secret from_str uuid clk p r eff g reg = (a, reg') -> ca_lease a = Some l ->
  validate_approval_grant g (with_effect (ed_descriptor eff) r)
    (td_descriptor_hash (ed_descriptor eff)) (clk 4%nat) = Ok tt.
Proof.
  unfold approve_effective. cbv zeta. destruct (validate_approval_grant _ _ _ _) as [[]|e]; [done|].
  by intros [= <- _].
Qed.

(** C8. What a person was asked and answered is what runs.  The turn asks the
    coordinator about a call, other tasks act in between, and the negotiation
    goes on with the answer.  If it ends in an authorization, then either the
    assessment authorized the call without asking, or the coordinator answered
    with a grant that is on record, issued by an approving decision on the
    durable request of that approval, active, for this tool and this very
    effect, for this invocation if it names one, for these targets if it names
    any, and of the current policy revision; and the authorization carries that
    effect. *)
Theorem approved_call_has_decision config auuid sch wakes d input key context timeout q s h res w'
    uuid uuid' clk clk' env su st st' dec :
  queue_run q (s :: h) -> schedule_ok sch ->
  turn_resolution config auuid sch wakes d input key context timeout (q, s) = (Some res, w') ->
  su_coordinator su = Some res ->
  negotiate_tool_authorization secret from_str rt uuid uuid' clk clk' env su d input key context
    timeout st = (Ok (Authorized dec), st') ->
  (exists st1, assess_tool_authorization_at secret from_str rt uuid clk (env 0) d input key context
                 timeout policy st = (Ok (Authorized dec), st1)) \/
  exists aid g r, res = Ok (Approved aid g) /\ gt_approval_id g = aid /\
    (restore_approval_state w'.2).2 !! gt_grant_id g = Some g /\
    restore_approval_request w'.2 aid = Some r /\ backed r g /\ grants_call g d key /\
    gt_effect_descriptor_hash g = Some (ta_descriptor_hash (pd_authorization dec)).
Proof.
  intros Hrun Hsch Hres Hsu Hn. unfold negotiate_tool_authorization in Hn. cbv zeta in Hn.
  destruct (assess_tool_authorization_at _ _ _ _ _ _ _ _ _ _ _ _ _) as [initial st1] eqn:Ha.
  destruct initial as [[dec0|a eff]|e];
    [injection Hn as -> _; left; by eexists| |discriminate]. right.
  assert (eff = compile_effective_descriptor d input) as ->.
  { unfold assess_tool_authorization_at in Ha. cbv zeta in Ha.
    destruct (assess_effective _ _ _ _ _ _ _) as [[eff1 a1] reg1] eqn:Hae.
    apply turn_effect in Hae as [-> _]. destruct (ca_lease a1).
    - injection Ha as Ha _. by apply map_err_Ok_inv, bind_Ok_inv in Ha as (? & _ & [=]).
    - by injection Ha as _ <- _. }
  destruct (negb _); [destruct (govern_capability_gap _ _ _); discriminate|].
  rewrite Hsu in Hn. destruct res as [[aid g|aid reason|aid reason|aid reason]|e]; try discriminate.
  destruct (resolved_grant_on_record _ _ _ _ _ _ _ _ _ _ _ _ _ _ _ _ Hrun Hsch Hres)
    as (Hid & [Hg (r & Hr & Hb)] & _).
  destruct (negb _); [discriminate|].
  destruct (approve_effective _ _ _ _ _ _ _ _ _) as [approved reg1] eqn:Hap.
  destruct (ca_lease approved) as [l|] eqn:Hl; [|discriminate].
  pose proof (validated_grants_call _ _ _ _ _ _ (approve_validated _ _ _ _ _ _ _ _ _ _ Hap Hl)) as Hgc.
  injection Hn as Hn _. apply bind_Ok_inv in Hn as (dec1 & Hn1%map_err_Ok_inv & Hn).
  apply bind_Ok_inv in Hn as (? & _ & [= ->]).
  exists aid, g, r. rewrite Hid in Hr. do 6 (split; [done|]).
  apply tool_policy_authorize_Ok in Hn1 as (_ & _ & _ & _ & _ & _ & _ & _ & _ & sc & _ & ->).
  cbn. apply Hgc.
Qed.

(** ** Rules that ask *)

(** A rule that asks is answered without asking.  A call that matches an ask rule
    of the user, with no hook verdict, whose effect is a read of low risk outside
    the user and administrator classes: the assessment leaves it to a person, and
    the coordinator, whatever the autonomy profile and even for the most cautious
    one, does not wait for anybody: its only successful answer is a grant that
    the router's policy issued by itself. *)
Theorem ask_rule_answered_by_policy config auuid sch wakes d input key context timeout q s h
    uuid clk env st rule :
  let r := turn_request rt d input key context policy in
  let eff := compile_effective_descriptor d input in
  let c := turn_approval_context rt (authorization_request rt d input key context policy) d eff key
             policy in
  find_matching_rule from_str (pp_ask_rules (tr_permission_policy rt)) (td_tool_id d) input = Some rule ->
  find_matching_rule from_str (pp_deny_rules (tr_permission_policy rt)) (td_tool_id d) input = None ->
  pc_override_decision context = None -> exceeds_parent r = false ->
  consume_existing secret uuid clk (capability_fingerprint r (td_required_permission (ar_effect r))) r
    (td_required_permission (ar_effect r)) st.1 = None ->
  td_effect_kind d = TeRead -> task_risk_for_effect (ed_descriptor eff) = RiskLow ->
  td_approval_class d <> TaUser -> td_approval_class d <> TaAdministrator ->
  approval_history (s :: h) ->
  (forall w, sc_before_submit sch w = w) -> (forall w, sc_before_decide sch w = w) ->
  (forall w, sc_before_grant sch w = w) ->
  (matching_grant (sc_match sch) q
     (tool_context (sp_approval_profile policy) (ed_descriptor eff) c) RiskLow).1 = None ->
  queue_get q s ("tool-approval:" +:+ key) = None ->
  (exists a reg, assess_tool_authorization_at secret from_str rt uuid clk env d input key context
                   timeout policy st = (Ok (Gap a eff), (reg, st.2)) /\ ca_path a = PathHumanApproval) /\
  exists ans w', turn_resolution config auuid sch wakes d input key context timeout (q, s)
                   = (Some ans, w') /\
    forall res, ans = Ok res -> exists g, res = Approved ("tool-approval:" +:+ key) g /\
      answered_by (router_command ("tool-approval:" +:+ key) (sp_autonomy_profile policy))
        (with_explicit_ask false (tool_context (sp_approval_profile policy) (ed_descriptor eff) c))
        g w'.2.
Proof.
  intros r eff c Hask Hdeny Hov Hex Hc Hk Hlow Hu Hadm Hh E1 E2 E3 Hm Hg. split.
  - unfold assess_tool_authorization_at. cbv zeta.
    destruct (assess_effective _ _ _ _ _ _ _) as [[eff1 a1] reg1] eqn:Hae.
    apply turn_effect in Hae as [-> Hac]. fold r in Hac.
    unfold assess_compiled in Hac. cbv zeta in Hac. rewrite Hex in Hac.
    assert (route_required_with_context from_str (bound_to_snapshot policy (tr_permission_policy rt))
              (ar_capability r) (ar_input r) (td_required_permission (ar_effect r)) (ar_context r)
            = RouteAsk ("tool '" +:+ td_tool_id d +:+ "' requires approval due to ask rule '"
                          +:+ pr_raw rule +:+ "'")) as Hr.
    { unfold route_required_with_context. change (ar_capability r) with (td_tool_id d).
      change (ar_input r) with input. change (ar_context r) with context.
      cbn [pp_deny_rules pp_ask_rules bound_to_snapshot]. by rewrite Hdeny, Hov, Hask. }
    rewrite Hr, Hc in Hac. cbn in Hac. rewrite Hk in Hac. cbn in Hac.
    injection Hac as <- <-. cbn. by eexists _, _.
  - assert (asks_explicitly c (ed_descriptor eff) = false) as Hno.
    { unfold asks_explicitly. cbn. rewrite Hov. by destruct (td_approval_class d). }
    pose proof (automatic_answer_recorded config auuid sch wakes (turn_approval_source rt) c
      (Some (sp_autonomy_profile policy)) (ed_descriptor eff) input (N.max timeout 1 * 1000) q s h)
      as Hauto. cbv zeta in Hauto. rewrite Hno, Hlow in Hauto.
    assert (router_resolve (sp_autonomy_profile policy) AdExecution RiskLow true false = RtAutoApprove)
      as Hrt by (by destruct (sp_autonomy_profile policy)).
    change (default (cf_profile config) (cx_approval_profile c)) with (sp_approval_profile policy)
      in Hauto.
    change (default (profile_for_approval_profile (sp_approval_profile policy))
              (Some (sp_autonomy_profile policy))) with (sp_autonomy_profile policy) in Hauto.
    rewrite Hrt in Hauto.
    rewrite bool_decide_true in Hauto by done. apply Hauto; auto.
Qed.
End Chain.
