(* ===== verification/GateSamples.v ===== *)
(** * Concrete authorizations

    A small catalog, a turn and runs of the negotiator with the sample JSON model
    and the in-process store: the inputs at which the witnesses of [Permissions],
    [LeaseSafety], [Evidence], [ToolEffect] and [ToolAuthority] evaluate. *)

From stdpp Require Import pretty.
From S2P Require Import Prelude Facts Contract Validation Delta Ports EventStore Samples Backend.
From S2P Require Import Approval ApprovalJournal ApprovalQueue ApprovalMachine ApprovalLifecycle.
From S2P Require Import ApprovalAuthority ApprovalSamples Permissions Negotiator LeaseSafety.
From S2P Require Import Evidence Coordinator ToolEffect ToolGate ToolAuthority.

(** ** Serialization *)

Abbreviation text s := (SvLeaf (LStr s)).

Fixpoint sv_text (v : SampleValue) : string :=
  match v with
  | SvLeaf (LStr s) => s
  | SvLeaf (LNum n) => pretty n
  | SvLeaf _ | SvEmpty => EmptyString
  | SvMember k x rest => k +:+ ":" +:+ sv_text x +:+ "," +:+ sv_text rest
  end.

Definition option_text (o : option string) : SampleValue :=
  match o with Some s => text s | None => SvEmpty end.

Definition texts (l : list string) : SampleValue :=
  foldr (fun s acc => SvMember EmptyString (text s) acc) SvEmpty l.

Fixpoint texts_of (v : SampleValue) : list string :=
  match v with
  | SvMember _ (SvLeaf (LStr s)) rest => s :: texts_of rest
  | _ => []
  end.

#[export] Instance sample_authorization_json : AuthorizationJson SampleValue :=
  {| scopes_to_value := fun l => texts ((fun s => default EmptyString (ps_target s)) <$> l);
     mode_to_value := fun m => text (pm_as_str m);
     option_string_to_value := option_text;
     effect_kind_to_value := fun k => text (if bool_decide (k = TeRead) then "read" else "effect");
     idempotency_to_value := fun _ => SvEmpty;
     approval_class_to_value := fun _ => SvEmpty;
     assessment_to_value := fun _ => SvEmpty;
     transition_to_value := fun t =>
       sv_object [("id", text (lt_transition_id t)); ("kind", text (transition_kind_status (lt_kind t)));
                  ("lease", text (al_lease_id (lt_lease t)));
                  ("remaining", SvLeaf (LNum (al_remaining_uses (lt_lease t))))]%string;
     to_vec := sv_text |}.

Definition claim_value (c : ControlledRecoveryClaimRecord) : SampleValue :=
  SvMember "fingerprint" (text (rc_fingerprint c)) (SvMember "scope" (text (rc_recovery_scope c))
    (SvMember "session" (text (rc_session_id c)) (SvMember "turn" (text (rc_turn_id c))
      (SvMember "execution" (text (rc_execution_id c)) (text (rc_capability c)))))).

Definition terminal_value (t : ControlledRecoveryTerminalRecord) : SampleValue :=
  SvMember "scope" (text (rt_recovery_scope t)) (SvMember "session" (text (rt_session_id t))
    (SvMember "turn" (text (rt_turn_id t)) (SvMember "execution" (text (rt_execution_id t))
      (texts (rt_fingerprints t))))).

#[export] Instance sample_evidence_json : EvidenceJson SampleValue :=
  {| claim_to_value := claim_value;
     claim_from_value := fun v =>
       match v with
       | SvMember _ (SvLeaf (LStr f)) (SvMember _ (SvLeaf (LStr sc)) (SvMember _ (SvLeaf (LStr s))
           (SvMember _ (SvLeaf (LStr t)) (SvMember _ (SvLeaf (LStr e)) (SvLeaf (LStr c)))))) =>
           Ok {| rc_fingerprint := f; rc_recovery_scope := sc; rc_session_id := s; rc_turn_id := t;
                 rc_execution_id := e; rc_capability := c |}
       | _ => Err "not a claim"%string
       end;
     terminal_to_value := terminal_value;
     terminal_from_value := fun v =>
       match v with
       | SvMember _ (SvLeaf (LStr sc)) (SvMember _ (SvLeaf (LStr s)) (SvMember _ (SvLeaf (LStr t))
           (SvMember _ (SvLeaf (LStr e)) fs))) =>
           Ok {| rt_recovery_scope := sc; rt_session_id := s; rt_turn_id := t;
                 rt_execution_id := e; rt_fingerprints := texts_of fs |}
       | _ => Err "not a terminal"%string
       end |}.

Lemma texts_of_texts l : texts_of (texts l) = l.
Proof.
  induction l as [|s l IH]; [done|]. change (s :: texts_of (texts l) = s :: l). by rewrite IH.
Qed.

#[export] Instance sample_evidence_laws : EvidenceJsonLaws SampleValue.
Proof.
  split; [by intros []|]. intros [sc s t e fs].
  match goal with |- ?l = _ => transitivity (@Ok string _
    {| rt_recovery_scope := sc; rt_session_id := s; rt_turn_id := t; rt_execution_id := e;
       rt_fingerprints := texts_of (texts fs) |}) end; [reflexivity|by rewrite texts_of_texts].
Qed.

(** ** A catalog, a turn and its requests *)

(** Words separated by spaces. *)
Definition sample_split (s : string) : option (list string) :=
  Some (List.filter (fun w => negb (String.eqb w "")) (split_char (Ascii.ascii_of_nat 32) s)).

Definition sample_scalar (v : JsonValue) : string :=
  match v with JString s => s | JNumber s => s | JBool true => "true" | JBool false => "false"
             | _ => "null" end.
Definition sample_debug (p : EffectProperties) : string := "properties".
Definition sample_hash (parts : list string) : string := join "|" parts.

Definition sample_catalog : ToolCatalog :=
  {| tc_canonical_name := fun t => if memb ["read_file"; "bash"]%string t then Some t else None;
     tc_contains := memb ["read_file"; "bash"]%string;
     tc_required_permission := fun _ => Some PmReadOnly;
     tc_effect_resolver := fun t =>
       {| rs_resolver_id := if String.eqb t "bash" then "builtin.command" else "builtin.readonly";
          rs_resolver_version := 1 |} |}.

Definition sample_describe : string -> JsonValue -> ToolEffectDescriptor :=
  describe_effect sample_split sample_scalar sample_debug sample_hash sample_catalog.

Definition read_input : JsonValue := JObject [("path", JString "notes")]%string.
Definition make_input : JsonValue := JObject [("command", JString "make all")]%string.

Definition sample_turn (mode : PermissionMode) : TurnRuntime :=
  {| tr_session_id := "s"; tr_memory_agent_id := "primary"; tr_memory_team_id := None;
     tr_checkpoint_workspace_id := "workspace"; tr_activity_task_id := None;
     tr_execution_context := Some {| ec_session_id := "s"; ec_turn_id := "t"; ec_execution_id := "e" |};
     tr_permission_policy := permission_policy_new mode |}.

Definition no_override : PermissionContext :=
  {| pc_override_decision := None; pc_override_reason := None |}.

Definition sample_policy (mode : PermissionMode) : SessionExecutionPolicy :=
  pp_control (tr_permission_policy (sample_turn mode)).

Definition no_json (s : string) : option SampleValue := None.

Definition read_request (call : string) : AuthorizationRequest :=
  authorization_request (sample_turn PmReadOnly) (sample_describe "read_file" read_input) "input" call
    no_override (sample_policy PmReadOnly).

(** Fresh ids: the [n]-th draw of the call [k]. *)
Definition draw (k : string) (n : nat) : string := k +:+ "." +:+ pretty (N.of_nat n).
Definition read_clk (n : nat) : N := 1000.

Definition read_policy : PermissionPolicy := tr_permission_policy (sample_turn PmReadOnly).

Definition read_assessed (k call : string) (reg : LeaseRegistry) :=
  assess_effective "secret" no_json (draw k) read_clk read_policy (read_request call) reg.

(** The world after an assessment. *)
Definition assess_world (k call : string) (w : World) : World :=
  advance w (read_assessed k call (w_reg w)).2
    (answers_of (read_assessed k call (w_reg w)).1.2 (ar_idempotency_key (read_request call))).

Lemma assess_world_step k call w :
  lease_name (draw k 0) ∉ w_issued w -> lease_step "secret" no_json w (assess_world k call w).
Proof.
  intros Hf. unfold assess_world. destruct (read_assessed k call (w_reg w)) as [[eff a] reg] eqn:E.
  by apply (StepAssess _ _ _ (draw k) read_clk read_policy (read_request call) eff).
Qed.

(** Two calls of one tool: the second uses the lease of the first. *)
Definition world1 : World := assess_world "a" "call-1" world_new.
Definition world2 : World := assess_world "b" "call-2" world1.
Definition lease_id1 : string := "authorization-lease-a.0".

Ltac not_in := apply (bool_decide_eq_false_1 _); vm_compute; reflexivity.

Lemma world2_run : rtc (lease_step "secret" no_json) world_new world2.
Proof.
  apply (rtc_l _ _ world1); [apply assess_world_step; not_in|].
  apply rtc_once, assess_world_step. not_in.
Qed.

Lemma lease_uses_bounded_witness :
  (lease_id1, "call-2"%string) ∈ w_answers world2 /\
  exists t, t ∈ w_log world2 /\ lt_kind t = TkIssued /\ al_lease_id (lt_lease t) = lease_id1 /\
    (N.of_nat (size (uses lease_id1 (w_answers world2))) <= al_max_uses (lt_lease t))%N /\
    (al_max_uses (lt_lease t) <= 64)%N.
Proof.
  assert ((lease_id1, "call-2"%string) ∈ w_answers world2) as Hin
    by (apply (bool_decide_eq_true_1 _); vm_compute; reflexivity).
  split; [exact Hin|]. exact (lease_uses_bounded "secret" no_json world2 world2_run _ _ Hin).
Defined.

Lemma lease_evidence_complete_witness :
  (exists l, lr_leases (w_reg world2) !! lease_id1 = Some l /\ al_remaining_uses l = 30%N) /\
  w_log world2 = w_acked world2 ++ lr_awaiting (w_reg world2) ++ lr_transitions (w_reg world2) /\
  (forall id l, lr_leases (w_reg world2) !! id = Some l ->
     replay_leases (w_log world2) !! id = Some l /\ verify_lease_signature "secret" l = true) /\
  (forall id, id ∈ w_issued world2 -> lr_leases (w_reg world2) !! id = None ->
     exists t, t ∈ w_acked world2 /\ transition_ends_hot_lease t = true /\
               al_lease_id (lt_lease t) = id).
Proof.
  split; [eexists; split; vm_compute; reflexivity|].
  exact (lease_evidence_complete "secret" no_json world2 world2_run).
Defined.

(** The lease is revoked; the call that had used it asks again. *)
Definition revoked2 : World :=
  advance world2 (lease_revoke "r" 2000 lease_id1 (w_reg world2)).2 ∅.

Lemma revoked_lease_dead_witness :
  (exists l, ca_lease (read_assessed "c" "call-2" (w_reg world2)).1.2 = Some l /\
     al_lease_id l = lease_id1) /\
  (forall l, ca_lease (read_assessed "c" "call-2" (w_reg revoked2)).1.2 = Some l ->
     al_lease_id l <> lease_id1).
Proof.
  split; [eexists; split; vm_compute; reflexivity|].
  exact (proj1 (revoked_lease_dead "secret" no_json world2 revoked2 "r" 2000 lease_id1 world2_run
    ltac:(vm_compute; reflexivity) (rtc_refl _ _) (draw "c") read_clk read_policy
    (read_request "call-2") ltac:(not_in))).
Defined.

Definition taken2 : LeaseRegistry := (take_transitions_for_persistence (w_reg world2)).2.

Lemma acknowledge_takes_prefix_witness :
  selected_prefix {["authorization-transition-a.1"%string]} (lr_awaiting taken2) = 1 /\
  lr_awaiting (acknowledge_persisted_transitions ["authorization-transition-a.1"%string] taken2).2
    = drop 1 (lr_awaiting taken2).
Proof.
  assert (selected_prefix (list_to_set ["authorization-transition-a.1"%string]) (lr_awaiting taken2)
          = 1) as Hn by (vm_compute; reflexivity).
  split; [vm_compute; reflexivity|]. rewrite <- Hn.
  exact (proj2 (proj2 (proj2 (acknowledge_takes_prefix ["authorization-transition-a.1"%string] taken2
    ltac:(apply (bool_decide_eq_true_1 _); vm_compute; reflexivity))))).
Defined.


(** *** The evidence in the in-process store *)

Definition all_known (t : AuthorizationLeaseTransition) : Prop := t ∈ w_log world2.

Lemma all_known_unique t t' : all_known t -> all_known t' ->
  lt_transition_id t = lt_transition_id t' -> t = t'.
Proof.
  unfold all_known. intros Ht Ht' E.
  assert (NoDup (lt_transition_id <$> w_log world2)) as Hd
    by (apply (bool_decide_eq_true_1 _); vm_compute; reflexivity).
  apply list_elem_of_lookup in Ht as [i Hi], Ht' as [j Hj].
  assert (i = j) as ->; [|congruence].
  eapply (NoDup_lookup _ i j); [exact Hd|by rewrite list_lookup_fmap, Hi|].
  by rewrite list_lookup_fmap, Hj, E.
Qed.

Lemma empty_evidence_ok : evidence_ok all_known (ephemeral_default : SampleStore).
Proof.
  split; [apply StoreInv_default|]. intros t _ [r Hr]. cbn in Hr. by rewrite lookup_empty in Hr.
Qed.

Definition quiet (n : nat) (s : SampleStore) : SampleStore := s.

Lemma quiet_respects n : respects all_known (quiet n).
Proof. split; unfold quiet; auto. Qed.

Definition first_transition : AuthorizationLeaseTransition :=
  default (lease_transition "" 0 TkIssued (new_lease "secret" "" (read_request "") PmReadOnly PmReadOnly
     PathHardDeny 0) None "") (head (w_log world2)).

Definition persist_first (s : SampleStore) : Result string unit * SampleStore :=
  persist_authorization_transition quiet (lease_stream first_transition) "actor" first_transition s.

Lemma persisted_transition_recorded_witness :
  (persist_first ephemeral_default).1 = Ok tt /\
  persisted (persist_first ephemeral_default).2 first_transition /\
  persist_first (persist_first ephemeral_default).2 = (Ok tt, (persist_first ephemeral_default).2).
Proof.
  assert ((persist_first ephemeral_default).1 = Ok tt) as Hok by (vm_compute; reflexivity).
  split; [exact Hok|].
  refine (proj2 (proj2 (persisted_transition_recorded all_known all_known_unique quiet "actor"
    first_transition ephemeral_default (Ok tt) (persist_first ephemeral_default).2 quiet_respects
    empty_evidence_ok _ _)) eq_refl).
  - apply (bool_decide_eq_true_1 _). vm_compute. reflexivity.
  - rewrite <- Hok. unfold persist_first. by destruct (persist_authorization_transition _ _ _ _ _).
Defined.

(** Everything queued is handed over. *)
Definition recorded2 : LeaseRegistry * option SampleStore :=
  record_transitions (fun _ => quiet) "actor" (w_reg world2) (Some ephemeral_default).
Definition store2 : SampleStore := default ephemeral_default recorded2.2.

Definition queue2 : list AuthorizationLeaseTransition :=
  lr_awaiting (w_reg world2) ++ lr_transitions (w_reg world2).

Definition audited2 : World :=
  {| w_reg := recorded2.1; w_log := w_log world2;
     w_acked := w_acked world2 ++ take (length queue2 - length (lr_awaiting recorded2.1)) queue2;
     w_answers := w_answers world2; w_issued := w_issued world2 |}.

Lemma audited2_run :
  rtc (audited_step all_known "secret" no_json) (world_new, ephemeral_default : SampleStore)
    (audited2, store2).
Proof.
  apply (rtc_l _ _ (world1, ephemeral_default)).
  { apply AuditOperation; [apply assess_world_step; not_in|vm_compute; reflexivity]. }
  apply (rtc_l _ _ (world2, ephemeral_default)).
  { apply AuditOperation; [apply assess_world_step; not_in|vm_compute; reflexivity]. }
  apply rtc_once.
  apply (AuditRecord all_known "secret" no_json (fun _ => quiet) "actor" world2 ephemeral_default
           recorded2.1 store2).
  - intros _. apply quiet_respects.
  - apply (bool_decide_eq_true_1 _). vm_compute. reflexivity.
  - intros t Ht. exact Ht.
  - unfold store2, recorded2. destruct (record_transitions _ _ _ _) as [reg [s|]] eqn:E; [done|].
    unfold record_transitions in E. by destruct (persist_pending _ _ _ _ _).
Qed.

Lemma ended_lease_is_on_record_witness :
  length (w_acked audited2) = 3 /\ (forall t, t ∈ w_acked audited2 -> persisted store2 t).
Proof.
  split; [vm_compute; reflexivity|].
  exact (proj1 (ended_lease_is_on_record all_known all_known_unique "secret" no_json ephemeral_default
    audited2 store2 empty_evidence_ok audited2_run)).
Defined.

(** *** A recovery claim *)

Definition sample_claim : ControlledRecoveryClaimRecord :=
  {| rc_fingerprint := "f"; rc_recovery_scope := "turn:t"; rc_session_id := "s"; rc_turn_id := "t";
     rc_execution_id := "e"; rc_capability := "bash" |}.

Definition claim_run (s : SampleStore) : Result string unit * SampleStore :=
  persist_controlled_recovery_claim (fun _ s => s) sample_claim s.
Definition claimed_store : SampleStore := (claim_run ephemeral_default).2.

Lemma empty_claimable : claimable sample_claim (ephemeral_default : SampleStore).
Proof.
  split; [apply StoreInv_default|]. split.
  - split; [constructor|]. intros e He. by apply not_elem_of_nil in He.
  - intros [r Hr]. cbn in Hr. by rewrite lookup_empty in Hr.
Qed.


(** The turn is settled after the claim, and another claim appended behind. *)
Definition sample_terminal : ControlledRecoveryTerminalRecord :=
  {| rt_recovery_scope := "turn:t"; rt_session_id := "s"; rt_turn_id := "t"; rt_execution_id := "e";
     rt_fingerprints := ["f"%string] |}.

Definition recovery_id : string := controlled_recovery_stream_id "s" "t" "e".

Definition settle_request : AppendTransactionRequest SampleValue :=
  {| rq_transaction_id := "settle";
     rq_expected_streams := [{| es_stream_id := recovery_id; es_expected_revision := 1 |}];
     rq_events := match controlled_recovery_terminal_event sample_terminal with
                  | Ok i => [i] | Err _ => [] end |}.

Definition settled_store : SampleStore := (eb_append settle_request None claimed_store).2.

Definition late_claim : AppendTransactionRequest SampleValue :=
  one_event "late" recovery_id 2 CONTROLLED_RECOVERY_CLAIMED_EVENT "claimed" "other" []
    (claim_to_value sample_claim) "late".
Definition late_store : SampleStore := (eb_append late_claim None settled_store).2.

Lemma sample_append_inv r (s : SampleStore) : StoreInv s -> StoreInv (eb_append r None s).2.
Proof.
  intros Hs. destruct (eb_append r None s) as [res s'] eqn:E.
  exact (@eb_append_inv _ _ _ (ephemeral_backend_laws sample_uuid sample_now) r None s res s' Hs E).
Qed.

Lemma claimed_store_append :
  claimed_store = (eb_append (one_event "authorization-recovery-claim:f" recovery_id 0
    CONTROLLED_RECOVERY_CLAIMED_EVENT "claimed" "authorization_negotiator"
    [event_ref "capability_gap" "f"; event_ref "execution" "e"; event_ref "session" "s";
     event_ref "turn" "t"] (claim_to_value sample_claim) "authorization-recovery-claim:f") None
    (ephemeral_default : SampleStore)).2.
Proof. vm_compute. reflexivity. Qed.

Lemma settled_store_inv : StoreInv settled_store.
Proof. apply sample_append_inv. rewrite claimed_store_append. apply sample_append_inv, StoreInv_default. Qed.

Definition settling_event : DurableRuntimeEvent SampleValue :=
  default (stamp_event "" 0 sample_uuid sample_now 0 0 (sample_input "")) (ep_events settled_store !! 1).

Lemma settled_turn_stays_closed_witness :
  length (eb_list_stream late_store recovery_id) = 3 /\
  (forall l, load_open_controlled_recovery_claims late_store "s" "t" "e" = Ok l -> l = []).
Proof.
  split; [vm_compute; reflexivity|].
  refine (proj1 (settled_turn_stays_closed "s" "t" "e" settled_store late_store
    (drop 2 (ep_events late_store)) settling_event settled_store_inv
    (sample_append_inv _ _ settled_store_inv) _ _ _)).
  - vm_compute. reflexivity.
  - apply (list_elem_of_lookup_2 _ 1). vm_compute. reflexivity.
  - split; [vm_compute; reflexivity|]. split; [vm_compute; reflexivity|].
    exists sample_terminal. by repeat split.
Defined.

(** ** Commands *)

Definition piped : string := "cat notes |sh".

Lemma read_effect_has_no_denied_word_witness :
  ef_effect_kind (command_effect sample_split "git status") = TeRead /\
  (forall t, t ∈ tokens "git status" ->
     t ∉ NETWORK_WORDS ++ SYSTEM_WORDS ++ DESTRUCTIVE_WORDS ++ WRITE_WORDS).
Proof.
  assert (ef_effect_kind (command_effect sample_split "git status") = TeRead) as Hk
    by (vm_compute; reflexivity).
  split; [exact Hk|].
  exact (proj1 (read_effect_has_no_denied_word sample_split "git status" Hk)).
Defined.

Lemma all_listed {A} `{EqDecision A} (f : A -> bool) l :
  forallb f l = true -> forall x, x ∈ l -> f x = true.
Proof. intros Hf. by apply forallb_elem_of. Qed.

(** The pipe into a shell, and a program given to [env]. *)
Lemma listed_command_reads_whatever_follows_witness :
  ef_effect_kind (command_effect sample_split piped) = TeRead /\
  ef_required_permission (command_effect sample_split piped) = PmReadOnly /\
  ef_approval_class (command_effect sample_split piped) = TaNone.
Proof.
  apply (listed_command_reads_whatever_follows sample_split piped "cat" ["notes"; "|sh"]%string).
  - vm_compute. reflexivity.
  - vm_compute. reflexivity.
  - apply (bool_decide_eq_true_1 _). vm_compute. reflexivity.
  - intros w Hw.
    assert (negb (memb OPERATORS w) && negb (str_contains w ">") = true) as Hf.
    { revert w Hw. apply all_listed. vm_compute. reflexivity. }
    apply andb_prop in Hf as [H1 H2]. split; [|by apply negb_true_iff].
    by apply memb_false, negb_true_iff.
  - intros t Ht. apply memb_false, negb_true_iff. revert t Ht.
    apply all_listed. vm_compute. reflexivity.
  - intros q Hq. apply negb_true_iff. revert q Hq. apply all_listed. vm_compute. reflexivity.
Defined.

(** ** Calls *)

Definition no_env (a b : nat) (s : SampleStore) : SampleStore := s.

Definition read_decision : Result string ToolAuthorizationDecision :=
  (assess_tool_authorization_at "secret" no_json (sample_turn PmReadOnly) (draw "a") read_clk no_env
     (sample_describe "read_file" read_input) "input" "call-1" no_override 30
     (sample_policy PmReadOnly) (lease_registry_new, None)).1.

Lemma permitted_call_runs_witness :
  exists dec st,
    assess_tool_authorization_at "secret" no_json (sample_turn PmReadOnly) (draw "a") read_clk no_env
      (sample_describe "read_file" read_input) "input" "call-1" no_override 30
      (sample_policy PmReadOnly) (lease_registry_new, None) = (Ok (Authorized dec), st) /\
    authorize_and_canonicalize sample_split sample_scalar sample_debug sample_hash sample_catalog
      (Some (verify_lease_signature "secret")) 2000 (pd_authorization dec) "read_file" read_input
      = Ok "read_file"%string.
Proof.
  apply (permitted_call_runs "secret" no_json (sample_turn PmReadOnly) sample_split sample_scalar
    sample_debug sample_hash sample_catalog "read_file" read_input "input" "call-1" no_override
    (sample_policy PmReadOnly) false "active policy ceiling permits assessed effect").
  all: try (vm_compute; reflexivity).
  - done.
  - done.
  - apply N.leb_le. vm_compute. reflexivity.
Defined.

Definition sample_decision : ToolExecutionPolicyDecision :=
  match read_decision with
  | Ok (Authorized d) => d
  | _ => {| pd_authorization :=
              {| ta_request_id := ""; ta_tool_id := ""; ta_descriptor_hash := "";
                 ta_policy_revision := 0; ta_scope := scope PrTool PoRead None;
                 ta_authorization_lease := new_lease "" "" (read_request "") PmReadOnly PmReadOnly
                                             PathHardDeny 0;
                 ta_timeout_lease := ""; ta_idempotency_key := None |};
            pd_timeout_secs := 0; pd_parallel_safe := false |}
  end.

Definition sample_lease : AuthorizationLease :=
  ta_authorization_lease (pd_authorization sample_decision).

Lemma dispatched_call_is_authorized_witness :
  al_capability sample_lease = "read_file"%string /\ al_status sample_lease = LsActive /\
  (2000 <= al_expires_at_ms sample_lease)%N.
Proof.
  pose proof (dispatched_call_is_authorized sample_split sample_scalar sample_debug sample_hash
    sample_catalog (verify_lease_signature "secret") (read_assessed "a" "call-1" lease_registry_new).1.1
    (read_assessed "a" "call-1" lease_registry_new).1.2 "call-1" sample_lease 30 sample_decision 2000
    "read_file" read_input "read_file" ltac:(vm_compute; reflexivity) ltac:(vm_compute; reflexivity))
    as (_ & A2 & _ & _ & _ & _ & _ & _ & A9 & _ & A11 & _).
  exact (conj A2 (conj A9 A11)).
Defined.

(** "make all" in a session that may write the workspace: a person approves. *)
Definition make_effect : ToolEffectDescriptor := sample_describe "bash" make_input.

Definition make_grant : ApprovalGrant :=
  {| gt_grant_id := "g"; gt_approval_id := "a"; gt_scope := GsOnce; gt_principal_id := "session:s";
     gt_profile_id := "supervised"; gt_workspace_key := "w"; gt_capability := "bash";
     gt_session_id := Some "s"%string; gt_turn_id := None; gt_task_id := None;
     gt_invocation_id := Some "call-1"%string; gt_resource_targets := [];
     gt_effect_descriptor_hash := Some (td_descriptor_hash make_effect);
     gt_risk_ceiling := RiskCritical; gt_policy_revision := 1; gt_status := AgActive;
     gt_issued_by := {| ada_kind := ActorHuman; ada_actor_id := "person" |};
     gt_created_at_ms := 0; gt_expires_at_ms := None; gt_revoked_at_ms := None;
     gt_revoke_reason := None |}.

Definition approving : @Surroundings SampleStore :=
  {| su_coordinator := Some (Ok (Approved "tool-approval:1" make_grant)); su_meanwhile := fun st => st;
     su_revision := 1; su_consume_once_grant := fun _ => Ok tt |}.

Definition make_assessed :=
  assess_tool_authorization_at "secret" no_json (sample_turn PmWorkspaceWrite) (draw "a") read_clk no_env
    make_effect "make all" "call-1" no_override 30 (sample_policy PmWorkspaceWrite)
    (lease_registry_new, None).

Definition make_gap : CapabilityAssessment :=
  match make_assessed.1 with
  | Ok (Gap a _) => a
  | _ => (read_assessed "a" "call-1" lease_registry_new).1.2
  end.

Lemma approved_elevation_is_lost_witness :
  ca_path make_gap = PathHumanApproval /\
  (negotiate_tool_authorization "secret" no_json (sample_turn PmWorkspaceWrite) (draw "a") (draw "b")
     read_clk read_clk (fun _ => no_env) approving make_effect "make all" "call-1" no_override 30
     (lease_registry_new, None)).1
    = Err "authorization lease does not permit required mode"%string.
Proof.
  split; [vm_compute; reflexivity|].
  apply (proj2 (approved_elevation_is_lost "secret" no_json (sample_turn PmWorkspaceWrite) make_effect
    "make all" "call-1" no_override 30 ltac:(vm_compute; reflexivity))
    (draw "a") (draw "b") read_clk read_clk (fun _ => no_env) approving "tool-approval:1" make_grant
    (lease_registry_new, None) make_gap (compile_effective_descriptor make_effect "make all")
    make_assessed.2); vm_compute; reflexivity.
Defined.

(** The same command when everything is allowed by a rule. *)
Definition ruled_policy : PermissionPolicy :=
  with_permission_rules ["bash"%string] [] [] (permission_policy_new PmDangerFullAccess).

Definition make_request : AuthorizationRequest :=
  authorization_request (sample_turn PmDangerFullAccess) make_effect "make all" "call-1" no_override
    (sample_policy PmDangerFullAccess).

Definition make_ruled :=
  assess_effective "secret" no_json (draw "a") read_clk ruled_policy make_request lease_registry_new.

Lemma command_needs_a_person_witness :
  is_Some (ca_lease make_ruled.1.2) /\
  (ca_path make_ruled.1.2 = PathExistingLease \/
   (ca_path make_ruled.1.2 = PathStandingGrant /\
    ef_effect_kind (command_effect sample_split "make all") <> TeDestructive /\
    ef_mutates_system (command_effect sample_split "make all") = false)).
Proof.
  assert (is_Some (ca_lease make_ruled.1.2)) as Hl by (vm_compute; by eexists).
  split; [exact Hl|].
  apply (command_needs_a_person "secret" no_json sample_split sample_scalar sample_debug sample_hash
    (tc_effect_resolver sample_catalog "bash") "bash" make_input PmReadOnly (draw "a") read_clk
    ruled_policy make_request lease_registry_new make_ruled.1.1 make_ruled.1.2 make_ruled.2).
  - reflexivity.
  - vm_compute. discriminate.
  - vm_compute. reflexivity.
  - unfold make_ruled. by destruct (assess_effective _ _ _ _ _ _ _) as [[eff a] reg].
  - exact Hl.
Defined.

(** A delegated worker below a session with full access. *)
Lemma delegated_ceiling_holds_witness :
  route_required_with_context no_json
    (bound_to_snapshot (sample_policy PmDangerFullAccess)
       (with_immutable_ceiling PmWorkspaceWrite (permission_policy_new PmDangerFullAccess)))
    "write_file" "{}" PmWorkspaceWrite no_override
    = RouteAllow false "active policy ceiling permits assessed effect" /\
  (pm_rank PmWorkspaceWrite <= pm_rank PmWorkspaceWrite)%N /\
  (pm_rank PmWorkspaceWrite <= pm_rank PmDangerFullAccess)%N.
Proof.
  assert (route_required_with_context no_json
    (bound_to_snapshot (sample_policy PmDangerFullAccess)
       (with_immutable_ceiling PmWorkspaceWrite (permission_policy_new PmDangerFullAccess)))
    "write_file" "{}" PmWorkspaceWrite no_override
    = RouteAllow false "active policy ceiling permits assessed effect") as Hr
    by (vm_compute; reflexivity).
  split; [exact Hr|].
  exact (delegated_ceiling_holds no_json (permission_policy_new PmDangerFullAccess) PmWorkspaceWrite
    (sample_policy PmDangerFullAccess) "write_file" "{}" PmWorkspaceWrite no_override _ Hr).
Defined.
