(* ===== verification/CoordinatorSamples.v ===== *)
(** * Concrete answers of the coordinator

    Calls of the turn of [GateSamples] put to the coordinator on the in-process
    store: the inputs at which the witnesses of [CoordinatorSafety] and
    [ApprovalChain] evaluate. *)

From stdpp Require Import pretty.
From S2P Require Import Prelude Facts Contract Validation Delta Ports EventStore Samples Backend.
From S2P Require Import Approval ApprovalJournal ApprovalQueue ApprovalMachine ApprovalLifecycle.
From S2P Require Import ApprovalAuthority ApprovalSamples Coordinator CoordinatorSafety.
From S2P Require Import Permissions Negotiator LeaseSafety Evidence ToolEffect ToolGate ToolAuthority.
From S2P Require Import ApprovalChain GateSamples.

(** No other task acts. *)
Definition quiet_schedule : @Schedule SampleStore :=
  {| sc_match := sample_clk; sc_deadline := 100; sc_submit := sample_clk; sc_decide := sample_clk;
     sc_wait := fun _ => sample_clk; sc_before_submit := fun w => w; sc_before_decide := fun w => w;
     sc_before_grant := fun w => w; sc_waiting := fun _ w => w |}.

Lemma identity_continues : continues (fun w : ApprovalQueue * SampleStore => w).
Proof. intros w h Hh. exists h. by split. Qed.

Lemma quiet_schedule_ok : schedule_ok quiet_schedule.
Proof. split; intros; exact identity_continues. Qed.

Lemma sample_run0 : queue_run qu0 [st0].
Proof. exact (RunNew 0 st0 [] sample_start). Qed.

(** What the answers of [fst] and [snd] are. *)
Lemma answer_split {A B} (p : option A * B) a : p.1 = Some a -> p = (Some a, p.2).
Proof. destruct p as [[x|] b]; cbn; congruence. Qed.

(** ** "make all" in a session with full access *)

Definition make_context : ApprovalContext :=
  turn_approval_context (sample_turn PmDangerFullAccess)
    (authorization_request (sample_turn PmDangerFullAccess) make_effect "make all" "call-1" no_override
       (sample_policy PmDangerFullAccess)) make_effect
    (compile_effective_descriptor make_effect "make all") "call-1" (sample_policy PmDangerFullAccess).

Definition no_grant : ApprovalGrant := make_grant.

Definition answer_grant {A} (r : option (Result string ApprovalResolution) * A) : ApprovalGrant :=
  match r.1 with Some (Ok (Approved _ g)) => g | _ => no_grant end.

Definition full_access_resolution :=
  turn_resolution (sample_turn PmDangerFullAccess) ApprovalConfig_default "u" quiet_schedule []
    make_effect "make all" "call-1" no_override 30 (qu0, st0).

Definition full_access_grant : ApprovalGrant := answer_grant full_access_resolution.

Definition full_access_surroundings : @Surroundings SampleStore :=
  {| su_coordinator := full_access_resolution.1; su_meanwhile := fun st => st; su_revision := 1;
     su_consume_once_grant := fun _ => Ok tt |}.

Definition full_access_call :=
  negotiate_tool_authorization "secret" no_json (sample_turn PmDangerFullAccess) (draw "a") (draw "b")
    read_clk read_clk (fun _ => no_env) full_access_surroundings make_effect "make all" "call-1"
    no_override 30 (lease_registry_new, None).

Definition full_access_decision : ToolExecutionPolicyDecision :=
  match full_access_call.1 with Ok (Authorized d) => d | _ => sample_decision end.

Lemma full_access_answer :
  full_access_resolution.1 = Some (Ok (Approved "tool-approval:call-1" full_access_grant)).
Proof. vm_compute. reflexivity. Qed.

Lemma full_access_run :
  turn_resolution (sample_turn PmDangerFullAccess) ApprovalConfig_default "u" quiet_schedule []
    make_effect "make all" "call-1" no_override 30 (qu0, st0)
  = (Some (Ok (Approved "tool-approval:call-1" full_access_grant)), full_access_resolution.2).
Proof. fold full_access_resolution. exact (answer_split full_access_resolution _ full_access_answer). Qed.

Lemma full_access_called :
  negotiate_tool_authorization "secret" no_json (sample_turn PmDangerFullAccess) (draw "a") (draw "b")
    read_clk read_clk (fun _ => no_env) full_access_surroundings make_effect "make all" "call-1"
    no_override 30 (lease_registry_new, None)
  = (Ok (Authorized full_access_decision), full_access_call.2).
Proof.
  fold full_access_call.
  assert (full_access_call.1 = Ok (Authorized full_access_decision)) as Hc by (vm_compute; reflexivity).
  rewrite <- Hc. exact (surjective_pairing full_access_call).
Qed.

Lemma resolved_grant_on_record_witness :
  gt_approval_id full_access_grant = "tool-approval:call-1"%string /\
  grant_on_record full_access_grant full_access_resolution.2.2.
Proof.
  pose proof (resolved_grant_on_record ApprovalConfig_default "u" quiet_schedule []
    (turn_approval_source (sample_turn PmDangerFullAccess)) make_context
    (Some (sp_autonomy_profile (sample_policy PmDangerFullAccess)))
    (ed_descriptor (compile_effective_descriptor make_effect "make all")) "make all" 30000
    qu0 st0 [] "tool-approval:call-1" full_access_grant full_access_resolution.2
    sample_run0 quiet_schedule_ok full_access_run) as (Hid & Hg & _).
  exact (conj Hid Hg).
Defined.

Lemma approved_call_has_decision_witness :
  exists aid g r, full_access_resolution.1 = Some (Ok (Approved aid g)) /\
    restore_approval_request full_access_resolution.2.2 aid = Some r /\ backed r g /\
    grants_call (sample_turn PmDangerFullAccess) g make_effect "call-1" /\
    gt_effect_descriptor_hash g
      = Some (ta_descriptor_hash (pd_authorization full_access_decision)).
Proof.
  pose proof (approved_call_has_decision "secret" no_json (sample_turn PmDangerFullAccess)
    ApprovalConfig_default "u" quiet_schedule [] make_effect "make all" "call-1" no_override 30
    qu0 st0 [] (Ok (Approved "tool-approval:call-1" full_access_grant)) full_access_resolution.2
    (draw "a") (draw "b") read_clk read_clk (fun _ => no_env) full_access_surroundings
    (lease_registry_new, None) full_access_call.2 full_access_decision
    sample_run0 quiet_schedule_ok full_access_run full_access_answer full_access_called) as Hd.
  destruct Hd as [(st1 & Ha)|(aid & g & r & Hr)].
  - exfalso. apply (f_equal fst) in Ha. revert Ha. vm_compute. discriminate.
  - exists aid, g, r. destruct Hr as (Hres & _ & _ & Hr). rewrite full_access_answer, Hres. tauto.
Defined.

Lemma automatic_answer_recorded_witness :
  exists ans w',
    full_access_resolution = (Some ans, w') /\
    forall r, ans = Ok r ->
      exists g, r = Approved "tool-approval:call-1" g /\
        answered_by (router_command "tool-approval:call-1" AuAutonomous)
          (with_explicit_ask true (tool_context ApBalanced make_effect make_context)) g w'.2.
Proof.
  apply (automatic_answer_recorded ApprovalConfig_default "u" quiet_schedule []
    (turn_approval_source (sample_turn PmDangerFullAccess)) make_context
    (Some (sp_autonomy_profile (sample_policy PmDangerFullAccess)))
    (ed_descriptor (compile_effective_descriptor make_effect "make all")) "make all" 30000
    qu0 st0 [] sample_start).
  - done.
  - done.
  - done.
  - vm_compute. reflexivity.
  - vm_compute. reflexivity.
  - left. vm_compute. reflexivity.
Defined.

(** ** The same call when a person is asked *)

Definition asking_config : ApprovalConfig := ApprovalConfig_default.

Definition asked_resolution (wakes : list Wake) :=
  turn_resolution (sample_turn PmWorkspaceWrite) asking_config "u" quiet_schedule wakes
    make_effect "make all" "call-1" no_override 30 (qu0, st0).

Definition asked_context : ApprovalContext :=
  turn_approval_context (sample_turn PmWorkspaceWrite)
    (authorization_request (sample_turn PmWorkspaceWrite) make_effect "make all" "call-1" no_override
       (sample_policy PmWorkspaceWrite)) make_effect
    (compile_effective_descriptor make_effect "make all") "call-1" (sample_policy PmWorkspaceWrite).

Lemma unattended_call_not_approved_witness :
  (asked_resolution [WakeDecision; WakeTimeout]).1 = None /\
  (forall aid g, (asked_resolution [WakeDecision; WakeTimeout]).1 <> Some (Ok (Approved aid g))).
Proof.
  split; [vm_compute; reflexivity|].
  apply (unattended_call_not_approved asking_config "u" quiet_schedule [WakeDecision; WakeTimeout]
    (turn_approval_source (sample_turn PmWorkspaceWrite)) asked_context
    (Some (sp_autonomy_profile (sample_policy PmWorkspaceWrite)))
    (ed_descriptor (compile_effective_descriptor make_effect "make all")) "make all" 30000
    qu0 st0 [] sample_start identity_continues).
  - split; [vm_compute; discriminate|]. intros Hr. exfalso. revert Hr. vm_compute. discriminate.
  - intros r [Hr|Hr]; exfalso; revert Hr; vm_compute; discriminate.
  - intros w Hw. exact Hw.
  - intros w Hw. exact Hw.
  - intros n w Hw. exact Hw.
  - vm_compute. reflexivity.
Defined.

(** *** The turn is cancelled while the approval waits *)

Definition cancelled_wait :=
  wait_for_resolution (fun _ => sample_clk) (fun _ w => w) "a" 0 [WakeDecision; WakeCancellation]
    (qu1, st1).

Lemma answered_wait_is_closed_witness :
  closed "a" cancelled_wait.2.2 /\ exists h', approval_history (cancelled_wait.2.2 :: h').
Proof.
  apply (answered_wait_is_closed (fun _ => sample_clk) (fun _ w => w) "a"
    [WakeDecision; WakeCancellation] 0 (qu1, st1) [st0]
    (Cancelled "a" (match cancelled_wait.1 with
                    | Some (Ok (Cancelled _ reason)) => reason | _ => EmptyString end))
    cancelled_wait.2 history1).
  - intros r Hr Hne. exfalso. apply Hne. revert Hr. vm_compute. by intros [= <-].
  - intros n. split; [exact identity_continues|]. intros w Hw. exact Hw.
  - vm_compute. reflexivity.
Defined.

(** ** A read that a rule asks about *)

Definition ruled_turn : TurnRuntime :=
  {| tr_session_id := "s"; tr_memory_agent_id := "primary"; tr_memory_team_id := None;
     tr_checkpoint_workspace_id := "workspace"; tr_activity_task_id := None;
     tr_execution_context := Some {| ec_session_id := "s"; ec_turn_id := "t"; ec_execution_id := "e" |};
     tr_permission_policy :=
       with_permission_rules [] [] ["read_file"%string] (permission_policy_new PmReadOnly) |}.

Definition ruled_control : SessionExecutionPolicy := pp_control (tr_permission_policy ruled_turn).

Definition ruled_context : ApprovalContext :=
  turn_approval_context ruled_turn
    (authorization_request ruled_turn (sample_describe "read_file" read_input) "input" "call-1"
       no_override ruled_control)
    (sample_describe "read_file" read_input)
    (compile_effective_descriptor (sample_describe "read_file" read_input) "input") "call-1"
    ruled_control.

Lemma ask_rule_answered_by_policy_witness :
  sp_autonomy_profile ruled_control = AuCautious /\
  exists ans w', turn_resolution ruled_turn ApprovalConfig_default "u" quiet_schedule []
                   (sample_describe "read_file" read_input) "input" "call-1" no_override 30 (qu0, st0)
                 = (Some ans, w') /\
    forall res, ans = Ok res -> exists g, res = Approved "tool-approval:call-1" g /\
      answered_by (router_command "tool-approval:call-1" AuCautious)
        (with_explicit_ask false (tool_context ApBalanced
           (ed_descriptor (compile_effective_descriptor (sample_describe "read_file" read_input)
              "input")) ruled_context)) g w'.2.
Proof.
  split; [reflexivity|].
  refine (proj2 (ask_rule_answered_by_policy "secret" no_json ruled_turn ApprovalConfig_default "u"
    quiet_schedule [] (sample_describe "read_file" read_input) "input" "call-1" no_override 30
    qu0 st0 [] (draw "a") read_clk no_env (lease_registry_new, None) (rule_parse "read_file")
    _ _ _ _ _ _ _ _ _ sample_start _ _ _ _ _)).
  all: try (vm_compute; (reflexivity || discriminate)).
  all: done.
Defined.
