(* ===== verification/StateStore.v ===== *)
(** * Replaying graph streams

    [runtime/src/execution_core/graph/state_store.rs]: decoding of persisted
    graph events (with the upcast of legacy full snapshots), projection of a
    stream from its last checkpoint, and snapshot loading through the hot
    registry ([hot_state/graph.rs]). *)

From stdpp Require Import pretty.
From S2P Require Import Prelude Facts Contract Validation Delta Ports Backend.

Inductive ExecutionStateStoreError :=
| SsEventStore (e : RuntimeEventStoreError)
| SsInvalidPayload (message : string)
| SsNotFound (graph_id : string)
| SsCorrupt (graph_id reason : string)
| SsBlockingTask (message : string).

(** The [Display] text of a load error. *)
Definition state_store_error_to_string (e : ExecutionStateStoreError) : string :=
  match e with
  | SsEventStore e => store_error_to_string e
  | SsInvalidPayload m => "execution graph event payload is invalid: " +:+ m
  | SsNotFound id => "execution graph `" +:+ id +:+ "` does not exist"
  | SsCorrupt id reason => "execution graph `" +:+ id +:+ "` stream is corrupt: " +:+ reason
  | SsBlockingTask m => "execution state blocking task failed: " +:+ m
  end.

(** [graph.recovery_cursor.commit_cursor = cursor] *)
Definition set_commit_cursor (g : ExecutionGraph) (cursor : N) : ExecutionGraph :=
  {| eg_id := eg_id g; eg_revision := eg_revision g; eg_objective := eg_objective g;
     eg_service_class := eg_service_class g; eg_parent_execution := eg_parent_execution g;
     eg_lineage := eg_lineage g; eg_continuation_binding := eg_continuation_binding g;
     eg_nodes := eg_nodes g; eg_edges := eg_edges g; eg_node_statuses := eg_node_statuses g;
     eg_node_results := eg_node_results g;
     eg_recovery_cursor :=
       {| rc_commit_cursor := cursor;
          rc_node_attempts := rc_node_attempts (eg_recovery_cursor g) |};
     eg_delivery_envelope := eg_delivery_envelope g;
     eg_terminal_presentation := eg_terminal_presentation g |}.

(** [iter().rposition(p)] *)
Fixpoint rposition {A} (p : A -> bool) (l : list A) : option nat :=
  match l with
  | [] => None
  | x :: l' =>
      match rposition p l' with
      | Some i => Some (S i)
      | None => if p x then Some 0 else None
      end
  end.

Section Replay.
Context {Value : Type} `{Json Value}.
Abbreviation Event := (DurableRuntimeEvent Value).

(** [is_legacy_full_graph_snapshot] *)
Definition is_legacy_full_graph_snapshot (record : Event) : bool :=
  memb ["execution_graph.node_transitioned";
        "execution_graph.node_transitioned_and_replanned";
        "execution_graph.command_applied"; "execution_graph.replanned";
        "execution_graph.recovered"]%string (ev_kind record)
  && match value_get (ev_payload record) "graph" with Some _ => true | None => false end.

(** [decode_execution_graph_event]; the (de)serialization messages of the
    third-party library are elided from the error text. *)
Definition decode_execution_graph_event (record : Event) : Result string ExecutionGraphEvent :=
  match event_from_value (ev_payload record) with
  | Some event => Ok event
  | None =>
      if is_legacy_full_graph_snapshot record then
        value ← ok_or ("execution graph event " +:+ ev_kind record +:+ " at sequence "
                       +:+ pretty (ev_sequence record) +:+ " has no graph snapshot")%string
                  (value_get (ev_payload record) "graph");
        graph ← ok_or ("execution graph event " +:+ ev_kind record +:+ " at sequence "
                       +:+ pretty (ev_sequence record)
                       +:+ " has an invalid legacy snapshot")%string
                  (graph_from_value value);
        Ok (EvCheckpoint ("upcast:" +:+ ev_kind record) graph)
      else Err ("execution graph event " +:+ ev_kind record +:+ " at sequence "
                +:+ pretty (ev_sequence record) +:+ " is invalid")%string
  end.

Definition is_checkpoint_record (record : Event) : bool :=
  String.eqb (ev_kind record) "execution_graph.planned"
  || String.eqb (ev_kind record) "execution_graph.checkpoint"
  || is_legacy_full_graph_snapshot record.

(** The loop body of [project_graph_events]. *)
Definition project_record (graph_id : string) (projected : option ExecutionGraph)
    (record : Event) : Result ExecutionStateStoreError (option ExecutionGraph) :=
  _ ← guard_err (negb (bool_decide (ev_scope record = ScExecutionGraph)))
        (SsCorrupt graph_id ("unexpected scope " +:+ scope_as_str (ev_scope record)));
  event ← map_err (SsCorrupt graph_id) (decode_execution_graph_event record);
  graph ← map_err (SsCorrupt graph_id) (event_project event projected);
  _ ← guard_err (negb (String.eqb (eg_id graph) graph_id
                       && (eg_revision graph =? ev_sequence record)%N))
        (SsCorrupt graph_id
           ("event identity/revision mismatch: graph=" +:+ eg_id graph +:+ " revision="
            +:+ pretty (eg_revision graph) +:+ ", stream_sequence="
            +:+ pretty (ev_sequence record)));
  Ok (Some (set_commit_cursor graph (ev_commit_cursor record))).

(** [project_graph_events] *)
Definition project_graph_events (graph_id : string) (events : list Event) :
  Result ExecutionStateStoreError ExecutionGraph :=
  let checkpoint_index := default 0 (rposition is_checkpoint_record events) in
  projected ← try_fold (project_record graph_id) None (drop checkpoint_index events);
  ok_or (SsNotFound graph_id) projected.

(** Replay of the whole stream, without the checkpoint shortcut. *)
Definition project_from_start (graph_id : string) (events : list Event) :
  Result ExecutionStateStoreError ExecutionGraph :=
  projected ← try_fold (project_record graph_id) None events;
  ok_or (SsNotFound graph_id) projected.

(** ** Checkpoint soundness *)

(** A record treated as a checkpoint carries a snapshot. *)
Definition snapshot_record (record : Event) : Prop :=
  is_checkpoint_record record = true ->
  forall event, decode_execution_graph_event record = Ok event ->
  exists g, event_payload event = inl g.

Lemma rposition_snoc {A} (p : A -> bool) l x :
  rposition p (l ++ [x]) = if p x then Some (length l) else rposition p l.
Proof.
  induction l as [|y l IH]; cbn; [by destruct (p x)|]. rewrite IH. by destruct (p x).
Qed.

Lemma rposition_Some {A} (p : A -> bool) l i :
  rposition p l = Some i -> exists x, l !! i = Some x /\ p x = true.
Proof.
  revert i. induction l as [|y l IH]; intros i; cbn; [done|].
  destruct (rposition p l) as [j|] eqn:E.
  - intros [= <-]. destruct (IH j eq_refl) as (x & Hx & Hp). by exists x.
  - destruct (p y) eqn:Ep; [|done]. intros [= <-]. by exists y.
Qed.

(** A snapshot forgets what was projected before it. *)
Lemma project_record_snapshot id cur1 cur2 record :
  (forall event, decode_execution_graph_event record = Ok event ->
     exists g, event_payload event = inl g) ->
  project_record id cur1 record = project_record id cur2 record.
Proof.
  intros Hs. unfold project_record.
  destruct (guard_err _ _); [|done]. cbn.
  destruct (decode_execution_graph_event record) as [event|] eqn:Ed; [|done]. cbn.
  destruct (Hs event eq_refl) as [g Hg]. unfold event_project. by rewrite Hg.
Qed.

Lemma project_record_Some id cur record out :
  project_record id cur record = Ok out -> is_Some out.
Proof. unfold project_record. intros Hp. ok_inv. subst. eauto. Qed.

(** C39. Replaying from the last checkpoint is sound: whenever the complete
    stream replays to a graph and checkpoint records carry snapshots, the
    shortcut that skips everything before the last checkpoint returns the same
    graph. *)
Theorem checkpoint_replay_sound id events g
  (Hsnap : forall r, r ∈ events -> snapshot_record r)
  (Hfull : project_from_start id events = Ok g) :
  project_graph_events id events = Ok g.
Proof.
  unfold project_graph_events. destruct (rposition is_checkpoint_record events) as [i|] eqn:Ei;
    [|done]. change (default 0 (Some i)) with i.
  destruct (rposition_Some _ _ _ Ei) as (r & Hr & Hp).
  unfold project_from_start in Hfull.
  rewrite <- (take_drop i events), try_fold_app in Hfull.
  destruct (try_fold (project_record id) None (take i events)) as [cur|e]; [|done].
  cbn [mbind Result_bind] in Hfull. rewrite (drop_S _ _ _ Hr) in Hfull |- *.
  cbn [try_fold] in Hfull |- *.
  assert (project_record id None r = project_record id cur r) as ->; [|done].
  apply project_record_snapshot. apply (Hsnap r); [|done]. by eapply list_elem_of_lookup_2.
Qed.

(** Extending a stream by one record extends its projection. *)
Lemma project_graph_events_snoc id events g r event g' :
  project_graph_events id events = Ok g ->
  ev_scope r = ScExecutionGraph ->
  decode_execution_graph_event r = Ok event ->
  (is_checkpoint_record r = true -> exists s, event_payload event = inl s) ->
  event_project event (Some g) = Ok g' ->
  eg_id g' = id -> eg_revision g' = ev_sequence r ->
  project_graph_events id (events ++ [r])
    = Ok (set_commit_cursor g' (ev_commit_cursor r)).
Proof.
  intros Hp Hsc Hd Hck He Hid Hrev.
  assert (Hrec : forall cur, event_project event cur = Ok g' ->
            project_record id cur r = Ok (Some (set_commit_cursor g' (ev_commit_cursor r)))).
  { intros cur Hcur. unfold project_record. rewrite Hsc, bool_decide_eq_true_2, Hd by done. cbn.
    rewrite Hcur. cbn. by rewrite Hid, String.eqb_refl, Hrev, N.eqb_refl. }
  unfold project_graph_events in *. rewrite rposition_snoc.
  destruct (is_checkpoint_record r) eqn:Ec.
  - destruct (Hck eq_refl) as [s Hs]. change (default 0 (Some (length events))) with (length events).
    rewrite drop_app_length. cbn [try_fold]. rewrite Hrec; [done|].
    revert He. unfold event_project. by rewrite Hs.
  - set (i := default 0 (rposition is_checkpoint_record events)) in *.
    apply bind_Ok_inv in Hp as (cur & Hcur & Hg). apply ok_or_Ok_inv in Hg as ->.
    rewrite drop_app_le, try_fold_app, Hcur.
    + cbn. rewrite Hrec by done. done.
    + unfold i. destruct (rposition _ events) as [j|] eqn:Ej; cbn; [|lia].
      apply rposition_Some in Ej as (x & Hx & _). apply lookup_lt_Some in Hx. lia.
Qed.

(** The first event of a stream. *)
Lemma project_graph_events_first id r event g :
  ev_scope r = ScExecutionGraph ->
  decode_execution_graph_event r = Ok event -> event_payload event = inl g ->
  eg_id g = id -> eg_revision g = ev_sequence r ->
  project_graph_events id [r] = Ok (set_commit_cursor g (ev_commit_cursor r)).
Proof.
  intros Hsc Hd Hpl Hid Hrev. unfold project_graph_events.
  assert (drop (default 0 (rposition is_checkpoint_record [r])) [r] = [r]) as ->
    by (cbn; by destruct (is_checkpoint_record r)).
  cbn [try_fold]. unfold project_record. rewrite Hsc, bool_decide_eq_true_2, Hd by done. cbn.
  unfold event_project. rewrite Hpl. cbn. by rewrite Hid, String.eqb_refl, Hrev, N.eqb_refl.
Qed.

(** A projected graph carries the stream's id and last sequence number. *)
Lemma project_graph_events_identity id events g :
  project_graph_events id events = Ok g ->
  eg_id g = id /\ exists r, last events = Some r /\ eg_revision g = ev_sequence r /\
    rc_commit_cursor (eg_recovery_cursor g) = ev_commit_cursor r.
Proof.
  unfold project_graph_events. intros (cur & Hcur & Hg)%bind_Ok_inv.
  apply ok_or_Ok_inv in Hg as ->.
  set (i := default 0 _) in *. rewrite <- (take_drop i events).
  destruct (drop i events) as [|r l _] eqn:El using rev_ind; [done|].
  rewrite try_fold_app in Hcur. apply bind_Ok_inv in Hcur as (c & _ & Hr). cbn in Hr.
  apply bind_Ok_inv in Hr as (c' & Hr & [= ->]).
  unfold project_record in Hr. ok_inv.
  apply negb_false_iff, andb_true_iff in Ha2 as [Hid%String.eqb_eq Hrev%N.eqb_eq].
  subst g. cbn. split; [done|]. exists r. rewrite app_assoc, last_snoc. done.
Qed.
End Replay.

(** ** The hot registry *)

Abbreviation HotGraphs := (gmap string ExecutionGraph).

(** [graph_is_terminal] *)
Definition graph_is_terminal (g : ExecutionGraph) : bool :=
  negb (bool_decide (eg_nodes g = []))
  && forallb (fun node =>
       match eg_node_statuses g !! ns_id node with
       | Some status => is_terminal status
       | None => false
       end) (eg_nodes g).

(** [publish_snapshot]: only a strictly newer revision is published. *)
Definition publish_snapshot (g : ExecutionGraph) (hot : HotGraphs) : bool * HotGraphs :=
  if match hot !! eg_id g with
     | Some current => (eg_revision g <=? eg_revision current)%N
     | None => false
     end
  then (false, hot)
  else (true, <[eg_id g := g]> hot).

(** [evict_completed_under_pressure]: under memory pressure the residency
    registry proposes candidates; only terminal graphs are dropped. *)
Definition evict (candidates : list string) (hot : HotGraphs) : HotGraphs :=
  foldl (fun hot id =>
    match hot !! id with
    | Some g => if graph_is_terminal g then delete id hot else hot
    | None => hot
    end) hot candidates.

(** ** Loading *)

Section Load.
Context {Value S : Type} `{Json Value} `{EventBackend Value S}.

(** What the durable stream says about a graph. *)
Definition replay (s : S) (id : string) : Result ExecutionStateStoreError ExecutionGraph :=
  project_graph_events id (eb_list_stream s id).

(** The recovery path of [load_snapshot]: replay the stream, publish. *)
Definition recover_graph (s : S) (hot : HotGraphs) (graph_id : string) :
  Result ExecutionStateStoreError ExecutionGraph * HotGraphs :=
  let events := eb_list_stream s graph_id in
  if bool_decide (length events = 0) then (Err (SsNotFound graph_id), hot)
  else match project_graph_events graph_id events with
       | Err e => (Err e, hot)
       | Ok g => (Ok g, (publish_snapshot g hot).2)
       end.

(** [load_snapshot], for the caller that holds the recovery permit (followers
    wait and take the same path).  [verify] is [verify_durable_revision]. *)
Definition load_snapshot (verify : bool) (s : S) (hot : HotGraphs) (graph_id : string) :
  Result ExecutionStateStoreError ExecutionGraph * HotGraphs :=
  match hot !! graph_id with
  | Some g =>
      if negb verify || (eb_stream_revision s graph_id =? eg_revision g)%N then (Ok g, hot)
      else recover_graph s hot graph_id
  | None => recover_graph s hot graph_id
  end.

Context `{!EventBackendLaws Value S}.

(** The graph projected from the first [k] events of a stream. *)
Definition projects_prefix (s : S) (id : string) (k : nat) (g : ExecutionGraph) : Prop :=
  project_graph_events id (take k (eb_list_stream s id)) = Ok g.

Lemma projects_prefix_revision s id k g :
  eb_inv s -> projects_prefix s id k g ->
  eg_revision g = N.of_nat (min k (length (eb_list_stream s id))).
Proof.
  intros Hinv (_ & r & Hl & -> & _)%project_graph_events_identity.
  rewrite last_lookup, length_take in Hl.
  destruct (min k _) as [|n] eqn:En.
  - apply lookup_lt_Some in Hl. rewrite length_take, En in Hl. lia.
  - cbn in Hl. rewrite lookup_take_lt in Hl by lia. by rewrite (eb_sequences s id n r Hinv Hl).
Qed.

(** A projection at the stream's revision is the projection of the stream. *)
Lemma projects_prefix_current s id k g :
  eb_inv s -> projects_prefix s id k g -> eb_stream_revision s id = eg_revision g ->
  replay s id = Ok g.
Proof.
  intros Hinv Hg Heq. rewrite (projects_prefix_revision s id k g), eb_revision_length in Heq by done.
  unfold replay. rewrite <- Hg, take_ge; [done | lia].
Qed.

Lemma replay_Ok_prefix s id g :
  replay s id = Ok g -> projects_prefix s id (length (eb_list_stream s id)) g.
Proof. unfold projects_prefix. by rewrite firstn_all. Qed.

Lemma recover_graph_spec s hot id :
  eb_inv s ->
  (forall g, hot !! id = Some g ->
     (exists k, projects_prefix s id k g) /\ eb_stream_revision s id <> eg_revision g) ->
  (recover_graph s hot id).1 = replay s id /\
  (forall g, replay s id = Ok g -> (recover_graph s hot id).2 !! id = Some g) /\
  (forall other, other <> id -> (recover_graph s hot id).2 !! other = hot !! other).
Proof.
  intros Hinv Hhot. unfold recover_graph, replay.
  destruct (bool_decide_reflect (length (eb_list_stream s id) = 0)) as [Hz|Hz].
  { apply length_zero_iff_nil in Hz. by rewrite Hz. }
  destruct (project_graph_events id (eb_list_stream s id)) as [g|err] eqn:Eg; [|done].
  split; [done|]. unfold publish_snapshot.
  destruct (project_graph_events_identity _ _ _ Eg) as [Hid _]. subst id.
  apply replay_Ok_prefix, projects_prefix_revision in Eg; [|done].
  destruct (hot !! eg_id g) as [old|] eqn:Eo;
    [|split; [intros g' [= <-]; apply lookup_insert_eq | intros; by apply lookup_insert_ne]].
  destruct (Hhot old eq_refl) as [[k Hk%projects_prefix_revision] Hne]; [|done].
  rewrite eb_revision_length in Hne by done.
  rewrite (proj2 (N.leb_gt _ _)) by lia.
  split; [intros g' [= <-]; apply lookup_insert_eq | intros; by apply lookup_insert_ne].
Qed.

(** A verified read is never stale: whichever earlier revision of the stream
    the hot registry holds, loading with verification returns what a replay
    of the whole durable stream returns, and the registry moves to it. *)
Theorem load_snapshot_verified s hot id
  (Hinv : eb_inv s)
  (Hhot : forall g, hot !! id = Some g -> exists k, projects_prefix s id k g) :
  (load_snapshot true s hot id).1 = replay s id /\
  (forall g, replay s id = Ok g -> (load_snapshot true s hot id).2 !! id = Some g) /\
  (forall other, other <> id -> (load_snapshot true s hot id).2 !! other = hot !! other).
Proof.
  unfold load_snapshot. destruct (hot !! id) as [g|] eqn:Eh; [|by apply recover_graph_spec; [|congruence]].
  destruct (Hhot g eq_refl) as [k Hk]. cbn [negb orb].
  destruct (N.eqb_spec (eb_stream_revision s id) (eg_revision g)) as [Er|Er].
  - rewrite (projects_prefix_current s id k g Hinv Hk Er). split_and!; [done | | done].
    cbn. congruence.
  - apply recover_graph_spec; [done|]. intros g'. rewrite Eh. intros [= <-]. eauto.
Qed.
End Load.
