(* ===== verification/Commit.v ===== *)
(** * The commit service

    [runtime/src/execution_core/graph/commit_service.rs] and
    [commit_pipeline.rs]: every mutation of an execution graph is prepared on a
    copy, turned into a delta event (or a checkpoint) plus domain events, and
    appended as one transaction under the graph's revision; only then is the new
    graph published to the hot registry.

    An operation is split as the code is: its pure preparation ([prepare_...],
    which reads the event store at most) and the append of what it prepared
    ([append_graph_event...]).  The theorems are proved against the
    [EventBackend] interface. *)

From stdpp Require Import pretty.
From S2P Require Import Prelude.
From S2P Require Import Facts.
From S2P Require Import Contract.
From S2P Require Import Validation.
From S2P Require Import Transition.
From S2P Require Import Delta.
From S2P Require Import Sizes.
From S2P Require Import Ports.
From S2P Require Import StateStore.
From S2P Require Import Backend.

Inductive ExecutionCommitError :=
| CeEventStore (e : RuntimeEventStoreError)
| CeTransition (e : ExecutionTransitionError)
| CeSerialization (message : string)
| CeStaleRevision (graph_id : string) (expected actual : N)
| CeInvalidCommand (reason : string)
| CeAlreadyAppliedSame (graph_id : string)
| CeGraphStreamCollision (graph_id : string)
| CeMissingDomainIdempotency (stream_id : string)
| CeProtectedDomainScope (scope : string)
| CeBlockingTask (message : string)
| CeInvalidReplan (reason : string).

Abbreviation CommitResult := (Result ExecutionCommitError).

Record NodeExecutionTicket := {
  tk_graph_id : string;
  tk_node_id : string;
  tk_executor_kind : string;
  tk_service_class : ExecutionServiceClass;
  tk_attempt : N;
  tk_idempotency_key : string;
  tk_payload_ref : string
}.

Record ExecutionGraphReplan := {
  rpl_nodes : list ExecutionNodeSpec;
  rpl_edges : list ExecutionEdge;
  rpl_reason : string
}.

Record NodeExecutionOutcome {Value : Type} := {
  oc_result : ExecutionNodeResult;
  oc_delivery_envelope : option DeliveryEnvelope;
  oc_terminal_presentation : option TerminalPresentation;
  oc_domain_events : list (RuntimeTransactionEventInput Value);
  oc_replan : option ExecutionGraphReplan
}.
Arguments NodeExecutionOutcome : clear implicits.

Record ExecutionTerminalCommit {Value : Type} := {
  tc_node_id : string;
  tc_outcome : NodeExecutionOutcome Value;
  tc_effect_ticket : option NodeExecutionTicket
}.
Arguments ExecutionTerminalCommit : clear implicits.

Record DerivedMaterialization := {
  dm_key : string;
  dm_revision : N;
  dm_commit_cursor : N
}.

Record ExecutionCommitReceipt := {
  cr_graph : ExecutionGraph;
  cr_transaction : AppendTransactionReceipt
}.

(** Identity fields of an [AgentTaskPacket]. *)
Record AgentPacketIdentity := {
  pk_principal_id : string;
  pk_workspace_id : string;
  pk_mission_id : string;
  pk_task_id : string;
  pk_session_id : string;
  pk_run_id : string;
  pk_node_id : string;
  pk_turn_id : option string;
  pk_team_id : option string
}.

(** What the commit service takes from outside this component: serializers of
    tickets, outcomes, terminals and agent packets, the URL-safe base64
    encoder, the clock, and the components that are not modelled here (approval
    queue, knowledge projector, recovery-terminal classifier, session
    continuation). *)
Class CommitEnv (Value S : Type) := {
  ticket_to_value : NodeExecutionTicket -> Value;
  outcome_to_value : NodeExecutionOutcome Value -> Value;
  session_terminal_from_value : Value -> option SessionTerminalInput;
  agent_packet_from_str : string -> option AgentPacketIdentity;
  url_safe_no_pad : string -> string;
  now_ms : N;
  is_controlled_recovery_terminal_event : RuntimeEventInput Value -> bool;
  team_terminal_event : ExecutionGraph -> string -> ExecutionNodeStatus ->
    option ExecutionNodeResult ->
    Result string (option (RuntimeTransactionEventInput Value));
  canonical_graph_decision_events : S -> ApprovalDecisionCommand -> N ->
    Result string (string * N * list (RuntimeTransactionEventInput Value));
  graph_continuation_claim_event : CollaborationContinuationBinding -> string ->
    Result string (RuntimeTransactionEventInput Value);
  (** the [agentic_program:] source of a continuation exists and is not verified *)
  continuation_source_unfinished : S -> CollaborationContinuationBinding -> Result string bool
}.

(** ** Graph writes *)

(** [let mut next = graph.clone()] followed by writes to these fields. *)
Definition graph_with (g : ExecutionGraph) (revision : N) (nodes : list ExecutionNodeSpec)
    (edges : list ExecutionEdge) (statuses : gmap string ExecutionNodeStatus)
    (results : gmap string ExecutionNodeResult) (attempts : gmap string N) : ExecutionGraph :=
  {| eg_id := eg_id g; eg_revision := revision; eg_objective := eg_objective g;
     eg_service_class := eg_service_class g; eg_parent_execution := eg_parent_execution g;
     eg_lineage := eg_lineage g; eg_continuation_binding := eg_continuation_binding g;
     eg_nodes := nodes; eg_edges := edges; eg_node_statuses := statuses;
     eg_node_results := results;
     eg_recovery_cursor :=
       {| rc_commit_cursor := rc_commit_cursor (eg_recovery_cursor g);
          rc_node_attempts := attempts |};
     eg_delivery_envelope := eg_delivery_envelope g;
     eg_terminal_presentation := eg_terminal_presentation g |}.

Definition set_revision (g : ExecutionGraph) (revision : N) : ExecutionGraph :=
  graph_with g revision (eg_nodes g) (eg_edges g) (eg_node_statuses g) (eg_node_results g)
    (rc_node_attempts (eg_recovery_cursor g)).

Definition set_attempt (g : ExecutionGraph) (node_id : string) (attempt : N) : ExecutionGraph :=
  graph_with g (eg_revision g) (eg_nodes g) (eg_edges g) (eg_node_statuses g)
    (eg_node_results g) (<[node_id := attempt]> (rc_node_attempts (eg_recovery_cursor g))).

Definition set_statuses (g : ExecutionGraph) (statuses : gmap string ExecutionNodeStatus) :
  ExecutionGraph :=
  graph_with g (eg_revision g) (eg_nodes g) (eg_edges g) statuses (eg_node_results g)
    (rc_node_attempts (eg_recovery_cursor g)).

(** The new nodes are planned; nodes and edges are appended. *)
Definition plan_statuses (nodes : list ExecutionNodeSpec)
    (statuses : gmap string ExecutionNodeStatus) : gmap string ExecutionNodeStatus :=
  foldl (fun m node => <[ns_id node := Planned]> m) statuses nodes.

Definition extend_topology (g : ExecutionGraph) (nodes : list ExecutionNodeSpec)
    (edges : list ExecutionEdge) : ExecutionGraph :=
  graph_with g (eg_revision g) (eg_nodes g ++ nodes) (eg_edges g ++ edges)
    (plan_statuses nodes (eg_node_statuses g)) (eg_node_results g)
    (rc_node_attempts (eg_recovery_cursor g)).

(** ** Pipeline helpers *)

(** [node_stream_id], [execution_lineage_stream_id] *)
Definition node_stream_id (graph_id node_id : string) : string :=
  graph_id +:+ ":node:" +:+ node_id.
Definition execution_lineage_stream_id (parent : string) : string :=
  "execution-lineage:" +:+ parent.

(** [status_name] *)
Definition status_name (s : ExecutionNodeStatus) : string :=
  match s with
  | Planned => "planned"
  | Ready => "ready"
  | Running => "running"
  | WaitingInput => "waiting_input"
  | WaitingApproval => "waiting_approval"
  | WaitingExternal => "waiting_external"
  | Paused => "paused"
  | Completed => "completed"
  | Blocked => "blocked"
  | Failed => "failed"
  | Cancelled => "cancelled"
  end.

(** [status as u8] *)
Definition status_u8 (s : ExecutionNodeStatus) : N :=
  match s with
  | Planned => 0 | Ready => 1 | Running => 2 | WaitingInput => 3 | WaitingApproval => 4
  | WaitingExternal => 5 | Paused => 6 | Completed => 7 | Blocked => 8 | Failed => 9
  | Cancelled => 10
  end.

(** [graph_status] *)
Definition graph_status (g : ExecutionGraph) : string :=
  let statuses := btree_values (eg_node_statuses g) in
  if bool_decide (statuses = []) then "planned"
  else if forallb is_terminal statuses then
    if memb statuses Failed then "failed"
    else if memb statuses Blocked then "blocked"
    else if memb statuses Cancelled then "cancelled"
    else "completed"
  else if memb statuses Paused then "paused"
  else "running".

(** [command_revision] *)
Definition command_revision (c : ExecutionGraphCommand) : N :=
  match c with
  | CmdStart r | CmdAdvance r | CmdPause r _ | CmdResume r | CmdCancel r _
  | CmdCancelNode r _ _ | CmdSubmitApproval r _ _ | CmdResolveExternal r _ _ _
  | CmdReplan r _ _ => r
  end.

(** [command_metadata] *)
Definition command_metadata (c : ExecutionGraphCommand) : string * option string :=
  match c with
  | CmdStart _ => ("start", None)
  | CmdAdvance _ => ("advance", None)
  | CmdPause _ reason => ("pause", Some reason)
  | CmdResume _ => ("resume", None)
  | CmdCancel _ reason => ("cancel", Some reason)
  | CmdCancelNode _ _ reason => ("cancel_node", Some reason)
  | CmdSubmitApproval _ _ _ => ("submit_approval", None)
  | CmdResolveExternal _ _ _ _ => ("resolve_external", None)
  | CmdReplan _ reason _ => ("replan", Some reason)
  end%string.

(** [validate_replan] *)
Definition validate_replan (g : ExecutionGraph) (nodes : list ExecutionNodeSpec) :
  CommitResult unit :=
  guard_err
    (bool_decide (nodes = [])
     || negb (bool_decide (NoDup (ns_id <$> nodes)))
     || existsb (fun node => memb (ns_id <$> eg_nodes g) (ns_id node)) nodes)
    (CeInvalidReplan "replan must add at least one uniquely identified node").

(** The [Display] text of a validation error. *)
Definition validation_error_to_string (e : ExecutionGraphValidationError) : string :=
  match e with
  | EmptyObjective => "execution graph objective is empty"
  | DuplicateNode id => "duplicate execution node `" +:+ id +:+ "`"
  | MissingPayload id => "execution node `" +:+ id +:+ "` has no payload reference"
  | MissingExecutor id => "execution node `" +:+ id +:+ "` has no executor binding"
  | MissingNode id => "execution edge references missing node `" +:+ id +:+ "`"
  | Cycle => "execution graph contains a dependency cycle"
  | TimerUnavailable => "timer executor is unavailable before schedule support is installed"
  | InvalidDependencyPolicy id reason =>
      "execution node `" +:+ id +:+ "` has invalid dependency policy: " +:+ reason
  | OptionalEffectOwner id =>
      "optional execution node `" +:+ id +:+ "` may own a critical or mutating effect"
  | InvalidWorkContract id reason =>
      "execution node `" +:+ id +:+ "` has invalid work contract: " +:+ reason
  end.

(** [validate_execution_graph(&next).map_err(f)?].  Validation always returns
    ([Validation.validate_total]), so the last branch is never taken. *)
Definition require_valid (f : string -> ExecutionCommitError) (g : ExecutionGraph) :
  CommitResult unit :=
  match validate_execution_graph g with
  | Done (Ok _) => Ok tt
  | Done (Err e) => Err (f (validation_error_to_string e))
  | Panic | OutOfFuel => Err (f "panic")
  end.

(** [validated_graph_lineage] *)
Definition validated_graph_lineage (g : ExecutionGraph) : CommitResult ExecutionGraphLineage :=
  lineage ← ok_or (CeInvalidCommand ("execution graph `" +:+ eg_id g
                    +:+ "` is missing canonical business lineage")) (eg_lineage g);
  _ ← map_err (fun error => CeInvalidCommand ("execution graph `" +:+ eg_id g
                 +:+ "` has invalid canonical business lineage: " +:+ error))
        (lineage_validate lineage);
  Ok lineage.

Definition execution_activity_id (graph_id : string) : string := "activity:execution:" +:+ graph_id.

(** [root_activity_binding] *)
Definition root_activity_binding (g : ExecutionGraph) : CommitResult RuntimeActivityBinding :=
  lineage ← validated_graph_lineage g;
  let parent := (fun p => execution_activity_id (pb_execution_id p) +:+ ":node:"
                          +:+ pb_node_id p) <$> eg_parent_execution g in
  Ok {| rab_root_execution_id := eg_id g; rab_session_id := gl_session_id lineage;
        rab_turn_id := gl_turn_id lineage; rab_root_task_id := gl_root_task_id lineage;
        rab_task_id := gl_task_id lineage; rab_activity_id := execution_activity_id (eg_id g);
        rab_node_id := None; rab_parent_activity_id := parent;
        rab_initiator_activity_id := parent; rab_team_run_id := None;
        rab_agent_instance_id := None; rab_agent_run_id := None; rab_skill_id := None;
        rab_skill_revision := None; rab_skill_activation_id := None;
        rab_tool_contract_id := None; rab_tool_call_id := None; rab_approval_id := None;
        rab_parallel_group_id := None; rab_revision := N.max (eg_revision g) 1;
        rab_fence := N.max (eg_revision g) 1; rab_generation := gl_generation lineage |}.

(** [node_activity_binding] *)
Definition node_activity_binding (g : ExecutionGraph) (node_id : string) :
  CommitResult RuntimeActivityBinding :=
  lineage ← validated_graph_lineage g;
  let root := execution_activity_id (eg_id g) in
  Ok {| rab_root_execution_id := eg_id g; rab_session_id := gl_session_id lineage;
        rab_turn_id := gl_turn_id lineage; rab_root_task_id := gl_root_task_id lineage;
        rab_task_id := gl_task_id lineage; rab_activity_id := root +:+ ":node:" +:+ node_id;
        rab_node_id := Some node_id; rab_parent_activity_id := Some root;
        rab_initiator_activity_id := Some root; rab_team_run_id := None;
        rab_agent_instance_id := None; rab_agent_run_id := None; rab_skill_id := None;
        rab_skill_revision := None; rab_skill_activation_id := None;
        rab_tool_contract_id := None; rab_tool_call_id := None; rab_approval_id := None;
        rab_parallel_group_id := None; rab_revision := N.max (eg_revision g) 1;
        rab_fence := N.max (eg_revision g) 1; rab_generation := gl_generation lineage |}.

(** The order of [graph_identity_refs]: by kind, then by id. *)
Definition ref_le (a b : RuntimeEventRef) : Prop :=
  if decide (ref_kind a = ref_kind b) then str_le (ref_id a) (ref_id b)
  else str_le (ref_kind a) (ref_kind b).

#[export] Instance ref_le_dec : RelDecision ref_le.
Proof. intros a b. unfold ref_le. destruct (decide _); apply _. Defined.

(** [Vec::dedup_by] on adjacent equal entries. *)
Fixpoint dedup {A} `{EqDecision A} (l : list A) : list A :=
  match l with
  | [] => []
  | x :: l' =>
      match dedup l' with
      | [] => [x]
      | y :: r => if decide (x = y) then y :: r else x :: y :: r
      end
  end.

Section CommitService.
Context {Value S : Type} `{EqDecision Value} `{Json Value} `{EventBackend Value S}
  `{CommitEnv Value S} `{MemLayout}.

Abbreviation EventInput := (RuntimeTransactionEventInput Value).

Definition event_ref (kind id : string) : RuntimeEventRef := {| ref_kind := kind; ref_id := id |}.

(** [graph_identity_refs] *)
Definition packet_refs (p : AgentPacketIdentity) : list RuntimeEventRef :=
  [event_ref "principal" (pk_principal_id p); event_ref "workspace" (pk_workspace_id p);
   event_ref "mission" (pk_mission_id p); event_ref "task" (pk_task_id p);
   event_ref "session" (pk_session_id p); event_ref "agent_run" (pk_run_id p);
   event_ref "execution_node" (pk_node_id p)]
  ++ match pk_turn_id p with Some t => [event_ref "turn" t] | None => [] end
  ++ match pk_team_id p with Some t => [event_ref "team_run" t] | None => [] end.

Definition graph_identity_refs (g : ExecutionGraph) : list RuntimeEventRef :=
  let packets :=
    omap (fun node => agent_packet_from_str (ns_payload_ref node))
      (List.filter (fun node => bool_decide (ns_kind node = AgentTask)) (eg_nodes g)) in
  dedup (merge_sort ref_le (event_ref "execution_graph" (eg_id g) :: (packets ≫= packet_refs))).

(** [validate_executor_domain_events] *)
Definition executor_scope_allowed (s : RuntimeEventScope) : bool :=
  match s with
  | ScExecutionNode | ScGoal | ScSessionInput | ScRelation | ScTeam | ScApproval => true
  | _ => false
  end.

Definition validate_executor_domain_events (events : list EventInput) : CommitResult unit :=
  match List.find (fun e => negb (executor_scope_allowed (in_scope (te_event e)))
                            && negb (is_controlled_recovery_terminal_event (te_event e)))
          events with
  | Some e => Err (CeProtectedDomainScope (scope_as_str (in_scope (te_event e))))
  | None => Ok tt
  end.

(** [node_transition_event] *)
Definition node_transition_event (g : ExecutionGraph) (node_id : string)
    (from to : ExecutionNodeStatus) (result : option ExecutionNodeResult) :
  CommitResult EventInput :=
  binding ← node_activity_binding g node_id;
  event ← map_err CeEventStore (with_activity_binding
    {| in_stream_id := node_stream_id (eg_id g) node_id; in_scope := ScExecutionNode;
       in_kind := "execution_node.transitioned"; in_status := Some (status_name to);
       in_actor := Some "execution_commit_service"%string;
       in_refs := [event_ref "execution_graph" (eg_id g)];
       in_payload := value_object
         [("graph_id", value_string (eg_id g)); ("node_id", value_string node_id);
          ("from", status_to_value from); ("to", status_to_value to);
          ("result", result_to_value result);
          ("graph_revision", value_u64 (eg_revision g))]%string |} binding);
  Ok {| te_event := event;
        te_idempotency_key :=
          Some (eg_id g +:+ ":" +:+ node_id +:+ ":" +:+ pretty (eg_revision g));
        te_schema_version := 1 |}.

(** [execution_effect_intent_event], [execution_effect_receipt_event] *)
Definition effect_event (ticket : NodeExecutionTicket) (kind status suffix : string)
    (payload : Value) : EventInput :=
  {| te_event :=
       {| in_stream_id := "execution-effect:" +:+ tk_idempotency_key ticket;
          in_scope := ScExecutionNode; in_kind := kind; in_status := Some status;
          in_actor := Some (tk_executor_kind ticket);
          in_refs := [event_ref "execution_node" (tk_node_id ticket)];
          in_payload := payload |};
     te_idempotency_key := Some (tk_idempotency_key ticket +:+ suffix);
     te_schema_version := 1 |}.

Definition execution_effect_intent_event (ticket : NodeExecutionTicket) : EventInput :=
  effect_event ticket "execution.effect.intent" "inflight" ":intent" (ticket_to_value ticket).

Definition execution_effect_receipt_event (ticket : NodeExecutionTicket)
    (outcome : NodeExecutionOutcome Value) : EventInput :=
  effect_event ticket "execution.effect.receipt" "completed" ":receipt"
    (outcome_to_value outcome).

(** [expected_domain_revision] *)
Definition expected_domain_revision (s : S) (stream_id transaction_id idempotency_key : string) :
  N :=
  match eb_event_by_key s stream_id idempotency_key with
  | None => eb_stream_revision s stream_id
  | Some existing =>
      if negb (String.eqb (ev_transaction_id existing) transaction_id)
      then eb_stream_revision s stream_id
      else match ev_sequence <$>
                 List.filter (fun e => String.eqb (ev_transaction_id e) transaction_id)
                   (eb_list_stream s stream_id) with
           | [] => eb_stream_revision s stream_id
           | first :: rest => (foldr N.min first rest - 1)%N
           end
  end.

(** ** Appending a prepared mutation *)

Record Prepared := {
  pr_next : ExecutionGraph;
  pr_expected : N;
  pr_transaction_id : string;
  pr_event : ExecutionGraphEvent;
  pr_domain : list EventInput;
  pr_domain_revisions : gmap string N
}.

Record CommitState := {
  sv_store : S;
  sv_hot : HotGraphs;
  sv_materializer : list DerivedMaterialization
}.

(** The expected-stream list: the graph stream, the domain streams in order of
    first use, then the read-only causal dependencies. *)
Definition add_domain_stream (s : S) (p : Prepared)
    (acc : list ExpectedStreamRevision * list string) (e : EventInput) :
  CommitResult (list ExpectedStreamRevision * list string) :=
  let stream := in_stream_id (te_event e) in
  if memb acc.2 stream then Ok acc
  else
    key ← ok_or (CeMissingDomainIdempotency stream) (te_idempotency_key e);
    let revision :=
      match pr_domain_revisions p !! stream with
      | Some revision => revision
      | None => expected_domain_revision s stream (pr_transaction_id p) key
      end in
    Ok (acc.1 ++ [{| es_stream_id := stream; es_expected_revision := revision |}],
        stream :: acc.2).

Definition add_dependency (acc : list ExpectedStreamRevision * list string)
    (entry : string * N) : list ExpectedStreamRevision * list string :=
  if memb acc.2 entry.1 then acc
  else (acc.1 ++ [{| es_stream_id := entry.1; es_expected_revision := entry.2 |}],
        entry.1 :: acc.2).

Definition expected_streams (s : S) (p : Prepared) :
  CommitResult (list ExpectedStreamRevision) :=
  let id := eg_id (pr_next p) in
  acc ← try_fold (add_domain_stream s p)
          ([{| es_stream_id := id; es_expected_revision := pr_expected p |}], [id])
          (pr_domain p);
  Ok (foldl add_dependency acc (btree_entries (pr_domain_revisions p))).1.

(** The graph event of the transaction. *)
Definition graph_input (g : ExecutionGraph) (event : ExecutionGraphEvent) :
  CommitResult EventInput :=
  binding ← root_activity_binding g;
  input ← map_err CeEventStore (with_activity_binding
    {| in_stream_id := eg_id g; in_scope := ScExecutionGraph; in_kind := event_kind event;
       in_status := Some (graph_status g);
       in_actor := Some "execution_commit_service"%string;
       in_refs := graph_identity_refs g; in_payload := event_to_value event |} binding);
  Ok {| te_event := input;
        te_idempotency_key := Some (eg_id g +:+ ":revision:" +:+ pretty (eg_revision g));
        te_schema_version := 1 |}.

Definition find_terminal (events : list EventInput) : option SessionTerminalInput :=
  head (omap (fun e =>
    if String.eqb (in_kind (te_event e)) "runtime.session.terminal_requested"
    then session_terminal_from_value (in_payload (te_event e)) else None) events).

(** The request of a prepared mutation, with all checks before the append. *)
Definition prepare_request (s : S) (p : Prepared) :
  CommitResult (AppendTransactionRequest Value * option SessionTerminalInput) :=
  let g := pr_next p in
  _ ← validated_graph_lineage g;
  _ ← guard_err (existsb (fun e => String.eqb (in_stream_id (te_event e)) (eg_id g))
                   (pr_domain p)) (CeGraphStreamCollision (eg_id g));
  _ ← match List.find (fun e => bool_decide (te_idempotency_key e = None)) (pr_domain p) with
      | Some e => Err (CeMissingDomainIdempotency (in_stream_id (te_event e)))
      | None => Ok tt
      end;
  streams ← expected_streams s p;
  input ← graph_input g (maybe_checkpoint g (pr_event p));
  Ok ({| rq_transaction_id := pr_transaction_id p; rq_expected_streams := streams;
         rq_events := input :: pr_domain p |},
      find_terminal (pr_domain p)).

(** [append_graph_event_with_expected_domain_revisions] *)
Definition append_graph_event (p : Prepared) (st : CommitState) :
  CommitResult ExecutionCommitReceipt * CommitState :=
  match prepare_request (sv_store st) p with
  | Err e => (Err e, st)
  | Ok (request, terminal) =>
      match eb_append request terminal (sv_store st) with
      | (Err e, store') =>
          (Err (CeEventStore e),
           {| sv_store := store'; sv_hot := sv_hot st; sv_materializer := sv_materializer st |})
      | (Ok transaction, store') =>
          let committed := set_commit_cursor (pr_next p) (rcp_commit_cursor transaction) in
          (Ok {| cr_graph := committed; cr_transaction := transaction |},
           {| sv_store := store';
              sv_hot := (publish_snapshot committed (sv_hot st)).2;
              sv_materializer := sv_materializer st ++
                [{| dm_key := "execution-graph:" +:+ eg_id committed;
                    dm_revision := eg_revision committed;
                    dm_commit_cursor := rcp_commit_cursor transaction |}] |})
      end
  end.

(** [append_graph_event_retrying_lineage_conflicts]: eight attempts, retried
    only when a lineage stream moved. *)
Definition lineage_streams (events : list EventInput) : list string :=
  List.filter (fun id => starts_with id "execution-lineage:")
    ((fun e => in_stream_id (te_event e)) <$> events).

(** [is_lineage_stream_conflict] *)
Definition is_lineage_stream_conflict (e : ExecutionCommitError) (streams : list string) : bool :=
  match e with
  | CeEventStore (StoreStaleRevision stream _ _) => memb streams stream
  | _ => false
  end.

(** [for _ in 0..attempts]: only a [conflict] is tried again. *)
Fixpoint retry_conflicts (attempts : nat) (conflict : ExecutionCommitError -> bool)
    (attempt : CommitState -> CommitResult ExecutionCommitReceipt * CommitState)
    (last_conflict : ExecutionCommitError) (st : CommitState) :
  CommitResult ExecutionCommitReceipt * CommitState :=
  match attempts with
  | 0 => (Err last_conflict, st)
  | Datatypes.S attempts' =>
      match attempt st with
      | (Ok receipt, st') => (Ok receipt, st')
      | (Err e, st') =>
          if conflict e then retry_conflicts attempts' conflict attempt e st'
          else (Err e, st')
      end
  end.

Definition append_graph_event_retrying_lineage_conflicts (p : Prepared) (st : CommitState) :
  CommitResult ExecutionCommitReceipt * CommitState :=
  match lineage_streams (pr_domain p) with
  | [] => append_graph_event p st
  | streams =>
      retry_conflicts 8 (fun e => is_lineage_stream_conflict e streams) (append_graph_event p)
        (CeInvalidReplan "lineage transition retry exhausted without a conflict receipt") st
  end.

(** Run a preparation, then append what it prepared. *)
Definition commit (append : Prepared -> CommitState ->
                    CommitResult ExecutionCommitReceipt * CommitState)
    (prepared : CommitResult Prepared) (st : CommitState) :
  CommitResult ExecutionCommitReceipt * CommitState :=
  match prepared with
  | Err e => (Err e, st)
  | Ok p => append p st
  end.

(** ** Operations *)

(** [crate::knowledge_candidate_projector::team_terminal_candidate] and its
    proposal event, as an optional extra domain event. *)
Definition candidate_events (next : ExecutionGraph) (node_id : string)
    (to : ExecutionNodeStatus) : CommitResult (list EventInput) :=
  event ← map_err CeInvalidCommand
            (team_terminal_event next node_id to (eg_node_results next !! node_id));
  Ok match event with Some e => [e] | None => [] end.

Definition current_status (g : ExecutionGraph) (node_id : string) :
  CommitResult ExecutionNodeStatus :=
  ok_or (CeTransition (NodeNotFound node_id)) (eg_node_statuses g !! node_id).

Definition transition_checked (g : ExecutionGraph) (node_id : string)
    (to : ExecutionNodeStatus) (result : option ExecutionNodeResult) :
  CommitResult ExecutionGraph :=
  map_err CeTransition (apply_node_transition g (eg_revision g) node_id to result).

(** The attempt counter: [entry(node_id).or_default()], incremented when the
    node starts running. *)
Definition count_attempt (g : ExecutionGraph) (node_id : string) (to : ExecutionNodeStatus) :
  ExecutionGraph :=
  let attempt := default 0%N (rc_node_attempts (eg_recovery_cursor g) !! node_id) in
  set_attempt g node_id
    (if decide (to = Running) then u32_saturating_add attempt 1 else attempt).

(** [transition_node] *)
Definition prepare_transition_node (g : ExecutionGraph) (node_id : string)
    (to : ExecutionNodeStatus) (result : option ExecutionNodeResult)
    (domain_events : list EventInput) : CommitResult Prepared :=
  _ ← validate_executor_domain_events domain_events;
  from ← current_status g node_id;
  next0 ← transition_checked g node_id to result;
  let next := count_attempt next0 node_id to in
  node_event ← node_transition_event next node_id from to result;
  candidate ← candidate_events next node_id to;
  Ok {| pr_next := next; pr_expected := eg_revision g;
        pr_transaction_id := eg_id g +:+ ":" +:+ node_id +:+ ":" +:+ pretty (eg_revision next)
                             +:+ ":" +:+ pretty (status_u8 to);
        pr_event := EvNodeTransitioned node_id from to result None (delta_between g next);
        pr_domain := node_event :: domain_events ++ candidate;
        pr_domain_revisions := ∅ |}.

Definition transition_node g node_id to result domain_events st :=
  commit append_graph_event_retrying_lineage_conflicts
    (prepare_transition_node g node_id to result domain_events) st.

(** [bind_and_start_node] *)
Definition prepare_bind_and_start_node (g : ExecutionGraph) (node_id : string)
    (binding : ExecutionNodeBinding) : CommitResult Prepared :=
  from ← current_status g node_id;
  next0 ← transition_checked g node_id Running None;
  let next := set_attempt next0 node_id (nb_attempt binding) in
  node_event ← node_transition_event next node_id from Running None;
  Ok {| pr_next := next; pr_expected := eg_revision g;
        pr_transaction_id := eg_id g +:+ ":" +:+ node_id +:+ ":" +:+ pretty (eg_revision next)
                             +:+ ":bound";
        pr_event := EvNodeTransitioned node_id from Running None (Some binding)
                      (delta_between g next);
        pr_domain := [node_event]; pr_domain_revisions := ∅ |}.

Definition bind_and_start_node g node_id binding st :=
  commit append_graph_event (prepare_bind_and_start_node g node_id binding) st.

(** [bind_and_start_nodes]: one wave, one revision. *)
Definition start_one (acc : ExecutionGraph * list (string * ExecutionNodeStatus))
    (entry : string * ExecutionNodeBinding) :
  CommitResult (ExecutionGraph * list (string * ExecutionNodeStatus)) :=
  let '(next, started) := acc in
  let '(node_id, binding) := entry in
  from ← current_status next node_id;
  next' ← transition_checked next node_id Running None;
  Ok (set_attempt next' node_id (nb_attempt binding), started ++ [(node_id, from)]).

Definition collect_events {A} (f : A -> CommitResult EventInput) (l : list A) :
  CommitResult (list EventInput) :=
  try_fold (fun acc x => e ← f x; Ok (acc ++ [e])) [] l.

Definition prepare_bind_and_start_nodes (g : ExecutionGraph)
    (bindings : gmap string ExecutionNodeBinding) (tickets : list NodeExecutionTicket) :
  CommitResult Prepared :=
  _ ← guard_err (bool_decide (bindings = ∅))
        (CeInvalidCommand "cannot start an empty execution wave");
  wave ← try_fold start_one (g, []) (btree_entries bindings);
  let next := set_revision wave.1 (u64_saturating_add (eg_revision g) 1) in
  events ← collect_events (fun nf => node_transition_event next nf.1 nf.2 Running None) wave.2;
  Ok {| pr_next := next; pr_expected := eg_revision g;
        pr_transaction_id := eg_id g +:+ ":wave:" +:+ pretty (eg_revision next) +:+ ":started";
        pr_event := EvNodesStarted bindings (delta_between g next);
        pr_domain := events ++ (execution_effect_intent_event <$> tickets);
        pr_domain_revisions := ∅ |}.

Definition bind_and_start_nodes g bindings tickets st :=
  commit append_graph_event (prepare_bind_and_start_nodes g bindings tickets) st.

(** [transition_nodes]: a terminal wave. *)
Definition terminate_one
    (acc : ExecutionGraph * list (string * ExecutionNodeStatus * ExecutionNodeStatus))
    (t : ExecutionTerminalCommit Value) :
  CommitResult (ExecutionGraph * list (string * ExecutionNodeStatus * ExecutionNodeStatus)) :=
  let '(next, facts) := acc in
  let outcome := tc_outcome t in
  _ ← guard_err (bool_decide (is_Some (oc_replan outcome))
                 || bool_decide (is_Some (oc_delivery_envelope outcome))
                 || bool_decide (is_Some (oc_terminal_presentation outcome)))
        (CeInvalidCommand ("node `" +:+ tc_node_id t
           +:+ "` carries a non-batchable terminal mutation"));
  from ← current_status next (tc_node_id t);
  let to := nr_status (oc_result outcome) in
  next' ← transition_checked next (tc_node_id t) to (Some (oc_result outcome));
  Ok (next', facts ++ [(tc_node_id t, from, to)]).

Definition terminal_events (next : ExecutionGraph) (acc : list EventInput)
    (tf : ExecutionTerminalCommit Value * (string * ExecutionNodeStatus * ExecutionNodeStatus)) :
  CommitResult (list EventInput) :=
  let '(t, (node_id, from, to)) := tf in
  node_event ← node_transition_event next node_id from to (Some (oc_result (tc_outcome t)));
  candidate ← candidate_events next node_id to;
  Ok (acc ++ [node_event] ++ oc_domain_events (tc_outcome t) ++ candidate
      ++ match tc_effect_ticket t with
         | Some ticket => [execution_effect_receipt_event ticket (tc_outcome t)]
         | None => []
         end).

Definition prepare_transition_nodes (g : ExecutionGraph)
    (transitions : list (ExecutionTerminalCommit Value)) : CommitResult Prepared :=
  _ ← guard_err (bool_decide (length transitions = 0))
        (CeInvalidCommand "cannot commit an empty terminal wave");
  _ ← try_fold (fun _ t => validate_executor_domain_events (oc_domain_events (tc_outcome t)))
        tt transitions;
  wave ← try_fold terminate_one (g, []) transitions;
  let next := set_revision wave.1 (u64_saturating_add (eg_revision g) 1) in
  events ← try_fold (terminal_events next) [] (zip transitions wave.2);
  Ok {| pr_next := next; pr_expected := eg_revision g;
        pr_transaction_id := eg_id g +:+ ":wave:" +:+ pretty (eg_revision next) +:+ ":terminal";
        pr_event := EvNodesTransitioned (tc_node_id <$> transitions) (delta_between g next);
        pr_domain := events; pr_domain_revisions := ∅ |}.

Definition transition_nodes g transitions st :=
  commit append_graph_event (prepare_transition_nodes g transitions) st.

(** [transition_node_with_replan] *)
Definition prepare_transition_node_with_replan (g : ExecutionGraph) (node_id : string)
    (result : ExecutionNodeResult) (domain_events : list EventInput)
    (nodes : list ExecutionNodeSpec) (edges : list ExecutionEdge) (reason : string) :
  CommitResult Prepared :=
  _ ← validate_executor_domain_events domain_events;
  _ ← validate_replan g nodes;
  from ← current_status g node_id;
  let to := nr_status result in
  next0 ← transition_checked g node_id to (Some result);
  let next := extend_topology next0 nodes edges in
  _ ← require_valid CeInvalidReplan next;
  node_event ← node_transition_event next node_id from to (Some result);
  candidate ← candidate_events next node_id to;
  Ok {| pr_next := next; pr_expected := eg_revision g;
        pr_transaction_id := eg_id g +:+ ":" +:+ node_id +:+ ":" +:+ pretty (eg_revision next)
                             +:+ ":terminal-replan";
        pr_event := EvNodeTransitionedAndReplanned node_id from to result reason
                      (ns_id <$> nodes) (delta_between g next);
        pr_domain := node_event :: domain_events ++ candidate; pr_domain_revisions := ∅ |}.

Definition transition_node_with_replan g node_id result domain nodes edges reason st :=
  commit append_graph_event_retrying_lineage_conflicts
    (prepare_transition_node_with_replan g node_id result domain nodes edges reason) st.

(** [replan] *)
Definition prepare_replan (g : ExecutionGraph) (nodes : list ExecutionNodeSpec)
    (edges : list ExecutionEdge) (reason : string) : CommitResult Prepared :=
  _ ← validate_replan g nodes;
  let next := set_revision (extend_topology g nodes edges)
                (u64_saturating_add (eg_revision g) 1) in
  _ ← require_valid CeInvalidReplan next;
  Ok {| pr_next := next; pr_expected := eg_revision g;
        pr_transaction_id := eg_id g +:+ ":replan:" +:+ pretty (eg_revision next);
        pr_event := EvReplanned reason (ns_id <$> nodes) (delta_between g next);
        pr_domain := []; pr_domain_revisions := ∅ |}.

Definition replan g nodes edges reason st :=
  commit append_graph_event (prepare_replan g nodes edges reason) st.

(** [retarget_planned_graph] *)
Definition retarget_next (g replacement : ExecutionGraph) : ExecutionGraph :=
  {| eg_id := eg_id replacement;
     eg_revision := u64_saturating_add (eg_revision g) 1;
     eg_objective := eg_objective replacement;
     eg_service_class := eg_service_class replacement;
     eg_parent_execution := eg_parent_execution replacement;
     eg_lineage := eg_lineage replacement;
     eg_continuation_binding := eg_continuation_binding replacement;
     eg_nodes := eg_nodes replacement; eg_edges := eg_edges replacement;
     eg_node_statuses := plan_statuses (eg_nodes replacement) ∅; eg_node_results := ∅;
     eg_recovery_cursor := eg_recovery_cursor g;
     eg_delivery_envelope := eg_delivery_envelope replacement;
     eg_terminal_presentation := eg_terminal_presentation replacement |}.

Definition prepare_retarget (g replacement : ExecutionGraph) (reason : string) :
  CommitResult Prepared :=
  _ ← guard_err (bool_decide (eg_nodes g = [])
                 || existsb (fun s => negb (bool_decide (s = Planned)))
                      (btree_values (eg_node_statuses g))
                 || negb (bool_decide (eg_node_results g = ∅))
                 || bool_decide (eg_nodes replacement = [])
                 || negb (String.eqb (eg_id replacement) (eg_id g)))
        (CeInvalidReplan
           "strategy retarget requires the same non-empty graph id before any node starts");
  let next := retarget_next g replacement in
  _ ← require_valid CeInvalidReplan next;
  Ok {| pr_next := next; pr_expected := eg_revision g;
        pr_transaction_id := eg_id g +:+ ":strategy-retarget:" +:+ pretty (eg_revision next);
        pr_event := EvReplanned reason (ns_id <$> eg_nodes next) (delta_between g next);
        pr_domain := []; pr_domain_revisions := ∅ |}.

Definition retarget_planned_graph g replacement reason st :=
  commit append_graph_event (prepare_retarget g replacement reason) st.

(** *** Commands *)

Definition external_result (result_ref : string) : ExecutionNodeResult :=
  {| nr_status := Completed; nr_result_ref := Some result_ref; nr_summary := None;
     nr_evidence_refs := []; nr_failure := None; nr_usage := ExecutionUsage_default;
     nr_finished_at_ms := now_ms |}.

Definition pause_status (s : ExecutionNodeStatus) : ExecutionNodeStatus :=
  match s with Ready | Running => Paused | _ => s end.
Definition resume_status (s : ExecutionNodeStatus) : ExecutionNodeStatus :=
  match s with Paused => Ready | _ => s end.
Definition cancel_status (s : ExecutionNodeStatus) : ExecutionNodeStatus :=
  if is_terminal s then s else Cancelled.

(** The status mutation of a command, and the external resolution it records. *)
Definition command_mutation (g : ExecutionGraph) (c : ExecutionGraphCommand) :
  CommitResult (ExecutionGraph * option (string * string * string)) :=
  let statuses := eg_node_statuses g in
  match c with
  | CmdStart _ => Ok (g, None)
  | CmdPause _ _ => Ok (set_statuses g (pause_status <$> statuses), None)
  | CmdResume _ | CmdAdvance _ => Ok (set_statuses g (resume_status <$> statuses), None)
  | CmdCancel _ _ => Ok (set_statuses g (cancel_status <$> statuses), None)
  | CmdCancelNode _ node_id _ =>
      status ← ok_or (CeInvalidCommand ("cancel target node `" +:+ node_id
                       +:+ "` does not exist")) (statuses !! node_id);
      Ok (set_statuses g (<[node_id := cancel_status status]> statuses), None)
  | CmdSubmitApproval _ node_id decision =>
      status ← ok_or (CeInvalidCommand ("approval node `" +:+ node_id
                       +:+ "` does not exist")) (statuses !! node_id);
      _ ← guard_err (negb (bool_decide (status = WaitingApproval)))
            (CeInvalidCommand ("node `" +:+ node_id +:+ "` is not waiting for approval"));
      Ok (set_statuses g
            (<[node_id := if ad_approved decision then Ready else Cancelled]> statuses), None)
  | CmdResolveExternal _ node_id result_ref correlation_id =>
      status ← ok_or (CeInvalidCommand ("external result node `" +:+ node_id
                       +:+ "` does not exist")) (statuses !! node_id);
      _ ← guard_err (negb (bool_decide (status = WaitingExternal)))
            (CeInvalidCommand ("node `" +:+ node_id
               +:+ "` is not waiting for an external result"));
      Ok (graph_with g (eg_revision g) (eg_nodes g) (eg_edges g)
            (<[node_id := Completed]> statuses)
            (<[node_id := external_result result_ref]> (eg_node_results g))
            (rc_node_attempts (eg_recovery_cursor g)),
          Some (node_id, result_ref, correlation_id))
  | CmdReplan _ _ _ =>
      Err (CeInvalidCommand
             "replan requires the graph compiler and cannot be applied as a status mutation")
  end.

(** One transition event per changed status; [graph.node_statuses[id]] panics
    when the node is unknown to the previous graph. *)
Fixpoint changed_events (g next : ExecutionGraph)
    (entries : list (string * ExecutionNodeStatus)) : Exec (CommitResult (list EventInput)) :=
  match entries with
  | [] => Done (Ok [])
  | (node_id, to) :: rest =>
      match eg_node_statuses g !! node_id with
      | None => Panic
      | Some from =>
          if decide (from = to) then changed_events g next rest
          else match node_transition_event next node_id from to None with
               | Err e => Done (Err e)
               | Ok event =>
                   r ← changed_events g next rest;
                   Done (events ← r; Ok (event :: events))
               end
      end
  end.

Definition external_resolution_event (g : ExecutionGraph)
    (resolution : string * string * string) : EventInput :=
  let '(node_id, result_ref, correlation_id) := resolution in
  {| te_event :=
       {| in_stream_id := "session-handoff-correlation:" +:+ correlation_id;
          in_scope := ScSessionInput; in_kind := "session.handoff.source_resolved.v1";
          in_status := Some "completed"%string; in_actor := Some "ExecutionGraphRunner"%string;
          in_refs := [event_ref "execution_graph" (eg_id g); event_ref "execution_node" node_id];
          in_payload := value_object
            [("result_ref", value_string result_ref);
             ("correlation_id", value_string correlation_id)]%string |};
     te_idempotency_key := Some ("session-handoff-source-resolved:" +:+ eg_id g +:+ ":"
                                 +:+ node_id +:+ ":" +:+ correlation_id);
     te_schema_version := 1 |}.

(** [graph_approval_id] ([executors/approval.rs]) *)
Definition graph_approval_id (graph_id node_id : string) : string :=
  "approval:v1:" +:+ url_safe_no_pad graph_id +:+ ":" +:+ url_safe_no_pad node_id.

Definition approval_events (s : S) (g : ExecutionGraph) (c : ExecutionGraphCommand) :
  CommitResult (list EventInput * gmap string N) :=
  match c with
  | CmdSubmitApproval _ node_id decision =>
      _ ← guard_err (negb (String.eqb (ad_approval_id decision)
                             (graph_approval_id (eg_id g) node_id)))
            (CeInvalidCommand ("approval decision `" +:+ ad_approval_id decision
               +:+ "` does not own graph node `" +:+ node_id +:+ "`"));
      prepared ← map_err CeInvalidCommand
                   (canonical_graph_decision_events s decision now_ms);
      Ok (prepared.2, {[prepared.1.1 := prepared.1.2]})
  | _ => Ok ([], ∅)
  end.

(** [validate_command_revision] *)
Definition validate_command_revision (g : ExecutionGraph) (c : ExecutionGraphCommand) :
  CommitResult unit :=
  guard_err (negb (command_revision c =? eg_revision g)%N)
    (CeStaleRevision (eg_id g) (command_revision c) (eg_revision g)).

Definition command_next (g : ExecutionGraph) (c : ExecutionGraphCommand) :
  CommitResult (ExecutionGraph * option (string * string * string)) :=
  _ ← validate_command_revision g c;
  mutated ← command_mutation g c;
  let next := set_revision mutated.1 (u64_saturating_add (eg_revision mutated.1) 1) in
  _ ← require_valid (fun error => CeInvalidCommand
                       ("graph command violates execution invariants: " +:+ error)) next;
  Ok (next, mutated.2).

(** [apply_command] *)
Definition prepare_command (s : S) (g : ExecutionGraph) (c : ExecutionGraphCommand) :
  Exec (CommitResult Prepared) :=
  match command_next g c with
  | Err e => Done (Err e)
  | Ok (next, resolution) =>
      r ← changed_events g next (btree_entries (eg_node_statuses next));
      Done (node_events ← r;
            approval ← approval_events s g c;
            let external := match resolution with
                            | Some x => [external_resolution_event g x]
                            | None => []
                            end in
            Ok {| pr_next := next; pr_expected := eg_revision g;
                  pr_transaction_id := eg_id g +:+ ":command:" +:+ (command_metadata c).1
                                       +:+ ":" +:+ pretty (eg_revision next);
                  pr_event := EvCommandApplied (command_metadata c).1 (command_metadata c).2
                                (delta_between g next);
                  pr_domain := node_events ++ external ++ approval.1;
                  pr_domain_revisions := approval.2 |})
  end.

Definition commit_exec (prepared : Exec (CommitResult Prepared)) (st : CommitState) :
  Exec (CommitResult ExecutionCommitReceipt * CommitState) :=
  p ← prepared; Done (commit append_graph_event p st).

Definition apply_command (g : ExecutionGraph) (c : ExecutionGraphCommand) (st : CommitState) :=
  commit_exec (prepare_command (sv_store st) g c) st.

(** [commit_recovery] *)
Definition prepare_recovery (g next0 : ExecutionGraph) (recovered blocked : list string) :
  Exec (CommitResult Prepared) :=
  let next := set_revision next0 (u64_saturating_add (eg_revision g) 1) in
  r ← changed_events g next (btree_entries (eg_node_statuses next));
  Done (events ← r;
        Ok {| pr_next := next; pr_expected := eg_revision g;
              pr_transaction_id := eg_id g +:+ ":recovery:" +:+ pretty (eg_revision next);
              pr_event := EvRecovered recovered blocked (delta_between g next);
              pr_domain := events; pr_domain_revisions := ∅ |}).

Definition commit_recovery g next recovered blocked (st : CommitState) :=
  commit_exec (prepare_recovery g next recovered blocked) st.

(** [ExecutionGraphRecovery::recover] ([recovery.rs]): running nodes become
    ready again (their executor reattaches the same attempt) or are blocked
    when the executor is gone.  [reattach] is the executor registry: [None]
    for an unknown kind, otherwise the outcome of [executor.recover]. *)
Definition recover_ticket (g : ExecutionGraph) (node : ExecutionNodeSpec) : NodeExecutionTicket :=
  {| tk_graph_id := eg_id g; tk_node_id := ns_id node;
     tk_executor_kind := ns_executor_kind node; tk_service_class := eg_service_class g;
     tk_attempt := default 1%N (rc_node_attempts (eg_recovery_cursor g) !! ns_id node);
     tk_idempotency_key := ns_idempotency_key node; tk_payload_ref := ns_payload_ref node |}.

Fixpoint recover_nodes {E : Type} (reattach : NodeExecutionTicket -> option (Result E unit))
    (g next : ExecutionGraph) (recovered blocked : list string)
    (nodes : list ExecutionNodeSpec) :
  Exec (Result E (ExecutionGraph * list string * list string)) :=
  match nodes with
  | [] => Done (Ok (next, recovered, blocked))
  | node :: rest =>
      match eg_node_statuses g !! ns_id node with
      | None => Panic
      | Some Running =>
          match reattach (recover_ticket g node) with
          | None =>
              recover_nodes reattach g
                (set_statuses next (<[ns_id node := Blocked]> (eg_node_statuses next)))
                recovered (blocked ++ [ns_id node]) rest
          | Some (Err e) => Done (Err e)
          | Some (Ok _) =>
              recover_nodes reattach g
                (set_statuses next (<[ns_id node := Ready]> (eg_node_statuses next)))
                (recovered ++ [ns_id node]) blocked rest
          end
      | Some _ => recover_nodes reattach g next recovered blocked rest
      end
  end.

(** *** Registration *)

(** The graph that [register_graph] commits: revision 1, all nodes planned. *)
Definition registered_graph (g : ExecutionGraph) : ExecutionGraph :=
  {| eg_id := eg_id g; eg_revision := 1; eg_objective := eg_objective g;
     eg_service_class := eg_service_class g; eg_parent_execution := eg_parent_execution g;
     eg_lineage := eg_lineage g; eg_continuation_binding := eg_continuation_binding g;
     eg_nodes := eg_nodes g; eg_edges := eg_edges g;
     eg_node_statuses := plan_statuses (eg_nodes g) ∅; eg_node_results := ∅;
     eg_recovery_cursor := ExecutionRecoveryCursor_default;
     eg_delivery_envelope := eg_delivery_envelope g;
     eg_terminal_presentation := eg_terminal_presentation g |}.

Definition lineage_registration_event (g : ExecutionGraph) (parent : ExecutionParentBinding) :
  EventInput :=
  {| te_event :=
       {| in_stream_id := execution_lineage_stream_id (pb_execution_id parent);
          in_scope := ScRelation; in_kind := "execution.lineage.child_registered.v1";
          in_status := Some "registered"%string;
          in_actor := Some "execution_commit_service"%string;
          in_refs := [event_ref "execution_graph" (pb_execution_id parent);
                      event_ref "execution_node" (pb_node_id parent);
                      event_ref "execution_graph" (eg_id g)];
          in_payload := value_object
            [("parent_execution_id", value_string (pb_execution_id parent));
             ("parent_node_id", value_string (pb_node_id parent));
             ("child_execution_id", value_string (eg_id g));
             ("child_objective", value_string (eg_objective g))]%string |};
     te_idempotency_key := Some (pb_execution_id parent +:+ ":child:" +:+ eg_id g);
     te_schema_version := 1 |}.

(** [existing_continuation_root] *)
Definition existing_continuation_root (s : S) (e : EventInput) :
  CommitResult (option string) :=
  let stream := in_stream_id (te_event e) in
  key ← ok_or (CeMissingDomainIdempotency stream) (te_idempotency_key e);
  match eb_event_by_key s stream key with
  | None => Ok None
  | Some existing =>
      let root := v ← value_get (ev_payload existing) "root_graph_id"; value_as_str v in
      match root with
      | Some graph_id =>
          if trim_is_empty graph_id
          then Err (CeInvalidCommand "existing continuation claim has no durable root graph id")
          else Ok (Some graph_id)
      | None =>
          Err (CeInvalidCommand "existing continuation claim has no durable root graph id")
      end
  end.

(** An agentic dispatch is fenced by its parent graph. *)
Definition fenced_parent (g : ExecutionGraph) : option ExecutionParentBinding :=
  match eg_parent_execution g with
  | Some parent =>
      if existsb (fun node => bool_decide (ns_kind node = AgentTask)
                   && existsb (fun scope => starts_with scope "program:")
                        (ns_resource_scopes node)) (eg_nodes g)
      then Some parent else None
  | None => None
  end.

(** The revision fence of one registration attempt. *)
Definition parent_fence (s : S) (g : ExecutionGraph) : CommitResult (gmap string N) :=
  match fenced_parent g with
  | None => Ok ∅
  | Some parent =>
      source ← map_err (fun e => CeInvalidCommand (state_store_error_to_string e))
                 (load_snapshot true s ∅ (pb_execution_id parent)).1;
      _ ← guard_err (negb (bool_decide (eg_node_statuses source = ∅))
                     && forallb is_terminal (btree_values (eg_node_statuses source)))
            (CeInvalidCommand "Agentic parent is terminal; dispatch authority has ended");
      Ok {[eg_id source := eg_revision source]}
  end.

Definition prepare_register (g : ExecutionGraph) (continuation : list EventInput)
    (fence : gmap string N) : Prepared :=
  {| pr_next := g; pr_expected := 0; pr_transaction_id := eg_id g +:+ ":planned";
     pr_event := EvPlanned g;
     pr_domain := match eg_parent_execution g with
                  | Some parent => [lineage_registration_event g parent]
                  | None => []
                  end ++ continuation;
     pr_domain_revisions := fence |}.

(** [is_lineage_registration_conflict], for the lineage stream and for the
    fencing parent. *)
Definition is_registration_conflict (g : ExecutionGraph) (e : ExecutionCommitError) : bool :=
  match e with
  | CeEventStore (StoreStaleRevision stream _ _) =>
      bool_decide (execution_lineage_stream_id <$> (pb_execution_id <$> eg_parent_execution g)
                   = Some stream)
      || bool_decide (pb_execution_id <$> fenced_parent g = Some stream)
  | _ => false
  end.

(** [register_graph], with the continuation claim of a graph that resumes an
    earlier collaboration. *)
Definition register_continuation_event (s : S) (g : ExecutionGraph) :
  CommitResult (list EventInput) :=
  match eg_continuation_binding g with
  | None => Ok []
  | Some binding =>
      event ← map_err CeInvalidCommand (graph_continuation_claim_event binding (eg_id g));
      existing ← existing_continuation_root s event;
      _ ← match existing with
          | Some graph_id => Err (CeAlreadyAppliedSame graph_id)
          | None => Ok tt
          end;
      unfinished ← map_err CeInvalidCommand (continuation_source_unfinished s binding);
      _ ← guard_err unfinished
            (CeInvalidCommand "unfinished continuation requires an atomic Program seed");
      Ok [event]
  end.

Definition register_failure (continuation : list EventInput) (s : S)
    (e : ExecutionCommitError) : ExecutionCommitError :=
  match continuation with
  | [] => e
  | event :: _ =>
      match existing_continuation_root s event with
      | Ok (Some graph_id) => CeAlreadyAppliedSame graph_id
      | Ok None => e
      | Err e' => e'
      end
  end.

(** One attempt whose failure, unless it is retried, re-reads the claim;
    preparation errors are returned as they are. *)
Definition register_attempt_checked (g : ExecutionGraph) (continuation : list EventInput)
    (st : CommitState) : CommitResult ExecutionCommitReceipt * CommitState :=
  match parent_fence (sv_store st) g with
  | Err e => (Err e, st)
  | Ok fence =>
      match append_graph_event (prepare_register g continuation fence) st with
      | (Ok receipt, st') => (Ok receipt, st')
      | (Err e, st') =>
          (Err (if is_registration_conflict g e then e
                else register_failure continuation (sv_store st') e), st')
      end
  end.

Definition register_graph (g0 : ExecutionGraph) (st : CommitState) :
  CommitResult ExecutionCommitReceipt * CommitState :=
  let g := registered_graph g0 in
  match register_continuation_event (sv_store st) g with
  | Err e => (Err e, st)
  | Ok continuation =>
      retry_conflicts 8 (is_registration_conflict g) (register_attempt_checked g continuation)
        (CeInvalidReplan "lineage registration retry exhausted without a conflict receipt") st
  end.
End CommitService.
