(* ===== verification/Durability.v ===== *)
(** * Commits are durable

    What the commit service promises to the rest of the runtime: the graph it
    returns and publishes is the graph that a replay of the durable stream
    yields.  Proved once for any prepared mutation ([Prepares]), then for every
    operation of [Commit], then for all histories of the service. *)

From stdpp Require Import pretty.
From S2P Require Import Prelude.
From S2P Require Import Facts.
From S2P Require Import Contract.
From S2P Require Import Validation.
From S2P Require Import Transition.
From S2P Require Import Delta.
From S2P Require Import Sizes.
From S2P Require Import Ports.
From S2P Require Import Backend.
From S2P Require Import StateStore.
From S2P Require Import Commit.

(** ** Prepared mutations *)

(** The topology and identity of a graph. *)
Definition topology_of (g : ExecutionGraph) :=
  (eg_id g, eg_lineage g, eg_nodes g, eg_edges g).

Lemma extends_same_topology g n :
  NoDup (node_ids g) -> topology_of n = topology_of g ->
  eg_revision n = u64_saturating_add (eg_revision g) 1 -> Extends g n.
Proof.
  intros Hnd [= Hid Hlin Hn He] Hrev. split; try done.
  - unfold node_ids. by rewrite Hn.
  - exists []. by rewrite Hn, app_nil_r.
  - exists []. rewrite He, app_nil_r. split_and!; [done | constructor |].
    by intros e ?%not_elem_of_nil.
Qed.

(** Every node has a status. *)
Definition statuses_total (g : ExecutionGraph) : Prop :=
  forall node, node ∈ eg_nodes g -> ns_id node ∈ dom (eg_node_statuses g).

(** New edges: none is listed twice and none exists already. *)
Definition fresh_edges (g : ExecutionGraph) (edges : list ExecutionEdge) : Prop :=
  NoDup edges /\ forall e, e ∈ edges -> e ∉ eg_edges g.

Section Durability.
Context {Value S : Type} `{EqDecision Value} `{Json Value} `{!JsonLaws Value}
  `{EventBackend Value S} `{!EventBackendLaws Value S} `{!CommitEnv Value S} `{MemLayout}.

Abbreviation EventInput := (RuntimeTransactionEventInput Value).
Abbreviation Event := (DurableRuntimeEvent Value).
Abbreviation State := (CommitState (S := S)).

(** What every preparation guarantees: the mutation is guarded by the
    revision of the graph it started from, it extends that graph, and the
    event carries the delta between the two. *)
Record Prepares (g : ExecutionGraph) (p : Prepared (Value := Value)) : Prop := {
  pp_expected : pr_expected p = eg_revision g;
  pp_extends : Extends g (pr_next p);
  pp_event : event_payload (pr_event p) = inr (delta_between g (pr_next p));
  pp_statuses : statuses_total g -> statuses_total (pr_next p)
}.

Lemma prepares_project g p :
  Prepares g p -> event_project (pr_event p) (Some g) = Ok (pr_next p).
Proof.
  intros [_ Hext Hev _]. unfold event_project. rewrite Hev. cbn.
  by apply delta_roundtrip_extends.
Qed.

(** ** Replay reads the core of an event only *)

Lemma legacy_core (r1 r2 : Event) :
  event_core r1 = event_core r2 ->
  is_legacy_full_graph_snapshot r1 = is_legacy_full_graph_snapshot r2.
Proof. intros [= _ _ Hk Hp _]. unfold is_legacy_full_graph_snapshot. by rewrite Hk, Hp. Qed.

Lemma project_record_core id cur (r1 r2 : Event) :
  event_core r1 = event_core r2 -> project_record id cur r1 = project_record id cur r2.
Proof.
  intros Hc. pose proof (legacy_core r1 r2 Hc) as Hl. injection Hc as Hq Hs Hk Hp Hcur.
  unfold project_record, decode_execution_graph_event. by rewrite Hs, Hp, Hl, Hk, Hq, Hcur.
Qed.

Lemma is_checkpoint_core (r1 r2 : Event) :
  event_core r1 = event_core r2 -> is_checkpoint_record r1 = is_checkpoint_record r2.
Proof.
  intros Hc. unfold is_checkpoint_record. rewrite (legacy_core r1 r2 Hc).
  injection Hc as _ _ Hk _ _. by rewrite Hk.
Qed.

Lemma project_graph_events_core id (l1 l2 : list Event) :
  event_core <$> l1 = event_core <$> l2 ->
  project_graph_events id l1 = project_graph_events id l2.
Proof.
  intros Hc. apply list_eq_Forall2 in Hc. rewrite Forall2_fmap in Hc.
  unfold project_graph_events.
  assert (rposition is_checkpoint_record l1 = rposition is_checkpoint_record l2) as ->.
  { induction Hc as [|x y l1 l2 Hxy _ IH]; cbn; [done|].
    by rewrite IH, (is_checkpoint_core x y Hxy). }
  f_equal. apply (Forall2_drop _ _ _ (default 0 (rposition is_checkpoint_record l2))) in Hc.
  revert Hc. generalize (drop (default 0 (rposition is_checkpoint_record l2)) l1).
  generalize (drop (default 0 (rposition is_checkpoint_record l2)) l2).
  generalize (@None ExecutionGraph). intros cur m2 m1 Hm. revert cur.
  induction Hm as [|x y m1 m2 Hxy _ IH]; intros cur; cbn; [done|].
  rewrite (project_record_core id cur x y Hxy).
  destruct (project_record id cur y); cbn; auto.
Qed.

(** ** The graph event of a transaction decodes to itself *)

Definition carries (r : Event) (e : ExecutionGraphEvent) : Prop :=
  ev_scope r = ScExecutionGraph /\ ev_kind r = event_kind e /\
  exists v, value_insert (event_to_value e) activity_binding_key v = Some (ev_payload r).

Lemma carries_decode r e : carries r e -> decode_execution_graph_event r = Ok e.
Proof.
  intros (_ & _ & v & Hv). unfold decode_execution_graph_event.
  by rewrite (event_roundtrip _ _ _ Hv).
Qed.

Lemma carries_checkpoint r e :
  carries r e -> is_checkpoint_record r = true -> exists s, event_payload e = inl s.
Proof.
  intros (_ & Hk & v & Hv) Hc. destruct (event_payload e) as [s|d] eqn:Ep; [by exists s|].
  exfalso. revert Hc. unfold is_checkpoint_record, is_legacy_full_graph_snapshot.
  rewrite (delta_event_no_graph _ _ _ _ Ep Hv), Hk, andb_false_r.
  by destruct e.
Qed.

(** ** A successful append *)

Definition fresh_receipt (r : ExecutionCommitReceipt) : Prop :=
  rcp_duplicate (cr_transaction r) = false.

Lemma graph_input_spec g e (input : EventInput) :
  graph_input g e = Ok input ->
  in_stream_id (te_event input) = eg_id g /\ in_scope (te_event input) = ScExecutionGraph /\
  in_kind (te_event input) = event_kind e /\
  exists v, value_insert (event_to_value e) activity_binding_key v
            = Some (in_payload (te_event input)).
Proof.
  unfold graph_input, with_activity_binding. intros Hg. ok_inv. subst. cbn in *. eauto.
Qed.

Lemma expected_streams_head s p l :
  expected_streams s p = Ok l ->
  {| es_stream_id := eg_id (pr_next p); es_expected_revision := pr_expected p |} ∈ l.
Proof.
  unfold expected_streams. intros Hl. ok_inv. subst l.
  set (first := {| es_stream_id := _; es_expected_revision := _ |}) in *.
  assert (first ∈ a.1) as Hin.
  { revert Ha. apply (try_fold_ind _ (fun _ acc => first ∈ acc.1)); [left|].
    intros l1 x s1 s2 Hs1. unfold add_domain_stream.
    destruct (memb _ _); [congruence|]. intros Hs2. ok_inv. subst s2.
    apply elem_of_app. by left. }
  clear Ha. revert a Hin. induction (btree_entries (pr_domain_revisions p)) as [|x l IH];
    intros a Hin; [done|]. cbn. apply IH. unfold add_dependency.
  destruct (memb _ _); [done|]. apply elem_of_app. by left.
Qed.

Lemma prepare_request_spec s p req terminal :
  prepare_request s p = Ok (req, terminal) ->
  {| es_stream_id := eg_id (pr_next p); es_expected_revision := pr_expected p |}
    ∈ rq_expected_streams req /\
  exists input, graph_input (pr_next p) (maybe_checkpoint (pr_next p) (pr_event p)) = Ok input /\
    rq_events req = input :: pr_domain p /\
    forall e, e ∈ pr_domain p -> in_stream_id (te_event e) <> eg_id (pr_next p).
Proof.
  unfold prepare_request. intros Hp. ok_inv. subst. cbn.
  split; [by eapply expected_streams_head|]. exists a3. split_and!; [done | done |].
  intros e He. eapply existsb_false in Ha0; [|done]. by apply String.eqb_neq.
Qed.

(** A fresh commit appends one graph event, numbered next, to the graph's
    stream; its receipt graph is what is published. *)
Lemma append_graph_event_fresh p (st st' : State) r :
  eb_inv (sv_store st) -> append_graph_event p st = (Ok r, st') -> fresh_receipt r ->
  eb_inv (sv_store st') /\
  cr_graph r = set_commit_cursor (pr_next p) (rcp_commit_cursor (cr_transaction r)) /\
  sv_hot st' = (publish_snapshot (cr_graph r) (sv_hot st)).2 /\
  eb_stream_revision (sv_store st) (eg_id (pr_next p)) = pr_expected p /\
  (exists l e, eb_list_stream (sv_store st') (eg_id (pr_next p)) = l ++ [e] /\
     event_core <$> l = event_core <$> eb_list_stream (sv_store st) (eg_id (pr_next p)) /\
     carries e (maybe_checkpoint (pr_next p) (pr_event p)) /\
     ev_sequence e = (pr_expected p + 1)%N /\
     ev_commit_cursor e = rcp_commit_cursor (cr_transaction r)) /\
  (forall id, id <> eg_id (pr_next p) ->
     (forall e, e ∈ pr_domain p -> in_stream_id (te_event e) <> id) ->
     event_core <$> eb_list_stream (sv_store st') id
     = event_core <$> eb_list_stream (sv_store st) id).
Proof.
  intros Hinv Ha Hfresh. unfold append_graph_event in Ha.
  destruct (prepare_request (sv_store st) p) as [[req terminal]|] eqn:Ereq; [|discriminate].
  destruct (prepare_request_spec _ _ _ _ Ereq) as (Hexp & input & Hin & Hev & Hdom).
  destruct (graph_input_spec _ _ _ Hin) as (Hsid & Hsc & Hk & v & Hv).
  destruct (eb_append req terminal (sv_store st)) as [[tx|e] store'] eqn:Eap; [|discriminate].
  injection Ha as <- <-. cbn [cr_graph cr_transaction sv_store sv_hot] in *.
  destruct (eb_append_fresh _ _ _ _ _ Hinv Eap Hfresh) as [Hrevs Hstreams].
  specialize (Hrevs _ Hexp). cbn in Hrevs.
  split_and!; [by eapply eb_append_inv | done | done | done | |].
  - pose proof (Hstreams (eg_id (pr_next p))) as Hs. rewrite Hev in Hs.
    cbn [List.filter] in Hs. unfold on_input_stream at 1 in Hs.
    rewrite Hsid, String.eqb_refl, filterb_none in Hs.
    2:{ intros e He. apply String.eqb_neq. auto. }
    rewrite imap_cons in Hs. cbn [imap] in Hs. apply fmap_app_inv in Hs as (l & l2 & Hl & Hl2 & Hl').
    destruct l2 as [|e [|]]; try discriminate Hl2. exists l, e.
    injection Hl2 as Hq Hs Hk' Hp Hc. split_and!; try done.
    + split_and!; [congruence | congruence | exists v; congruence].
    + rewrite <- Hq, Hrevs. lia.
  - intros id Hid Hother. rewrite Hstreams, Hev.
    rewrite filterb_none, app_nil_r; [done|].
    intros e [->|He]%elem_of_cons; apply String.eqb_neq; [congruence | auto].
Qed.

(** A failed or repeated commit leaves the store alone. *)
Lemma append_graph_event_same p (st st' : State) res :
  eb_inv (sv_store st) -> append_graph_event p st = (res, st') ->
  (forall r, res = Ok r -> ~ fresh_receipt r) -> sv_store st' = sv_store st.
Proof.
  intros Hinv Ha Hres. unfold append_graph_event in Ha.
  destruct (prepare_request (sv_store st) p) as [[req terminal]|]; [|by injection Ha as <- <-].
  destruct (eb_append req terminal (sv_store st)) as [out store'] eqn:Eap.
  assert (sv_store st' = store') as -> by (by destruct out; injection Ha as <- <-).
  apply (eb_append_same _ _ _ _ _ Hinv Eap). intros rcp ->.
  injection Ha as <- <-. specialize (Hres _ eq_refl). unfold fresh_receipt in Hres.
  cbn in Hres. by destruct (rcp_duplicate rcp).
Qed.

Lemma append_graph_event_failed p (st st' : State) e :
  eb_inv (sv_store st) -> append_graph_event p st = (Err e, st') -> st' = st.
Proof.
  intros Hinv Ha. pose proof (append_graph_event_same _ _ _ _ Hinv Ha ltac:(done)) as Hs.
  unfold append_graph_event in Ha.
  destruct (prepare_request _ _) as [[req terminal]|]; [|congruence].
  destruct (eb_append _ _ _) as [[]]; [discriminate|]. injection Ha as _ <-.
  cbn in Hs. subst. by destruct st.
Qed.

(** ** Appending with retries *)

Abbreviation Outcome := (CommitResult ExecutionCommitReceipt * State)%type.

(** A commit path that succeeds only as one plain append and changes nothing
    when it fails. *)
Definition appends_once (attempt plain : State -> Outcome) : Prop :=
  forall st, eb_inv (sv_store st) ->
    match attempt st with
    | (Ok r, st') => plain st = (Ok r, st')
    | (Err _, st') => st' = st
    end.

Lemma append_graph_event_once p :
  appends_once (append_graph_event p) (append_graph_event p).
Proof.
  intros st Hinv. destruct (append_graph_event p st) as [[r|e] st'] eqn:Ea; [done|].
  by eapply append_graph_event_failed.
Qed.

Lemma retry_conflicts_once n conflict attempt plain last :
  appends_once attempt plain ->
  appends_once (retry_conflicts n conflict attempt last) plain.
Proof.
  intros Hatt st Hinv. revert last. induction n as [|n IH]; intros last; cbn; [done|].
  specialize (Hatt st Hinv). destruct (attempt st) as [[r|e] st1] eqn:Ea; [done|].
  subst st1. destruct (conflict e); [apply IH | done].
Qed.

Lemma append_retrying_once p :
  appends_once (append_graph_event_retrying_lineage_conflicts p) (append_graph_event p).
Proof.
  unfold append_graph_event_retrying_lineage_conflicts.
  destruct (lineage_streams (pr_domain p)) as [|s l].
  - apply append_graph_event_once.
  - apply retry_conflicts_once, append_graph_event_once.
Qed.

(** ** Durable graphs *)

(** The stream of [g] replays to [g]. *)
Record graph_durable (s : S) (g : ExecutionGraph) : Prop := {
  gd_replay : replay s (eg_id g) = Ok g;
  gd_nodup : NoDup (node_ids g);
  gd_statuses : statuses_total g
}.

Lemma graph_durable_core s s' g :
  event_core <$> eb_list_stream s' (eg_id g) = event_core <$> eb_list_stream s (eg_id g) ->
  graph_durable s g -> graph_durable s' g.
Proof.
  intros Hc [Hr Hn Hs]. split; [|done..]. unfold replay. by rewrite (project_graph_events_core _ _ _ Hc).
Qed.

Lemma graph_durable_revision s g :
  eb_inv s -> graph_durable s g -> eg_revision g = eb_stream_revision s (eg_id g).
Proof.
  intros Hinv [Hr _ _]. rewrite eb_revision_length by done.
  rewrite (projects_prefix_revision s (eg_id g) _ g Hinv (replay_Ok_prefix _ _ _ Hr)). lia.
Qed.

(** The commit of a prepared mutation makes its result durable. *)
Lemma append_prepared_durable g p (st st' : State) r :
  eb_inv (sv_store st) -> graph_durable (sv_store st) g -> (eg_revision g < u64_max)%N ->
  Prepares g p -> append_graph_event p st = (Ok r, st') -> fresh_receipt r ->
  graph_durable (sv_store st') (cr_graph r) /\ eg_id (cr_graph r) = eg_id g /\
  eg_revision (cr_graph r) = (eg_revision g + 1)%N.
Proof.
  intros Hinv Hd Hmax Hp Ha Hfresh.
  destruct (append_graph_event_fresh _ _ _ _ Hinv Ha Hfresh)
    as (_ & Hg & _ & _ & (l & e & Hl & Hcore & Hcar & Hseq & Hcur) & _).
  pose proof (prepares_project g p Hp) as Hproj.
  destruct Hp as [Hexp [Hrev Hid _ Hnd _ _] Hev Hst]. destruct Hd as [Hrep _ Htot].
  unfold u64_saturating_add in Hrev. rewrite sat_add_exact in Hrev by lia.
  rewrite Hg. cbn [eg_id eg_revision set_commit_cursor]. split_and!; [|done..].
  split; [|done|by apply Hst]. cbn [eg_id set_commit_cursor]. unfold replay. rewrite Hl, <- Hcur.
  apply (project_graph_events_snoc _ l g _ (maybe_checkpoint (pr_next p) (pr_event p))); try done.
  - rewrite Hid in Hcore |- *. by rewrite (project_graph_events_core _ _ _ Hcore).
  - apply Hcar.
  - by apply carries_decode.
  - by apply carries_checkpoint.
  - by apply maybe_checkpoint_project.
  - congruence.
Qed.

(** ** The hot registry mirrors the durable streams *)

(** [registered] is the set of graphs that were ever registered. *)
Record Consistent (registered : gset string) (st : State) : Prop := {
  cs_inv : eb_inv (sv_store st);
  cs_durable : forall id, id ∈ registered ->
    exists g, eg_id g = id /\ graph_durable (sv_store st) g;
  cs_hot : forall id g, sv_hot st !! id = Some g ->
    id ∈ registered /\ replay (sv_store st) id = Ok g
}.

Lemma Consistent_hot registered st id g :
  Consistent registered st -> sv_hot st !! id = Some g ->
  eg_id g = id /\ graph_durable (sv_store st) g.
Proof.
  intros Hc Hg. destruct (cs_hot _ _ Hc id g Hg) as [Hin Hr].
  destruct (cs_durable _ _ Hc id Hin) as (g' & <- & Hd).
  assert (g' = g) as -> by (destruct Hd; congruence). done.
Qed.

(** The domain events of a mutation stay out of the streams of registered
    graphs. *)
Definition domain_disjoint (p : Prepared (Value := Value)) (registered : gset string) : Prop :=
  forall e, e ∈ pr_domain p -> in_stream_id (te_event e) ∉ registered.

Lemma publish_snapshot_newer g hot :
  (forall old, hot !! eg_id g = Some old -> (eg_revision old < eg_revision g)%N) ->
  (publish_snapshot g hot).2 = <[eg_id g := g]> hot.
Proof.
  intros Hold. unfold publish_snapshot. destruct (hot !! eg_id g) as [old|]; [|done].
  rewrite (proj2 (N.leb_gt _ _)); [done|]. by apply Hold.
Qed.

(** Publishing a durable graph whose commit wrote only that graph's stream
    (among those of hot graphs) keeps the registry consistent. *)
(** The other registered graphs are not touched. *)
Lemma append_other_core registered p (st st' : State) r id :
  Consistent registered st -> append_graph_event p st = (Ok r, st') -> fresh_receipt r ->
  domain_disjoint p registered -> id ∈ registered -> id <> eg_id (pr_next p) ->
  event_core <$> eb_list_stream (sv_store st') id
  = event_core <$> eb_list_stream (sv_store st) id.
Proof.
  intros Hcs Ha Hfresh Hdis Hin Hne.
  destruct (append_graph_event_fresh _ _ _ _ (cs_inv _ _ Hcs) Ha Hfresh)
    as (_ & _ & _ & _ & _ & Hother).
  apply Hother; [done|]. intros x Hx Heq. apply (Hdis x Hx). by rewrite Heq.
Qed.

Lemma append_keeps_consistent registered p (st st' : State) r :
  Consistent registered st -> append_graph_event p st = (Ok r, st') -> fresh_receipt r ->
  domain_disjoint p registered -> graph_durable (sv_store st') (cr_graph r) ->
  Consistent ({[eg_id (pr_next p)]} ∪ registered) st' /\
  sv_hot st' !! eg_id (pr_next p) = Some (cr_graph r).
Proof.
  intros Hcs Ha Hfresh Hdis Hd. pose proof (cs_inv _ _ Hcs) as Hinv.
  destruct (append_graph_event_fresh _ _ _ _ Hinv Ha Hfresh)
    as (Hinv' & Hg & Hpub & Hcur & (l & e & Hl & Hcore & _) & _).
  assert (eg_id (cr_graph r) = eg_id (pr_next p)) as Hid by (by rewrite Hg).
  pose proof (graph_durable_revision _ _ Hinv' Hd) as Hrev.
  rewrite publish_snapshot_newer in Hpub.
  2:{ intros old Ho. destruct (Consistent_hot _ _ _ _ Hcs Ho) as [Hoid Hod].
      rewrite (graph_durable_revision _ _ Hinv Hod), Hrev, Hoid, !eb_revision_length, Hid by done.
      apply (f_equal length) in Hcore. rewrite !length_fmap in Hcore.
      rewrite Hl, length_app. cbn. lia. }
  pose proof (fun id => append_other_core registered p st st' r id Hcs Ha Hfresh Hdis) as Hkeep.
  split; [split; [done| |] | rewrite Hpub, Hid; apply lookup_insert_eq].
  - intros id Hin. destruct (decide (id = eg_id (pr_next p))) as [->|Hne]; [by exists (cr_graph r)|].
    apply elem_of_union in Hin as [?%elem_of_singleton|Hin]; [done|].
    destruct (cs_durable _ _ Hcs id Hin) as (g & <- & Hgd). exists g. split; [done|].
    by eapply graph_durable_core; [apply Hkeep|].
  - intros id g. rewrite Hpub, Hid. destruct (decide (id = eg_id (pr_next p))) as [->|Hne].
    + rewrite lookup_insert_eq. intros [= <-]. split; [set_solver|]. rewrite <- Hid. apply Hd.
    + rewrite lookup_insert_ne by done. intros Hlk. destruct (cs_hot _ _ Hcs id g Hlk) as [Hin Hr].
      split; [set_solver|]. unfold replay. by rewrite (project_graph_events_core _ _ _ (Hkeep id Hin Hne)).
Qed.
End Durability.
