(* ===== verification/Operations.v ===== *)
(** * Every operation refines a durable commit

    The operations of the commit service as one type, the preparation and the
    append path of each, and the theorems about them: an operation on a durable
    graph either fails and changes nothing, or leaves a durable graph, the same
    one that the hot registry publishes; and so for every history. *)

From stdpp Require Import pretty.
From S2P Require Import Prelude.
From S2P Require Import Facts.
From S2P Require Import Contract.
From S2P Require Import Validation.
From S2P Require Import Transition.
From S2P Require Import Delta.
From S2P Require Import Sizes.
From S2P Require Import Ports.
From S2P Require Import Backend.
From S2P Require Import StateStore.
From S2P Require Import Commit.
From S2P Require Import Durability.

Section Operations.
Context {Value S : Type} `{EqDecision Value} `{Json Value} `{!JsonLaws Value}
  `{EventBackend Value S} `{!EventBackendLaws Value S} `{!CommitEnv Value S} `{MemLayout}.

Abbreviation EventInput := (RuntimeTransactionEventInput Value).
Abbreviation State := (CommitState (S := S)).
Abbreviation Outcome := (CommitResult ExecutionCommitReceipt * State)%type.

Inductive Operation :=
| OpTransition (node_id : string) (to : ExecutionNodeStatus)
    (result : option ExecutionNodeResult) (domain : list EventInput)
| OpBind (node_id : string) (binding : ExecutionNodeBinding)
| OpStartWave (bindings : gmap string ExecutionNodeBinding) (tickets : list NodeExecutionTicket)
| OpTerminalWave (transitions : list (ExecutionTerminalCommit Value))
| OpTransitionReplan (node_id : string) (result : ExecutionNodeResult)
    (domain : list EventInput) (nodes : list ExecutionNodeSpec) (edges : list ExecutionEdge)
    (reason : string)
| OpReplan (nodes : list ExecutionNodeSpec) (edges : list ExecutionEdge) (reason : string)
| OpCommand (command : ExecutionGraphCommand)
| OpRecover (reattach : NodeExecutionTicket -> option (Result string unit)).

(** What the operation prepares on graph [g]. *)
Definition prepare_operation (s : S) (g : ExecutionGraph) (op : Operation) :
  Exec (CommitResult Prepared) :=
  match op with
  | OpTransition n to res dom => Done (prepare_transition_node g n to res dom)
  | OpBind n b => Done (prepare_bind_and_start_node g n b)
  | OpStartWave bs ts => Done (prepare_bind_and_start_nodes g bs ts)
  | OpTerminalWave ts => Done (prepare_transition_nodes g ts)
  | OpTransitionReplan n res dom ns es reason =>
      Done (prepare_transition_node_with_replan g n res dom ns es reason)
  | OpReplan ns es reason => Done (prepare_replan g ns es reason)
  | OpCommand c => prepare_command s g c
  | OpRecover reattach =>
      r ← recover_nodes reattach g g [] [] (eg_nodes g);
      match r with
      | Ok (next, recovered, blocked) => prepare_recovery g next recovered blocked
      | Err e => Done (Err (CeInvalidCommand e))
      end
  end.

Definition operation_append (op : Operation) : Prepared -> State -> Outcome :=
  match op with
  | OpTransition _ _ _ _ | OpTransitionReplan _ _ _ _ _ _ =>
      append_graph_event_retrying_lineage_conflicts
  | _ => append_graph_event
  end.

Definition run_operation (g : ExecutionGraph) (op : Operation) (st : State) : Exec Outcome :=
  prepared ← prepare_operation (sv_store st) g op;
  Done (commit (operation_append op) prepared st).

(** [run_operation] is the operations of [Commit]. *)
Lemma run_operation_transition g n to res dom st :
  run_operation g (OpTransition n to res dom) st = Done (transition_node g n to res dom st).
Proof. done. Qed.

Lemma run_operation_command g c st :
  run_operation g (OpCommand c) st = apply_command g c st.
Proof. unfold run_operation, apply_command, commit_exec. cbn. by destruct (prepare_command _ _ _). Qed.

(** Replanning may only add edges that are new. *)
Definition operation_fresh (g : ExecutionGraph) (op : Operation) : Prop :=
  match op with
  | OpTransitionReplan _ _ _ _ edges _ | OpReplan _ edges _ => fresh_edges g edges
  | _ => True
  end.

(** ** Each operation prepares an extension of its graph *)

Lemma transition_checked_Ok g id to res next :
  transition_checked g id to res = Ok next -> next = write_transition g id to res.
Proof.
  unfold transition_checked. intros Ht. ok_inv.
  by apply apply_node_transition_Ok in Ht as (_ & -> & _).
Qed.

Lemma write_transition_dom g id to res :
  dom (eg_node_statuses g) ⊆ dom (eg_node_statuses (write_transition g id to res)).
Proof. cbn. set_solver. Qed.


Lemma prepares_same_topology g next (p : Prepared (Value := Value)) :
  NoDup (node_ids g) -> pr_next p = next -> topology_of next = topology_of g ->
  eg_revision next = u64_saturating_add (eg_revision g) 1 ->
  pr_expected p = eg_revision g -> event_payload (pr_event p) = inr (delta_between g next) ->
  dom (eg_node_statuses g) ⊆ dom (eg_node_statuses next) ->
  Prepares g p.
Proof.
  intros Hnd <- Ht Hr He Hp Hdom. split; [done | by apply extends_same_topology | done |].
  injection Ht as _ _ Hn _. intros Htot node. rewrite Hn. intros Hin. apply Hdom. auto.
Qed.

Lemma prepare_transition_node_prepares g n to res dom p :
  NoDup (node_ids g) -> prepare_transition_node g n to res dom = Ok p -> Prepares g p.
Proof.
  unfold prepare_transition_node. intros Hnd Hp. ok_inv. subst p.
  apply transition_checked_Ok in Ha1 as ->.
  eapply prepares_same_topology; try done. apply write_transition_dom.
Qed.

Lemma prepare_bind_and_start_node_prepares g n b (p : Prepared (Value := Value)) :
  NoDup (node_ids g) -> prepare_bind_and_start_node g n b = Ok p -> Prepares g p.
Proof.
  unfold prepare_bind_and_start_node. intros Hnd Hp. ok_inv. subst p.
  apply transition_checked_Ok in Ha0 as ->.
  eapply prepares_same_topology; try done. apply write_transition_dom.
Qed.

Lemma start_wave_kept g entries next started :
  try_fold start_one (g, []) entries = Ok (next, started) ->
  topology_of next = topology_of g /\
  dom (eg_node_statuses g) ⊆ dom (eg_node_statuses next).
Proof.
  apply (try_fold_invariant start_one (fun acc => topology_of acc.1 = topology_of g /\
    dom (eg_node_statuses g) ⊆ dom (eg_node_statuses acc.1))); [done|].
  intros [s1 l1] [id b] s2 [Hs1 Hd] Hs2. unfold start_one in Hs2. ok_inv. subst s2.
  apply transition_checked_Ok in Ha0 as ->.
  split; [exact Hs1 | cbn in *; set_solver].
Qed.

Lemma prepare_bind_and_start_nodes_prepares g bs ts p :
  NoDup (node_ids g) -> prepare_bind_and_start_nodes g bs ts = Ok p -> Prepares g p.
Proof.
  unfold prepare_bind_and_start_nodes. intros Hnd Hp. ok_inv. subst p.
  destruct a0 as [next started]. apply start_wave_kept in Ha0 as [].
  by eapply prepares_same_topology.
Qed.

Lemma terminate_wave_kept g (ts : list (ExecutionTerminalCommit Value)) next facts :
  try_fold terminate_one (g, []) ts = Ok (next, facts) ->
  topology_of next = topology_of g /\
  dom (eg_node_statuses g) ⊆ dom (eg_node_statuses next).
Proof.
  apply (try_fold_invariant terminate_one (fun acc => topology_of acc.1 = topology_of g /\
    dom (eg_node_statuses g) ⊆ dom (eg_node_statuses acc.1))); [done|].
  intros [s1 l1] t s2 [Hs1 Hd] Hs2. unfold terminate_one in Hs2. ok_inv. subst s2.
  apply transition_checked_Ok in Ha1 as ->.
  split; [exact Hs1 | cbn in *; set_solver].
Qed.

Lemma prepare_transition_nodes_prepares g ts p :
  NoDup (node_ids g) -> prepare_transition_nodes g ts = Ok p -> Prepares g p.
Proof.
  unfold prepare_transition_nodes. intros Hnd Hp. ok_inv. subst p.
  destruct a1 as [next facts]. apply terminate_wave_kept in Ha1 as [].
  by eapply prepares_same_topology.
Qed.

(** *** Replanning *)

Lemma validate_replan_nodup g nodes u :
  validate_replan g nodes = Ok u -> NoDup (node_ids g) ->
  NoDup (node_ids g ++ (ns_id <$> nodes)).
Proof.
  unfold validate_replan. intros Hv Hnd. apply guard_err_Ok_inv in Hv.
  apply orb_false_iff in Hv as [[_ Hn%negb_false_iff%bool_decide_eq_true]%orb_false_iff Hex].
  apply NoDup_app. split_and!; [done | | done].
  intros x Hx (node & -> & Hin)%list_elem_of_fmap.
  apply existsb_false with (x := node) in Hex; [|done]. by apply memb_false in Hex.
Qed.

Lemma replanned_extends g next nodes edges u :
  NoDup (node_ids g) -> validate_replan g nodes = Ok u -> fresh_edges g edges ->
  topology_of next = (eg_id g, eg_lineage g, eg_nodes g ++ nodes, eg_edges g ++ edges) ->
  eg_revision next = u64_saturating_add (eg_revision g) 1 -> Extends g next.
Proof.
  intros Hnd Hv [He1 He2] [= Hid Hlin Hn He] Hrev. split; try done; [|by exists nodes | by exists edges].
  unfold node_ids. rewrite Hn, fmap_app. by eapply validate_replan_nodup.
Qed.

Lemma plan_statuses_dom nodes m :
  dom (plan_statuses nodes m) = list_to_set (ns_id <$> nodes) ∪ dom m.
Proof.
  unfold plan_statuses. revert m. induction nodes as [|x nodes IH]; intros m; cbn; [set_solver|].
  rewrite IH, dom_insert_L. set_solver.
Qed.

Lemma extend_topology_total g nodes edges :
  statuses_total g -> statuses_total (extend_topology g nodes edges).
Proof.
  intros Htot node [Hin|Hin]%elem_of_app; cbn; rewrite plan_statuses_dom.
  - apply elem_of_union_r. auto.
  - apply elem_of_union_l, elem_of_list_to_set. by apply list_elem_of_fmap_2.
Qed.

Lemma prepare_replan_prepares g ns es reason (p : Prepared (Value := Value)) :
  NoDup (node_ids g) -> fresh_edges g es -> prepare_replan g ns es reason = Ok p -> Prepares g p.
Proof.
  unfold prepare_replan. intros Hnd Hfr Hp. ok_inv. subst p.
  split; [done | by eapply replanned_extends | done | apply (extend_topology_total g)].
Qed.

Lemma prepare_transition_node_with_replan_prepares g n res dom ns es reason p :
  NoDup (node_ids g) -> fresh_edges g es ->
  prepare_transition_node_with_replan g n res dom ns es reason = Ok p -> Prepares g p.
Proof.
  unfold prepare_transition_node_with_replan. intros Hnd Hfr Hp. ok_inv. subst p.
  apply transition_checked_Ok in Ha2 as ->.
  split; [done | by eapply replanned_extends | done |].
  intros Htot. apply extend_topology_total. intros node Hin.
  apply write_transition_dom. auto.
Qed.

(** *** Commands and recovery *)

Lemma command_mutation_topology g c next res :
  command_mutation g c = Ok (next, res) ->
  topology_of next = topology_of g /\ eg_revision next = eg_revision g /\
  dom (eg_node_statuses next) = dom (eg_node_statuses g).
Proof.
  unfold command_mutation. intros Hc.
  destruct c; ok_inv; simplify_eq/=; split_and!; try done;
    rewrite ?dom_fmap_L, ?dom_insert_L; try done;
    repeat match goal with H : _ !! _ = Some _ |- _ => apply elem_of_dom_2 in H end; set_solver.
Qed.

Lemma command_next_Ok g c next res :
  command_next g c = Ok (next, res) ->
  command_revision c = eg_revision g /\ topology_of next = topology_of g /\
  eg_revision next = u64_saturating_add (eg_revision g) 1 /\
  dom (eg_node_statuses next) = dom (eg_node_statuses g) /\
  exists m, command_mutation g c = Ok (m, res) /\
    next = set_revision m (u64_saturating_add (eg_revision m) 1).
Proof.
  unfold command_next, validate_command_revision. intros Hc. ok_inv. destruct a0 as [m r].
  simplify_eq/=. apply negb_false_iff, N.eqb_eq in Ha.
  destruct (command_mutation_topology _ _ _ _ Ha0) as (Ht & Hr & Hdom). split_and!; try done.
  - cbn. by rewrite Hr.
  - by exists m.
Qed.

Lemma prepare_command_prepares s g c p :
  NoDup (node_ids g) -> prepare_command s g c = Done (Ok p) -> Prepares g p.
Proof.
  unfold prepare_command. intros Hnd Hp.
  destruct (command_next g c) as [[next res]|] eqn:En; [|discriminate].
  destruct (command_next_Ok _ _ _ _ En) as (_ & Ht & Hr & Hdom & _).
  destruct (changed_events _ _ _) as [[evs|]| |]; try discriminate Hp. cbn in Hp.
  destruct (approval_events s g c) as [ap|]; [|discriminate]. injection Hp as <-.
  eapply prepares_same_topology; try done. cbn. by rewrite Hdom.
Qed.

Lemma recover_nodes_topology {E} (reattach : NodeExecutionTicket -> option (Result E unit)) g
    nodes : forall next rec blk out,
  recover_nodes reattach g next rec blk nodes = Done (Ok out) ->
  topology_of out.1.1 = topology_of next /\
  (dom (eg_node_statuses next) = dom (eg_node_statuses g) ->
   dom (eg_node_statuses out.1.1) = dom (eg_node_statuses g)).
Proof.
  induction nodes as [|node nodes IH]; intros next rec blk out; cbn; [by intros [= <-]|].
  destruct (eg_node_statuses g !! ns_id node) as [[]|] eqn:En; try done; try apply IH.
  apply elem_of_dom_2 in En.
  destruct (reattach _) as [[]|]; [|done|]; intros [Ht Hd]%IH; (split; [exact Ht|]);
    intros Hn; apply Hd; cbn; rewrite dom_insert_L, Hn; set_solver.
Qed.

Lemma prepare_recovery_prepares g next rec blk (p : Prepared (Value := Value)) :
  NoDup (node_ids g) -> topology_of next = topology_of g ->
  dom (eg_node_statuses next) = dom (eg_node_statuses g) ->
  prepare_recovery g next rec blk = Done (Ok p) -> Prepares g p.
Proof.
  unfold prepare_recovery. intros Hnd Ht Hdom Hp.
  destruct (changed_events _ _ _) as [[evs|]| |]; try discriminate Hp. injection Hp as <-.
  eapply prepares_same_topology; try done. cbn. by rewrite Hdom.
Qed.

Lemma prepare_operation_prepares s g op p :
  NoDup (node_ids g) -> operation_fresh g op ->
  prepare_operation s g op = Done (Ok p) -> Prepares g p.
Proof.
  intros Hnd Hfr. destruct op; cbn in *; try intros [= Hp].
  - by eapply prepare_transition_node_prepares.
  - by eapply prepare_bind_and_start_node_prepares.
  - by eapply prepare_bind_and_start_nodes_prepares.
  - by eapply prepare_transition_nodes_prepares.
  - by eapply prepare_transition_node_with_replan_prepares.
  - by eapply prepare_replan_prepares.
  - by eapply prepare_command_prepares.
  - destruct (recover_nodes _ _ _ _ _ _) as [[[[next rec] blk]|]| |] eqn:Er; try discriminate.
    cbn in Hp. apply recover_nodes_topology in Er as [Ht Hd].
    apply (prepare_recovery_prepares g next rec blk); [done | exact Ht | by apply Hd | done].
Qed.

Lemma operation_append_once op p :
  appends_once (operation_append op p) (append_graph_event p).
Proof. destruct op; first [apply append_graph_event_once | apply append_retrying_once]. Qed.

(** *** No operation panics *)

Lemma changed_events_total g next entries :
  (forall id st, (id, st) ∈ entries -> id ∈ dom (eg_node_statuses g)) ->
  exists r, changed_events (Value := Value) g next entries = Done r.
Proof.
  induction entries as [|[id to] entries IH]; intros Hdom; cbn; [by eexists|].
  destruct IH as [r Hr]; [intros ???; eapply Hdom; by right|].
  assert (is_Some (eg_node_statuses g !! id)) as [from ->]
    by (apply elem_of_dom; eapply Hdom; left).
  destruct (decide _); [by exists r|].
  destruct (node_transition_event _ _ _ _ _); [|by eexists].
  rewrite Hr. cbn. by eexists.
Qed.

Lemma changed_events_total_dom g next :
  dom (eg_node_statuses next) = dom (eg_node_statuses g) ->
  exists r, changed_events (Value := Value) g next (btree_entries (eg_node_statuses next)) = Done r.
Proof.
  intros Hdom. apply changed_events_total. intros id st Hin%elem_of_btree_entries.
  rewrite <- Hdom. by apply elem_of_dom_2 in Hin.
Qed.

Lemma recover_nodes_total {E} (reattach : NodeExecutionTicket -> option (Result E unit)) g nodes :
  forall next rec blk,
  (forall n, n ∈ nodes -> ns_id n ∈ dom (eg_node_statuses g)) ->
  exists r, recover_nodes reattach g next rec blk nodes = Done r.
Proof.
  induction nodes as [|node nodes IH]; intros next rec blk Hdom; cbn; [by eexists|].
  assert (is_Some (eg_node_statuses g !! ns_id node)) as [st ->]
    by (apply elem_of_dom, Hdom; left).
  assert (Hrest : forall n, n ∈ nodes -> ns_id n ∈ dom (eg_node_statuses g))
    by (intros; apply Hdom; by right).
  destruct st; auto. destruct (reattach _) as [[]|]; [auto | by eexists | auto].
Qed.

Lemma prepare_operation_total s g op :
  statuses_total g -> exists r, prepare_operation s g op = Done r.
Proof.
  intros Htot. destruct op as [ | | | | | |c|reattach]; cbn; try by eexists.
  - unfold prepare_command. destruct (command_next g c) as [[next res]|] eqn:En; [|by eexists].
    destruct (command_next_Ok _ _ _ _ En) as (_ & _ & _ & Hdom & _).
    destruct (changed_events_total_dom g next Hdom) as [r ->]. cbn. by eexists.
  - destruct (recover_nodes_total reattach g (eg_nodes g) g [] [] Htot) as [r Hr].
    rewrite Hr. cbn. destruct r as [[[next rec] blk]|]; [|by eexists].
    apply recover_nodes_topology in Hr as [_ Hd]. unfold prepare_recovery.
    destruct (changed_events_total_dom g (set_revision next (u64_saturating_add (eg_revision g) 1)))
      as [r ->]; [by apply Hd|]. cbn. by eexists.
Qed.

End Operations.
