(* ===== verification/History.v ===== *)
(** * Histories of the service

    Registration, operations, reads and evictions in any order, and the
    invariant they keep: the hot registry never disagrees with the durable
    streams, and every registered graph can be recovered from its stream. *)

From stdpp Require Import pretty.
From S2P Require Import Prelude.
From S2P Require Import Facts.
From S2P Require Import Contract.
From S2P Require Import Validation.
From S2P Require Import Transition.
From S2P Require Import Delta.
From S2P Require Import Sizes.
From S2P Require Import Ports.
From S2P Require Import Backend.
From S2P Require Import StateStore.
From S2P Require Import Commit.
From S2P Require Import Durability.
From S2P Require Import Operations.

Section History.
Context {Value S : Type} `{EqDecision Value} `{Json Value} `{!JsonLaws Value}
  `{EventBackend Value S} `{!EventBackendLaws Value S} `{!CommitEnv Value S} `{MemLayout}.

Abbreviation State := (CommitState (S := S)).

(** ** Registration *)

Definition register_plain (g : ExecutionGraph)
    (continuation : list (RuntimeTransactionEventInput Value)) (st : State) :
  CommitResult ExecutionCommitReceipt * State :=
  match parent_fence (sv_store st) g with
  | Err e => (Err e, st)
  | Ok fence => append_graph_event (prepare_register g continuation fence) st
  end.

Lemma register_attempt_once g continuation :
  appends_once (register_attempt_checked g continuation) (register_plain g continuation).
Proof.
  intros st Hinv. unfold register_attempt_checked, register_plain.
  destruct (parent_fence (sv_store st) g) as [fence|]; [|done].
  destruct (append_graph_event _ st) as [[r|e] st'] eqn:Ea; [done|].
  by eapply append_graph_event_failed.
Qed.

(** A registration succeeds only as one append of a [planned] event. *)
Lemma register_graph_cases g0 (st : State) :
  eb_inv (sv_store st) ->
  match register_graph g0 st with
  | (Err _, st') => st' = st
  | (Ok r, st') => exists continuation fence,
      register_continuation_event (sv_store st) (registered_graph g0) = Ok continuation /\
      append_graph_event (prepare_register (registered_graph g0) continuation fence) st
        = (Ok r, st')
  end.
Proof.
  intros Hinv. unfold register_graph. cbv zeta.
  destruct (register_continuation_event _ _) as [continuation|]; [|done].
  pose proof (retry_conflicts_once 8 (is_registration_conflict (registered_graph g0)) _ _
    (CeInvalidReplan "lineage registration retry exhausted without a conflict receipt")
    (register_attempt_once (registered_graph g0) continuation) st Hinv) as Honce.
  destruct (retry_conflicts _ _ _ _ st) as [[r|] st']; [|done].
  unfold register_plain in Honce. destruct (parent_fence _ _) as [fence|]; [|done]. eauto.
Qed.

Lemma registered_statuses_total g : statuses_total (registered_graph g).
Proof.
  intros node Hin. cbn in *. rewrite plan_statuses_dom.
  apply elem_of_union_l, elem_of_list_to_set. by apply list_elem_of_fmap_2.
Qed.

Lemma register_durable g continuation fence (st st' : State) r :
  eb_inv (sv_store st) -> NoDup (node_ids g) -> eg_revision g = 1%N -> statuses_total g ->
  append_graph_event (prepare_register g continuation fence) st = (Ok r, st') ->
  fresh_receipt r -> graph_durable (sv_store st') (cr_graph r).
Proof.
  intros Hinv Hnd Hrev Htot Ha Hfresh.
  destruct (append_graph_event_fresh _ _ _ _ Hinv Ha Hfresh)
    as (_ & -> & _ & Hcur & (l & e & Hl & Hcore & Hcar & Hseq & Hcc) & _).
  cbn [pr_next pr_expected pr_event prepare_register] in *.
  rewrite eb_revision_length in Hcur by done.
  apply (f_equal length) in Hcore. rewrite !length_fmap in Hcore.
  destruct l; [|cbn in Hcore; lia]. cbn in Hl.
  split; [|done..]. cbn [eg_id set_commit_cursor]. unfold replay. rewrite Hl, <- Hcc.
  apply (project_graph_events_first _ _ (EvPlanned g)); try done.
  - apply Hcar.
  - by apply carries_decode.
  - by rewrite Hrev, Hseq.
Qed.

(** ** Steps *)

Definition only_fresh (res : CommitResult ExecutionCommitReceipt) : Prop :=
  forall r, res = Ok r -> fresh_receipt r.

Definition with_hot (st : State) (hot : HotGraphs) : State :=
  {| sv_store := sv_store st; sv_hot := hot; sv_materializer := sv_materializer st |}.

Inductive service_step : gset string * State -> gset string * State -> Prop :=
| StepOperation registered st st' g op res :
    sv_hot st !! eg_id g = Some g -> run_operation g op st = Done (res, st') ->
    only_fresh res -> operation_fresh g op -> (eg_revision g < u64_max)%N ->
    (forall p, prepare_operation (sv_store st) g op = Done (Ok p) ->
       domain_disjoint p registered) ->
    service_step (registered, st) (registered, st')
| StepRegister registered st st' g res :
    NoDup (node_ids g) -> register_graph g st = (res, st') -> only_fresh res ->
    (forall continuation fence,
       register_continuation_event (sv_store st) (registered_graph g) = Ok continuation ->
       domain_disjoint (prepare_register (registered_graph g) continuation fence) registered) ->
    service_step (registered, st)
      (if is_ok res then {[eg_id g]} ∪ registered else registered, st')
| StepLoad registered st verify id :
    id ∈ registered ->
    service_step (registered, st)
      (registered, with_hot st (load_snapshot verify (sv_store st) (sv_hot st) id).2)
| StepEvict registered st candidates :
    service_step (registered, st) (registered, with_hot st (evict candidates (sv_hot st))).

Lemma evict_subset candidates hot : evict candidates hot ⊆ hot.
Proof.
  revert hot. induction candidates as [|id l IH]; intros hot; cbn; [done|].
  destruct (hot !! id) as [g|]; [|apply IH]. destruct (graph_is_terminal g); [|apply IH].
  transitivity (delete id hot); [apply IH | apply delete_subseteq].
Qed.

Lemma Consistent_sub registered st hot :
  Consistent registered st ->
  (forall id g, hot !! id = Some g -> sv_hot st !! id = Some g \/
     (id ∈ registered /\ replay (sv_store st) id = Ok g)) ->
  Consistent registered (with_hot st hot).
Proof.
  intros Hc Hhot. split; [apply Hc | apply Hc |]. intros id g Hg.
  destruct (Hhot id g Hg) as [Hg'|]; [by apply (cs_hot _ _ Hc) | done].
Qed.

Lemma load_keeps_consistent registered st verify id :
  Consistent registered st -> id ∈ registered ->
  Consistent registered (with_hot st (load_snapshot verify (sv_store st) (sv_hot st) id).2) /\
  (load_snapshot verify (sv_store st) (sv_hot st) id).1 = replay (sv_store st) id.
Proof.
  intros Hc Hin. pose proof (cs_inv _ _ Hc) as Hinv.
  assert (Hstay : forall g, sv_hot st !! id = Some g ->
            load_snapshot verify (sv_store st) (sv_hot st) id = (Ok g, sv_hot st)).
  { intros g Hg. destruct (Consistent_hot _ _ _ _ Hc Hg) as [Hid Hd]. unfold load_snapshot.
    by rewrite Hg, (graph_durable_revision _ _ Hinv Hd), Hid, N.eqb_refl, orb_true_r. }
  destruct (sv_hot st !! id) as [g|] eqn:Eg.
  - rewrite (Hstay g eq_refl). cbn. split; [|symmetry; by apply (cs_hot _ _ Hc)].
    apply Consistent_sub; auto.
  - assert (load_snapshot verify (sv_store st) (sv_hot st) id
            = recover_graph (sv_store st) (sv_hot st) id) as ->
      by (unfold load_snapshot; by rewrite Eg).
    destruct (recover_graph_spec (sv_store st) (sv_hot st) id Hinv) as (Hr & Hnew & Hold);
      [congruence|]. split; [|done]. apply Consistent_sub; [done|].
    intros id' g' Hg'. destruct (decide (id' = id)) as [->|Hne].
    + right. split; [done|]. destruct (cs_durable _ _ Hc id Hin) as (g & <- & Hd).
      destruct Hd as [Hd _ _]. rewrite (Hnew g Hd) in Hg'. congruence.
    + left. by rewrite <- Hold.
Qed.

Lemma service_step_consistent registered st registered' st' :
  service_step (registered, st) (registered', st') ->
  Consistent registered st -> Consistent registered' st'.
Proof.
  intros Hstep Hc. pose proof (cs_inv _ _ Hc) as Hinv.
  inversion Hstep as [? ? ? g op res Hg Hrun Hfr Hedges Hmax Hdis|? ? ? g res Hnd Hreg Hfr Hdis
                     |? ? verify id Hin|? ? candidates]; subst.
  - destruct (Consistent_hot _ _ _ _ Hc Hg) as [_ Hd]. unfold run_operation in Hrun.
    destruct (prepare_operation (sv_store st) g op) as [[p|e]| |] eqn:Ep; try discriminate Hrun;
      cbn in Hrun; [|by injection Hrun as <- <-].
    pose proof (operation_append_once op p st Hinv) as Honce.
    injection Hrun as Hrun. rewrite Hrun in Honce. destruct res as [r|e]; [|by subst].
    assert (Prepares g p) as Hp by (eapply prepare_operation_prepares; eauto; apply Hd).
    destruct (append_prepared_durable g p st st' r Hinv Hd Hmax Hp Honce (Hfr r eq_refl))
      as (Hd' & _ & _).
    destruct (append_keeps_consistent registered' p st st' r Hc Honce (Hfr r eq_refl)
                (Hdis p eq_refl) Hd') as [Hc' _].
    rewrite (ex_id _ _ (pp_extends _ _ Hp)) in Hc'.
    assert ({[eg_id g]} ∪ registered' = registered') as <-; [|done].
    apply (cs_hot _ _ Hc) in Hg as [Hin _]. set_solver.
  - pose proof (register_graph_cases g st Hinv) as Hcases. rewrite Hreg in Hcases.
    destruct res as [r|e]; [|by subst].
    destruct Hcases as (continuation & fence & Hcont & Ha).
    assert (graph_durable (sv_store st') (cr_graph r)) as Hd
      by (apply (register_durable (registered_graph g) continuation fence st);
          auto using registered_statuses_total).
    by destruct (append_keeps_consistent _ _ st st' r Hc Ha (Hfr r eq_refl)
                   (Hdis _ _ Hcont) Hd) as [Hc' _].
  - by apply load_keeps_consistent.
  - apply Consistent_sub; [done|]. intros id g Hg. left.
    by eapply lookup_weaken; [|apply evict_subset].
Qed.

Lemma service_run_consistent h h' :
  rtc service_step h h' -> Consistent h.1 h.2 -> Consistent h'.1 h'.2.
Proof.
  induction 1 as [|[] [] [] Hstep _ IH]; [done|].
  intros Hc. apply IH. by eapply service_step_consistent.
Qed.

End History.
