(* ===== verification/Commands.v ===== *)
(** * What operations do to node statuses

    The status contract of commands and of every other operation: which
    statuses may change, what is journaled about them, and that a terminal
    outcome, once committed, is never rewritten by any later history. *)

From stdpp Require Import pretty.
From S2P Require Import Prelude.
From S2P Require Import Facts.
From S2P Require Import Contract.
From S2P Require Import Validation.
From S2P Require Import Transition.
From S2P Require Import Delta.
From S2P Require Import Sizes.
From S2P Require Import Ports.
From S2P Require Import Backend.
From S2P Require Import StateStore.
From S2P Require Import Commit.
From S2P Require Import Durability.
From S2P Require Import Operations.
From S2P Require Import History.

(** Nodes keep existing and terminal statuses are kept. *)
Record evolves (g g' : ExecutionGraph) : Prop := {
  ev_nodes : forall id, id ∈ node_ids g -> id ∈ node_ids g';
  ev_terminal : forall id s, id ∈ node_ids g -> eg_node_statuses g !! id = Some s ->
    is_terminal s = true -> eg_node_statuses g' !! id = Some s
}.

#[export] Instance evolves_preorder : PreOrder evolves.
Proof.
  split; [by split|]. intros g1 g2 g3 [Hn1 Ht1] [Hn2 Ht2].
  split; [auto|]. intros id s Hid Hs Hterm. apply Ht2; auto.
Qed.

Lemma evolves_statuses g g' :
  node_ids g' = node_ids g ->
  (forall id s, eg_node_statuses g !! id = Some s -> is_terminal s = true ->
     eg_node_statuses g' !! id = Some s) -> evolves g g'.
Proof. intros Hn Ht. split; [by rewrite Hn|]. intros id s _. apply Ht. Qed.

Lemma evolves_transition g id to res from :
  eg_node_statuses g !! id = Some from -> legal from to ->
  evolves g (write_transition g id to res).
Proof.
  intros Hf Hl. apply evolves_statuses; [done|]. intros id' s Hs Ht. cbn.
  destruct (decide (id = id')) as [->|Hne]; [|by rewrite lookup_insert_ne].
  rewrite lookup_insert_eq. f_equal. apply (legal_from_terminal s to); [done | congruence].
Qed.

(** Writes that do not touch statuses. *)
Lemma evolves_refl_at g g' :
  node_ids g' = node_ids g -> eg_node_statuses g' = eg_node_statuses g -> evolves g g'.
Proof. intros Hn Hs. apply evolves_statuses; [done|]. by rewrite Hs. Qed.

(** ** Commands *)

Section Commands.
Context {Value S : Type} `{EqDecision Value} `{Json Value} `{!JsonLaws Value}
  `{EventBackend Value S} `{!EventBackendLaws Value S} `{!CommitEnv Value S} `{MemLayout}.

Abbreviation State := (CommitState (S := S)).

(** The status a command gives to one node. *)
Definition command_status (c : ExecutionGraphCommand) (id : string) (s : ExecutionNodeStatus) :
  ExecutionNodeStatus :=
  match c with
  | CmdStart _ | CmdReplan _ _ _ => s
  | CmdPause _ _ => pause_status s
  | CmdResume _ | CmdAdvance _ => resume_status s
  | CmdCancel _ _ => cancel_status s
  | CmdCancelNode _ n _ => if decide (n = id) then cancel_status s else s
  | CmdSubmitApproval _ n d =>
      if decide (n = id) then (if ad_approved d then Ready else Cancelled) else s
  | CmdResolveExternal _ n _ _ => if decide (n = id) then Completed else s
  end.

Lemma command_mutation_statuses g c next res :
  command_mutation g c = Ok (next, res) ->
  (forall id, eg_node_statuses next !! id = command_status c id <$> eg_node_statuses g !! id) /\
  match c with
  | CmdSubmitApproval _ n _ => eg_node_statuses g !! n = Some WaitingApproval
  | CmdResolveExternal _ n _ _ => eg_node_statuses g !! n = Some WaitingExternal
  | CmdReplan _ _ _ => False
  | _ => True
  end.
Proof.
  unfold command_mutation. intros Hc.
  destruct c; ok_inv; simplify_eq/=; split; try done;
    repeat match goal with
    | Hw : negb (bool_decide _) = false |- _ => apply negb_false_iff, bool_decide_eq_true in Hw as ->
    end; try done;
    intros id; rewrite ?lookup_fmap; unfold command_status; try case_decide; simplify_eq/=;
    rewrite ?lookup_insert_eq, ?lookup_insert_ne by done;
    try match goal with Hs : _ !! _ = Some _ |- _ => by rewrite Hs end;
    by destruct (eg_node_statuses _ !! id).
Qed.

Lemma command_status_terminal c id s :
  is_terminal s = true ->
  (forall r n d, c = CmdSubmitApproval r n d -> s <> WaitingApproval -> n <> id) ->
  (forall r n a b, c = CmdResolveExternal r n a b -> s <> WaitingExternal -> n <> id) ->
  command_status c id s = s.
Proof.
  intros Ht Ha He. destruct c; cbn; try done; try (by destruct s); case_decide; subst; try done.
  - by destruct s.
  - exfalso. eapply Ha; [done | by destruct s | done].
  - exfalso. eapply He; [done | by destruct s | done].
Qed.

Lemma command_next_evolves g c next res : command_next g c = Ok (next, res) -> evolves g next.
Proof.
  intros Hc. destruct (command_next_Ok _ _ _ _ Hc) as (_ & Ht & _ & _ & m & Hm & ->).
  destruct (command_mutation_statuses _ _ _ _ Hm) as [Hst Hw].
  apply evolves_statuses; [injection Ht as _ _ Hn _; unfold node_ids; cbn in *; by rewrite Hn|].
  intros id s Hs Hterm. cbn. rewrite Hst, Hs. cbn. f_equal.
  apply command_status_terminal; [done | |].
  - intros r n d -> _ ->. rewrite Hs in Hw. by simplify_eq.
  - intros r n a b -> _ ->. rewrite Hs in Hw. by simplify_eq.
Qed.

(** A command is refused unless it names the current revision, and when
    it is accepted it does to the statuses exactly what its name says: pause
    parks the ready and running nodes, resume and advance release the paused
    ones, cancel (of the graph or of one node) cancels what is not terminal,
    an approval releases or cancels the one node that waits for it, an
    external result completes the one node that waits for it and records the
    result; nothing else changes but the revision.  Every status change
    follows the node state machine, except that an external result takes a
    waiting node to [Completed] directly. *)
Theorem command_effect g c next res (Hc : command_next g c = Ok (next, res)) :
  command_revision c = eg_revision g /\
  eg_revision next = u64_saturating_add (eg_revision g) 1 /\
  topology_of next = topology_of g /\
  (forall id, eg_node_statuses next !! id
              = command_status c id <$> eg_node_statuses g !! id) /\
  (forall id s, eg_node_statuses g !! id = Some s ->
     legal s (command_status c id s) \/
     exists r result_ref correlation,
       c = CmdResolveExternal r id result_ref correlation /\ s = WaitingExternal) /\
  eg_node_results next =
    match c with
    | CmdResolveExternal _ n result_ref _ =>
        <[n := external_result result_ref]> (eg_node_results g)
    | _ => eg_node_results g
    end.
Proof.
  destruct (command_next_Ok _ _ _ _ Hc) as (Hrev & Ht & Hr & _ & m & Hm & Hnext).
  destruct (command_mutation_statuses _ _ _ _ Hm) as [Hst Hw].
  split_and!; try done.
  - intros id. by rewrite Hnext.
  - intros id s Hs. destruct c; cbn; try (left; by destruct s); case_decide;
      try (left; apply legal_refl); subst.
    + left. by destruct s.
    + left. rewrite Hs in Hw. injection Hw as ->. by destruct (ad_approved decision).
    + right. rewrite Hs in Hw. injection Hw as ->. eauto.
  - rewrite Hnext. clear -Hm. unfold command_mutation in Hm. destruct c; ok_inv; by simplify_eq/=.
Qed.

(** A command with any other revision is refused and changes nothing. *)
Lemma command_stale_rejected g c (st : State) :
  command_revision c <> eg_revision g ->
  apply_command g c st
  = Done (Err (CeStaleRevision (eg_id g) (command_revision c) (eg_revision g)), st).
Proof.
  intros Hne. unfold apply_command, commit_exec, prepare_command, command_next,
    validate_command_revision. by rewrite (proj2 (N.eqb_neq _ _) Hne).
Qed.

(** ** The journal of a command *)

Lemma node_transition_event_facts g id from to res (e : RuntimeTransactionEventInput Value) :
  node_transition_event g id from to res = Ok e ->
  in_stream_id (te_event e) = node_stream_id (eg_id g) id /\
  in_status (te_event e) = Some (status_name to) /\
  te_idempotency_key e = Some (eg_id g +:+ ":" +:+ id +:+ ":" +:+ pretty (eg_revision g)).
Proof.
  unfold node_transition_event, with_activity_binding. intros He. ok_inv. by subst.
Qed.

Lemma changed_events_spec g next entries (events : list (RuntimeTransactionEventInput Value)) :
  changed_events g next entries = Done (Ok events) ->
  Forall2 (fun e (x : string * ExecutionNodeStatus) =>
      in_stream_id (te_event e) = node_stream_id (eg_id next) x.1 /\
      in_status (te_event e) = Some (status_name x.2))
    events
    (List.filter (fun x => negb (bool_decide (eg_node_statuses g !! x.1 = Some x.2))) entries).
Proof.
  revert events. induction entries as [|[id to] entries IH]; intros events; cbn.
  { intros [= <-]. constructor. }
  destruct (eg_node_statuses g !! id) as [from|]; [|done].
  destruct (decide (from = to)) as [->|Hne].
  - rewrite bool_decide_eq_true_2 by done. apply IH.
  - rewrite bool_decide_eq_false_2 by congruence.
    destruct (node_transition_event _ _ _ _ _) as [e|] eqn:Ee; [|done].
    destruct (changed_events g next entries) as [[evs|]| |]; try done.
    intros [= <-]. constructor; [|by apply IH].
    by destruct (node_transition_event_facts _ _ _ _ _ _ Ee) as (? & ? & _).
Qed.

(** ** Terminal outcomes under every operation *)

Lemma transition_checked_evolves g id to res next :
  transition_checked g id to res = Ok next -> evolves g next.
Proof.
  unfold transition_checked. intros Ht. ok_inv.
  apply apply_node_transition_Ok in Ht as (_ & -> & from & Hf & Hl). by eapply evolves_transition.
Qed.

Lemma evolves_set_attempt g next id n : evolves g next -> evolves g (set_attempt next id n).
Proof. intros He. transitivity next; [done | by apply evolves_refl_at]. Qed.

Lemma evolves_set_revision g next n : evolves g next -> evolves g (set_revision next n).
Proof. intros He. transitivity next; [done | by apply evolves_refl_at]. Qed.

Lemma evolves_extend g nodes edges u :
  validate_replan g nodes = Ok u -> evolves g (extend_topology g nodes edges).
Proof.
  unfold validate_replan. intros Hv%guard_err_Ok_inv. apply orb_false_iff in Hv as [_ Hex].
  split; cbn.
  - intros id Hin. unfold node_ids. cbn. rewrite fmap_app. apply elem_of_app. by left.
  - intros id s Hid Hs _.
    assert (Hfresh : id ∉ ns_id <$> nodes).
    { intros (node & -> & Hin)%list_elem_of_fmap.
      apply existsb_false with (x := node) in Hex; [|done]. by apply memb_false in Hex. }
    clear Hex. unfold plan_statuses. revert Hs Hfresh. generalize (eg_node_statuses g).
    induction nodes as [|n nodes IH]; intros m Hs Hfresh; cbn; [done|].
    apply not_elem_of_cons in Hfresh as [Hne Hfresh].
    apply IH; [by rewrite lookup_insert_ne | done].
Qed.

Lemma recover_nodes_evolves {E} (reattach : NodeExecutionTicket -> option (Result E unit)) g
    nodes : forall next rec blk out,
  recover_nodes reattach g next rec blk nodes = Done (Ok out) ->
  evolves g next -> evolves g out.1.1.
Proof.
  induction nodes as [|node nodes IH]; intros next rec blk out; cbn; [by intros [= <-]|].
  assert (Hset : forall s, eg_node_statuses g !! ns_id node = Some Running ->
            evolves g next ->
            evolves g (set_statuses next (<[ns_id node := s]> (eg_node_statuses next)))).
  { intros s Hrun [Hn Ht]. split; [done|]. intros id s' Hid Hs' Hterm. cbn.
    rewrite lookup_insert_ne; [auto|]. intros Heq. rewrite <- Heq, Hrun in Hs'. by simplify_eq. }
  destruct (eg_node_statuses g !! ns_id node) as [[]|] eqn:En; try done; try apply IH.
  destruct (reattach _) as [[]|]; [|done|]; intros Hr He; apply (IH _ _ _ _ Hr); auto.
Qed.

(** No operation of the service (transition, wave, replan, command or crash
    recovery) removes a node or changes the status of a completed, blocked,
    failed or cancelled one. *)
Lemma prepare_operation_evolves s g op p :
  prepare_operation s g op = Done (Ok p) -> evolves g (pr_next p).
Proof.
  intros Hp. destruct op; cbn in Hp; try injection Hp as Hp.
  - unfold prepare_transition_node in Hp. ok_inv. subst p. cbn.
    by eapply evolves_set_attempt, transition_checked_evolves.
  - unfold prepare_bind_and_start_node in Hp. ok_inv. subst p. cbn.
    by eapply evolves_set_attempt, transition_checked_evolves.
  - unfold prepare_bind_and_start_nodes in Hp. ok_inv. subst p. cbn.
    apply evolves_set_revision. revert Ha0.
    apply (try_fold_invariant start_one (fun acc => evolves g acc.1)); [done|].
    intros [n1 l1] [id b] s2 Hn Hs2. unfold start_one in Hs2. ok_inv. subst s2. cbn.
    apply evolves_set_attempt. etrans; [exact Hn | by eapply transition_checked_evolves].
  - unfold prepare_transition_nodes in Hp. ok_inv. subst p. cbn.
    apply evolves_set_revision. revert Ha1.
    apply (try_fold_invariant terminate_one (fun acc => evolves g acc.1)); [done|].
    intros [n1 l1] t s2 Hn Hs2. unfold terminate_one in Hs2. ok_inv. subst s2. cbn.
    etrans; [exact Hn | by eapply transition_checked_evolves].
  - unfold prepare_transition_node_with_replan in Hp. ok_inv. subst p. cbn.
    apply transition_checked_evolves in Ha2 as He.
    etrans; [exact He|]. apply (evolves_extend _ _ _ a0).
    apply transition_checked_Ok in Ha2 as ->. exact Ha0.
  - unfold prepare_replan in Hp. ok_inv. subst p. cbn.
    by eapply evolves_set_revision, evolves_extend.
  - unfold prepare_command in Hp.
    destruct (command_next g command) as [[next res]|] eqn:En; [|discriminate].
    apply command_next_evolves in En.
    destruct (changed_events _ _ _) as [[evs|]| |]; try discriminate Hp. cbn in Hp.
    destruct (approval_events s g command) as [ap|]; [|discriminate]. by injection Hp as <-.
  - destruct (recover_nodes _ _ _ _ _ _) as [[[[next rec] blk]|]| |] eqn:Er; try discriminate.
    cbn in Hp. apply recover_nodes_evolves in Er; [|done]. unfold prepare_recovery in Hp.
    destruct (changed_events _ _ _) as [[evs|]| |]; try discriminate Hp. injection Hp as <-.
    by apply evolves_set_revision.
Qed.

(** *** ... and in every history *)

Definition durable_evolves (st st' : State) (id : string) : Prop :=
  forall g, replay (sv_store st) id = Ok g ->
  exists g', replay (sv_store st') id = Ok g' /\ evolves g g'.

Lemma durable_evolves_core st st' id :
  event_core <$> eb_list_stream (sv_store st') id
  = event_core <$> eb_list_stream (sv_store st) id -> durable_evolves st st' id.
Proof.
  intros Hc g Hg. exists g. split; [|done]. unfold replay.
  by rewrite (project_graph_events_core _ _ _ Hc).
Qed.

Lemma service_step_evolves registered st registered' st' id :
  service_step (registered, st) (registered', st') -> Consistent registered st ->
  id ∈ registered -> id ∈ registered' /\ durable_evolves st st' id.
Proof.
  intros Hstep Hc Hin. pose proof (cs_inv _ _ Hc) as Hinv.
  inversion Hstep as [? ? ? g op res Hg Hrun Hfr Hedges Hmax Hdis|? ? ? g res Hnd Hreg Hfr Hdis
                     |? ? verify id' Hin'|? ? candidates]; subst.
  - split; [done|]. destruct (Consistent_hot _ _ _ _ Hc Hg) as [_ Hd]. unfold run_operation in Hrun.
    destruct (prepare_operation (sv_store st) g op) as [[p|e]| |] eqn:Ep; try discriminate Hrun;
      cbn in Hrun; [|injection Hrun as <- <-; by apply durable_evolves_core].
    pose proof (operation_append_once op p st Hinv) as Honce.
    injection Hrun as Hrun. rewrite Hrun in Honce.
    destruct res as [r|e]; [|subst; by apply durable_evolves_core].
    assert (Prepares g p) as Hp by (eapply prepare_operation_prepares; eauto; apply Hd).
    destruct (decide (id = eg_id (pr_next p))) as [->|Hne].
    + destruct (append_prepared_durable g p st st' r Hinv Hd Hmax Hp Honce (Hfr r eq_refl))
        as ([Hr' _ _] & Hid' & _).
      rewrite (ex_id _ _ (pp_extends _ _ Hp)). intros g0 Hg0.
      rewrite (gd_replay _ _ Hd) in Hg0. injection Hg0 as <-.
      exists (cr_graph r). rewrite Hid' in Hr'. split; [done|].
      destruct (append_graph_event_fresh _ _ _ _ Hinv Honce (Hfr r eq_refl)) as (_ & -> & _).
      transitivity (pr_next p); [by eapply prepare_operation_evolves | by apply evolves_refl_at].
    + apply durable_evolves_core. by eapply append_other_core; eauto.
  - split; [destruct (is_ok res); [set_solver | done]|].
    pose proof (register_graph_cases g st Hinv) as Hcases. rewrite Hreg in Hcases.
    destruct res as [r|e]; [|subst; by apply durable_evolves_core].
    destruct Hcases as (continuation & fence & Hcont & Ha).
    apply durable_evolves_core. eapply append_other_core; eauto.
    cbn [pr_next prepare_register eg_id registered_graph]. intros ->.
    destruct (append_graph_event_fresh _ _ _ _ Hinv Ha (Hfr r eq_refl)) as (_ & _ & _ & Hcur & _).
    cbn in Hcur. destruct (cs_durable _ _ Hc _ Hin) as (g' & Hid & Hd').
    rewrite <- Hid, eb_revision_length in Hcur by done.
    destruct Hd' as [Hr' _ _]. unfold replay in Hr'.
    destruct (eb_list_stream (sv_store st) (eg_id g')); [done | cbn in Hcur; lia].
  - split; [done|]. by apply durable_evolves_core.
  - split; [done|]. by apply durable_evolves_core.
Qed.

(** What the durable stream of a graph says about one of its nodes. *)
Definition durable_status (st : State) (id node : string) : option ExecutionNodeStatus :=
  match replay (sv_store st) id with
  | Ok g => if memb (node_ids g) node then eg_node_statuses g !! node else None
  | Err _ => None
  end.

(** Once a node's terminal outcome is durable, no later history of the
    service (registrations, operations, reads, evictions, in any order)
    changes what a replay reports for it. *)
Theorem history_terminal_final registered (st : State) registered' st' id node s
  (Hc : Consistent registered st)
  (Hrun : rtc service_step (registered, st) (registered', st'))
  (Hid : id ∈ registered) (Hs : durable_status st id node = Some s)
  (Hterm : is_terminal s = true) :
  durable_status st' id node = Some s.
Proof.
  assert (durable_evolves st st' id) as Hev.
  { clear Hs. remember (registered, st) as h eqn:Eh. remember (registered', st') as h' eqn:Eh'.
    revert registered st Eh Hc Hid. induction Hrun as [h|h [reg1 st1] h' Hstep _ IH];
      intros reg st0 Eh Hc Hid; subst.
    - injection Eh as <- <-. by apply durable_evolves_core.
    - destruct (service_step_evolves _ _ _ _ id Hstep Hc Hid) as [Hid1 Hev1].
      specialize (IH eq_refl reg1 st1 eq_refl (service_step_consistent _ _ _ _ Hstep Hc) Hid1).
      intros g0 Hg0. destruct (Hev1 g0 Hg0) as (g1 & Hg1 & He1).
      destruct (IH g1 Hg1) as (g2 & Hg2 & He2). exists g2. split; [done | by etrans]. }
  unfold durable_status in *. destruct (replay (sv_store st) id) as [g|e] eqn:Hg; [|done].
  destruct (memb (node_ids g) node) eqn:Hnode; [|done]. apply memb_true in Hnode.
  destruct (Hev g Hg) as (g' & -> & [Hn Ht]). rewrite (proj2 (memb_true _ _)) by auto. auto.
Qed.

(** ** Waves *)

(** The effect of starting the listed nodes one by one. *)
Lemma start_wave_fold g l acc :
  try_fold start_one (g, []) l = Ok acc -> NoDup l.*1 ->
  topology_of acc.1 = topology_of g /\
  (forall id b, (id, b) ∈ l ->
     (exists s, eg_node_statuses g !! id = Some s /\ legal s Running) /\
     eg_node_statuses acc.1 !! id = Some Running /\
     rc_node_attempts (eg_recovery_cursor acc.1) !! id = Some (nb_attempt b)) /\
  (forall id, id ∉ l.*1 -> eg_node_statuses acc.1 !! id = eg_node_statuses g !! id /\
     rc_node_attempts (eg_recovery_cursor acc.1) !! id
       = rc_node_attempts (eg_recovery_cursor g) !! id).
Proof.
  intros Hf. pattern l, acc. revert Hf.
  apply try_fold_ind; [intros _; split_and!; [done | by intros id b ?%not_elem_of_nil | done]|].
  clear l acc. intros l [id b] [n1 l1] s2 HP Hs2 Hnd. rewrite fmap_app in Hnd.
  apply NoDup_app in Hnd as (Hnd & Hdis & _). destruct (HP Hnd) as (Htop & Hin & Hout). clear HP.
  assert (id ∉ l.*1) as Hid by (intros Hx; apply (Hdis id Hx); left).
  unfold start_one, transition_checked in Hs2. ok_inv. subst s2.
  match goal with Ht : apply_node_transition _ _ _ _ _ = Ok _ |- _ =>
    apply apply_node_transition_Ok in Ht as (_ & -> & from & Hf & Hl) end. cbn in *.
  destruct (Hout id Hid) as [Hst _]. rewrite Hst in Hf. split_and!; [exact Htop | |].
  - intros id' b' [Hin'|[= -> ->]%list_elem_of_singleton]%elem_of_app.
    + assert (id <> id') by (intros ->; apply Hid; by apply (list_elem_of_fmap_2 fst _ (id', b'))).
      rewrite !lookup_insert_ne by done. auto.
    + rewrite !lookup_insert_eq. eauto.
  - intros id' Hid'. rewrite fmap_app in Hid'. apply not_elem_of_app in Hid' as [H1' H2'].
    assert (id <> id') by (intros ->; apply H2'; left).
    rewrite !lookup_insert_ne by done. auto.
Qed.

(** The status and the attempt of a node after the wave started. *)
Definition wave_status (bindings : gmap string ExecutionNodeBinding) (id : string)
    (s : ExecutionNodeStatus) : ExecutionNodeStatus :=
  match bindings !! id with Some _ => Running | None => s end.

Definition wave_attempt (bindings : gmap string ExecutionNodeBinding)
    (attempts : gmap string N) (id : string) : option N :=
  match bindings !! id with Some b => Some (nb_attempt b) | None => attempts !! id end.

(** A start wave is all or nothing: it is accepted only if every node of
    the wave may legally start, and then exactly those nodes are running, each
    at the attempt its binding names, under one new revision. *)
Theorem start_wave_effect g bindings tickets p
  (Hp : prepare_bind_and_start_nodes g bindings tickets = Ok p) :
  let next := pr_next p in
  eg_revision next = u64_saturating_add (eg_revision g) 1 /\
  topology_of next = topology_of g /\
  (forall id b, bindings !! id = Some b ->
     exists s, eg_node_statuses g !! id = Some s /\ legal s Running) /\
  (forall id, eg_node_statuses next !! id = wave_status bindings id <$> eg_node_statuses g !! id) /\
  (forall id, rc_node_attempts (eg_recovery_cursor next) !! id
     = wave_attempt bindings (rc_node_attempts (eg_recovery_cursor g)) id).
Proof.
  unfold prepare_bind_and_start_nodes in Hp. ok_inv. subst p. cbn. split; [done|].
  assert (NoDup (btree_entries bindings).*1) as Hnd
    by (rewrite btree_entries_keys; apply NoDup_btree_keys).
  destruct (start_wave_fold _ _ _ Ha0 Hnd) as (Htop & Hin & Hout). split; [exact Htop|].
  assert (Hkeep : forall id, bindings !! id = None -> id ∉ (btree_entries bindings).*1).
  { intros id Eb ([id' b] & -> & Hx)%list_elem_of_fmap.
    apply elem_of_btree_entries in Hx. cbn in Eb. congruence. }
  unfold wave_status, wave_attempt. split_and!.
  - intros id b Eb. by apply (Hin id b), elem_of_btree_entries.
  - intros id. destruct (bindings !! id) as [b|] eqn:Eb.
    + destruct (Hin id b) as ((s & -> & _) & Hs & _); [by apply elem_of_btree_entries | done].
    + rewrite option_fmap_id. by apply Hout, Hkeep.
  - intros id. destruct (bindings !! id) as [b|] eqn:Eb.
    + by apply (Hin id b), elem_of_btree_entries.
    + by apply Hout, Hkeep.
Qed.
End Commands.
