(* ===== verification/Dependency.v ===== *)
(** * Dependency policies

    [runtime/src/execution_core/graph/runner.rs], the pure part of the
    scheduler: which lanes a node waits for, when a policy releases or blocks
    it, which optional work a quorum cancels, and the report of a graph. *)

From S2P Require Import Prelude Facts Contract Validation Transition.

(** ** Facts of a terminal result *)

(** [AcceptanceEvaluator::REVISION] *)
Definition EVALUATOR_REVISION : N := 2.

(** [derived_acceptance_verdict] *)
Definition derived_acceptance_verdict (r : ExecutionNodeResult) : AcceptanceVerdict :=
  let framework_invalid :=
    match nr_failure r with
    | Some failure =>
        String.eqb (ef_kind failure) "agent_backend"
        && str_contains (ef_message failure) "Runtime rejected Agent terminal result"
    | None => false
    end in
  if framework_invalid then FrameworkInvalid
  else match us_acceptance_evaluation (nr_usage r) with
       | Some evaluation =>
           if (ae_evaluator_revision evaluation =? EVALUATOR_REVISION)%N
           then ae_verdict evaluation else Unresolved
       | None => Unresolved
       end.

Definition has_ref_type (r : EvidenceAccessRef) (ty : string) : bool :=
  String.eqb (er_ref_type (ea_evidence_ref r)) ty.

(** [has_terminal_fact_kind] *)
Definition has_terminal_fact_kind (r : ExecutionNodeResult) (kind : TerminalFactKind) : bool :=
  let observed := oa_observed_evidence (us_observed_acceptance (nr_usage r)) in
  match kind with
  | CommittedEffect =>
      existsb (fun e => bool_decide (is_Some (oe_workspace_prior_state e))) observed
      || existsb (fun ref => has_ref_type ref "runtime_change") (nr_evidence_refs r)
  | FactObservedEvidence =>
      negb (bool_decide (observed = [])) || existsb evidence_is_durable (nr_evidence_refs r)
  | Artifact =>
      existsb (fun ref => has_ref_type ref "artifact" || evidence_is_durable ref)
        (nr_evidence_refs r)
  | FactAcceptanceVerdict => negb (bool_decide (derived_acceptance_verdict r = Unresolved))
  end.

(** ** Policies *)

Record DependencyPredecessor := {
  lane_status : ExecutionNodeStatus;
  lane_result : option ExecutionNodeResult
}.

Inductive EvidenceReadyOutcome := EvSatisfied | EvWaiting | EvBlocked.

#[export] Instance EvidenceReadyOutcome_eq_dec : EqDecision EvidenceReadyOutcome.
Proof. solve_decision. Defined.

(** [evidence_ready_satisfaction] *)
Definition evidence_ready_satisfaction (lane : DependencyPredecessor)
    (p : DependencyPredicate) : EvidenceReadyOutcome :=
  if negb (is_terminal (lane_status lane)) then EvWaiting
  else match lane_result lane with
       | None => EvBlocked
       | Some r =>
           if negb (memb (dp_accepted_execution_statuses p) (lane_status lane)) then EvBlocked
           else if negb (memb (dp_accepted_acceptance_verdicts p) (derived_acceptance_verdict r))
           then EvBlocked
           else if dp_require_committed_effect p && negb (has_terminal_fact_kind r CommittedEffect)
           then EvBlocked
           else if negb (forallb (has_terminal_fact_kind r) (dp_required_fact_kinds p))
           then EvBlocked
           else EvSatisfied
       end.

Definition count_lanes (f : DependencyPredecessor -> bool) (lanes : list DependencyPredecessor) :
  nat := length (List.filter f lanes).

(** [evidence_ready_target] *)
Definition evidence_ready_target (p : DependencyPredicate) (lanes : list DependencyPredecessor) :
  option ExecutionNodeStatus :=
  let required := N.to_nat (dp_minimum p) in
  if bool_decide (required = 0) then Some Ready
  else
    let satisfied :=
      count_lanes (fun l => bool_decide (evidence_ready_satisfaction l p = EvSatisfied)) lanes in
    let waiting :=
      count_lanes (fun l => bool_decide (evidence_ready_satisfaction l p = EvWaiting)) lanes in
    if required <=? satisfied then Some Ready
    else if required <=? satisfied + waiting then None
    else Some Blocked.

Definition lane_completed (l : DependencyPredecessor) : bool :=
  bool_decide (lane_status l = Completed).
Definition lane_open (l : DependencyPredecessor) : bool := negb (is_terminal (lane_status l)).

(** The counting policies of [dependency_target]. *)
Definition counted_target (required : nat) (lanes : list DependencyPredecessor) :
  option ExecutionNodeStatus :=
  let completed := count_lanes lane_completed lanes in
  let possible := completed + count_lanes lane_open lanes in
  if required <=? completed then Some Ready
  else if possible <? required then Some Blocked
  else None.

(** [dependency_target] *)
Definition dependency_target (policy : ExecutionDependencyPolicy)
    (lanes : list DependencyPredecessor) : option ExecutionNodeStatus :=
  match policy with
  | PolicyFinally =>
      if forallb (fun l => is_terminal (lane_status l)) lanes then Some Ready else None
  | PolicyEvidenceReady predicate _ => evidence_ready_target predicate lanes
  | PolicyAll => counted_target (length lanes) lanes
  | PolicyAny _ => counted_target 1 lanes
  | PolicyQuorum minimum _ => counted_target (N.to_nat minimum) lanes
  end.

(** ** Lanes of a graph *)

Definition evidence_matches (required : string) (r : EvidenceAccessRef) : bool :=
  String.eqb (er_id (ea_evidence_ref r)) required
  || String.eqb (ea_retrieval_selector r) required
  || String.eqb (er_ref_type (ea_evidence_ref r) +:+ ":" +:+ er_id (ea_evidence_ref r)) required.

(** [verified_predecessor_status]; indexing an unknown node panics. *)
Definition verified_predecessor_status (g : ExecutionGraph) (predecessor_id : string)
    (required_evidence_refs : list string) : Exec ExecutionNodeStatus :=
  match eg_node_statuses g !! predecessor_id with
  | None => Panic
  | Some status =>
      if negb (bool_decide (status = Completed)) || bool_decide (required_evidence_refs = [])
      then Done status
      else
        let satisfied :=
          match eg_node_results g !! predecessor_id with
          | Some r => forallb (fun required =>
                        existsb (evidence_matches required) (nr_evidence_refs r))
                        required_evidence_refs
          | None => false
          end in
        Done (if satisfied then status else Failed)
  end.

Definition required_refs (node : ExecutionNodeSpec) : list string :=
  match ns_work node with Some work => wc_required_evidence_refs work | None => [] end.

Definition node_policy (node : ExecutionNodeSpec) : ExecutionDependencyPolicy :=
  match ns_work node with Some work => wc_dependency work | None => PolicyAll end.

(** The dependency edges into a node. *)
Definition predecessor_edges (g : ExecutionGraph) (node_id : string) : list ExecutionEdge :=
  List.filter (fun e => is_dependency (edge_kind e) && String.eqb (edge_to e) node_id)
    (eg_edges g).

(** [dependency_predecessors] *)
Definition dependency_predecessors (g : ExecutionGraph) (node : ExecutionNodeSpec) :
  Exec (list DependencyPredecessor) :=
  exec_fold (fun lanes e =>
      status ← verified_predecessor_status g (edge_from e) (required_refs node);
      Done (lanes ++ [{| lane_status := status;
                         lane_result := eg_node_results g !! edge_from e |}]))
    [] (predecessor_edges g (ns_id node)).

Definition node_target (g : ExecutionGraph) (node : ExecutionNodeSpec) :
  Exec (option ExecutionNodeStatus) :=
  lanes ← dependency_predecessors g node;
  Done (dependency_target (node_policy node) lanes).

(** ** Quorum tails *)

Definition tail_cancellable (g : ExecutionGraph) (group predecessor_id : string) : bool :=
  match List.find (fun node => String.eqb (ns_id node) predecessor_id) (eg_nodes g) with
  | None => false
  | Some predecessor =>
      match ns_work predecessor with
      | Some work => negb (wc_required work)
                     && bool_decide (wc_cancellation_group work = Some group)
      | None => false
      end
      && match eg_node_statuses g !! predecessor_id with
         | Some status => negb (is_terminal status)
         | None => false
         end
  end.

(** The predecessors one ready consumer makes redundant. *)
Definition consumer_cancellations (g : ExecutionGraph) (consumer : ExecutionNodeSpec) :
  list string :=
  if negb (bool_decide (eg_node_statuses g !! ns_id consumer = Some Ready)) then []
  else match ns_work consumer with
       | None => []
       | Some work =>
           if negb (policy_cancel_remaining (wc_dependency work)) then []
           else match wc_cancellation_group work with
                | None => []
                | Some group =>
                    List.filter (tail_cancellable g group)
                      (edge_from <$> predecessor_edges g (ns_id consumer))
                end
       end.

(** [quorum_tail_cancellations] *)
Definition quorum_tail_cancellations (g : ExecutionGraph) : list string :=
  btree_set_iter (list_to_set (eg_nodes g ≫= consumer_cancellations g)).

(** ** Reports *)

Record ExecutionRunReport := {
  rep_graph_id : string;
  rep_revision : N;
  rep_completed : nat;
  rep_failed : nat;
  rep_blocked : nat;
  rep_cancelled : nat;
  rep_waiting : nat
}.

Definition count_status (g : ExecutionGraph) (s : ExecutionNodeStatus) : nat :=
  length (List.filter (fun c => bool_decide (c = s)) (btree_values (eg_node_statuses g))).

(** [report] *)
Definition report (g : ExecutionGraph) : ExecutionRunReport :=
  {| rep_graph_id := eg_id g; rep_revision := eg_revision g;
     rep_completed := count_status g Completed; rep_failed := count_status g Failed;
     rep_blocked := count_status g Blocked; rep_cancelled := count_status g Cancelled;
     rep_waiting := count_status g WaitingInput + count_status g WaitingApproval
                    + count_status g WaitingExternal + count_status g Paused |}.

(** [current_report]: the report, and whether nothing can happen without an
    outside event. *)
Fixpoint any_actionable (g : ExecutionGraph) (nodes : list ExecutionNodeSpec) : Exec bool :=
  match nodes with
  | [] => Done false
  | node :: rest =>
      match eg_node_statuses g !! ns_id node with
      | None => Panic
      | Some (Ready | Running) => Done true
      | Some Planned =>
          target ← node_target g node;
          if bool_decide (is_Some target) then Done true else any_actionable g rest
      | Some _ => any_actionable g rest
      end
  end.

Definition current_report (g : ExecutionGraph) : Exec (ExecutionRunReport * bool) :=
  actionable ← any_actionable g (eg_nodes g);
  Done (report g, negb actionable).

(** ** Counting lanes *)

Lemma count_lanes_le f lanes : count_lanes f lanes <= length lanes.
Proof. unfold count_lanes. induction lanes as [|l lanes IH]; cbn; [lia|]. destruct (f l); cbn; lia. Qed.

Lemma count_lanes_cons f l lanes :
  count_lanes f (l :: lanes) = (if f l then 1 else 0) + count_lanes f lanes.
Proof. unfold count_lanes. cbn. by destruct (f l). Qed.

Lemma count_lanes_pos f lanes : 1 <= count_lanes f lanes <-> exists l, l ∈ lanes /\ f l = true.
Proof.
  unfold count_lanes. destruct (List.filter f lanes) as [|x xs] eqn:E; cbn.
  - split; [lia|]. intros (l & Hl & Hf).
    assert (l ∈ List.filter f lanes) as Hin by by apply elem_of_filterb.
    rewrite E in Hin. by apply not_elem_of_nil in Hin.
  - split; [intros _ | lia]. exists x. apply elem_of_filterb. rewrite E. left.
Qed.

Lemma count_lanes_all f lanes :
  count_lanes f lanes = length lanes <-> forall l, l ∈ lanes -> f l = true.
Proof.
  induction lanes as [|l lanes IH]; [split; [by intros _ ? ?%not_elem_of_nil | done]|].
  rewrite count_lanes_cons. cbn. pose proof (count_lanes_le f lanes). split.
  - intros Hc. destruct (f l) eqn:Ef; [|lia]. intros x [->|Hx]%elem_of_cons; [done|].
    apply IH; [lia | done].
  - intros Hall. rewrite (Hall l) by left. rewrite (proj2 IH); [lia|].
    intros x Hx. apply Hall. by right.
Qed.

(** Lanes that are closed without success. *)
Definition lane_dead (l : DependencyPredecessor) : bool :=
  is_terminal (lane_status l) && negb (lane_completed l).

Lemma count_lanes_split lanes :
  count_lanes lane_completed lanes + count_lanes lane_open lanes + count_lanes lane_dead lanes
  = length lanes.
Proof.
  induction lanes as [|[s r] lanes IH]; [done|]. rewrite !count_lanes_cons. cbn [length].
  rewrite <- IH. generalize (count_lanes lane_completed lanes), (count_lanes lane_open lanes),
    (count_lanes lane_dead lanes). intros c o d. clear.
  assert (forall b1 b2 b3 : bool,
    (if b1 then 1 else 0) + (if b2 then 1 else 0) + (if b3 then 1 else 0) = 1 ->
    (if b1 then 1 else 0) + c + ((if b2 then 1 else 0) + o) + ((if b3 then 1 else 0) + d)
    = S (c + o + d)) as Hb by (intros; lia).
  apply Hb. by destruct s.
Qed.

(** Pointwise comparison of counts along evolving lanes. *)
Lemma count_lanes_mono (R : relation DependencyPredecessor) f g lanes lanes' :
  Forall2 R lanes lanes' -> (forall l l', R l l' -> f l = true -> g l' = true) ->
  count_lanes f lanes <= count_lanes g lanes'.
Proof.
  intros HR Hfg. induction HR as [|l l' lanes lanes' Hl _ IH]; [done|].
  rewrite !count_lanes_cons. specialize (Hfg l l' Hl).
  destruct (f l); [rewrite Hfg by done; lia|]. destruct (g l'); lia.
Qed.

(** ** What a policy decides *)

Lemma counted_target_spec required lanes :
  match counted_target required lanes with
  | Some Ready => required <= count_lanes lane_completed lanes
  | Some Blocked =>
      count_lanes lane_completed lanes + count_lanes lane_open lanes < required
  | None => count_lanes lane_completed lanes < required /\
            required <= count_lanes lane_completed lanes + count_lanes lane_open lanes
  | Some _ => False
  end.
Proof.
  unfold counted_target. destruct (Nat.leb_spec required (count_lanes lane_completed lanes)); [done|].
  destruct (Nat.ltb_spec (count_lanes lane_completed lanes + count_lanes lane_open lanes) required);
    lia.
Qed.

(** The readiness rule of every dependency policy: [All] releases a node
    exactly when every predecessor completed and blocks it exactly when one
    ended otherwise; [Any] and [Quorum] release it as soon as enough
    predecessors completed and block it exactly when too few can still
    complete; [Finally] releases it exactly when every predecessor is terminal
    and never blocks it. *)
Theorem dependency_target_policies lanes :
  (dependency_target PolicyAll lanes = Some Ready <->
     forall l, l ∈ lanes -> lane_status l = Completed) /\
  (dependency_target PolicyAll lanes = Some Blocked <->
     exists l, l ∈ lanes /\ is_terminal (lane_status l) = true /\ lane_status l <> Completed) /\
  (forall c, dependency_target (PolicyAny c) lanes = Some Ready <->
     exists l, l ∈ lanes /\ lane_status l = Completed) /\
  (forall c, dependency_target (PolicyAny c) lanes = Some Blocked <->
     forall l, l ∈ lanes -> is_terminal (lane_status l) = true /\ lane_status l <> Completed) /\
  (forall k c, dependency_target (PolicyQuorum k c) lanes = Some Ready <->
     N.to_nat k <= count_lanes lane_completed lanes) /\
  (forall k c, dependency_target (PolicyQuorum k c) lanes = Some Blocked <->
     count_lanes lane_completed lanes + count_lanes lane_open lanes < N.to_nat k) /\
  (dependency_target PolicyFinally lanes = Some Ready <->
     forall l, l ∈ lanes -> is_terminal (lane_status l) = true) /\
  dependency_target PolicyFinally lanes <> Some Blocked.
Proof.
  assert (Hdead : (exists l, l ∈ lanes /\ lane_dead l = true) <->
    exists l, l ∈ lanes /\ is_terminal (lane_status l) = true /\ lane_status l <> Completed).
  { unfold lane_dead, lane_completed. setoid_rewrite andb_true_iff.
    setoid_rewrite negb_true_iff. by setoid_rewrite bool_decide_eq_false. }
  assert (Hcomp : forall l, lane_completed l = true <-> lane_status l = Completed)
    by (intros l; apply bool_decide_eq_true).
  assert (Hready : forall k, counted_target k lanes = Some Ready <->
    k <= count_lanes lane_completed lanes).
  { intros k. pose proof (counted_target_spec k lanes) as Hs.
    destruct (counted_target k lanes) as [[]|]; try done; split; try done; lia. }
  assert (Hblocked : forall k, counted_target k lanes = Some Blocked <->
    count_lanes lane_completed lanes + count_lanes lane_open lanes < k).
  { intros k. pose proof (counted_target_spec k lanes) as Hs.
    destruct (counted_target k lanes) as [[]|]; try done; split; try done; lia. }
  pose proof (count_lanes_split lanes) as Hsplit.
  pose proof (count_lanes_le lane_completed lanes) as Hle.
  cbn [dependency_target]. split_and!; try (intros; apply Hready || apply Hblocked).
  - rewrite Hready. transitivity (count_lanes lane_completed lanes = length lanes); [lia|].
    rewrite count_lanes_all. by setoid_rewrite Hcomp.
  - rewrite Hblocked, <- Hdead, <- count_lanes_pos. lia.
  - intros _. rewrite Hready, count_lanes_pos. by setoid_rewrite Hcomp.
  - intros _. rewrite Hblocked.
    transitivity (count_lanes lane_dead lanes = length lanes); [lia|].
    rewrite count_lanes_all. unfold lane_dead, lane_completed. setoid_rewrite andb_true_iff.
    setoid_rewrite negb_true_iff. by setoid_rewrite bool_decide_eq_false.
  - destruct (forallb _ lanes) eqn:E; split; try done.
    + intros _. by apply forallb_elem_of.
    + intros Hall. apply (forallb_elem_of (fun l => is_terminal (lane_status l))) in Hall. congruence.
  - by destruct (forallb _ lanes).
Qed.

(** ** Decisions are final *)

(** A predecessor lane never leaves a terminal state; otherwise anything may
    happen to it. *)
Definition lane_evolves (l l' : DependencyPredecessor) : Prop :=
  is_terminal (lane_status l) = true -> l' = l.

Lemma evidence_ready_terminal l p :
  is_terminal (lane_status l) = true -> evidence_ready_satisfaction l p <> EvWaiting.
Proof.
  unfold evidence_ready_satisfaction. intros ->. cbn.
  destruct (lane_result l) as [r|]; [|done].
  by repeat match goal with |- context [if ?b then _ else _] => destruct b end.
Qed.

Lemma evidence_ready_open l p :
  is_terminal (lane_status l) = false -> evidence_ready_satisfaction l p = EvWaiting.
Proof. unfold evidence_ready_satisfaction. by intros ->. Qed.

Lemma counted_target_stable k lanes lanes' t :
  Forall2 lane_evolves lanes lanes' ->
  counted_target k lanes = Some t -> counted_target k lanes' = Some t.
Proof.
  intros HR.
  assert (Hcomp : count_lanes lane_completed lanes <= count_lanes lane_completed lanes').
  { apply (count_lanes_mono _ _ _ _ _ HR). intros [s r] l' Hl Hc.
    rewrite Hl; [done|]. unfold lane_completed in Hc. apply bool_decide_eq_true in Hc. cbn in *. by subst. }
  assert (Hdead : count_lanes lane_dead lanes <= count_lanes lane_dead lanes').
  { apply (count_lanes_mono _ _ _ _ _ HR). intros l l' Hl Hc. rewrite Hl; [done|].
    by apply andb_true_iff in Hc as [? _]. }
  pose proof (count_lanes_split lanes) as S1. pose proof (count_lanes_split lanes') as S2.
  pose proof (Forall2_length _ _ _ HR) as Hlen.
  pose proof (counted_target_spec k lanes) as C1. pose proof (counted_target_spec k lanes') as C2.
  destruct (counted_target k lanes) as [[]|]; try done; intros [= <-];
    destruct (counted_target k lanes') as [[]|]; try done; lia.
Qed.

(** A lane satisfies a predicate, may still do so, or never will. *)
Definition lane_ready (p : DependencyPredicate) (o : EvidenceReadyOutcome)
    (l : DependencyPredecessor) : bool :=
  bool_decide (evidence_ready_satisfaction l p = o).

Lemma lane_ready_split p lanes :
  count_lanes (lane_ready p EvSatisfied) lanes + count_lanes (lane_ready p EvWaiting) lanes
  + count_lanes (lane_ready p EvBlocked) lanes = length lanes.
Proof.
  induction lanes as [|l lanes IH]; [done|]. rewrite !count_lanes_cons. cbn [length].
  assert (Hl : forall o, lane_ready p o l = bool_decide (evidence_ready_satisfaction l p = o)) by done.
  rewrite <- IH, !Hl. destruct (evidence_ready_satisfaction l p);
    repeat case_bool_decide; try congruence; lia.
Qed.

Lemma lane_ready_mono p o lanes lanes' :
  o <> EvWaiting -> Forall2 lane_evolves lanes lanes' ->
  count_lanes (lane_ready p o) lanes <= count_lanes (lane_ready p o) lanes'.
Proof.
  intros Ho HR. apply (count_lanes_mono _ _ _ _ _ HR). intros l l' Hl Hs.
  rewrite Hl; [done|]. destruct (is_terminal (lane_status l)) eqn:E; [done|].
  unfold lane_ready in Hs. rewrite evidence_ready_open in Hs by done.
  apply bool_decide_eq_true in Hs. congruence.
Qed.

Lemma evidence_ready_target_stable p lanes lanes' t :
  Forall2 lane_evolves lanes lanes' ->
  evidence_ready_target p lanes = Some t -> evidence_ready_target p lanes' = Some t.
Proof.
  intros HR. pose proof (Forall2_length _ _ _ HR) as Hlen.
  pose proof (lane_ready_mono p EvSatisfied _ _ ltac:(done) HR) as Hsat.
  pose proof (lane_ready_mono p EvBlocked _ _ ltac:(done) HR) as Hblk.
  pose proof (lane_ready_split p lanes) as N1. pose proof (lane_ready_split p lanes') as N2.
  unfold evidence_ready_target. fold (lane_ready p EvSatisfied) (lane_ready p EvWaiting).
  destruct (bool_decide (N.to_nat (dp_minimum p) = 0)); [done|].
  destruct (Nat.leb_spec (N.to_nat (dp_minimum p)) (count_lanes (lane_ready p EvSatisfied) lanes)).
  { intros [= <-]. by rewrite (proj2 (Nat.leb_le _ _)) by lia. }
  destruct (Nat.leb_spec (N.to_nat (dp_minimum p))
    (count_lanes (lane_ready p EvSatisfied) lanes + count_lanes (lane_ready p EvWaiting) lanes));
    [done|]. intros [= <-].
  rewrite (proj2 (Nat.leb_gt _ (count_lanes (lane_ready p EvSatisfied) lanes'))) by lia.
  by rewrite (proj2 (Nat.leb_gt _ _)) by lia.
Qed.

(** The scheduler never changes its mind: once the predecessors of a node
    decide that it is released or blocked, whatever the predecessors that are
    not yet terminal do later, the decision stays the same, under every
    policy. *)
Theorem dependency_target_stable policy lanes lanes' t :
  Forall2 lane_evolves lanes lanes' ->
  dependency_target policy lanes = Some t -> dependency_target policy lanes' = Some t.
Proof.
  intros HR. destruct policy as [|c|k c|p c|]; cbn [dependency_target].
  - rewrite <- (Forall2_length _ _ _ HR). by apply counted_target_stable.
  - by apply counted_target_stable.
  - by apply counted_target_stable.
  - by apply evidence_ready_target_stable.
  - destruct (forallb _ lanes) eqn:E; [|done]. intros [= <-].
    assert (forallb (fun l => is_terminal (lane_status l)) lanes' = true) as ->; [|done].
    induction HR as [|l l' lanes lanes' Hl _ IH]; [done|]. cbn in E |- *.
    apply andb_true_iff in E as [Hl1 E]. rewrite (Hl Hl1), Hl1. auto.
Qed.

(** A node that is neither released nor blocked waits for a predecessor that is
    still open. *)
Lemma dependency_target_waits policy lanes :
  dependency_target policy lanes = None ->
  exists l, l ∈ lanes /\ is_terminal (lane_status l) = false.
Proof.
  intros Ht.
  assert (Hopen : 1 <= count_lanes lane_open lanes ->
    exists l, l ∈ lanes /\ is_terminal (lane_status l) = false).
  { intros (l & Hl & Ho%negb_true_iff)%count_lanes_pos. eauto. }
  assert (Hcount : forall k, counted_target k lanes = None -> 1 <= count_lanes lane_open lanes).
  { intros k Hk. pose proof (counted_target_spec k lanes) as Hs. rewrite Hk in Hs. lia. }
  destruct policy as [|c|k c|p c|]; cbn in Ht; eauto.
  - apply Hopen. unfold evidence_ready_target in Ht.
    destruct (bool_decide _); [done|]. destruct (Nat.leb_spec (N.to_nat (dp_minimum p))
      (count_lanes (fun l => bool_decide (evidence_ready_satisfaction l p = EvSatisfied)) lanes)) as [|H1];
      [done|].
    destruct (Nat.leb_spec (N.to_nat (dp_minimum p))
      (count_lanes (fun l => bool_decide (evidence_ready_satisfaction l p = EvSatisfied)) lanes
       + count_lanes (fun l => bool_decide (evidence_ready_satisfaction l p = EvWaiting)) lanes)) as [H2|];
      [|done].
    assert (Hw : 1 <= count_lanes (fun l => bool_decide (evidence_ready_satisfaction l p = EvWaiting)) lanes)
      by lia.
    apply count_lanes_pos in Hw as (l & Hl & Hw%bool_decide_eq_true). apply count_lanes_pos.
    exists l. split; [done|]. unfold lane_open. apply negb_true_iff.
    destruct (is_terminal (lane_status l)) eqn:E; [|done].
    by apply evidence_ready_terminal with (p := p) in E.
  - apply Hopen. destruct (forallb _ lanes) eqn:E; [done|]. clear -E.
    induction lanes as [|l lanes IH]; [done|]. cbn in E. rewrite count_lanes_cons.
    unfold lane_open at 1. destruct (is_terminal (lane_status l)); cbn in *; [auto | lia].
Qed.

(** ** Scheduling a validated graph *)

Definition every_node_has_status (g : ExecutionGraph) : Prop :=
  forall node, node ∈ eg_nodes g -> is_Some (eg_node_statuses g !! ns_id node).

(** Sources of the edges into a node. *)
Definition edges_known (g : ExecutionGraph) : Prop :=
  forall e, e ∈ dependency_edges g -> is_Some (eg_node_statuses g !! edge_from e).

Lemma node_ids_status g id :
  every_node_has_status g -> id ∈ node_ids g -> is_Some (eg_node_statuses g !! id).
Proof. intros Htot (node & -> & Hin)%list_elem_of_fmap. auto. Qed.

Lemma WellFormed_edges_known g : WellFormed g -> every_node_has_status g -> edges_known g.
Proof.
  intros Hwf Htot e He. apply node_ids_status; [done|].
  assert (dep_edge g (edge_from e) (edge_to e)) as Hd by (exists e; auto).
  by apply (wf_edges g Hwf) in Hd as [? _].
Qed.

Lemma predecessor_edges_dep g id e :
  e ∈ predecessor_edges g id <-> e ∈ dependency_edges g /\ edge_to e = id.
Proof.
  unfold predecessor_edges, dependency_edges. rewrite !elem_of_filterb, andb_true_iff, String.eqb_eq.
  tauto.
Qed.

Lemma verified_predecessor_status_total g id refs :
  is_Some (eg_node_statuses g !! id) ->
  exists s s', eg_node_statuses g !! id = Some s /\
    verified_predecessor_status g id refs = Done s' /\
    (is_terminal s' = is_terminal s) /\ (is_terminal s = false -> s' = s).
Proof.
  intros [s Hs]. exists s. unfold verified_predecessor_status. rewrite Hs.
  destruct (negb (bool_decide (s = Completed)) || bool_decide (refs = [])) eqn:E; [by exists s|].
  apply orb_false_iff in E as [->%negb_false_iff%bool_decide_eq_true _].
  match goal with |- context [if ?b then _ else _] => destruct b end; by eexists.
Qed.

(** The lanes of a node follow its dependency edges, in order. *)
Lemma dependency_predecessors_spec g node :
  edges_known g ->
  exists lanes, dependency_predecessors g node = Done lanes /\
    Forall2 (fun l e => verified_predecessor_status g (edge_from e) (required_refs node)
                          = Done (lane_status l) /\
                        lane_result l = eg_node_results g !! edge_from e)
      lanes (predecessor_edges g (ns_id node)).
Proof.
  intros Hk. unfold dependency_predecessors.
  assert (Hin : forall e, e ∈ predecessor_edges g (ns_id node) ->
            is_Some (eg_node_statuses g !! edge_from e))
    by (intros e [He _]%predecessor_edges_dep; auto).
  assert (Hgen : forall es acc, (forall e, e ∈ es -> is_Some (eg_node_statuses g !! edge_from e)) ->
    exists lanes, exec_fold (fun lanes e =>
      status ← verified_predecessor_status g (edge_from e) (required_refs node);
      Done (lanes ++ [{| lane_status := status; lane_result := eg_node_results g !! edge_from e |}]))
      acc es = Done (acc ++ lanes) /\
      Forall2 (fun l e => verified_predecessor_status g (edge_from e) (required_refs node)
                            = Done (lane_status l) /\
                          lane_result l = eg_node_results g !! edge_from e) lanes es).
  { intros es. induction es as [|e es IH]; intros acc Hes.
    - exists []. by rewrite app_nil_r.
    - destruct (verified_predecessor_status_total g (edge_from e) (required_refs node)
                  (Hes e ltac:(left))) as (s & s' & _ & Hv & _).
      destruct (IH (acc ++ [{| lane_status := s'; lane_result := eg_node_results g !! edge_from e |}]))
        as (lanes & Hl & HF); [intros; apply Hes; by right|].
      eexists (_ :: lanes). cbn [exec_fold]. rewrite Hv. cbn. rewrite Hl, <- app_assoc.
      split; [done|]. by constructor. }
  by destruct (Hgen _ [] Hin) as (lanes & ? & ?); exists lanes.
Qed.

Lemma node_target_total g node : edges_known g -> exists t, node_target g node = Done t.
Proof.
  intros Hk. destruct (dependency_predecessors_spec g node Hk) as (lanes & Hl & _).
  unfold node_target. rewrite Hl. cbn. by eexists.
Qed.

(** A waiting node has an open predecessor. *)
Lemma node_target_waits g node :
  edges_known g -> node_target g node = Done None ->
  exists u s, dep_edge g u (ns_id node) /\ eg_node_statuses g !! u = Some s /\
    is_terminal s = false.
Proof.
  intros Hk Ht. destruct (dependency_predecessors_spec g node Hk) as (lanes & Hl & HF).
  unfold node_target in Ht. rewrite Hl in Ht. injection Ht as Ht.
  destruct (dependency_target_waits _ _ Ht) as (l & Hin & Hopen).
  apply list_elem_of_lookup in Hin as [i Hi].
  destruct (Forall2_lookup_l _ _ _ _ _ HF Hi) as (e & He & Hv & _).
  apply list_elem_of_lookup_2, predecessor_edges_dep in He as [Hdep Hto].
  destruct (verified_predecessor_status_total g (edge_from e) (required_refs node) (Hk e Hdep))
    as (s & s' & Hs & Hv' & Hterm & _).
  rewrite Hv in Hv'. injection Hv' as <-.
  exists (edge_from e), s. split_and!; [by exists e | done | congruence].
Qed.

(** C40. No node is stranded.  In a graph that passed validation and in which
    every node has a status, if the scheduler has nothing left to release or
    block and no node is active (ready, running, waiting or paused), then every
    node has reached a terminal state. *)
Theorem scheduler_strands_no_node g
  (Hwf : WellFormed g) (Htot : every_node_has_status g)
  (Hfix : forall node, node ∈ eg_nodes g -> eg_node_statuses g !! ns_id node = Some Planned ->
     node_target g node = Done None)
  (Hidle : forall node s, node ∈ eg_nodes g -> eg_node_statuses g !! ns_id node = Some s ->
     s = Planned \/ is_terminal s = true) :
  forall node, node ∈ eg_nodes g ->
    exists s, eg_node_statuses g !! ns_id node = Some s /\ is_terminal s = true.
Proof.
  pose proof (WellFormed_edges_known g Hwf Htot) as Hk.
  intros node Hin. destruct (Htot node Hin) as [s Hs]. exists s. split; [done|].
  destruct (Hidle node s Hin Hs) as [->|]; [|done]. exfalso.
  set (U := List.filter (fun id => bool_decide (eg_node_statuses g !! id = Some Planned)) (node_ids g)).
  assert (HU : forall id, id ∈ U <-> id ∈ node_ids g /\ eg_node_statuses g !! id = Some Planned)
    by (intros id; unfold U; by rewrite elem_of_filterb, bool_decide_eq_true).
  destruct (stuck_cycle g U (ns_id node)) as [v Hv].
  - apply HU. split; [by apply list_elem_of_fmap_2 | done].
  - intros v [(n & -> & Hn)%list_elem_of_fmap Hp]%HU.
    destruct (node_target_waits g n Hk (Hfix n Hn Hp)) as (u & su & Hdep & Hsu & Hopen).
    exists u. split; [|done]. apply HU. destruct (wf_edges g Hwf _ _ Hdep) as [Hu _]. split; [done|].
    apply list_elem_of_fmap in Hu as (nu & -> & Hnu).
    destruct (Hidle nu su Hnu Hsu) as [->|Hc]; [done | congruence].
  - by apply (wf_acyclic g Hwf) in Hv.
Qed.

(** ** Quorum tails *)

(** A quorum only ever cancels redundant optional work: every node the
    scheduler cancels is an optional, still open predecessor of a ready consumer
    whose policy asks for it, in the same cancellation group, and it is listed
    once. *)
Theorem quorum_tail_sound g id :
  id ∈ quorum_tail_cancellations g ->
  NoDup (quorum_tail_cancellations g) /\
  exists consumer cwork node work s group,
    consumer ∈ eg_nodes g /\ eg_node_statuses g !! ns_id consumer = Some Ready /\
    ns_work consumer = Some cwork /\ policy_cancel_remaining (wc_dependency cwork) = true /\
    dep_edge g id (ns_id consumer) /\
    node ∈ eg_nodes g /\ ns_id node = id /\ ns_work node = Some work /\
    wc_required work = false /\
    wc_cancellation_group cwork = Some group /\ wc_cancellation_group work = Some group /\
    eg_node_statuses g !! id = Some s /\ is_terminal s = false.
Proof.
  intros Hid. split; [apply NoDup_btree_set_iter|].
  unfold quorum_tail_cancellations in Hid. rewrite elem_of_btree_set_iter, elem_of_list_to_set in Hid.
  apply list_elem_of_bind in Hid as (consumer & Hid & Hc). exists consumer.
  unfold consumer_cancellations in Hid.
  destruct (bool_decide_reflect (eg_node_statuses g !! ns_id consumer = Some Ready)) as [Hr|];
    cbn in Hid; [|by apply not_elem_of_nil in Hid].
  destruct (ns_work consumer) as [cwork|] eqn:Ew; [|by apply not_elem_of_nil in Hid].
  destruct (policy_cancel_remaining (wc_dependency cwork)) eqn:Ecr; cbn in Hid;
    [|by apply not_elem_of_nil in Hid].
  destruct (wc_cancellation_group cwork) as [group|] eqn:Eg; [|by apply not_elem_of_nil in Hid].
  apply elem_of_filterb in Hid as [(e & -> & [He Hto]%predecessor_edges_dep)%list_elem_of_fmap Htc].
  unfold tail_cancellable in Htc.
  destruct (List.find _ _) as [node|] eqn:Ef; [|done].
  apply find_some in Ef as [Hn Hnid%String.eqb_eq]. apply list_elem_of_In in Hn.
  apply andb_true_iff in Htc as [Hw Hst].
  destruct (ns_work node) as [work|] eqn:Enw; [|done].
  apply andb_true_iff in Hw as [Hreq%negb_true_iff Hgr%bool_decide_eq_true].
  destruct (eg_node_statuses g !! edge_from e) as [s|] eqn:Es; [|done].
  apply negb_true_iff in Hst.
  exists cwork, node, work, s, group. split_and!; try done. exists e. auto.
Qed.
