(* ===== verification/Scheduler.v ===== *)
(** * The dependency pump

    [advance_dependencies] of [runner.rs]: the scheduler's fixpoint loop, which
    commits one transition for every planned node whose policy decided, until
    nothing changes.  It returns, its result is a fixpoint, and every change it
    made is a decision of a policy. *)

From S2P Require Import Prelude.
From S2P Require Import Facts.
From S2P Require Import Contract.
From S2P Require Import Validation.
From S2P Require Import Transition.
From S2P Require Import Delta.
From S2P Require Import Sizes.
From S2P Require Import Ports.
From S2P Require Import Backend.
From S2P Require Import StateStore.
From S2P Require Import Commit.
From S2P Require Import Durability.
From S2P Require Import Operations.
From S2P Require Import History.
From S2P Require Import Commands.
From S2P Require Import Dependency.

Inductive ExecutionRunnerError :=
| RunState (e : ExecutionStateStoreError)
| RunCommit (e : ExecutionCommitError).

Section Scheduler.
Context {Value S : Type} `{EqDecision Value} `{Json Value} `{!JsonLaws Value}
  `{EventBackend Value S} `{!EventBackendLaws Value S} `{!CommitEnv Value S} `{MemLayout}.

Abbreviation State := (CommitState (S := S)).
Abbreviation RunnerResult := (Result ExecutionRunnerError).

(** The planned nodes; [graph.node_statuses[id]] panics on an unknown id. *)
Fixpoint planned_ids (g : ExecutionGraph) (nodes : list ExecutionNodeSpec) : Exec (list string) :=
  match nodes with
  | [] => Done []
  | node :: rest =>
      match eg_node_statuses g !! ns_id node with
      | None => Panic
      | Some s =>
          ids ← planned_ids g rest;
          Done (if decide (s = Planned) then ns_id node :: ids else ids)
      end
  end.

(** The decision for one node, on the current graph. *)
Definition pump_target (g : ExecutionGraph) (node_id : string) :
  Exec (option ExecutionNodeStatus) :=
  match List.find (fun node => String.eqb (ns_id node) node_id) (eg_nodes g) with
  | Some node => node_target g node
  | None => Done (dependency_target PolicyAll [])
  end.

(** One pass over the planned nodes. *)
Fixpoint advance_pass (g : ExecutionGraph) (changed : bool) (st : State) (ids : list string) :
  Exec (RunnerResult (ExecutionGraph * bool) * State) :=
  match ids with
  | [] => Done (Ok (g, changed), st)
  | node_id :: rest =>
      target ← pump_target g node_id;
      match target with
      | None => advance_pass g changed st rest
      | Some t =>
          match transition_node g node_id t None [] st with
          | (Ok receipt, st') => advance_pass (cr_graph receipt) true st' rest
          | (Err e, st') => Done (Err (RunCommit e), st')
          end
      end
  end.

Fixpoint advance_loop (fuel : nat) (g : ExecutionGraph) (st : State) :
  Exec (RunnerResult ExecutionGraph * State) :=
  match fuel with
  | 0 => OutOfFuel
  | Datatypes.S fuel' =>
      planned ← planned_ids g (eg_nodes g);
      out ← advance_pass g false st planned;
      match out with
      | (Err e, st') => Done (Err e, st')
      | (Ok (g', true), st') => advance_loop fuel' g' st'
      | (Ok (g', false), st') => Done (Ok g', st')
      end
  end.

(** [advance_dependencies] *)
Definition advance_dependencies (fuel : nat) (graph_id : string) (st : State) :
  Exec (RunnerResult ExecutionGraph * State) :=
  match load_snapshot false (sv_store st) (sv_hot st) graph_id with
  | (Err e, hot) => Done (Err (RunState e), with_hot st hot)
  | (Ok g, hot) => advance_loop fuel g (with_hot st hot)
  end.

(** ** One committed decision *)

(** What the pump may do to a graph: planned nodes become ready or blocked. *)
Record advances (g g' : ExecutionGraph) : Prop := {
  ad_topology : topology_of g' = topology_of g;
  ad_status : forall id, eg_node_statuses g' !! id = eg_node_statuses g !! id \/
    (eg_node_statuses g !! id = Some Planned /\
     (eg_node_statuses g' !! id = Some Ready \/ eg_node_statuses g' !! id = Some Blocked));
  ad_results : eg_node_results g' = eg_node_results g
}.

#[export] Instance advances_preorder : PreOrder advances.
Proof.
  split; [by split; auto|]. intros g1 g2 g3 [T1 S1 R1] [T2 S2 R2].
  split; [congruence | | congruence]. intros id.
  destruct (S1 id) as [E1|[P1 E1]], (S2 id) as [E2|[P2 E2]].
  - left. congruence.
  - right. rewrite <- E1. auto.
  - right. rewrite E2. auto.
  - exfalso. destruct E1; congruence.
Qed.

Definition planned_count (g : ExecutionGraph) : nat :=
  size (filter (fun kv => kv.2 = Planned) (eg_node_statuses g)).

Lemma dependency_target_decides policy lanes t :
  dependency_target policy lanes = Some t -> t = Ready \/ t = Blocked.
Proof.
  assert (Hc : forall k, counted_target k lanes = Some t -> t = Ready \/ t = Blocked).
  { intros k Hk. pose proof (counted_target_spec k lanes) as Hs. rewrite Hk in Hs. destruct t; auto; done. }
  destruct policy as [| | |p c|]; cbn; eauto.
  - unfold evidence_ready_target.
    repeat match goal with |- context [if ?b then _ else _] => destruct b end;
      intros [= <-]; auto.
  - destruct (forallb _ _); intros [= <-]. auto.
Qed.

Lemma planned_count_decided g id t :
  eg_node_statuses g !! id = Some Planned -> t <> Planned ->
  planned_count g = Datatypes.S (size (filter (fun kv => kv.2 = Planned) (<[id := t]> (eg_node_statuses g)))).
Proof.
  intros Hp Ht. unfold planned_count. rewrite map_filter_insert_False by done.
  rewrite <- (insert_delete_id (eg_node_statuses g) id Planned Hp) at 1.
  rewrite map_filter_insert_True by done. rewrite map_size_insert_None; [done|].
  apply map_lookup_filter_None. left. apply lookup_delete_eq.
Qed.

(** A committed decision on a planned node. *)
Lemma transition_decided g id t (st st' : State) r :
  eb_inv (sv_store st) -> transition_node g id t None [] st = (Ok r, st') ->
  eg_node_statuses g !! id = Some Planned -> t = Ready \/ t = Blocked ->
  advances g (cr_graph r) /\ eg_node_statuses (cr_graph r) !! id = Some t /\
  planned_count g = Datatypes.S (planned_count (cr_graph r)) /\
  (forall id', id' <> id -> eg_node_statuses (cr_graph r) !! id' = eg_node_statuses g !! id') /\
  eb_inv (sv_store st').
Proof.
  intros Hinv Ht Hp Hrb. unfold transition_node, commit in Ht.
  destruct (prepare_transition_node g id t None []) as [p|] eqn:Ep; [|discriminate].
  pose proof (append_retrying_once p st Hinv) as Honce. rewrite Ht in Honce.
  assert (Hst : eg_node_statuses (pr_next p) = <[id := t]> (eg_node_statuses g) /\
            topology_of (pr_next p) = topology_of g /\
            eg_node_results (pr_next p) = eg_node_results g).
  { unfold prepare_transition_node in Ep. ok_inv. subst p.
    match goal with Hc : transition_checked _ _ _ _ = Ok _ |- _ =>
      apply transition_checked_Ok in Hc as -> end. done. }
  destruct Hst as (Hs & Htop & Hres).
  assert (Hg : cr_graph r = set_commit_cursor (pr_next p) (rcp_commit_cursor (cr_transaction r))
            /\ eb_inv (sv_store st')).
  { unfold append_graph_event in Honce.
    destruct (prepare_request (sv_store st) p) as [[req term]|]; [|discriminate].
    destruct (eb_append req term (sv_store st)) as [[tx|e] s'] eqn:Ea; [|discriminate].
    injection Honce as <- <-. split; [done|]. by eapply eb_append_inv. }
  destruct Hg as [-> Hinv']. cbn [set_commit_cursor eg_node_statuses].
  split_and!; try done.
  - split; cbn; [exact Htop | | done]. intros id'. rewrite Hs.
    destruct (decide (id = id')) as [<-|Hne].
    + right. rewrite lookup_insert_eq. split; [done|]. destruct Hrb as [-> | ->]; auto.
    + left. by rewrite lookup_insert_ne.
  - rewrite Hs. apply lookup_insert_eq.
  - rewrite (planned_count_decided g id t Hp) by (by destruct Hrb as [-> | ->]).
    unfold planned_count. cbn. by rewrite Hs.
  - intros id' Hne. rewrite Hs. by apply lookup_insert_ne.
Qed.

(** ** The fixpoint *)

Definition at_fixpoint (g : ExecutionGraph) : Prop :=
  forall node, node ∈ eg_nodes g -> eg_node_statuses g !! ns_id node = Some Planned ->
    node_target g node = Done None.

(** What the pump needs from the graph it works on. *)
Record pumpable (g : ExecutionGraph) : Prop := {
  pu_ids : NoDup (node_ids g);
  pu_status : every_node_has_status g;
  pu_edges : edges_known g
}.

Lemma advances_status_kept g g' id :
  advances g g' -> is_Some (eg_node_statuses g !! id) -> is_Some (eg_node_statuses g' !! id).
Proof.
  intros [_ Hs _] [s Hid]. destruct (Hs id) as [-> | [_ [-> | ->]]]; eauto.
Qed.

Lemma advances_pumpable g g' : advances g g' -> pumpable g -> pumpable g'.
Proof.
  intros Ha [Hnd Hst He]. pose proof (ad_topology _ _ Ha) as [= _ _ Hn Hed]. split.
  - unfold node_ids. by rewrite Hn.
  - intros node. rewrite Hn. intros Hin. by eapply advances_status_kept; [|apply Hst].
  - intros e. unfold dependency_edges. rewrite Hed. intros Hin.
    by eapply advances_status_kept; [|apply He].
Qed.

Lemma pump_target_node g node :
  NoDup (node_ids g) -> node ∈ eg_nodes g -> pump_target g (ns_id node) = node_target g node.
Proof.
  intros Hnd Hin. unfold pump_target. destruct (List.find _ _) as [n|] eqn:Ef.
  - apply find_some in Ef as [Hn Hid%String.eqb_eq]. apply list_elem_of_In in Hn.
    by rewrite (ns_id_inj _ _ _ Hnd Hn Hin Hid).
  - apply find_none with (x := node) in Ef; [|by apply list_elem_of_In].
    by rewrite String.eqb_refl in Ef.
Qed.

Definition planned_node (g : ExecutionGraph) (id : string) : Prop :=
  exists node, node ∈ eg_nodes g /\ ns_id node = id /\ eg_node_statuses g !! id = Some Planned.

Lemma planned_ids_spec g nodes :
  every_node_has_status g -> nodes ⊆ eg_nodes g ->
  exists ids, planned_ids g nodes = Done ids /\ ids `sublist_of` (ns_id <$> nodes) /\
    (forall id, id ∈ ids -> planned_node g id) /\
    (forall node, node ∈ nodes -> eg_node_statuses g !! ns_id node = Some Planned ->
       ns_id node ∈ ids).
Proof.
  intros Hst. induction nodes as [|node nodes IH]; intros Hsub.
  - exists []. split_and!; [done | done | by intros ? ?%not_elem_of_nil | by intros ? ?%not_elem_of_nil].
  - destruct IH as (ids & Hids & Hsl & Hpl & Hall); [intros x ?; apply Hsub; by right|].
    destruct (Hst node) as [s Hs]; [apply Hsub; left|]. cbn. rewrite Hs, Hids. cbn.
    destruct (decide (s = Planned)) as [->|Hne]; eexists; (split; [done|]); split_and!.
    + by apply sublist_skip.
    + intros id [->|Hid]%elem_of_cons; [|auto]. exists node. split_and!; [apply Hsub; left | done..].
    + intros n [->|Hn]%elem_of_cons Hp; [left | right; auto].
    + by apply sublist_cons.
    + done.
    + intros n [->|Hn]%elem_of_cons Hp; [congruence | auto].
Qed.

(** One pass returns; it either changed nothing and found every planned node
    waiting, or made progress. *)
Lemma advance_pass_spec ids : forall g changed st,
  eb_inv (sv_store st) -> pumpable g -> NoDup ids -> (forall id, id ∈ ids -> planned_node g id) ->
  exists res st', advance_pass g changed st ids = Done (res, st') /\ eb_inv (sv_store st') /\
    match res with
    | Err _ => True
    | Ok (g', c) => advances g g' /\ (changed = true -> c = true) /\
        (c = true -> changed = true \/ planned_count g' < planned_count g) /\
        planned_count g' <= planned_count g /\
        (c = false -> g' = g /\ forall id, id ∈ ids -> pump_target g id = Done None)
    end.
Proof.
  induction ids as [|id ids IH]; intros g changed st Hinv Hpu Hnd Hids; cbn [advance_pass].
  { exists (Ok (g, changed)), st. split_and!; [done | done | done | done | auto | lia |].
    intros _. split; [done|]. by intros ? ?%not_elem_of_nil. }
  apply NoDup_cons in Hnd as [Hid Hnd].
  destruct (Hids id) as (node & Hin & <- & Hp); [left|].
  rewrite (pump_target_node g node (pu_ids g Hpu) Hin).
  destruct (node_target_total g node (pu_edges g Hpu)) as [[t|] Ht]; rewrite Ht; cbn [mbind Exec_bind].
  - assert (t = Ready \/ t = Blocked) as Hrb.
    { unfold node_target in Ht. destruct (dependency_predecessors g node) as [lanes| |]; try done.
      injection Ht as Ht. by eapply dependency_target_decides. }
    destruct (transition_node g (ns_id node) t None [] st) as [[r|e] st1] eqn:Etr.
    + destruct (transition_decided _ _ _ _ _ _ Hinv Etr Hp Hrb) as (Hadv & _ & Hcount & Hoth & Hinv1).
      destruct (IH (cr_graph r) true st1 Hinv1) as (res & st' & Hpass & Hinv' & Hres);
        [by eapply advances_pumpable | done | |].
      { intros id' Hid'. destruct (Hids id') as (n & Hn & <- & Hnp); [by right|].
        exists n. pose proof (ad_topology _ _ Hadv) as [= _ _ HN _]. rewrite HN.
        split_and!; [done | done|]. rewrite Hoth; [done|]. congruence. }
      exists res, st'. split_and!; [done | done|]. destruct res as [[g' c]|]; [|done].
      destruct Hres as (Hadv' & Hc & _ & Hle & _). specialize (Hc eq_refl). subst c.
      split_and!; [by etrans | done | intros _; right; lia | lia | done].
    + exists (Err (RunCommit e)), st1. split_and!; [done | | done].
      unfold transition_node, commit in Etr.
      destruct (prepare_transition_node _ _ _ _ _) as [p|]; [|by injection Etr as _ <-].
      pose proof (append_retrying_once p st Hinv) as Honce. rewrite Etr in Honce. by subst.
  - destruct (IH g changed st Hinv Hpu Hnd) as (res & st' & Hpass & Hinv' & Hres);
      [intros; apply Hids; by right|].
    exists res, st'. split_and!; [done | done|]. destruct res as [[g' c]|]; [|done].
    destruct Hres as (R1 & R2 & R3 & R4 & R5). split_and!; try done.
    intros Hc. destruct (R5 Hc) as [-> Hall]. split; [done|].
    intros id' [->|Hid']%elem_of_cons; [|auto].
    by rewrite (pump_target_node g node (pu_ids g Hpu) Hin).
Qed.

Lemma advance_loop_spec fuel : forall g st,
  eb_inv (sv_store st) -> pumpable g -> planned_count g < fuel ->
  exists res st', advance_loop fuel g st = Done (res, st') /\
    match res with
    | Err _ => True
    | Ok g' => advances g g' /\ at_fixpoint g'
    end.
Proof.
  induction fuel as [|fuel IH]; intros g st Hinv Hpu Hfuel; [lia|]. cbn [advance_loop].
  destruct (planned_ids_spec g (eg_nodes g) (pu_status g Hpu)) as (ids & Hids & Hsl & Hpl & Hall);
    [done|]. rewrite Hids. cbn [mbind Exec_bind].
  assert (NoDup ids) as Hnd by (eapply sublist_NoDup; [apply Hpu | exact Hsl]).
  destruct (advance_pass_spec ids g false st Hinv Hpu Hnd Hpl) as (res & st1 & Hpass & Hinv1 & Hres).
  rewrite Hpass. cbn [mbind Exec_bind]. destruct res as [[g1 [|]]|e]; [| |by eexists _, _].
  - destruct Hres as (Hadv & _ & Hprog & _ & _).
    destruct (Hprog eq_refl) as [?|Hlt]; [done|].
    destruct (IH g1 st1 Hinv1) as (res & st' & Hl & Hres); [by eapply advances_pumpable | lia|].
    exists res, st'. split; [done|]. destruct res as [g'|]; [|done]. destruct Hres as [Hadv' Hfix].
    split; [by etrans | done].
  - destruct Hres as (Hadv & _ & _ & _ & Hwait). destruct (Hwait eq_refl) as [-> Hnone].
    eexists _, _. split; [done|]. split; [done|]. intros node Hin Hp.
    rewrite <- (pump_target_node g node (pu_ids g Hpu) Hin). auto.
Qed.

End Scheduler.
