(* ===== verification/Terminal.v ===== *)
(** * Terminal commits, and what replay does not bring back

    The terminal commit of a finished node ([runner.rs]) patches the delivery
    envelope and the terminal presentation into the graph it passes to the
    commit service as the previous graph, so the persisted delta does not carry
    them; and replanning accepts an edge that exists already, which a delta
    cannot carry either.  In both cases the published graph and the replayed one
    part.  These theorems state exactly what is lost. *)

From S2P Require Import Prelude.
From S2P Require Import Facts.
From S2P Require Import Contract.
From S2P Require Import Validation.
From S2P Require Import Transition.
From S2P Require Import Delta.
From S2P Require Import Sizes.
From S2P Require Import Ports.
From S2P Require Import Backend.
From S2P Require Import StateStore.
From S2P Require Import Commit.
From S2P Require Import Durability.
From S2P Require Import Operations.
From S2P Require Import History.
From S2P Require Import Commands.
From S2P Require Import Dependency.
From S2P Require Import Scheduler.

Section Terminal.
Context {Value S : Type} `{EqDecision Value} `{Json Value} `{!JsonLaws Value}
  `{EventBackend Value S} `{!EventBackendLaws Value S} `{!CommitEnv Value S} `{MemLayout}.

Abbreviation State := (CommitState (S := S)).

(** The writes to [current] before the transition. *)
Definition patch_delivery (g : ExecutionGraph) (envelope : option DeliveryEnvelope)
    (presentation : option TerminalPresentation) : ExecutionGraph :=
  {| eg_id := eg_id g; eg_revision := eg_revision g; eg_objective := eg_objective g;
     eg_service_class := eg_service_class g; eg_parent_execution := eg_parent_execution g;
     eg_lineage := eg_lineage g; eg_continuation_binding := eg_continuation_binding g;
     eg_nodes := eg_nodes g; eg_edges := eg_edges g; eg_node_statuses := eg_node_statuses g;
     eg_node_results := eg_node_results g; eg_recovery_cursor := eg_recovery_cursor g;
     eg_delivery_envelope :=
       match envelope with Some e => Some e | None => eg_delivery_envelope g end;
     eg_terminal_presentation :=
       match presentation with Some x => Some x | None => eg_terminal_presentation g end |}.

(** The terminal commit of one node: [Ok None] when a command superseded it. *)
Definition commit_outcome (graph_id node_id : string) (outcome : NodeExecutionOutcome Value)
    (st : State) : Result ExecutionRunnerError (option ExecutionCommitReceipt) * State :=
  match load_snapshot false (sv_store st) (sv_hot st) graph_id with
  | (Err e, hot) => (Err (RunState e), with_hot st hot)
  | (Ok loaded, hot) =>
      let st1 := with_hot st hot in
      if negb (bool_decide (eg_node_statuses loaded !! node_id = Some Running))
      then (Ok None, st1)
      else
        let current := patch_delivery loaded (oc_delivery_envelope outcome)
                         (oc_terminal_presentation outcome) in
        let '(out, st') :=
          match oc_replan outcome with
          | Some replan =>
              transition_node_with_replan current node_id (oc_result outcome)
                (oc_domain_events outcome) (rpl_nodes replan) (rpl_edges replan)
                (rpl_reason replan) st1
          | None =>
              transition_node current node_id (nr_status (oc_result outcome))
                (Some (oc_result outcome)) (oc_domain_events outcome) st1
          end in
        match out with
        | Ok receipt => (Ok (Some receipt), st')
        | Err e => (Err (RunCommit e), st')
        end
  end.

(** ** Replaying one more delta *)

(** When the delta itself is persisted, replay yields what applying it to the
    durable graph yields, whatever graph was published. *)
Lemma append_delta_replay g g' d p (st st' : State) r :
  eb_inv (sv_store st) -> replay (sv_store st) (eg_id g) = Ok g ->
  eg_id (pr_next p) = eg_id g -> pr_expected p = eg_revision g ->
  maybe_checkpoint (pr_next p) (pr_event p) = pr_event p ->
  event_payload (pr_event p) = inr d -> delta_apply d g = Ok g' ->
  eg_id g' = eg_id g -> eg_revision g' = (eg_revision g + 1)%N ->
  append_graph_event p st = (Ok r, st') -> fresh_receipt r ->
  replay (sv_store st') (eg_id g)
    = Ok (set_commit_cursor g' (rcp_commit_cursor (cr_transaction r))).
Proof.
  intros Hinv Hrep Hid Hexp Hck Hpl Hd Hid' Hrev' Ha Hfresh.
  destruct (append_graph_event_fresh _ _ _ _ Hinv Ha Hfresh)
    as (_ & _ & _ & _ & (l & e & Hl & Hcore & Hcar & Hseq & Hcur) & _).
  rewrite Hck in Hcar. rewrite Hid in Hl, Hcore. unfold replay. rewrite Hl, <- Hcur.
  apply (project_graph_events_snoc _ l g _ (pr_event p)); try done.
  - by rewrite (project_graph_events_core _ _ _ Hcore).
  - apply Hcar.
  - by apply carries_decode.
  - by apply carries_checkpoint.
  - unfold event_project. rewrite Hpl. done.
  - by rewrite Hrev', Hseq, Hexp.
Qed.

(** Applying a delta that does not mention the delivery fields keeps them. *)
Lemma delta_apply_patched d g envelope presentation n :
  d_delivery_envelope d = None -> d_terminal_presentation d = None ->
  delta_apply d (patch_delivery g envelope presentation) = Ok n ->
  exists n', delta_apply d g = Ok n' /\ eg_id n' = eg_id n /\ eg_revision n' = eg_revision n /\
    eg_node_statuses n' = eg_node_statuses n /\ eg_node_results n' = eg_node_results n /\
    eg_delivery_envelope n' = eg_delivery_envelope g /\
    eg_terminal_presentation n' = eg_terminal_presentation g.
Proof.
  intros He Hp Hd. unfold delta_apply in *. cbn [eg_revision patch_delivery] in Hd.
  apply bind_Ok_inv in Hd as (u & Hu & Hd). injection Hd as <-.
  rewrite Hu. eexists. split; [done|]. cbn. rewrite He, Hp. done.
Qed.

(** A transition prepared on a patched graph: the next graph has the envelope,
    and the delta does not mention the delivery fields. *)
Lemma prepare_patched_delivery g node_id outcome envelope (p : Prepared (Value := Value)) :
  oc_delivery_envelope outcome = Some envelope ->
  let patched := patch_delivery g (oc_delivery_envelope outcome) (oc_terminal_presentation outcome) in
  prepare_transition_node patched node_id (nr_status (oc_result outcome))
    (Some (oc_result outcome)) (oc_domain_events outcome) = Ok p ->
  eg_delivery_envelope (pr_next p) = Some envelope /\
  d_delivery_envelope (delta_between patched (pr_next p)) = None /\
  d_terminal_presentation (delta_between patched (pr_next p)) = None.
Proof.
  intros Henv patched Ep.
  assert (Hnext : eg_delivery_envelope (pr_next p) = eg_delivery_envelope patched /\
            eg_terminal_presentation (pr_next p) = eg_terminal_presentation patched).
  { unfold prepare_transition_node in Ep. ok_inv. subst p.
    match goal with Ht : transition_checked _ _ _ _ = Ok _ |- _ =>
      by apply transition_checked_Ok in Ht as -> end. }
  destruct Hnext as [Hne Hnp]. split_and!.
  - rewrite Hne. cbn. by rewrite Henv.
  - unfold delta_between. cbn [d_delivery_envelope]. unfold changed. by rewrite Hne, decide_True.
  - unfold delta_between. cbn [d_terminal_presentation]. unfold changed. by rewrite Hnp, decide_True.
Qed.

(** A delivery envelope does not survive a restart.  When the terminal
    commit of a running node attaches a new delivery envelope and its delta is
    persisted as such, the committed and published graph has the envelope, but
    the graph that the durable stream replays to still has the old one. *)
Theorem terminal_envelope_not_durable registered (st st' : State) g node_id outcome envelope r
  (Hc : Consistent registered st) (Hid : eg_id g ∈ registered)
  (Hg : replay (sv_store st) (eg_id g) = Ok g) (Hmax : (eg_revision g < u64_max)%N)
  (Henv : oc_delivery_envelope outcome = Some envelope)
  (Hnew : eg_delivery_envelope g <> Some envelope) (Hplan : oc_replan outcome = None)
  (Hout : commit_outcome (eg_id g) node_id outcome st = (Ok (Some r), st'))
  (Hfresh : fresh_receipt r)
  (Hdelta : forall p, prepare_transition_node
      (patch_delivery g (oc_delivery_envelope outcome) (oc_terminal_presentation outcome))
      node_id (nr_status (oc_result outcome)) (Some (oc_result outcome))
      (oc_domain_events outcome) = Ok p -> maybe_checkpoint (pr_next p) (pr_event p) = pr_event p) :
  eg_delivery_envelope (cr_graph r) = Some envelope /\
  exists g', replay (sv_store st') (eg_id g) = Ok g' /\
    eg_delivery_envelope g' = eg_delivery_envelope g /\
    eg_node_statuses g' = eg_node_statuses (cr_graph r) /\ g' <> cr_graph r.
Proof.
  destruct (load_keeps_consistent registered st false (eg_id g) Hc Hid) as [Hc' Hload].
  rewrite Hg in Hload. unfold commit_outcome in Hout.
  destruct (load_snapshot false (sv_store st) (sv_hot st) (eg_id g)) as [out hot]. cbn in Hload, Hc'.
  subst out. cbn [sv_store with_hot] in *.
  destruct (negb _); [discriminate|]. rewrite Hplan in Hout.
  destruct (transition_node _ _ _ _ _ _) as [[r0|e] st1] eqn:Et; [|discriminate].
  injection Hout as -> <-. unfold transition_node, commit in Et.
  destruct (prepare_transition_node _ _ _ _ _) as [p|] eqn:Ep; [|discriminate].
  set (patched := patch_delivery g (oc_delivery_envelope outcome) (oc_terminal_presentation outcome)) in *.
  pose proof (append_retrying_once p (with_hot st hot) (cs_inv _ _ Hc')) as Honce.
  rewrite Et in Honce.
  destruct (cs_durable _ _ Hc (eg_id g) Hid) as (g0 & Hid0 & [Hr0 Hnd _]).
  rewrite Hid0, Hg in Hr0. injection Hr0 as <-.
  assert (Prepares patched p) as Hp by (eapply prepare_transition_node_prepares; [exact Hnd | exact Ep]).
  pose proof (delta_roundtrip_extends _ _ (pp_extends _ _ Hp)) as Hround.
  destruct (prepare_patched_delivery _ _ _ _ _ Henv Ep) as (Hne & Hde & Hdp).
  destruct (delta_apply_patched _ _ _ _ _ Hde Hdp Hround) as (n' & Hn' & Hni & Hnr & Hns & _ & Hnenv & _).
  destruct (append_graph_event_fresh _ _ _ _ (cs_inv _ _ Hc') Honce Hfresh) as (_ & Hcr & _).
  pose proof (pp_extends _ _ Hp) as Hext.
  assert (eg_revision (pr_next p) = (eg_revision g + 1)%N) as Hrev.
  { rewrite (ex_revision _ _ Hext). cbn. unfold u64_saturating_add. apply sat_add_exact. lia. }
  assert (Hrep' : replay (sv_store st1) (eg_id g)
            = Ok (set_commit_cursor n' (rcp_commit_cursor (cr_transaction r)))).
  { eapply (append_delta_replay g n' _ p (with_hot st hot) st1 r (cs_inv _ _ Hc') Hg);
      [exact (ex_id _ _ Hext) | exact (pp_expected _ _ Hp) | by apply Hdelta
      | exact (pp_event _ _ Hp) | exact Hn' | | | exact Honce | exact Hfresh].
    - rewrite Hni. exact (ex_id _ _ Hext).
    - by rewrite Hnr. }
  split; [by rewrite Hcr|]. eexists. split; [exact Hrep'|].
  split_and!; [exact Hnenv | rewrite Hcr; exact Hns |].
  rewrite Hcr. intros Heq%(f_equal eg_delivery_envelope). cbn in Heq. congruence.
Qed.

(** *** Duplicate edges *)

(** How often an edge list counts an edge. *)
Definition edge_copies (edges : list ExecutionEdge) (e : ExecutionEdge) : nat :=
  length (List.filter (fun x => bool_decide (x = e)) edges).

Lemma edge_copies_app l1 l2 e : edge_copies (l1 ++ l2) e = edge_copies l1 e + edge_copies l2 e.
Proof. unfold edge_copies. by rewrite List.filter_app, length_app. Qed.

Lemma edge_copies_pos edges e : e ∈ edges -> 0 < edge_copies edges e.
Proof.
  unfold edge_copies. induction edges as [|x edges IH]; [by intros ?%not_elem_of_nil|].
  intros [<-|Hin]%elem_of_cons; cbn; [rewrite bool_decide_eq_true_2 by done; cbn; lia|].
  specialize (IH Hin). destruct (bool_decide (x = e)); cbn; lia.
Qed.

Lemma push_edges_copies e added : forall edges,
  e ∉ added -> edge_copies (push_edges edges added) e = edge_copies edges e.
Proof.
  unfold push_edges. induction added as [|x added IH]; intros edges; cbn [foldl]; [done|].
  intros [Hx Ha]%not_elem_of_cons. rewrite IH by done. destruct (memb edges x); [done|].
  rewrite edge_copies_app. unfold edge_copies at 2. cbn.
  rewrite bool_decide_eq_false_2 by congruence. cbn. lia.
Qed.

Lemma rebuilt_edges_copies g next edges e :
  eg_edges next = eg_edges g ++ edges -> e ∈ eg_edges g ->
  edge_copies (rebuilt_edges g next) e = edge_copies (eg_edges g) e.
Proof.
  intros Hn Hg. unfold rebuilt_edges.
  assert (List.filter (memb (eg_edges next)) (eg_edges g) = eg_edges g) as ->.
  { apply filterb_all. intros x Hx. apply memb_true. rewrite Hn. apply elem_of_app. by left. }
  apply push_edges_copies. intros [_ Hx%negb_true_iff]%elem_of_filterb.
  by apply memb_false in Hx.
Qed.

(** Replanning accepts an edge that the graph already has, and then the
    published graph counts the edge more often than before while the graph that
    is replayed after a restart counts it as before, so quorum counts differ. *)
Theorem replan_duplicate_edge_not_durable g nodes edges reason e (p : Prepared (Value := Value)) (st st' : State) r
  (Hinv : eb_inv (sv_store st)) (Hd : graph_durable (sv_store st) g)
  (Hmax : (eg_revision g < u64_max)%N)
  (Hp : prepare_replan g nodes edges reason = Ok p) (He : e ∈ edges) (Hg : e ∈ eg_edges g)
  (Hdelta : maybe_checkpoint (pr_next p) (pr_event p) = pr_event p)
  (Ha : replan g nodes edges reason st = (Ok r, st')) (Hfresh : fresh_receipt r) :
  edge_copies (eg_edges g) e < edge_copies (eg_edges (cr_graph r)) e /\
  exists g', replay (sv_store st') (eg_id g) = Ok g' /\
    edge_copies (eg_edges g') e = edge_copies (eg_edges g) e.
Proof.
  unfold replan, commit in Ha. rewrite Hp in Ha.
  destruct (append_graph_event_fresh _ _ _ _ Hinv Ha Hfresh) as (_ & Hcr & _).
  unfold prepare_replan in Hp. ok_inv.
  assert (eg_edges (pr_next p) = eg_edges g ++ edges) as Hedges by (by subst p).
  assert (Hrb : delta_apply (delta_between g (pr_next p)) g = Ok (rebuilt g (pr_next p))).
  { apply delta_apply_between; [apply Hd | | by subst p].
    assert (node_ids (pr_next p) = node_ids g ++ (ns_id <$> nodes)) as ->
      by (subst p; unfold node_ids; cbn; apply fmap_app).
    by eapply validate_replan_nodup; [|apply Hd]. }
  split.
  { rewrite Hcr. cbn [eg_edges set_commit_cursor]. rewrite Hedges, edge_copies_app.
    pose proof (edge_copies_pos edges e He). lia. }
  eexists. split.
  - eapply (append_delta_replay g _ _ p st st' r Hinv (gd_replay _ _ Hd)); try exact Hrb; try done;
      try (subst p; done).
    subst p. cbn. unfold u64_saturating_add. apply sat_add_exact. lia.
  - cbn [eg_edges set_commit_cursor rebuilt]. by apply (rebuilt_edges_copies _ _ edges).
Qed.
End Terminal.
