(* ===== verification/ServiceSamples.v ===== *)
(** * Concrete runs of the service

    The in-process backend as the event store of the commit service, a small
    graph taken through registration, scheduling and commands, and the inputs at
    which the service theorems are applied. *)

From S2P Require Import Prelude.
From S2P Require Import Facts.
From S2P Require Import Contract.
From S2P Require Import Validation.
From S2P Require Import Transition.
From S2P Require Import Delta.
From S2P Require Import Sizes.
From S2P Require Import Ports.
From S2P Require Import EventStore.
From S2P Require Import Samples.
From S2P Require Import Backend.
From S2P Require Import StateStore.
From S2P Require Import Commit.
From S2P Require Import Durability.
From S2P Require Import Operations.
From S2P Require Import History.
From S2P Require Import Commands.
From S2P Require Import Dependency.
From S2P Require Import Scheduler.
From S2P Require Import Terminal.

#[export] Instance sample_backend : EventBackend SampleValue (EphemeralState SampleValue) :=
  ephemeral_backend sample_uuid sample_now.

#[export] Instance sample_backend_laws : EventBackendLaws SampleValue (EphemeralState SampleValue) :=
  ephemeral_backend_laws sample_uuid sample_now.

#[export] Instance sample_env : CommitEnv SampleValue (EphemeralState SampleValue) :=
  {| ticket_to_value := fun t => SvMember "node" (SvLeaf (LStr (tk_node_id t))) SvEmpty;
     outcome_to_value := fun o => SvMember "result" (SvLeaf (LResult (Some (oc_result o)))) SvEmpty;
     session_terminal_from_value := fun _ => None;
     agent_packet_from_str := fun _ => None;
     url_safe_no_pad := fun s => s;
     now_ms := 0;
     is_controlled_recovery_terminal_event := fun _ => false;
     team_terminal_event := fun _ _ _ _ => Ok None;
     canonical_graph_decision_events := fun _ _ _ => Err "no approval queue"%string;
     graph_continuation_claim_event := fun _ _ => Err "no continuation"%string;
     continuation_source_unfinished := fun _ _ => Ok false |}.

Abbreviation SampleState := (CommitState (S := EphemeralState SampleValue)).

Definition service0 : SampleState :=
  {| sv_store := ephemeral_default; sv_hot := ∅; sv_materializer := [] |}.

Definition sample_lineage : ExecutionGraphLineage :=
  {| gl_session_id := "session"; gl_turn_id := "turn"; gl_root_task_id := "task";
     gl_task_id := "task"; gl_generation := 1 |}.

(** [a -> b] with a long objective, so that deltas stay smaller than snapshots. *)
Definition long_objective : string := String.concat "" (repeat "objective " 400).

Definition chain : ExecutionGraph :=
  {| eg_id := "g"; eg_revision := 0; eg_objective := long_objective;
     eg_service_class := Interactive; eg_parent_execution := None;
     eg_lineage := Some sample_lineage; eg_continuation_binding := None;
     eg_nodes := [sample_node "a"; sample_node "b"]; eg_edges := [depends "a" "b"];
     eg_node_statuses := ∅; eg_node_results := ∅;
     eg_recovery_cursor := ExecutionRecoveryCursor_default;
     eg_delivery_envelope := None; eg_terminal_presentation := None |}.

(** ** A run *)

Definition hot_graph (st : SampleState) : ExecutionGraph := default chain (sv_hot st !! "g"%string).

Definition after (op : Operation) (st : SampleState) : SampleState :=
  match run_operation (hot_graph st) op st with Done (_, st') => st' | _ => st end.

Definition service1 : SampleState := (register_graph chain service0).2.
Definition service2 : SampleState := after (OpTransition "a" Ready None []) service1.
Definition service3 : SampleState := after (OpTransition "a" Running None []) service2.

Lemma only_fresh_by_compute (res : CommitResult ExecutionCommitReceipt) :
  match res with Ok r => negb (rcp_duplicate (cr_transaction r)) | Err _ => true end = true ->
  only_fresh res.
Proof. intros Hres r ->. by apply negb_true_iff in Hres. Qed.

Lemma all_prepared {E A} (P : A -> Prop) (x : Result E A) :
  match x with Ok p => P p | Err _ => True end -> forall p, x = Ok p -> P p.
Proof. by intros HP p ->. Qed.

Definition prepared_disjoint (registered : gset string)
    (x : Exec (CommitResult (Prepared (Value := SampleValue)))) : bool :=
  match x with
  | Done (Ok p) =>
      forallb (fun e => negb (bool_decide (in_stream_id (te_event e) ∈ registered))) (pr_domain p)
  | _ => true
  end.

Lemma prepared_disjoint_spec registered x p :
  prepared_disjoint registered x = true -> x = Done (Ok p) -> domain_disjoint p registered.
Proof.
  intros Hx -> e He. cbn in Hx. rewrite forallb_elem_of in Hx.
  by apply Hx, negb_true_iff, bool_decide_eq_false in He.
Qed.

Definition sample_registered : gset string := {["g"%string]} ∪ ∅.

Lemma service1_step : service_step (∅, service0) (sample_registered, service1).
Proof.
  pose proof (StepRegister ∅ service0 service1 chain (register_graph chain service0).1) as Hs.
  assert (is_ok (register_graph chain service0).1 = true) as Hok by (vm_compute; reflexivity).
  rewrite Hok in Hs. apply Hs.
  - apply node_ids_nodup_by_compute. vm_compute. reflexivity.
  - apply surjective_pairing.
  - apply only_fresh_by_compute. vm_compute. reflexivity.
  - intros continuation fence _ e _. apply not_elem_of_empty.
Qed.

(** The obligations of an operation step, as one computation. *)
Definition step_ok (op : Operation) (st : SampleState) : bool :=
  bool_decide (sv_hot st !! "g"%string = Some (hot_graph st))
  && bool_decide (eg_id (hot_graph st) = "g"%string)
  && (eg_revision (hot_graph st) <? u64_max)%N
  && prepared_disjoint sample_registered (prepare_operation (sv_store st) (hot_graph st) op)
  && match run_operation (hot_graph st) op st with
     | Done (Ok r, _) => negb (rcp_duplicate (cr_transaction r))
     | Done (Err _, _) => true
     | _ => false
     end.

Lemma step_ok_spec op st :
  step_ok op st = true -> operation_fresh (hot_graph st) op ->
  service_step (sample_registered, st) (sample_registered, after op st).
Proof.
  unfold step_ok, after. rewrite !andb_true_iff, !bool_decide_eq_true.
  intros [[[[Hhot Hid] Hmax%N.ltb_lt] Hdis] Hrun] Hfresh.
  destruct (run_operation (hot_graph st) op st) as [[res st']| |] eqn:Er; try discriminate.
  apply (StepOperation _ st st' (hot_graph st) op res); [by rewrite Hid | done | | done | done |].
  - apply only_fresh_by_compute. by destruct res.
  - intros p. by apply prepared_disjoint_spec.
Qed.

Lemma service2_step : service_step (sample_registered, service1) (sample_registered, service2).
Proof. apply step_ok_spec; [vm_compute; reflexivity | exact I]. Qed.

Lemma service3_step : service_step (sample_registered, service2) (sample_registered, service3).
Proof. apply step_ok_spec; [vm_compute; reflexivity | exact I]. Qed.

Lemma service3_run : rtc service_step (∅, service0) (sample_registered, service3).
Proof.
  eapply rtc_l; [exact service1_step|]. eapply rtc_l; [exact service2_step|].
  apply rtc_once. exact service3_step.
Qed.

Lemma service0_consistent : Consistent ∅ service0.
Proof. split; [exact StoreInv_default | set_solver | done]. Qed.

Lemma service1_consistent : Consistent sample_registered service1.
Proof. exact (service_step_consistent _ _ _ _ service1_step service0_consistent). Qed.

Lemma service2_consistent : Consistent sample_registered service2.
Proof. exact (service_step_consistent _ _ _ _ service2_step service1_consistent). Qed.

Lemma service3_consistent : Consistent sample_registered service3.
Proof. exact (service_step_consistent _ _ _ _ service3_step service2_consistent). Qed.

Lemma hot_graph_durable st :
  Consistent sample_registered st ->
  bool_decide (sv_hot st !! "g"%string = Some (hot_graph st)) = true ->
  eg_id (hot_graph st) = "g"%string /\ graph_durable (sv_store st) (hot_graph st).
Proof. intros Hc Hg%bool_decide_eq_true. by apply (Consistent_hot _ _ _ _ Hc). Qed.

Lemma sample_registered_g : "g"%string ∈ sample_registered.
Proof. apply (proj1 (bool_decide_eq_true _)). vm_compute. reflexivity. Qed.

(** ** The theorems at this run *)

Lemma hot2 : eg_id (hot_graph service2) = "g"%string /\
  graph_durable (sv_store service2) (hot_graph service2).
Proof. apply (hot_graph_durable _ service2_consistent). vm_compute. reflexivity. Qed.

Lemma hot3 : eg_id (hot_graph service3) = "g"%string /\
  graph_durable (sv_store service3) (hot_graph service3).
Proof. apply (hot_graph_durable _ service3_consistent). vm_compute. reflexivity. Qed.



Lemma history_terminal_final_witness :
  durable_status (after (OpCommand (CmdCancelNode 4 "b" "stop"))
                    (after (OpCommand (CmdCancelNode 3 "a" "stop")) service3)) "g" "a"
  = Some Cancelled.
Proof.
  set (cancelled := after (OpCommand (CmdCancelNode 3 "a" "stop")) service3).
  assert (service_step (sample_registered, service3) (sample_registered, cancelled)) as Hs
    by (apply step_ok_spec; [vm_compute; reflexivity | exact I]).
  pose proof (service_step_consistent _ _ _ _ Hs service3_consistent) as Hc.
  apply (history_terminal_final sample_registered cancelled sample_registered
           (after (OpCommand (CmdCancelNode 4 "b" "stop")) cancelled) "g" "a" Cancelled Hc).
  - apply rtc_once. apply step_ok_spec; [vm_compute; reflexivity | exact I].
  - exact sample_registered_g.
  - vm_compute. reflexivity.
  - reflexivity.
Defined.

Lemma load_snapshot_verified_witness :
  (load_snapshot true (sv_store service3) {["g"%string := hot_graph service2]} "g").1
    = Ok (hot_graph service3).
Proof.
  destruct (load_snapshot_verified (sv_store service3) {["g"%string := hot_graph service2]} "g"
              (cs_inv _ _ service3_consistent)) as (Hload & _).
  - intros g Hg. rewrite lookup_singleton_eq in Hg. apply (inj Some) in Hg as <-.
    exists 2. vm_compute. reflexivity.
  - rewrite Hload. vm_compute. reflexivity.
Defined.

Lemma checkpoint_replay_sound_witness :
  project_graph_events "g" (eb_list_stream (sv_store service3) "g") = Ok (hot_graph service3).
Proof.
  apply (checkpoint_replay_sound "g" (eb_list_stream (sv_store service3) "g") (hot_graph service3)).
  - intros r Hr.
    assert (Forall snapshot_record (eb_list_stream (sv_store service3) "g")) as Hall.
    { vm_compute. repeat constructor; intros Hc e He; vm_compute in Hc; try discriminate Hc;
        injection He as <-; eexists; reflexivity. }
    rewrite Forall_forall in Hall. exact (Hall r Hr).
  - vm_compute. reflexivity.
Defined.

Lemma command_effect_witness :
  eg_node_statuses (hot_graph (after (OpCommand (CmdCancel 3 "stop")) service3)) !! "a"%string
    = Some Cancelled /\
  exists next, command_next (hot_graph service3) (CmdCancel 3 "stop") = Ok (next, None) /\
    forall id, eg_node_statuses next !! id
               = cancel_status <$> eg_node_statuses (hot_graph service3) !! id.
Proof.
  split; [vm_compute; reflexivity|].
  destruct (command_next (hot_graph service3) (CmdCancel 3 "stop")) as [[next res]|e] eqn:En.
  - pose proof (command_effect _ _ _ _ En) as (_ & _ & _ & Hst & _).
    exists next. split; [|exact Hst].
    assert (is_ok (command_next (hot_graph service3) (CmdCancel 3 "stop")) &&
            match command_next (hot_graph service3) (CmdCancel 3 "stop") with
            | Ok (_, None) => true | _ => false end = true) as Hok by (vm_compute; reflexivity).
    rewrite En in Hok. destruct res; [discriminate Hok | reflexivity].
  - exfalso. assert (is_ok (command_next (hot_graph service3) (CmdCancel 3 "stop")) = true) as Hok
      by (vm_compute; reflexivity). rewrite En in Hok. discriminate Hok.
Defined.

Lemma command_stale_rejected_witness :
  apply_command (hot_graph service3) (CmdCancel 2 "stop") service3
  = Done (Err (CeStaleRevision "g" 2 3), service3).
Proof.
  apply (command_stale_rejected (hot_graph service3) (CmdCancel 2 "stop") service3).
  vm_compute. discriminate.
Defined.

Definition sample_binding (attempt : N) : ExecutionNodeBinding :=
  {| nb_executor_kind := "agent"; nb_ticket_idempotency_key := "key"; nb_attempt := attempt;
     nb_resource_lease_refs := []; nb_scope_lease_ref := None; nb_worktree_lease_ref := None |}.

Definition sample_wave : CommitResult (Prepared (Value := SampleValue)) :=
  prepare_bind_and_start_nodes (hot_graph service2) {["a"%string := sample_binding 7]} [].

Lemma start_wave_effect_witness :
  exists p, sample_wave = Ok p /\
    eg_node_statuses (pr_next p) !! "a"%string = Some Running /\
    rc_node_attempts (eg_recovery_cursor (pr_next p)) !! "a"%string = Some 7%N.
Proof.
  destruct sample_wave as [p|e] eqn:Ew.
  - exists p. split; [reflexivity|].
    destruct (start_wave_effect (S := EphemeralState SampleValue) _ _ _ _ Ew)
      as (_ & _ & _ & Hs & Ha).
    specialize (Hs "a"%string). specialize (Ha "a"%string). split; [rewrite Hs | rewrite Ha];
      vm_compute; reflexivity.
  - exfalso. assert (is_ok sample_wave = true) as Hok by (vm_compute; reflexivity).
    rewrite Ew in Hok. discriminate Hok.
Defined.

(** ** Scheduling *)

Definition lane (s : ExecutionNodeStatus) : DependencyPredecessor :=
  {| lane_status := s; lane_result := None |}.

Lemma dependency_target_stable_witness :
  dependency_target (PolicyQuorum 1 true) [lane Completed; lane Failed] = Some Ready.
Proof.
  apply (dependency_target_stable (PolicyQuorum 1 true) [lane Completed; lane Running]).
  - constructor; [intros _; reflexivity|]. constructor; [discriminate | constructor].
  - reflexivity.
Defined.

Definition finished_pair : ExecutionGraph :=
  {| eg_id := "g"; eg_revision := 5; eg_objective := "objective";
     eg_service_class := Interactive; eg_parent_execution := None; eg_lineage := None;
     eg_continuation_binding := None; eg_nodes := [sample_node "a"; sample_node "b"];
     eg_edges := [depends "a" "b"];
     eg_node_statuses := {["a"%string := Failed; "b"%string := Blocked]};
     eg_node_results := ∅; eg_recovery_cursor := ExecutionRecoveryCursor_default;
     eg_delivery_envelope := None; eg_terminal_presentation := None |}.

Lemma finished_pair_nodes (P : ExecutionNodeSpec -> Prop) :
  P (sample_node "a") -> P (sample_node "b") -> forall node, node ∈ eg_nodes finished_pair -> P node.
Proof.
  intros Ha Hb node Hn. cbn in Hn.
  apply elem_of_cons in Hn as [->|Hn]; [exact Ha|]. apply list_elem_of_singleton in Hn as ->. exact Hb.
Qed.

Lemma finished_pair_validates : exists bs, validate_execution_graph finished_pair = Done (Ok bs).
Proof. eexists. vm_compute. reflexivity. Qed.

Lemma scheduler_strands_no_node_witness :
  Forall (fun node => exists s,
    eg_node_statuses finished_pair !! ns_id node = Some s /\ is_terminal s = true)
    (eg_nodes finished_pair).
Proof.
  apply Forall_forall. apply (scheduler_strands_no_node finished_pair).
  - destruct finished_pair_validates as [bs Hbs]. exact (validate_Ok_WellFormed _ _ Hbs).
  - unfold every_node_has_status. apply finished_pair_nodes; eexists; reflexivity.
  - apply (finished_pair_nodes (fun node =>
      eg_node_statuses finished_pair !! ns_id node = Some Planned -> node_target finished_pair node = Done None));
      discriminate.
  - intros node s Hn. revert s.
    apply (finished_pair_nodes (fun node => forall s,
      eg_node_statuses finished_pair !! ns_id node = Some s -> s = Planned \/ is_terminal s = true));
      [| |exact Hn]; intros s Hs; right; vm_compute in Hs; injection Hs as <-; reflexivity.
Defined.

(** [a] is optional and still running; [c] was released by a quorum of [b]. *)
Definition optional_work : ExecutionWorkContract :=
  {| wc_role := RoleTool; wc_required := false; wc_dependency := PolicyAll;
     wc_cancellation_group := Some "wave"%string; wc_required_evidence_refs := [];
     wc_input_artifact_refs := []; wc_output_artifact_kinds := [];
     wc_context_view_ref := None; wc_model_profile := None; wc_reasoning_effort := None;
     wc_expected_input_tokens := 0; wc_expected_output_tokens := 0;
     wc_expected_duration_ms := 0; wc_scheduling_priority := 0 |}.

Definition quorum_work : ExecutionWorkContract :=
  {| wc_role := RoleVerify; wc_required := true; wc_dependency := PolicyQuorum 1 true;
     wc_cancellation_group := Some "wave"%string; wc_required_evidence_refs := [];
     wc_input_artifact_refs := []; wc_output_artifact_kinds := [];
     wc_context_view_ref := None; wc_model_profile := None; wc_reasoning_effort := None;
     wc_expected_input_tokens := 0; wc_expected_output_tokens := 0;
     wc_expected_duration_ms := 0; wc_scheduling_priority := 0 |}.

Definition working_node (id : string) (work : ExecutionWorkContract) : ExecutionNodeSpec :=
  {| ns_id := id; ns_kind := AgentTask; ns_payload_ref := "payload"; ns_executor_kind := "agent";
     ns_idempotency_key := id; ns_lease_ref := None; ns_acceptance := ExecutionAcceptance_default;
     ns_retry_policy := ExecutionRetryPolicy_default; ns_resource_scopes := [];
     ns_work := Some work |}.

Definition quorum_graph : ExecutionGraph :=
  {| eg_id := "g"; eg_revision := 5; eg_objective := "objective";
     eg_service_class := Interactive; eg_parent_execution := None; eg_lineage := None;
     eg_continuation_binding := None;
     eg_nodes := [working_node "a" optional_work; sample_node "b"; working_node "c" quorum_work];
     eg_edges := [depends "a" "c"; depends "b" "c"];
     eg_node_statuses := {["a"%string := Running; "b"%string := Completed; "c"%string := Ready]};
     eg_node_results := ∅; eg_recovery_cursor := ExecutionRecoveryCursor_default;
     eg_delivery_envelope := None; eg_terminal_presentation := None |}.

Lemma quorum_tail_sound_witness :
  quorum_tail_cancellations quorum_graph = ["a"%string] /\
  exists consumer, consumer ∈ eg_nodes quorum_graph /\ dep_edge quorum_graph "a" (ns_id consumer).
Proof.
  split; [vm_compute; reflexivity|].
  assert ("a"%string ∈ quorum_tail_cancellations quorum_graph) as Hin.
  { assert (quorum_tail_cancellations quorum_graph = ["a"%string]) as Heq by (vm_compute; reflexivity).
    rewrite Heq. left. }
  destruct (quorum_tail_sound quorum_graph "a" Hin)
    as (_ & consumer & _ & _ & _ & _ & _ & Hc & _ & _ & _ & Hdep & _).
  exists consumer. split; assumption.
Defined.

Lemma chain_validates : exists bs, validate_execution_graph (hot_graph service1) = Done (Ok bs).
Proof. eexists. vm_compute. reflexivity. Qed.


(** ** Terminal commits *)

Definition sample_envelope : DeliveryEnvelope :=
  {| de_envelope_id := "envelope"; de_revision := 1; de_objective_id := "objective";
     de_pipeline_status := PipeCompleted; de_delivery_status := DsSatisfied;
     de_branch_terminals := []; de_verified_receipts := []; de_verified_artifacts := [];
     de_verified_effects := []; de_workspace_materializations := [];
     de_coverage := {| dc_required_obligation_ids := []; dc_satisfied_obligation_ids := [];
                       dc_coverage_basis_points := 10000 |};
     de_unresolved := []; de_conflicts := []; de_cancellation := None;
     de_user_answer_contract :=
       {| ua_language := "en"; ua_format := UfMarkdown; ua_detail := UdConcise;
          ua_conclusion_only := false; ua_evidence_preference := UePrefNone;
          ua_citation_preference := UcPrefNone; ua_structural_constraints := [];
          ua_other_format := None |};
     de_created_at_ms := 0 |}.

Definition sample_result (s : ExecutionNodeStatus) : ExecutionNodeResult :=
  {| nr_status := s; nr_result_ref := None; nr_summary := None; nr_evidence_refs := [];
     nr_failure := None; nr_usage := ExecutionUsage_default; nr_finished_at_ms := 0 |}.

Definition sample_outcome : NodeExecutionOutcome SampleValue :=
  {| oc_result := sample_result Completed; oc_delivery_envelope := Some sample_envelope;
     oc_terminal_presentation := None; oc_domain_events := []; oc_replan := None |}.

Definition outcome_run := commit_outcome "g" "a" sample_outcome service3.

Definition empty_receipt : ExecutionCommitReceipt :=
  {| cr_graph := chain; cr_transaction := receipt1 |}.

Definition outcome_receipt : ExecutionCommitReceipt :=
  match outcome_run.1 with Ok (Some r) => r | _ => empty_receipt end.

Lemma terminal_envelope_not_durable_witness :
  eg_delivery_envelope (cr_graph outcome_receipt) = Some sample_envelope /\
  exists g', replay (sv_store outcome_run.2) (eg_id (hot_graph service3)) = Ok g' /\
    eg_delivery_envelope g' = None.
Proof.
  destruct (terminal_envelope_not_durable sample_registered service3 outcome_run.2
              (hot_graph service3) "a" sample_outcome sample_envelope outcome_receipt
              service3_consistent) as (Henv & g' & Hg' & Hold & _).
  - rewrite (proj1 hot3). exact sample_registered_g.
  - apply (cs_hot _ _ service3_consistent). vm_compute. reflexivity.
  - vm_compute. reflexivity.
  - reflexivity.
  - vm_compute. discriminate.
  - reflexivity.
  - rewrite (proj1 hot3). vm_compute. reflexivity.
  - vm_compute. reflexivity.
  - apply all_prepared. vm_compute. reflexivity.
  - split; [exact Henv|]. exists g'. split; [exact Hg'|]. rewrite Hold. vm_compute. reflexivity.
Defined.

Definition replan_sample : CommitResult (Prepared (Value := SampleValue)) :=
  prepare_replan (hot_graph service3) [sample_node "c"] [depends "a" "b"] "again".

Definition replan_run := replan (hot_graph service3) [sample_node "c"] [depends "a" "b"] "again" service3.

Definition replan_receipt : ExecutionCommitReceipt :=
  match replan_run.1 with Ok r => r | _ => empty_receipt end.

Lemma replan_duplicate_edge_not_durable_witness :
  edge_copies (eg_edges (cr_graph replan_receipt)) (depends "a" "b") = 2 /\
  exists g', replay (sv_store replan_run.2) (eg_id (hot_graph service3)) = Ok g' /\
    edge_copies (eg_edges g') (depends "a" "b") = 1.
Proof.
  destruct replan_sample as [p|e] eqn:Ep.
  2:{ exfalso. assert (is_ok replan_sample = true) as Hok by (vm_compute; reflexivity).
      rewrite Ep in Hok. discriminate Hok. }
  destruct (replan_duplicate_edge_not_durable (hot_graph service3) [sample_node "c"]
              [depends "a" "b"] "again" (depends "a" "b") p service3 replan_run.2 replan_receipt)
    as (_ & g' & Hg' & Hcopies).
  - exact (cs_inv _ _ service3_consistent).
  - exact (proj2 hot3).
  - vm_compute. reflexivity.
  - exact Ep.
  - left.
  - apply (proj1 (bool_decide_eq_true _)). vm_compute. reflexivity.
  - revert p Ep. apply all_prepared. vm_compute. reflexivity.
  - vm_compute. reflexivity.
  - vm_compute. reflexivity.
  - split; [vm_compute; reflexivity|]. exists g'. split; [exact Hg'|].
    rewrite Hcopies. vm_compute. reflexivity.
Defined.
