(* ===== verification/ScopeLock.v ===== *)
(** * Scope locks

    [runtime/src/execution_core/graph/resources/scope_lock.rs]: atomic
    acquisition of several hierarchical scopes, first come first served among
    conflicting requests, with a second tier of process-wide file locks.  The
    state is shared by all callers; the critical sections of [acquire], the
    drop of a waiter and the release of a lease are the steps. *)

From S2P Require Import Prelude Facts.

Inductive ScopeLockMode := LockRead | LockWrite.

#[export] Instance ScopeLockMode_eq_dec : EqDecision ScopeLockMode.
Proof. solve_decision. Defined.

Inductive ScopedResource :=
| Workspace (workspace_id : string)
| WorkspaceObject (identity : WorkspacePathIdentity)
| Resource (namespace key : string).

#[export] Instance ScopedResource_eq_dec : EqDecision ScopedResource.
Proof. solve_decision. Defined.

Record ScopeLockRequest := { lr_scope : ScopedResource; lr_mode : ScopeLockMode }.

#[export] Instance ScopeLockRequest_eq_dec : EqDecision ScopeLockRequest.
Proof. solve_decision. Defined.

Inductive ScopeLockError :=
| EmptyField (field : string)
| InvalidPath (path : string)
| TimedOut (waited_ms : N)
| Poisoned
| RegistrationLost
| LockIo (path source : string).

#[export] Instance ScopeLockError_eq_dec : EqDecision ScopeLockError.
Proof. solve_decision. Defined.

(** [nonempty] *)
Definition nonempty (field value : string) : Result ScopeLockError string :=
  if trim_is_empty value then Err (EmptyField field) else Ok value.

(** [ScopedResource::workspace], [resource], [workspace_object] *)
Definition scoped_workspace (workspace_id : string) : Result ScopeLockError ScopedResource :=
  workspace_id ← nonempty "workspace_id" workspace_id; Ok (Workspace workspace_id).

Definition scoped_resource (namespace key : string) : Result ScopeLockError ScopedResource :=
  namespace ← nonempty "namespace" namespace;
  key ← nonempty "key" key;
  Ok (Resource namespace key).

Definition workspace_object (identity : WorkspacePathIdentity) : ScopedResource :=
  WorkspaceObject identity.

(** [path_is_prefix] *)
Definition path_is_prefix (prefix path : string) : bool :=
  String.eqb prefix path
  || match strip_prefix path prefix with
     | Some suffix => starts_with suffix "/"
     | None => false
     end.

(** [ScopedResource::overlaps] *)
Definition overlaps (a b : ScopedResource) : bool :=
  match a, b with
  | Workspace id1, Workspace id2 => String.eqb id1 id2
  | WorkspaceObject i1, WorkspaceObject i2 =>
      String.eqb (wp_workspace_id i1) (wp_workspace_id i2)
      && String.eqb (wp_repository_id i1) (wp_repository_id i2)
      && (path_is_prefix (wp_repository_relative_path i1) (wp_repository_relative_path i2)
          || path_is_prefix (wp_repository_relative_path i2) (wp_repository_relative_path i1))
  | Workspace id, WorkspaceObject identity | WorkspaceObject identity, Workspace id =>
      String.eqb id (wp_workspace_id identity)
  | Resource ns1 key1, Resource ns2 key2 => String.eqb ns1 ns2 && String.eqb key1 key2
  | _, _ => false
  end.

Definition is_write (m : ScopeLockMode) : bool := bool_decide (m = LockWrite).

(** [requests_conflict] *)
Definition requests_conflict (ls rs : list ScopeLockRequest) : bool :=
  existsb (fun l => existsb (fun r =>
    overlaps (lr_scope l) (lr_scope r) && (is_write (lr_mode l) || is_write (lr_mode r))) rs) ls.

(** ** Normalization *)

(** [if request.mode == Write { existing.mode = Write }] *)
Definition merge_mode (existing requested : ScopeLockMode) : ScopeLockMode :=
  match requested with LockWrite => LockWrite | LockRead => existing end.

(** One iteration: merge into the first request of the same scope, or push. *)
Fixpoint add_request (request : ScopeLockRequest) (normalized : list ScopeLockRequest) :
  list ScopeLockRequest :=
  match normalized with
  | [] => [request]
  | item :: rest =>
      if decide (lr_scope item = lr_scope request)
      then {| lr_scope := lr_scope item; lr_mode := merge_mode (lr_mode item) (lr_mode request) |}
           :: rest
      else item :: add_request request rest
  end.

(** ** Process lock targets *)

(** [merge_process_target] *)
Definition merge_process_target (targets : gmap string ScopeLockMode)
    (entry : string * ScopeLockMode) : gmap string ScopeLockMode :=
  <[entry.1 := match targets !! entry.1 with
               | Some mode => merge_mode mode entry.2
               | None => entry.2
               end]> targets.

(** The top-level zone of a repository path. *)
Definition path_zone (path : string) : string :=
  let part := split_first slash path in
  if String.eqb part "" then "." else part.

(** The targets of one request. *)
Definition request_targets (r : ScopeLockRequest) : list (string * ScopeLockMode) :=
  match lr_scope r with
  | Workspace id =>
      ("workspace-all:" +:+ id, lr_mode r)
      :: match lr_mode r with
         | LockRead => [("workspace-writers:" +:+ id, LockWrite)]
         | LockWrite => []
         end
  | WorkspaceObject i =>
      ("workspace-all:" +:+ wp_workspace_id i, LockRead)
      :: match lr_mode r with
         | LockWrite => [("workspace-writers:" +:+ wp_workspace_id i, LockRead)]
         | LockRead => []
         end
      ++ [("workspace-object:" +:+ wp_workspace_id i +:+ ":" +:+ wp_repository_id i +:+ ":"
           +:+ path_zone (wp_repository_relative_path i), lr_mode r)]
  | Resource ns key => [("resource:" +:+ ns +:+ ":" +:+ key, lr_mode r)]
  end%string.

Definition process_targets (requests : list ScopeLockRequest) : gmap string ScopeLockMode :=
  foldl merge_process_target ∅ (requests ≫= request_targets).

(** [stable_hash_bytes] ([model-protocol/src/fingerprint.rs]): FNV-1a. *)
Definition FNV_OFFSET_BASIS : N := 14695981039346656037.
Definition FNV_PRIME : N := 1099511628211.

Fixpoint fnv_bytes (hash : N) (s : string) : N :=
  match s with
  | EmptyString => hash
  | String a s' => fnv_bytes ((N.lxor hash (Ascii.N_of_ascii a) * FNV_PRIME) mod 2 ^ 64) s'
  end.

Definition stable_key_hash (s : string) : N := fnv_bytes FNV_OFFSET_BASIS s.

(** [{:016x}] *)
Definition hex_digit (n : N) : Ascii.ascii :=
  Ascii.ascii_of_N (if (n <? 10)%N then 48 + n else 87 + n).

Fixpoint hex_fixed (digits : nat) (n : N) (acc : string) : string :=
  match digits with
  | 0 => acc
  | S d => hex_fixed d (n / 16) (String (hex_digit (n mod 16)) acc)
  end.

(** [lock_root.join(format!("{:016x}.lock", stable_key_hash(&key)))] *)
Definition lock_path (root key : string) : string :=
  root +:+ "/" +:+ hex_fixed 16 (stable_key_hash key) "" +:+ ".lock".

(** ** File locks of the operating system

    Advisory locks, per open file description: an entry is one open file.
    [owner] tags the lease that opened it. *)
Abbreviation FileLocks := (gmap string (list (string * ScopeLockMode))).

Definition holders (files : FileLocks) (path : string) : list (string * ScopeLockMode) :=
  default [] (files !! path).

(** [try_lock_shared], [try_lock_exclusive] *)
Definition try_lock (files : FileLocks) (path owner : string) (mode : ScopeLockMode) :
  option FileLocks :=
  let free :=
    match mode with
    | LockRead => forallb (fun h => negb (is_write h.2)) (holders files path)
    | LockWrite => bool_decide (holders files path = [])
    end in
  if free then Some (<[path := (owner, mode) :: holders files path]> files) else None.

(** Unlocking (and closing) every file the lease opened. *)
Definition unlock_all (files : FileLocks) (owner : string) : FileLocks :=
  List.filter (fun h => negb (String.eqb h.1 owner)) <$> files.

Fixpoint lock_targets (root owner : string) (files : FileLocks)
    (targets : list (string * ScopeLockMode)) : option FileLocks :=
  match targets with
  | [] => Some files
  | (key, mode) :: rest =>
      match try_lock files (lock_path root key) owner mode with
      | Some files' => lock_targets root owner files' rest
      | None => None
      end
  end.

(** [try_process_locks]: all targets in key order, or none.  Opening a lock
    file is assumed to succeed; [None] is [WouldBlock]. *)
Definition try_process_locks (lock_root : option string) (owner : string)
    (requests : list ScopeLockRequest) (files : FileLocks) : option FileLocks :=
  match lock_root with
  | None => Some files
  | Some root => lock_targets root owner files (btree_entries (process_targets requests))
  end.

(** ** The manager *)

Record LockState := {
  lk_active : gmap string (list ScopeLockRequest);
  lk_pending : list (string * list ScopeLockRequest);
  lk_files : FileLocks
}.

Section Manager.
(** the derived [Debug] text of a scope, by which requests are sorted *)
Context (scope_debug : ScopedResource -> string) (lock_root : option string).

Definition request_le (a b : ScopeLockRequest) : Prop :=
  str_le (scope_debug (lr_scope a)) (scope_debug (lr_scope b)).

#[export] Instance request_le_dec : RelDecision request_le.
Proof. intros a b. unfold request_le. apply _. Defined.

(** [normalize_requests] *)
Definition normalize_requests (requests : list ScopeLockRequest) : list ScopeLockRequest :=
  merge_sort request_le (foldl (fun l r => add_request r l) [] requests).

(** The registration of [acquire]. *)
Definition enqueue (id : string) (requests : list ScopeLockRequest) (st : LockState) : LockState :=
  {| lk_active := lk_active st;
     lk_pending := lk_pending st ++ [(id, normalize_requests requests)];
     lk_files := lk_files st |}.

(** [pending.retain(|p| p.id != id)] and [pending.remove(index)] *)
Definition remove_pending (id : string) (pending : list (string * list ScopeLockRequest)) :=
  List.filter (fun p => negb (String.eqb p.1 id)) pending.

(** The waiters before [id], and its own requests. *)
Fixpoint split_pending (id : string) (pending : list (string * list ScopeLockRequest)) :
  option (list (string * list ScopeLockRequest) * list ScopeLockRequest) :=
  match pending with
  | [] => None
  | p :: rest =>
      if String.eqb p.1 id then Some ([], p.2)
      else match split_pending id rest with
           | Some (before, requests) => Some (p :: before, requests)
           | None => None
           end
  end.

Definition active_conflict (st : LockState) (requests : list ScopeLockRequest) : bool :=
  existsb (fun a => requests_conflict requests a.2) (btree_entries (lk_active st)).

(** One turn of the acquisition loop of waiter [id]: [Ok true] when the lease
    was granted. *)
Definition try_acquire (id : string) (st : LockState) :
  Result ScopeLockError bool * LockState :=
  match split_pending id (lk_pending st) with
  | None => (Err RegistrationLost, st)
  | Some (before, requests) =>
      if existsb (fun p => requests_conflict requests p.2) before
         || active_conflict st requests
      then (Ok false, st)
      else match try_process_locks lock_root id requests (lk_files st) with
           | None => (Ok false, st)
           | Some files =>
               (Ok true,
                {| lk_active := <[id := requests]> (lk_active st);
                   lk_pending := remove_pending id (lk_pending st);
                   lk_files := files |})
           end
  end.

(** [PendingRegistration::drop] of a waiter that gave up. *)
Definition drop_registration (id : string) (st : LockState) : LockState :=
  {| lk_active := lk_active st; lk_pending := remove_pending id (lk_pending st);
     lk_files := lk_files st |}.

(** [ScopeLockLease::release_inner] *)
Definition release (id : string) (st : LockState) : LockState :=
  {| lk_active := delete id (lk_active st); lk_pending := lk_pending st;
     lk_files := unlock_all (lk_files st) id |}.

(** [active_lease_count] *)
Definition active_lease_count (st : LockState) : nat := size (lk_active st).

(** ** Conflicts *)

Lemma overlaps_sym a b : overlaps a b = overlaps b a.
Proof.
  destruct a as [id1|i1|ns1 k1], b as [id2|i2|ns2 k2]; cbn; try done.
  - apply String.eqb_sym.
  - rewrite (String.eqb_sym (wp_workspace_id i1)), (String.eqb_sym (wp_repository_id i1)).
    by rewrite (orb_comm (path_is_prefix _ _)).
  - by rewrite (String.eqb_sym ns1), (String.eqb_sym k1).
Qed.

(** Two single requests conflict. *)
Definition clash (a b : ScopeLockRequest) : bool :=
  overlaps (lr_scope a) (lr_scope b) && (is_write (lr_mode a) || is_write (lr_mode b)).

Lemma clash_sym a b : clash a b = clash b a.
Proof. unfold clash. by rewrite overlaps_sym, orb_comm. Qed.

Lemma requests_conflict_true l r :
  requests_conflict l r = true <-> exists a b, a ∈ l /\ b ∈ r /\ clash a b = true.
Proof.
  unfold requests_conflict. rewrite existsb_elem_of. setoid_rewrite existsb_elem_of.
  split; [intros (a & Ha & b & Hb & Hc) | intros (a & b & Ha & Hb & Hc)]; eauto 6.
Qed.

Lemma requests_conflict_sym l r : requests_conflict l r = requests_conflict r l.
Proof.
  apply eq_true_iff_eq. rewrite !requests_conflict_true.
  split; intros (a & b & Ha & Hb & Hc); exists b, a; by rewrite clash_sym.
Qed.

(** ** Normalization *)

Lemma clash_merge scope m1 m2 b :
  clash {| lr_scope := scope; lr_mode := merge_mode m1 m2 |} b
  = clash {| lr_scope := scope; lr_mode := m1 |} b
    || clash {| lr_scope := scope; lr_mode := m2 |} b.
Proof. unfold clash. cbn. by destruct (overlaps scope (lr_scope b)), m1, m2, (is_write (lr_mode b)). Qed.

Lemma add_request_clash r l b :
  (exists a, a ∈ add_request r l /\ clash a b = true)
  <-> clash r b = true \/ exists a, a ∈ l /\ clash a b = true.
Proof.
  induction l as [|x l IH]; cbn.
  - split.
    + intros (a & ->%list_elem_of_singleton & Hc). by left.
    + intros [Hc|(a & []%not_elem_of_nil & _)]. exists r. split; [left | done].
  - destruct (decide (lr_scope x = lr_scope r)) as [Heq|Hne].
    + setoid_rewrite elem_of_cons. destruct x as [sx mx], r as [sr mr]. cbn in *. subst sr. split.
      * intros (a & [->|Ha] & Hc); [|eauto]. rewrite clash_merge in Hc.
        apply orb_true_iff in Hc as [Hc|Hc]; eauto.
      * intros [Hc|(a & [->|Ha] & Hc)]; [| |eauto];
          (eexists; split; [by left|]; rewrite clash_merge, Hc; by rewrite ?orb_true_r).
    + setoid_rewrite elem_of_cons. split.
      * intros (a & [->|Ha] & Hc); [eauto|].
        destruct (proj1 IH (ex_intro _ a (conj Ha Hc))) as [?|(a' & ? & ?)]; eauto.
      * intros [Hc|(a & [->|Ha] & Hc)]; [| eauto |];
          (destruct (proj2 IH) as (a' & ? & ?); [eauto|]; eauto).
Qed.

Lemma add_request_scopes r l :
  NoDup (lr_scope <$> l) -> NoDup (lr_scope <$> add_request r l) /\
  (forall s, s ∈ lr_scope <$> add_request r l <-> s = lr_scope r \/ s ∈ lr_scope <$> l).
Proof.
  induction l as [|x l IH]; cbn; intros Hnd.
  - split; [apply NoDup_singleton|]. intros s. rewrite elem_of_cons. done.
  - apply NoDup_cons in Hnd as [Hx Hnd]. destruct (decide (lr_scope x = lr_scope r)) as [Heq|Hne]; cbn.
    + split; [by constructor|]. intros s. rewrite elem_of_cons. rewrite Heq. tauto.
    + destruct (IH Hnd) as [Hnd' Hsc]. split.
      * constructor; [|done]. intros [?|?]%Hsc; [congruence | done].
      * intros s. rewrite !elem_of_cons, Hsc. tauto.
Qed.

(** Normalization keeps the meaning of a request set: each scope is
    listed once, in the strongest requested mode, and the normalized set
    conflicts with exactly what the original conflicts with. *)
Theorem normalize_requests_sound l :
  NoDup (lr_scope <$> normalize_requests l) /\
  (forall s, s ∈ lr_scope <$> normalize_requests l <-> s ∈ lr_scope <$> l) /\
  (forall r, requests_conflict (normalize_requests l) r = requests_conflict l r).
Proof.
  unfold normalize_requests.
  set (f := fun l r => add_request r l).
  assert (Hfold : forall rest acc, NoDup (lr_scope <$> acc) ->
    NoDup (lr_scope <$> foldl f acc rest) /\
    (forall s, s ∈ lr_scope <$> foldl f acc rest <-> s ∈ lr_scope <$> acc \/ s ∈ lr_scope <$> rest) /\
    forall b, (exists a, a ∈ foldl f acc rest /\ clash a b = true) <->
      (exists a, a ∈ acc /\ clash a b = true) \/ exists a, a ∈ rest /\ clash a b = true).
  { intros rest. induction rest as [|x rest IH]; intros acc Hnd; cbn.
    - split_and!; [done | set_solver|]. intros b. split; [by left|].
      intros [?|(a & []%not_elem_of_nil & _)]. done.
    - destruct (add_request_scopes x acc Hnd) as [Hnd' Hsc].
      destruct (IH (f acc x) Hnd') as (H1 & H2 & H3). split_and!; [done | |].
      + intros s. rewrite H2. unfold f at 1. rewrite Hsc, elem_of_cons. tauto.
      + intros b. rewrite H3. unfold f at 1. rewrite add_request_clash.
        setoid_rewrite elem_of_cons. split.
        * intros [[?|?]|(a & ? & ?)]; eauto.
        * intros [?|(a & [->|?] & ?)]; eauto. }
  destruct (Hfold l []) as (Hnd & Hsc & Hcl); [constructor|].
  pose proof (merge_sort_Permutation request_le (foldl f [] l)) as Hperm.
  split_and!.
  - by rewrite Hperm.
  - intros s. rewrite Hperm, Hsc. set_solver.
  - intros r. apply eq_true_iff_eq. rewrite !requests_conflict_true. split.
    + intros (a & b & Ha & Hb & Hc). rewrite Hperm in Ha.
      destruct (proj1 (Hcl b) (ex_intro _ a (conj Ha Hc))) as [(? & []%not_elem_of_nil & _)|(a' & ? & ?)].
      eauto 6.
    + intros (a & b & Ha & Hb & Hc). destruct (proj2 (Hcl b)) as (a' & Ha' & Hc'); [eauto|].
      exists a', b. by rewrite Hperm.
Qed.

(** ** Runs *)

Definition empty_locks (files : FileLocks) : LockState :=
  {| lk_active := ∅; lk_pending := []; lk_files := files |}.

Definition pending_ids (st : LockState) : list string := (lk_pending st).*1.

(** The critical sections of all callers, in any order.  [EnvFiles]: another
    process locks or unlocks files of its own. *)
Inductive lock_step (st : LockState) : LockState -> Prop :=
| StepEnqueue id requests :
    id ∉ pending_ids st -> lk_active st !! id = None ->
    lock_step st (enqueue id requests st)
| StepTry id res st' : try_acquire id st = (res, st') -> lock_step st st'
| StepGiveUp id : lock_step st (drop_registration id st)
| StepRelease id : lock_step st (release id st)
| StepEnvFiles files :
    lock_step st {| lk_active := lk_active st; lk_pending := lk_pending st; lk_files := files |}.

Lemma split_pending_spec id pending before requests :
  split_pending id pending = Some (before, requests) ->
  exists after, pending = before ++ (id, requests) :: after /\ id ∉ before.*1.
Proof.
  revert before. induction pending as [|[i r] pending IH]; intros before; cbn; [done|].
  destruct (String.eqb_spec i id) as [->|Hne].
  - intros [= <- <-]. exists pending. split; [done | apply not_elem_of_nil].
  - destruct (split_pending id pending) as [[bf rq]|]; [|done]. intros [= <- <-].
    destruct (IH bf eq_refl) as (after & -> & Hn). exists after. split; [done|].
    by apply not_elem_of_cons.
Qed.

Lemma split_pending_first id requests after before :
  id ∉ before.*1 -> split_pending id (before ++ (id, requests) :: after) = Some (before, requests).
Proof.
  induction before as [|[i r] before IH]; cbn; [by rewrite String.eqb_refl|].
  intros [Hne Hn]%not_elem_of_cons. rewrite (proj2 (String.eqb_neq _ _)) by congruence.
  by rewrite IH.
Qed.

Lemma elem_of_remove_pending id p pending :
  p ∈ remove_pending id pending <-> p ∈ pending /\ p.1 <> id.
Proof. unfold remove_pending. by rewrite elem_of_filterb, negb_true_iff, String.eqb_neq. Qed.

Lemma remove_pending_ids id pending :
  (remove_pending id pending).*1 = List.filter (fun i => negb (String.eqb i id)) pending.*1.
Proof.
  unfold remove_pending. induction pending as [|[i r] l IH]; cbn; [done|].
  destruct (String.eqb i id); cbn; by rewrite IH.
Qed.

(** What a granted turn checked and did. *)
Lemma try_acquire_granted id st st' :
  try_acquire id st = (Ok true, st') ->
  exists before requests after files,
    lk_pending st = before ++ (id, requests) :: after /\
    (forall p, p ∈ before -> requests_conflict requests p.2 = false) /\
    (forall i r, lk_active st !! i = Some r -> requests_conflict requests r = false) /\
    try_process_locks lock_root id requests (lk_files st) = Some files /\
    st' = {| lk_active := <[id := requests]> (lk_active st);
             lk_pending := remove_pending id (lk_pending st); lk_files := files |}.
Proof.
  unfold try_acquire. destruct (split_pending id (lk_pending st)) as [[before requests]|] eqn:Es; [|done].
  destruct (existsb _ before || active_conflict st requests) eqn:Ec; [done|].
  destruct (try_process_locks lock_root id requests (lk_files st)) as [files|] eqn:Ef; [|done].
  intros [= <-]. destruct (split_pending_spec _ _ _ _ Es) as (after & Hp & _).
  apply orb_false_iff in Ec as [Hb Ha].
  exists before, requests, after, files. split_and!; try done.
  - intros p Hp'. by apply existsb_false with (x := p) in Hb.
  - intros i r Hi. unfold active_conflict in Ha.
    by apply existsb_false with (x := (i, r)) in Ha; [|apply elem_of_btree_entries].
Qed.

Lemma try_acquire_refused id st res st' :
  try_acquire id st = (res, st') -> res <> Ok true -> st' = st.
Proof.
  unfold try_acquire. destruct (split_pending _ _) as [[before requests]|]; [|congruence].
  destruct (_ || _); [congruence|]. destruct (try_process_locks _ _ _ _); congruence.
Qed.

Record LockInv (st : LockState) : Prop := {
  li_exclusive : forall i j ri rj, i <> j -> lk_active st !! i = Some ri ->
    lk_active st !! j = Some rj -> requests_conflict ri rj = false;
  li_ids : NoDup (pending_ids st)
}.

Lemma lock_step_inv st st' : lock_step st st' -> LockInv st -> LockInv st'.
Proof.
  intros Hstep [Hex Hnd]. destruct Hstep as [id requests Hid Hact|id res st' Ht|id|id|files].
  - split; [done|]. unfold pending_ids in *. cbn. rewrite fmap_app. apply NoDup_app.
    split_and!; [done | by intros x Hx ->%list_elem_of_singleton | apply NoDup_singleton].
  - destruct (decide (res = Ok true)) as [->|Hne];
      [|by rewrite (try_acquire_refused _ _ _ _ Ht Hne)].
    destruct (try_acquire_granted _ _ _ Ht) as (before & requests & after & files & Hp & Hb & Ha & _ & ->).
    split.
    + cbn. intros i j ri rj Hij Hi Hj.
      destruct (decide (id = i)) as [->|Hi'].
      { rewrite lookup_insert_eq in Hi. rewrite lookup_insert_ne in Hj by done.
        injection Hi as <-. eauto. }
      rewrite lookup_insert_ne in Hi by done. destruct (decide (id = j)) as [->|Hj'].
      * rewrite lookup_insert_eq in Hj. injection Hj as <-.
        rewrite requests_conflict_sym. eauto.
      * rewrite lookup_insert_ne in Hj by done. eauto.
    + unfold pending_ids in *. cbn. rewrite remove_pending_ids. by apply NoDup_filterb.
  - split; [done|]. unfold pending_ids in *. cbn. rewrite remove_pending_ids. by apply NoDup_filterb.
  - split; [|done]. cbn. intros i j ri rj Hij [_ Hi]%lookup_delete_Some [_ Hj]%lookup_delete_Some. eauto.
  - by split.
Qed.

(** C31. Scope locks exclude: in every run of callers that acquire, give up
    and release in any order, no two leases held at the same time conflict
    (overlap with a writer among them). *)
Theorem scope_locks_exclusive files st i j ri rj
  (Hrun : rtc lock_step (empty_locks files) st) (Hij : i <> j)
  (Hi : lk_active st !! i = Some ri) (Hj : lk_active st !! j = Some rj) :
  requests_conflict ri rj = false.
Proof.
  assert (LockInv st) as Hinv.
  { assert (LockInv (empty_locks files)) as H0 by (split; [done | constructor]).
    revert H0. induction Hrun as [|s1 s2 s3 Hstep _ IH]; [done|].
    intros H0. by eapply IH, lock_step_inv. }
  by apply (li_exclusive _ Hinv i j).
Qed.

Lemma remove_pending_split id requests before after :
  NoDup (before ++ (id, requests) :: after).*1 ->
  remove_pending id (before ++ (id, requests) :: after) = before ++ after.
Proof.
  rewrite fmap_app. cbn. intros (_ & Hb & [Ha _]%NoDup_cons)%NoDup_app.
  assert (Hkeep : forall l : list (string * list ScopeLockRequest), id ∉ l.*1 -> remove_pending id l = l).
  { induction l as [|[i r] l IH]; cbn; [done|]. intros [Hne Hl]%not_elem_of_cons.
    rewrite (proj2 (String.eqb_neq i id)) by congruence. cbn. by f_equal; apply IH. }
  unfold remove_pending. rewrite List.filter_app. cbn. rewrite String.eqb_refl. cbn.
  fold (remove_pending id before) (remove_pending id after).
  rewrite !Hkeep; [done | done|]. intros Hin. apply (Hb id Hin). left.
Qed.

(** One turn of a waiter: it is granted exactly when its requests conflict
    with no earlier waiter and no lease and the file locks are free, and then
    it leaves the queue and holds exactly its requests; otherwise nothing
    changes and it keeps its place. *)
Theorem scope_lock_turn st id requests before after
  (Hinv : LockInv st) (Hp : lk_pending st = before ++ (id, requests) :: after) :
  (forall st', try_acquire id st = (Ok true, st') <->
     (forall p, p ∈ before -> requests_conflict requests p.2 = false) /\
     (forall i r, lk_active st !! i = Some r -> requests_conflict requests r = false) /\
     exists files, try_process_locks lock_root id requests (lk_files st) = Some files /\
       st' = {| lk_active := <[id := requests]> (lk_active st);
                lk_pending := before ++ after; lk_files := files |}) /\
  (try_acquire id st = (Ok false, st) \/ exists st', try_acquire id st = (Ok true, st')).
Proof.
  pose proof (li_ids _ Hinv) as Hnd. unfold pending_ids in Hnd. rewrite Hp in Hnd.
  assert (Hid : id ∉ before.*1).
  { rewrite fmap_app in Hnd. apply NoDup_app in Hnd as (_ & Hd & _). intros Hin. apply (Hd id Hin). left. }
  unfold try_acquire, active_conflict. rewrite Hp, split_pending_first by done.
  rewrite (remove_pending_split _ _ _ _ Hnd).
  destruct (existsb _ before || existsb _ _) eqn:Ec.
  - split; [|by left]. intros st'. split; [done|]. intros (Hb & Ha & _). exfalso.
    apply orb_true_iff in Ec as [Ec|Ec]; apply existsb_elem_of in Ec as ([i r] & Hin & Hc).
    + by rewrite (Hb _ Hin) in Hc.
    + apply elem_of_btree_entries in Hin. cbn in Hc. by rewrite (Ha _ _ Hin) in Hc.
  - apply orb_false_iff in Ec as [Hb Ha].
    destruct (try_process_locks lock_root id requests (lk_files st)) as [files|].
    + split; [|eauto]. intros st'. split.
      * intros [= <-]. split_and!; [| |by exists files].
        -- intros p Hin. by apply existsb_false with (x := p) in Hb.
        -- intros i r Hi. by apply existsb_false with (x := (i, r)) in Ha; [|apply elem_of_btree_entries].
      * by intros (_ & _ & ? & [= <-] & ->).
    + split; [|by left]. intros st'. split; [done|]. by intros (_ & _ & ? & ? & _).
Qed.

(** [a] is queued before [b]. *)
Definition queued_before (st : LockState) (a b : string) (ra rb : list ScopeLockRequest) : Prop :=
  exists l1 l2 l3, lk_pending st = l1 ++ (a, ra) :: l2 ++ (b, rb) :: l3.

Definition both_queued (a b : string) (s s' : LockState) : Prop :=
  lock_step s s' /\ a ∈ pending_ids s' /\ b ∈ pending_ids s'.

Lemma queued_before_remove st a b ra rb id st' :
  queued_before st a b ra rb -> lk_pending st' = remove_pending id (lk_pending st) ->
  a ∈ pending_ids st' -> b ∈ pending_ids st' -> queued_before st' a b ra rb.
Proof.
  intros (l1 & l2 & l3 & Hp) Hp' Ha Hb. unfold pending_ids in *. rewrite Hp' in Ha, Hb.
  rewrite remove_pending_ids in Ha, Hb.
  apply elem_of_filterb in Ha as [_ Ha%negb_true_iff], Hb as [_ Hb%negb_true_iff].
  exists (remove_pending id l1), (remove_pending id l2), (remove_pending id l3).
  unfold remove_pending in *. rewrite Hp', Hp, List.filter_app. cbn. rewrite Ha. cbn.
  rewrite List.filter_app. cbn. by rewrite Hb.
Qed.

Lemma both_queued_step st st' a b ra rb :
  both_queued a b st st' -> queued_before st a b ra rb -> queued_before st' a b ra rb.
Proof.
  intros (Hstep & Ha & Hb) Hq.
  destruct Hstep as [id requests Hid Hact|id res s1 Ht|id|id|files]; try exact Hq.
  - destruct Hq as (l1 & l2 & l3 & Hp). exists l1, l2, (l3 ++ [(id, normalize_requests requests)]).
    cbn. rewrite Hp. by rewrite <- app_assoc, app_comm_cons, <- app_assoc.
  - destruct (decide (res = Ok true)) as [->|Hne];
      [|by rewrite (try_acquire_refused _ _ _ _ Ht Hne)].
    destruct (try_acquire_granted _ _ _ Ht) as (before & requests & after & files & _ & _ & _ & _ & ->).
    by eapply queued_before_remove.
  - by eapply queued_before_remove.
Qed.

(** No overtaking: once a waiter is queued before a conflicting one, the
    later one is refused for as long as the earlier one stays queued, whatever
    any caller does in between. *)
Theorem scope_locks_no_overtaking st st' a b ra rb
  (Hinv : LockInv st) (Hq : queued_before st a b ra rb)
  (Hc : requests_conflict ra rb = true) (Hrun : rtc (both_queued a b) st st') :
  try_acquire b st' = (Ok false, st').
Proof.
  assert (LockInv st' /\ queued_before st' a b ra rb) as [[_ Hnd] (l1 & l2 & l3 & Hp)].
  { clear Hc. induction Hrun as [st|st s1 st' Hstep _ IH]; [done|].
    apply IH; [eapply lock_step_inv; [apply Hstep | done] | by eapply both_queued_step]. }
  assert (b ∉ (l1 ++ (a, ra) :: l2).*1) as Hb.
  { unfold pending_ids in Hnd. rewrite Hp, app_comm_cons, app_assoc, fmap_app in Hnd.
    apply NoDup_app in Hnd as (_ & Hd & _). intros Hin. apply (Hd b Hin). left. }
  unfold try_acquire. rewrite Hp, app_comm_cons, app_assoc, split_pending_first by done.
  assert (existsb (fun p => requests_conflict rb p.2) (l1 ++ (a, ra) :: l2) = true) as ->; [|done].
  apply existsb_elem_of. exists (a, ra). split; [apply elem_of_app; right; left|].
  cbn. by rewrite requests_conflict_sym.
Qed.
End Manager.

(** ** The process tier *)

Lemma split_first_prefix sep p u :
  split_first sep (p +:+ String sep u) = split_first sep p.
Proof.
  induction p as [|a p IH].
  - change ("" +:+ String sep u)%string with (String sep u). cbn. by rewrite Ascii.eqb_refl.
  - change (String a p +:+ String sep u)%string with (String a (p +:+ String sep u)). cbn.
    destruct (Ascii.eqb a sep); [done|]. by rewrite IH.
Qed.

Lemma starts_with_slash t : starts_with t "/" = true -> exists u, t = String slash u.
Proof.
  destruct t as [|a u]; [done|]. intros Hs. exists u. revert Hs.
  change (starts_with (String a u) "/")
    with (if Ascii.ascii_dec slash a then String.prefix "" u else false).
  by destruct (Ascii.ascii_dec slash a) as [<-|].
Qed.

(** A path lies in the zone of every path above it. *)
Lemma path_is_prefix_zone p q : path_is_prefix p q = true -> path_zone p = path_zone q.
Proof.
  unfold path_is_prefix. intros [Heq|Hs]%orb_true_iff; [by apply String.eqb_eq in Heq as ->|].
  destruct (strip_prefix q p) as [t|] eqn:Et; [|done].
  apply strip_prefix_Some in Et as ->. destruct (starts_with_slash t Hs) as [u ->].
  unfold path_zone. by rewrite split_first_prefix.
Qed.

Definition modes_clash (m1 m2 : ScopeLockMode) : Prop := m1 = LockWrite \/ m2 = LockWrite.

Lemma clash_targets a b :
  clash a b = true ->
  exists key ma mb, (key, ma) ∈ request_targets a /\ (key, mb) ∈ request_targets b /\
    modes_clash ma mb.
Proof.
  unfold clash, modes_clash, is_write. intros [Ho Hm]%andb_true_iff.
  assert (Hw : lr_mode a = LockWrite \/ lr_mode b = LockWrite)
    by (apply orb_true_iff in Hm as [?%bool_decide_eq_true|?%bool_decide_eq_true]; auto).
  clear Hm. destruct a as [[id1|i1|ns1 k1] ma], b as [[id2|i2|ns2 k2] mb]; cbn in *; try done.
  - apply String.eqb_eq in Ho as ->. eexists _, _, _. split_and!; [left | left | done].
  - apply String.eqb_eq in Ho as ->. destruct ma.
    + destruct Hw as [?| ->]; [done|]. eexists _, _, _. split_and!; [right; left | right; left | by left].
    + eexists _, _, _. split_and!; [left | left | by left].
  - apply String.eqb_eq in Ho as ->. destruct mb.
    + destruct Hw as [->|?]; [|done]. eexists _, _, _. split_and!; [right; left | right; left | by right].
    + eexists _, _, _. split_and!; [left | left | by right].
  - apply andb_true_iff in Ho as [[Hws%String.eqb_eq Hrp%String.eqb_eq]%andb_true_iff Hpp].
    assert (path_zone (wp_repository_relative_path i1) = path_zone (wp_repository_relative_path i2)) as Hz
      by (apply orb_true_iff in Hpp as [Hp|Hp]; apply path_is_prefix_zone in Hp; congruence).
    rewrite Hws, Hrp, Hz. eexists _, ma, mb. split_and!; [| |exact Hw]; right; apply elem_of_app; right; left.
  - apply andb_true_iff in Ho as [->%String.eqb_eq ->%String.eqb_eq].
    eexists _, _, _. split_and!; [left | left | done].
Qed.

(** Merging keeps a key and its strongest mode. *)
Lemma process_targets_lookup entries : forall targets key m,
  (key, m) ∈ entries \/ (exists m0, targets !! key = Some m0 /\ (m = LockWrite -> m0 = LockWrite)) ->
  exists m', foldl merge_process_target targets entries !! key = Some m' /\
    (m = LockWrite -> m' = LockWrite).
Proof.
  induction entries as [|[k md] entries IH]; intros targets key m Hin; cbn.
  - destruct Hin as [[]%not_elem_of_nil|(m0 & Hm & Hw)]. by exists m0.
  - apply (IH (merge_process_target targets (k, md))). unfold merge_process_target. cbn.
    destruct Hin as [[[= -> ->]|Hin]%elem_of_cons|(m0 & Hm & Hw)]; [right | by left | right].
    + rewrite lookup_insert_eq. eexists. split; [done|]. intros ->. by destruct (targets !! k).
    + destruct (decide (k = key)) as [->|Hne]; [|rewrite lookup_insert_ne by done; eauto].
      rewrite lookup_insert_eq, Hm. eexists. split; [done|]. intros Hmw. rewrite (Hw Hmw). by destruct md.
Qed.

Lemma requests_conflict_targets l r :
  requests_conflict l r = true ->
  exists key ml mr, (key, ml) ∈ btree_entries (process_targets l) /\
    (key, mr) ∈ btree_entries (process_targets r) /\ modes_clash ml mr.
Proof.
  intros (a & b & Ha & Hb & Hc)%requests_conflict_true.
  destruct (clash_targets a b Hc) as (key & ma & mb & Hka & Hkb & Hm).
  assert (Htarget : forall rs x m, x ∈ rs -> (key, m) ∈ request_targets x ->
    exists m', (key, m') ∈ btree_entries (process_targets rs) /\ (m = LockWrite -> m' = LockWrite)).
  { intros rs x m Hx Hk. destruct (process_targets_lookup (rs ≫= request_targets) ∅ key m)
      as (m' & Hm' & Hw); [left; apply list_elem_of_bind; eauto|].
    exists m'. split; [|done]. by apply elem_of_btree_entries. }
  destruct (Htarget l a ma Ha Hka) as (ml & Hl & Hwl).
  destruct (Htarget r b mb Hb Hkb) as (mr & Hr & Hwr).
  exists key, ml, mr. split_and!; [done | done|]. destruct Hm as [Hm|Hm]; [left | right]; auto.
Qed.

Lemma try_lock_holders files path owner mode files' :
  try_lock files path owner mode = Some files' ->
  (forall p h, h ∈ holders files p -> h ∈ holders files' p) /\
  (owner, mode) ∈ holders files' path.
Proof.
  unfold try_lock. match goal with |- context [if ?free then _ else _] => destruct free end; [|done].
  intros [= <-].
  assert (Hat : forall p, holders (<[path := (owner, mode) :: holders files path]> files) p
            = if decide (p = path) then (owner, mode) :: holders files path else holders files p).
  { intros p. unfold holders at 1.
    destruct (decide (p = path)) as [->|Hne]; [by rewrite lookup_insert_eq | by rewrite lookup_insert_ne]. }
  split; [|rewrite Hat, decide_True by done; left].
  intros p h Hh. rewrite Hat. destruct (decide (p = path)) as [->|Hne]; [by right | done].
Qed.

Lemma try_lock_blocked files path owner mode h :
  h ∈ holders files path -> modes_clash h.2 mode -> try_lock files path owner mode = None.
Proof.
  intros Hin Hm. unfold try_lock. destruct mode.
  - assert (forallb (fun h => negb (is_write h.2)) (holders files path) = false) as ->; [|done].
    apply not_true_iff_false. rewrite forallb_elem_of. intros Hall. specialize (Hall h Hin).
    destruct Hm as [Hm|]; [|done]. cbn in Hall. by rewrite Hm in Hall.
  - rewrite bool_decide_eq_false_2; [done|]. intros Hnil. rewrite Hnil in Hin.
    by apply not_elem_of_nil in Hin.
Qed.

Lemma lock_targets_holders root owner targets : forall files files',
  lock_targets root owner files targets = Some files' ->
  (forall p h, h ∈ holders files p -> h ∈ holders files' p) /\
  (forall key m, (key, m) ∈ targets -> (owner, m) ∈ holders files' (lock_path root key)).
Proof.
  induction targets as [|[k m] targets IH]; intros files files'; cbn.
  - intros [= <-]. split; [done|]. by intros ? ? ?%not_elem_of_nil.
  - destruct (try_lock files (lock_path root k) owner m) as [f1|] eqn:Et; [|done].
    intros Hl. destruct (try_lock_holders _ _ _ _ _ Et) as [Hkeep Hown].
    destruct (IH f1 files' Hl) as [Hkeep' Hall]. split; [auto|].
    intros key m' [[= -> ->]|Hin]%elem_of_cons; auto.
Qed.

Lemma lock_targets_blocked root owner targets : forall files key m h,
  (key, m) ∈ targets -> h ∈ holders files (lock_path root key) -> modes_clash h.2 m ->
  lock_targets root owner files targets = None.
Proof.
  induction targets as [|[k md] targets IH]; intros files key m h Hin Hh Hm; [by apply not_elem_of_nil in Hin|].
  cbn. destruct (try_lock files (lock_path root k) owner md) as [f1|] eqn:Et; [|done].
  apply elem_of_cons in Hin as [[= -> ->]|Hin].
  - by rewrite (try_lock_blocked _ _ _ _ _ Hh Hm) in Et.
  - apply (IH f1 key m h); [done | | done]. by eapply try_lock_holders.
Qed.

(** The file-lock tier is sound across processes: while the lease [a] of
    one process holds the file locks of its requests, no other process obtains
    the file locks of a conflicting set of requests, whatever hash collisions
    there are and whatever else is locked. *)
Theorem process_locks_exclusive root a b l r files files1 files2
  (Hc : requests_conflict l r = true)
  (Ha : try_process_locks (Some root) a l files = Some files1)
  (Hheld : forall p m, (a, m) ∈ holders files1 p -> (a, m) ∈ holders files2 p) :
  try_process_locks (Some root) b r files2 = None.
Proof.
  destruct (requests_conflict_targets l r Hc) as (key & ml & mr & Hl & Hr & Hm).
  destruct (lock_targets_holders _ _ _ _ _ Ha) as [_ Hown].
  by apply (lock_targets_blocked root b _ files2 key mr (a, ml)); [|apply Hheld, Hown|].
Qed.

Lemma holders_insert path p hs files :
  holders (<[path := hs]> files) p = if decide (p = path) then hs else holders files p.
Proof.
  unfold holders. destruct (decide (p = path)) as [->|Hne];
    [by rewrite lookup_insert_eq | by rewrite lookup_insert_ne].
Qed.

Lemma holders_unlock files owner p :
  holders (unlock_all files owner) p
  = List.filter (fun h => negb (String.eqb h.1 owner)) (holders files p).
Proof. unfold holders, unlock_all. rewrite lookup_fmap. by destruct (files !! p). Qed.

(** Locking adds entries of the owner only. *)
Lemma lock_targets_unlock root owner targets : forall files files' p,
  lock_targets root owner files targets = Some files' ->
  holders (unlock_all files' owner) p = holders (unlock_all files owner) p.
Proof.
  induction targets as [|[k m] targets IH]; intros files files' p; cbn; [by intros [= ->]|].
  destruct (try_lock files (lock_path root k) owner m) as [f1|] eqn:Et; [|done].
  intros Hl. rewrite (IH _ _ _ Hl). unfold try_lock in Et.
  destruct (match m with LockRead => _ | LockWrite => _ end); [|done]. injection Et as <-.
  rewrite !holders_unlock, holders_insert. destruct (decide _) as [->|]; [|done].
  cbn. by rewrite String.eqb_refl.
Qed.

Lemma lock_targets_free root owner targets : forall files,
  NoDup (lock_path root <$> targets.*1) ->
  (forall key m, (key, m) ∈ targets -> holders files (lock_path root key) = []) ->
  exists files', lock_targets root owner files targets = Some files' /\
    (forall key m, (key, m) ∈ targets -> holders files' (lock_path root key) = [(owner, m)]) /\
    (forall p, p ∉ lock_path root <$> targets.*1 -> holders files' p = holders files p).
Proof.
  induction targets as [|[k m] targets IH]; intros files Hnd Hfree; cbn.
  { exists files. split_and!; [done | by intros ? ? ?%not_elem_of_nil | done]. }
  cbn in Hnd. apply NoDup_cons in Hnd as [Hk Hnd].
  assert (try_lock files (lock_path root k) owner m
          = Some (<[lock_path root k := [(owner, m)]]> files)) as ->.
  { unfold try_lock. rewrite (Hfree k m) by left. by destruct m. }
  assert (Hother : forall key m', (key, m') ∈ targets -> lock_path root key <> lock_path root k).
  { intros key m' Hin Heq. apply Hk. rewrite <- Heq.
    by apply list_elem_of_fmap_2, (list_elem_of_fmap_2 fst _ (key, m')). }
  destruct (IH (<[lock_path root k := [(owner, m)]]> files)) as (files' & Hl & Hown & Hkeep); [done | |].
  { intros key m' Hin. rewrite holders_insert, decide_False by eauto.
    apply (Hfree key m'). by right. }
  exists files'. split_and!; [done | |].
  - intros key m' [[= -> ->]|Hin]%elem_of_cons; [|by apply Hown].
    by rewrite Hkeep, holders_insert, decide_True.
  - intros p [Hpk Hp]%not_elem_of_cons. by rewrite Hkeep, holders_insert, decide_False.
Qed.

Lemma filter_fresh owner (hs : list (string * ScopeLockMode)) :
  (forall m, (owner, m) ∉ hs) -> List.filter (fun h => negb (String.eqb h.1 owner)) hs = hs.
Proof.
  induction hs as [|[o m] hs IH]; cbn; intros Hf; [done|].
  destruct (String.eqb_spec o owner) as [->|Hne]; [by destruct (Hf m); left|].
  cbn. f_equal. apply IH. intros m' Hin. apply (Hf m'). by right.
Qed.

(** The file-lock tier grants and gives back: a request set whose lock
    files are distinct and held by nobody is granted, and dropping the lease of
    a new owner leaves every lock file held exactly as before. *)
Theorem process_locks_roundtrip root owner requests files
  (Hfresh : forall p m, (owner, m) ∉ holders files p)
  (Hdistinct : NoDup (lock_path root <$> (btree_entries (process_targets requests)).*1))
  (Hfree : forall key m, process_targets requests !! key = Some m ->
     holders files (lock_path root key) = []) :
  exists files', try_process_locks (Some root) owner requests files = Some files' /\
    (forall key m, process_targets requests !! key = Some m ->
       holders files' (lock_path root key) = [(owner, m)]) /\
    (forall p, holders (unlock_all files' owner) p = holders files p).
Proof.
  cbn [try_process_locks].
  destruct (lock_targets_free root owner _ files Hdistinct) as (files' & Hl & Hown & _).
  { intros key m Hin. by apply (Hfree key m), elem_of_btree_entries. }
  exists files'. split_and!; [done | |].
  - intros key m Hkey. by apply Hown, elem_of_btree_entries.
  - intros p. rewrite (lock_targets_unlock _ _ _ _ _ p Hl), holders_unlock. by apply filter_fresh.
Qed.

(** ** Where the tiers part *)

(** In the file-lock tier a workspace-wide reader excludes every other
    workspace-wide reader, although the two requests do not conflict: both ask
    for the exclusive [workspace-writers] lock. *)
Theorem workspace_readers_exclude root a b id files files1 files2
  (Ha : try_process_locks (Some root) a
          [{| lr_scope := Workspace id; lr_mode := LockRead |}] files = Some files1)
  (Hheld : forall p m, (a, m) ∈ holders files1 p -> (a, m) ∈ holders files2 p) :
  requests_conflict [{| lr_scope := Workspace id; lr_mode := LockRead |}]
                    [{| lr_scope := Workspace id; lr_mode := LockRead |}] = false /\
  try_process_locks (Some root) b
    [{| lr_scope := Workspace id; lr_mode := LockRead |}] files2 = None.
Proof.
  split; [cbn; by rewrite String.eqb_refl|].
  set (ws := [{| lr_scope := Workspace id; lr_mode := LockRead |}]) in *.
  destruct (lock_targets_holders _ _ _ _ _ Ha) as [_ Hown].
  destruct (process_targets_lookup (ws ≫= request_targets) ∅ ("workspace-writers:" +:+ id) LockWrite)
    as (m & Hm & Hw); [left; right; left|]. rewrite (Hw eq_refl) in Hm.
  assert (("workspace-writers:" +:+ id, LockWrite)%string ∈ btree_entries (process_targets ws)) as Hin
    by by apply elem_of_btree_entries.
  apply (lock_targets_blocked root b _ files2 ("workspace-writers:" +:+ id) LockWrite (a, LockWrite));
    [done | apply Hheld, Hown, Hin | by left].
Qed.

(** The identity of an object at a repository-relative path. *)
Definition object_at (workspace repository path : string) : WorkspacePathIdentity :=
  {| wp_workspace_id := workspace; wp_repository_id := repository;
     wp_workspace_relative_path := path; wp_repository_relative_path := path;
     wp_object_kind := WoDirectory; wp_observed_revision_or_digest := None |}.

(** A lock on the repository root ["."] excludes nothing below it: the root
    object overlaps an object at another path of the same repository only if
    that path starts with ["./"], which normalized paths do not. *)
Theorem repository_root_excludes_only_itself workspace repository path :
  overlaps (WorkspaceObject (object_at workspace repository "."))
           (WorkspaceObject (object_at workspace repository path)) = true <->
  path = "."%string \/ exists rest, path = ("./" +:+ rest)%string.
Proof.
  cbn [overlaps object_at wp_workspace_id wp_repository_id wp_repository_relative_path].
  rewrite !String.eqb_refl. cbn [andb]. rewrite orb_true_iff.
  assert (Hdown : path_is_prefix "." path = true <->
            path = "."%string \/ exists rest, path = ("./" +:+ rest)%string).
  { unfold path_is_prefix. rewrite orb_true_iff, String.eqb_eq. split.
    - intros [<-|Hs]; [by left|]. right. destruct (strip_prefix path ".") as [t|] eqn:Et; [|done].
      apply strip_prefix_Some in Et as ->. destruct (starts_with_slash t Hs) as [u ->]. by exists u.
    - intros [->|[rest ->]]; [by left|]. right.
      rewrite (proj2 (strip_prefix_Some ("./" +:+ rest) "." (String slash rest)) eq_refl).
      change (starts_with (String slash rest) "/") with (String.prefix "" rest). by destruct rest. }
  rewrite Hdown. split; [|by left]. intros [?|Hup]; [done|]. left.
  unfold path_is_prefix in Hup. apply orb_true_iff in Hup as [?%String.eqb_eq|Hs]; [done|].
  exfalso. destruct (strip_prefix "." path) as [t|] eqn:Et; [|done].
  apply strip_prefix_Some in Et. destruct (starts_with_slash t Hs) as [u ->].
  destruct path as [|a [|b path]]; cbn in Et; discriminate Et.
Qed.

(** ** Concrete runs *)

Definition scope_debug0 (scope : ScopedResource) : string :=
  match scope with
  | Workspace id => "Workspace " +:+ id
  | WorkspaceObject i => "WorkspaceObject " +:+ wp_repository_relative_path i
  | Resource ns key => "Resource " +:+ ns +:+ " " +:+ key
  end%string.

Definition write_at (path : string) : ScopeLockRequest :=
  {| lr_scope := WorkspaceObject (object_at "w" "r" path); lr_mode := LockWrite |}.
Definition read_at (path : string) : ScopeLockRequest :=
  {| lr_scope := WorkspaceObject (object_at "w" "r" path); lr_mode := LockRead |}.
Definition read_workspace : ScopeLockRequest :=
  {| lr_scope := Workspace "w"; lr_mode := LockRead |}.

(** [a] and [c] hold leases on disjoint paths; [b] waits behind [a]. *)
Definition locks_held : LockState :=
  let step id st := (try_acquire (Some "locks") id st).2 in
  let queue id rs st := enqueue scope_debug0 id rs st in
  queue "b" [write_at "src/lib.rs"]
    (step "c" (queue "c" [write_at "tests"] (step "a" (queue "a" [write_at "src"]
      (empty_locks ∅))))).

Lemma locks_held_reachable : rtc (lock_step scope_debug0 (Some "locks")) (empty_locks ∅) locks_held.
Proof.
  unfold locks_held. cbv zeta beta.
  eapply rtc_l; [apply (StepEnqueue _ _ _ "a" [write_at "src"]); vm_compute; [by intros ?%elem_of_nil | done]|].
  eapply rtc_l; [by apply (StepTry _ _ _ "a" (Ok true)); vm_compute|].
  eapply rtc_l; [apply (StepEnqueue _ _ _ "c" [write_at "tests"]); vm_compute; [by intros ?%elem_of_nil | done]|].
  eapply rtc_l; [by apply (StepTry _ _ _ "c" (Ok true)); vm_compute|].
  eapply rtc_l; [apply (StepEnqueue _ _ _ "b" [write_at "src/lib.rs"]); vm_compute; [by intros ?%elem_of_nil | done]|].
  apply rtc_refl.
Qed.

Lemma scope_locks_exclusive_witness :
  requests_conflict [write_at "src"] [write_at "tests"] = false.
Proof.
  apply (scope_locks_exclusive scope_debug0 (Some "locks"%string) ∅ locks_held "a" "c");
    [exact locks_held_reachable | done | vm_compute; reflexivity | vm_compute; reflexivity].
Defined.

(** [a] waits for [c]'s lease and [b] waits behind [a]. *)
Definition locks_queued : LockState :=
  enqueue scope_debug0 "b" [read_at "src/lib.rs"]
    (enqueue scope_debug0 "a" [write_at "src"] (empty_locks ∅)).

(** [c] does not conflict with the waiters before it. *)
Definition locks_turn : LockState :=
  enqueue scope_debug0 "c" [write_at "tests"] locks_queued.

Lemma scope_lock_turn_witness :
  exists st', try_acquire (Some "locks"%string) "c" locks_turn = (Ok true, st').
Proof.
  destruct (scope_lock_turn (Some "locks"%string) locks_turn "c" [write_at "tests"]
              [("a", [write_at "src"]); ("b", [read_at "src/lib.rs"])]%string [])
    as [_ [Hno|Hyes]].
  - split; [done|]. vm_compute. repeat constructor; set_solver.
  - reflexivity.
  - vm_compute in Hno. discriminate Hno.
  - exact Hyes.
Defined.

Lemma process_locks_roundtrip_witness :
  exists files', try_process_locks (Some "locks"%string) "a" [write_at "src"] ∅ = Some files' /\
    (forall p, holders (unlock_all files' "a") p = []).
Proof.
  destruct (process_locks_roundtrip "locks" "a" [write_at "src"] ∅) as (files' & Hl & _ & Hback).
  - intros p m. by intros ?%not_elem_of_nil.
  - vm_compute. repeat constructor; set_solver.
  - done.
  - exists files'. split; [exact Hl | exact Hback].
Defined.

Lemma scope_locks_no_overtaking_witness :
  try_acquire (Some "locks"%string) "b" locks_queued = (Ok false, locks_queued).
Proof.
  apply (scope_locks_no_overtaking scope_debug0 (Some "locks"%string) locks_queued locks_queued "a" "b"
           [write_at "src"] [read_at "src/lib.rs"]).
  - split; [done|]. vm_compute. repeat constructor; set_solver.
  - by exists [], [], [].
  - vm_compute. reflexivity.
  - apply rtc_refl.
Defined.

Lemma process_locks_exclusive_witness :
  try_process_locks (Some "locks"%string) "b" [read_at "src/lib.rs"]
    (default ∅ (try_process_locks (Some "locks"%string) "a" [write_at "src"] ∅)) = None.
Proof.
  refine (process_locks_exclusive "locks" "a" "b" [write_at "src"] [read_at "src/lib.rs"] ∅
           (default ∅ (try_process_locks (Some "locks"%string) "a" [write_at "src"] ∅)) _ _ _ _);
    [vm_compute; reflexivity | vm_compute; reflexivity | intros p m Hh; exact Hh].
Defined.

Lemma workspace_readers_exclude_witness :
  requests_conflict [read_workspace] [read_workspace] = false /\
  try_process_locks (Some "locks"%string) "b" [read_workspace]
    (default ∅ (try_process_locks (Some "locks"%string) "a" [read_workspace] ∅)) = None.
Proof.
  refine (workspace_readers_exclude "locks" "a" "b" "w" ∅
           (default ∅ (try_process_locks (Some "locks"%string) "a" [read_workspace] ∅)) _ _ _);
    [vm_compute; reflexivity | intros p m Hh; exact Hh].
Defined.
