(* ===== verification/Adaptive.v ===== *)
(** * Adaptive concurrency limits

    [runtime/src/execution_core/graph/resources/manager.rs], the part that
    observes one resource: its quota, the window of samples with their
    metrics, and the policy that moves the effective limit.  Floating-point
    arithmetic (the Wilson bound) is IEEE binary64 as specified by
    [SpecFloat]. *)

From Stdlib Require Import Floats.SpecFloat.
From S2P Require Import Prelude.

(** ** Quotas *)

Record ResourceQuota := { q_minimum : N; q_target : N; q_maximum : N }.

#[export] Instance ResourceQuota_eq_dec : EqDecision ResourceQuota.
Proof. solve_decision. Defined.

(** The condition under which [ResourceQuota::new] fails. *)
Definition quota_invalid (minimum target maximum : N) : bool :=
  (minimum =? 0)%N || (target <? minimum)%N || (maximum <? target)%N.

Definition quota_valid (q : ResourceQuota) : Prop :=
  quota_invalid (q_minimum q) (q_target q) (q_maximum q) = false.

(** ** Samples *)

Inductive ResourceResultClass :=
| ResultCompleted | ResultFailed | ResultCancelled | ResultTimedOut | ResultDownstreamOverload.

#[export] Instance ResourceResultClass_eq_dec : EqDecision ResourceResultClass.
Proof. solve_decision. Defined.

Inductive ResourceLimitAdjustment :=
| Hold
| Increased
| DecreasedOverload
| DecreasedFailureUpperBound
| DecreasedServiceRegression
| ResetToConfiguredTarget.

#[export] Instance ResourceLimitAdjustment_eq_dec : EqDecision ResourceLimitAdjustment.
Proof. solve_decision. Defined.

Record ResourceSample := {
  sm_observed_at_ms : N;
  sm_queue_wait_ms : N;
  sm_service_time_ms : N;
  sm_result_class : ResourceResultClass
}.

Record IncreaseBaseline := {
  ib_sample_sequence : N;
  ib_service_p95_ms : N;
  ib_throughput_per_minute : N
}.

Record AdaptiveState := {
  ad_healthy_streak : N;
  ad_total_samples : N;
  ad_last_adjustment_at_ms : option N;
  ad_last_adjustment : ResourceLimitAdjustment;
  ad_increase_baseline : option IncreaseBaseline
}.

Definition AdaptiveState_default : AdaptiveState :=
  {| ad_healthy_streak := 0; ad_total_samples := 0; ad_last_adjustment_at_ms := None;
     ad_last_adjustment := Hold; ad_increase_baseline := None |}.

(** [active] maps a lease to its weight. *)
Record ResourceState := {
  rs_quota : ResourceQuota;
  rs_effective_limit : N;
  rs_active : gmap N N;
  rs_samples : list ResourceSample;
  rs_adaptive : AdaptiveState
}.

Definition RESOURCE_SAMPLE_CAPACITY : nat := 256.
Definition ADAPTATION_WINDOW : nat := 16.
Definition ADAPTATION_HALF_WINDOW : nat := ADAPTATION_WINDOW / 2.
Definition ADJUSTMENT_COOLDOWN_MS : N := 5000.
Definition FRESHNESS_WINDOW_MS : N := 60000.
Definition HIGH_QUEUE_P95_MS : N := 100.
Definition FAILURE_TIMEOUT_UCB_THRESHOLD_BP : N := 3500.

(** [push_sample] *)
Definition push_sample (samples : list ResourceSample) (sample : ResourceSample) :
  list ResourceSample :=
  (if length samples =? RESOURCE_SAMPLE_CAPACITY then tail samples else samples) ++ [sample].

(** ** Window metrics *)

Record ResourceWindowMetrics := {
  wm_samples : nat;
  wm_failed : nat;
  wm_cancelled : nat;
  wm_timed_out : nat;
  wm_overloaded : nat;
  wm_queue_p95_ms : N;
  wm_service_p95_ms : N;
  wm_throughput_per_minute : N
}.

Definition ResourceWindowMetrics_default : ResourceWindowMetrics :=
  {| wm_samples := 0; wm_failed := 0; wm_cancelled := 0; wm_timed_out := 0; wm_overloaded := 0;
     wm_queue_p95_ms := 0; wm_service_p95_ms := 0; wm_throughput_per_minute := 0 |}.

(** [values.get((values.len().saturating_sub(1) * numerator) / 100)] *)
Definition percentile (values : list N) (numerator : nat) : N :=
  default 0%N (values !! ((length values - 1) * numerator / 100)).

Definition sorted_values (f : ResourceSample -> N) (samples : list ResourceSample) : list N :=
  merge_sort N.le (f <$> samples).

Definition count_class (c : ResourceResultClass) (samples : list ResourceSample) : nat :=
  length (List.filter (fun s => bool_decide (sm_result_class s = c)) samples).

Definition observed_before (a b : ResourceSample) : Prop :=
  (sm_observed_at_ms a <= sm_observed_at_ms b)%N.

#[export] Instance observed_before_dec : RelDecision observed_before.
Proof. intros a b. unfold observed_before. apply _. Defined.

(** [window_metrics]; the stable [sort_by_key]. *)
Definition window_metrics (samples0 : list ResourceSample) : ResourceWindowMetrics :=
  match merge_sort observed_before samples0 with
  | [] => ResourceWindowMetrics_default
  | (first :: _) as samples =>
      let last := default first (last samples) in
      let elapsed_ms :=
        N.max (u64_saturating_add (sm_observed_at_ms last - sm_observed_at_ms first)
                 (sm_service_time_ms last)) 1 in
      {| wm_samples := length samples;
         wm_failed := count_class ResultFailed samples;
         wm_cancelled := count_class ResultCancelled samples;
         wm_timed_out := count_class ResultTimedOut samples;
         wm_overloaded := count_class ResultDownstreamOverload samples;
         wm_queue_p95_ms := percentile (sorted_values sm_queue_wait_ms samples) 95;
         wm_service_p95_ms := percentile (sorted_values sm_service_time_ms samples) 95;
         wm_throughput_per_minute :=
           u64_saturating_mul (N.of_nat (count_class ResultCompleted samples)) 60000
           / elapsed_ms |}
  end.

(** [rate_basis_points] *)
Definition rate_basis_points (count samples : nat) : option N :=
  if samples =? 0 then None
  else Some (N.min (sat_mul usize_max (N.of_nat count) 10000 / N.of_nat samples) 10000).

(** ** The Wilson upper bound, in binary64 *)

Definition f64_add := SFadd 53 1024.
Definition f64_sub := SFsub 53 1024.
Definition f64_mul := SFmul 53 1024.
Definition f64_div := SFdiv 53 1024.
Definition f64_sqrt := SFsqrt 53 1024.

(** [x as f64] of an unsigned integer, rounded to nearest even. *)
Definition f64_of_N (n : N) : spec_float := binary_normalize 53 1024 (Z.of_N n) 0 false.

(** The literal [1.96_f64]: the nearest binary64 number. *)
Definition f64_1_96 : spec_float := S754_finite false 8827055269646172 (-52).

(** [f64::round]: half away from zero; to an integer value. *)
Definition f64_round (x : spec_float) : option Z :=
  match x with
  | S754_zero _ => Some 0%Z
  | S754_finite s m e =>
      let magnitude :=
        if (0 <=? e)%Z then (Z.pos m * 2 ^ e)%Z
        else ((2 * Z.pos m + 2 ^ (- e)) / (2 * 2 ^ (- e)))%Z in
      Some (if s then (- magnitude)%Z else magnitude)
  | S754_infinity _ | S754_nan => None
  end.

(** [x.round().clamp(0.0, 10_000.0) as u16]; a NaN is cast to 0. *)
Definition f64_to_basis_points (x : spec_float) : N :=
  match x with
  | S754_infinity false => 10000
  | S754_infinity true | S754_nan => 0
  | _ => match f64_round x with
         | Some z => Z.to_N (Z.min (Z.max z 0) 10000)
         | None => 0
         end
  end.

(** [wilson_upper_bound_basis_points] *)
Definition wilson_upper_bound_basis_points (adverse samples : nat) : option N :=
  if samples =? 0 then None
  else
    let n := f64_of_N (N.of_nat samples) in
    let p := f64_div (f64_of_N (N.of_nat (min adverse samples))) n in
    let z := f64_1_96 in
    let z2 := f64_mul z z in
    let denominator := f64_add (f64_of_N 1) (f64_div z2 n) in
    let centre := f64_add p (f64_div z2 (f64_mul (f64_of_N 2) n)) in
    let variance :=
      f64_div (f64_add (f64_mul p (f64_sub (f64_of_N 1) p))
                 (f64_div z2 (f64_mul (f64_of_N 4) n))) n in
    let margin := f64_mul z (f64_sqrt variance) in
    Some (f64_to_basis_points
            (f64_mul (f64_div (f64_add centre margin) denominator) (f64_of_N 10000))).

(** [failure_timeout_upper_bound] *)
Definition failure_timeout_upper_bound (m : ResourceWindowMetrics) : option N :=
  let adverse := wm_failed m + wm_timed_out m in
  if adverse =? 0 then (if wm_samples m =? 0 then None else Some 0%N)
  else wilson_upper_bound_basis_points adverse (wm_samples m).

(** ** The policy *)

Definition with_adaptive (s : ResourceState) (limit : N) (a : AdaptiveState) : ResourceState :=
  {| rs_quota := rs_quota s; rs_effective_limit := limit; rs_active := rs_active s;
     rs_samples := rs_samples s; rs_adaptive := a |}.

Definition with_streak (s : ResourceState) (streak : N) : ResourceState :=
  with_adaptive s (rs_effective_limit s)
    {| ad_healthy_streak := streak; ad_total_samples := ad_total_samples (rs_adaptive s);
       ad_last_adjustment_at_ms := ad_last_adjustment_at_ms (rs_adaptive s);
       ad_last_adjustment := ad_last_adjustment (rs_adaptive s);
       ad_increase_baseline := ad_increase_baseline (rs_adaptive s) |}.

Definition with_baseline (s : ResourceState) (b : IncreaseBaseline) : ResourceState :=
  with_adaptive s (rs_effective_limit s)
    {| ad_healthy_streak := ad_healthy_streak (rs_adaptive s);
       ad_total_samples := ad_total_samples (rs_adaptive s);
       ad_last_adjustment_at_ms := ad_last_adjustment_at_ms (rs_adaptive s);
       ad_last_adjustment := ad_last_adjustment (rs_adaptive s);
       ad_increase_baseline := Some b |}.

(** [apply_limit] *)
Definition apply_limit (s : ResourceState) (desired observed_at_ms : N)
    (adjustment : ResourceLimitAdjustment) : ResourceState :=
  with_adaptive s (clamp desired (q_minimum (rs_quota s)) (q_maximum (rs_quota s)))
    {| ad_healthy_streak := ad_healthy_streak (rs_adaptive s);
       ad_total_samples := ad_total_samples (rs_adaptive s);
       ad_last_adjustment_at_ms := Some observed_at_ms;
       ad_last_adjustment := adjustment;
       ad_increase_baseline :=
         if decide (adjustment = Increased) then ad_increase_baseline (rs_adaptive s) else None |}.

(** [usize::div_ceil] *)
Definition div_ceil (a b : N) : N := (a + b - 1) / b.

(** An eighth of the limit, at least one. *)
Definition eighth (limit : N) : N := N.max (div_ceil limit 8) 1.

Definition cooldown_ready (s : ResourceState) (observed_at_ms : N) : bool :=
  match ad_last_adjustment_at_ms (rs_adaptive s) with
  | None => true
  | Some last => (ADJUSTMENT_COOLDOWN_MS <=? observed_at_ms - last)%N
  end.

(** The last increase made things worse. *)
Definition regressed (s : ResourceState) (current : ResourceWindowMetrics)
    (baseline : IncreaseBaseline) : bool :=
  (N.of_nat ADAPTATION_HALF_WINDOW
     <=? ad_total_samples (rs_adaptive s) - ib_sample_sequence baseline)%N
  && ((0 <? ib_service_p95_ms baseline)%N
      && (u64_saturating_mul (ib_service_p95_ms baseline) 3 / 2 <? wm_service_p95_ms current)%N)
  && (wm_throughput_per_minute current <=? ib_throughput_per_minute baseline)%N.

(** Demand is queueing while the resource is healthy. *)
Definition healthy (current previous : ResourceWindowMetrics) : bool :=
  (HIGH_QUEUE_P95_MS <=? wm_queue_p95_ms current)%N
  && ((wm_service_p95_ms previous =? 0)%N
      || (wm_service_p95_ms current <=? u64_saturating_mul (wm_service_p95_ms previous) 6 / 5)%N)
  && (u64_saturating_mul (wm_throughput_per_minute previous) 21 / 20
        <? wm_throughput_per_minute current)%N
  && ((wm_failed current =? 0) && (wm_timed_out current =? 0) && (wm_overloaded current =? 0)).

(** The end of [apply_adaptive_policy]: the healthy streak and the increase. *)
Definition adapt_streak (s : ResourceState) (current previous : ResourceWindowMetrics)
    (observed_at_ms : N) : ResourceState :=
  let s1 :=
    with_streak s (if healthy current previous
                   then sat_add u8_max (ad_healthy_streak (rs_adaptive s)) 1 else 0) in
  if (3 <=? ad_healthy_streak (rs_adaptive s1))%N && cooldown_ready s observed_at_ms
     && (rs_effective_limit s <? q_maximum (rs_quota s))%N
  then
    let s2 := with_baseline (with_streak s1 0)
                {| ib_sample_sequence := ad_total_samples (rs_adaptive s);
                   ib_service_p95_ms := wm_service_p95_ms current;
                   ib_throughput_per_minute := wm_throughput_per_minute current |} in
    apply_limit s2
      (usize_saturating_add (rs_effective_limit s) (eighth (rs_effective_limit s)))
      observed_at_ms Increased
  else s1.

(** [apply_adaptive_policy] *)
Definition apply_adaptive_policy (s : ResourceState) (observed_at_ms : N) : ResourceState :=
  let limit := rs_effective_limit s in
  let above_minimum := (q_minimum (rs_quota s) <? limit)%N in
  let ready := cooldown_ready s observed_at_ms in
  let overloaded :=
    match last (rs_samples s) with
    | Some latest => bool_decide (sm_result_class latest = ResultDownstreamOverload)
    | None => false
    end in
  if overloaded && ready && above_minimum
  then apply_limit s (N.max (div_ceil limit 2) (q_minimum (rs_quota s))) observed_at_ms
         DecreasedOverload
  else if length (rs_samples s) <? ADAPTATION_WINDOW then with_streak s 0
  else
    let recent := take ADAPTATION_WINDOW (rev (rs_samples s)) in
    let current := window_metrics (take ADAPTATION_HALF_WINDOW recent) in
    let previous := window_metrics (drop ADAPTATION_HALF_WINDOW recent) in
    let whole := window_metrics recent in
    let failure_ucb := default 0%N (failure_timeout_upper_bound whole) in
    if (FAILURE_TIMEOUT_UCB_THRESHOLD_BP <=? failure_ucb)%N
       && (0 <? wm_failed whole + wm_timed_out whole) && ready && above_minimum
    then apply_limit s (limit - eighth limit) observed_at_ms DecreasedFailureUpperBound
    else if match ad_increase_baseline (rs_adaptive s) with
            | Some baseline => regressed s current baseline && ready && above_minimum
            | None => false
            end
    then apply_limit s (limit - eighth limit) observed_at_ms DecreasedServiceRegression
    else adapt_streak s current previous observed_at_ms.

(** One recorded sample: [push_sample], the sample counter, the policy. *)
Definition record_sample (s : ResourceState) (sample : ResourceSample) (observed_at_ms : N) :
  ResourceState :=
  apply_adaptive_policy
    {| rs_quota := rs_quota s; rs_effective_limit := rs_effective_limit s;
       rs_active := rs_active s; rs_samples := push_sample (rs_samples s) sample;
       rs_adaptive :=
         {| ad_healthy_streak := ad_healthy_streak (rs_adaptive s);
            ad_total_samples := u64_saturating_add (ad_total_samples (rs_adaptive s)) 1;
            ad_last_adjustment_at_ms := ad_last_adjustment_at_ms (rs_adaptive s);
            ad_last_adjustment := ad_last_adjustment (rs_adaptive s);
            ad_increase_baseline := ad_increase_baseline (rs_adaptive s) |} |}
    observed_at_ms.

(** ** The policy is sound *)

Definition limit_ok (s : ResourceState) : Prop :=
  (q_minimum (rs_quota s) <= rs_effective_limit s <= q_maximum (rs_quota s))%N.

Lemma quota_valid_le q : quota_valid q -> (1 <= q_minimum q <= q_target q)%N /\ (q_target q <= q_maximum q)%N.
Proof. unfold quota_valid, quota_invalid. rewrite !orb_false_iff, N.eqb_neq, !N.ltb_ge. lia. Qed.

Lemma adapt_streak_fields s current previous t :
  let s' := adapt_streak s current previous t in
  rs_quota s' = rs_quota s /\ rs_active s' = rs_active s /\ rs_samples s' = rs_samples s.
Proof. unfold adapt_streak. cbv zeta. by destruct (_ && _). Qed.

(** The policy only moves the limit and its own state. *)
Lemma apply_adaptive_policy_fields s t :
  let s' := apply_adaptive_policy s t in
  rs_quota s' = rs_quota s /\ rs_active s' = rs_active s /\ rs_samples s' = rs_samples s.
Proof.
  unfold apply_adaptive_policy. cbv zeta. repeat (case_match; try done); apply adapt_streak_fields.
Qed.

Lemma div_ceil_pos a b : (1 <= a)%N -> (1 <= b)%N -> (1 <= div_ceil a b)%N.
Proof. intros Ha Hb. unfold div_ceil. apply N.div_le_lower_bound; lia. Qed.

Lemma div_ceil_2_lt a : (2 <= a)%N -> (div_ceil a 2 < a)%N.
Proof. intros Ha. unfold div_ceil. apply N.Div0.div_lt_upper_bound; lia. Qed.

Lemma eighth_pos a : (1 <= eighth a)%N.
Proof. unfold eighth. lia. Qed.

Lemma eighth_lt a : (2 <= a)%N -> (eighth a < a)%N.
Proof.
  intros Ha. unfold eighth, div_ceil. apply N.max_lub_lt; [|lia].
  apply N.Div0.div_lt_upper_bound. lia.
Qed.

Lemma count_class_perm c l l' : l ≡ₚ l' -> count_class c l = count_class c l'.
Proof.
  intros H. unfold count_class. induction H as [|x l l' H IH|x y l|l1 l2 l3 H1 IH1 H2 IH2]; cbn.
  - done.
  - case_match; cbn; by rewrite IH.
  - by repeat case_match.
  - congruence.
Qed.

(** The counters of a window do not depend on its order. *)
Lemma window_metrics_counts l :
  wm_samples (window_metrics l) = length l
  /\ wm_failed (window_metrics l) = count_class ResultFailed l
  /\ wm_timed_out (window_metrics l) = count_class ResultTimedOut l
  /\ wm_overloaded (window_metrics l) = count_class ResultDownstreamOverload l.
Proof.
  pose proof (merge_sort_Permutation observed_before l) as Hp.
  unfold window_metrics. destruct (merge_sort observed_before l) as [|x l'] eqn:E.
  - apply Permutation_nil in Hp as ->. done.
  - cbv zeta. cbn [wm_samples wm_failed wm_timed_out wm_overloaded].
    rewrite (Permutation_length Hp). repeat split; by apply count_class_perm.
Qed.

Lemma count_class_0 c l : count_class c l = 0 <-> Forall (fun s => sm_result_class s <> c) l.
Proof.
  unfold count_class. induction l as [|s l IH]; cbn; [by split|].
  rewrite Forall_cons, <- IH. case_bool_decide; cbn; naive_solver.
Qed.

(** The class of a sample that speaks against the resource. *)
Definition adverse (c : ResourceResultClass) : bool :=
  match c with ResultFailed | ResultTimedOut | ResultDownstreamOverload => true | _ => false end.

Lemma healthy_no_adverse l previous :
  healthy (window_metrics l) previous = true -> Forall (fun s => adverse (sm_result_class s) = false) l.
Proof.
  unfold healthy. destruct (window_metrics_counts l) as (_ & -> & -> & ->).
  rewrite !andb_true_iff, !Nat.eqb_eq, !count_class_0, !Forall_forall.
  intros (_ & (Hf & Ht) & Ho) s Hs. specialize (Hf s Hs). specialize (Ht s Hs).
  specialize (Ho s Hs). by destruct (sm_result_class s).
Qed.

(** Two failures or timeouts among sixteen samples reach the threshold. *)
Lemma wilson_two_of_sixteen n :
  2 <= n <= ADAPTATION_WINDOW ->
  (FAILURE_TIMEOUT_UCB_THRESHOLD_BP
     <= default 0 (wilson_upper_bound_basis_points n ADAPTATION_WINDOW))%N.
Proof.
  intros Hn. apply N.leb_le.
  assert (forallb (fun n => FAILURE_TIMEOUT_UCB_THRESHOLD_BP
     <=? default 0 (wilson_upper_bound_basis_points n ADAPTATION_WINDOW))%N (seq 2 15) = true) as H
    by (vm_compute; reflexivity).
  rewrite forallb_elem_of in H. apply H. apply elem_of_seq. unfold ADAPTATION_WINDOW in *. lia.
Qed.

(** *** One decision of the policy *)

(** The newest sample reports downstream overload. *)
Definition latest_overloaded (s : ResourceState) : Prop :=
  exists latest, last (rs_samples s) = Some latest
                 /\ sm_result_class latest = ResultDownstreamOverload.

(** The newest half of the window. *)
Definition newest_half (s : ResourceState) : list ResourceSample :=
  take ADAPTATION_HALF_WINDOW (take ADAPTATION_WINDOW (rev (rs_samples s))).

Inductive PolicyStep (s : ResourceState) (t : N) : ResourceState -> Prop :=
| PolicyHold s' :
    rs_effective_limit s' = rs_effective_limit s ->
    ad_last_adjustment_at_ms (rs_adaptive s') = ad_last_adjustment_at_ms (rs_adaptive s) ->
    PolicyStep s t s'
| PolicyDecrease a desired :
    cooldown_ready s t = true ->
    (q_minimum (rs_quota s) < rs_effective_limit s)%N ->
    a <> Increased ->
    (desired = N.max (div_ceil (rs_effective_limit s) 2) (q_minimum (rs_quota s))
       /\ a = DecreasedOverload
     \/ desired = (rs_effective_limit s - eighth (rs_effective_limit s))%N
        /\ ADAPTATION_WINDOW <= length (rs_samples s)) ->
    PolicyStep s t (apply_limit s desired t a)
| PolicyIncrease s2 :
    cooldown_ready s t = true ->
    (rs_effective_limit s < q_maximum (rs_quota s))%N ->
    (2 <= ad_healthy_streak (rs_adaptive s))%N ->
    ADAPTATION_WINDOW <= length (rs_samples s) ->
    Forall (fun x => adverse (sm_result_class x) = false) (newest_half s) ->
    rs_quota s2 = rs_quota s -> rs_effective_limit s2 = rs_effective_limit s ->
    PolicyStep s t (apply_limit s2
      (usize_saturating_add (rs_effective_limit s) (eighth (rs_effective_limit s))) t Increased).

Lemma adapt_streak_step s t previous :
  ADAPTATION_WINDOW <= length (rs_samples s) ->
  PolicyStep s t (adapt_streak s (window_metrics (newest_half s)) previous t).
Proof.
  intros Hlen. unfold adapt_streak. cbv zeta.
  destruct (healthy _ _) eqn:Hh; [|by apply PolicyHold].
  destruct (_ && _) eqn:E; [|by apply PolicyHold].
  rewrite !andb_true_iff, N.leb_le, N.ltb_lt in E. destruct E as [[Hstreak Hready] Hlt].
  cbn in Hstreak. unfold sat_add, u8_max in Hstreak.
  apply PolicyIncrease; try done; [lia | by eapply healthy_no_adverse].
Qed.

Lemma apply_adaptive_policy_step s t : PolicyStep s t (apply_adaptive_policy s t).
Proof.
  unfold apply_adaptive_policy. cbv zeta.
  destruct (_ && _ && _) eqn:E1.
  { rewrite !andb_true_iff, N.ltb_lt in E1. destruct E1 as [[_ ?] ?]. by apply PolicyDecrease; auto. }
  destruct (Nat.ltb_spec (length (rs_samples s)) ADAPTATION_WINDOW); [by apply PolicyHold|].
  destruct (_ && _ && _ && _) eqn:E2.
  { rewrite !andb_true_iff, N.ltb_lt in E2. destruct E2 as [[_ ?] ?]. by apply PolicyDecrease; auto. }
  destruct (match ad_increase_baseline _ with Some _ => _ | None => _ end) eqn:E3.
  { destruct (ad_increase_baseline _); [|done]. rewrite !andb_true_iff, N.ltb_lt in E3.
    destruct E3 as [[_ ?] ?]. by apply PolicyDecrease; auto. }
  by apply adapt_streak_step.
Qed.

Lemma policy_step_limit_ok s t s' :
  quota_valid (rs_quota s) -> limit_ok s -> rs_quota s' = rs_quota s ->
  PolicyStep s t s' -> limit_ok s'.
Proof.
  intros Hq%quota_valid_le Hl Heq Hs. unfold limit_ok in *. rewrite Heq.
  destruct Hs as [s' -> _ | |]; [done|..]; cbn in *; [|rewrite Heq]; apply clamp_bounds; lia.
Qed.

Lemma policy_step_moves s t s' :
  (q_maximum (rs_quota s) <= usize_max)%N -> quota_valid (rs_quota s) -> limit_ok s ->
  PolicyStep s t s' ->
  (rs_effective_limit s' <> rs_effective_limit s ->
     cooldown_ready s t = true /\ ad_last_adjustment_at_ms (rs_adaptive s') = Some t)
  /\ ((rs_effective_limit s < rs_effective_limit s')%N ->
      rs_effective_limit s' =
        N.min (rs_effective_limit s + eighth (rs_effective_limit s)) (q_maximum (rs_quota s))
      /\ (2 <= ad_healthy_streak (rs_adaptive s))%N
      /\ ADAPTATION_WINDOW <= length (rs_samples s)
      /\ Forall (fun x => adverse (sm_result_class x) = false) (newest_half s))
  /\ ((rs_effective_limit s' < rs_effective_limit s)%N ->
      rs_effective_limit s' =
        N.max (div_ceil (rs_effective_limit s) 2) (q_minimum (rs_quota s))
      \/ rs_effective_limit s' =
           N.max (rs_effective_limit s - eighth (rs_effective_limit s)) (q_minimum (rs_quota s))
         /\ ADAPTATION_WINDOW <= length (rs_samples s)).
Proof.
  intros Hmax Hq%quota_valid_le Hl [s'' -> _ | a desired Hready Hgt _ Hd | s2 Hready Hlt ? ? ? Eq El].
  - repeat split; lia.
  - pose proof (eighth_pos (rs_effective_limit s)).
    assert (desired < rs_effective_limit s)%N.
    { destruct Hd as [[-> _]|[-> _]]; [|lia].
      pose proof (div_ceil_2_lt (rs_effective_limit s)). lia. }
    unfold limit_ok in Hl. cbn. unfold clamp. repeat split; try done; try lia.
  - pose proof (eighth_pos (rs_effective_limit s)). cbn. rewrite Eq.
    unfold clamp, usize_saturating_add, sat_add, limit_ok in *. repeat split; try done; lia.
Qed.

(** The state whose policy decides after [record_sample] has pushed a sample. *)
Definition sampled (s : ResourceState) (sample : ResourceSample) : ResourceState :=
  {| rs_quota := rs_quota s; rs_effective_limit := rs_effective_limit s;
     rs_active := rs_active s; rs_samples := push_sample (rs_samples s) sample;
     rs_adaptive :=
       {| ad_healthy_streak := ad_healthy_streak (rs_adaptive s);
          ad_total_samples := u64_saturating_add (ad_total_samples (rs_adaptive s)) 1;
          ad_last_adjustment_at_ms := ad_last_adjustment_at_ms (rs_adaptive s);
          ad_last_adjustment := ad_last_adjustment (rs_adaptive s);
          ad_increase_baseline := ad_increase_baseline (rs_adaptive s) |} |}.

Lemma record_sample_fields s sample t :
  rs_quota (record_sample s sample t) = rs_quota s
  /\ rs_active (record_sample s sample t) = rs_active s
  /\ rs_samples (record_sample s sample t) = push_sample (rs_samples s) sample.
Proof. apply (apply_adaptive_policy_fields (sampled s sample) t). Qed.

Lemma record_sample_limit_ok s sample t :
  quota_valid (rs_quota s) -> limit_ok s -> limit_ok (record_sample s sample t).
Proof.
  intros Hq Hl. eapply (policy_step_limit_ok (sampled s sample)); try done.
  - apply (record_sample_fields s sample t).
  - apply apply_adaptive_policy_step.
Qed.

Lemma push_sample_bound samples sample :
  length samples <= RESOURCE_SAMPLE_CAPACITY ->
  length (push_sample samples sample) <= RESOURCE_SAMPLE_CAPACITY.
Proof.
  intros H. unfold push_sample. rewrite length_app. change (length [sample]) with 1.
  destruct (Nat.eqb_spec (length samples) RESOURCE_SAMPLE_CAPACITY) as [E|].
  - destruct samples; [done|]. cbn [tail length] in *. lia.
  - lia.
Qed.

(** Recording a sample keeps the effective limit of a resource inside its
    quota and the sample window bounded, and leaves quota and leases alone.  The
    limit moves only when the cooldown has passed, and then stamps the time.  It
    rises by an eighth at most, only with a full window whose newest half has no
    failure, timeout or overload, after two healthy decisions before this one; it
    falls to half or by an eighth, never below the minimum. *)
Theorem adaptive_policy_sound s sample t :
  (q_maximum (rs_quota s) <= usize_max)%N -> quota_valid (rs_quota s) -> limit_ok s ->
  length (rs_samples s) <= RESOURCE_SAMPLE_CAPACITY ->
  let s' := record_sample s sample t in
  let limit := rs_effective_limit s in
  limit_ok s' /\ rs_quota s' = rs_quota s /\ rs_active s' = rs_active s
  /\ length (rs_samples s') <= RESOURCE_SAMPLE_CAPACITY
  /\ (rs_effective_limit s' <> limit ->
        cooldown_ready s t = true /\ ad_last_adjustment_at_ms (rs_adaptive s') = Some t)
  /\ ((limit < rs_effective_limit s')%N ->
        rs_effective_limit s' = N.min (limit + eighth limit) (q_maximum (rs_quota s))
        /\ (2 <= ad_healthy_streak (rs_adaptive s))%N
        /\ ADAPTATION_WINDOW <= length (rs_samples s')
        /\ Forall (fun x => adverse (sm_result_class x) = false) (newest_half s'))
  /\ ((rs_effective_limit s' < limit)%N ->
        rs_effective_limit s' = N.max (div_ceil limit 2) (q_minimum (rs_quota s))
        \/ rs_effective_limit s' = N.max (limit - eighth limit) (q_minimum (rs_quota s))
           /\ ADAPTATION_WINDOW <= length (rs_samples s')).
Proof.
  intros Hmax Hq Hl Hlen s' limit. subst limit.
  destruct (record_sample_fields s sample t) as (Hq' & Ha' & Hs').
  destruct (policy_step_moves (sampled s sample) t s' Hmax Hq Hl) as (Hmv & Hup & Hdown);
    [apply apply_adaptive_policy_step|].
  unfold newest_half. subst s'. rewrite !Hs'. cbn in Hup, Hdown, Hmv.
  split_and!; auto using record_sample_limit_ok, push_sample_bound.
Qed.

(** The window the policy looks at. *)
Definition window (s : ResourceState) : list ResourceSample :=
  take ADAPTATION_WINDOW (rev (rs_samples s)).

Lemma window_ucb l :
  length l = ADAPTATION_WINDOW -> 2 <= count_class ResultFailed l + count_class ResultTimedOut l ->
  (FAILURE_TIMEOUT_UCB_THRESHOLD_BP
     <= default 0 (failure_timeout_upper_bound (window_metrics l)))%N.
Proof.
  intros Hlen Hn. unfold failure_timeout_upper_bound.
  destruct (window_metrics_counts l) as (-> & -> & -> & _). rewrite Hlen.
  destruct (Nat.eqb_spec (count_class ResultFailed l + count_class ResultTimedOut l) 0); [lia|].
  apply wilson_two_of_sixteen. split; [done|]. rewrite <- Hlen. clear.
  unfold count_class. induction l as [|x l IH]; cbn; [lia|].
  repeat case_bool_decide; cbn; lia || congruence.
Qed.

Lemma policy_failures_decrease s t :
  cooldown_ready s t = true -> (1 <= q_minimum (rs_quota s) < rs_effective_limit s)%N ->
  length (window s) = ADAPTATION_WINDOW ->
  2 <= count_class ResultFailed (window s) + count_class ResultTimedOut (window s) ->
  (rs_effective_limit (apply_adaptive_policy s t) < rs_effective_limit s)%N.
Proof.
  intros Hready Hmin Hlen Hn. pose proof (window_ucb _ Hlen Hn) as Hucb.
  pose proof (div_ceil_2_lt (rs_effective_limit s)). pose proof (eighth_pos (rs_effective_limit s)).
  unfold apply_adaptive_policy. cbv zeta. rewrite Hready.
  rewrite (proj2 (N.ltb_lt _ _) (proj2 Hmin)).
  destruct (_ && true && true); [cbn; unfold clamp; lia|].
  unfold window in Hlen, Hn, Hucb. rewrite length_take, length_rev in Hlen.
  destruct (Nat.ltb_spec (length (rs_samples s)) ADAPTATION_WINDOW); [lia|].
  apply N.leb_le in Hucb. rewrite Hucb.
  destruct (window_metrics_counts (take ADAPTATION_WINDOW (rev (rs_samples s)))) as (_ & -> & -> & _).
  destruct (Nat.ltb_spec 0 (count_class ResultFailed (take ADAPTATION_WINDOW (rev (rs_samples s)))
    + count_class ResultTimedOut (take ADAPTATION_WINDOW (rev (rs_samples s))))); [|lia].
  cbn. unfold clamp. lia.
Qed.

(** Two failed or timed-out samples among the newest sixteen are enough: as soon
    as the cooldown has passed, recording a sample then lowers a limit that is
    above its minimum, whatever the service did with the other fourteen. *)
Theorem adverse_samples_reduce_limit s sample t :
  cooldown_ready s t = true -> (1 <= q_minimum (rs_quota s) < rs_effective_limit s)%N ->
  length (window (sampled s sample)) = ADAPTATION_WINDOW ->
  2 <= count_class ResultFailed (window (sampled s sample))
       + count_class ResultTimedOut (window (sampled s sample)) ->
  (rs_effective_limit (record_sample s sample t) < rs_effective_limit s)%N.
Proof. intros. by apply (policy_failures_decrease (sampled s sample) t). Qed.

(** ** A resource under load *)

(** Fifteen samples, one per second from the tenth on. *)
Definition sample_at (n : nat) (service : N) (c : ResourceResultClass) : ResourceSample :=
  {| sm_observed_at_ms := 10000 + 1000 * N.of_nat n; sm_queue_wait_ms := 200;
     sm_service_time_ms := service; sm_result_class := c |}.

Definition loaded (streak : N) (fourteenth : ResourceResultClass) : ResourceState :=
  {| rs_quota := {| q_minimum := 2; q_target := 10; q_maximum := 40 |};
     rs_effective_limit := 20; rs_active := ∅;
     rs_samples :=
       map (fun n => sample_at n (if n <? 8 then 100 else 90)
                       (if n =? 14 then fourteenth
                        else if (2 <=? n) && (n <? 7) then ResultCancelled else ResultCompleted))
         (seq 0 15);
     rs_adaptive := {| ad_healthy_streak := streak; ad_total_samples := 15;
                       ad_last_adjustment_at_ms := None; ad_last_adjustment := Hold;
                       ad_increase_baseline := None |} |}.

Example loaded_increase :
  rs_effective_limit (record_sample (loaded 2 ResultCompleted) (sample_at 15 90 ResultCompleted) 25000)
  = 23%N.
Proof. vm_compute. reflexivity. Qed.

Lemma adaptive_policy_sound_witness :
  let s := loaded 2 ResultCompleted in
  let sample := sample_at 15 90 ResultCompleted in
  (rs_effective_limit s < rs_effective_limit (record_sample s sample 25000))%N
  /\ Forall (fun x => adverse (sm_result_class x) = false) (newest_half (record_sample s sample 25000)).
Proof.
  intros s sample.
  assert (rs_effective_limit s < rs_effective_limit (record_sample s sample 25000))%N as H
    by (vm_compute; reflexivity).
  split; [done|].
  apply (adaptive_policy_sound s sample 25000); [done | done | by vm_compute | | done].
  apply Nat.leb_le. reflexivity.
Defined.

(** Two callers gave up waiting; nothing failed. *)
Lemma adverse_samples_reduce_limit_witness :
  let s := loaded 0 ResultTimedOut in
  (rs_effective_limit (record_sample s (sample_at 15 0 ResultTimedOut) 25000)
     < rs_effective_limit s)%N.
Proof.
  apply adverse_samples_reduce_limit; [reflexivity | by vm_compute | reflexivity |].
  apply Nat.leb_le. vm_compute. reflexivity.
Defined.
