(* ===== verification/Resources.v ===== *)
(** * Resource admission

    [runtime/src/execution_core/graph/resources/manager.rs]: the queue of
    admission requests, the atomic grant of a weighted bundle of resources,
    leases, quotas and their reconciliation.  The state is shared by all
    callers; the critical sections are functions on it and the steps of the
    runs below.  Instants and durations are nanoseconds, wall-clock times
    milliseconds, request ids numbers. *)

From S2P Require Import Prelude Facts Contract Adaptive.

(** ** Resource kinds *)

Inductive ExecutionResourceKind :=
| SessionTurn
| Provider
| ProviderAccount (account : string)
| ProviderModel (model : string)
| ProviderTokenPool (pool : string)
| AgentResource
| ParentExecution (execution_id : string)
| ToolResource
| CustomResource (name : string).

#[export] Instance ExecutionResourceKind_eq_dec : EqDecision ExecutionResourceKind.
Proof. solve_decision. Defined.

Definition kind_code (k : ExecutionResourceKind) : N * string :=
  match k with
  | SessionTurn => (0, "") | Provider => (1, "") | ProviderAccount s => (2, s)
  | ProviderModel s => (3, s) | ProviderTokenPool s => (4, s) | AgentResource => (5, "")
  | ParentExecution s => (6, s) | ToolResource => (7, "") | CustomResource s => (8, s)
  end%N%string.

Definition kind_decode (c : N * string) : ExecutionResourceKind :=
  match c.1 with
  | 0 => SessionTurn | 1 => Provider | 2 => ProviderAccount c.2 | 3 => ProviderModel c.2
  | 4 => ProviderTokenPool c.2 | 5 => AgentResource | 6 => ParentExecution c.2
  | 7 => ToolResource | _ => CustomResource c.2
  end%N.

#[export] Instance ExecutionResourceKind_countable : Countable ExecutionResourceKind.
Proof. apply (inj_countable' kind_code kind_decode). by intros []. Defined.

Abbreviation Demands := (list (ExecutionResourceKind * N)).

(** [service_class_index] *)
Definition service_class_index (c : ExecutionServiceClass) : N :=
  match c with Interactive => 0 | Foreground => 1 | Background => 2 | Maintenance => 3 end.

(** ** Policy, requests, receipts *)

Record ExecutionAdmissionPolicy := {
  ap_revision : N;
  ap_max_pending_instance : N;
  ap_max_pending_per_class : N;
  ap_max_pending_per_key : N;
  ap_aging_interval : N
}.

Definition ExecutionAdmissionPolicy_default : ExecutionAdmissionPolicy :=
  {| ap_revision := 1; ap_max_pending_instance := 4096; ap_max_pending_per_class := 2048;
     ap_max_pending_per_key := 512; ap_aging_interval := 5000000000 |}.

Record ResourceAdmissionRequest := {
  rar_request_id : N;
  rar_requested_priority : option N;
  rar_deadline_at_ms : option N;
  rar_requested_service_class : ExecutionServiceClass;
  rar_parent_class_ceiling : option ExecutionServiceClass;
  rar_demands : Demands;
  rar_ephemeral_limits : Demands;
  rar_normalized_scope : option string;
  rar_scope_feasible : bool;
  rar_fairness_key : string
}.

Inductive ResourceWaitReason :=
| WaitCapacity
| WaitClassFifo
| WaitHigherServiceClass
| WaitScopeInfeasible
| WaitDeadlineExpired
| WaitInstancePendingLimit
| WaitClassPendingLimit
| WaitKeyPendingLimit.

#[export] Instance ResourceWaitReason_eq_dec : EqDecision ResourceWaitReason.
Proof. solve_decision. Defined.

Record ResourceGrantReceipt := {
  gr_request_id : N;
  gr_requested_priority : option N;
  gr_deadline_at_ms : option N;
  gr_requested_service_class : ExecutionServiceClass;
  gr_resolved_service_class : ExecutionServiceClass;
  gr_parent_class_ceiling : option ExecutionServiceClass;
  gr_demands : Demands;
  gr_normalized_scope : option string;
  gr_fairness_key : string;
  gr_enqueue_sequence : N;
  gr_enqueued_at_ms : N;
  gr_granted_at_ms : N;
  gr_queue_age_ms : N;
  gr_wait_reason : option ResourceWaitReason;
  gr_blocker : option N;
  gr_policy_revision : N
}.

Inductive ResourceAcquireError :=
| InvalidQuota (minimum target maximum : N)
| InvalidInteractiveReserve (reserve maximum : N)
| UnknownResource (kind : ExecutionResourceKind)
| DemandExceedsQuota (kind : ExecutionResourceKind) (demand maximum : N)
| WaiterRegistrationLost
| InvalidAdmissionPolicy
| DuplicateRequest (request_id : N)
| AdmissionOverloaded (reason : ResourceWaitReason)
| AdmissionDeferred (reason : ResourceWaitReason)
| AcquireTimedOut (kind : ExecutionResourceKind) (waited_ms : N)
| ManagerPoisoned.

Abbreviation AcquireResult := (Result ResourceAcquireError).

(** [ResourceQuota::new] *)
Definition quota_new (minimum target maximum : N) : AcquireResult ResourceQuota :=
  _ ← guard_err (quota_invalid minimum target maximum) (InvalidQuota minimum target maximum);
  Ok {| q_minimum := minimum; q_target := target; q_maximum := maximum |}.

(** [ExecutionAdmissionPolicy::validate] *)
Definition policy_validate (p : ExecutionAdmissionPolicy) :
  AcquireResult ExecutionAdmissionPolicy :=
  _ ← guard_err ((ap_max_pending_instance p =? 0) || (ap_max_pending_per_class p =? 0)
                 || (ap_max_pending_per_key p =? 0)
                 || (ap_max_pending_instance p <? ap_max_pending_per_class p)
                 || (ap_max_pending_per_class p <? ap_max_pending_per_key p)
                 || (ap_aging_interval p =? 0))%N InvalidAdmissionPolicy;
  Ok p.

(** ** The state *)

Record PendingResourceDemand := {
  pd_id : N;
  pd_demands : Demands;
  pd_requested_priority : option N;
  pd_deadline_at_ms : option N;
  pd_requested_service_class : ExecutionServiceClass;
  pd_resolved_service_class : ExecutionServiceClass;
  pd_parent_class_ceiling : option ExecutionServiceClass;
  pd_normalized_scope : option string;
  pd_scope_feasible : bool;
  pd_fairness_key : string;
  pd_enqueue_sequence : N;
  pd_enqueued_at_ms : N;
  pd_enqueued_at : N;
  pd_policy_revision : N;
  pd_last_wait_reason : option ResourceWaitReason;
  pd_last_blocker : option N
}.

Record ManagerState := {
  ms_resources : gmap ExecutionResourceKind ResourceState;
  ms_accepting : gset ExecutionResourceKind;
  ms_ephemeral : gset ExecutionResourceKind;
  ms_reserves : gmap ExecutionResourceKind N;
  ms_waiters : list PendingResourceDemand;
  ms_policy : ExecutionAdmissionPolicy;
  ms_next_enqueue_sequence : N
}.

Definition with_resources (st : ManagerState) (r : gmap ExecutionResourceKind ResourceState) :
  ManagerState :=
  {| ms_resources := r; ms_accepting := ms_accepting st; ms_ephemeral := ms_ephemeral st;
     ms_reserves := ms_reserves st; ms_waiters := ms_waiters st; ms_policy := ms_policy st;
     ms_next_enqueue_sequence := ms_next_enqueue_sequence st |}.

Definition with_waiters (st : ManagerState) (w : list PendingResourceDemand) : ManagerState :=
  {| ms_resources := ms_resources st; ms_accepting := ms_accepting st;
     ms_ephemeral := ms_ephemeral st; ms_reserves := ms_reserves st; ms_waiters := w;
     ms_policy := ms_policy st; ms_next_enqueue_sequence := ms_next_enqueue_sequence st |}.

(** A resource as it is first published. *)
Definition fresh_resource (q : ResourceQuota) : ResourceState :=
  {| rs_quota := q; rs_effective_limit := q_target q; rs_active := ∅; rs_samples := [];
     rs_adaptive := AdaptiveState_default |}.

(** [from_validated_policy] *)
Definition from_validated_policy (p : ExecutionAdmissionPolicy)
    (quotas : list (ExecutionResourceKind * ResourceQuota)) : ManagerState :=
  let resources := foldl (fun m kq => <[kq.1 := fresh_resource kq.2]> m) ∅ quotas in
  {| ms_resources := resources; ms_accepting := dom resources; ms_ephemeral := ∅;
     ms_reserves := ∅; ms_waiters := []; ms_policy := p; ms_next_enqueue_sequence := 0 |}.

(** ** Weights and limits *)

(** [active_weight] *)
Definition active_weight (r : ResourceState) : N := sum_map snd (map_to_list (rs_active r)).

(** [queued_waiter_count] *)
Definition demands_kind (demands : Demands) (kind : ExecutionResourceKind) : bool :=
  existsb (fun d => bool_decide (d.1 = kind)) demands.

Definition queued_waiter_count (waiters : list PendingResourceDemand)
    (kind : ExecutionResourceKind) : nat :=
  length (List.filter (fun w => demands_kind (pd_demands w) kind) waiters).

(** [demand_sets_overlap] *)
Definition demand_sets_overlap (left right : Demands) : bool :=
  existsb (fun l => demands_kind right l.1) left.

(** The share of a resource a service class may fill: only interactive work
    may use the reserve. *)
Definition class_limit (st : ManagerState) (kind : ExecutionResourceKind) (r : ResourceState)
    (c : ExecutionServiceClass) : N :=
  let reserve := default 0%N (ms_reserves st !! kind) in
  if decide (c = Interactive) then rs_effective_limit r else (rs_effective_limit r - reserve)%N.

(** [active.keys().copied().min()] *)
Definition min_key (m : gmap N N) : option N :=
  match (map_to_list m).*1 with
  | [] => None
  | k :: ks => Some (foldl N.min k ks)
  end.

(** [capacity_blocker]: the first demand that does not fit, and the oldest
    lease id on that resource. *)
Fixpoint capacity_blocker (st : ManagerState) (demands : Demands) (c : ExecutionServiceClass) :
  option (option N) :=
  match demands with
  | [] => None
  | (kind, weight) :: rest =>
      match ms_resources st !! kind with
      | Some r =>
          if (class_limit st kind r c <? usize_saturating_add (active_weight r) weight)%N
          then Some (min_key (rs_active r))
          else capacity_blocker st rest c
      | None => capacity_blocker st rest c
      end
  end.

(** ** Precedence *)

(** [duration_millis] of a duration in nanoseconds *)
Definition duration_millis (nanos : N) : N := N.min (nanos / 1000000) u64_max.

(** [scheduling_precedence]: the class index lowered by age, then the inverted
    priority, then the sequence number; [N] subtraction saturates. *)
Definition scheduling_precedence (w : PendingResourceDemand) (now aging_interval : N) :
  N * N * N :=
  let age_steps :=
    (duration_millis (now - pd_enqueued_at w) / N.max (duration_millis aging_interval) 1)%N in
  (service_class_index (pd_resolved_service_class w) - age_steps,
   u8_max - default 0 (pd_requested_priority w), pd_enqueue_sequence w)%N.

(** The derived order of the tuple. *)
Definition prec_ltb (a b : N * N * N) : bool :=
  (a.1.1 <? b.1.1)%N
  || ((a.1.1 =? b.1.1)%N
      && ((a.1.2 <? b.1.2)%N || ((a.1.2 =? b.1.2)%N && (a.2 <? b.2)%N))).

(** [same_class_precedence_blocker] *)
Definition same_class_precedence_blocker (st : ManagerState) (earlier : list PendingResourceDemand)
    (w : PendingResourceDemand) (now : N) : option N :=
  let aging := ap_aging_interval (ms_policy st) in
  pd_id <$> List.find (fun e =>
    bool_decide (pd_resolved_service_class e = pd_resolved_service_class w)
    && demand_sets_overlap (pd_demands e) (pd_demands w)
    && negb (prec_ltb (scheduling_precedence w now aging) (scheduling_precedence e now aging)))
    earlier.

Definition expired (deadline : option N) (wall_now_ms : N) : bool :=
  match deadline with Some d => (d <=? wall_now_ms)%N | None => false end.

(** ** Evaluating a waiter *)

Inductive AdmissionEvaluation :=
| EvalGrantable (wait_reason : option ResourceWaitReason) (blocker : option N)
| EvalDeferred (wait_reason : ResourceWaitReason) (blocker : option N).

(** The scan for a waiter of another class that goes first.  [seen] lists the
    waiters passed so far, for [first_demand_owner_by_class]; the best
    candidate so far is [higher]. *)
Definition fifo_blocked (seen : list PendingResourceDemand) (other : PendingResourceDemand) : bool :=
  existsb (fun s => bool_decide (pd_resolved_service_class s = pd_resolved_service_class other)
                    && demand_sets_overlap (pd_demands other) (pd_demands s)) seen.

Definition outranks (st : ManagerState) (w : PendingResourceDemand) (now wall_now_ms : N)
    (seen : list PendingResourceDemand) (other : PendingResourceDemand) : bool :=
  let aging := ap_aging_interval (ms_policy st) in
  bool_decide (pd_resolved_service_class other <> pd_resolved_service_class w)
  && demand_sets_overlap (pd_demands w) (pd_demands other)
  && pd_scope_feasible other
  && negb (expired (pd_deadline_at_ms other) wall_now_ms)
  && negb (fifo_blocked seen other)
  && bool_decide (capacity_blocker st (pd_demands other) (pd_resolved_service_class other) = None)
  && prec_ltb (scheduling_precedence other now aging) (scheduling_precedence w now aging).

Fixpoint higher_class_blocker (st : ManagerState) (w : PendingResourceDemand)
    (now wall_now_ms : N) (seen rest : list PendingResourceDemand)
    (higher : option (N * N * N * N)) : option (N * N * N * N) :=
  match rest with
  | [] => higher
  | other :: rest' =>
      let p := scheduling_precedence other now (ap_aging_interval (ms_policy st)) in
      let higher' :=
        if outranks st w now wall_now_ms seen other
           && match higher with Some (selected, _) => prec_ltb p selected | None => true end
        then Some (p, pd_id other) else higher in
      higher_class_blocker st w now wall_now_ms (seen ++ [other]) rest' higher'
  end.

(** [evaluate_waiter] of the waiter [w] queued behind [earlier]. *)
Definition evaluate_waiter (st : ManagerState) (earlier : list PendingResourceDemand)
    (w : PendingResourceDemand) (now wall_now_ms : N) : AdmissionEvaluation :=
  if expired (pd_deadline_at_ms w) wall_now_ms then EvalDeferred WaitDeadlineExpired None
  else if negb (pd_scope_feasible w) then EvalDeferred WaitScopeInfeasible None
  else match same_class_precedence_blocker st earlier w now with
       | Some blocker => EvalDeferred WaitClassFifo (Some blocker)
       | None =>
           match capacity_blocker st (pd_demands w) (pd_resolved_service_class w) with
           | Some blocker => EvalDeferred WaitCapacity blocker
           | None =>
               match higher_class_blocker st w now wall_now_ms [] (ms_waiters st) None with
               | Some (_, blocker) => EvalDeferred WaitHigherServiceClass (Some blocker)
               | None => EvalGrantable (pd_last_wait_reason w) (pd_last_blocker w)
               end
           end
       end.

(** The waiter [id], the waiters before it and those behind it. *)
Fixpoint split_waiters (id : N) (waiters : list PendingResourceDemand) :
  option (list PendingResourceDemand * PendingResourceDemand * list PendingResourceDemand) :=
  match waiters with
  | [] => None
  | w :: rest =>
      if (pd_id w =? id)%N then Some ([], w, rest)
      else match split_waiters id rest with
           | Some (before, x, after) => Some (w :: before, x, after)
           | None => None
           end
  end.

(** ** The atomic grant *)

Definition with_active (r : ResourceState) (active : gmap N N) : ResourceState :=
  {| rs_quota := rs_quota r; rs_effective_limit := rs_effective_limit r; rs_active := active;
     rs_samples := rs_samples r; rs_adaptive := rs_adaptive r |}.

(** The insertion loop of [evaluate_and_grant]; a missing resource ends it. *)
Fixpoint activate (id : N) (demands : Demands)
    (resources : gmap ExecutionResourceKind ResourceState) :
  bool * gmap ExecutionResourceKind ResourceState :=
  match demands with
  | [] => (true, resources)
  | (kind, weight) :: rest =>
      match resources !! kind with
      | Some r => activate id rest (<[kind := with_active r (<[id := weight]> (rs_active r))]> resources)
      | None => (false, resources)
      end
  end.

Inductive AdmissionAttempt :=
| AttemptGranted (receipt : ResourceGrantReceipt)
| AttemptDeferred (wait_reason : ResourceWaitReason) (blocker : option N) (changed : bool).

Definition grant_receipt (w : PendingResourceDemand) (now wall_now_ms : N)
    (wait_reason : option ResourceWaitReason) (blocker : option N) : ResourceGrantReceipt :=
  {| gr_request_id := pd_id w; gr_requested_priority := pd_requested_priority w;
     gr_deadline_at_ms := pd_deadline_at_ms w;
     gr_requested_service_class := pd_requested_service_class w;
     gr_resolved_service_class := pd_resolved_service_class w;
     gr_parent_class_ceiling := pd_parent_class_ceiling w; gr_demands := pd_demands w;
     gr_normalized_scope := pd_normalized_scope w; gr_fairness_key := pd_fairness_key w;
     gr_enqueue_sequence := pd_enqueue_sequence w; gr_enqueued_at_ms := pd_enqueued_at_ms w;
     gr_granted_at_ms := wall_now_ms; gr_queue_age_ms := duration_millis (now - pd_enqueued_at w);
     gr_wait_reason := wait_reason; gr_blocker := blocker;
     gr_policy_revision := pd_policy_revision w |}.

Definition with_wait_reason (w : PendingResourceDemand) (reason : ResourceWaitReason)
    (blocker : option N) : PendingResourceDemand :=
  {| pd_id := pd_id w; pd_demands := pd_demands w;
     pd_requested_priority := pd_requested_priority w; pd_deadline_at_ms := pd_deadline_at_ms w;
     pd_requested_service_class := pd_requested_service_class w;
     pd_resolved_service_class := pd_resolved_service_class w;
     pd_parent_class_ceiling := pd_parent_class_ceiling w;
     pd_normalized_scope := pd_normalized_scope w; pd_scope_feasible := pd_scope_feasible w;
     pd_fairness_key := pd_fairness_key w; pd_enqueue_sequence := pd_enqueue_sequence w;
     pd_enqueued_at_ms := pd_enqueued_at_ms w; pd_enqueued_at := pd_enqueued_at w;
     pd_policy_revision := pd_policy_revision w; pd_last_wait_reason := Some reason;
     pd_last_blocker := blocker |}.

(** [evaluate_and_grant] *)
Definition evaluate_and_grant (id now wall_now_ms : N) (st : ManagerState) :
  AcquireResult AdmissionAttempt * ManagerState :=
  match split_waiters id (ms_waiters st) with
  | None => (Err WaiterRegistrationLost, st)
  | Some (before, w, after) =>
      match evaluate_waiter st before w now wall_now_ms with
      | EvalGrantable reason blocker =>
          let st1 := with_waiters st (before ++ after) in
          let '(complete, resources) := activate (pd_id w) (pd_demands w) (ms_resources st) in
          (if complete then Ok (AttemptGranted (grant_receipt w now wall_now_ms reason blocker))
           else Err WaiterRegistrationLost,
           with_resources st1 resources)
      | EvalDeferred reason blocker =>
          let changed := negb (bool_decide (pd_last_wait_reason w = Some reason))
                         || negb (bool_decide (pd_last_blocker w = blocker)) in
          (Ok (AttemptDeferred reason blocker changed),
           with_waiters st (before ++ with_wait_reason w reason blocker :: after))
      end
  end.

(** ** Registration *)

Inductive AdmissionRegistration :=
| RegQueued (enqueue_sequence enqueued_at_ms policy_revision : N) (pending : nat)
| RegDeferred (wait_reason : ResourceWaitReason) (policy_revision : N) (pending : nat)
| RegOverloaded (wait_reason : ResourceWaitReason) (policy_revision : N) (pending : nat).

(** [request_id_exists] *)
Definition request_id_exists (st : ManagerState) (id : N) : bool :=
  existsb (fun w => (pd_id w =? id)%N) (ms_waiters st)
  || existsb (fun kr => bool_decide (is_Some (rs_active kr.2 !! id)))
       (map_to_list (ms_resources st)).

Definition class_pending (waiters : list PendingResourceDemand) (c : ExecutionServiceClass) : nat :=
  length (List.filter (fun w => bool_decide (pd_resolved_service_class w = c)) waiters).

Definition key_pending (waiters : list PendingResourceDemand) (key : string) : nat :=
  length (List.filter (fun w => String.eqb (pd_fairness_key w) key) waiters).

(** [pending_limit_reason] *)
Definition pending_limit_reason (st : ManagerState) (c : ExecutionServiceClass) (key : string) :
  option ResourceWaitReason :=
  let p := ms_policy st in
  if (ap_max_pending_instance p <=? N.of_nat (length (ms_waiters st)))%N
  then Some WaitInstancePendingLimit
  else if (ap_max_pending_per_class p <=? N.of_nat (class_pending (ms_waiters st) c))%N
  then Some WaitClassPendingLimit
  else if (ap_max_pending_per_key p <=? N.of_nat (key_pending (ms_waiters st) key))%N
  then Some WaitKeyPendingLimit
  else None.

Definition is_parent_execution (k : ExecutionResourceKind) : bool :=
  match k with ParentExecution _ => true | _ => false end.

(** [install_ephemeral_limits]; limits installed before an error stay. *)
Fixpoint install_ephemeral_limits (limits : Demands) (st : ManagerState) :
  AcquireResult unit * ManagerState :=
  match limits with
  | [] => (Ok tt, st)
  | (kind, maximum) :: rest =>
      if negb (is_parent_execution kind) || (maximum =? 0)%N
      then (Err (InvalidQuota 1 maximum maximum), st)
      else match ms_resources st !! kind with
           | Some existing =>
               let q := rs_quota existing in
               if negb (q_maximum q =? maximum)%N
               then (Err (InvalidQuota (q_minimum q) (q_target q) maximum), st)
               else install_ephemeral_limits rest st
           | None =>
               match quota_new 1 maximum maximum with
               | Err e => (Err e, st)
               | Ok quota =>
                   install_ephemeral_limits rest
                     {| ms_resources := <[kind := fresh_resource quota]> (ms_resources st);
                        ms_accepting := {[kind]} ∪ ms_accepting st;
                        ms_ephemeral := {[kind]} ∪ ms_ephemeral st;
                        ms_reserves := ms_reserves st; ms_waiters := ms_waiters st;
                        ms_policy := ms_policy st;
                        ms_next_enqueue_sequence := ms_next_enqueue_sequence st |}
               end
           end
  end.

(** [validate_request_resources] *)
Definition validate_demand (st : ManagerState) (_ : unit) (d : ExecutionResourceKind * N) :
  AcquireResult unit :=
  let '(kind, weight) := d in
  _ ← guard_err (negb (bool_decide (kind ∈ ms_accepting st))) (UnknownResource kind);
  r ← ok_or (UnknownResource kind) (ms_resources st !! kind);
  guard_err (q_maximum (rs_quota r) <? weight)%N
    (DemandExceedsQuota kind weight (q_maximum (rs_quota r))).

Definition validate_request_resources (st : ManagerState) (demands : Demands) :
  AcquireResult unit := try_fold (validate_demand st) tt demands.

(** [remove_drained_resources] *)
Definition referenced_by_waiter (st : ManagerState) (kind : ExecutionResourceKind) : bool :=
  existsb (fun w => demands_kind (pd_demands w) kind) (ms_waiters st).

Definition idle (st : ManagerState) (kind : ExecutionResourceKind) : bool :=
  match ms_resources st !! kind with
  | Some r => bool_decide (rs_active r = ∅)
  | None => true
  end.

Definition remove_drained_resources (st : ManagerState) : ManagerState :=
  let drained := filter (fun k => negb (referenced_by_waiter st k) && idle st k = true)
                   (ms_ephemeral st) in
  let accepting := ms_accepting st ∖ drained in
  {| ms_resources :=
       filter (fun kr => bool_decide (kr.1 ∈ accepting) || negb (bool_decide (rs_active kr.2 = ∅))
                         || referenced_by_waiter st kr.1 = true) (ms_resources st);
     ms_accepting := accepting; ms_ephemeral := ms_ephemeral st ∖ drained;
     ms_reserves := ms_reserves st; ms_waiters := ms_waiters st; ms_policy := ms_policy st;
     ms_next_enqueue_sequence := ms_next_enqueue_sequence st |}.

Definition resolved_service_class (r : ResourceAdmissionRequest) : ExecutionServiceClass :=
  bounded_by (rar_requested_service_class r) (rar_parent_class_ceiling r).

Definition pending_demand (r : ResourceAdmissionRequest)
    (sequence enqueued_at_ms started policy_revision : N) : PendingResourceDemand :=
  {| pd_id := rar_request_id r; pd_demands := rar_demands r;
     pd_requested_priority := rar_requested_priority r; pd_deadline_at_ms := rar_deadline_at_ms r;
     pd_requested_service_class := rar_requested_service_class r;
     pd_resolved_service_class := resolved_service_class r;
     pd_parent_class_ceiling := rar_parent_class_ceiling r;
     pd_normalized_scope := rar_normalized_scope r; pd_scope_feasible := rar_scope_feasible r;
     pd_fairness_key := rar_fairness_key r; pd_enqueue_sequence := sequence;
     pd_enqueued_at_ms := enqueued_at_ms; pd_enqueued_at := started;
     pd_policy_revision := policy_revision; pd_last_wait_reason := None;
     pd_last_blocker := None |}.

(** [wrapping_add] on [u64] *)
Definition u64_wrapping_add (a b : N) : N := ((a + b) mod 2 ^ 64)%N.

(** The first critical section of [admit_with_timeout], for a normalized
    request; [wall_check] and [wall_enqueue] are its two readings of the clock. *)
Definition register_request (r : ResourceAdmissionRequest) (started wall_check wall_enqueue : N)
    (st : ManagerState) : AcquireResult AdmissionRegistration * ManagerState :=
  let revision := ap_revision (ms_policy st) in
  if expired (rar_deadline_at_ms r) wall_check
  then (Ok (RegDeferred WaitDeadlineExpired revision (length (ms_waiters st))), st)
  else if negb (rar_scope_feasible r)
  then (Ok (RegDeferred WaitScopeInfeasible revision (length (ms_waiters st))), st)
  else if request_id_exists st (rar_request_id r)
  then (Err (DuplicateRequest (rar_request_id r)), st)
  else match pending_limit_reason st (resolved_service_class r) (rar_fairness_key r) with
       | Some reason => (Ok (RegOverloaded reason revision (length (ms_waiters st))), st)
       | None =>
           match install_ephemeral_limits (rar_ephemeral_limits r) st with
           | (Err e, st1) => (Err e, st1)
           | (Ok _, st1) =>
               match validate_request_resources st1 (rar_demands r) with
               | Err e => (Err e, remove_drained_resources st1)
               | Ok _ =>
                   let sequence := ms_next_enqueue_sequence st1 in
                   let w := pending_demand r sequence wall_enqueue started revision in
                   (Ok (RegQueued sequence wall_enqueue revision
                          (Datatypes.S (length (ms_waiters st1)))),
                    {| ms_resources := ms_resources st1; ms_accepting := ms_accepting st1;
                       ms_ephemeral := ms_ephemeral st1; ms_reserves := ms_reserves st1;
                       ms_waiters := ms_waiters st1 ++ [w]; ms_policy := ms_policy st1;
                       ms_next_enqueue_sequence := u64_wrapping_add sequence 1 |})
               end
           end
       end.

(** ** Leaving the queue, releasing *)

(** The samples [WaiterRegistration::finish] records on every demanded
    resource that still exists. *)
Definition sample_demand (sample : ResourceSample)
    (resources : gmap ExecutionResourceKind ResourceState) (d : ExecutionResourceKind * N) :
  gmap ExecutionResourceKind ResourceState :=
  match resources !! d.1 with
  | Some r => <[d.1 := record_sample r sample (sm_observed_at_ms sample)]> resources
  | None => resources
  end.

(** [WaiterRegistration::finish] of an active registration. *)
Definition finish_registration (id : N) (demands : Demands) (class : ResourceResultClass)
    (wall_now_ms elapsed : N) (st : ManagerState) : ManagerState :=
  let sample := {| sm_observed_at_ms := wall_now_ms; sm_queue_wait_ms := duration_millis elapsed;
                   sm_service_time_ms := 0; sm_result_class := class |} in
  remove_drained_resources
    (with_resources
       (with_waiters st (List.filter (fun w => negb (pd_id w =? id)%N) (ms_waiters st)))
       (foldl (sample_demand sample) (ms_resources st) demands)).

Definition release_demand (id : N) (resources : gmap ExecutionResourceKind ResourceState)
    (d : ExecutionResourceKind * N) : gmap ExecutionResourceKind ResourceState :=
  match resources !! d.1 with
  | Some r => <[d.1 := with_active r (delete id (rs_active r))]> resources
  | None => resources
  end.

(** [ExecutionResourceLease::release_inner] of an unreleased lease *)
Definition release_lease (id : N) (demands : Demands) (st : ManagerState) : ManagerState :=
  remove_drained_resources
    (with_resources st (foldl (release_demand id) (ms_resources st) demands)).

(** ** Observations and quotas *)

Record ResourceObservation := {
  ob_observed_at_ms : N;
  ob_queue_wait : N;
  ob_service_time : N;
  ob_result_class : ResourceResultClass
}.

(** [record_observation]: sample times never go back. *)
Definition record_observation (kind : ExecutionResourceKind) (o : ResourceObservation)
    (st : ManagerState) : AcquireResult ResourceState * ManagerState :=
  match ms_resources st !! kind with
  | None => (Err (UnknownResource kind), st)
  | Some r =>
      let observed_at_ms :=
        match last (rs_samples r) with
        | Some s => N.max (sm_observed_at_ms s) (ob_observed_at_ms o)
        | None => ob_observed_at_ms o
        end in
      let r' := record_sample r
        {| sm_observed_at_ms := observed_at_ms;
           sm_queue_wait_ms := duration_millis (ob_queue_wait o);
           sm_service_time_ms := duration_millis (ob_service_time o);
           sm_result_class := ob_result_class o |} observed_at_ms in
      (Ok r', with_resources st (<[kind := r']> (ms_resources st)))
  end.

(** [update_quota] *)
Definition requota (r : ResourceState) (q : ResourceQuota) : ResourceState :=
  {| rs_quota := q; rs_effective_limit := q_target q; rs_active := rs_active r;
     rs_samples := [];
     rs_adaptive :=
       {| ad_healthy_streak := 0; ad_total_samples := 0; ad_last_adjustment_at_ms := None;
          ad_last_adjustment := ResetToConfiguredTarget; ad_increase_baseline := None |} |}.

Definition update_quota (kind : ExecutionResourceKind) (q : ResourceQuota) (st : ManagerState) :
  AcquireResult ResourceState * ManagerState :=
  match ms_resources st !! kind with
  | None => (Err (UnknownResource kind), st)
  | Some r => (Ok (requota r q), with_resources st (<[kind := requota r q]> (ms_resources st)))
  end.

(** [reconcile_quotas] *)
Definition check_reserve (desired : gmap ExecutionResourceKind ResourceQuota) (_ : unit)
    (entry : ExecutionResourceKind * N) : AcquireResult unit :=
  let '(kind, reserve) := entry in
  quota ← ok_or (UnknownResource kind) (desired !! kind);
  guard_err (q_maximum quota <? reserve)%N (InvalidInteractiveReserve reserve (q_maximum quota)).

Definition reconcile_one (resources : gmap ExecutionResourceKind ResourceState)
    (kind : ExecutionResourceKind) (q : ResourceQuota) : ResourceState :=
  match resources !! kind with
  | Some r =>
      {| rs_quota := q;
         rs_effective_limit := clamp (rs_effective_limit r) (q_minimum q) (q_maximum q);
         rs_active := rs_active r; rs_samples := rs_samples r; rs_adaptive := rs_adaptive r |}
  | None => fresh_resource q
  end.

Definition in_use (st : ManagerState) (kind : ExecutionResourceKind) : bool :=
  referenced_by_waiter st kind || negb (idle st kind).

(** [desired] and [reserves] are hash maps: which of several invalid reserves is
    reported is not specified. *)
Definition reconcile_quotas (quotas : list (ExecutionResourceKind * ResourceQuota))
    (interactive_reserves : Demands) (st : ManagerState) : AcquireResult unit * ManagerState :=
  let desired : gmap _ _ := foldl (fun m kq => <[kq.1 := kq.2]> m) ∅ quotas in
  let reserves : gmap _ _ := foldl (fun m kr => <[kr.1 := kr.2]> m) ∅ interactive_reserves in
  match try_fold (check_reserve desired) tt (map_to_list reserves) with
  | Err e => (Err e, st)
  | Ok _ =>
      let published := map_imap (fun k q => Some (reconcile_one (ms_resources st) k q)) desired in
      let resources := published ∪ ms_resources st in
      (Ok tt,
       {| ms_resources :=
            filter (fun kr => bool_decide (is_Some (desired !! kr.1)) || in_use st kr.1 = true)
              resources;
          ms_accepting := dom desired; ms_ephemeral := ms_ephemeral st; ms_reserves := reserves;
          ms_waiters := ms_waiters st; ms_policy := ms_policy st;
          ms_next_enqueue_sequence := ms_next_enqueue_sequence st |})
  end.

(** ** Waiting *)

(** [Duration::MAX] *)
Definition duration_max : N := ((2 ^ 64 - 1) * 1000000000 + 999999999)%N.

(** [scheduler_recheck_after]: the next age boundary of any waiter, or the
    deadline of this one; [u64 as u32] truncates. *)
Definition age_boundary (aging now : N) (w : PendingResourceDemand) : option N :=
  let rank := service_class_index (pd_resolved_service_class w) in
  let age := (now - pd_enqueued_at w)%N in
  let steps := (duration_millis age / N.max (duration_millis aging) 1)%N in
  if (rank =? 0)%N || (rank <=? steps)%N then None
  else Some (N.min (aging * ((steps + 1) mod 2 ^ 32)) duration_max - age)%N.

Definition min_option (l : list N) : option N :=
  match l with [] => None | x :: rest => Some (foldl N.min x rest) end.

Definition scheduler_recheck_after (id now wall_now_ms : N) (st : ManagerState) : option N :=
  let next := min_option (omap (age_boundary (ap_aging_interval (ms_policy st)) now)
                            (ms_waiters st)) in
  match w ← List.find (fun w => (pd_id w =? id)%N) (ms_waiters st); pd_deadline_at_ms w with
  | Some deadline =>
      let until_deadline := ((deadline - wall_now_ms) * 1000000)%N in
      Some (match next with Some n => N.min n until_deadline | None => until_deadline end)
  | None => next
  end.

(** ** One turn of a waiting request *)

(** What the loop of [admit_with_timeout] does after one evaluation. *)
Inductive AdmissionTurn :=
| TurnGranted (receipt : ResourceGrantReceipt)
| TurnExpired
| TurnFailed (e : ResourceAcquireError)
| TurnWaits (sleep_for : option N).

(** The clocks a turn reads, in the order it reads them. *)
Record TurnClock := {
  tc_now : N; tc_wall : N;
  tc_recheck_now : N; tc_recheck_wall : N;
  tc_elapsed : N;
  tc_finish_wall : N; tc_finish_elapsed : N
}.

(** One iteration of the loop; an early return drops the registration. *)
Definition admit_turn (id : N) (demands : Demands) (timeout : option N) (c : TurnClock)
    (st : ManagerState) : AdmissionTurn * ManagerState :=
  let finish class := finish_registration id demands class (tc_finish_wall c) (tc_finish_elapsed c) in
  match evaluate_and_grant id (tc_now c) (tc_wall c) st with
  | (Err e, st1) => (TurnFailed e, finish ResultCancelled st1)
  | (Ok (AttemptGranted receipt), st1) => (TurnGranted receipt, st1)
  | (Ok (AttemptDeferred reason _ _), st1) =>
      if decide (reason = WaitDeadlineExpired) then (TurnExpired, finish ResultTimedOut st1)
      else
        let recheck_after :=
          scheduler_recheck_after id (tc_recheck_now c) (tc_recheck_wall c) st1 in
        match timeout with
        | None => (TurnWaits recheck_after, st1)
        | Some limit =>
            if (limit <? tc_elapsed c)%N then (TurnExpired, finish ResultTimedOut st1)
            else
              let remaining := (limit - tc_elapsed c)%N in
              (TurnWaits (Some (match recheck_after with
                                | Some r => N.min r remaining
                                | None => remaining
                                end)), st1)
        end
  end.

(** ** Snapshots *)

Inductive ResourceObservationFreshness := FreshUnknown | Fresh | Stale.

Record ResourceLatencySnapshot := {
  ls_samples : nat; ls_p50_ms : N; ls_p95_ms : N; ls_max_ms : N
}.

(** [latency_snapshot_from_samples] *)
Definition latency_snapshot (f : ResourceSample -> N) (samples : list ResourceSample) :
  ResourceLatencySnapshot :=
  let sorted := sorted_values f samples in
  {| ls_samples := length sorted; ls_p50_ms := percentile sorted 50;
     ls_p95_ms := percentile sorted 95; ls_max_ms := default 0%N (last sorted) |}.

Record ExecutionResourceSnapshot := {
  rn_kind : ExecutionResourceKind;
  rn_minimum : N; rn_target : N; rn_maximum : N;
  rn_effective_limit : N;
  rn_interactive_reserve : N;
  rn_active_leases : N;
  rn_queued_waiters : nat;
  rn_queue_wait : ResourceLatencySnapshot;
  rn_service_time : ResourceLatencySnapshot;
  rn_throughput_per_minute : N;
  rn_failure_rate_basis_points : option N;
  rn_timeout_rate_basis_points : option N;
  rn_overload_rate_basis_points : option N;
  rn_cancelled_rate_basis_points : option N;
  rn_failure_timeout_upper_bound_basis_points : option N;
  rn_sample_count : nat;
  rn_last_observed_at_ms : option N;
  rn_freshness : ResourceObservationFreshness;
  rn_last_adjustment : ResourceLimitAdjustment
}.

(** [snapshot_for] *)
Definition snapshot_for (kind : ExecutionResourceKind) (r : ResourceState)
    (queued_waiters : nat) (interactive_reserve now_ms : N) : ExecutionResourceSnapshot :=
  let m := window_metrics (rs_samples r) in
  let last_observed := sm_observed_at_ms <$> last (rs_samples r) in
  let rate count := rate_basis_points count (wm_samples m) in
  {| rn_kind := kind; rn_minimum := q_minimum (rs_quota r); rn_target := q_target (rs_quota r);
     rn_maximum := q_maximum (rs_quota r); rn_effective_limit := rs_effective_limit r;
     rn_interactive_reserve := interactive_reserve; rn_active_leases := active_weight r;
     rn_queued_waiters := queued_waiters;
     rn_queue_wait := latency_snapshot sm_queue_wait_ms (rs_samples r);
     rn_service_time := latency_snapshot sm_service_time_ms (rs_samples r);
     rn_throughput_per_minute := wm_throughput_per_minute m;
     rn_failure_rate_basis_points := rate (wm_failed m);
     rn_timeout_rate_basis_points := rate (wm_timed_out m);
     rn_overload_rate_basis_points := rate (wm_overloaded m);
     rn_cancelled_rate_basis_points := rate (wm_cancelled m);
     rn_failure_timeout_upper_bound_basis_points := failure_timeout_upper_bound m;
     rn_sample_count := wm_samples m; rn_last_observed_at_ms := last_observed;
     rn_freshness :=
       match last_observed with
       | None => FreshUnknown
       | Some at_ms => if (now_ms - at_ms <=? FRESHNESS_WINDOW_MS)%N then Fresh else Stale
       end;
     rn_last_adjustment := ad_last_adjustment (rs_adaptive r) |}.

(** [snapshot] *)
Definition snapshot (kind : ExecutionResourceKind) (now_ms : N) (st : ManagerState) :
  AcquireResult ExecutionResourceSnapshot :=
  r ← ok_or (UnknownResource kind) (ms_resources st !! kind);
  Ok (snapshot_for kind r (queued_waiter_count (ms_waiters st) kind)
        (default 0%N (ms_reserves st !! kind)) now_ms).

(** ** Requests *)

Section Requests.
(** the derived [Debug] text of a kind *)
Context (kind_debug : ExecutionResourceKind -> string).

Definition demand_le (a b : ExecutionResourceKind * N) : Prop :=
  str_le (kind_debug a.1) (kind_debug b.1).

#[export] Instance demand_le_dec : RelDecision demand_le.
Proof. intros a b. unfold demand_le. apply _. Defined.

(** [normalize_demands] *)
Definition merge_demand (m : gmap ExecutionResourceKind N) (d : ExecutionResourceKind * N) :
  gmap ExecutionResourceKind N :=
  if (0 <? d.2)%N then <[d.1 := usize_saturating_add (default 0%N (m !! d.1)) d.2]> m else m.

Definition normalize_demands (demands : Demands) : Demands :=
  match merge_sort demand_le (map_to_list (foldl merge_demand ∅ demands)) with
  | [] => [(ToolResource, 1%N)]
  | normalized => normalized
  end.

(** [default_fairness_key] *)
Definition default_fairness_key (demands : Demands) : string :=
  "resource:" +:+ String.concat "+" ((fun d => kind_debug d.1) <$> demands).

(** [ResourceAdmissionRequest::new] *)
Definition request_new (id : N) (c : ExecutionServiceClass) (demands0 : Demands) :
  ResourceAdmissionRequest :=
  let demands := normalize_demands demands0 in
  {| rar_request_id := id; rar_requested_priority := None; rar_deadline_at_ms := None;
     rar_requested_service_class := c; rar_parent_class_ceiling := None; rar_demands := demands;
     rar_ephemeral_limits := []; rar_normalized_scope := None; rar_scope_feasible := true;
     rar_fairness_key := default_fairness_key demands |}.

(** [with_scope] and [with_ephemeral_limit] of the request builder. *)
Definition with_scope (r : ResourceAdmissionRequest) (scope : string) (feasible : bool) :
  ResourceAdmissionRequest :=
  {| rar_request_id := rar_request_id r; rar_requested_priority := rar_requested_priority r;
     rar_deadline_at_ms := rar_deadline_at_ms r;
     rar_requested_service_class := rar_requested_service_class r;
     rar_parent_class_ceiling := rar_parent_class_ceiling r; rar_demands := rar_demands r;
     rar_ephemeral_limits := rar_ephemeral_limits r;
     rar_normalized_scope := if trim_is_empty scope then None else Some (trim scope);
     rar_scope_feasible := feasible; rar_fairness_key := rar_fairness_key r |}.

Definition with_ephemeral_limit (r : ResourceAdmissionRequest) (kind : ExecutionResourceKind)
    (maximum : N) : ResourceAdmissionRequest :=
  {| rar_request_id := rar_request_id r; rar_requested_priority := rar_requested_priority r;
     rar_deadline_at_ms := rar_deadline_at_ms r;
     rar_requested_service_class := rar_requested_service_class r;
     rar_parent_class_ceiling := rar_parent_class_ceiling r; rar_demands := rar_demands r;
     rar_ephemeral_limits :=
       List.filter (fun l => negb (bool_decide (l.1 = kind))) (rar_ephemeral_limits r)
       ++ [(kind, maximum)];
     rar_normalized_scope := rar_normalized_scope r; rar_scope_feasible := rar_scope_feasible r;
     rar_fairness_key := rar_fairness_key r |}.

(** The normalization at the start of [admit_with_timeout]. *)
Definition normalize_request (r : ResourceAdmissionRequest) : ResourceAdmissionRequest :=
  let demands := normalize_demands (rar_demands r) in
  {| rar_request_id := rar_request_id r; rar_requested_priority := rar_requested_priority r;
     rar_deadline_at_ms := rar_deadline_at_ms r;
     rar_requested_service_class := rar_requested_service_class r;
     rar_parent_class_ceiling := rar_parent_class_ceiling r; rar_demands := demands;
     rar_ephemeral_limits := rar_ephemeral_limits r;
     rar_normalized_scope := rar_normalized_scope r;
     rar_scope_feasible := rar_scope_feasible r;
     rar_fairness_key := if trim_is_empty (rar_fairness_key r) then default_fairness_key demands
                         else rar_fairness_key r |}.

(** [admit_with_timeout] up to the queue: registration, and the pruning of a
    request that is turned away. *)
Definition admit_request (r : ResourceAdmissionRequest) (started wall_check wall_enqueue : N)
    (st : ManagerState) : AcquireResult AdmissionRegistration * ManagerState :=
  match register_request (normalize_request r) started wall_check wall_enqueue st with
  | (Ok (RegQueued _ _ _ _) as out, st') | (Err _ as out, st') => (out, st')
  | (out, st') => (out, remove_drained_resources st')
  end.
End Requests.
