(* ===== verification/Admission.v ===== *)
(** * Admission is sound and makes progress

    The properties of [Resources]: every critical section of the manager is a
    step, and over every run no resource is committed beyond the quotas ever
    published for it, the queue stays within its bounds, a grant is atomic and
    is undone by its release, and a queue that waits for nothing but its own
    order contains a waiter that can be granted. *)

From S2P Require Import Prelude Facts Contract Adaptive.
From S2P Require Import Resources.

(** ** Weights *)

Lemma active_weight_insert r id w :
  rs_active r !! id = None ->
  active_weight (with_active r (<[id := w]> (rs_active r))) = (active_weight r + w)%N.
Proof.
  intros H. unfold active_weight. cbn.
  rewrite (sum_map_perm _ _ _ (map_to_list_insert _ _ w H)).
  unfold sum_map at 1. cbn [foldr snd]. apply N.add_comm.
Qed.

Lemma active_weight_mono r r' :
  rs_active r' ⊆ rs_active r -> (active_weight r' <= active_weight r)%N.
Proof. intros H. apply sum_map_submseteq, map_to_list_submseteq, H. Qed.

(** ** Resources that only lose leases *)

Definition resource_ok (cap : ExecutionResourceKind -> N) (k : ExecutionResourceKind)
    (r : ResourceState) : Prop :=
  quota_valid (rs_quota r) /\ limit_ok r /\ (q_maximum (rs_quota r) <= cap k)%N
  /\ (active_weight r <= cap k)%N /\ length (rs_samples r) <= RESOURCE_SAMPLE_CAPACITY.

(** The quota is the same, and what an observation or a release may change. *)
Definition resource_shrinks (r r' : ResourceState) : Prop :=
  rs_quota r' = rs_quota r /\ rs_active r' ⊆ rs_active r
  /\ (quota_valid (rs_quota r) -> limit_ok r -> limit_ok r')
  /\ (length (rs_samples r) <= RESOURCE_SAMPLE_CAPACITY ->
      length (rs_samples r') <= RESOURCE_SAMPLE_CAPACITY).

#[export] Instance resource_shrinks_preorder : PreOrder resource_shrinks.
Proof.
  split; [done|]. intros r1 r2 r3 (Q1 & A1 & L1 & S1) (Q2 & A2 & L2 & S2).
  unfold resource_shrinks. rewrite Q1 in *. split_and!; [done | by etrans | auto | auto].
Qed.

Lemma resource_ok_shrinks cap k r r' :
  resource_shrinks r r' -> resource_ok cap k r -> resource_ok cap k r'.
Proof.
  intros (Hq & Ha & Hl & Hs) (Q & L & M & W & S). unfold resource_ok. rewrite Hq.
  pose proof (active_weight_mono _ _ Ha). split_and!; auto. lia.
Qed.

Lemma record_sample_shrinks r sample t : resource_shrinks r (record_sample r sample t).
Proof.
  destruct (record_sample_fields r sample t) as (Hq & Ha & Hs). unfold resource_shrinks.
  rewrite Ha, Hs. split_and!; auto using record_sample_limit_ok, push_sample_bound.
Qed.

Lemma delete_lease_shrinks r id :
  resource_shrinks r (with_active r (delete id (rs_active r))).
Proof. split_and!; auto. apply delete_subseteq. Qed.

(** No resource appears, and each one only shrinks. *)
Definition shrinks (m m' : gmap ExecutionResourceKind ResourceState) : Prop :=
  forall k r', m' !! k = Some r' -> exists r, m !! k = Some r /\ resource_shrinks r r'.

#[export] Instance shrinks_preorder : PreOrder shrinks.
Proof.
  split; [intros m k r H; by exists r|].
  intros m1 m2 m3 H1 H2 k r3 (r2 & Hr2 & S2)%H2. destruct (H1 k r2 Hr2) as (r1 & ? & S1).
  exists r1. split; [done | by etrans].
Qed.

Lemma shrinks_insert m k r r' :
  m !! k = Some r -> resource_shrinks r r' -> shrinks m (<[k := r']> m).
Proof.
  intros Hk Hs k2 r2 [[-> <-]|[_ ?]]%lookup_insert_Some; [by exists r | by exists r2].
Qed.

Lemma shrinks_subseteq m m' : m' ⊆ m -> shrinks m m'.
Proof. intros H k r' Hk. exists r'. split; [by eapply lookup_weaken | done]. Qed.

(** A loop over the demands that rewrites one present resource at a time. *)
Lemma foldl_demands_shrinks (f : gmap ExecutionResourceKind ResourceState ->
    ExecutionResourceKind * N -> gmap ExecutionResourceKind ResourceState) :
  (forall m d, f m d = m \/ exists r r', m !! d.1 = Some r /\ resource_shrinks r r'
                                         /\ f m d = <[d.1 := r']> m) ->
  forall ds m, shrinks m (foldl f m ds) /\ dom (foldl f m ds) = dom m.
Proof.
  intros Hf ds. induction ds as [|d ds IH]; intros m; cbn; [done|].
  destruct (IH (f m d)) as [Hs Hd]. rewrite Hd.
  destruct (Hf m d) as [E|(r & r' & Hr & Hrr & E)]; rewrite E in *; [done|]. split.
  - etrans; [by eapply shrinks_insert | done].
  - rewrite dom_insert_L. apply elem_of_dom_2 in Hr. set_solver.
Qed.

Lemma sample_demands_shrinks sample ds m :
  shrinks m (foldl (sample_demand sample) m ds)
  /\ dom (foldl (sample_demand sample) m ds) = dom m.
Proof.
  apply foldl_demands_shrinks. intros m' d. unfold sample_demand.
  destruct (m' !! d.1) as [r|]; [right | by left]. eauto using record_sample_shrinks.
Qed.

Lemma release_demands_shrinks id ds m :
  shrinks m (foldl (release_demand id) m ds) /\ dom (foldl (release_demand id) m ds) = dom m.
Proof.
  apply foldl_demands_shrinks. intros m' d. unfold release_demand.
  destruct (m' !! d.1) as [r|]; [right | by left]. eauto using delete_lease_shrinks.
Qed.

(** ** The invariant *)

(** A waiter without the two fields an evaluation updates. *)
Definition core (w : PendingResourceDemand) : PendingResourceDemand :=
  with_wait_reason w WaitCapacity None.

Definition pending_within (p : ExecutionAdmissionPolicy) (ws : list PendingResourceDemand) : Prop :=
  (N.of_nat (length ws) <= ap_max_pending_instance p)%N
  /\ (forall c, N.of_nat (class_pending ws c) <= ap_max_pending_per_class p)%N
  /\ (forall key, N.of_nat (key_pending ws key) <= ap_max_pending_per_key p)%N.

Record queue_ok (p : ExecutionAdmissionPolicy) (next : N) (ws : list PendingResourceDemand) :
  Prop := {
  qo_ids : NoDup (pd_id <$> ws);
  qo_waiters : Forall (fun w => NoDup (pd_demands w).*1 /\ pd_scope_feasible w = true
                                /\ (pd_enqueue_sequence w < next)%N) ws;
  qo_sequences : StronglySorted N.lt (pd_enqueue_sequence <$> ws);
  qo_bounds : pending_within p ws
}.

Record ManagerInv (cap : ExecutionResourceKind -> N) (st : ManagerState) : Prop := {
  mi_resources : map_Forall (resource_ok cap) (ms_resources st);
  mi_queue : queue_ok (ms_policy st) (ms_next_enqueue_sequence st) (ms_waiters st);
  mi_known : forall w d, w ∈ ms_waiters st -> d ∈ pd_demands w ->
             is_Some (ms_resources st !! d.1);
  mi_waiting : forall w k r, w ∈ ms_waiters st -> ms_resources st !! k = Some r ->
               rs_active r !! pd_id w = None
}.

(** *** The queue shrinks *)

Lemma class_pending_fmap ws c :
  class_pending ws c
  = length (List.filter (fun x => bool_decide (x = c)) (pd_resolved_service_class <$> ws)).
Proof. unfold class_pending. induction ws as [|w ws IH]; cbn; [done|]. case_match; cbn; auto. Qed.

Lemma key_pending_fmap ws key :
  key_pending ws key
  = length (List.filter (fun x => String.eqb x key) (pd_fairness_key <$> ws)).
Proof. unfold key_pending. induction ws as [|w ws IH]; cbn; [done|]. case_match; cbn; auto. Qed.

Lemma sublist_filter_length {A} (f : A -> bool) l l' :
  sublist l l' -> length (List.filter f l) <= length (List.filter f l').
Proof. induction 1; cbn; [lia | case_match; cbn; lia | case_match; cbn; lia]. Qed.

Lemma sublist_StronglySorted {A} (R : relation A) l l' :
  sublist l l' -> StronglySorted R l' -> StronglySorted R l.
Proof.
  induction 1 as [|x l l' H IH|x l l' H IH]; intros Hs; [constructor| |];
    apply StronglySorted_inv in Hs as [Hs Hx]; [|by apply IH].
  constructor; [by apply IH|]. rewrite Forall_forall in *. eauto using elem_of_sublist.
Qed.

(** [f] does not read the fields an evaluation updates. *)
Lemma core_fmap_sublist {A} (f : PendingResourceDemand -> A) ws ws' :
  (forall w, f (core w) = f w) -> sublist (core <$> ws') (core <$> ws) ->
  sublist (f <$> ws') (f <$> ws).
Proof.
  intros Hf H. rewrite <- (list_fmap_ext (f ∘ core) f ws'), <- (list_fmap_ext (f ∘ core) f ws)
    by (intros; apply Hf). rewrite !list_fmap_compose.
  induction H; cbn; by constructor.
Qed.

Lemma core_elem_of ws ws' w :
  sublist (core <$> ws') (core <$> ws) -> w ∈ ws' -> exists w0, w0 ∈ ws /\ core w0 = core w.
Proof.
  intros H Hw. assert (core w ∈ core <$> ws) as (w0 & E & ?)%list_elem_of_fmap; [|eauto].
  eapply elem_of_sublist; [|done]. by apply list_elem_of_fmap_2.
Qed.

Lemma pending_within_shrink p ws ws' :
  sublist (core <$> ws') (core <$> ws) -> pending_within p ws -> pending_within p ws'.
Proof.
  intros H (Hi & Hc & Hk).
  pose proof (sublist_length _ _ H) as Hl. rewrite !length_fmap in Hl. split_and!; [lia | |].
  - intros c. specialize (Hc c). rewrite class_pending_fmap in *.
    pose proof (sublist_filter_length (fun x => bool_decide (x = c)) _ _
      (core_fmap_sublist pd_resolved_service_class ws ws' (fun _ => eq_refl) H)). lia.
  - intros key. specialize (Hk key). rewrite key_pending_fmap in *.
    pose proof (sublist_filter_length (fun x => String.eqb x key) _ _
      (core_fmap_sublist pd_fairness_key ws ws' (fun _ => eq_refl) H)). lia.
Qed.

Lemma queue_ok_shrink p next ws ws' :
  sublist (core <$> ws') (core <$> ws) -> queue_ok p next ws -> queue_ok p next ws'.
Proof.
  intros H [Hids Hws Hseq Hb]. split.
  - eapply sublist_NoDup; [done|]. by apply core_fmap_sublist.
  - apply Forall_forall. intros w Hw. destruct (core_elem_of _ _ _ H Hw) as (w0 & Hw0 & E).
    rewrite Forall_forall in Hws. specialize (Hws w0 Hw0).
    change (NoDup (pd_demands (core w)).*1 /\ pd_scope_feasible (core w) = true
            /\ (pd_enqueue_sequence (core w) < next)%N). by rewrite <- E.
  - eapply sublist_StronglySorted; [|done]. by apply core_fmap_sublist.
  - by eapply pending_within_shrink.
Qed.

(** *** Steps that add no waiter and no lease *)

(** Every lease of [m'] is a lease of [m]. *)
Definition leases_within (m m' : gmap ExecutionResourceKind ResourceState) : Prop :=
  forall k r' id, m' !! k = Some r' -> is_Some (rs_active r' !! id) ->
  exists r, m !! k = Some r /\ is_Some (rs_active r !! id).

Lemma shrinks_leases m m' : shrinks m m' -> leases_within m m'.
Proof.
  intros H k r' id Hk [x Hx]. destruct (H k r' Hk) as (r & ? & _ & Ha & _).
  exists r. split; [done|]. exists x. by eapply lookup_weaken.
Qed.

Lemma shrinks_ok cap m m' :
  shrinks m m' -> map_Forall (resource_ok cap) m -> map_Forall (resource_ok cap) m'.
Proof.
  intros H Hm k r' Hk. destruct (H k r' Hk) as (r & Hr & Hs). eauto using resource_ok_shrinks.
Qed.

Lemma inv_replace cap st st' :
  ms_policy st' = ms_policy st ->
  ms_next_enqueue_sequence st' = ms_next_enqueue_sequence st ->
  sublist (core <$> ms_waiters st') (core <$> ms_waiters st) ->
  map_Forall (resource_ok cap) (ms_resources st') ->
  leases_within (ms_resources st) (ms_resources st') ->
  (forall w d, w ∈ ms_waiters st' -> d ∈ pd_demands w -> is_Some (ms_resources st !! d.1) ->
     is_Some (ms_resources st' !! d.1)) ->
  ManagerInv cap st -> ManagerInv cap st'.
Proof.
  intros Hp Hn Hs Hok Hl Hk [_ Hq Hknown Hwait].
  assert (Hcore : forall w, w ∈ ms_waiters st' -> exists w0, w0 ∈ ms_waiters st /\
            pd_demands w0 = pd_demands w /\ pd_id w0 = pd_id w).
  { intros w Hw. destruct (core_elem_of _ _ _ Hs Hw) as (w0 & ? & E). exists w0.
    split; [done|]. by split; [apply (f_equal pd_demands) in E | apply (f_equal pd_id) in E]. }
  split; [done | rewrite Hp, Hn; by eapply queue_ok_shrink | |].
  - intros w d Hw Hd. apply (Hk w d Hw Hd). destruct (Hcore w Hw) as (w0 & ? & Ed & _).
    rewrite <- Ed in Hd. eauto.
  - intros w k r Hw Hr. destruct (Hcore w Hw) as (w0 & Hw0 & _ & Ei). rewrite <- Ei.
    destruct (rs_active r !! pd_id w0) eqn:E; [|done].
    destruct (Hl k r (pd_id w0) Hr) as (r0 & Hr0 & [x Hx]); [by eexists|].
    by rewrite (Hwait w0 k r0 Hw0 Hr0) in Hx.
Qed.

Lemma inv_shrink cap st st' :
  ms_policy st' = ms_policy st ->
  ms_next_enqueue_sequence st' = ms_next_enqueue_sequence st ->
  sublist (core <$> ms_waiters st') (core <$> ms_waiters st) ->
  shrinks (ms_resources st) (ms_resources st') ->
  (forall w d, w ∈ ms_waiters st' -> d ∈ pd_demands w -> is_Some (ms_resources st !! d.1) ->
     is_Some (ms_resources st' !! d.1)) ->
  ManagerInv cap st -> ManagerInv cap st'.
Proof.
  intros Hp Hn Hs Hr Hk Hinv. eapply inv_replace; eauto using shrinks_leases.
  eapply shrinks_ok; [done | apply Hinv].
Qed.

Lemma demands_kind_elem ds k : demands_kind ds k = true <-> k ∈ ds.*1.
Proof.
  unfold demands_kind. rewrite existsb_elem_of. setoid_rewrite bool_decide_eq_true.
  rewrite list_elem_of_fmap. naive_solver.
Qed.

Lemma referenced_by_waiter_spec st k :
  referenced_by_waiter st k = true <-> exists w, w ∈ ms_waiters st /\ k ∈ (pd_demands w).*1.
Proof.
  unfold referenced_by_waiter. rewrite existsb_elem_of. by setoid_rewrite demands_kind_elem.
Qed.

Lemma elem_of_fst (ds : Demands) d : d ∈ ds -> d.1 ∈ ds.*1.
Proof. intros. by apply list_elem_of_fmap_2. Qed.

Lemma remove_drained_inv cap st : ManagerInv cap st -> ManagerInv cap (remove_drained_resources st).
Proof.
  apply inv_shrink; try done.
  - apply shrinks_subseteq, map_filter_subseteq.
  - intros w d Hw Hd [r Hr]. exists r. apply map_lookup_filter_Some. split; [done|].
    apply orb_true_iff. right. apply referenced_by_waiter_spec. eauto using elem_of_fst.
Qed.

Lemma finish_registration_inv cap id ds class t elapsed st :
  ManagerInv cap st -> ManagerInv cap (finish_registration id ds class t elapsed st).
Proof.
  intros H. unfold finish_registration. apply remove_drained_inv.
  match goal with |- context[sample_demand ?s] =>
    destruct (sample_demands_shrinks s ds (ms_resources st)) as [Hs Hd] end.
  revert H. apply inv_shrink; try done; cbn.
  - apply fmap_sublist. clear. induction (ms_waiters st) as [|w ws IH]; cbn; [done|].
    case_match; by constructor.
  - intros w d _ _. rewrite <- !elem_of_dom, Hd. done.
Qed.

Lemma release_lease_inv cap id ds st :
  ManagerInv cap st -> ManagerInv cap (release_lease id ds st).
Proof.
  intros H. unfold release_lease. apply remove_drained_inv.
  destruct (release_demands_shrinks id ds (ms_resources st)) as [Hs Hd].
  revert H. apply inv_shrink; try done; cbn.
  intros w d _ _. rewrite <- !elem_of_dom, Hd. done.
Qed.

Lemma record_observation_inv cap k o st :
  ManagerInv cap st -> ManagerInv cap (record_observation k o st).2.
Proof.
  unfold record_observation. destruct (ms_resources st !! k) as [r|] eqn:E; [|done]. cbn.
  apply inv_shrink; try done; cbn.
  - eapply shrinks_insert; eauto using record_sample_shrinks.
  - intros w d _ _ [x Hx]. apply lookup_insert_is_Some'. eauto.
Qed.

(** *** Quotas *)

(** A quota that may be published for [k]. *)
Definition quota_within (cap : ExecutionResourceKind -> N) (k : ExecutionResourceKind)
    (q : ResourceQuota) : Prop := quota_valid q /\ (q_maximum q <= cap k)%N.

Lemma target_limit_ok q :
  quota_valid q -> (q_minimum q <= q_target q <= q_maximum q)%N.
Proof. intros H%quota_valid_le. lia. Qed.

Lemma fresh_resource_ok cap k q : quota_within cap k q -> resource_ok cap k (fresh_resource q).
Proof.
  intros [Hq Hc].
  split; [done|]. split; [by apply target_limit_ok|]. split; [done|].
  split; [apply N.le_0_l | apply Nat.le_0_l].
Qed.

Lemma requota_ok cap k r q :
  quota_within cap k q -> resource_ok cap k r -> resource_ok cap k (requota r q).
Proof.
  intros [Hq Hc] (_ & _ & _ & Hw & _).
  split; [done|]. split; [by apply target_limit_ok|]. split; [done|].
  split; [done | apply Nat.le_0_l].
Qed.

Lemma update_quota_inv cap k q st :
  quota_within cap k q -> ManagerInv cap st -> ManagerInv cap (update_quota k q st).2.
Proof.
  intros Hq Hinv. unfold update_quota. destruct (ms_resources st !! k) as [r|] eqn:E; [|done].
  revert Hinv. cbn. intros Hinv. apply (inv_replace cap st); try done; cbn.
  - apply map_Forall_insert_2; [|apply Hinv]. apply requota_ok; [done|]. by apply Hinv.
  - intros k2 r2 id [[-> <-]|[_ ?]]%lookup_insert_Some ?; [by exists r | by exists r2].
  - intros w d _ _ [x Hx]. apply lookup_insert_is_Some'. eauto.
Qed.

Lemma reconcile_one_ok cap m k q :
  quota_within cap k q -> map_Forall (resource_ok cap) m -> resource_ok cap k (reconcile_one m k q).
Proof.
  intros Hq Hm. unfold reconcile_one.
  destruct (m !! k) as [r|] eqn:E; [|by apply fresh_resource_ok].
  destruct Hq as [Hq Hc]. destruct (Hm k r E) as (_ & _ & _ & Hw & Hs).
  split_and!; try done. apply clamp_bounds. pose proof (quota_valid_le q Hq). cbn. lia.
Qed.

(** What the maps built from a list of pairs satisfy. *)
Lemma foldl_insert_Forall {A} (P : ExecutionResourceKind -> A -> Prop)
    (l : list (ExecutionResourceKind * A)) : forall m : gmap ExecutionResourceKind A,
  Forall (fun ka => P ka.1 ka.2) l -> map_Forall P m ->
  map_Forall P (foldl (fun m ka => <[ka.1 := ka.2]> m) m l).
Proof.
  induction l as [|[k a] l IH]; intros m Hl Hm; cbn; [done|].
  inversion_clear Hl. apply IH; [done|]. by apply map_Forall_insert_2.
Qed.

Lemma published_lookup (m : gmap ExecutionResourceKind ResourceState)
    (desired : gmap ExecutionResourceKind ResourceQuota) k r :
  (map_imap (fun k q => Some (reconcile_one m k q)) desired ∪ m) !! k = Some r ->
  (exists q, desired !! k = Some q /\ r = reconcile_one m k q)
  \/ desired !! k = None /\ m !! k = Some r.
Proof.
  intros [H|[H ?]]%lookup_union_Some_raw; rewrite map_lookup_imap in H;
    destruct (desired !! k) as [q|]; cbn in H; naive_solver.
Qed.

Lemma reconcile_quotas_inv cap quotas reserves st :
  Forall (fun kq => quota_within cap kq.1 kq.2) quotas ->
  ManagerInv cap st -> ManagerInv cap (reconcile_quotas quotas reserves st).2.
Proof.
  intros Hq Hinv. unfold reconcile_quotas. cbv zeta.
  match goal with |- context[check_reserve ?d] =>
    assert (map_Forall (quota_within cap) d) as Hd; [|revert Hd; generalize d] end.
  { apply foldl_insert_Forall; [done | apply map_Forall_empty]. }
  intros desired Hd.
  destruct (try_fold _ _ _); [|done]. cbn. apply (inv_replace cap st); try done; cbn.
  - apply map_Forall_lookup. intros k r [H _]%map_lookup_filter_Some.
    apply published_lookup in H as [(q & Hk & ->)|[_ H]].
    + apply reconcile_one_ok; [by apply Hd | apply Hinv].
    + by apply Hinv.
  - intros k r id [H _]%map_lookup_filter_Some. intros Hid.
    apply published_lookup in H as [(q & Hk & ->)|[_ H]]; [|by exists r].
    unfold reconcile_one in Hid. destruct (ms_resources st !! k) as [r|]; [by exists r|].
    cbn in Hid. by apply lookup_empty_is_Some in Hid.
  - intros w d Hw Hdw [r Hr].
    assert (is_Some ((map_imap (fun k q => Some (reconcile_one (ms_resources st) k q)) desired
                      ∪ ms_resources st) !! d.1)) as [r' Hr'].
    { apply lookup_union_is_Some. right. by exists r. }
    exists r'. apply map_lookup_filter_Some. split; [done|].
    apply orb_true_iff. right. unfold in_use. apply orb_true_iff. left.
    apply referenced_by_waiter_spec. eauto using elem_of_fst.
Qed.

(** *** Registration *)

Definition limits_within (cap : ExecutionResourceKind -> N) (limits : Demands) : Prop :=
  Forall (fun km => (km.2 <= cap km.1)%N) limits.

(** What installing ephemeral limits leaves alone. *)
Lemma install_ephemeral_fields limits : forall st,
  let st' := (install_ephemeral_limits limits st).2 in
  ms_waiters st' = ms_waiters st /\ ms_policy st' = ms_policy st
  /\ ms_next_enqueue_sequence st' = ms_next_enqueue_sequence st
  /\ leases_within (ms_resources st) (ms_resources st').
Proof.
  assert (forall m, leases_within m m) as Hrefl by (intros m k r id ? ?; by exists r).
  induction limits as [|[k m] limits IH]; intros st; cbn -[quota_new]; [by auto|].
  destruct (_ || _); [by auto|].
  destruct (ms_resources st !! k) as [r|] eqn:E.
  - destruct (negb _); [by auto | apply IH].
  - destruct (quota_new 1 m m) as [q|e]; [|by auto].
    match goal with |- context[install_ephemeral_limits _ ?s] =>
      destruct (IH s) as (-> & -> & -> & H) end.
    split_and!; try done. intros k2 r2 id Hk Hid. destruct (H k2 r2 id Hk Hid) as (r3 & Hr3 & Hid3).
    cbn in Hr3. apply lookup_insert_Some in Hr3 as [[-> <-]|[_ ?]]; [|by exists r3].
    cbn in Hid3. by apply lookup_empty_is_Some in Hid3.
Qed.

Lemma install_ephemeral_inv cap limits : forall st,
  limits_within cap limits -> ManagerInv cap st ->
  ManagerInv cap (install_ephemeral_limits limits st).2.
Proof.
  induction limits as [|[k m] limits IH]; intros st Hl Hinv; cbn -[quota_new]; [done|].
  inversion Hl as [|? ? Hm Hl']; subst. cbn in Hm.
  destruct (_ || (m =? 0)%N) eqn:Em; [done|]. apply orb_false_iff in Em as [_ Em%N.eqb_neq].
  destruct (ms_resources st !! k) as [r|] eqn:E; [destruct (negb _); [done | by apply IH]|].
  destruct (quota_new 1 m m) as [q|e] eqn:Eq; [|done].
  unfold quota_new in Eq. ok_inv. subst q.
  apply IH; [done|]. apply (inv_replace cap st); try done; cbn.
  - apply map_Forall_insert_2; [by apply fresh_resource_ok | apply Hinv].
  - intros k2 r2 id [[-> <-]|[_ ?]]%lookup_insert_Some Hid; [|by exists r2].
    cbn in Hid. by apply lookup_empty_is_Some in Hid.
  - intros w d _ _ [x Hx]. apply lookup_insert_is_Some'. eauto.
Qed.

Lemma validate_request_known st demands d :
  validate_request_resources st demands = Ok tt -> d ∈ demands ->
  exists r, ms_resources st !! d.1 = Some r /\ (d.2 <= q_maximum (rs_quota r))%N
            /\ d.1 ∈ ms_accepting st.
Proof.
  intros H. revert d.
  apply (try_fold_ind (validate_demand st) (fun done _ => forall d, d ∈ done ->
    exists r, ms_resources st !! d.1 = Some r /\ (d.2 <= q_maximum (rs_quota r))%N
              /\ d.1 ∈ ms_accepting st) demands tt tt); [..|done].
  - intros d Hd. by apply not_elem_of_nil in Hd.
  - intros done [k wt] [] [] IH Hd d [Hin|Hin]%elem_of_app; [by apply IH|].
    apply list_elem_of_singleton in Hin as ->. unfold validate_demand in Hd. ok_inv.
    apply negb_false_iff, bool_decide_eq_true in Ha. apply N.ltb_ge in Hd. eauto.
Qed.

Lemma request_id_fresh st id :
  request_id_exists st id = false ->
  (id ∉ (pd_id <$> ms_waiters st))
  /\ forall k r, ms_resources st !! k = Some r -> rs_active r !! id = None.
Proof.
  unfold request_id_exists. rewrite orb_false_iff, !existsb_false. intros [Hw Hr]. split.
  - intros (w & -> & Hin)%list_elem_of_fmap. specialize (Hw w Hin). by rewrite N.eqb_refl in Hw.
  - intros k r Hk. specialize (Hr (k, r)). rewrite elem_of_map_to_list in Hr.
    specialize (Hr Hk). apply bool_decide_eq_false in Hr. by apply eq_None_not_Some.
Qed.

Lemma pending_within_snoc p ws w st :
  ms_waiters st = ws -> ms_policy st = p ->
  pending_limit_reason st (pd_resolved_service_class w) (pd_fairness_key w) = None ->
  pending_within p ws -> pending_within p (ws ++ [w]).
Proof.
  intros <- <-. unfold pending_limit_reason.
  destruct (N.leb_spec (ap_max_pending_instance (ms_policy st)) (N.of_nat (length (ms_waiters st))));
    [done|].
  destruct (N.leb_spec (ap_max_pending_per_class (ms_policy st))
    (N.of_nat (class_pending (ms_waiters st) (pd_resolved_service_class w)))); [done|].
  destruct (N.leb_spec (ap_max_pending_per_key (ms_policy st))
    (N.of_nat (key_pending (ms_waiters st) (pd_fairness_key w)))); [done|].
  intros _ (Hi & Hc & Hk). unfold pending_within, class_pending, key_pending in *.
  rewrite length_app. cbn [length]. split_and!; [lia | |].
  - intros c. specialize (Hc c). rewrite List.filter_app, length_app. cbn [List.filter].
    case_bool_decide; subst; cbn [length]; lia.
  - intros key. specialize (Hk key). rewrite List.filter_app, length_app. cbn [List.filter].
    destruct (String.eqb_spec (pd_fairness_key w) key); subst; cbn [length]; lia.
Qed.

Lemma StronglySorted_snoc {A} (R : relation A) l x :
  StronglySorted R l -> Forall (fun y => R y x) l -> StronglySorted R (l ++ [x]).
Proof.
  induction 1 as [|y l Hs IH Hy]; intros H; cbn; [by constructor; constructor|].
  inversion_clear H. constructor; [by apply IH|]. apply Forall_app. auto.
Qed.

Lemma queue_ok_snoc p next ws w st :
  ms_waiters st = ws -> ms_policy st = p ->
  pending_limit_reason st (pd_resolved_service_class w) (pd_fairness_key w) = None ->
  (pd_id w ∉ (pd_id <$> ws)) -> NoDup (pd_demands w).*1 -> pd_scope_feasible w = true ->
  pd_enqueue_sequence w = next ->
  queue_ok p next ws -> queue_ok p (next + 1) (ws ++ [w]).
Proof.
  intros Hws Hp Hl Hid Hd Hf Hseq [Hids Hw Hs Hb]. split.
  - rewrite fmap_app. apply NoDup_app. split_and!; [done | | apply NoDup_singleton].
    intros x Hx. cbn. rewrite list_elem_of_singleton. by intros ->.
  - apply Forall_app. split.
    + eapply Forall_impl; [done|]. cbn. intros x (? & ? & ?). split_and!; auto. lia.
    + apply Forall_singleton. split_and!; auto. lia.
  - rewrite fmap_app. apply StronglySorted_snoc; [done|]. apply Forall_fmap.
    eapply Forall_impl; [done|]. cbn. intros x (_ & _ & ?). by rewrite Hseq.
  - by eapply pending_within_snoc.
Qed.

Lemma register_request_inv cap r started wc we st :
  NoDup (rar_demands r).*1 -> limits_within cap (rar_ephemeral_limits r) ->
  (ms_next_enqueue_sequence st < u64_max)%N ->
  ManagerInv cap st -> ManagerInv cap (register_request r started wc we st).2.
Proof.
  intros Hnd Hlim Hnext Hinv. unfold register_request. cbv zeta.
  destruct (expired _ _); [done|]. destruct (rar_scope_feasible r) eqn:Hf; [cbn [negb]|done].
  destruct (request_id_exists st _) eqn:Hid; [done|].
  destruct (pending_limit_reason st _ _) eqn:Hpend; [done|].
  pose proof (install_ephemeral_inv cap (rar_ephemeral_limits r) st Hlim Hinv) as Hinv1.
  pose proof (install_ephemeral_fields (rar_ephemeral_limits r) st) as (Hw & Hp & Hn & Hl).
  destruct (install_ephemeral_limits _ st) as [[[]|e] st1]; cbn in *; [|done].
  destruct (validate_request_resources st1 _) as [[]|e] eqn:Hv; cbn;
    [|by apply remove_drained_inv].
  apply request_id_fresh in Hid as [Hidw Hidr]. destruct Hinv1 as [Hok Hq Hknown Hwait].
  split; cbn.
  - done.
  - replace (u64_wrapping_add (ms_next_enqueue_sequence st1) 1)
      with (ms_next_enqueue_sequence st1 + 1)%N.
    2: { unfold u64_wrapping_add, u64_max in *. rewrite N.mod_small; [done|]. rewrite Hn. lia. }
    eapply (queue_ok_snoc _ _ _ _ st); try done. by rewrite Hw.
  - intros w d [Hin|Hin]%elem_of_app Hd; [by eapply Hknown|].
    apply list_elem_of_singleton in Hin as ->. cbn in Hd.
    destruct (validate_request_known _ _ _ Hv Hd) as (x & ? & _). by exists x.
  - intros w k x [Hin|Hin]%elem_of_app Hx; [by eapply Hwait|].
    apply list_elem_of_singleton in Hin as ->. cbn.
    apply eq_None_not_Some. intros Hsome. destruct (Hl k x _ Hx Hsome) as (y & Hy & [z Hz]).
    by rewrite (Hidr k y Hy) in Hz.
Qed.

Lemma normalize_demands_NoDup dbg ds : NoDup (normalize_demands dbg ds).*1.
Proof.
  unfold normalize_demands. pose proof (merge_sort_Permutation (demand_le dbg)
    (map_to_list (foldl merge_demand ∅ ds))) as Hp.
  destruct (merge_sort _ _); [apply NoDup_singleton|].
  rewrite Hp. apply NoDup_fst_map_to_list.
Qed.

Lemma admit_inv cap dbg r started wc we st :
  limits_within cap (rar_ephemeral_limits r) -> (ms_next_enqueue_sequence st < u64_max)%N ->
  ManagerInv cap st -> ManagerInv cap (admit_request dbg r started wc we st).2.
Proof.
  intros Hl Hn Hinv. pose proof (register_request_inv cap (normalize_request dbg r) started wc we st
    (normalize_demands_NoDup dbg _) Hl Hn Hinv) as H. unfold admit_request.
  destruct (register_request _ _ _ _ _) as [[[]|] st']; cbn in *; auto using remove_drained_inv.
Qed.

(** ** The grant *)

Lemma split_waiters_spec id ws before w after :
  split_waiters id ws = Some (before, w, after) -> ws = before ++ w :: after /\ pd_id w = id.
Proof.
  revert before. induction ws as [|x ws IH]; intros before; cbn; [done|].
  destruct (N.eqb_spec (pd_id x) id).
  - by intros [= <- <- <-].
  - destruct (split_waiters id ws) as [[[b y] a]|]; [|done]. intros [= <- -> ->].
    by destruct (IH b eq_refl) as [-> ?].
Qed.

Lemma split_waiters_Some before w after :
  NoDup (pd_id <$> (before ++ w :: after)) ->
  split_waiters (pd_id w) (before ++ w :: after) = Some (before, w, after).
Proof.
  induction before as [|x before IH]; cbn; [by rewrite N.eqb_refl|].
  intros [Hx Hnd]%NoDup_cons. destruct (N.eqb_spec (pd_id x) (pd_id w)) as [E|].
  - destruct Hx. rewrite E, fmap_app. set_solver.
  - by rewrite IH.
Qed.

(** The weight a demand list asks of a kind. *)
Definition demanded (ds : Demands) (k : ExecutionResourceKind) : option N :=
  (list_to_map ds : gmap ExecutionResourceKind N) !! k.

Lemma demanded_elem ds k wt : NoDup ds.*1 -> demanded ds k = Some wt <-> (k, wt) ∈ ds.
Proof. intros. symmetry. by apply elem_of_list_to_map. Qed.

Lemma demanded_None ds k : demanded ds k = None <-> (k ∉ ds.*1).
Proof. symmetry. apply not_elem_of_list_to_map. Qed.

Lemma demanded_cons k wt ds k2 :
  demanded ((k, wt) :: ds) k2 = if decide (k = k2) then Some wt else demanded ds k2.
Proof. unfold demanded. cbn. case_decide; subst; by rewrite ?lookup_insert_eq, ?lookup_insert_ne. Qed.

Definition leased (r : ResourceState) (id wt : N) : ResourceState :=
  with_active r (<[id := wt]> (rs_active r)).

(** Activation succeeds when the resources exist, and adds the lease to exactly
    the demanded ones. *)
Lemma activate_spec id ds : forall m,
  NoDup ds.*1 -> (forall d, d ∈ ds -> is_Some (m !! d.1)) ->
  exists m', activate id ds m = (true, m') /\
  forall k, m' !! k = match demanded ds k with
                      | Some wt => (fun r => leased r id wt) <$> m !! k
                      | None => m !! k
                      end.
Proof.
  induction ds as [|[k wt] ds IH]; intros m Hnd Hk; cbn; [by eexists|].
  apply NoDup_cons in Hnd as [Hkn Hnd].
  destruct (Hk (k, wt)) as [r Hr]; [left|]. cbn in Hr. rewrite Hr.
  change (with_active r (<[id := wt]> (rs_active r))) with (leased r id wt).
  destruct (IH (<[k := leased r id wt]> m) Hnd) as (m' & -> & Hm').
  { intros d Hd. apply lookup_insert_is_Some'. right. apply Hk. by right. }
  exists m'. split; [done|]. intros k2. rewrite Hm', demanded_cons. case_decide as Hkk; subst.
  - by rewrite (proj2 (demanded_None ds k2) Hkn), lookup_insert_eq, Hr.
  - by rewrite !lookup_insert_ne.
Qed.

Lemma capacity_blocker_None st ds c :
  capacity_blocker st ds c = None <->
  forall d r, d ∈ ds -> ms_resources st !! d.1 = Some r ->
  (usize_saturating_add (active_weight r) d.2 <= class_limit st d.1 r c)%N.
Proof.
  induction ds as [|[k wt] ds IH]; cbn.
  - split; [|done]. intros _ d r Hd. by apply not_elem_of_nil in Hd.
  - destruct (ms_resources st !! k) as [r|] eqn:E.
    + destruct (N.ltb_spec (class_limit st k r c) (usize_saturating_add (active_weight r) wt)).
      * split; [done|]. intros H2. specialize (H2 (k, wt) r). cbn in H2.
        specialize (H2 ltac:(left) E). lia.
      * rewrite IH. split; intros H2 d r2; [|intros; apply H2; [by right | done]].
        intros [->|Hd]%elem_of_cons Hr; [|by apply H2]. cbn in *. congruence.
    + rewrite IH. split; intros H2 d r2; [|intros; apply H2; [by right | done]].
      intros [->|Hd]%elem_of_cons Hr; [|by apply H2]. cbn in *. congruence.
Qed.

Lemma class_limit_le st k r c : (class_limit st k r c <= rs_effective_limit r)%N.
Proof. unfold class_limit. case_decide; lia. Qed.

Lemma evaluate_grantable st before w now wall reason blocker :
  evaluate_waiter st before w now wall = EvalGrantable reason blocker ->
  capacity_blocker st (pd_demands w) (pd_resolved_service_class w) = None
  /\ expired (pd_deadline_at_ms w) wall = false /\ pd_scope_feasible w = true
  /\ reason = pd_last_wait_reason w /\ blocker = pd_last_blocker w.
Proof.
  unfold evaluate_waiter. destruct (expired _ _); [done|].
  destruct (pd_scope_feasible w); [cbn|done].
  destruct (same_class_precedence_blocker _ _ _ _); [done|].
  destruct (capacity_blocker _ _ _); [done|].
  destruct (higher_class_blocker _ _ _ _ _ _ _) as [[]|]; [done|]. by intros [= <- <-].
Qed.

(** A weight that fits a limit below [usize_max] did not saturate. *)
Lemma fits_exact a wt limit :
  (limit < usize_max)%N -> (usize_saturating_add a wt <= limit)%N -> (a + wt <= limit)%N.
Proof. unfold usize_saturating_add, sat_add. lia. Qed.

Definition granted_resources (w : PendingResourceDemand)
    (m m' : gmap ExecutionResourceKind ResourceState) : Prop :=
  forall k, m' !! k = match demanded (pd_demands w) k with
                      | Some wt => (fun r => leased r (pd_id w) wt) <$> m !! k
                      | None => m !! k
                      end.

(** Both outcomes of evaluating a queued waiter. *)
Lemma evaluate_and_grant_cases cap st before w after now wall :
  ManagerInv cap st -> ms_waiters st = before ++ w :: after ->
  match evaluate_waiter st before w now wall with
  | EvalGrantable reason blocker =>
      exists m', granted_resources w (ms_resources st) m' /\
      evaluate_and_grant (pd_id w) now wall st
      = (Ok (AttemptGranted (grant_receipt w now wall reason blocker)),
         with_resources (with_waiters st (before ++ after)) m')
  | EvalDeferred reason blocker =>
      exists changed,
      evaluate_and_grant (pd_id w) now wall st
      = (Ok (AttemptDeferred reason blocker changed),
         with_waiters st (before ++ with_wait_reason w reason blocker :: after))
  end.
Proof.
  intros [_ [Hids Hws _ _] Hknown _] E. unfold evaluate_and_grant. rewrite E in *.
  rewrite split_waiters_Some by done.
  destruct (evaluate_waiter st before w now wall); [|by eexists].
  rewrite Forall_forall in Hws. destruct (Hws w) as (Hnd & _); [set_solver|].
  destruct (activate_spec (pd_id w) (pd_demands w) (ms_resources st)) as (m' & Hm' & Hspec);
    [done | intros d; apply Hknown; set_solver|].
  exists m'. split; [done|]. by rewrite Hm'.
Qed.

Lemma leased_ok cap k r id wt :
  rs_active r !! id = None -> (active_weight r + wt <= rs_effective_limit r)%N ->
  resource_ok cap k r -> resource_ok cap k (leased r id wt).
Proof.
  intros Hid Hwt (Q & L & M & W & S). unfold limit_ok in L.
  split; [done|]. split; [done|]. split; [done|].
  split; [|done]. unfold leased. rewrite active_weight_insert by done. lia.
Qed.

Lemma grant_fits cap st w :
  (forall k, cap k < usize_max)%N -> ManagerInv cap st ->
  capacity_blocker st (pd_demands w) (pd_resolved_service_class w) = None ->
  forall k wt r, (k, wt) ∈ pd_demands w -> ms_resources st !! k = Some r ->
  (active_weight r + wt <= class_limit st k r (pd_resolved_service_class w))%N.
Proof.
  intros Hcap Hinv Hc k wt r Hd Hr.
  pose proof (proj1 (capacity_blocker_None _ _ _) Hc (k, wt) r Hd Hr) as Hfit. cbn in Hfit.
  apply fits_exact; [|done].
  destruct (mi_resources _ _ Hinv k r Hr) as (_ & [_ Hl] & Hm & _). specialize (Hcap k).
  pose proof (class_limit_le st k r (pd_resolved_service_class w)). lia.
Qed.

Lemma granted_lookup cap st w m' :
  ManagerInv cap st -> w ∈ ms_waiters st -> granted_resources w (ms_resources st) m' ->
  forall k r', m' !! k = Some r' ->
  exists r, ms_resources st !! k = Some r /\ rs_active r !! pd_id w = None
  /\ (r' = r \/ exists wt, (k, wt) ∈ pd_demands w /\ r' = leased r (pd_id w) wt).
Proof.
  intros Hinv Hw Hm' k r' Hk. rewrite Hm' in Hk.
  destruct (proj1 (Forall_forall _ _) (qo_waiters _ _ _ (mi_queue _ _ Hinv)) w Hw) as (Hnd & _).
  destruct (demanded (pd_demands w) k) as [wt|] eqn:E.
  - apply demanded_elem in E; [|done]. apply fmap_Some in Hk as (r & Hr & ->).
    exists r. split; [done|]. split; [by apply (mi_waiting _ _ Hinv w k) | eauto].
  - exists r'. split; [done|]. split; [by apply (mi_waiting _ _ Hinv w k) | by left].
Qed.

Lemma evaluate_and_grant_inv cap id now wall st :
  (forall k, cap k < usize_max)%N -> ManagerInv cap st ->
  ManagerInv cap (evaluate_and_grant id now wall st).2.
Proof.
  intros Hcap Hinv. destruct (split_waiters id (ms_waiters st)) as [[[before w] after]|] eqn:Es.
  2: { unfold evaluate_and_grant. by rewrite Es. }
  apply split_waiters_spec in Es as [Ews <-].
  pose proof (evaluate_and_grant_cases cap st before w after now wall Hinv Ews) as H.
  destruct (evaluate_waiter st before w now wall) as [reason blocker|reason blocker] eqn:Ee.
  - destruct H as (m' & Hm' & ->). cbn. apply evaluate_grantable in Ee as (Hc & _).
    assert (w ∈ ms_waiters st) as Hw by (rewrite Ews; set_solver).
    pose proof (granted_lookup cap st w m' Hinv Hw Hm') as Hlk.
    pose proof (qo_ids _ _ _ (mi_queue _ _ Hinv)) as Hids. rewrite Ews in Hids.
    split; cbn.
    + intros k r' Hk. destruct (Hlk k r' Hk) as (r & Hr & Hid & [->|(wt & Hd & ->)]);
        [by apply Hinv|].
      apply leased_ok; [done | | by apply Hinv].
      pose proof (grant_fits cap st w Hcap Hinv Hc k wt r Hd Hr).
      pose proof (class_limit_le st k r (pd_resolved_service_class w)). lia.
    + eapply queue_ok_shrink; [|apply Hinv]. rewrite Ews, !fmap_app.
      apply sublist_app; [done | cbn; by constructor].
    + intros w2 d Hw2 Hd. assert (w2 ∈ ms_waiters st) as Hw2' by (rewrite Ews; set_solver).
      destruct (mi_known _ _ Hinv w2 d Hw2' Hd) as [r Hr]. rewrite Hm', Hr. by case_match.
    + intros w2 k r' Hw2 Hk. destruct (Hlk k r' Hk) as (r & Hr & _ & Hr').
      assert (rs_active r !! pd_id w2 = None) as Hn
        by (apply (mi_waiting _ _ Hinv w2 k); [rewrite Ews; set_solver | done]).
      destruct Hr' as [->|(wt & _ & ->)]; [done|]. cbn. rewrite lookup_insert_ne; [done|].
      intros Eid. apply (NoDup_Permutation_proper _ (pd_id w :: (pd_id <$> before ++ after))) in Hids;
        [|by rewrite !fmap_app; cbn; rewrite Permutation_middle].
      apply NoDup_cons in Hids as [Hno _]. rewrite Eid in Hno.
      by apply Hno, list_elem_of_fmap_2.
  - destruct H as (changed & ->). cbn. revert Hinv. apply inv_shrink; try done; cbn.
    rewrite Ews, !fmap_app. cbn. done.
Qed.

(** ** Runs of the manager *)

Section Runs.
Context (kind_debug : ExecutionResourceKind -> string).
(** the largest maximum a quota published for a kind may have *)
Context (cap : ExecutionResourceKind -> N).

(** The critical sections, with any arguments; sequence numbers are not used up. *)
Inductive manager_step : ManagerState -> ManagerState -> Prop :=
| StepAdmit st r started wall_check wall_enqueue :
    limits_within cap (rar_ephemeral_limits r) -> (ms_next_enqueue_sequence st < u64_max)%N ->
    manager_step st (admit_request kind_debug r started wall_check wall_enqueue st).2
| StepEvaluate st id now wall :
    manager_step st (evaluate_and_grant id now wall st).2
| StepFinish st id demands class wall elapsed :
    manager_step st (finish_registration id demands class wall elapsed st)
| StepRelease st id demands :
    manager_step st (release_lease id demands st)
| StepObserve st kind o :
    manager_step st (record_observation kind o st).2
| StepUpdateQuota st kind q :
    quota_within cap kind q -> manager_step st (update_quota kind q st).2
| StepReconcile st quotas reserves :
    Forall (fun kq => quota_within cap kq.1 kq.2) quotas ->
    manager_step st (reconcile_quotas quotas reserves st).2.

(** The states of a manager created with a policy and quotas. *)
Definition manager_reachable (p : ExecutionAdmissionPolicy)
    (quotas : list (ExecutionResourceKind * ResourceQuota)) (st : ManagerState) : Prop :=
  Forall (fun kq => quota_within cap kq.1 kq.2) quotas
  /\ rtc manager_step (from_validated_policy p quotas) st.

Lemma manager_step_inv st st' :
  (forall k, cap k < usize_max)%N -> manager_step st st' -> ManagerInv cap st ->
  ManagerInv cap st'.
Proof.
  intros Hcap []; eauto using admit_inv, evaluate_and_grant_inv, finish_registration_inv,
    release_lease_inv, record_observation_inv, update_quota_inv, reconcile_quotas_inv.
Qed.

Lemma fresh_resources_lookup (l : list (ExecutionResourceKind * ResourceQuota)) :
  forall (m : gmap ExecutionResourceKind ResourceState) k r,
  foldl (fun m kq => <[kq.1 := fresh_resource kq.2]> m) m l !! k = Some r ->
  m !! k = Some r \/ exists q, (k, q) ∈ l /\ r = fresh_resource q.
Proof.
  induction l as [|[k0 q0] l IH]; intros m k r; cbn; [by left|].
  intros [H|(q & ? & ->)]%IH; [|right; exists q; by split; [right|]].
  apply lookup_insert_Some in H as [[-> <-]|[_ ?]]; [right; exists q0; by split; [left|] | by left].
Qed.

Lemma from_validated_policy_inv p quotas :
  Forall (fun kq => quota_within cap kq.1 kq.2) quotas ->
  ManagerInv cap (from_validated_policy p quotas).
Proof.
  intros Hq. rewrite Forall_forall in Hq. split; cbn.
  - intros k r Hk. apply fresh_resources_lookup in Hk as [Hk|(q & Hin & ->)]; [done|].
    apply fresh_resource_ok. by apply (Hq (k, q)).
  - split; cbn; try constructor; try apply N.le_0_l. split; intros; apply N.le_0_l.
  - intros w d Hw. by apply not_elem_of_nil in Hw.
  - intros w k r Hw. by apply not_elem_of_nil in Hw.
Qed.

Lemma manager_reachable_inv p quotas st :
  (forall k, cap k < usize_max)%N -> manager_reachable p quotas st -> ManagerInv cap st.
Proof.
  intros Hcap [Hq Hr]. pose proof (from_validated_policy_inv p quotas Hq) as Hinv.
  induction Hr; eauto using manager_step_inv.
Qed.

Lemma register_request_policy r started wc we st :
  ms_policy (register_request r started wc we st).2 = ms_policy st.
Proof.
  unfold register_request. cbv zeta. do 4 (case_match; [done|]).
  pose proof (install_ephemeral_fields (rar_ephemeral_limits r) st) as (_ & Hp & _).
  destruct (install_ephemeral_limits _ _) as [[] ?]; [|done]. by case_match.
Qed.

Lemma admit_policy r started wc we st :
  ms_policy (admit_request kind_debug r started wc we st).2 = ms_policy st.
Proof.
  pose proof (register_request_policy (normalize_request kind_debug r) started wc we st) as H.
  unfold admit_request. by destruct (register_request _ _ _ _ _) as [[[]|] ?].
Qed.

Lemma manager_step_policy st st' : manager_step st st' -> ms_policy st' = ms_policy st.
Proof.
  intros []; cbn; try done.
  - apply admit_policy.
  - unfold evaluate_and_grant. by repeat case_match.
  - unfold record_observation. by case_match.
  - unfold update_quota. by case_match.
  - unfold reconcile_quotas. cbv zeta. by case_match.
Qed.

(** A turn of a waiting request is made of steps. *)
Lemma admit_turn_steps id demands timeout c st :
  rtc manager_step st (admit_turn id demands timeout c st).2.
Proof.
  unfold admit_turn. cbv zeta. pose proof (StepEvaluate st id (tc_now c) (tc_wall c)) as H.
  destruct (evaluate_and_grant _ _ _ st) as [[[receipt|reason ? ?]|e] st1]; cbn [snd] in *.
  - by apply rtc_once.
  - repeat case_match; cbn [snd]; try (by apply rtc_once);
      (eapply rtc_l; [done | apply rtc_once, StepFinish]).
  - eapply rtc_l; [done | apply rtc_once, StepFinish].
Qed.

(** C32. Over every run of the manager, whatever order admissions, grants, releases,
    cancellations, observations and quota changes come in, no resource is
    committed beyond the largest quota ever published for it: the sum of the active
    weights stays below that bound (and is never a wrapped sum), the effective limit
    stays inside the current quota, and the samples stay bounded. *)
Theorem admission_never_overcommits p quotas st :
  (forall k, cap k < usize_max)%N -> manager_reachable p quotas st ->
  map_Forall (fun k r =>
    (active_weight r <= cap k)%N
    /\ (q_minimum (rs_quota r) <= rs_effective_limit r <= q_maximum (rs_quota r))%N
    /\ length (rs_samples r) <= RESOURCE_SAMPLE_CAPACITY) (ms_resources st).
Proof.
  intros Hcap Hr k r Hk.
  destruct (mi_resources _ _ (manager_reachable_inv p quotas st Hcap Hr) k r Hk)
    as (_ & ? & _ & ? & ?). done.
Qed.

(** Over every run the admission queue keeps to its policy: never more pending
    requests than allowed in all, per resolved class and per fairness key; no
    request id is pending twice, or pending and leased; arrival numbers increase
    along the queue. *)
Theorem admission_queue_bounded p quotas st :
  (forall k, cap k < usize_max)%N -> manager_reachable p quotas st ->
  let ws := ms_waiters st in
  (N.of_nat (length ws) <= ap_max_pending_instance p)%N
  /\ (forall c, N.of_nat (class_pending ws c) <= ap_max_pending_per_class p)%N
  /\ (forall key, N.of_nat (key_pending ws key) <= ap_max_pending_per_key p)%N
  /\ NoDup (pd_id <$> ws)
  /\ (forall w k r, w ∈ ws -> ms_resources st !! k = Some r -> rs_active r !! pd_id w = None)
  /\ StronglySorted N.lt (pd_enqueue_sequence <$> ws).
Proof.
  intros Hcap Hr. pose proof (manager_reachable_inv p quotas st Hcap Hr) as [_ [? _ ? (?&?&?)] _ ?].
  assert (ms_policy st = p) as <-; [|by split_and!].
  destruct Hr as [_ Hr]. change p with (ms_policy (from_validated_policy p quotas)).
  clear -Hr. induction Hr as [|a b c Hab _ IH]; [done|]. rewrite IH. by apply manager_step_policy.
Qed.
End Runs.

(** ** Grant and release *)

(** Evaluating a waiter is atomic and complete.  Either it is granted: it leaves the
    queue, its lease with its full weight is added to every demanded resource and
    to no other, each fits the share of its service class, and the receipt repeats
    the request; or it stays where it is and only its wait reason changes.  The
    registration is never lost. *)
Theorem grant_atomic dbg cap p quotas st before w after now wall :
  (forall k, cap k < usize_max)%N -> manager_reachable dbg cap p quotas st ->
  ms_waiters st = before ++ w :: after ->
  (exists receipt m',
     evaluate_and_grant (pd_id w) now wall st
     = (Ok (AttemptGranted receipt), with_resources (with_waiters st (before ++ after)) m')
     /\ gr_request_id receipt = pd_id w /\ gr_demands receipt = pd_demands w
     /\ granted_resources w (ms_resources st) m'
     /\ expired (pd_deadline_at_ms w) wall = false
     /\ forall k wt r, (k, wt) ∈ pd_demands w -> ms_resources st !! k = Some r ->
        (active_weight r + wt <= class_limit st k r (pd_resolved_service_class w))%N)
  \/ exists reason blocker changed,
       evaluate_and_grant (pd_id w) now wall st
       = (Ok (AttemptDeferred reason blocker changed),
          with_waiters st (before ++ with_wait_reason w reason blocker :: after)).
Proof.
  intros Hcap Hr E. pose proof (manager_reachable_inv dbg cap p quotas st Hcap Hr) as Hinv.
  pose proof (evaluate_and_grant_cases cap st before w after now wall Hinv E) as H.
  destruct (evaluate_waiter st before w now wall) as [reason blocker|reason blocker] eqn:Ee.
  - left. destruct H as (m' & Hm' & ->). apply evaluate_grantable in Ee as (Hc & He & _).
    eexists _, m'. split_and!; try done. by apply (grant_fits cap).
  - right. destruct H as (changed & ->). by exists reason, blocker, changed.
Qed.

Lemma release_demands_lookup id ds : forall m k,
  foldl (release_demand id) m ds !! k
  = if decide (k ∈ ds.*1) then (fun r => with_active r (delete id (rs_active r))) <$> m !! k
    else m !! k.
Proof.
  induction ds as [|d ds IH]; intros m k; cbn; [done|]. rewrite IH. unfold release_demand.
  destruct (decide (k = d.1)) as [->|Hne].
  - rewrite (decide_True (P := d.1 ∈ d.1 :: ds.*1)) by left.
    destruct (m !! d.1) as [r|] eqn:E; [rewrite lookup_insert_eq | rewrite E; by case_decide].
    case_decide; cbn; [|done]. unfold with_active. cbn. by rewrite delete_delete_eq.
  - assert (forall x, <[d.1 := x]> m !! k = m !! k) as Hx by (intros; by rewrite lookup_insert_ne).
    rewrite (decide_ext (k ∈ d.1 :: ds.*1) (k ∈ ds.*1)) by set_solver.
    destruct (m !! d.1) as [r|]; by rewrite ?Hx.
Qed.

(** Releasing a lease undoes its grant: what remains is the state before the grant
    without the waiter, less the ephemeral resources nothing refers to any more. *)
Theorem lease_roundtrip dbg cap p quotas st before w after now wall receipt st1 :
  (forall k, cap k < usize_max)%N -> manager_reachable dbg cap p quotas st ->
  ms_waiters st = before ++ w :: after ->
  evaluate_and_grant (pd_id w) now wall st = (Ok (AttemptGranted receipt), st1) ->
  release_lease (gr_request_id receipt) (gr_demands receipt) st1
  = remove_drained_resources (with_waiters st (before ++ after)).
Proof.
  intros Hcap Hr E Hg. pose proof (manager_reachable_inv dbg cap p quotas st Hcap Hr) as Hinv.
  pose proof (evaluate_and_grant_cases cap st before w after now wall Hinv E) as H.
  assert (w ∈ ms_waiters st) as Hw by (rewrite E; set_solver).
  destruct (evaluate_waiter st before w now wall) as [reason blocker|reason blocker].
  2: { destruct H as (changed & H). congruence. }
  destruct H as (m' & Hm' & H). rewrite H in Hg. injection Hg as <- <-.
  unfold release_lease. f_equal. unfold with_resources, with_waiters. cbn. f_equal.
  apply map_eq. intros k. rewrite release_demands_lookup, Hm'.
  destruct (demanded (pd_demands w) k) as [wt|] eqn:Ed.
  - rewrite decide_True.
    2: { apply dec_stable. intros Hno. apply demanded_None in Hno. congruence. }
    destruct (ms_resources st !! k) as [r|] eqn:Er; [|done]. cbn. f_equal. unfold with_active. cbn.
    rewrite delete_insert_id by (by apply (mi_waiting _ _ Hinv w k)). by destruct r.
  - rewrite decide_False; [done|]. by apply demanded_None.
Qed.

(** ** Progress *)

Lemma prec_ltb_irrefl a : prec_ltb a a = false.
Proof. unfold prec_ltb. rewrite !N.ltb_irrefl, !N.eqb_refl. done. Qed.

Lemma prec_ltb_spec a b :
  prec_ltb a b = true <->
  (a.1.1 < b.1.1 \/ a.1.1 = b.1.1 /\ (a.1.2 < b.1.2 \/ a.1.2 = b.1.2 /\ a.2 < b.2))%N.
Proof. unfold prec_ltb. by rewrite !orb_true_iff, !andb_true_iff, !orb_true_iff, !andb_true_iff,
  !N.ltb_lt, !N.eqb_eq. Qed.

Lemma prec_ltb_trans a b c : prec_ltb a b = true -> prec_ltb b c = true -> prec_ltb a c = true.
Proof. rewrite !prec_ltb_spec. lia. Qed.

(** A list has an element that nothing in it precedes. *)
Lemma first_exists {A} (f : A -> N * N * N) (x : A) (l : list A) :
  exists m, m ∈ x :: l /\ forall y, y ∈ x :: l -> prec_ltb (f y) (f m) = false.
Proof.
  revert x. induction l as [|z l IH]; intros x.
  - exists x. split; [left|]. intros y ->%list_elem_of_singleton. apply prec_ltb_irrefl.
  - destruct (IH z) as (m & Hm & Hmin). destruct (prec_ltb (f x) (f m)) eqn:E.
    + exists x. split; [left|]. intros y [->|Hy]%elem_of_cons; [apply prec_ltb_irrefl|].
      specialize (Hmin y Hy). apply not_true_iff_false in Hmin. apply not_true_iff_false.
      contradict Hmin. by eapply prec_ltb_trans.
    + exists m. split; [by right|]. intros y [->|Hy]%elem_of_cons; auto.
Qed.

Lemma demand_sets_overlap_spec a b :
  demand_sets_overlap a b = true <-> exists k, k ∈ a.*1 /\ k ∈ b.*1.
Proof.
  unfold demand_sets_overlap. rewrite existsb_elem_of. setoid_rewrite demands_kind_elem.
  split; [intros (d & ? & ?); exists d.1; split; [by apply elem_of_fst | done]|].
  intros (k & (d & -> & ?)%list_elem_of_fmap & ?). by exists d.
Qed.

Lemma demand_sets_overlap_sym a b : demand_sets_overlap a b = demand_sets_overlap b a.
Proof. apply eq_true_iff_eq. rewrite !demand_sets_overlap_spec. naive_solver. Qed.

(** The scan finds somebody exactly when somebody outranks the waiter. *)
Lemma higher_class_blocker_Some st w now wall : forall rest seen higher,
  is_Some (higher_class_blocker st w now wall seen rest higher) <->
  is_Some higher
  \/ exists a o b, rest = a ++ o :: b /\ outranks st w now wall (seen ++ a) o = true.
Proof.
  induction rest as [|x rest IH]; intros seen higher; cbn [higher_class_blocker].
  - split; [by left|]. intros [?|(a & o & b & E & _)]; [done|]. by destruct a.
  - rewrite IH. clear IH. split.
    + intros [H|(a & o & b & -> & Ho)].
      * destruct (outranks st w now wall seen x) eqn:Ex; [|by left].
        right. exists [], x, rest. by rewrite app_nil_r.
      * right. exists (x :: a), o, b. by rewrite <- app_assoc in Ho.
    + intros [H|(a & o & b & E & Ho)].
      * left. by destruct (_ && _).
      * destruct a as [|y a]; cbn in E; injection E as <- ->.
        -- rewrite app_nil_r in Ho. rewrite Ho. cbn [andb]. left. destruct higher as [[]|]; [|done].
           by destruct (prec_ltb _ _).
        -- right. exists a, o, b. by rewrite <- app_assoc.
Qed.

(** Somebody who could be granted but for the waiters of other classes. *)
Definition candidate (st : ManagerState) (wall : N)
    (bwa : list PendingResourceDemand * PendingResourceDemand) : bool :=
  let '(before, w) := bwa in
  negb (expired (pd_deadline_at_ms w) wall) && pd_scope_feasible w && negb (fifo_blocked before w)
  && bool_decide (capacity_blocker st (pd_demands w) (pd_resolved_service_class w) = None).

(** Every waiter with those before it. *)
Fixpoint positions (seen ws : list PendingResourceDemand) :
  list (list PendingResourceDemand * PendingResourceDemand) :=
  match ws with [] => [] | w :: rest => (seen, w) :: positions (seen ++ [w]) rest end.

Lemma elem_of_positions ws : forall seen before w,
  (before, w) ∈ positions seen ws <-> exists a b, before = seen ++ a /\ ws = a ++ w :: b.
Proof.
  induction ws as [|x ws IH]; intros seen before w; cbn [positions].
  - split; [intros H; by apply not_elem_of_nil in H|]. intros (a & b & _ & E). by destruct a.
  - rewrite elem_of_cons, IH. split.
    + intros [[= -> ->]|(a & b & -> & ->)]; [exists [], ws; by rewrite app_nil_r|].
      exists (x :: a), b. by rewrite <- app_assoc.
    + intros (a & b & -> & E). destruct a as [|y a]; cbn in E; injection E as <- ->.
      * left. by rewrite app_nil_r.
      * right. exists a, b. by rewrite <- app_assoc.
Qed.

Lemma outranks_candidate st w now wall seen o :
  outranks st w now wall seen o = true ->
  candidate st wall (seen, o) = true
  /\ prec_ltb (scheduling_precedence o now (ap_aging_interval (ms_policy st)))
       (scheduling_precedence w now (ap_aging_interval (ms_policy st))) = true.
Proof.
  unfold outranks, candidate. rewrite !andb_true_iff, !negb_true_iff.
  intros ((((((_ & _) & Hf) & He) & Hfifo) & Hc) & Hp). by rewrite Hf, He, Hfifo, Hc.
Qed.

Lemma candidate_not_class_blocked st before w now :
  fifo_blocked before w = false -> same_class_precedence_blocker st before w now = None.
Proof.
  unfold fifo_blocked, same_class_precedence_blocker. rewrite existsb_false. intros H.
  destruct (List.find _ before) as [e|] eqn:Ef; [|done]. exfalso.
  apply List.find_some in Ef as [Hin Hp]. rewrite !andb_true_iff in Hp. destruct Hp as [[Hc Ho] _].
  apply list_elem_of_In in Hin. specialize (H e Hin). rewrite demand_sets_overlap_sym in Ho.
  by rewrite Hc, Ho in H.
Qed.

Definition grantable (st : ManagerState) (now wall : N) : Prop :=
  exists before w after reason blocker, ms_waiters st = before ++ w :: after
  /\ evaluate_waiter st before w now wall = EvalGrantable reason blocker.

Lemma evaluate_candidate st before w now wall :
  candidate st wall (before, w) = true ->
  higher_class_blocker st w now wall [] (ms_waiters st) None = None ->
  evaluate_waiter st before w now wall = EvalGrantable (pd_last_wait_reason w) (pd_last_blocker w).
Proof.
  unfold candidate. rewrite !andb_true_iff, !negb_true_iff, bool_decide_eq_true.
  intros [[[He Hf] Hfifo] Hc] Hh. unfold evaluate_waiter.
  by rewrite He, Hf, (candidate_not_class_blocked st before w now Hfifo), Hc, Hh.
Qed.

(** The first of the candidates is grantable. *)
Lemma candidate_grantable st before w after now wall :
  ms_waiters st = before ++ w :: after -> candidate st wall (before, w) = true ->
  grantable st now wall.
Proof.
  intros E Hc. set (cs := List.filter (candidate st wall) (positions [] (ms_waiters st))).
  assert (Hcs : forall b x, (b, x) ∈ cs <->
    (exists a, ms_waiters st = b ++ x :: a) /\ candidate st wall (b, x) = true).
  { intros b x. unfold cs. rewrite elem_of_filterb, elem_of_positions. naive_solver. }
  assert ((before, w) ∈ cs) as Hin by (apply Hcs; eauto).
  destruct cs as [|c cs'] eqn:Ecs; [by apply not_elem_of_nil in Hin|].
  destruct (first_exists (fun bw => scheduling_precedence bw.2 now (ap_aging_interval (ms_policy st)))
    c cs') as ([b x] & Hx & Hmin). apply Hcs in Hx as [[a Ea] Hcx].
  exists b, x, a. do 2 eexists. split; [done|]. apply evaluate_candidate; [done|].
  apply eq_None_not_Some. rewrite higher_class_blocker_Some.
  intros [[? [=]]|(b2 & o & a2 & Eo & [Ho Hp]%outranks_candidate)].
  specialize (Hmin (b2, o)). cbn in Hmin. rewrite Hmin in Hp; [done|]. apply Hcs. eauto.
Qed.

Lemma least_not_class_blocked p next st before w after now :
  queue_ok p next (ms_waiters st) -> ms_waiters st = before ++ w :: after ->
  (forall e, e ∈ ms_waiters st ->
     prec_ltb (scheduling_precedence e now (ap_aging_interval (ms_policy st)))
       (scheduling_precedence w now (ap_aging_interval (ms_policy st))) = false) ->
  same_class_precedence_blocker st before w now = None.
Proof.
  intros [_ _ Hseq _] E Hmin. unfold same_class_precedence_blocker.
  destruct (List.find _ before) as [e|] eqn:Ef; [|done]. exfalso.
  apply List.find_some in Ef as [Hin Hp]. apply list_elem_of_In in Hin.
  rewrite !andb_true_iff, negb_true_iff in Hp. destruct Hp as [_ Hp].
  assert (e ∈ ms_waiters st) as He by (rewrite E; set_solver). specialize (Hmin e He).
  rewrite <- not_true_iff_false, prec_ltb_spec in Hp, Hmin. cbn in Hp, Hmin.
  rewrite E, fmap_app in Hseq. apply list_elem_of_split in Hin as (b1 & b2 & ->).
  rewrite fmap_app, <- app_assoc in Hseq. cbn in Hseq.
  assert (pd_enqueue_sequence e < pd_enqueue_sequence w)%N; [|lia].
  clear -Hseq. induction (pd_enqueue_sequence <$> b1) as [|y l IH]; cbn in Hseq;
    apply StronglySorted_inv in Hseq as [Hs Hy]; [|by apply IH].
  rewrite Forall_app, Forall_cons in Hy. apply Hy.
Qed.

(** The queue never blocks on its own order.  A waiter put off for another service
    class means that some waiter can be granted now; and a non-empty queue always
    has a waiter that can be granted, or waits for capacity, or has expired. *)
Theorem admission_progress dbg cap p quotas st now wall :
  (forall k, cap k < usize_max)%N -> manager_reachable dbg cap p quotas st ->
  (forall before w after blocker, ms_waiters st = before ++ w :: after ->
     evaluate_waiter st before w now wall = EvalDeferred WaitHigherServiceClass blocker ->
     grantable st now wall)
  /\ (ms_waiters st <> [] ->
      grantable st now wall
      \/ exists before w after reason blocker, ms_waiters st = before ++ w :: after
         /\ evaluate_waiter st before w now wall = EvalDeferred reason blocker
         /\ (reason = WaitCapacity \/ reason = WaitDeadlineExpired)).
Proof.
  intros Hcap Hr. pose proof (manager_reachable_inv dbg cap p quotas st Hcap Hr) as Hinv.
  assert (Hhigher : forall w x, higher_class_blocker st w now wall [] (ms_waiters st) None = Some x ->
            grantable st now wall).
  { intros w x Hx. destruct (proj1 (higher_class_blocker_Some st w now wall (ms_waiters st) [] None))
      as [[? [=]]|(b & o & a & E & [Ho _]%outranks_candidate)]; [by eexists|].
    by eapply candidate_grantable. }
  split.
  - intros before w after blocker E. unfold evaluate_waiter.
    do 2 (case_match; [done|]). do 2 (case_match; [done|]). case_match; [|done]. intros _. eauto.
  - intros Hne. destruct (ms_waiters st) as [|x ws] eqn:Ews; [done|].
    destruct (first_exists (fun w => scheduling_precedence w now (ap_aging_interval (ms_policy st)))
      x ws) as (w & Hw & Hmin). rewrite <- Ews in *.
    apply list_elem_of_split in Hw as (before & after & E).
    destruct (evaluate_waiter st before w now wall) as [?|reason blocker] eqn:Ee.
    + left. by exists before, w, after, wait_reason, blocker.
    + pose proof (mi_queue _ _ Hinv) as Hq.
      pose proof (least_not_class_blocked _ _ st before w after now Hq E Hmin) as Hfifo.
      assert (pd_scope_feasible w = true) as Hf.
      { pose proof (qo_waiters _ _ _ Hq) as Hall. rewrite Forall_forall in Hall.
        apply (Hall w). rewrite E. set_solver. }
      pose proof Ee as Ee'. unfold evaluate_waiter in Ee'. rewrite Hf, Hfifo in Ee'. cbn in Ee'.
      destruct (expired _ _); [injection Ee' as <- <-; right; by do 5 eexists; eauto|].
      destruct (capacity_blocker _ _ _); [injection Ee' as <- <-; right; by do 5 eexists; eauto|].
      destruct (higher_class_blocker _ _ _ _ _ _ _) eqn:Eh; [left; by eapply Hhigher | done].
Qed.

(** ** A demand that is admitted and never granted *)

(** The demand of a waiter exceeds what its class may ever fill. *)
Definition oversized (st : ManagerState) (w : PendingResourceDemand) : Prop :=
  pd_resolved_service_class w <> Interactive
  /\ exists k wt r, (k, wt) ∈ pd_demands w /\ ms_resources st !! k = Some r
     /\ (0 < wt)%N /\ (q_maximum (rs_quota r) < default 0 (ms_reserves st !! k) + wt)%N.

(** A demand is checked against the quota's maximum, but granted against the maximum
    less the interactive reserve.  A waiter below the interactive class whose demand
    lies between the two was admitted and is never granted, at any time, for as long
    as quota and reserve stand; without a deadline it waits for ever, at the head
    of its class. *)
Theorem oversized_demand_never_granted dbg cap p quotas st before w after now wall :
  (forall k, cap k < usize_max)%N -> manager_reachable dbg cap p quotas st ->
  ms_waiters st = before ++ w :: after -> oversized st w ->
  exists reason blocker changed,
    evaluate_and_grant (pd_id w) now wall st
    = (Ok (AttemptDeferred reason blocker changed),
       with_waiters st (before ++ with_wait_reason w reason blocker :: after)).
Proof.
  intros Hcap Hr E (Hclass & k & wt & r & Hd & Hk & Hpos & Hover).
  pose proof (manager_reachable_inv dbg cap p quotas st Hcap Hr) as Hinv.
  pose proof (evaluate_and_grant_cases cap st before w after now wall Hinv E) as H.
  destruct (evaluate_waiter st before w now wall) as [reason blocker|reason blocker] eqn:Ee.
  - apply evaluate_grantable in Ee as (Hc & _).
    pose proof (grant_fits cap st w Hcap Hinv Hc k wt r Hd Hk) as Hfit.
    destruct (mi_resources _ _ Hinv k r Hk) as (_ & [_ Hl] & _).
    unfold class_limit in Hfit. rewrite decide_False in Hfit by done.
    lia.
  - destruct H as (changed & ->). by exists reason, blocker, changed.
Qed.

(** ** A run *)

Definition sample_cap (_ : ExecutionResourceKind) : N := 10.
Definition sample_debug (_ : ExecutionResourceKind) : string := "Tool".
Definition sample_quota : ResourceQuota := {| q_minimum := 1; q_target := 10; q_maximum := 10 |}.
Definition sample_request (id : N) (c : ExecutionServiceClass) (weight : N) :
  ResourceAdmissionRequest := request_new sample_debug id c [(ToolResource, weight)].

(** A reserve of four of ten; an interactive request of six, a background one of eight. *)
Definition run0 : ManagerState :=
  from_validated_policy ExecutionAdmissionPolicy_default [(ToolResource, sample_quota)].
Definition run1 : ManagerState :=
  (reconcile_quotas [(ToolResource, sample_quota)] [(ToolResource, 4%N)] run0).2.
Definition run2 : ManagerState :=
  (admit_request sample_debug (sample_request 1 Interactive 6) 0 0 0 run1).2.
Definition run3 : ManagerState :=
  (admit_request sample_debug (sample_request 2 Background 8) 0 0 0 run2).2.
Definition run4 : ManagerState := (evaluate_and_grant 1 5 5 run3).2.

Definition sample_reachable : ManagerState -> Prop :=
  manager_reachable sample_debug sample_cap ExecutionAdmissionPolicy_default
    [(ToolResource, sample_quota)].

Example background_queued :
  (admit_request sample_debug (sample_request 2 Background 8) 0 0 0 run2).1 = Ok (RegQueued 1 0 1 2).
Proof. vm_compute. reflexivity. Qed.

Lemma sample_cap_small k : (sample_cap k < usize_max)%N.
Proof. reflexivity. Qed.

Lemma sample_quotas_within :
  Forall (fun kq => quota_within sample_cap kq.1 kq.2) [(ToolResource, sample_quota)].
Proof. by repeat constructor. Qed.

Lemma run3_reachable : sample_reachable run3.
Proof.
  split; [apply sample_quotas_within|].
  eapply rtc_l; [apply (StepReconcile _ _ _ [(ToolResource, sample_quota)] [(ToolResource, 4%N)]), sample_quotas_within|].
  eapply rtc_l; [apply (StepAdmit _ _ _ (sample_request 1 Interactive 6) 0 0 0); [constructor|]|].
  { vm_compute. reflexivity. }
  eapply rtc_l; [apply (StepAdmit _ _ _ (sample_request 2 Background 8) 0 0 0); [constructor|]|].
  { vm_compute. reflexivity. }
  apply rtc_refl.
Qed.

Lemma run4_reachable : sample_reachable run4.
Proof.
  destruct run3_reachable as [Hq Hr]. split; [done|]. eapply rtc_r; [done|]. apply StepEvaluate.
Qed.

Definition first_waiter : PendingResourceDemand :=
  pending_demand (sample_request 1 Interactive 6) 0 0 0 1.
Definition second_waiter : PendingResourceDemand :=
  pending_demand (sample_request 2 Background 8) 1 0 0 1.

Lemma admission_never_overcommits_witness :
  map_Forall (fun k r =>
    (active_weight r <= sample_cap k)%N
    /\ (q_minimum (rs_quota r) <= rs_effective_limit r <= q_maximum (rs_quota r))%N
    /\ length (rs_samples r) <= RESOURCE_SAMPLE_CAPACITY) (ms_resources run4).
Proof.
  apply (admission_never_overcommits _ _ _ _ run4 sample_cap_small run4_reachable).
Defined.

Lemma admission_queue_bounded_witness : NoDup (pd_id <$> ms_waiters run3).
Proof. apply (admission_queue_bounded _ _ _ _ run3 sample_cap_small run3_reachable). Defined.

Lemma grant_atomic_witness :
  exists a st', evaluate_and_grant 1 5 5 run3 = (Ok a, st').
Proof.
  destruct (grant_atomic _ _ _ _ run3 [] first_waiter [second_waiter] 5 5
    sample_cap_small run3_reachable) as [(r & m & H & _)|(r & b & c & H)];
    [vm_compute; reflexivity | do 2 eexists; exact H ..].
Defined.

Lemma lease_roundtrip_witness :
  exists receipt, (evaluate_and_grant 1 5 5 run3).1 = Ok (AttemptGranted receipt)
  /\ release_lease (gr_request_id receipt) (gr_demands receipt) run4
     = remove_drained_resources (with_waiters run3 [second_waiter]).
Proof.
  exists (grant_receipt first_waiter 5 5 None None). split; [vm_compute; reflexivity|].
  apply (lease_roundtrip _ _ _ _ run3 [] first_waiter [second_waiter] 5 5 _ run4
    sample_cap_small run3_reachable); vm_compute; reflexivity.
Defined.

Lemma admission_progress_witness :
  grantable run3 5 5
  \/ exists before w after reason blocker, ms_waiters run3 = before ++ w :: after
     /\ evaluate_waiter run3 before w 5 5 = EvalDeferred reason blocker
     /\ (reason = WaitCapacity \/ reason = WaitDeadlineExpired).
Proof.
  apply (proj2 (admission_progress _ _ _ _ run3 5 5 sample_cap_small run3_reachable)).
  vm_compute. discriminate.
Defined.

Lemma oversized_demand_never_granted_witness :
  exists reason blocker changed,
    evaluate_and_grant 2 5 5 run3
    = (Ok (AttemptDeferred reason blocker changed),
       with_waiters run3 [first_waiter; with_wait_reason second_waiter reason blocker]).
Proof.
  apply (oversized_demand_never_granted _ _ _ _ run3 [first_waiter] second_waiter [] 5 5
    sample_cap_small run3_reachable); [vm_compute; reflexivity|].
  split; [done|]. exists ToolResource, 8%N, (default (fresh_resource sample_quota) (ms_resources run3 !! ToolResource)).
  split; [left|]. split; [vm_compute; reflexivity|]. split; vm_compute; reflexivity.
Defined.
