(* ===== verification/AgentAction.v ===== *)
(** * Agent actions

    [harness-contract/src/agent_action.rs]: what an agent, a root or the runtime
    may ask of a collaboration program, the identity the runtime binds to the
    request, and the form every request must have before it reaches the program. *)

From S2P Require Import Prelude Approval.

(** ** Inputs *)

Record StateInspectInput := {
  sii_query : option string;
  sii_wait_for_workers : bool;
  sii_scope_ref : option string;
  sii_after_revision : option N;
  sii_page_cursor : option string;
  sii_entry_ref : option string
}.

Record TeamCreateInput := {
  tci_name : string;
  tci_mission : string;
  tci_objective : option string
}.

Record AgentInviteInput := {
  aii_team_ref : string;
  aii_role : string;
  aii_mission : string;
  aii_required_capabilities : list string;
  aii_existing_agent_ref : option string;
  aii_definition_ref : option string;
  aii_model_profile_ref : option string;
  aii_expertise_hints : list string;
  aii_execution_requirements : list string
}.

Inductive TaskPurpose := PurposeDelivery | PurposeExploration.

Record TaskPublishInput := {
  tpi_team_ref : string;
  tpi_title : string;
  tpi_objective : string;
  tpi_acceptance : string;
  tpi_acceptance_checks : list string;
  tpi_required_capabilities : list string;
  tpi_depends_on : list string;
  tpi_obligation_refs : list string;
  tpi_purpose : TaskPurpose;
  tpi_execution_requirements : list string;
  tpi_expertise_hints : list string
}.

Record TaskClaimInput := { tcl_task_ref : string; tcl_reason : option string }.

Record TaskReleaseInput := { trl_task_ref : string; trl_reason : string }.

Record TaskSupersedeInput := {
  tsi_task_ref : string;
  tsi_replacement_task_refs : list string;
  tsi_reason : string;
  tsi_evidence_refs : list string
}.

Record TaskWithdrawInput := {
  twi_task_ref : string;
  twi_reason_ref : string;
  twi_evidence_refs : list string
}.

Inductive AgentAttemptMode := AmExecute | AmReview | AmCoordination.

#[export] Instance AgentAttemptMode_eq_dec : EqDecision AgentAttemptMode.
Proof. solve_decision. Defined.

Record TaskAttemptFailInput := {
  tfi_task_ref : string;
  tfi_execution_id : string;
  tfi_mode : AgentAttemptMode;
  tfi_reason : string;
  tfi_retryable : bool
}.

Record TaskAttemptDispatchInput := {
  tdi_task_ref : string;
  tdi_execution_id : string;
  tdi_agent_ref : string;
  tdi_membership_id : string;
  tdi_mode : AgentAttemptMode;
  tdi_generation : N
}.

Record TaskSubmitInput := {
  tsu_task_ref : string;
  tsu_artifact_refs : list string;
  tsu_evidence_refs : list string;
  tsu_unresolved : list string
}.

Inductive TaskReviewDecision := RvAccept | RvChallenge | RvRework.

Record TaskReviewInput := {
  tri_task_ref : string;
  tri_decision : TaskReviewDecision;
  tri_reason : string;
  tri_evidence_refs : list string
}.

Inductive IssueDispositionKind := IdMustResolve | IdDisclose | IdResolved.

Record IssueDisposition := {
  isd_issue_ref : string;
  isd_disposition : IssueDispositionKind;
  isd_reason_ref : string;
  isd_evidence_refs : list string
}.

Inductive TaskIntentKind := InOffer | InDecline | InRequestHelp.

#[export] Instance TaskIntentKind_eq_dec : EqDecision TaskIntentKind.
Proof. solve_decision. Defined.

Record TaskIntent := {
  ti_task_ref : string;
  ti_kind : TaskIntentKind;
  ti_reason_ref : option string;
  ti_requested_capability_refs : list string
}.

#[export] Instance TaskIntent_eq_dec : EqDecision TaskIntent.
Proof. solve_decision. Defined.

Record MessagePublishInput := {
  mpi_topic_ref : string;
  mpi_summary : option string;
  mpi_content_ref : option string;
  mpi_refs : list string;
  mpi_recipients : list string;
  mpi_intent : option TaskIntent;
  mpi_issue_dispositions : list IssueDisposition
}.

Inductive ObjectiveUpdateOperation := OuAdd | OuReplace | OuRetire.

Record ObjectiveUpdateInput := {
  oui_criterion_ref : option string;
  oui_operation : ObjectiveUpdateOperation;
  oui_statement_ref : option string;
  oui_source_refs : list string;
  oui_reason_ref : option string;
  oui_evidence_requirements : list string
}.

Inductive ObjectiveReviewDecision := OrSatisfied | OrGap | OrBlocked.

Record ObjectiveReviewInput := {
  ori_criterion_ref : string;
  ori_decision : ObjectiveReviewDecision;
  ori_result_refs : list string;
  ori_evidence_refs : list string;
  ori_reason_ref : string
}.

Inductive MembershipOperation := MoJoin | MoLeave.

Record MembershipUpdateInput := {
  mui_agent_ref : string;
  mui_team_ref : string;
  mui_operation : MembershipOperation;
  mui_reason_ref : option string
}.

Record TeamUpdateInput := {
  tui_team_ref : string;
  tui_mission_ref : option string;
  tui_request_retire : bool;
  tui_reason_ref : option string
}.

Record ArtifactCommitInput := {
  aci_content_ref : string;
  aci_kind : string;
  aci_title : string;
  aci_relates_to : list string
}.

Record ObjectiveCompleteRequestInput := {
  oci_result_refs : list string;
  oci_evidence_refs : list string;
  oci_unresolved : list string
}.

(** ** Actions and their actor *)

Inductive AgentAction :=
| StateInspect (i : StateInspectInput)
| TeamCreate (i : TeamCreateInput)
| AgentInvite (i : AgentInviteInput)
| TaskPublish (i : TaskPublishInput)
| TaskClaim (i : TaskClaimInput)
| TaskRelease (i : TaskReleaseInput)
| TaskSupersede (i : TaskSupersedeInput)
| TaskWithdraw (i : TaskWithdrawInput)
| TaskAttemptDispatch (i : TaskAttemptDispatchInput)
| TaskAttemptFail (i : TaskAttemptFailInput)
| TaskSubmit (i : TaskSubmitInput)
| TaskReview (i : TaskReviewInput)
| MessagePublish (i : MessagePublishInput)
| ArtifactCommit (i : ArtifactCommitInput)
| ObjectiveUpdate (i : ObjectiveUpdateInput)
| ObjectiveReview (i : ObjectiveReviewInput)
| MembershipUpdate (i : MembershipUpdateInput)
| TeamUpdate (i : TeamUpdateInput)
| ObjectiveCompleteRequest (i : ObjectiveCompleteRequestInput).

(** [AgentAction::kind] *)
Definition action_kind (a : AgentAction) : string :=
  match a with
  | StateInspect _ => "state_inspect"
  | TeamCreate _ => "team_create"
  | AgentInvite _ => "agent_invite"
  | TaskPublish _ => "task_publish"
  | TaskClaim _ => "task_claim"
  | TaskRelease _ => "task_release"
  | TaskSupersede _ => "task_supersede"
  | TaskWithdraw _ => "task_withdraw"
  | TaskAttemptDispatch _ => "task_attempt_dispatch_internal"
  | TaskAttemptFail _ => "task_attempt_fail_internal"
  | TaskSubmit _ => "task_submit"
  | TaskReview _ => "task_review"
  | MessagePublish _ => "message_publish"
  | ArtifactCommit _ => "artifact_commit"
  | ObjectiveUpdate _ => "objective_update"
  | ObjectiveReview _ => "objective_review"
  | MembershipUpdate _ => "membership_update"
  | TeamUpdate _ => "team_update"
  | ObjectiveCompleteRequest _ => "objective_complete_request"
  end.

Inductive AgentActorKind := AkRoot | AkTeamLead | AkAgent | AkSupervisor.

#[export] Instance AgentActorKind_eq_dec : EqDecision AgentActorKind.
Proof. solve_decision. Defined.

(** [matches!(kind, Agent | TeamLead)] and [matches!(kind, Root | Supervisor)] *)
Definition is_managed (k : AgentActorKind) : bool :=
  match k with AkAgent | AkTeamLead => true | AkRoot | AkSupervisor => false end.

Definition is_organizer (k : AgentActorKind) : bool := negb (is_managed k).

Record AgentActorBinding := {
  ab_objective_id : string;
  ab_program_id : string;
  ab_session_id : string;
  ab_turn_id : string;
  ab_root_execution_id : option string;
  ab_required_team_count : N;
  ab_objective_summary : string;
  ab_model_lease : string;
  ab_permission_ceiling : option PermissionMode;
  ab_resource_scopes : list string;
  ab_actor_id : string;
  ab_kind : AgentActorKind;
  ab_execution_id : option string;
  ab_team_id : option string;
  ab_agent_id : option string
}.

Record AgentActionEnvelope := {
  ae_action_id : string;
  ae_actor : AgentActorBinding;
  ae_expected_revision : option N;
  ae_action : AgentAction
}.

(** ** The form of a request *)

Inductive AgentActionValidationError :=
| VeMissing (field : string)
| VeEmpty (field : string)
| VeDuplicate (field : string)
| VeInvalid (field : string).

Abbreviation Checked := (Result AgentActionValidationError unit).

Definition required (field value : string) : Checked := guard_err (trim_is_empty value) (VeEmpty field).

Definition optional_nonempty (field : string) (value : option string) : Checked :=
  match value with Some v => required field v | None => Ok tt end.

Definition unique_nonempty (field : string) (values : list string) : Checked :=
  _ ← try_fold (fun (unique : gset string) value =>
        _ ← required field value;
        if bool_decide (trim value ∈ unique) then Err (VeDuplicate field)
        else Ok ({[trim value]} ∪ unique)) ∅ values;
  Ok tt.

Definition missing_if (cond : bool) (field : string) : Checked := guard_err cond (VeMissing field).

Definition is_none {A} (o : option A) : bool := match o with None => true | Some _ => false end.
Definition is_some {A} (o : option A) : bool := negb (is_none o).
Definition is_nil {A} (l : list A) : bool := match l with [] => true | _ :: _ => false end.

Definition validate_issue_disposition (u : unit) (item : IssueDisposition) : Checked :=
  _ ← required "issue_dispositions.issue_ref" (isd_issue_ref item);
  _ ← required "issue_dispositions.reason_ref" (isd_reason_ref item);
  _ ← unique_nonempty "issue_dispositions.evidence_refs" (isd_evidence_refs item);
  missing_if (is_nil (isd_evidence_refs item)) "issue_dispositions.evidence_refs".

Definition validate_objective_update (i : ObjectiveUpdateInput) : Checked :=
  _ ← optional_nonempty "criterion_ref" (oui_criterion_ref i);
  _ ← optional_nonempty "statement_ref" (oui_statement_ref i);
  _ ← optional_nonempty "reason_ref" (oui_reason_ref i);
  _ ← unique_nonempty "source_refs" (oui_source_refs i);
  _ ← unique_nonempty "evidence_requirements" (oui_evidence_requirements i);
  match oui_operation i with
  | OuAdd =>
      _ ← missing_if (is_none (oui_statement_ref i)) "statement_ref";
      missing_if (is_nil (oui_source_refs i)) "source_refs"
  | OuReplace | OuRetire =>
      _ ← missing_if (is_none (oui_criterion_ref i)) "criterion_ref";
      _ ← missing_if (is_nil (oui_source_refs i)) "source_refs";
      missing_if (is_none (oui_reason_ref i)) "reason_ref"
  end.

Definition validate_message (i : MessagePublishInput) : Checked :=
  _ ← required "topic_ref" (mpi_topic_ref i);
  _ ← optional_nonempty "summary" (mpi_summary i);
  _ ← optional_nonempty "content_ref" (mpi_content_ref i);
  _ ← missing_if (is_none (mpi_summary i) && is_none (mpi_content_ref i)) "summary_or_content_ref";
  _ ← unique_nonempty "refs" (mpi_refs i);
  _ ← unique_nonempty "recipients" (mpi_recipients i);
  _ ← unique_nonempty "issue_dispositions.issue_ref" (map isd_issue_ref (mpi_issue_dispositions i));
  _ ← try_fold validate_issue_disposition tt (mpi_issue_dispositions i);
  match mpi_intent i with
  | None => Ok tt
  | Some intent =>
      _ ← required "intent.task_ref" (ti_task_ref intent);
      _ ← optional_nonempty "intent.reason_ref" (ti_reason_ref intent);
      unique_nonempty "intent.requested_capability_refs" (ti_requested_capability_refs intent)
  end.

Definition validate_supersede_form (i : TaskSupersedeInput) : Checked :=
  _ ← required "task_ref" (tsi_task_ref i);
  _ ← required "reason" (tsi_reason i);
  _ ← missing_if (is_nil (tsi_replacement_task_refs i)) "replacement_task_refs";
  _ ← missing_if (is_nil (tsi_evidence_refs i)) "evidence_refs";
  _ ← unique_nonempty "replacement_task_refs" (tsi_replacement_task_refs i);
  _ ← unique_nonempty "evidence_refs" (tsi_evidence_refs i);
  guard_err (memb (tsi_replacement_task_refs i) (tsi_task_ref i))
    (VeDuplicate "task_ref_in_replacement_task_refs").

(** [AgentAction::validate] *)
Definition validate_action (a : AgentAction) : Checked :=
  match a with
  | StateInspect i =>
      _ ← optional_nonempty "scope_ref" (sii_scope_ref i);
      _ ← optional_nonempty "entry_ref" (sii_entry_ref i);
      _ ← optional_nonempty "page_cursor" (sii_page_cursor i);
      _ ← optional_nonempty "query" (sii_query i);
      guard_err ((is_some (sii_page_cursor i) || is_some (sii_query i))
                 && (is_some (sii_scope_ref i) || is_some (sii_entry_ref i)))
        (VeInvalid "page_cursor_with_exact_ref")
  | TeamCreate i =>
      _ ← required "name" (tci_name i);
      _ ← required "mission" (tci_mission i);
      optional_nonempty "objective" (tci_objective i)
  | AgentInvite i =>
      _ ← required "team_ref" (aii_team_ref i);
      _ ← required "role" (aii_role i);
      _ ← required "mission" (aii_mission i);
      unique_nonempty "required_capabilities" (aii_required_capabilities i)
  | TaskPublish i =>
      _ ← required "team_ref" (tpi_team_ref i);
      _ ← required "title" (tpi_title i);
      _ ← required "objective" (tpi_objective i);
      _ ← required "acceptance" (tpi_acceptance i);
      _ ← unique_nonempty "required_capabilities" (tpi_required_capabilities i);
      unique_nonempty "depends_on" (tpi_depends_on i)
  | TaskClaim i =>
      _ ← required "task_ref" (tcl_task_ref i);
      optional_nonempty "reason" (tcl_reason i)
  | TaskRelease i =>
      _ ← required "task_ref" (trl_task_ref i);
      required "reason" (trl_reason i)
  | TaskSupersede i => validate_supersede_form i
  | TaskWithdraw i =>
      _ ← required "task_ref" (twi_task_ref i);
      _ ← required "reason_ref" (twi_reason_ref i);
      unique_nonempty "evidence_refs" (twi_evidence_refs i)
  | TaskAttemptDispatch i =>
      _ ← required "task_ref" (tdi_task_ref i);
      _ ← required "execution_id" (tdi_execution_id i);
      _ ← required "agent_ref" (tdi_agent_ref i);
      required "membership_id" (tdi_membership_id i)
  | TaskAttemptFail i =>
      _ ← required "task_ref" (tfi_task_ref i);
      _ ← required "execution_id" (tfi_execution_id i);
      required "reason" (tfi_reason i)
  | TaskSubmit i =>
      _ ← required "task_ref" (tsu_task_ref i);
      _ ← missing_if (is_nil (tsu_artifact_refs i)) "artifact_refs";
      _ ← unique_nonempty "artifact_refs" (tsu_artifact_refs i);
      _ ← unique_nonempty "evidence_refs" (tsu_evidence_refs i);
      unique_nonempty "unresolved" (tsu_unresolved i)
  | TaskReview i =>
      _ ← required "task_ref" (tri_task_ref i);
      _ ← required "reason" (tri_reason i);
      unique_nonempty "evidence_refs" (tri_evidence_refs i)
  | MessagePublish i => validate_message i
  | ArtifactCommit i =>
      _ ← required "content_ref" (aci_content_ref i);
      _ ← required "kind" (aci_kind i);
      _ ← required "title" (aci_title i);
      unique_nonempty "relates_to" (aci_relates_to i)
  | ObjectiveUpdate i => validate_objective_update i
  | ObjectiveReview i =>
      _ ← required "criterion_ref" (ori_criterion_ref i);
      _ ← required "reason_ref" (ori_reason_ref i);
      _ ← unique_nonempty "result_refs" (ori_result_refs i);
      _ ← unique_nonempty "evidence_refs" (ori_evidence_refs i);
      missing_if (is_nil (ori_result_refs i) && is_nil (ori_evidence_refs i))
        "result_refs_or_evidence_refs"
  | MembershipUpdate i =>
      _ ← required "agent_ref" (mui_agent_ref i);
      _ ← required "team_ref" (mui_team_ref i);
      optional_nonempty "reason_ref" (mui_reason_ref i)
  | TeamUpdate i =>
      _ ← required "team_ref" (tui_team_ref i);
      _ ← optional_nonempty "mission_ref" (tui_mission_ref i);
      optional_nonempty "reason_ref" (tui_reason_ref i)
  | ObjectiveCompleteRequest i =>
      _ ← missing_if (is_nil (oci_result_refs i)) "result_refs";
      _ ← unique_nonempty "result_refs" (oci_result_refs i);
      _ ← unique_nonempty "evidence_refs" (oci_evidence_refs i);
      unique_nonempty "unresolved" (oci_unresolved i)
  end.

(** [AgentActionEnvelope::validate] *)
Definition validate_envelope (e : AgentActionEnvelope) : Checked :=
  let actor := ae_actor e in
  _ ← required "action_id" (ae_action_id e);
  _ ← required "objective_id" (ab_objective_id actor);
  _ ← required "program_id" (ab_program_id actor);
  _ ← required "session_id" (ab_session_id actor);
  _ ← required "turn_id" (ab_turn_id actor);
  _ ← optional_nonempty "root_execution_id" (ab_root_execution_id actor);
  _ ← required "actor_id" (ab_actor_id actor);
  _ ← optional_nonempty "team_id" (ab_team_id actor);
  _ ← optional_nonempty "agent_id" (ab_agent_id actor);
  _ ← missing_if (is_managed (ab_kind actor)
                  && (is_none (ab_team_id actor) || is_none (ab_agent_id actor)))
        "managed_actor_team_and_agent";
  validate_action (ae_action e).

(** [actor_agent_id] of [agentic/action_service.rs]; it is never [None]. *)
Definition actor_agent_id (e : AgentActionEnvelope) : option string :=
  Some (default (ab_actor_id (ae_actor e)) (ab_agent_id (ae_actor e))).

(** ** What the form gives *)

Lemma managed_bound e :
  validate_envelope e = Ok tt -> is_managed (ab_kind (ae_actor e)) = true ->
  exists team agent, ab_team_id (ae_actor e) = Some team /\ ab_agent_id (ae_actor e) = Some agent.
Proof.
  unfold validate_envelope, missing_if. intros He Hm. ok_inv.
  rewrite Hm in *. destruct (ab_team_id _); [|done]. destruct (ab_agent_id _); [eauto|done].
Qed.

Lemma validated_action e : validate_envelope e = Ok tt -> validate_action (ae_action e) = Ok tt.
Proof. unfold validate_envelope. intros He. ok_inv. done. Qed.

Lemma replacements_not_self i :
  validate_action (TaskSupersede i) = Ok tt ->
  tsi_replacement_task_refs i <> [] /\ tsi_task_ref i ∉ tsi_replacement_task_refs i.
Proof.
  cbn. unfold validate_supersede_form, missing_if. intros He. ok_inv.
  split; [by destruct (tsi_replacement_task_refs i) | by apply memb_false].
Qed.
