(* ===== verification/AgentProgram.v ===== *)
(** * The program of a collaboration

    [runtime/src/agentic/program.rs], with the queries of [coordination.rs] and the
    visibility of topics from [action_service.rs].  A program is the projection of
    its journal: the roster, the tasks, the topics and the artifacts.

    Two structs are kept in groups of fields, after who writes them: a task is its
    contract, its claim, its delivery, its failures and its retirement; a program
    has the binding it was opened with and the outcome it reached. *)

From S2P Require Import Prelude Approval AgentAction.

(** ** Lists and maps, as the source uses them *)

(** [sort(); dedup()] of a vector of strings. *)
Fixpoint dedup_adjacent (l : list string) : list string :=
  match l with
  | x :: (y :: _) as l' => if String.eqb x y then dedup_adjacent l' else x :: dedup_adjacent l'
  | _ => l
  end.

Definition sort_dedup (l : list string) : list string := dedup_adjacent (sort_strings l).

(** [if !l.contains(&x) { l.push(x) }] *)
Definition push_new (x : string) (l : list string) : list string :=
  if memb l x then l else l ++ [x].

(** The first element that satisfies [P], changed in place. *)
Fixpoint update_first {A} (P : A -> bool) (f : A -> A) (l : list A) : list A :=
  match l with
  | [] => []
  | x :: l => if P x then f x :: l else x :: update_first P f l
  end.

(** The first of the values of a map, in the order of the keys, that satisfies [P]. *)
Definition find_value {V} (P : V -> bool) (m : gmap string V) : option V :=
  List.find P (btree_values m).

Definition any_value {V} (P : V -> bool) (m : gmap string V) : bool :=
  existsb P (btree_values m).

(** ** Data *)

Inductive AgenticProgramStatus :=
| PsOpen | PsWaiting | PsCompletionRequested | PsDraining | PsVerified | PsPartial | PsBlocked
| PsFailed | PsCancelled.

#[export] Instance AgenticProgramStatus_eq_dec : EqDecision AgenticProgramStatus.
Proof. solve_decision. Defined.

Inductive AgenticTeamLifecycle := TlActive | TlDraining | TlRetired.

#[export] Instance AgenticTeamLifecycle_eq_dec : EqDecision AgenticTeamLifecycle.
Proof. solve_decision. Defined.

Record AgenticTeamProjection := {
  tm_team_id : string;
  tm_name : string;
  tm_mission : string;
  tm_objective : option string;
  tm_topic_ref : string;
  tm_created_by : string;
  tm_member_ids : list string;
  tm_task_ids : list string;
  tm_lifecycle : AgenticTeamLifecycle
}.

Record AgentMemberProjection := {
  mb_agent_id : string;
  mb_display_name : string;
  mb_role : string;
  mb_mission : string;
  mb_required_capabilities : list string;
  mb_invited_by : string;
  mb_membership_ids : list string;
  mb_definition_ref : option string;
  mb_model_profile_ref : option string;
  mb_expertise_hints : list string;
  mb_execution_requirements : list string
}.

Inductive AgenticMembershipLifecycle := MlActive | MlDraining | MlRetired.

#[export] Instance AgenticMembershipLifecycle_eq_dec : EqDecision AgenticMembershipLifecycle.
Proof. solve_decision. Defined.

Record AgenticMembershipProjection := {
  ms_membership_id : string;
  ms_agent_id : string;
  ms_team_id : string;
  ms_lifecycle : AgenticMembershipLifecycle;
  ms_delegation_ref : option string;
  ms_reason_ref : option string;
  ms_created_by : string
}.

(** *** Tasks *)

Inductive AgenticTaskStatus :=
| AtPublished | AtClaimed | AtSubmitted | AtAccepted | AtRework | AtBlocked | AtCancelRequested
| AtWithdrawn | AtSuperseded.

#[export] Instance AgenticTaskStatus_eq_dec : EqDecision AgenticTaskStatus.
Proof. solve_decision. Defined.

(** [{:?}] of a status *)
Definition task_status_debug (s : AgenticTaskStatus) : string :=
  match s with
  | AtPublished => "Published" | AtClaimed => "Claimed" | AtSubmitted => "Submitted"
  | AtAccepted => "Accepted" | AtRework => "Rework" | AtBlocked => "Blocked"
  | AtCancelRequested => "CancelRequested" | AtWithdrawn => "Withdrawn"
  | AtSuperseded => "Superseded"
  end.

(** [AgenticTaskStatus::is_retired] *)
Definition is_retired (s : AgenticTaskStatus) : bool :=
  match s with AtWithdrawn | AtSuperseded => true | _ => false end.

Inductive AgenticTaskRetirement := RetireWithdrawn | RetireSuperseded.

Record AgenticTaskAttemptProjection := {
  at_execution_id : string;
  at_agent_id : string;
  at_membership_id : string;
  at_mode : AgentAttemptMode;
  at_generation : N
}.

(** What publication fixes. *)
Record TaskContract := {
  tk_task_id : string;
  tk_team_id : string;
  tk_title : string;
  tk_objective : string;
  tk_acceptance : string;
  tk_acceptance_checks : list string;
  tk_required_capabilities : list string;
  tk_obligation_refs : list string;
  tk_purpose : TaskPurpose;
  tk_execution_requirements : list string;
  tk_expertise_hints : list string;
  tk_depends_on : list string
}.

Record ClaimFence := {
  tk_claimant : option string;
  tk_claim_generation : N;
  tk_claim_execution_id : option string;
  tk_claimed_at_ms : option N;
  tk_lease_expires_at_ms : option N
}.

Record TaskDelivery := {
  tk_artifact_refs : list string;
  tk_evidence_refs : list string;
  tk_unresolved : list string;
  tk_review_reason : option string;
  tk_reviewed_by : option string
}.

Record TaskFailures := {
  tk_failed_attempts : N;
  tk_review_generation : N;
  tk_failed_review_attempts : N;
  tk_last_failure : option string
}.

Record TaskRetirement := {
  tk_replacement_task_refs : list string;
  tk_supersede_evidence_refs : list string;
  tk_superseded_reason : option string;
  tk_superseded_by : option string;
  tk_cancel_requested_by : option string;
  tk_cancel_reason_ref : option string;
  tk_cancel_evidence_refs : list string;
  tk_pending_retirement : option AgenticTaskRetirement
}.

Record AgenticTaskProjection := {
  tk_contract : TaskContract;
  tk_status : AgenticTaskStatus;
  tk_claim : ClaimFence;
  tk_active_attempts : gmap string AgenticTaskAttemptProjection;
  tk_delivery : TaskDelivery;
  tk_failures : TaskFailures;
  tk_retirement : TaskRetirement
}.

(** The fields most used, through their group. *)
Abbreviation task_id t := (tk_task_id (tk_contract t)).
Abbreviation team_id t := (tk_team_id (tk_contract t)).
Abbreviation depends_on t := (tk_depends_on (tk_contract t)).
Abbreviation claimant t := (tk_claimant (tk_claim t)).
Abbreviation claim_generation t := (tk_claim_generation (tk_claim t)).
Abbreviation claim_execution_id t := (tk_claim_execution_id (tk_claim t)).
Abbreviation lease_expires_at_ms t := (tk_lease_expires_at_ms (tk_claim t)).
Abbreviation artifact_refs t := (tk_artifact_refs (tk_delivery t)).
Abbreviation evidence_refs t := (tk_evidence_refs (tk_delivery t)).
Abbreviation reviewed_by t := (tk_reviewed_by (tk_delivery t)).
Abbreviation failed_attempts t := (tk_failed_attempts (tk_failures t)).
Abbreviation failed_review_attempts t := (tk_failed_review_attempts (tk_failures t)).
Abbreviation replacement_task_refs t := (tk_replacement_task_refs (tk_retirement t)).
Abbreviation pending_retirement t := (tk_pending_retirement (tk_retirement t)).

Definition with_status (s : AgenticTaskStatus) (t : AgenticTaskProjection) : AgenticTaskProjection :=
  {| tk_contract := tk_contract t; tk_status := s; tk_claim := tk_claim t;
     tk_active_attempts := tk_active_attempts t; tk_delivery := tk_delivery t;
     tk_failures := tk_failures t; tk_retirement := tk_retirement t |}.

Definition with_claim (c : ClaimFence) (t : AgenticTaskProjection) : AgenticTaskProjection :=
  {| tk_contract := tk_contract t; tk_status := tk_status t; tk_claim := c;
     tk_active_attempts := tk_active_attempts t; tk_delivery := tk_delivery t;
     tk_failures := tk_failures t; tk_retirement := tk_retirement t |}.

Definition with_attempts (m : gmap string AgenticTaskAttemptProjection)
    (t : AgenticTaskProjection) : AgenticTaskProjection :=
  {| tk_contract := tk_contract t; tk_status := tk_status t; tk_claim := tk_claim t;
     tk_active_attempts := m; tk_delivery := tk_delivery t;
     tk_failures := tk_failures t; tk_retirement := tk_retirement t |}.

Definition with_delivery (d : TaskDelivery) (t : AgenticTaskProjection) : AgenticTaskProjection :=
  {| tk_contract := tk_contract t; tk_status := tk_status t; tk_claim := tk_claim t;
     tk_active_attempts := tk_active_attempts t; tk_delivery := d;
     tk_failures := tk_failures t; tk_retirement := tk_retirement t |}.

Definition with_failures (f : TaskFailures) (t : AgenticTaskProjection) : AgenticTaskProjection :=
  {| tk_contract := tk_contract t; tk_status := tk_status t; tk_claim := tk_claim t;
     tk_active_attempts := tk_active_attempts t; tk_delivery := tk_delivery t;
     tk_failures := f; tk_retirement := tk_retirement t |}.

Definition with_retirement (r : TaskRetirement) (t : AgenticTaskProjection) :
  AgenticTaskProjection :=
  {| tk_contract := tk_contract t; tk_status := tk_status t; tk_claim := tk_claim t;
     tk_active_attempts := tk_active_attempts t; tk_delivery := tk_delivery t;
     tk_failures := tk_failures t; tk_retirement := r |}.

(** *** Topics and artifacts *)

Record AgenticCoordinationConsumption := {
  cc_execution_id : string;
  cc_agent_id : string;
  cc_membership_id : string;
  cc_settled : bool;
  cc_reason : option string
}.

Record AgenticTopicEntryProjection := {
  te_entry_id : string;
  te_revision : N;
  te_actor_id : string;
  te_source_execution_id : option string;
  te_intent_generation : option N;
  te_coordination : option AgenticCoordinationConsumption;
  te_summary : option string;
  te_content_ref : option string;
  te_refs : list string;
  te_recipients : list string;
  te_intent : option TaskIntent;
  te_issue_dispositions : list IssueDisposition
}.

Definition with_coordination (c : option AgenticCoordinationConsumption)
    (e : AgenticTopicEntryProjection) : AgenticTopicEntryProjection :=
  {| te_entry_id := te_entry_id e; te_revision := te_revision e; te_actor_id := te_actor_id e;
     te_source_execution_id := te_source_execution_id e;
     te_intent_generation := te_intent_generation e; te_coordination := c;
     te_summary := te_summary e; te_content_ref := te_content_ref e; te_refs := te_refs e;
     te_recipients := te_recipients e; te_intent := te_intent e;
     te_issue_dispositions := te_issue_dispositions e |}.

Record AgenticArtifactProjection := {
  ar_artifact_ref : string;
  ar_content_ref : string;
  ar_kind : string;
  ar_title : string;
  ar_relates_to : list string;
  ar_committed_by : string;
  ar_claim_execution_id : option string;
  ar_claim_generation : option N
}.

(** *** The program *)

Record AgenticProgramContinuation := {
  pc_source_program_id : string;
  pc_source_objective_id : string;
  pc_source_root_id : string;
  pc_source_revision : N;
  pc_source_status : AgenticProgramStatus;
  pc_authorization_generation : N;
  pc_authorization_revision : N;
  pc_binding_digest : string
}.

Record AgenticCompletionRequestProjection := {
  cr_action_id : string;
  cr_requested_by : string;
  cr_program_revision : N;
  cr_result_refs : list string;
  cr_primary_artifact_ref : option string;
  cr_evidence_refs : list string;
  cr_unresolved : list string
}.

Inductive ObjectiveTerminalKind :=
| OtSatisfied | OtPartiallySatisfied | OtBlocked | OtFailed | OtCancelled.

#[export] Instance ObjectiveTerminalKind_eq_dec : EqDecision ObjectiveTerminalKind.
Proof. solve_decision. Defined.

Record AgenticObjectiveVerdictProjection := {
  ov_goal_id : string;
  ov_goal_revision : N;
  ov_terminal_fence : string;
  ov_authority_revision : N;
  ov_kind : ObjectiveTerminalKind
}.

Record ProgramBinding := {
  pb_program_id : string;
  pb_objective_id : string;
  pb_session_id : string;
  pb_turn_id : string;
  pb_root_execution_id : option string;
  pb_required_team_count : N;
  pb_objective_summary : string;
  pb_model_lease : string;
  pb_permission_ceiling : PermissionMode;
  pb_resource_scopes : list string;
  pb_continuation : option AgenticProgramContinuation
}.

Record ProgramOutcome := {
  po_final_artifact_ref : option string;
  po_completion_request : option AgenticCompletionRequestProjection;
  po_objective_verdict : option AgenticObjectiveVerdictProjection;
  po_unresolved : list string
}.

Record AgenticProgramProjection := {
  pr_binding : ProgramBinding;
  pr_revision : N;
  pr_status : AgenticProgramStatus;
  pr_teams : gmap string AgenticTeamProjection;
  pr_agents : gmap string AgentMemberProjection;
  pr_memberships : gmap string AgenticMembershipProjection;
  pr_tasks : gmap string AgenticTaskProjection;
  pr_topics : gmap string (list AgenticTopicEntryProjection);
  pr_artifacts : gmap string AgenticArtifactProjection;
  pr_outcome : ProgramOutcome
}.

Abbreviation program_id p := (pb_program_id (pr_binding p)).
Abbreviation required_team_count p := (pb_required_team_count (pr_binding p)).
Abbreviation completion_request p := (po_completion_request (pr_outcome p)).
Abbreviation objective_verdict p := (po_objective_verdict (pr_outcome p)).

Definition with_tasks (m : gmap string AgenticTaskProjection) (p : AgenticProgramProjection) :
  AgenticProgramProjection :=
  {| pr_binding := pr_binding p; pr_revision := pr_revision p; pr_status := pr_status p;
     pr_teams := pr_teams p; pr_agents := pr_agents p; pr_memberships := pr_memberships p;
     pr_tasks := m; pr_topics := pr_topics p; pr_artifacts := pr_artifacts p;
     pr_outcome := pr_outcome p |}.

Definition with_topics (m : gmap string (list AgenticTopicEntryProjection))
    (p : AgenticProgramProjection) : AgenticProgramProjection :=
  {| pr_binding := pr_binding p; pr_revision := pr_revision p; pr_status := pr_status p;
     pr_teams := pr_teams p; pr_agents := pr_agents p; pr_memberships := pr_memberships p;
     pr_tasks := pr_tasks p; pr_topics := m; pr_artifacts := pr_artifacts p;
     pr_outcome := pr_outcome p |}.

Definition with_teams (m : gmap string AgenticTeamProjection) (p : AgenticProgramProjection) :
  AgenticProgramProjection :=
  {| pr_binding := pr_binding p; pr_revision := pr_revision p; pr_status := pr_status p;
     pr_teams := m; pr_agents := pr_agents p; pr_memberships := pr_memberships p;
     pr_tasks := pr_tasks p; pr_topics := pr_topics p; pr_artifacts := pr_artifacts p;
     pr_outcome := pr_outcome p |}.

Definition with_agents (m : gmap string AgentMemberProjection) (p : AgenticProgramProjection) :
  AgenticProgramProjection :=
  {| pr_binding := pr_binding p; pr_revision := pr_revision p; pr_status := pr_status p;
     pr_teams := pr_teams p; pr_agents := m; pr_memberships := pr_memberships p;
     pr_tasks := pr_tasks p; pr_topics := pr_topics p; pr_artifacts := pr_artifacts p;
     pr_outcome := pr_outcome p |}.

Definition with_memberships (m : gmap string AgenticMembershipProjection)
    (p : AgenticProgramProjection) : AgenticProgramProjection :=
  {| pr_binding := pr_binding p; pr_revision := pr_revision p; pr_status := pr_status p;
     pr_teams := pr_teams p; pr_agents := pr_agents p; pr_memberships := m;
     pr_tasks := pr_tasks p; pr_topics := pr_topics p; pr_artifacts := pr_artifacts p;
     pr_outcome := pr_outcome p |}.

Definition with_artifacts (m : gmap string AgenticArtifactProjection)
    (p : AgenticProgramProjection) : AgenticProgramProjection :=
  {| pr_binding := pr_binding p; pr_revision := pr_revision p; pr_status := pr_status p;
     pr_teams := pr_teams p; pr_agents := pr_agents p; pr_memberships := pr_memberships p;
     pr_tasks := pr_tasks p; pr_topics := pr_topics p; pr_artifacts := m;
     pr_outcome := pr_outcome p |}.

Definition with_revision (n : N) (p : AgenticProgramProjection) : AgenticProgramProjection :=
  {| pr_binding := pr_binding p; pr_revision := n; pr_status := pr_status p;
     pr_teams := pr_teams p; pr_agents := pr_agents p; pr_memberships := pr_memberships p;
     pr_tasks := pr_tasks p; pr_topics := pr_topics p; pr_artifacts := pr_artifacts p;
     pr_outcome := pr_outcome p |}.

Definition with_outcome (s : AgenticProgramStatus) (o : ProgramOutcome)
    (p : AgenticProgramProjection) : AgenticProgramProjection :=
  {| pr_binding := pr_binding p; pr_revision := pr_revision p; pr_status := s;
     pr_teams := pr_teams p; pr_agents := pr_agents p; pr_memberships := pr_memberships p;
     pr_tasks := pr_tasks p; pr_topics := pr_topics p; pr_artifacts := pr_artifacts p;
     pr_outcome := o |}.

(** [if let Some(x) = map.get_mut(key) { ... }] *)
Definition update_task (k : string) (f : AgenticTaskProjection -> AgenticTaskProjection)
    (p : AgenticProgramProjection) : AgenticProgramProjection :=
  with_tasks (alter f k (pr_tasks p)) p.

(** [AgenticProgramProjection::empty], with the binding the opening event adds. *)
Definition opened_program (b : ProgramBinding) : AgenticProgramProjection :=
  {| pr_binding := b; pr_revision := 0; pr_status := PsOpen; pr_teams := ∅; pr_agents := ∅;
     pr_memberships := ∅; pr_tasks := ∅; pr_topics := ∅; pr_artifacts := ∅;
     pr_outcome := {| po_final_artifact_ref := None; po_completion_request := None;
                      po_objective_verdict := None; po_unresolved := [] |} |}.

(** ** Membership *)

Definition membership_id (agent_id team_id : string) : string :=
  "membership:" +:+ agent_id +:+ ":" +:+ team_id.

Section Queries.
Context (p : AgenticProgramProjection).

Definition membership_for (agent_id team_id : string) : option AgenticMembershipProjection :=
  pr_memberships p !! membership_id agent_id team_id.

Definition team_active (team_id : string) : bool :=
  match pr_teams p !! team_id with
  | Some team => bool_decide (tm_lifecycle team = TlActive)
  | None => false
  end.

Definition agent_is_active_in (agent_id team_id : string) : bool :=
  match membership_for agent_id team_id with
  | Some m => bool_decide (ms_lifecycle m = MlActive)
  | None => false
  end && team_active team_id.

Definition active_team_ids_for (agent_id : string) : list string :=
  map ms_team_id
    (List.filter (fun m =>
       String.eqb (ms_agent_id m) agent_id && bool_decide (ms_lifecycle m = MlActive)
       && team_active (ms_team_id m)) (btree_values (pr_memberships p))).

Definition dispatch_team_id_for (agent_id : string) (task : AgenticTaskProjection)
    (review : bool) : option string :=
  let teams := sort_strings (active_team_ids_for agent_id) in
  if negb review then List.find (String.eqb (team_id task)) teams
  else match List.find (fun t => negb (String.eqb t (team_id task))) teams with
       | Some t => Some t
       | None => head teams
       end.

(** ** Opportunities *)

Definition topic_entries : list AgenticTopicEntryProjection := concat (btree_values (pr_topics p)).

Definition intends (task_ref : string) (kind : TaskIntentKind) (e : AgenticTopicEntryProjection) :
  bool :=
  match te_intent e with
  | Some i => String.eqb (ti_task_ref i) task_ref && bool_decide (ti_kind i = kind)
  | None => false
  end.

Definition offered_task_opportunity (task_ref agent_id : string) (generation : N) : bool :=
  existsb (fun e =>
    String.eqb (te_actor_id e) agent_id && is_some (te_source_execution_id e)
    && bool_decide (te_intent_generation e = Some generation)
    && intends task_ref InOffer e) topic_entries.

Definition declined_task_opportunity (task_ref agent_id : string) (generation : option N)
    (execution_id : option string) : bool :=
  existsb (fun e =>
    String.eqb (te_actor_id e) agent_id && is_some (te_source_execution_id e)
    && is_some (te_intent_generation e)
    && match generation with
       | None => true
       | Some g => bool_decide (te_intent_generation e = Some g)
       end
    && match execution_id with
       | None => true
       | Some x => bool_decide (te_source_execution_id e = Some x)
       end
    && intends task_ref InDecline e) topic_entries.

(** ** Coordination *)

(** [readable_topic_refs], [topic_entry_visible] *)
Definition readable_topic_refs (agent_id team_id : string) : list string :=
  ("topic:" +:+ program_id p) ::
  match pr_teams p !! team_id with
  | Some team => if agent_is_active_in agent_id team_id then [tm_topic_ref team] else []
  | None => []
  end.

Definition topic_entry_visible (e : AgenticTopicEntryProjection) (agent_id : string) : bool :=
  String.eqb (te_actor_id e) agent_id || is_nil (te_recipients e) || memb (te_recipients e) agent_id.

(** [request_key]: the source keeps the JSON text of this tuple. *)
Definition RequestKey : Type :=
  string * string * option N * option string * option string * list string * list string
  * option TaskIntent.

Definition request_key (topic : string) (e : AgenticTopicEntryProjection) : RequestKey :=
  (topic, te_actor_id e, te_intent_generation e, trim <$> te_summary e, te_content_ref e,
   sort_dedup (te_refs e), sort_dedup (te_recipients e),
   (fun i => {| ti_task_ref := ti_task_ref i; ti_kind := ti_kind i; ti_reason_ref := ti_reason_ref i;
                ti_requested_capability_refs := sort_dedup (ti_requested_capability_refs i) |})
   <$> te_intent e).

Fixpoint retain_first {A K} `{EqDecision K} (key : A -> K) (seen : list K) (l : list A) : list A :=
  match l with
  | [] => []
  | x :: l =>
      if memb seen (key x) then retain_first key seen l
      else x :: retain_first key (key x :: seen) l
  end.

Definition by_revision (a b : string * AgenticTopicEntryProjection) : Prop :=
  (te_revision a.2 <= te_revision b.2)%N.

#[export] Instance by_revision_dec : RelDecision by_revision.
Proof. intros a b. unfold by_revision. apply _. Defined.

Definition requests_help (e : AgenticTopicEntryProjection) : bool :=
  match te_intent e with Some i => bool_decide (ti_kind i = InRequestHelp) | None => false end.

Definition coordination_requests : list (string * AgenticTopicEntryProjection) :=
  retain_first (fun x => request_key x.1 x.2) []
    (merge_sort by_revision
       (flat_map (fun x => map (pair x.1) (List.filter requests_help x.2))
          (btree_entries (pr_topics p)))).

Definition coordination_wake (revision : N) : option (string * AgenticTopicEntryProjection) :=
  List.find (fun x => (te_revision x.2 =? revision)%N) coordination_requests.

Definition coordination_wake_ref (wake_ref : string) :
  option (string * AgenticTopicEntryProjection) :=
  List.find (fun x => String.eqb (te_entry_id x.2) wake_ref) coordination_requests.

Definition coordination_request_current (e : AgenticTopicEntryProjection) : bool :=
  match i ← te_intent e; pr_tasks p !! ti_task_ref i with
  | Some task =>
      bool_decide (te_intent_generation e = Some (claim_generation task))
      && negb (bool_decide (tk_status task ∈
                 [AtAccepted; AtWithdrawn; AtSuperseded; AtCancelRequested]))
  | None => false
  end.

Definition coordination_team_id_for (agent_id : string) (revision : N) : option string :=
  '(topic, entry) ← coordination_wake revision;
  if String.eqb (te_actor_id entry) agent_id || negb (topic_entry_visible entry agent_id) then None
  else List.find (fun team => memb (readable_topic_refs agent_id team) topic)
         (sort_strings (active_team_ids_for agent_id)).

Definition replies_to (wake_ref execution_id agent_id : string)
    (source e : AgenticTopicEntryProjection) : bool :=
  (te_revision source <? te_revision e)%N && String.eqb (te_actor_id e) agent_id
  && bool_decide (te_source_execution_id e = Some execution_id) && memb (te_refs e) wake_ref
  && (match te_summary e with Some text => negb (trim_is_empty text) | None => false end
      || is_some (te_content_ref e))
  && topic_entry_visible e (te_actor_id source).

Definition coordination_replied (wake_ref execution_id agent_id : string) : bool :=
  match coordination_wake_ref wake_ref with
  | None => false
  | Some (topic, source) =>
      match pr_topics p !! topic with
      | Some entries => existsb (replies_to wake_ref execution_id agent_id source) entries
      | None => false
      end
  end.

Definition execution_is_coordinator (execution_id : option string) : bool :=
  match execution_id with
  | None => false
  | Some id =>
      existsb (fun e => match te_coordination e with
                        | Some c => String.eqb (cc_execution_id c) id
                        | None => false
                        end) topic_entries
  end.

(** [find_map] takes the first task that holds the execution; only then is its
    mode looked at. *)
Definition coordination_attempt (execution_id : string) : option AgenticTaskAttemptProjection :=
  attempt ← head (omap (fun t => tk_active_attempts t !! execution_id) (btree_values (pr_tasks p)));
  if bool_decide (at_mode attempt = AmCoordination) then Some attempt else None.

End Queries.

Definition settle_entry (execution_id : string) (reason : option string)
    (e : AgenticTopicEntryProjection) : AgenticTopicEntryProjection :=
  match te_coordination e with
  | Some c =>
      if String.eqb (cc_execution_id c) execution_id
      then with_coordination
             (Some {| cc_execution_id := cc_execution_id c; cc_agent_id := cc_agent_id c;
                      cc_membership_id := cc_membership_id c; cc_settled := true;
                      cc_reason := reason |}) e
      else e
  | None => e
  end.

Definition settle_coordination (execution_id : string) (reason : option string)
    (p : AgenticProgramProjection) : AgenticProgramProjection :=
  with_topics (map (settle_entry execution_id reason) <$> pr_topics p) p.
