(* ===== verification/SafetyFuse.v ===== *)
(** * The safety fuse

    [runtime/src/execution_core/safety_fuse.rs] and the start of a model step in
    [conversation/host_backend.rs], where the fuse is consulted: the streak of
    unverified steps, the single clean synthesis, the recoveries of a delegated
    protocol, and the two bounds of a collaboration. *)

From stdpp Require Import pretty.
From S2P Require Import Prelude AgentProgram.

(** ** The policy *)

Inductive TaskComplexity := CxTrivial | CxSimple | CxModerate | CxComplex | CxStrategic.

#[export] Instance TaskComplexity_eq_dec : EqDecision TaskComplexity.
Proof. solve_decision. Defined.

Definition complexity_debug (c : TaskComplexity) : string :=
  match c with
  | CxTrivial => "Trivial" | CxSimple => "Simple" | CxModerate => "Moderate"
  | CxComplex => "Complex" | CxStrategic => "Strategic"
  end.

(** [{:?}] of an [Option<usize>] *)
Definition option_debug (o : option N) : string :=
  match o with Some n => "Some(" +:+ pretty n +:+ ")" | None => "None" end.

Record ExecutionBudgetLease := {
  bl_max_model_steps : N;
  bl_complexity : TaskComplexity;
  bl_explicit_user_limit : option N;
  bl_reason : string
}.

Inductive SafetyFuseDecision :=
| FuseContinue
| FuseBlock (reason : string).

Definition base_steps (c : TaskComplexity) : N :=
  match c with
  | CxTrivial => 4 | CxSimple => 8 | CxModerate => 14 | CxComplex => 24 | CxStrategic => 32
  end.

(** [SafetyFusePolicy::derive] *)
Definition derive_lease (context_window : N) (c : TaskComplexity) (limit : option N) :
  ExecutionBudgetLease :=
  {| bl_max_model_steps :=
       match limit with
       | Some l => N.min (base_steps c) (N.max l 1)
       | None => base_steps c
       end;
     bl_complexity := c;
     bl_explicit_user_limit := limit;
     bl_reason :=
       "consecutive unverified-progress threshold derived from policy complexity="
       +:+ complexity_debug c +:+ ", explicit_user_limit=" +:+ option_debug limit
       +:+ "; context_window=" +:+ pretty context_window
       +:+ " and total model steps are telemetry only" |}.

Definition stall_reason (l : ExecutionBudgetLease) (steps : N) : string :=
  "safety fuse fired after " +:+ pretty steps
  +:+ " consecutive model steps without verified progress (possible loop/stall); "
  +:+ bl_reason l.

(** [SafetyFusePolicy::evaluate] *)
Definition evaluate_fuse (l : ExecutionBudgetLease) (steps : N) (made_progress : bool) :
  SafetyFuseDecision :=
  if (steps <? bl_max_model_steps l)%N then FuseContinue
  else if made_progress then FuseContinue
  else FuseBlock (stall_reason l steps).

(** ** The limit a message states *)

Fixpoint leading_digits (s : string) : string :=
  match s with
  | String a s => match ascii_digit a with
                  | Some _ => String a (leading_digits s)
                  | None => EmptyString
                  end
  | EmptyString => EmptyString
  end.

Definition STEP_MARKERS : list string := ["max_steps="; "max model steps="; "最大模型步骤="]%string.

(** The limit after the first occurrence of a marker. *)
Definition limit_after (content marker : string) : option N :=
  i ← String.index 0 marker (to_ascii_lowercase content);
  let start := i + String.length marker in
  n ← parse_unsigned usize_max
        (leading_digits (String.substring start (String.length content - start) content));
  if (0 <? n)%N then Some n else None.

(** [explicit_model_step_limit] *)
Definition explicit_model_step_limit (content : string) : option N :=
  head (omap (limit_after content) STEP_MARKERS).

(** ** Collaborations *)

Record CollaborationExecutionObligation := {
  co_minimum_team_count : N;
  co_exact_team_count : option N
}.

Definition needs_teams (o : option CollaborationExecutionObligation) : bool :=
  match o with Some o => (0 <? co_minimum_team_count o)%N | None => false end.

(** [collaboration_wall_budget], in seconds, from the value of
    [COWD_COLLABORATION_BUDGET_SECS]. *)
Definition collaboration_wall_budget (var : option string) : N :=
  default 1500%N
    (value ← var; n ← parse_unsigned u64_max (trim value); if (0 <? n)%N then Some n else None).

(** [collaboration_budget_elapsed]; durations in nanoseconds. *)
Definition collaboration_budget_elapsed (o : option CollaborationExecutionObligation)
    (is_delegated_leaf : bool) (elapsed budget : N) : bool :=
  needs_teams o && negb is_delegated_leaf && (budget <=? elapsed)%N.

Definition collaboration_ceiling_reached (o : option CollaborationExecutionObligation)
    (is_delegated_leaf : bool) (iterations max_model_steps : N) : bool :=
  needs_teams o && negb is_delegated_leaf
  && (sat_mul usize_max max_model_steps 3 <=? iterations)%N.

Definition bounded_convergence_reason : string :=
  "bounded convergence: the required verified-Team minimum is still unmet after the Agent-first collaboration budget; the objective is only partially satisfied, unresolved work stays in the Program projection, and Runtime stopped the turn instead of running unbounded".

(** ** Delegated protocols *)

(** [DelegatedAgenticProtocolState], as far as its end is concerned. *)
Record DelegatedAgenticProtocolState := {
  dp_mode : string;
  dp_status : AgenticTaskStatus;
  dp_owns_active_attempt : bool
}.

(** [DelegatedAgenticProtocolState::is_terminal] *)
Definition protocol_is_terminal (p : DelegatedAgenticProtocolState) : bool :=
  if negb (dp_owns_active_attempt p) then true
  else if String.eqb (dp_mode p) "review"
       then match dp_status p with AtAccepted | AtRework | AtBlocked => true | _ => false end
       else match dp_status p with AtSubmitted | AtAccepted | AtBlocked => true | _ => false end.

(** ** The start of a model step *)

(** The part of [TurnGraphState] that the start of a model step reads and
    writes. *)
Record FuseState := {
  fs_first_model_step : bool;
  fs_last_verified_progress : bool;
  fs_streak : N;
  fs_clean_next : bool;
  fs_clean_attempted : bool;
  fs_successful_tool_calls : N;
  fs_pending_inputs : list string;
  fs_lease : ExecutionBudgetLease;
  fs_iterations : N;
  fs_obligation : option CollaborationExecutionObligation;
  fs_delegated_leaf : bool;
  fs_recovery_attempts : N;
  fs_terminal_override : option string;
  fs_force_text_only : bool;
  fs_force_tool_allowlist : option (list string);
  fs_force_reasoning_effort : option string
}.

(** [next_unverified_model_step_streak] *)
Definition next_streak (current : N) (made_progress : bool) : N :=
  if made_progress then 0 else usize_saturating_add current 1.

(** What the step goes on with: an ordinary provider request, the isolated
    synthesis, an extra step for the delegated protocol, or the blocked end. *)
Inductive StepOutcome :=
| StepOrdinary
| StepCleanSynthesis
| StepProtocolRecovery
| StepBlocked (reason : string).

(** The overrides of one provider request. *)
Record StepRequest := {
  sq_outcome : StepOutcome;
  sq_first_step : bool;
  sq_force_text_only : bool;
  sq_force_tool_allowlist : option (list string);
  sq_force_reasoning_effort : option string
}.

Definition newline : Ascii.ascii := Ascii.ascii_of_nat 10.

Definition blocked_text (reason : string) : string :=
  "Execution blocked safely: " +:+ reason
  +:+ String newline (String newline
        "Checked evidence and progress were preserved. Continue with a new constraint, additional evidence, or an explicit replan.").

(** The state the critical section leaves: everything that is [take]n is taken. *)
Definition taken (s : FuseState) (streak : N) (clean_attempted : bool) (recovery_attempts : N)
    (terminal_override : option string) : FuseState :=
  {| fs_first_model_step := false; fs_last_verified_progress := false; fs_streak := streak;
     fs_clean_next := false; fs_clean_attempted := clean_attempted;
     fs_successful_tool_calls := fs_successful_tool_calls s;
     fs_pending_inputs := fs_pending_inputs s; fs_lease := fs_lease s;
     fs_iterations := fs_iterations s; fs_obligation := fs_obligation s;
     fs_delegated_leaf := fs_delegated_leaf s; fs_recovery_attempts := recovery_attempts;
     fs_terminal_override := terminal_override; fs_force_text_only := false;
     fs_force_tool_allowlist := None; fs_force_reasoning_effort := None |}.

Definition request (s : FuseState) (outcome : StepOutcome) : StepRequest :=
  {| sq_outcome := outcome; sq_first_step := fs_first_model_step s;
     sq_force_text_only := fs_force_text_only s;
     sq_force_tool_allowlist := fs_force_tool_allowlist s;
     sq_force_reasoning_effort := fs_force_reasoning_effort s |}.

(** A recovery drops the two overrides that would withdraw the tools it needs. *)
Definition recovery_request (s : FuseState) : StepRequest :=
  {| sq_outcome := StepProtocolRecovery; sq_first_step := fs_first_model_step s;
     sq_force_text_only := false; sq_force_tool_allowlist := None;
     sq_force_reasoning_effort := fs_force_reasoning_effort s |}.

Definition at_collaboration_bound (elapsed budget : N) (s : FuseState) : bool :=
  collaboration_budget_elapsed (fs_obligation s) (fs_delegated_leaf s) elapsed budget
  || collaboration_ceiling_reached (fs_obligation s) (fs_delegated_leaf s) (fs_iterations s)
       (bl_max_model_steps (fs_lease s)).

(** The decision about a step with the streak [streak]. *)
Definition fuse_decision (elapsed budget streak : N) (s : FuseState) : SafetyFuseDecision :=
  if at_collaboration_bound elapsed budget s then FuseBlock bounded_convergence_reason
  else evaluate_fuse (fs_lease s) streak (fs_last_verified_progress s).

Definition interrupted (s : FuseState) : bool := negb (bool_decide (fs_pending_inputs s = [])).

Definition protocol_done (protocol : option DelegatedAgenticProtocolState) : bool :=
  match protocol with Some p => protocol_is_terminal p | None => true end.

(** Whether the step is the isolated synthesis, and whether there has been one. *)
Definition clean_synthesis (protocol : option DelegatedAgenticProtocolState) (streak : N)
    (s : FuseState) : bool * bool :=
  let clean := fs_clean_next s && negb (interrupted s) in
  let attempted := fs_clean_attempted s && negb (interrupted s) in
  if negb clean && negb attempted && (0 <? fs_successful_tool_calls s)%N
     && (bl_max_model_steps (fs_lease s) <=? streak)%N && protocol_done protocol
  then (true, true) else (clean, attempted).

(** The critical section at the start of a model step, with the delegated
    protocol read before it and the time since the turn started. *)
Definition start_model_step (protocol : option DelegatedAgenticProtocolState)
    (elapsed budget : N) (s : FuseState) : StepRequest * FuseState :=
  let streak := next_streak (fs_streak s) (fs_last_verified_progress s) in
  let '(clean, attempted) := clean_synthesis protocol streak s in
  let step := taken s streak attempted in
  if clean
  then (request s StepCleanSynthesis, step (fs_recovery_attempts s) (fs_terminal_override s))
  else if interrupted s
  then (request s StepOrdinary, step (fs_recovery_attempts s) (fs_terminal_override s))
  else
    match fuse_decision elapsed budget streak s with
    | FuseContinue =>
        (request s StepOrdinary, step (fs_recovery_attempts s) (fs_terminal_override s))
    | FuseBlock reason =>
        if negb (protocol_done protocol) && (fs_recovery_attempts s <? 2)%N
        then (recovery_request s,
              step (sat_add u8_max (fs_recovery_attempts s) 1) (fs_terminal_override s))
        else (request s (StepBlocked reason),
              step (fs_recovery_attempts s) (Some (blocked_text reason)))
    end.

(** The state of a turn before its first model step. *)
Definition turn_start (lease : ExecutionBudgetLease)
    (obligation : option CollaborationExecutionObligation) (delegated_leaf force_text_only : bool) :
  FuseState :=
  {| fs_first_model_step := true; fs_last_verified_progress := false; fs_streak := 0;
     fs_clean_next := false; fs_clean_attempted := false; fs_successful_tool_calls := 0;
     fs_pending_inputs := []; fs_lease := lease; fs_iterations := 0; fs_obligation := obligation;
     fs_delegated_leaf := delegated_leaf; fs_recovery_attempts := 0; fs_terminal_override := None;
     fs_force_text_only := force_text_only; fs_force_tool_allowlist := None;
     fs_force_reasoning_effort := None |}.

(** ** Leases *)

Lemma derived_bounds context_window c limit :
  (1 <= bl_max_model_steps (derive_lease context_window c limit) <= base_steps c)%N /\
  (base_steps c <= 32)%N /\
  forall l, limit = Some l -> (1 <= l)%N ->
    (bl_max_model_steps (derive_lease context_window c limit) <= l)%N.
Proof.
  assert (4 <= base_steps c <= 32)%N as Hb by (by destruct c).
  split; [|split; [lia|]]; cbn; [destruct limit; lia|]. intros l -> Hl. lia.
Qed.

Lemma explicit_limit_bounds content n :
  explicit_model_step_limit content = Some n -> (1 <= n <= usize_max)%N.
Proof.
  unfold explicit_model_step_limit. intros Hh.
  assert (n ∈ omap (limit_after content) STEP_MARKERS) as Hin.
  { destruct (omap _ _); [done|]. injection Hh as ->. left. }
  apply list_elem_of_omap in Hin as (m & _ & Hm). unfold limit_after in Hm.
  destruct (String.index _ _ _); [|done]. cbn -[parse_unsigned] in Hm.
  destruct (parse_unsigned _ _) as [k|] eqn:Hp; [|done]. cbn in Hm.
  destruct (0 <? k)%N eqn:Hk; [|done]. injection Hm as ->. apply N.ltb_lt in Hk. split; [lia|].
  unfold parse_unsigned in Hp. destruct (default _ _); [done|].
  destruct (parse_digits _ _); [|done]. cbn in Hp. destruct (_ <=? _)%N eqn:Hle; [|done].
  injection Hp as ->. by apply N.leb_le.
Qed.

(** ** When the fuse fires *)

Definition fires (o : StepOutcome) : bool :=
  match o with StepBlocked _ | StepProtocolRecovery => true | _ => false end.

Definition blocks (o : StepOutcome) : bool :=
  match o with StepBlocked _ => true | _ => false end.

(** The fuse fires on loops only.  A model step is stopped, or taken over by the
    recovery of a delegated protocol, exactly when no input waits for it, it is
    not the isolated synthesis, and either a required collaboration has spent its
    time or its steps, or the last step made no verified progress and the streak
    of such steps, this one included, has reached the threshold of the lease.  In
    particular a step after verified progress is never stopped outside a
    collaboration bound, however long the turn is, and a new input is always
    heard. *)
Theorem fuse_fires_iff protocol elapsed budget s :
  let o := sq_outcome (start_model_step protocol elapsed budget s).1 in
  fires o = true <->
    fs_pending_inputs s = [] /\ o <> StepCleanSynthesis /\
    (at_collaboration_bound elapsed budget s = true \/
     fs_last_verified_progress s = false /\
     (bl_max_model_steps (fs_lease s) <= usize_saturating_add (fs_streak s) 1)%N).
Proof.
  cbn zeta. unfold start_model_step.
  destruct (clean_synthesis _ _ _) as [[] attempted]; [cbn; split; [done|by intros (_ & [] & _)]|].
  unfold interrupted. case_bool_decide as Hp; cbn [negb];
    [|split; [done|by intros (? & _)]].
  unfold fuse_decision, evaluate_fuse.
  destruct (at_collaboration_bound _ _ _).
  { destruct (_ && _); cbn; (split; [by repeat split; try left|done]). }
  destruct (fs_last_verified_progress s); cbn [next_streak].
  - destruct (_ <? _)%N; cbn; (split; [done|by intros (_ & _ & [?|[? _]])]).
  - destruct (N.ltb_spec (usize_saturating_add (fs_streak s) 1) (bl_max_model_steps (fs_lease s))).
    + cbn. split; [done|]. intros (_ & _ & [?|[_ ?]]); [done|lia].
    + destruct (_ && _); cbn; (split; [by repeat split; try (right; split)|done]).
Qed.

(** ** Stalls *)

(** What the rest of a step may do to the state while the turn stalls. *)
Record stalls (s s' : FuseState) : Prop := {
  sl_progress : fs_last_verified_progress s' = false;
  sl_next : fs_clean_next s' = false;
  sl_inputs : fs_pending_inputs s' = [];
  sl_streak : fs_streak s' = fs_streak s;
  sl_lease : fs_lease s' = fs_lease s;
  sl_attempted : fs_clean_attempted s = true -> fs_clean_attempted s' = true;
  sl_recovery : (fs_recovery_attempts s <= fs_recovery_attempts s')%N
}.

(** What a stalled turn has left to try. *)
Definition left_to_try (s : FuseState) : nat :=
  (if fs_clean_attempted s then 0 else 1) + (2 - N.to_nat (fs_recovery_attempts s)).

Lemma start_stalled protocol elapsed budget s :
  fs_last_verified_progress s = false -> fs_clean_next s = false -> fs_pending_inputs s = [] ->
  let '(r, s') := start_model_step protocol elapsed budget s in
  fs_streak s' = usize_saturating_add (fs_streak s) 1 /\ fs_lease s' = fs_lease s /\
  left_to_try s' <= left_to_try s /\
  ((bl_max_model_steps (fs_lease s) <= fs_streak s')%N ->
   blocks (sq_outcome r) = true \/ left_to_try s' < left_to_try s).
Proof.
  intros Hp Hn Hi. unfold start_model_step, clean_synthesis, interrupted.
  rewrite Hp, Hn, Hi, bool_decide_true by done. cbn [next_streak negb andb]. rewrite andb_true_r.
  unfold left_to_try.
  destruct (negb (fs_clean_attempted s) && _ && _ && _) eqn:E.
  { cbn. do 3 (split; [done || lia|]). destruct (fs_clean_attempted s); [done|].
    intros _. right. cbn. lia. }
  clear E. unfold fuse_decision, evaluate_fuse. rewrite Hp.
  destruct (at_collaboration_bound _ _ _).
  - destruct (negb _ && _) eqn:Er; cbn [fs_streak fs_lease taken fs_clean_attempted fs_recovery_attempts blocks sq_outcome request recovery_request];
      (split; [reflexivity|split; [reflexivity|]]); [|split; [lia|intros _; by left]].
    apply andb_prop in Er as [_ Er%N.ltb_lt]. unfold sat_add, u8_max.
    split; [lia|]. intros _. right. lia.
  - destruct (N.ltb_spec (usize_saturating_add (fs_streak s) 1) (bl_max_model_steps (fs_lease s))).
    + cbn. do 3 (split; [done|]). lia.
    + destruct (negb _ && _) eqn:Er; cbn [fs_streak fs_lease taken fs_clean_attempted fs_recovery_attempts blocks sq_outcome request recovery_request];
      (split; [reflexivity|split; [reflexivity|]]); [|split; [lia|intros _; by left]].
      apply andb_prop in Er as [_ Er%N.ltb_lt]. unfold sat_add, u8_max.
      split; [lia|]. intros _. right. lia.
Qed.

Lemma streak_grows n a :
  (N.min (N.of_nat n) usize_max <= a)%N ->
  (N.min (N.of_nat (S n)) usize_max <= usize_saturating_add a 1)%N.
Proof. unfold usize_saturating_add, sat_add. change u64_max with usize_max. lia. Qed.

Section Run.
Context (protocol : nat -> option DelegatedAgenticProtocolState) (elapsed : nat -> N) (budget : N)
  (rest : nat -> FuseState -> FuseState).

(** The state before step [n], and the outcome of its start; [rest] is the rest
    of each step. *)
Fixpoint state_before (n : nat) (s : FuseState) : FuseState :=
  match n with
  | 0 => s
  | S n => let s := state_before n s in
           rest n (start_model_step (protocol n) (elapsed n) budget s).2
  end.

Definition outcome_of (n : nat) (s : FuseState) : StepOutcome :=
  sq_outcome (start_model_step (protocol n) (elapsed n) budget (state_before n s)).1.

(** C19. A stalled turn ends.  While no step verifies progress, no input arrives and
    no recovery asks for a synthesis of its own: at the latest the third step
    after the streak has reached the threshold [m] of the lease is blocked, that
    is, one of the first [m + 3] steps; whatever a delegated protocol, the tool
    results and the rest of every step do meanwhile. *)
Theorem stalled_turn_ends s :
  fs_last_verified_progress s = false -> fs_clean_next s = false -> fs_pending_inputs s = [] ->
  (bl_max_model_steps (fs_lease s) < usize_max)%N ->
  (forall n x, stalls x (rest n x)) ->
  exists n, n < N.to_nat (N.max (bl_max_model_steps (fs_lease s)) 1) + 3 /\
    blocks (outcome_of n s) = true.
Proof.
  intros Hp Hn Hi Hm Hrest. set (m := bl_max_model_steps (fs_lease s)).
  assert (forall n,
    let x := state_before n s in
    fs_last_verified_progress x = false /\ fs_clean_next x = false /\ fs_pending_inputs x = [] /\
    fs_lease x = fs_lease s /\ (N.min (N.of_nat n) usize_max <= fs_streak x)%N /\
    left_to_try x <= 3 /\
    forall k, N.to_nat (N.max m 1) + k = S n ->
      (exists i, i < n /\ blocks (outcome_of i s) = true) \/ left_to_try x + k <= 3)
    as Hinv.
  { induction n as [|n IH]; cbn zeta.
    - cbn. do 4 (split; [done|]). split; [lia|]. split.
      + unfold left_to_try. destruct (fs_clean_attempted s); lia.
      + intros k Hk. right. unfold left_to_try. destruct (fs_clean_attempted s); lia.
    - destruct IH as (IHp & IHn & IHi & IHl & IHs & IHt & IHk). cbn [state_before].
      set (x := state_before n s) in *.
      pose proof (start_stalled (protocol n) (elapsed n) budget x IHp IHn IHi) as Hst.
      destruct (start_model_step (protocol n) (elapsed n) budget x) as [r x'] eqn:Er.
      destruct Hst as (H1 & H2 & H3 & H4). cbn [snd].
      destruct (Hrest n x') as [R1 R2 R3 R4 R5 R6 R7].
      assert (left_to_try (rest n x') <= left_to_try x') as Hle.
      { unfold left_to_try. destruct (fs_clean_attempted x'); [rewrite R6 by done; lia|].
        destruct (fs_clean_attempted (rest n x')); lia. }
      do 3 (split; [done|]). split; [congruence|].
      split; [rewrite R4, H1; by apply streak_grows|].
      split; [lia|]. intros k Hk. destruct k as [|k]; [right; lia|].
      destruct (IHk k ltac:(lia)) as [(i & Hin & Hb)|Hk']; [left; exists i; split; [lia|done]|].
      rewrite IHl in H4. fold m in H4. destruct H4 as [Hb|Hlt].
      + rewrite H1. pose proof (streak_grows n _ IHs). lia.
      + left. exists n. split; [lia|]. unfold outcome_of. fold x. by rewrite Er.
      + right. lia. }
  destruct (Hinv (N.to_nat (N.max m 1) + 3)) as (_ & _ & _ & _ & _ & _ & Hk).
  destruct (Hk 4 ltac:(lia)) as [(i & Hin & Hb)|Hk']; [by exists i|].
  exfalso. lia.
Qed.
End Run.

(** ** A limit of one step *)

(** A limit of one step runs none.  The streak counts the step that is about to
    start, so when the message states a limit of one step, the fuse takes the
    first step of the turn for a loop: the turn ends blocked, with "possible
    loop/stall" as its reason outside a collaboration bound, before any provider
    request. *)
Theorem limit_of_one_runs_no_step protocol elapsed budget context_window c content obligation leaf
    text_only :
  explicit_model_step_limit content = Some 1%N -> protocol_done protocol = true ->
  let lease := derive_lease context_window c (explicit_model_step_limit content) in
  let s := turn_start lease obligation leaf text_only in
  let '(r, s') := start_model_step protocol elapsed budget s in
  sq_first_step r = true /\
  exists reason, sq_outcome r = StepBlocked reason /\
    fs_terminal_override s' = Some (blocked_text reason) /\
    (at_collaboration_bound elapsed budget s = false -> reason = stall_reason lease 1).
Proof.
  intros Hl Hd. cbn zeta. rewrite Hl.
  assert (bl_max_model_steps (derive_lease context_window c (Some 1%N)) = 1%N) as Hm
    by (by destruct c).
  set (s := turn_start _ _ _ _). unfold start_model_step.
  assert (clean_synthesis protocol (next_streak (fs_streak s) (fs_last_verified_progress s)) s
          = (false, false)) as -> by (unfold clean_synthesis; cbn; done).
  change (interrupted s) with false. cbn iota. rewrite Hd. cbn [negb andb].
  unfold fuse_decision. destruct (at_collaboration_bound elapsed budget s); cbn.
  - split; [done|]. eexists. by split_and!.
  - unfold evaluate_fuse. rewrite Hm. cbn. split; [done|]. by eexists.
Qed.

(** ** Runs *)

(** The rest of a step that achieves nothing. *)
Definition idle (n : nat) (s : FuseState) : FuseState :=
  {| fs_first_model_step := fs_first_model_step s; fs_last_verified_progress := false;
     fs_streak := fs_streak s; fs_clean_next := false; fs_clean_attempted := fs_clean_attempted s;
     fs_successful_tool_calls := fs_successful_tool_calls s + 1; fs_pending_inputs := [];
     fs_lease := fs_lease s; fs_iterations := fs_iterations s + 1; fs_obligation := fs_obligation s;
     fs_delegated_leaf := fs_delegated_leaf s; fs_recovery_attempts := fs_recovery_attempts s;
     fs_terminal_override := fs_terminal_override s; fs_force_text_only := false;
     fs_force_tool_allowlist := None; fs_force_reasoning_effort := None |}.

Definition working_protocol : DelegatedAgenticProtocolState :=
  {| dp_mode := "work"; dp_status := AtClaimed; dp_owns_active_attempt := true |}.

Definition sample_turn_start : FuseState :=
  turn_start (derive_lease 128000 CxTrivial None) None true false.

Lemma stalled_turn_ends_witness :
  outcome_of (fun _ => Some working_protocol) (fun _ => 0%N) 1500 idle 4 sample_turn_start
    = StepProtocolRecovery /\
  exists n, n < 7 /\
    blocks (outcome_of (fun _ => Some working_protocol) (fun _ => 0%N) 1500 idle n sample_turn_start)
      = true.
Proof.
  split; [vm_compute; reflexivity|].
  apply (stalled_turn_ends (fun _ => Some working_protocol) (fun _ => 0%N) 1500 idle
           sample_turn_start); try reflexivity.
  intros n x. by split.
Defined.

Definition one_step_message : string := "fix the build, max_steps=1".

Lemma limit_of_one_runs_no_step_witness :
  let lease := derive_lease 128000 CxModerate (explicit_model_step_limit one_step_message) in
  let '(r, s') := start_model_step None 0 1500 (turn_start lease None false false) in
  sq_first_step r = true /\
  exists reason, sq_outcome r = StepBlocked reason /\
    fs_terminal_override s' = Some (blocked_text reason) /\
    (at_collaboration_bound 0 1500 (turn_start lease None false false) = false ->
     reason = stall_reason lease 1).
Proof.
  exact (limit_of_one_runs_no_step None 0 1500 128000 CxModerate one_step_message None false false
           eq_refl eq_refl).
Defined.
