(* ===== verification/TokenLease.v ===== *)
(** * Token leases of provider requests

    [EvaluationProviderTokenLease] and its reservations, in
    [runtime/src/conversation/conversation.rs]: a limit that the requests of one
    session share.  Every operation runs under the mutex of the lease; requests
    interleave their operations. *)

From S2P Require Import Prelude.

(** ** Data *)

(** [RequestBudgetReport], as far as it is charged ([context/ledger/mod.rs]). *)
Record RequestBudgetReport := {
  rb_fixed_input_tokens : N;
  rb_dynamic_input_tokens : N;
  rb_protocol_overhead_tokens : N;
  rb_safety_margin_tokens : N;
  rb_requested_output_tokens : N
}.

Definition input_total_tokens (b : RequestBudgetReport) : N :=
  u64_saturating_add (rb_fixed_input_tokens b) (rb_dynamic_input_tokens b).

Definition with_requested_output (n : N) (b : RequestBudgetReport) : RequestBudgetReport :=
  {| rb_fixed_input_tokens := rb_fixed_input_tokens b;
     rb_dynamic_input_tokens := rb_dynamic_input_tokens b;
     rb_protocol_overhead_tokens := rb_protocol_overhead_tokens b;
     rb_safety_margin_tokens := rb_safety_margin_tokens b; rb_requested_output_tokens := n |}.

(** [TokenUsage] ([model-protocol/src/usage.rs]), four [u32]s *)
Record TokenUsage := {
  tu_input_tokens : N;
  tu_output_tokens : N;
  tu_cache_creation_input_tokens : N;
  tu_cache_read_input_tokens : N
}.

Record EvaluationProviderTokenLeaseState := {
  el_lease_id : string;
  el_limit : N;
  el_enforced : bool;
  el_remaining : N;
  el_variance_remaining : N;
  el_telemetry_consumed : N;
  el_input_consumed : N;
  el_output_consumed : N;
  el_cached_consumed : N;
  el_outstanding : N;
  el_breached : bool
}.

Record EvaluationProviderTokenReservation := {
  er_reserved : N;
  er_reconciled : bool;
  er_dispatched : bool;
  er_advisory : bool
}.

(** [EvaluationProviderTokenLease::new] *)
Definition variance_of (limit : N) : N := N.max (limit / 20) 1.

Definition token_lease_new (lease_id : string) (limit : N) (enforced : bool) :
  Result string EvaluationProviderTokenLeaseState :=
  if trim_is_empty lease_id || (limit =? 0)%N
  then Err "evaluation provider token lease identity/limit is invalid"%string
  else Ok {| el_lease_id := lease_id; el_limit := limit; el_enforced := enforced;
             el_remaining := limit; el_variance_remaining := variance_of limit;
             el_telemetry_consumed := 0; el_input_consumed := 0; el_output_consumed := 0;
             el_cached_consumed := 0; el_outstanding := 0; el_breached := false |}.

(** [snapshot().consumed] *)
Definition lease_consumed (l : EvaluationProviderTokenLeaseState) : N :=
  if el_enforced l then (el_limit l - el_remaining l)%N else el_telemetry_consumed l.

Definition with_capacity (remaining variance outstanding : N)
    (l : EvaluationProviderTokenLeaseState) : EvaluationProviderTokenLeaseState :=
  {| el_lease_id := el_lease_id l; el_limit := el_limit l; el_enforced := el_enforced l;
     el_remaining := remaining; el_variance_remaining := variance;
     el_telemetry_consumed := el_telemetry_consumed l; el_input_consumed := el_input_consumed l;
     el_output_consumed := el_output_consumed l; el_cached_consumed := el_cached_consumed l;
     el_outstanding := outstanding; el_breached := el_breached l |}.

(** ** Operations *)

Definition reserve_of (reserved : N) (advisory : bool) : EvaluationProviderTokenReservation :=
  {| er_reserved := reserved; er_reconciled := false; er_dispatched := false;
     er_advisory := advisory |}.

Definition input_reserve (b : RequestBudgetReport) : N :=
  u64_saturating_add (u64_saturating_add (input_total_tokens b) (rb_protocol_overhead_tokens b))
    (rb_safety_margin_tokens b).

Definition available (l : EvaluationProviderTokenLeaseState) : N :=
  u64_saturating_add (el_remaining l) (el_variance_remaining l).

Inductive AcquireError := LeaseBreached | InputExceeds (available input : N) | NoOutputCapacity.

(** [EvaluationProviderTokenReservation::acquire] on an installed lease: the
    reservation, the lease, and the request with the output it was granted. *)
Definition token_acquire (l : EvaluationProviderTokenLeaseState) (b : RequestBudgetReport) :
  Result AcquireError
    (EvaluationProviderTokenReservation * EvaluationProviderTokenLeaseState * RequestBudgetReport) :=
  if negb (el_enforced l)
  then Ok (reserve_of 0 true,
           with_capacity (el_remaining l) (el_variance_remaining l)
             (usize_saturating_add (el_outstanding l) 1) l, b)
  else if el_breached l then Err LeaseBreached
  else
    let input := input_reserve b in
    if (available l <=? input)%N then Err (InputExceeds (available l) input)
    else
      let output := N.min (rb_requested_output_tokens b) (available l - input) in
      if (output =? 0)%N then Err NoOutputCapacity
      else
        let reserved := u64_saturating_add input output in
        let primary := N.min reserved (el_remaining l) in
        Ok (reserve_of reserved false,
            with_capacity (el_remaining l - primary)
              (el_variance_remaining l - (reserved - primary))
              (usize_saturating_add (el_outstanding l) 1) l,
            with_requested_output output b).

Definition mark_dispatched (r : EvaluationProviderTokenReservation) :
  EvaluationProviderTokenReservation :=
  {| er_reserved := er_reserved r; er_reconciled := er_reconciled r; er_dispatched := true;
     er_advisory := er_advisory r |}.

Definition mark_reconciled (r : EvaluationProviderTokenReservation) :
  EvaluationProviderTokenReservation :=
  {| er_reserved := er_reserved r; er_reconciled := true; er_dispatched := er_dispatched r;
     er_advisory := er_advisory r |}.

Definition usage_cached (u : TokenUsage) : N :=
  u64_saturating_add (tu_cache_creation_input_tokens u) (tu_cache_read_input_tokens u).

Definition usage_actual (u : TokenUsage) : N :=
  u64_saturating_add (u64_saturating_add (tu_input_tokens u) (tu_output_tokens u)) (usage_cached u).

(** The consumption counters after a usage report. *)
Definition count_usage (u : TokenUsage) (telemetry remaining variance : N) (breached : bool)
    (l : EvaluationProviderTokenLeaseState) : EvaluationProviderTokenLeaseState :=
  {| el_lease_id := el_lease_id l; el_limit := el_limit l; el_enforced := el_enforced l;
     el_remaining := remaining; el_variance_remaining := variance;
     el_telemetry_consumed := telemetry;
     el_input_consumed := u64_saturating_add (el_input_consumed l) (tu_input_tokens u);
     el_output_consumed := u64_saturating_add (el_output_consumed l) (tu_output_tokens u);
     el_cached_consumed := u64_saturating_add (el_cached_consumed l) (usage_cached u);
     el_outstanding := el_outstanding l - 1; el_breached := breached |}.

(** [reconcile] *)
Definition token_reconcile (u : TokenUsage) (r : EvaluationProviderTokenReservation)
    (l : EvaluationProviderTokenLeaseState) :
  EvaluationProviderTokenReservation * EvaluationProviderTokenLeaseState :=
  if er_reconciled r then (r, l)
  else
    let actual := usage_actual u in
    if (actual =? 0)%N then (r, l)
    else if er_advisory r || negb (el_enforced l)
    then (mark_reconciled r,
          count_usage u (u64_saturating_add (el_telemetry_consumed l) actual) (el_remaining l)
            (el_variance_remaining l) (el_breached l) l)
    else
      let settle := count_usage u (el_telemetry_consumed l) in
      (mark_reconciled r,
       if (actual <=? er_reserved r)%N
       then settle (N.min (u64_saturating_add (el_remaining l) (er_reserved r - actual)) (el_limit l))
              (el_variance_remaining l) (el_breached l) l
       else
         let delta := (actual - er_reserved r)%N in
         if (delta <=? available l)%N
         then let primary := N.min delta (el_remaining l) in
              settle (el_remaining l - primary)%N (el_variance_remaining l - (delta - primary))%N
                (el_breached l) l
         else settle 0%N (el_variance_remaining l) true l).

(** [Drop] of a reservation *)
Definition token_drop (r : EvaluationProviderTokenReservation)
    (l : EvaluationProviderTokenLeaseState) : EvaluationProviderTokenLeaseState :=
  if er_reconciled r then l
  else
    with_capacity
      (if negb (er_advisory r) && negb (er_dispatched r)
       then N.min (u64_saturating_add (el_remaining l) (er_reserved r)) (el_limit l)
       else el_remaining l)
      (el_variance_remaining l) (el_outstanding l - 1) l.

(** ** Sessions *)

(** A lease, the reservations that are alive, by a number for each, and what has
    been charged for good: the usage reported, and the reservations dropped
    after dispatch without a report. *)
Record Pool := {
  po_lease : EvaluationProviderTokenLeaseState;
  po_open : gmap nat EvaluationProviderTokenReservation;
  po_settled : N;
  po_kept : N
}.

Definition pool_new (l : EvaluationProviderTokenLeaseState) : Pool :=
  {| po_lease := l; po_open := ∅; po_settled := 0; po_kept := 0 |}.

(** The usage a reconciliation charges. *)
Definition charged (u : TokenUsage) (r : EvaluationProviderTokenReservation) : N :=
  if er_reconciled r then 0 else usage_actual u.

Inductive pool_step : Pool -> Pool -> Prop :=
| PoolAcquire p k b r l b' :
    po_open p !! k = None -> token_acquire (po_lease p) b = Ok (r, l, b') ->
    pool_step p {| po_lease := l; po_open := <[k := r]> (po_open p);
                   po_settled := po_settled p; po_kept := po_kept p |}
| PoolDispatch p k r :
    po_open p !! k = Some r ->
    pool_step p {| po_lease := po_lease p; po_open := <[k := mark_dispatched r]> (po_open p);
                   po_settled := po_settled p; po_kept := po_kept p |}
| PoolReconcile p k r u r' l :
    po_open p !! k = Some r -> token_reconcile u r (po_lease p) = (r', l) ->
    pool_step p {| po_lease := l; po_open := <[k := r']> (po_open p);
                   po_settled := po_settled p + charged u r; po_kept := po_kept p |}
| PoolDrop p k r :
    po_open p !! k = Some r ->
    pool_step p {| po_lease := token_drop r (po_lease p); po_open := delete k (po_open p);
                   po_settled := po_settled p;
                   po_kept := po_kept p + (if er_reconciled r then 0
                                           else if er_dispatched r then er_reserved r else 0) |}.

(** What a live reservation holds. *)
Definition held (r : EvaluationProviderTokenReservation) : N :=
  if er_reconciled r then 0 else er_reserved r.

Definition held_total (m : gmap nat EvaluationProviderTokenReservation) : N :=
  sum_map (fun kr => held kr.2) (map_to_list m).

(** ** The capacity of a lease *)

Lemma held_insert m k r : m !! k = None -> held_total (<[k := r]> m) = (held r + held_total m)%N.
Proof.
  intros Hk. unfold held_total.
  by rewrite (sum_map_perm _ _ _ (map_to_list_insert m k r Hk)).
Qed.

Lemma held_delete m k r : m !! k = Some r -> held_total m = (held r + held_total (delete k m))%N.
Proof.
  intros Hk. rewrite <- (held_insert _ k) by apply lookup_delete_eq. by rewrite insert_delete_id.
Qed.

Lemma held_update m k r r' : m !! k = Some r ->
  (held_total (<[k := r']> m) + held r = held_total m + held r')%N.
Proof.
  intros Hk. rewrite <- insert_delete_eq, (held_insert _ k) by apply lookup_delete_eq.
  rewrite (held_delete m k r Hk). lia.
Qed.

(** What is accounted for: charged for good, or held. *)
Definition spent (p : Pool) : N := po_settled p + po_kept p + held_total (po_open p).

(** What is accounted for and what is left, between the limit and the limit with
    its variance. *)
Record PoolInv (limit : N) (p : Pool) : Prop := {
  pi_limit : el_limit (po_lease p) = limit;
  pi_enforced : el_enforced (po_lease p) = true;
  pi_hard : forall k r, po_open p !! k = Some r -> er_advisory r = false;
  pi_remaining : (el_remaining (po_lease p) <= limit)%N;
  pi_capacity : el_breached (po_lease p) = false ->
    (limit <= spent p + el_remaining (po_lease p) + el_variance_remaining (po_lease p)
     <= limit + variance_of limit)%N
}.

Lemma acquire_capacity l b r l' b' :
  el_enforced l = true -> token_acquire l b = Ok (r, l', b') ->
  el_breached l = false /\ el_breached l' = false /\ el_limit l' = el_limit l /\
  el_enforced l' = true /\ er_advisory r = false /\ er_reconciled r = false /\
  (el_remaining l' <= el_remaining l)%N /\
  (el_remaining l' + el_variance_remaining l' + er_reserved r
     = el_remaining l + el_variance_remaining l)%N.
Proof.
  intros He. unfold token_acquire. rewrite He. cbn [negb].
  destruct (el_breached l) eqn:Hb; [done|]. cbv zeta.
  destruct (N.leb_spec (available l) (input_reserve b)) as [|Hi]; [done|].
  set (output := N.min _ _). destruct (output =? 0)%N; [done|]. intros [= <- <- <-]. cbn.
  rewrite Hb. do 6 (split; [done|]). unfold available, u64_saturating_add, sat_add in *.
  subst output. split; lia.
Qed.

Lemma reconcile_capacity u r l r' l' limit :
  el_enforced l = true -> er_advisory r = false -> el_limit l = limit -> (limit <= u64_max)%N ->
  (el_remaining l <= limit)%N -> token_reconcile u r l = (r', l') ->
  el_limit l' = limit /\ el_enforced l' = true /\ er_advisory r' = false /\
  (el_remaining l' <= limit)%N /\
  (el_breached l' = false -> el_breached l = false /\
     (el_remaining l' + el_variance_remaining l' + charged u r + held r'
        <= el_remaining l + el_variance_remaining l + held r)%N /\
     ((el_remaining l' + el_variance_remaining l' + charged u r + held r'
        = el_remaining l + el_variance_remaining l + held r)%N \/ el_remaining l' = limit)) /\
  (el_breached l = false -> el_breached l' = true ->
     (el_remaining l + el_variance_remaining l + held r < charged u r)%N).
Proof.
  intros He Ha Hl Hu Hr. unfold token_reconcile, charged, held.
  destruct (er_reconciled r) eqn:Hc.
  { intros [= <- <-]. rewrite Hc. do 4 (split; [done|]).
    split; [intros Hb; split; [done|]; lia|congruence]. }
  destruct (N.eqb_spec (usage_actual u) 0) as [Hz|Hz].
  { intros [= <- <-]. rewrite Hc, Hz. do 4 (split; [done|]).
    split; [intros Hb; split; [done|]; lia|congruence]. }
  rewrite Ha, He. cbn [negb orb]. cbv zeta.
  assert (usage_actual u <= u64_max)%N as Hmax by (unfold usage_actual; apply sat_add_le).
  destruct (N.leb_spec (usage_actual u) (er_reserved r)) as [Hle|Hgt].
  { intros [= <- <-]. cbn. unfold u64_saturating_add, sat_add. rewrite Hl, ?Ha.
    do 4 (split; [done || lia|]). split; [|congruence]. intros Hb. do 2 (split; [done || lia|]). lia. }
  destruct (N.leb_spec (usage_actual u - er_reserved r) (available l)) as [Hd|Hd];
    intros [= <- <-]; cbn; unfold available, u64_saturating_add, sat_add in Hd; rewrite ?Ha.
  - do 4 (split; [done || lia|]). split; [|congruence]. intros Hb. split; [done|]. lia.
  - do 4 (split; [done || lia|]). split; [done|]. intros _ _. lia.
Qed.

Lemma drop_capacity r l limit :
  el_limit l = limit -> er_advisory r = false -> (limit <= u64_max)%N ->
  (el_remaining l <= limit)%N ->
  let l' := token_drop r l in
  let kept := (if er_reconciled r then 0 else if er_dispatched r then er_reserved r else 0)%N in
  el_limit l' = limit /\ el_enforced l' = el_enforced l /\ el_breached l' = el_breached l /\
  el_variance_remaining l' = el_variance_remaining l /\ (el_remaining l' <= limit)%N /\
  (el_remaining l' + kept <= el_remaining l + held r)%N /\
  ((el_remaining l' + kept = el_remaining l + held r)%N \/ el_remaining l' = limit).
Proof.
  intros Hl Ha Hu Hr. cbv zeta. unfold token_drop, held. rewrite Ha.
  destruct (er_reconciled r); [do 5 (split; [done|]); lia|].
  cbn. rewrite Hl. do 4 (split; [done|]). unfold u64_saturating_add, sat_add.
  destruct (er_dispatched r); cbn; lia.
Qed.

Lemma pool_step_inv limit p p' :
  (limit <= u64_max)%N -> PoolInv limit p -> pool_step p p' ->
  PoolInv limit p' /\
  (el_breached (po_lease p) = false -> el_breached (po_lease p') = true -> (limit < spent p')%N).
Proof.
  intros Hu [H1 H2 H3 H4 H5] Hstep. unfold spent in H5.
  destruct Hstep as [p k b r l b' Hk Ha|p k r Hk|p k r u r' l Hk Hr|p k r Hk].
  - destruct (acquire_capacity _ _ _ _ _ H2 Ha) as (Hb & Hb' & Hl & He & Had & Hrc & Hle & Hsum).
    split; [|by cbn; rewrite Hb']. split; cbn; [congruence|done| |lia|].
    + intros i x [[_ <-]|[_ Hi]]%lookup_insert_Some; [done|by eapply H3].
    + intros _. specialize (H5 Hb). unfold spent. cbn. rewrite held_insert by done.
      assert (held r = er_reserved r) as -> by (unfold held; by rewrite Hrc). lia.
  - assert (held_total (<[k:=mark_dispatched r]> (po_open p)) = held_total (po_open p)) as Ht.
    { pose proof (held_update _ _ _ (mark_dispatched r) Hk) as Hh.
      change (held (mark_dispatched r)) with (held r) in Hh. lia. }
    split; [|by cbn; intros ->]. split; cbn; [done|done| |done|].
    + intros i x [[_ <-]|[_ Hi]]%lookup_insert_Some; [by apply (H3 k r)|by eapply H3].
    + unfold spent. cbn. by rewrite Ht.
  - destruct (reconcile_capacity _ _ _ _ _ _ H2 (H3 _ _ Hk) H1 Hu H4 Hr)
      as (Hl & He & Had & Hrem & Hok & Hbr).
    pose proof (held_update _ _ _ r' Hk) as Hh. split; [split; cbn; [done|done| |done|]|].
    + intros i x [[_ <-]|[_ Hi]]%lookup_insert_Some; [done|by eapply H3].
    + intros Hb. destruct (Hok Hb) as (Hb0 & Hle & Heq). specialize (H5 Hb0). unfold spent. cbn. lia.
    + intros Hb Hb'. specialize (Hbr Hb Hb'). specialize (H5 Hb). unfold spent. cbn in *.
      pose proof (held_delete _ _ _ Hk). lia.
  - destruct (drop_capacity r (po_lease p) limit H1 (H3 _ _ Hk) Hu H4)
      as (Hl & He & Hb & Hv & Hrem & Hle & Heq).
    pose proof (held_delete _ _ _ Hk) as Hh. split; [split; cbn; [done|congruence| |done|]|].
    + intros i x [_ Hi]%lookup_delete_Some. by eapply H3.
    + rewrite Hb. intros Hb0. specialize (H5 Hb0). unfold spent. cbn. rewrite Hv. lia.
    + cbn. rewrite Hb. congruence.
Qed.

(** C18. A session does not spend more than its lease.  On an enforced lease, however
    requests reserve, dispatch, report and vanish: what was charged and what is
    still reserved stays within the limit and its variance as long as the lease
    is not breached, and the report that breaches it leaves more than the limit
    spent, so a lease is never breached by a session within its limit. *)
Theorem token_lease_not_overspent lease_id limit l p :
  token_lease_new lease_id limit true = Ok l -> (limit <= u64_max)%N ->
  rtc pool_step (pool_new l) p ->
  (el_breached (po_lease p) = false -> (spent p <= limit + variance_of limit)%N) /\
  (forall p', pool_step p p' -> el_breached (po_lease p) = false ->
     el_breached (po_lease p') = true -> (limit < spent p')%N).
Proof.
  unfold token_lease_new. destruct (_ || _); [done|]. intros [= <-] Hu Hr.
  assert (PoolInv limit p) as Hi.
  { apply (rtc_ind_r (R := pool_step) (PoolInv limit) (pool_new _)) with (3 := Hr).
    - split; cbn; [done|done|by intros ? ?; rewrite lookup_empty|lia|].
      intros _. unfold spent, held_total. cbn. rewrite map_to_list_empty. cbn. lia.
    - intros y z _ Hyz Hy. by apply (pool_step_inv limit y z). }
  split; [intros Hb; pose proof (pi_capacity _ _ Hi Hb); lia|].
  intros p' Hstep. by apply (pool_step_inv limit p p').
Qed.

(** ** A run *)

Definition sample_budget : RequestBudgetReport :=
  {| rb_fixed_input_tokens := 10; rb_dynamic_input_tokens := 5; rb_protocol_overhead_tokens := 1;
     rb_safety_margin_tokens := 4; rb_requested_output_tokens := 60 |}.

Definition sample_lease : EvaluationProviderTokenLeaseState :=
  {| el_lease_id := "lease"; el_limit := 100; el_enforced := true; el_remaining := 100;
     el_variance_remaining := 5; el_telemetry_consumed := 0; el_input_consumed := 0;
     el_output_consumed := 0; el_cached_consumed := 0; el_outstanding := 0; el_breached := false |}.

Definition after_acquire (k : nat) (p : Pool) : Pool :=
  match token_acquire (po_lease p) sample_budget with
  | Ok (r, l, _) => {| po_lease := l; po_open := <[k := r]> (po_open p);
                       po_settled := po_settled p; po_kept := po_kept p |}
  | Err _ => p
  end.

Definition over_report : TokenUsage :=
  {| tu_input_tokens := 50; tu_output_tokens := 60; tu_cache_creation_input_tokens := 0;
     tu_cache_read_input_tokens := 0 |}.

Definition pool1 : Pool := after_acquire 0 (pool_new sample_lease).
Definition pool2 : Pool :=
  let '(r, l) := token_reconcile over_report (reserve_of 80 false) (po_lease pool1) in
  {| po_lease := l; po_open := <[0 := r]> (po_open pool1); po_settled := 110; po_kept := 0 |}.

Lemma token_lease_not_overspent_witness :
  (spent pool1 <= 105)%N /\ el_breached (po_lease pool2) = true /\ (100 < spent pool2)%N.
Proof.
  assert (rtc pool_step (pool_new sample_lease) pool1) as Hr.
  { apply rtc_once. apply (PoolAcquire (pool_new sample_lease) 0 sample_budget (reserve_of 80 false)
      (po_lease pool1) (with_requested_output 60 sample_budget)); vm_compute; reflexivity. }
  destruct (token_lease_not_overspent "lease" 100 sample_lease pool1 eq_refl
    ltac:(vm_compute; discriminate) Hr) as [Hs Hb].
  assert (el_breached (po_lease pool2) = true) as Hp by (vm_compute; reflexivity).
  split; [exact (Hs eq_refl)|]. split; [exact Hp|].
  refine (Hb pool2 _ eq_refl Hp).
  exact (PoolReconcile pool1 0 (reserve_of 80 false) over_report
    (token_reconcile over_report (reserve_of 80 false) (po_lease pool1)).1 (po_lease pool2)
    eq_refl eq_refl).
Defined.
