(* ===== verification/Budget.v ===== *)
(** * The budget ledger of an execution

    [runtime/src/execution_core/budget.rs] with the budget contracts of
    [harness-contract/src/context/mod.rs]: provider reservations and their
    reconciliation as events of one stream, behind its revision.

    Other processes share the stream.  What they commit is [env], a function of
    the store for every place where an operation can be overtaken: in attempt [n]
    of a reservation before the charges are loaded, before those of the child are,
    and before the append ([3 * n] and the next two); in attempt [n] of a
    reconciliation before the revision is read and before the append ([2 * n] and
    the next). *)

From stdpp Require Import pretty.
From S2P Require Import Prelude Facts Contract Validation Delta Ports EventStore Backend.
From S2P Require Import Approval ApprovalJournal TokenLease.

(** ** Contracts *)

Record ParentExecutionBudget := {
  pb_budget_id : string;
  pb_predicted_tokens : N;
  pb_max_tokens : N;
  pb_deadline_at_ms : N;
  pb_max_parallel : N;
  pb_revision : N
}.

Record ChildExecutionBudgetReservation := {
  cb_lease_id : string;
  cb_parent_budget : ParentExecutionBudget;
  cb_parent_budget_id : string;
  cb_owner_id : string;
  cb_scope : string;
  cb_max_tokens : N;
  cb_consumed_tokens : N;
  cb_deadline_at_ms : N;
  cb_max_parallel : N;
  cb_revision : N;
  cb_slot_index : N;
  cb_total_slots : N
}.

(** [predicted_tokens()] *)
Definition predicted_tokens (b : ParentExecutionBudget) : N :=
  if (pb_predicted_tokens b =? 0)%N then pb_max_tokens b
  else N.min (pb_predicted_tokens b) (pb_max_tokens b).

Definition semantically_matches (a b : ParentExecutionBudget) : bool :=
  String.eqb (pb_budget_id a) (pb_budget_id b) && (pb_max_tokens a =? pb_max_tokens b)%N
  && (pb_deadline_at_ms a =? pb_deadline_at_ms b)%N
  && (pb_max_parallel a =? pb_max_parallel b)%N && (pb_revision a =? pb_revision b)%N
  && (predicted_tokens a =? predicted_tokens b)%N.

(** [ParentExecutionBudget::validate], [ChildExecutionBudgetReservation::validate] *)
Definition validate_parent_budget (b : ParentExecutionBudget) : Result string unit :=
  _ ← guard_err (trim_is_empty (pb_budget_id b)) "parent execution budget_id is empty"%string;
  _ ← guard_err (pb_max_tokens b =? 0)%N "parent execution token budget must be positive"%string;
  _ ← guard_err (predicted_tokens b =? 0)%N
        "parent execution budget prediction must be positive"%string;
  _ ← guard_err (pb_deadline_at_ms b =? 0)%N "parent execution deadline must be positive"%string;
  _ ← guard_err (pb_max_parallel b =? 0)%N
        "parent execution parallel budget must be positive"%string;
  guard_err (pb_revision b =? 0)%N "parent execution budget revision must be positive"%string.

Definition validate_child_budget (c : ChildExecutionBudgetReservation) : Result string unit :=
  let p := cb_parent_budget c in
  _ ← validate_parent_budget p;
  _ ← guard_err (trim_is_empty (cb_lease_id c) || trim_is_empty (cb_parent_budget_id c)
                 || trim_is_empty (cb_owner_id c) || trim_is_empty (cb_scope c))
        "child execution budget identity is incomplete"%string;
  _ ← guard_err ((cb_max_tokens c =? 0)%N || (cb_max_tokens c - cb_consumed_tokens c =? 0)%N)
        "child execution token reservation must be positive"%string;
  _ ← guard_err ((cb_deadline_at_ms c =? 0)%N || (cb_max_parallel c =? 0)%N
                 || (cb_revision c =? 0)%N)
        "child execution resource reservation is incomplete"%string;
  _ ← guard_err ((cb_total_slots c =? 0)%N || (cb_total_slots c <=? cb_slot_index c)%N)
        "child execution slot reservation is invalid"%string;
  guard_err (negb (String.eqb (pb_budget_id p) (cb_parent_budget_id c))
             || negb (pb_deadline_at_ms p =? cb_deadline_at_ms c)%N
             || negb (pb_max_parallel p =? cb_max_parallel c)%N
             || negb (pb_revision p =? cb_revision c)%N
             || (pb_max_tokens p <? cb_max_tokens c)%N)
    "child execution reservation does not match its parent budget"%string.

(** [serde_json] of the budget contract. *)
Class BudgetJson (Value : Type) := {
  budget_to_value : ParentExecutionBudget -> Value;
  budget_from_value : Value -> Result string ParentExecutionBudget
}.

Class BudgetJsonLaws (Value : Type) `{BudgetJson Value} := {
  budget_roundtrip : forall b, budget_from_value (budget_to_value b) = Ok b
}.

(** ** Charges *)

Record DurableProviderCharge := {
  dc_reserved_tokens : N;
  dc_actual_tokens : option N
}.

Abbreviation Charges := (gmap string DurableProviderCharge).

Record ParentExecutionBudgetSnapshot := {
  bs_reserved_tokens : N;
  bs_settled_tokens : N;
  bs_breached : bool
}.

Definition charge_tokens (c : DurableProviderCharge) : N :=
  default (dc_reserved_tokens c) (dc_actual_tokens c).

Definition add_charge (s : ParentExecutionBudgetSnapshot) (c : DurableProviderCharge) :
  ParentExecutionBudgetSnapshot :=
  let tokens := charge_tokens c in
  {| bs_reserved_tokens := u64_saturating_add (bs_reserved_tokens s) tokens;
     bs_settled_tokens := match dc_actual_tokens c with
                          | Some _ => u64_saturating_add (bs_settled_tokens s) tokens
                          | None => bs_settled_tokens s
                          end;
     bs_breached := bs_breached s || (dc_reserved_tokens c <? tokens)%N |}.

(** [snapshot_from_charges] *)
Definition snapshot_from_charges (charges : list DurableProviderCharge) :
  ParentExecutionBudgetSnapshot :=
  foldl add_charge {| bs_reserved_tokens := 0; bs_settled_tokens := 0; bs_breached := false |}
    charges.

Definition MAX_BUDGET_CAS_RETRIES : nat := 16.

Definition BUDGET_CREATED : string := "execution_budget.created".
Definition PROVIDER_RESERVED : string := "execution_budget.provider_reserved".
Definition PROVIDER_RECONCILED : string := "execution_budget.provider_reconciled".
Definition USAGE_MISSING : string := "execution_budget.usage_missing".

Section Ledger.
Context {Value S : Type} `{Json Value} `{ApprovalJson Value} `{BudgetJson Value}
  `{EventBackend Value S}.

(** [required_string], [required_u64] *)
Definition missing_field (field : string) : string := "budget event is missing `" +:+ field +:+ "`".

Definition required_string (payload : Value) (field : string) : Result string string :=
  match value_get payload field ≫= value_as_str with
  | Some s => if trim_is_empty s then Err (missing_field field) else Ok s
  | None => Err (missing_field field)
  end.

Definition required_u64 (payload : Value) (field : string) : Result string N :=
  ok_or (missing_field field) (value_get payload field ≫= value_as_u64).

Definition LedgerState : Type := bool * option ParentExecutionBudget * Charges.

Definition of_other_child (child : option string) (payload : Value) : bool :=
  match child with
  | Some expected =>
      negb (bool_decide (value_get payload "child_lease_id" ≫= value_as_str = Some expected))
  | None => false
  end.

(** One event of [replay_charges]: whether the ledger is created, the durable
    contract, the charges. *)
Definition replay_event (child : option string) (st : LedgerState)
    (e : DurableRuntimeEvent Value) : Result string LedgerState :=
  let '(created, durable, charges) := st in
  if String.eqb (ev_kind e) BUDGET_CREATED
  then b ← map_err (fun m => "invalid durable parent execution budget: " +:+ m)%string
             (budget_from_value (ev_payload e));
       Ok (true, Some b, charges)
  else if String.eqb (ev_kind e) PROVIDER_RESERVED
  then if of_other_child child (ev_payload e) then Ok st
       else id ← required_string (ev_payload e) "reservation_id";
            reserved ← required_u64 (ev_payload e) "reserved_tokens";
            Ok (created, durable,
                <[id := {| dc_reserved_tokens := reserved; dc_actual_tokens := None |}]> charges)
  else if String.eqb (ev_kind e) PROVIDER_RECONCILED
  then if of_other_child child (ev_payload e) then Ok st
       else id ← required_string (ev_payload e) "reservation_id";
            charge ← ok_or ("budget reconciliation `" +:+ id +:+ "` has no reservation")%string
                       (charges !! id);
            actual ← required_u64 (ev_payload e) "actual_tokens";
            Ok (created, durable,
                <[id := {| dc_reserved_tokens := dc_reserved_tokens charge;
                           dc_actual_tokens := Some actual |}]> charges)
  else Ok st.

Definition replay_charges (events : list (DurableRuntimeEvent Value)) (child : option string) :
  Result string LedgerState :=
  try_fold (replay_event child) (false, None, ∅) events.

(** *** A ledger *)

Context (budget : ParentExecutionBudget).

(** [ParentExecutionBudgetLedger::new] *)
Definition ledger_new : Result string unit := validate_parent_budget budget.

Definition budget_stream : string := "execution-budget:" +:+ pb_budget_id budget.

Definition validate_child (c : ChildExecutionBudgetReservation) : Result string unit :=
  guard_err (negb (semantically_matches (cb_parent_budget c) budget)
             || negb (String.eqb (cb_parent_budget_id c) (pb_budget_id budget))
             || negb (cb_revision c =? pb_revision budget)%N
             || negb (cb_deadline_at_ms c =? pb_deadline_at_ms budget)%N
             || negb (cb_max_parallel c =? pb_max_parallel budget)%N
             || (pb_max_tokens budget <? cb_max_tokens c)%N)
    "child execution budget does not match its immutable parent"%string.

(** [load_state]: the revision of the stream, whether the ledger is created, and
    the charges. *)
Definition load_state (s : S) : Result string (N * bool * Charges) :=
  let events := eb_list_stream s budget_stream in
  '(created, durable, charges) ← replay_charges events None;
  _ ← match durable with
      | Some b => guard_err (negb (semantically_matches b budget))
                    ("execution budget `" +:+ pb_budget_id budget
                     +:+ "` durable contract differs from the current packet")%string
      | None => Ok tt
      end;
  Ok (match last events with Some e => ev_sequence e | None => 0%N end, created, charges).

Definition ledger_snapshot (s : S) : Result string ParentExecutionBudgetSnapshot :=
  '(_, _, charges) ← load_state s;
  Ok (snapshot_from_charges (btree_values charges)).

(** [child_snapshot] *)
Definition child_snapshot (child : string) (s : S) : Result string ParentExecutionBudgetSnapshot :=
  '(_, _, charges) ← replay_charges (eb_list_stream s budget_stream) (Some child);
  Ok (snapshot_from_charges (btree_values charges)).

Definition ledger_event (kind status : string) (payload : Value) (key : string) :
  RuntimeTransactionEventInput Value :=
  {| te_event := {| in_stream_id := budget_stream; in_scope := ScTeam; in_kind := kind;
                    in_status := Some status; in_actor := Some "runtime-provider-capacity"%string;
                    in_refs := []; in_payload := payload |};
     te_idempotency_key := Some key; te_schema_version := 1 |}.

(** [created_event] *)
Definition created_event : RuntimeTransactionEventInput Value :=
  ledger_event BUDGET_CREATED "active" (budget_to_value budget)
    ("budget-created:" +:+ pb_budget_id budget +:+ ":" +:+ pretty (pb_revision budget)).

Definition reserve_tx (reservation_id : string) : string :=
  "budget:" +:+ pb_budget_id budget +:+ ":reserve:" +:+ reservation_id.

Definition reserved_tokens_for (input_reserve_tokens requested_output_tokens : N) : N :=
  u64_saturating_add (u64_saturating_mul input_reserve_tokens 2) requested_output_tokens.

Definition reserved_payload (child : ChildExecutionBudgetReservation)
    (reservation_id model : string) (reserved : N) (child_totals : ParentExecutionBudgetSnapshot)
    (charges : Charges) : Value :=
  value_object
    [("budget_id", value_string (pb_budget_id budget));
     ("budget_revision", value_u64 (pb_revision budget));
     ("child_lease_id", value_string (cb_lease_id child));
     ("reservation_id", value_string reservation_id);
     ("model", value_string model);
     ("reserved_tokens", value_u64 reserved);
     ("child_target_tokens", value_u64 (cb_max_tokens child));
     ("child_tokens_before_reservation", value_u64 (bs_reserved_tokens child_totals));
     ("borrowed_from_parent_pool",
        value_bool (cb_max_tokens child
                      <? u64_saturating_add (bs_reserved_tokens child_totals) reserved)%N);
     ("capacity_prediction_exceeded",
        value_bool (pb_max_tokens budget
                      <? u64_saturating_add
                           (bs_reserved_tokens (snapshot_from_charges (btree_values charges)))
                           reserved)%N)]%string.

Definition reserve_request (child : ChildExecutionBudgetReservation)
    (reservation_id model : string) (reserved revision : N) (created : bool)
    (child_totals : ParentExecutionBudgetSnapshot) (charges : Charges) :
  AppendTransactionRequest Value :=
  {| rq_transaction_id := reserve_tx reservation_id;
     rq_expected_streams := [{| es_stream_id := budget_stream; es_expected_revision := revision |}];
     rq_events :=
       (if created then [] else [created_event])
       ++ [ledger_event PROVIDER_RESERVED "reserved"
             (reserved_payload child reservation_id model reserved child_totals charges)
             ("provider-reserve:" +:+ reservation_id)] |}.

(** [DurableProviderBudgetReservation], without its ledger. *)
Record DurableProviderBudgetReservation := {
  rv_child : ChildExecutionBudgetReservation;
  rv_reservation_id : string;
  rv_reserved_tokens : N;
  rv_granted_output_tokens : N;
  rv_reconciled : bool
}.

Definition is_stale (e : RuntimeEventStoreError) : bool :=
  match e with StoreStaleRevision _ _ _ => true | _ => false end.

Section Operations.
Context (env : nat -> S -> S).

(** The loop of [reserve_provider], [n] attempts in, [attempts] left. *)
Fixpoint reserve_attempts (child : ChildExecutionBudgetReservation) (reservation_id model : string)
    (reserved output : N) (attempts n : nat) (s : S) :
  Result string DurableProviderBudgetReservation * S :=
  match attempts with
  | 0 => (Err ("execution capacity ledger `" +:+ pb_budget_id budget
               +:+ "` remained contended after 16 CAS attempts"), s)
  | Datatypes.S attempts =>
      let s := env (3 * n) s in
      match load_state s with
      | Err e => (Err e, s)
      | Ok (revision, created, charges) =>
          if bool_decide (is_Some (charges !! reservation_id))
          then (Err ("provider capacity reservation `" +:+ reservation_id +:+ "` already exists"), s)
          else
            let s := env (3 * n + 1) s in
            match child_snapshot (cb_lease_id child) s with
            | Err e => (Err e, s)
            | Ok child_totals =>
                let request := reserve_request child reservation_id model reserved revision created
                                 child_totals charges in
                let '(res, s) := eb_append request None (env (3 * n + 2) s) in
                match res with
                | Ok _ => (Ok {| rv_child := child; rv_reservation_id := reservation_id;
                                 rv_reserved_tokens := reserved;
                                 rv_granted_output_tokens := output; rv_reconciled := false |}, s)
                | Err e =>
                    if is_stale e
                    then reserve_attempts child reservation_id model reserved output attempts
                           (Datatypes.S n) s
                    else (Err (store_error_to_string e), s)
                end
            end
      end
  end.

(** [reserve_provider] *)
Definition reserve_provider (child : ChildExecutionBudgetReservation)
    (reservation_id model : string) (input_reserve_tokens requested_output_tokens : N) (s : S) :
  Result string DurableProviderBudgetReservation * S :=
  match
    (_ ← validate_child_budget child;
     _ ← validate_child child;
     _ ← guard_err (trim_is_empty model || (input_reserve_tokens =? 0)%N
                    || (requested_output_tokens =? 0)%N)
           "provider capacity reservation input is incomplete"%string;
     guard_err (trim_is_empty reservation_id) "provider capacity reservation id is empty"%string)
  with
  | Err e => (Err e, s)
  | Ok _ =>
      reserve_attempts child reservation_id model
        (reserved_tokens_for input_reserve_tokens requested_output_tokens)
        requested_output_tokens MAX_BUDGET_CAS_RETRIES 0 s
  end.

(** *** Reconciliation *)

Definition reconcile_tx (r : DurableProviderBudgetReservation) : string :=
  "budget:" +:+ cb_parent_budget_id (rv_child r) +:+ ":reconcile:" +:+ rv_reservation_id r.

Definition reconcile_request (r : DurableProviderBudgetReservation) (actual revision : N) :
  AppendTransactionRequest Value :=
  let missing := (actual =? 0)%N in
  {| rq_transaction_id := reconcile_tx r;
     rq_expected_streams := [{| es_stream_id := budget_stream; es_expected_revision := revision |}];
     rq_events :=
       [ledger_event (if missing then USAGE_MISSING else PROVIDER_RECONCILED)
          (if missing then "missing"
           else if (actual <=? rv_reserved_tokens r)%N then "settled" else "breached")
          (value_object
             [("budget_id", value_string (cb_parent_budget_id (rv_child r)));
              ("budget_revision", value_u64 (cb_revision (rv_child r)));
              ("child_lease_id", value_string (cb_lease_id (rv_child r)));
              ("reservation_id", value_string (rv_reservation_id r));
              ("actual_tokens", value_u64 actual)]%string)
          ("provider-reconcile:" +:+ rv_reservation_id r)] |}.

Definition set_reconciled (r : DurableProviderBudgetReservation) :
  DurableProviderBudgetReservation :=
  {| rv_child := rv_child r; rv_reservation_id := rv_reservation_id r;
     rv_reserved_tokens := rv_reserved_tokens r;
     rv_granted_output_tokens := rv_granted_output_tokens r; rv_reconciled := true |}.

Fixpoint reconcile_attempts (r : DurableProviderBudgetReservation) (actual : N)
    (attempts n : nat) (s : S) : Result string unit * DurableProviderBudgetReservation * S :=
  match attempts with
  | 0 => (Err "provider capacity reconciliation remained CAS-contended"%string, r, s)
  | Datatypes.S attempts =>
      let s := env (2 * n) s in
      let request := reconcile_request r actual (eb_stream_revision s budget_stream) in
      let '(res, s) := eb_append request None (env (2 * n + 1) s) in
      match res with
      | Ok _ => (Ok tt, set_reconciled r, s)
      | Err e => if is_stale e then reconcile_attempts r actual attempts (Datatypes.S n) s
                 else (Err (store_error_to_string e), r, s)
      end
  end.

(** [reconcile] *)
Definition reconcile (u : TokenUsage) (r : DurableProviderBudgetReservation) (s : S) :
  Result string unit * DurableProviderBudgetReservation * S :=
  if rv_reconciled r then (Ok tt, r, s)
  else
    let actual :=
      u64_saturating_add
        (u64_saturating_add
           (u64_saturating_add (tu_input_tokens u) (tu_output_tokens u))
           (tu_cache_creation_input_tokens u))
        (tu_cache_read_input_tokens u) in
    reconcile_attempts r actual MAX_BUDGET_CAS_RETRIES 0 s.
End Operations.
End Ledger.
