(* ===== verification/BudgetSafety.v ===== *)
(** * The history of a budget ledger

    What the reservations and reconciliations of any number of processes do to
    the charges that the stream of a budget replays to: the ledger refines a map
    in which reservations appear once and are settled at most once. *)

From stdpp Require Import pretty.
From S2P Require Import Prelude Facts Contract Validation Delta Ports EventStore Backend.
From S2P Require Import Approval ApprovalJournal ApprovalMachine TokenLease Budget.

(** ** Snapshots *)

Lemma snapshot_sums (charges : list DurableProviderCharge) s0 :
  (bs_reserved_tokens s0 <= u64_max)%N -> (bs_settled_tokens s0 <= u64_max)%N ->
  let s := foldl add_charge s0 charges in
  bs_reserved_tokens s = N.min (bs_reserved_tokens s0 + sum_map charge_tokens charges) u64_max /\
  bs_settled_tokens s
    = N.min (bs_settled_tokens s0 + sum_map (default 0%N ∘ dc_actual_tokens) charges) u64_max /\
  bs_breached s = bs_breached s0 || existsb (fun c => dc_reserved_tokens c <? charge_tokens c)%N charges.
Proof.
  revert s0. induction charges as [|c charges IH]; intros s0 H1 H2; cbn zeta.
  - cbn. rewrite orb_false_r. unfold sum_map. cbn. split_and!; lia || done.
  - cbn [foldl]. destruct (IH (add_charge s0 c)) as (I1 & I2 & I3).
    + apply sat_add_le.
    + cbn. destruct (dc_actual_tokens c); [apply sat_add_le|done].
    + rewrite I1, I2, I3. unfold sum_map in *. cbn [foldr]. unfold add_charge, u64_saturating_add, sat_add.
      cbn [bs_reserved_tokens bs_settled_tokens bs_breached existsb]. rewrite orb_assoc.
      split; [lia|]. split; [|done]. unfold compose at 2, charge_tokens.
      destruct (dc_actual_tokens c); cbn [default]; lia.
Qed.

(** A snapshot is what the charges add up to.  Its reserved tokens are the sum of
    what each charge stands at, the actual usage where it is known, its settled
    tokens the sum of the known usage, both at most [u64::MAX] and the second
    within the first; it is breached exactly when some usage exceeds its
    reservation; and none of it depends on the order of the charges. *)
Theorem snapshot_adds_up (charges charges' : list DurableProviderCharge) :
  let s := snapshot_from_charges charges in
  bs_reserved_tokens s = N.min (sum_map charge_tokens charges) u64_max /\
  bs_settled_tokens s = N.min (sum_map (default 0%N ∘ dc_actual_tokens) charges) u64_max /\
  (bs_settled_tokens s <= bs_reserved_tokens s)%N /\
  (bs_breached s = true <-> exists c a, c ∈ charges /\ dc_actual_tokens c = Some a /\
     (dc_reserved_tokens c < a)%N) /\
  (charges ≡ₚ charges' -> snapshot_from_charges charges' = s).
Proof.
  assert (forall l, snapshot_from_charges l
    = {| bs_reserved_tokens := N.min (sum_map charge_tokens l) u64_max;
         bs_settled_tokens := N.min (sum_map (default 0%N ∘ dc_actual_tokens) l) u64_max;
         bs_breached := existsb (fun c => dc_reserved_tokens c <? charge_tokens c)%N l |}) as Heq.
  { intros l. unfold snapshot_from_charges.
    destruct (snapshot_sums l {| bs_reserved_tokens := 0; bs_settled_tokens := 0; bs_breached := false |})
      as (I1 & I2 & I3); [by vm_compute..|]. destruct (foldl _ _ _). cbn in *. by rewrite I1, I2, I3. }
  cbn zeta. rewrite !Heq. cbn [bs_reserved_tokens bs_settled_tokens bs_breached].
  do 2 (split; [done|]). split.
  { assert (sum_map (default 0%N ∘ dc_actual_tokens) charges <= sum_map charge_tokens charges)%N; [|lia].
    induction charges as [|c l IH]; [done|]. unfold sum_map in *. cbn [foldr].
    assert (default 0 (dc_actual_tokens c) <= charge_tokens c)%N
      by (unfold charge_tokens; destruct (dc_actual_tokens c); cbn; lia).
    change ((default 0%N ∘ dc_actual_tokens) c) with (default 0%N (dc_actual_tokens c)). lia. }
  split.
  - rewrite existsb_elem_of. split; unfold charge_tokens.
    + intros (c & Hc & Hlt%N.ltb_lt). destruct (dc_actual_tokens c) as [a|] eqn:Ea; cbn in Hlt; [|lia].
      by exists c, a.
    + intros (c & a & Hc & Ha & Hlt). exists c. split; [done|]. rewrite Ha. by apply N.ltb_lt.
  - intros Hp. rewrite !(sum_map_perm _ _ _ Hp). f_equal. apply eq_true_iff_eq.
    rewrite !existsb_elem_of. by setoid_rewrite Hp.
Qed.

(** ** Ledgers of many processes *)

(** Streams are numbered from 1. *)
Class NumberedStreams (Value S : Type) `{Journal Value S} := {
  numbered : forall s id k (e : DurableRuntimeEvent Value),
    jl_inv s -> eb_list_stream s id !! k = Some e -> ev_sequence e = N.of_nat (Datatypes.S k)
}.

(** What the charges do: a reservation appears, or an open one is settled. *)
Inductive charge_move (c : Charges) : Charges -> Prop :=
| MoveReserve id n :
    c !! id = None ->
    charge_move c (<[id := {| dc_reserved_tokens := n; dc_actual_tokens := None |}]> c)
| MoveSettle id x a :
    c !! id = Some x -> dc_actual_tokens x = None ->
    charge_move c (<[id := {| dc_reserved_tokens := dc_reserved_tokens x;
                              dc_actual_tokens := Some a |}]> c).

Section History.
Context {Value S : Type} `{Json Value} `{ApprovalJson Value} `{!ApprovalJsonLaws Value}
  `{BudgetJson Value} `{!BudgetJsonLaws Value}
  `{EventBackend Value S} `{ScopeReads Value S} `{!Journal Value S} `{!NumberedStreams Value S}.
Context (budget : ParentExecutionBudget).

Abbreviation stream := (budget_stream budget).
Abbreviation Event := (DurableRuntimeEvent Value).

Definition ledger_state (s : S) (child : option string) : Result string LedgerState :=
  replay_charges (eb_list_stream s stream) child.

Definition settle_tx (id : string) : string :=
  "budget:" +:+ pb_budget_id budget +:+ ":reconcile:" +:+ id.

Lemma reserve_tx_inj a b : reserve_tx budget a = reserve_tx budget b -> a = b.
Proof. unfold reserve_tx. intros Hx. by repeat apply (inj (String.app _)) in Hx. Qed.

Lemma settle_tx_inj a b : settle_tx a = settle_tx b -> a = b.
Proof. unfold settle_tx. intros Hx. by repeat apply (inj (String.app _)) in Hx. Qed.

Lemma reserve_settle_tx a b : reserve_tx budget a <> settle_tx b.
Proof.
  unfold reserve_tx, settle_tx. intros Hx. do 2 apply (inj (String.app _)) in Hx.
  by injection Hx.
Qed.

(** What is appended: by the loops of this ledger, prepared at the store [s],
    and by others elsewhere. *)
Inductive ledger_write (s : S) : AppendTransactionRequest Value -> Prop :=
| WriteReserve child id model reserved revision created totals charges :
    trim_is_empty id = false -> load_state budget s = Ok (revision, created, charges) ->
    charges !! id = None ->
    ledger_write s (reserve_request budget child id model reserved revision created totals charges)
| WriteReconcile r actual created durable charges :
    cb_parent_budget_id (rv_child r) = pb_budget_id budget ->
    trim_is_empty (rv_reservation_id r) = false ->
    ledger_state s (Some (cb_lease_id (rv_child r))) = Ok (created, durable, charges) ->
    is_Some (charges !! rv_reservation_id r) ->
    ledger_write s (reconcile_request budget r actual (eb_stream_revision s stream))
| WriteElsewhere r :
    (forall i, i ∈ rq_events r -> in_stream_id (te_event i) <> stream) ->
    (forall id, rq_transaction_id r <> reserve_tx budget id) ->
    (forall id, rq_transaction_id r <> settle_tx id) ->
    ledger_write s r.

Inductive ledger_history : list S -> Prop :=
| LedgerStart s :
    jl_inv s -> eb_list_stream s stream = [] -> (forall id, ~ jl_used s (reserve_tx budget id)) ->
    ledger_history [s]
| LedgerAppend h s s0 r terminal res s' :
    ledger_history (s :: h) -> s0 ∈ s :: h -> ledger_write s0 r ->
    eb_append r terminal s = (res, s') -> ledger_history (s' :: s :: h).

(** ** Replaying the events of a request *)

Lemma views_on_stream id (inputs : list (RuntimeTransactionEventInput Value)) (evs : list Event) :
  views_of inputs evs -> (forall i, i ∈ inputs -> in_stream_id (te_event i) = id) ->
  List.filter (on_stream id) evs = evs.
Proof.
  intros Hv Hi. apply filterb_all. intros e He. destruct (views_elem _ _ _ Hv He) as (i & Hin & Hx).
  unfold on_stream. injection Hx as -> _ _ _ _ _. apply String.eqb_eq. by apply Hi.
Qed.

Lemma views_off_stream id (inputs : list (RuntimeTransactionEventInput Value)) (evs : list Event) :
  views_of inputs evs -> (forall i, i ∈ inputs -> in_stream_id (te_event i) <> id) ->
  List.filter (on_stream id) evs = [].
Proof.
  intros Hv Hi. apply filterb_none. intros e He. destruct (views_elem _ _ _ Hv He) as (i & Hin & Hx).
  unfold on_stream. injection Hx as -> _ _ _ _ _. apply String.eqb_neq. by apply Hi.
Qed.

Lemma created_replayed (e : Event) child st :
  event_view e = input_view (created_event budget) ->
  replay_event child st e = Ok (true, Some budget, st.2).
Proof.
  intros Hv. injection Hv as _ _ Hk _ Hp _. destruct st as [[c d] ch]. unfold replay_event.
  rewrite Hk, Hp, budget_roundtrip. done.
Qed.

Definition counts_for (child : option string) (lease : string) : bool :=
  match child with Some c => String.eqb c lease | None => true end.

Lemma other_child_spec child payload lease :
  value_get payload "child_lease_id" ≫= value_as_str = Some lease ->
  of_other_child child payload = negb (counts_for child lease).
Proof.
  intros Hg. unfold of_other_child, counts_for. destruct child as [c|]; [|done]. rewrite Hg. f_equal.
  case_bool_decide as Hx; [injection Hx as ->; by rewrite String.eqb_refl|].
  symmetry. apply String.eqb_neq. intros ->. by apply Hx.
Qed.

Lemma required_string_get payload field s :
  value_get payload field = Some (value_string s) -> trim_is_empty s = false ->
  required_string payload field = Ok s.
Proof. intros Hg Ht. unfold required_string. rewrite Hg. cbn. by rewrite string_as_str, Ht. Qed.

Lemma required_u64_get payload field n :
  value_get payload field = Some (value_u64 n) -> required_u64 payload field = Ok n.
Proof. intros Hg. unfold required_u64. rewrite Hg. cbn. by rewrite u64_as_u64. Qed.

Ltac payload_field :=
  rewrite object_get; [reflexivity|apply (bool_decide_eq_true_1 _); vm_compute; reflexivity].

Lemma reserved_replayed (e : Event) child cb id model reserved totals charges0 key c d charges :
  event_view e = input_view (ledger_event budget PROVIDER_RESERVED "reserved"
                  (reserved_payload budget cb id model reserved totals charges0) key) ->
  trim_is_empty id = false ->
  replay_event child (c, d, charges) e
    = Ok (c, d, if counts_for child (cb_lease_id cb)
                then <[id := {| dc_reserved_tokens := reserved; dc_actual_tokens := None |}]> charges
                else charges).
Proof.
  intros Hv Ht. injection Hv as _ _ Hk _ Hp _. unfold replay_event. rewrite Hk, Hp.
  rewrite (String.eqb_refl PROVIDER_RESERVED). change (String.eqb PROVIDER_RESERVED BUDGET_CREATED) with false.
  rewrite (other_child_spec child _ (cb_lease_id cb)).
  2: { unfold reserved_payload. rewrite object_get.
       - cbn. apply string_as_str.
       - apply (bool_decide_eq_true_1 _). vm_compute. reflexivity. }
  destruct (counts_for child (cb_lease_id cb)); [|done]. cbn [negb].
  rewrite (required_string_get _ _ id), (required_u64_get _ _ reserved); [done|..|done];
    unfold reserved_payload; payload_field.
Qed.

Lemma reconciled_replayed (e : Event) child r actual revision i c d charges x :
  rq_events (reconcile_request budget r actual revision) = [i] -> event_view e = input_view i ->
  trim_is_empty (rv_reservation_id r) = false ->
  (counts_for child (cb_lease_id (rv_child r)) = true -> charges !! rv_reservation_id r = Some x) ->
  replay_event child (c, d, charges) e
    = Ok (c, d, if counts_for child (cb_lease_id (rv_child r)) && negb (actual =? 0)%N
                then <[rv_reservation_id r := {| dc_reserved_tokens := dc_reserved_tokens x;
                                                 dc_actual_tokens := Some actual |}]> charges
                else charges).
Proof.
  intros [= <-] Hv Ht Hx. injection Hv as _ _ Hk _ Hp _. unfold replay_event. rewrite Hk, Hp.
  destruct (actual =? 0)%N; cbn [negb].
  { rewrite andb_false_r. done. }
  change (String.eqb PROVIDER_RECONCILED BUDGET_CREATED) with false.
  change (String.eqb PROVIDER_RECONCILED PROVIDER_RESERVED) with false.
  rewrite (String.eqb_refl PROVIDER_RECONCILED), andb_true_r.
  rewrite (other_child_spec child _ (cb_lease_id (rv_child r))).
  2: { rewrite object_get.
       - cbn. apply string_as_str.
       - apply (bool_decide_eq_true_1 _). vm_compute. reflexivity. }
  destruct (counts_for child _); [|done]. cbn [negb].
  rewrite (required_string_get _ _ (rv_reservation_id r)), (required_u64_get _ _ actual);
    [|payload_field..|done]. cbn. by rewrite Hx.
Qed.

(** ** The invariant of a ledger *)

Definition ledger_charges (s : S) : option Charges :=
  match ledger_state s None with Ok (_, _, c) => Some c | Err _ => None end.

(** The stream replays, to a contract that matches, for every child to the
    charges it owns; the reservations are those whose transactions are used, and
    a settled one has used its reconciliation. *)
Record Ledger (s : S) (created : bool) (durable : option ParentExecutionBudget)
    (charges : Charges) (owner : string -> string) : Prop := {
  lg_state : ledger_state s None = Ok (created, durable, charges);
  lg_child : forall c, ledger_state s (Some c)
    = Ok (created, durable, filter (fun kv => owner kv.1 = c) charges);
  lg_durable : forall b, durable = Some b -> semantically_matches b budget = true;
  lg_used : forall id, is_Some (charges !! id) <-> jl_used s (reserve_tx budget id);
  lg_settled : forall id x a, charges !! id = Some x -> dc_actual_tokens x = Some a ->
    jl_used s (settle_tx id)
}.

Definition LedgerInv (s : S) : Prop :=
  jl_inv s /\ exists created durable charges owner, Ledger s created durable charges owner.

Lemma load_state_inv s revision created charges :
  jl_inv s -> load_state budget s = Ok (revision, created, charges) ->
  revision = eb_stream_revision s stream /\ exists durable, ledger_state s None = Ok (created, durable, charges).
Proof.
  intros Hi Hl. unfold load_state in Hl. fold (ledger_state s None) in Hl.
  apply bind_Ok_inv in Hl as ([[c d] ch] & Hs & Hl). apply bind_Ok_inv in Hl as (? & _ & [= <- <- <-]).
  split; [|by exists d]. rewrite jl_revision by done.
  destruct (last (eb_list_stream s stream)) as [e|] eqn:El; [|by apply last_None in El as ->].
  rewrite last_lookup in El. rewrite (numbered _ _ _ _ Hi El).
  apply lookup_lt_Some in El. f_equal. lia.
Qed.

Lemma semantically_matches_refl b : semantically_matches b b = true.
Proof. unfold semantically_matches. by rewrite String.eqb_refl, !N.eqb_refl. Qed.

Lemma counts_for_Some c lease : counts_for (Some c) lease = bool_decide (lease = c).
Proof.
  unfold counts_for. case_bool_decide as Hx; [subst; apply String.eqb_refl|].
  by apply String.eqb_neq.
Qed.

(** Charges per owner, when a charge is set. *)
Definition set_owner (id lease : string) (owner : string -> string) (k : string) : string :=
  if decide (k = id) then lease else owner k.

Lemma owned_insert (owner : string -> string) (charges : Charges) id x c :
  filter (fun kv => owner kv.1 = c) (<[id := x]> charges)
    = if bool_decide (owner id = c)
      then <[id := x]> (filter (fun kv => owner kv.1 = c) charges)
      else delete id (filter (fun kv => owner kv.1 = c) charges).
Proof.
  case_bool_decide as Hx; [by apply map_filter_insert_True|].
  rewrite map_filter_insert_False by done. apply map_filter_delete.
Qed.

Lemma owned_other (owner owner' : string -> string) (charges : Charges) c :
  (forall id, is_Some (charges !! id) -> owner' id = owner id) ->
  filter (fun kv : string * DurableProviderCharge => owner' kv.1 = c) charges
    = filter (fun kv => owner kv.1 = c) charges.
Proof. intros Ho. apply map_filter_ext. intros i x Hi. cbn. by rewrite Ho by (by exists x). Qed.

Lemma ledger_reserved s s' owner evs child id model reserved revision created totals charges durable :
  Ledger s created durable charges owner -> trim_is_empty id = false -> charges !! id = None ->
  (forall x, jl_used s' x <-> x = reserve_tx budget id \/ jl_used s x) ->
  eb_list_stream s' stream = eb_list_stream s stream ++ evs ->
  views_of (rq_events (reserve_request budget child id model reserved revision created totals charges))
    evs ->
  exists durable' owner',
    Ledger s' true durable' (<[id := {| dc_reserved_tokens := reserved; dc_actual_tokens := None |}]> charges)
      owner'.
Proof.
  intros [L1 L2 L3 L4 L5] Ht Hn Hu Hs Hv.
  exists (if created then durable else Some budget), (set_owner id (cb_lease_id child) owner).
  assert (forall which ch, ledger_state s which = Ok (created, durable, ch) ->
    ledger_state s' which = Ok (true, if created then durable else Some budget,
      if counts_for which (cb_lease_id child)
      then <[id := {| dc_reserved_tokens := reserved; dc_actual_tokens := None |}]> ch else ch)) as Hst.
  { intros which ch Hw. unfold ledger_state, replay_charges in *. rewrite Hs, try_fold_app, Hw. cbn [mbind Result_bind].
    destruct created; cbn [app rq_events reserve_request] in Hv.
    - apply views_cons in Hv as (e & evs' & -> & He & ->%views_nil). cbn [try_fold].
      by rewrite (reserved_replayed _ _ _ _ _ _ _ _ _ _ _ _ He Ht).
    - apply views_cons in Hv as (e1 & evs' & -> & He1 & Hv).
      apply views_cons in Hv as (e & evs'' & -> & He & ->%views_nil). cbn [try_fold].
      rewrite (created_replayed _ _ _ He1). cbn [mbind Result_bind snd].
      by rewrite (reserved_replayed _ _ _ _ _ _ _ _ _ _ _ _ He Ht). }
  split.
  - by rewrite (Hst _ _ L1).
  - intros c. rewrite (Hst _ _ (L2 c)), counts_for_Some. do 2 f_equal.
    rewrite owned_insert.
    rewrite (owned_other owner (set_owner id (cb_lease_id child) owner))
      by (intros k [x Hk]; unfold set_owner; rewrite decide_False; congruence).
    replace (set_owner id (cb_lease_id child) owner id) with (cb_lease_id child)
      by (unfold set_owner; by rewrite decide_True).
    case_bool_decide; [done|]. rewrite delete_id; [done|].
    apply map_lookup_filter_None. by left.
  - intros b. destruct created; [apply L3|]. intros [= <-]. apply semantically_matches_refl.
  - intros k. rewrite Hu. destruct (decide (k = id)) as [->|Hne].
    + rewrite lookup_insert_eq. split; [by left|by eexists].
    + rewrite lookup_insert_ne by done. rewrite L4. split; [by right|].
      by intros [Hx%reserve_tx_inj|].
  - intros k x a [[<- <-]|[_ Hk]]%lookup_insert_Some Ha; [done|]. apply Hu. right. by eapply L5.
Qed.

Lemma ledger_settled s s' owner evs r actual revision created charges cc durable :
  Ledger s created durable charges owner ->
  ledger_state s (Some (cb_lease_id (rv_child r))) = Ok (created, durable, cc) ->
  is_Some (cc !! rv_reservation_id r) -> trim_is_empty (rv_reservation_id r) = false ->
  cb_parent_budget_id (rv_child r) = pb_budget_id budget ->
  ~ jl_used s (reconcile_tx r) ->
  (forall x, jl_used s' x <-> x = reconcile_tx r \/ jl_used s x) ->
  eb_list_stream s' stream = eb_list_stream s stream ++ evs ->
  views_of (rq_events (reconcile_request budget r actual revision)) evs ->
  exists charges', Ledger s' created durable charges' owner /\
    (charges' = charges \/ charge_move charges charges').
Proof.
  intros [L1 L2 L3 L4 L5] Hc Ho Ht Hb Hn Hu Hs Hv.
  assert (reconcile_tx r = settle_tx (rv_reservation_id r)) as Htx
    by (unfold reconcile_tx, settle_tx; by rewrite Hb).
  rewrite Htx in *. rewrite L2 in Hc. injection Hc as <-. destruct Ho as [x Hx].
  apply map_lookup_filter_Some in Hx as [Hx Hown]. cbn in Hown.
  set (id := rv_reservation_id r) in *.
  set (charges' := if negb (actual =? 0)%N
                   then <[id := {| dc_reserved_tokens := dc_reserved_tokens x;
                                   dc_actual_tokens := Some actual |}]> charges
                   else charges).
  destruct (views_cons _ _ _ Hv) as (e & evs' & -> & He & Hv'). apply views_nil in Hv' as ->.
  assert (forall which ch, ledger_state s which = Ok (created, durable, ch) ->
    (counts_for which (cb_lease_id (rv_child r)) = true -> ch !! id = Some x) ->
    ledger_state s' which = Ok (created, durable,
      if counts_for which (cb_lease_id (rv_child r)) && negb (actual =? 0)%N
      then <[id := {| dc_reserved_tokens := dc_reserved_tokens x; dc_actual_tokens := Some actual |}]> ch
      else ch)) as Hst.
  { intros which ch Hw Hlk. unfold ledger_state, replay_charges in *.
    rewrite Hs, try_fold_app, Hw. cbn [mbind Result_bind try_fold].
    by rewrite (reconciled_replayed _ _ r actual revision _ _ _ _ x eq_refl He Ht Hlk). }
  exists charges'. split; [split|].
  - by rewrite (Hst _ _ L1).
  - intros c. rewrite (Hst _ _ (L2 c)).
    + rewrite counts_for_Some. do 2 f_equal. unfold charges'. rewrite <- Hown.
      destruct (actual =? 0)%N; cbn [negb]; [by rewrite andb_false_r|].
      rewrite andb_true_r, owned_insert. case_bool_decide; [done|].
      rewrite delete_id; [done|]. apply map_lookup_filter_None. right. by intros y _.
    + rewrite counts_for_Some. intros <-%bool_decide_eq_true. by apply map_lookup_filter_Some.
  - exact L3.
  - intros k. rewrite Hu. assert (is_Some (charges' !! k) <-> is_Some (charges !! k)) as ->.
    { unfold charges'. destruct (negb _); [|done]. destruct (decide (k = id)) as [->|Hne].
      - rewrite lookup_insert_eq. split; intros _; by eexists.
      - by rewrite lookup_insert_ne. }
    rewrite L4. split; [by right|]. intros [Hk|]; [|done]. by apply reserve_settle_tx in Hk.
  - intros k y a Hk Ha. apply Hu. unfold charges' in Hk. destruct (negb _).
    + apply lookup_insert_Some in Hk as [[<- _]|[_ Hk]]; [by left|right; by eapply L5].
    + right. by eapply L5.
  - unfold charges'. destruct (negb _); [right|by left]. apply MoveSettle; [done|].
    destruct (dc_actual_tokens x) as [a|] eqn:Ea; [|done]. destruct Hn. by eapply L5.
Qed.

(** A transaction that was prepared at [s0] and appended to [s]. *)
Definition committed (r : AppendTransactionRequest Value) (s0 s s' : S) (evs : list Event) : Prop :=
  extends s0 s /\ extends s s' /\ ~ jl_used s (rq_transaction_id r) /\
  (forall x, jl_used s' x <-> x = rq_transaction_id r \/ jl_used s x) /\
  (forall x, x ∈ rq_expected_streams r ->
     eb_stream_revision s (es_stream_id x) = es_expected_revision x) /\
  jl_journal s' = jl_journal s ++ evs /\ views_of (rq_events r) evs.

Lemma reserve_committed s0 s s' evs child id model reserved revision created totals charges :
  LedgerInv s -> trim_is_empty id = false ->
  load_state budget s0 = Ok (revision, created, charges) -> charges !! id = None ->
  committed (reserve_request budget child id model reserved revision created totals charges)
    s0 s s' evs ->
  LedgerInv s' /\ ledger_charges s = Some charges /\
  ledger_charges s'
    = Some (<[id := {| dc_reserved_tokens := reserved; dc_actual_tokens := None |}]> charges).
Proof.
  intros [Hi (c & d & ch & owner & L)] Ht Hl Hn (He0 & He & _ & Hu & Hx & Hj & Hv).
  destruct (load_state_inv _ _ _ _ (ex_inv0 _ _ He0) Hl) as (-> & d' & Hst).
  assert (eb_list_stream s stream = eb_list_stream s0 stream) as Hsame.
  { apply stream_unchanged; [done|]. apply (Hx {| es_stream_id := stream; es_expected_revision := _ |}). left. }
  unfold ledger_charges, ledger_state in *. rewrite <- Hsame in Hst.
  pose proof (lg_state _ _ _ _ _ L) as L1. unfold ledger_state in L1. rewrite L1 in Hst.
  injection Hst as -> -> ->.
  pose proof (appended_stream _ _ _ stream He Hj) as Hs.
  rewrite (views_on_stream _ _ _ Hv) in Hs.
  2: { intros i [Hi1|Hi1]%elem_of_app.
       - destruct created; [by apply not_elem_of_nil in Hi1|]. by apply list_elem_of_singleton in Hi1 as ->.
       - by apply list_elem_of_singleton in Hi1 as ->. }
  destruct (ledger_reserved _ _ _ _ _ _ _ _ _ _ _ _ _ L Ht Hn Hu Hs Hv) as (d2 & owner' & L').
  split; [split; [apply He|by eexists _, _, _, _]|]. rewrite L1. split; [done|].
  pose proof (lg_state _ _ _ _ _ L') as L2. unfold ledger_state in L2. by rewrite L2.
Qed.

(** One step of the ledger. *)
Definition ledger_steps (s s' : S) : Prop :=
  LedgerInv s' /\ exists c c', ledger_charges s = Some c /\ ledger_charges s' = Some c' /\
    (c' = c \/ charge_move c c').

Lemma ledger_charges_of s created durable charges owner :
  Ledger s created durable charges owner -> ledger_charges s = Some charges.
Proof. intros L. unfold ledger_charges. by rewrite (lg_state _ _ _ _ _ L). Qed.

Lemma reconcile_committed s0 s s' evs r actual created durable charges :
  LedgerInv s -> cb_parent_budget_id (rv_child r) = pb_budget_id budget ->
  trim_is_empty (rv_reservation_id r) = false ->
  ledger_state s0 (Some (cb_lease_id (rv_child r))) = Ok (created, durable, charges) ->
  is_Some (charges !! rv_reservation_id r) ->
  committed (reconcile_request budget r actual (eb_stream_revision s0 stream)) s0 s s' evs ->
  ledger_steps s s'.
Proof.
  intros [Hi (cr & d & ch & owner & L)] Hb Ht Hl Ho (He0 & He & Hnu & Hu & Hx & Hj & Hv).
  assert (eb_list_stream s stream = eb_list_stream s0 stream) as Hsame.
  { apply stream_unchanged; [done|].
    apply (Hx {| es_stream_id := stream; es_expected_revision := _ |}). left. }
  unfold ledger_state in Hl. rewrite <- Hsame in Hl.
  pose proof (lg_child _ _ _ _ _ L (cb_lease_id (rv_child r))) as Hcc.
  unfold ledger_state in Hcc. rewrite Hcc in Hl. injection Hl as <- <- <-.
  pose proof (appended_stream _ _ _ stream He Hj) as Hs. rewrite (views_on_stream _ _ _ Hv) in Hs
    by (intros i ->%list_elem_of_singleton; done).
  destruct (ledger_settled _ _ _ _ _ _ _ _ _ _ _ L Hcc Ho Ht Hb Hnu Hu Hs Hv) as (ch' & L' & Hm).
  split; [split; [apply He|by eexists _, _, _, _]|]. exists ch, ch'.
  split_and!; [by eapply ledger_charges_of..|done].
Qed.

Lemma elsewhere_committed s0 s s' evs r :
  LedgerInv s -> (forall i, i ∈ rq_events r -> in_stream_id (te_event i) <> stream) ->
  (forall id, rq_transaction_id r <> reserve_tx budget id) ->
  committed r s0 s s' evs -> ledger_steps s s'.
Proof.
  intros [Hi (cr & d & ch & owner & L)] Hoff Htx (_ & He & _ & Hu & _ & Hj & Hv).
  assert (eb_list_stream s' stream = eb_list_stream s stream) as Hs.
  { by rewrite (appended_stream _ _ _ stream He Hj), (views_off_stream _ _ _ Hv Hoff), app_nil_r. }
  assert (Ledger s' cr d ch owner) as L'.
  { destruct L as [L1 L2 L3 L4 L5]. unfold ledger_state in *.
    split; unfold ledger_state; rewrite ?Hs; [done|done|done| |].
    - intros id. rewrite Hu, L4. split; [by right|].
      intros [Hx|]; [by destruct (Htx id)|done].
    - intros id x a Hx Ha. apply Hu. right. by eapply L5. }
  split; [split; [apply He|by eexists _, _, _, _]|]. exists ch, ch.
  split_and!; [by eapply ledger_charges_of..|by left].
Qed.

Lemma ledger_append_step s s0 r t res s' :
  LedgerInv s -> extends s0 s -> ledger_write s0 r -> eb_append r t s = (res, s') ->
  extends s s' /\ ledger_steps s s'.
Proof.
  intros Hinv He0 Hw Ha.
  destruct (append_appended _ _ _ _ _ (proj1 Hinv) Ha) as [->|evs He Hnu Hu Hx Hj Hv].
  { split; [by apply extends_refl, (proj1 Hinv)|]. split; [done|].
    destruct Hinv as [_ (cr & d & ch & owner & L)]. exists ch, ch.
    split_and!; [by eapply ledger_charges_of..|by left]. }
  split; [done|]. assert (committed r s0 s s' evs) as Hc by (unfold committed; auto 10).
  destruct Hw as [child id model reserved revision created totals charges Ht Hl Hn
                 |r actual c0 d0 cc Hb Ht Hl Ho|r Hoff Hr _].
  - destruct (reserve_committed s0 s s' evs child id model reserved revision created totals charges)
      as (Hi' & Hch & Hch'); [done..|]. split; [done|]. eexists _, _.
    split_and!; [done..|]. right. by apply MoveReserve.
  - by eapply reconcile_committed.
  - by eapply elsewhere_committed.
Qed.

Lemma ledger_start s :
  jl_inv s -> eb_list_stream s stream = [] -> (forall id, ~ jl_used s (reserve_tx budget id)) ->
  LedgerInv s.
Proof.
  intros Hi Hs Hu. split; [done|]. exists false, None, ∅, (fun id => id).
  split; unfold ledger_state; rewrite ?Hs; [done| | | |].
  - intros c. cbn. by rewrite map_filter_empty.
  - done.
  - intros id. rewrite lookup_empty. split; [by intros []|by intros ?%Hu].
  - intros id x a. by rewrite lookup_empty.
Qed.

Lemma ledger_history_inv s h : ledger_history (s :: h) ->
  (forall x, x ∈ s :: h -> LedgerInv x /\ extends x s).
Proof.
  remember (s :: h) as l eqn:El. intros Hh. revert s h El.
  induction Hh as [s Hi Hs Hu|h s s0 r terminal res s' Hh IH Hin Hw Ha]; intros x0 h0 [= <- <-] x Hx.
  - apply list_elem_of_singleton in Hx as ->. split; [by apply ledger_start|by apply extends_refl].
  - specialize (IH s h eq_refl). destruct (IH s ltac:(left)) as [Hi _].
    destruct (IH s0 Hin) as [_ He0].
    destruct (ledger_append_step _ _ _ _ _ _ Hi He0 Hw Ha) as [He [Hi' _]].
    apply elem_of_cons in Hx as [->|Hx]; [split; [done|apply extends_refl, (proj1 Hi')]|].
    destruct (IH x Hx) as [? Hex]. split; [done|]. by eapply extends_trans.
Qed.

Lemma ledger_history_step s' s h :
  ledger_history (s' :: s :: h) ->
  exists c c', ledger_charges s = Some c /\ ledger_charges s' = Some c' /\
    (c' = c \/ charge_move c c').
Proof.
  intros Hh. inversion Hh as [|h0 s1 s0 r t res s2 Hh0 Hin Hw Ha]; subst.
  destruct (ledger_history_inv _ _ Hh0 s ltac:(left)) as [Hi _].
  destruct (ledger_history_inv _ _ Hh0 s0 Hin) as [_ He0].
  by destruct (ledger_append_step _ _ _ _ _ _ Hi He0 Hw Ha) as [_ [_ Hm]].
Qed.

(** C16. A budget ledger is a map of charges.  Over every history of a budget's stream,
    with any number of processes that reserve and reconcile, prepared at any
    earlier state of the store, and with other writers elsewhere: every state of
    the store replays to charges, and from one state to the next the charges stay
    as they are, or one new reservation appears, or one open reservation is
    settled. *)
Theorem ledger_history_refines s' s h :
  ledger_history (s' :: s :: h) ->
  exists c c', ledger_charges s = Some c /\ ledger_charges s' = Some c' /\
    (c' = c \/ charge_move c c').
Proof. apply ledger_history_step. Qed.

(** C17. A charge is for good.  What a reservation has reserved is in every later
    state of the ledger, unchanged; and once its usage is settled, nothing
    changes the charge again: replaying the stream after a restart never gives
    spent capacity back. *)
Theorem charge_is_for_good s h x cx id c :
  ledger_history (s :: h) -> x ∈ s :: h -> ledger_charges x = Some cx -> cx !! id = Some c ->
  exists cs c', ledger_charges s = Some cs /\ cs !! id = Some c' /\
    dc_reserved_tokens c' = dc_reserved_tokens c /\
    (forall a, dc_actual_tokens c = Some a -> c' = c).
Proof.
  intros Hh Hx Hcx Hc. remember (s :: h) as l eqn:El. revert s h El.
  induction Hh as [s Hi Hs Hu|h s s0 r terminal res s' Hh IH Hin Hw Ha]; intros x0 h0 [= <- <-].
  - apply list_elem_of_singleton in Hx as ->. by exists cx, c.
  - apply elem_of_cons in Hx as [->|Hx]; [by exists cx, c|].
    destruct (IH Hx s h eq_refl) as (cs & c1 & Hcs & Hc1 & Hr & Hf).
    destruct (ledger_history_step s' s h) as (a & b & Hsa & Hsb & Hm);
      [by apply (LedgerAppend h s s0 r terminal res s')|]. rewrite Hcs in Hsa. injection Hsa as <-.
    destruct Hm as [->|Hm]; [by exists cs, c1|].
    revert Hsb. destruct Hm as [k n Hk|k y v Hk Hy]; intros Hsb.
    + exists (<[k := {| dc_reserved_tokens := n; dc_actual_tokens := None |}]> cs), c1.
      rewrite lookup_insert_ne by congruence. by split_and!.
    + destruct (decide (k = id)) as [->|Hne].
      * rewrite Hc1 in Hk. injection Hk as <-. eexists _, _. split; [exact Hsb|].
        rewrite lookup_insert_eq. split; [done|]. split; [done|]. intros v' Hv'.
        rewrite (Hf v' Hv') in Hy. congruence.
      * eexists _, c1. split; [exact Hsb|]. rewrite lookup_insert_ne by done. by split_and!.
Qed.

(** ** One reservation *)

(** Other processes continue the history and do not use this reservation id. *)
Definition others (id : string) (f : S -> S) : Prop :=
  (forall s h, ledger_history (s :: h) ->
     exists h', ledger_history (f s :: h') /\ forall x, x ∈ s :: h -> x ∈ f s :: h') /\
  (forall s, ~ jl_used s (reserve_tx budget id) -> ~ jl_used (f s) (reserve_tx budget id)).

Lemma unused_open s id charges :
  LedgerInv s -> ~ jl_used s (reserve_tx budget id) -> ledger_charges s = Some charges ->
  charges !! id = None.
Proof.
  intros [_ (cr & d & ch & owner & L)] Hu Hc. rewrite (ledger_charges_of _ _ _ _ _ L) in Hc.
  injection Hc as <-. apply eq_None_not_Some. by rewrite (lg_used _ _ _ _ _ L).
Qed.

Lemma reserve_attempts_spec env child id model reserved output :
  (forall n, others id (env n)) -> trim_is_empty id = false ->
  forall attempts n s h res s',
  ledger_history (s :: h) -> ~ jl_used s (reserve_tx budget id) ->
  reserve_attempts budget env child id model reserved output attempts n s = (res, s') ->
  (exists h', ledger_history (s' :: h') /\ forall x, x ∈ s :: h -> x ∈ s' :: h') /\
  match res with
  | Ok rv =>
      rv = {| rv_child := child; rv_reservation_id := id; rv_reserved_tokens := reserved;
              rv_granted_output_tokens := output; rv_reconciled := false |} /\
      exists charges, charges !! id = None /\ ledger_charges s'
        = Some (<[id := {| dc_reserved_tokens := reserved; dc_actual_tokens := None |}]> charges)
  | Err _ => ~ jl_used s' (reserve_tx budget id)
  end.
Proof.
  intros Henv Ht. induction attempts as [|attempts IH]; intros n s h res s' Hh Hu Hd;
    cbn -[Nat.mul] in Hd; [injection Hd as <- <-; eauto|].
  destruct (proj1 (Henv (3 * n)) s h Hh) as (h1 & Hh1 & Hsub1).
  pose proof (proj2 (Henv (3 * n)) s Hu) as Hu1. set (s1 := env (3 * n) s) in *.
  destruct (load_state budget s1) as [[[revision created] charges]|e] eqn:El;
    [|injection Hd as <- <-; eauto].
  destruct (bool_decide _) eqn:Eb; [injection Hd as <- <-; eauto|].
  apply bool_decide_eq_false, eq_None_not_Some in Eb.
  destruct (proj1 (Henv (3 * n + 1)) s1 h1 Hh1) as (h2 & Hh2 & Hsub2).
  pose proof (proj2 (Henv (3 * n + 1)) s1 Hu1) as Hu2. set (s2 := env (3 * n + 1) s1) in *.
  destruct (child_snapshot budget (cb_lease_id child) s2) as [totals|e];
    [|injection Hd as <- <-; eauto 6].
  destruct (proj1 (Henv (3 * n + 2)) s2 h2 Hh2) as (h3 & Hh3 & Hsub3).
  pose proof (proj2 (Henv (3 * n + 2)) s2 Hu2) as Hu3. set (s3 := env (3 * n + 2) s2) in *.
  destruct (eb_append _ None s3) as [r3 s4] eqn:Ea.
  assert (s1 ∈ s3 :: h3) as Hin by (apply Hsub3, Hsub2; left).
  destruct (ledger_history_inv _ _ Hh3 s3 ltac:(left)) as [Hi3 _].
  destruct (ledger_history_inv _ _ Hh3 s1 Hin) as [_ He].
  assert (ledger_history (s4 :: s3 :: h3)) as Hh4
    by (eapply LedgerAppend; [exact Hh3|exact Hin|by eapply WriteReserve|exact Ea]).
  assert (forall x, x ∈ s :: h -> x ∈ s4 :: s3 :: h3) as Hsub4 by (intros x Hx; right; auto).
  destruct (jl_append _ _ _ _ _ (proj1 Hi3) Ea)
    as [[-> Hdup]|(rcp & evs & -> & Hi4 & Hnu & Hus & Hexp & Hj & Hv)].
  - destruct r3 as [rcp|e]; [by destruct Hu3; eapply (Hdup rcp)|].
    destruct (is_stale e).
    + destruct (IH _ s3 _ _ _ Hh4 Hu3 Hd) as [(h' & Hh' & Hsub') Hres]. split; [|done]. eauto.
    + injection Hd as <- <-. split; [by eexists|done].
  - injection Hd as <- <-. split; [by eexists|]. split; [done|]. exists charges. split; [done|].
    eapply (reserve_committed s1 s3 s4 evs child id model reserved revision created totals charges);
      [done..|]. split; [done|].
    split; [|done]. split; [apply Hi3|done|by exists evs|]. intros x Hx. apply Hus. by right.
Qed.

(** A reservation is granted when it is recorded.  With other processes between
    any two operations of [reserve_provider], who do not use its reservation id:
    it grants the output that was asked for exactly when its charge is in the
    ledger, open, with two copies of the input and the output, saturating; it
    never takes a charge from anybody else; and when it fails, for whatever
    reason and after however many attempts, it has left no charge behind. *)
Theorem reservation_recorded env child id model input output s h res s' :
  ledger_history (s :: h) -> (forall n, others id (env n)) ->
  ~ jl_used s (reserve_tx budget id) ->
  reserve_provider budget env child id model input output s = (res, s') ->
  (exists h', ledger_history (s' :: h') /\ forall x, x ∈ s :: h -> x ∈ s' :: h') /\
  exists charges, ledger_charges s' = Some charges /\
  match res with
  | Ok rv =>
      charges !! id = Some {| dc_reserved_tokens := N.min (input * 2 + output) u64_max;
                              dc_actual_tokens := None |} /\
      rv_reserved_tokens rv = N.min (input * 2 + output) u64_max /\
      rv_granted_output_tokens rv = output /\ rv_reservation_id rv = id /\
      rv_reconciled rv = false
  | Err _ => charges !! id = None
  end.
Proof.
  intros Hh Henv Hu Hd. unfold reserve_provider in Hd.
  destruct (mbind _ _) as [[]|e] eqn:Ev.
  2: { injection Hd as <- <-. split; [eauto|].
       destruct (ledger_history_inv _ _ Hh s ltac:(left)) as [Hi _].
       pose proof Hi as [_ (cr & d & ch & owner & L)]. exists ch.
       pose proof (ledger_charges_of _ _ _ _ _ L) as Hc. split; [done|]. by eapply unused_open. }
  apply bind_Ok_inv in Ev as (? & _ & Ev). apply bind_Ok_inv in Ev as (? & _ & Ev).
  apply bind_Ok_inv in Ev as (? & _ & Ht%guard_err_Ok_inv).
  destruct (reserve_attempts_spec _ _ _ _ _ _ Henv Ht _ _ _ _ _ _ Hh Hu Hd) as [(h' & Hh' & Hsub) Hres].
  split; [by exists h'|]. destruct res as [rv|e].
  - destruct Hres as (-> & charges & Hn & Hc). eexists. split; [exact Hc|].
    assert (reserved_tokens_for input output = N.min (input * 2 + output) u64_max) as ->.
    { unfold reserved_tokens_for, u64_saturating_add, u64_saturating_mul, sat_add, sat_mul. lia. }
    by rewrite lookup_insert_eq.
  - destruct (ledger_history_inv _ _ Hh' s' ltac:(left)) as [Hi _].
    pose proof Hi as [_ (cr & d & ch & owner & L)]. exists ch.
    pose proof (ledger_charges_of _ _ _ _ _ L) as Hc. split; [done|]. by eapply unused_open.
Qed.
End History.
