(* ===== verification/BudgetSamples.v ===== *)
(** * A concrete budget ledger

    One reservation and its reconciliation on the in-process store: the inputs at
    which the witnesses of [BudgetSafety] evaluate. *)

From S2P Require Import Prelude Facts Contract Validation Delta Ports EventStore Samples Backend.
From S2P Require Import Approval ApprovalJournal ApprovalQueue ApprovalMachine ApprovalLifecycle.
From S2P Require Import ApprovalAuthority ApprovalSamples TokenLease Budget BudgetSafety.

Definition budget_value (b : ParentExecutionBudget) : SampleValue :=
  SvMember "id" (SvLeaf (LStr (pb_budget_id b)))
    (SvMember "predicted" (SvLeaf (LNum (pb_predicted_tokens b)))
      (SvMember "max" (SvLeaf (LNum (pb_max_tokens b)))
        (SvMember "deadline" (SvLeaf (LNum (pb_deadline_at_ms b)))
          (SvMember "parallel" (SvLeaf (LNum (pb_max_parallel b)))
            (SvLeaf (LNum (pb_revision b))))))).

#[export] Instance sample_budget_json : BudgetJson SampleValue :=
  {| budget_to_value := budget_value;
     budget_from_value := fun v =>
       match v with
       | SvMember _ (SvLeaf (LStr id)) (SvMember _ (SvLeaf (LNum p)) (SvMember _ (SvLeaf (LNum m))
           (SvMember _ (SvLeaf (LNum d)) (SvMember _ (SvLeaf (LNum k)) (SvLeaf (LNum r)))))) =>
           Ok {| pb_budget_id := id; pb_predicted_tokens := p; pb_max_tokens := m;
                 pb_deadline_at_ms := d; pb_max_parallel := k; pb_revision := r |}
       | _ => Err "not a budget"%string
       end |}.

#[export] Instance sample_budget_json_laws : BudgetJsonLaws SampleValue.
Proof. split. by intros []. Qed.

#[export] Instance sample_numbered : NumberedStreams SampleValue SampleStore.
Proof. split. intros s id k e Hi He. exact (store_sequence s id k e Hi He). Qed.

Definition sample_parent : ParentExecutionBudget :=
  {| pb_budget_id := "parent"; pb_predicted_tokens := 4000; pb_max_tokens := 4000;
     pb_deadline_at_ms := 99; pb_max_parallel := 4; pb_revision := 1 |}.

Definition sample_child : ChildExecutionBudgetReservation :=
  {| cb_lease_id := "parent:child:0"; cb_parent_budget := sample_parent;
     cb_parent_budget_id := "parent"; cb_owner_id := "child-0"; cb_scope := "team_agent";
     cb_max_tokens := 1000; cb_consumed_tokens := 0; cb_deadline_at_ms := 99;
     cb_max_parallel := 4; cb_revision := 1; cb_slot_index := 0; cb_total_slots := 4 |}.

Lemma ledger_start0 : ledger_history sample_parent [st0].
Proof.
  apply LedgerStart; [apply StoreInv_default|done|]. intros id [r Hr]. cbn in Hr.
  by rewrite lookup_empty in Hr.
Qed.

Definition reserve_run :=
  reserve_provider sample_parent (fun _ (s : SampleStore) => s) sample_child "r" "model" 10 100 st0.

Definition ledger1 : SampleStore := reserve_run.2.

Definition sample_reservation : DurableProviderBudgetReservation :=
  {| rv_child := sample_child; rv_reservation_id := "r"; rv_reserved_tokens := 120;
     rv_granted_output_tokens := 100; rv_reconciled := false |}.

Lemma quiet_others id : others sample_parent id (fun s : SampleStore => s).
Proof. split; [|done]. intros s h Hh. exists h. by split. Qed.

Lemma unused_at_start : ~ jl_used st0 (reserve_tx sample_parent "r").
Proof. intros [r Hr]. cbn in Hr. by rewrite lookup_empty in Hr. Qed.

Lemma reservation_recorded_witness :
  reserve_run.1 = Ok sample_reservation /\
  exists charges, ledger_charges sample_parent ledger1 = Some charges /\
    charges !! "r"%string = Some {| dc_reserved_tokens := 120; dc_actual_tokens := None |}.
Proof.
  assert (reserve_run.1 = Ok sample_reservation) as Hr by (vm_compute; reflexivity).
  split; [exact Hr|].
  destruct (reservation_recorded sample_parent (fun _ s => s) sample_child "r" "model" 10 100 st0 []
    (Ok sample_reservation) ledger1 ledger_start0 (fun _ => quiet_others "r") unused_at_start)
    as (_ & charges & Hc & Hl & _).
  - rewrite <- Hr. apply surjective_pairing.
  - exists charges. exact (conj Hc Hl).
Defined.

(** *** Its reconciliation *)

Definition ledger_write1 : AppendTransactionRequest SampleValue :=
  reserve_request sample_parent sample_child "r" "model" 120 0 false
    {| bs_reserved_tokens := 0; bs_settled_tokens := 0; bs_breached := false |} ∅.

Definition ledger_write2 : AppendTransactionRequest SampleValue :=
  reconcile_request sample_parent sample_reservation 30 2.

Definition ledger2 : SampleStore := (eb_append ledger_write2 None ledger1).2.

Lemma ledger_history1 : ledger_history sample_parent [ledger1; st0].
Proof.
  apply (LedgerAppend sample_parent [] st0 st0 ledger_write1 None (eb_append ledger_write1 None st0).1).
  - exact ledger_start0.
  - left.
  - apply WriteReserve; [reflexivity|vm_compute; reflexivity|apply lookup_empty].
  - vm_compute. reflexivity.
Qed.

Lemma ledger_history2 : ledger_history sample_parent [ledger2; ledger1; st0].
Proof.
  apply (LedgerAppend sample_parent [st0] ledger1 ledger1 ledger_write2 None
           (eb_append ledger_write2 None ledger1).1).
  - exact ledger_history1.
  - left.
  - assert (ledger_write2 = reconcile_request sample_parent sample_reservation 30
              (eb_stream_revision ledger1 (budget_stream sample_parent))) as ->
      by (vm_compute; reflexivity).
    apply (WriteReconcile sample_parent ledger1 sample_reservation 30 true (Some sample_parent)
      (<["r"%string := {| dc_reserved_tokens := 120; dc_actual_tokens := None |}]> ∅));
      [reflexivity|reflexivity|vm_compute; reflexivity|vm_compute; by eexists].
  - apply surjective_pairing.
Qed.

Lemma ledger_history_refines_witness :
  exists c c', ledger_charges sample_parent ledger1 = Some c /\
    ledger_charges sample_parent ledger2 = Some c' /\ (c' = c \/ charge_move c c').
Proof. exact (ledger_history_refines sample_parent ledger2 ledger1 [st0] ledger_history2). Defined.

Definition open_charges : gmap string DurableProviderCharge :=
  <["r"%string := {| dc_reserved_tokens := 120; dc_actual_tokens := None |}]> ∅.

Lemma charge_is_for_good_witness :
  exists cs c', ledger_charges sample_parent ledger2 = Some cs /\ cs !! "r"%string = Some c' /\
    dc_reserved_tokens c' = 120%N.
Proof.
  destruct (charge_is_for_good sample_parent ledger2 [ledger1; st0] ledger1 open_charges "r"
    {| dc_reserved_tokens := 120; dc_actual_tokens := None |} ledger_history2)
    as (cs & c' & Hcs & Hc & Hr & _).
  - right. left.
  - vm_compute. reflexivity.
  - vm_compute. reflexivity.
  - exists cs, c'. exact (conj Hcs (conj Hc Hr)).
Defined.
