(* ===== verification/SessionPresence.v ===== *)
(** * The presence of surfaces at a session

    [session/src/lifecycle.rs] and the projection it keeps
    ([session/src/persistence/types.rs], [session-postgres/src/lifecycle.rs]): which
    surfaces are attached to a session, in the memory of a process and in a row
    that all processes share and replace by compare and swap.

    An operation holds the mutation lock of its session from its first access to
    its last, so in its own process nothing else touches the entry of that
    session.  What other processes do to the store is [env]: before the row is
    loaded ([env 0]) and before it is replaced ([env 1]).  [clk] are the readings
    of the clock, in the order in which an operation takes them. *)

From S2P Require Import Prelude.

(** ** Data *)

Inductive SessionLifecycleState :=
| LsCreated | LsActive | LsAttached | LsDetached | LsIdle | LsSuspended | LsRestored | LsClosing
| LsClosed | LsFailed.

#[export] Instance SessionLifecycleState_eq_dec : EqDecision SessionLifecycleState.
Proof. solve_decision. Defined.

Definition lifecycle_as_str (s : SessionLifecycleState) : string :=
  match s with
  | LsCreated => "created" | LsActive => "active" | LsAttached => "attached"
  | LsDetached => "detached" | LsIdle => "idle" | LsSuspended => "suspended"
  | LsRestored => "restored" | LsClosing => "closing" | LsClosed => "closed"
  | LsFailed => "failed"
  end.

Definition lifecycle_states : list SessionLifecycleState :=
  [LsCreated; LsActive; LsAttached; LsDetached; LsIdle; LsSuspended; LsRestored; LsClosing;
   LsClosed; LsFailed].

(** The derived deserializer, [rename_all = "snake_case"]. *)
Definition lifecycle_from_str (s : string) : option SessionLifecycleState :=
  head (List.filter (fun x => String.eqb (lifecycle_as_str x) s) lifecycle_states).

Record SessionActor := {
  sa_id : string;
  sa_surface : string;
  sa_role : option string
}.

#[export] Instance SessionActor_eq_dec : EqDecision SessionActor.
Proof. solve_decision. Defined.

Record SessionAttachment := {
  at_session_id : string;
  at_actor : SessionActor;
  at_attached_at_ms : N;
  at_last_seen_ms : N
}.

Record SessionLifecycleEvent := {
  le_session_id : string;
  le_sequence : N;
  le_event_type : string;
  le_actor : option SessionActor;
  le_state : SessionLifecycleState;
  le_created_at_ms : N
}.

Record SessionLifecycleSnapshot := {
  sn_session_id : string;
  sn_state : SessionLifecycleState;
  sn_attachments : list SessionAttachment;
  sn_next_sequence : N;
  sn_updated_at_ms : N
}.

Record SessionLifecycleEntry := {
  en_state : SessionLifecycleState;
  en_attachments : gmap string SessionAttachment;
  en_next_sequence : N;
  en_revision : N;
  en_updated_at_ms : N;
  en_persisted_at_ms : N
}.

Record SessionPresenceProjection := {
  pp_session_id : string;
  pp_state : string;
  pp_attachments_json : string;
  pp_next_sequence : N;
  pp_revision : N;
  pp_updated_at_ms : N
}.

(** ** What is outside *)

(** [serde_json] of the attachments, and its message for an unknown state. *)
Class AttachmentJson := {
  attachments_to_json : list SessionAttachment -> Result string string;
  attachments_from_json : string -> Result string (list SessionAttachment);
  unknown_state : string -> string
}.

Class AttachmentJsonLaws `{AttachmentJson} := {
  attachments_roundtrip : forall l j,
    attachments_to_json l = Ok j -> attachments_from_json j = Ok l
}.

(** [UnifiedSessionStore], as far as presence uses it. *)
Class PresenceStore (S : Type) := {
  get_presence : string -> S -> Result string (option SessionPresenceProjection);
  compare_and_upsert : SessionPresenceProjection -> option N -> S -> Result string bool * S
}.

(** ** Entries *)

(** [SessionLifecycleEntry::default()]; [attach] makes its own with the time. *)
Definition entry_default : SessionLifecycleEntry :=
  {| en_state := LsCreated; en_attachments := ∅; en_next_sequence := 0; en_revision := 0;
     en_updated_at_ms := 0; en_persisted_at_ms := 0 |}.

Definition entry_created (now : N) : SessionLifecycleEntry :=
  {| en_state := LsCreated; en_attachments := ∅; en_next_sequence := 0; en_revision := 0;
     en_updated_at_ms := now; en_persisted_at_ms := 0 |}.

(** [duration_millis], of a duration in nanoseconds *)
Definition duration_millis (nanos : N) : N := N.max (N.min (nanos / 1000000) u64_max) 1.

Definition heartbeat_persist_interval (ttl : N) : N := N.max (ttl / 3) 1.

Definition with_attachments (state : SessionLifecycleState) (m : gmap string SessionAttachment)
    (now : N) (e : SessionLifecycleEntry) : SessionLifecycleEntry :=
  {| en_state := state; en_attachments := m; en_next_sequence := en_next_sequence e;
     en_revision := en_revision e; en_updated_at_ms := now;
     en_persisted_at_ms := en_persisted_at_ms e |}.

Definition fresh (now ttl : N) (a : SessionAttachment) : bool := (now - at_last_seen_ms a <? ttl)%N.

Lemma filter_same_size {A} (P : string * A -> Prop) `{forall x, Decision (P x)}
    (m : gmap string A) :
  size (filter P m) = size m -> filter P m = m.
Proof.
  intros Hs. apply map_eq. intros k. destruct (m !! k) as [a|] eqn:Ha.
  - rewrite map_lookup_filter, Ha. cbn. destruct (decide (P (k, a))) as [|Hn]; [by rewrite option_guard_True|].
    exfalso. assert (filter P m ⊂ m) as Hss%map_subset_size; [|lia].
    split; [apply map_filter_subseteq|]. intros Hi.
    pose proof (lookup_weaken _ _ _ _ Ha Hi) as Hf. by apply map_lookup_filter_Some in Hf as [_ ?].
  - rewrite map_lookup_filter, Ha. done.
Qed.

(** [prune_expired_attachments] *)
Definition prune_expired_attachments (ttl now : N) (e : SessionLifecycleEntry) :
  SessionLifecycleEntry * bool :=
  let kept := filter (fun p => fresh now ttl p.2 = true) (en_attachments e) in
  if size kept =? size (en_attachments e) then (e, false)
  else
    (with_attachments
       (if bool_decide (kept = ∅) && bool_decide (en_state e = LsAttached) then LsDetached
        else en_state e)
       kept now e, true).

Definition attachment_le (a b : SessionAttachment) : Prop :=
  if decide (sa_surface (at_actor a) = sa_surface (at_actor b))
  then str_le (sa_id (at_actor a)) (sa_id (at_actor b))
  else str_le (sa_surface (at_actor a)) (sa_surface (at_actor b)).

#[export] Instance attachment_le_dec : RelDecision attachment_le.
Proof. intros a b. unfold attachment_le. case_decide; apply _. Defined.

(** [snapshot_from_entry] *)
Definition snapshot_from_entry (id : string) (e : SessionLifecycleEntry) :
  SessionLifecycleSnapshot :=
  {| sn_session_id := id; sn_state := en_state e;
     sn_attachments := merge_sort attachment_le (map_to_list (en_attachments e)).*2;
     sn_next_sequence := en_next_sequence e; sn_updated_at_ms := en_updated_at_ms e |}.

(** An event that takes no number: a presence observed, absent, or active already. *)
Definition observed_event (id kind : string) (actor : option SessionActor) (now : N)
    (e : SessionLifecycleEntry) : SessionLifecycleEvent :=
  {| le_session_id := id; le_sequence := en_next_sequence e - 1; le_event_type := kind;
     le_actor := actor; le_state := en_state e; le_created_at_ms := now |}.

(** [push_event]; the number is a [usize] that wraps in a release build. *)
Definition push_event (id kind : string) (actor : option SessionActor)
    (state : SessionLifecycleState) (now : N) (e : SessionLifecycleEntry) :
  SessionLifecycleEvent * SessionLifecycleEntry :=
  ({| le_session_id := id; le_sequence := en_next_sequence e; le_event_type := kind;
      le_actor := actor; le_state := state; le_created_at_ms := now |},
   {| en_state := en_state e; en_attachments := en_attachments e;
      en_next_sequence := (en_next_sequence e + 1) mod 2 ^ 64; en_revision := en_revision e;
      en_updated_at_ms := en_updated_at_ms e; en_persisted_at_ms := en_persisted_at_ms e |}).

(** ** The critical sections

    Each is what an operation does to the entry under the write lock: the entry
    it leaves, the event it answers with, and the checkpoint to persist. *)

Record Mutation := {
  mu_entry : SessionLifecycleEntry;
  mu_event : SessionLifecycleEvent;
  mu_write : option (SessionLifecycleSnapshot * N)
}.

Definition checkpoint (id : string) (now : N) (event : SessionLifecycleEvent)
    (e : SessionLifecycleEntry) : Mutation :=
  let revision := u64_saturating_add (en_revision e) 1 in
  {| mu_entry := {| en_state := en_state e; en_attachments := en_attachments e;
                    en_next_sequence := en_next_sequence e; en_revision := revision;
                    en_updated_at_ms := en_updated_at_ms e; en_persisted_at_ms := now |};
     mu_event := event; mu_write := Some (snapshot_from_entry id e, revision) |}.

Definition unsaved (event : SessionLifecycleEvent) (e : SessionLifecycleEntry) : Mutation :=
  {| mu_entry := e; mu_event := event; mu_write := None |}.

Definition attachment (id : string) (actor : SessionActor) (attached_at now : N) :
  SessionAttachment :=
  {| at_session_id := id; at_actor := actor; at_attached_at_ms := attached_at;
     at_last_seen_ms := now |}.

Definition seen (now : N) (a : SessionAttachment) : SessionAttachment :=
  {| at_session_id := at_session_id a; at_actor := at_actor a;
     at_attached_at_ms := at_attached_at_ms a; at_last_seen_ms := now |}.

(** A recorded event: its number, then the checkpoint. *)
Definition recorded (id kind : string) (actor : option SessionActor)
    (state : SessionLifecycleState) (now : N) (e : SessionLifecycleEntry) : Mutation :=
  let '(event, e) := push_event id kind actor state now e in checkpoint id now event e.

(** [attach] *)
Definition attach_section (ttl : N) (id : string) (actor : SessionActor) (clk : nat -> N)
    (previous : option SessionLifecycleEntry) : Mutation :=
  let now := clk 1 in
  let '(e, expired) := prune_expired_attachments ttl now (default (entry_created (clk 0)) previous) in
  let attach_at t :=
    recorded id "session.attach" (Some actor) LsAttached now
      (with_attachments LsAttached
         (<[sa_id actor := attachment id actor t now]> (en_attachments e)) now e) in
  match en_attachments e !! sa_id actor with
  | Some x =>
      if String.eqb (sa_surface (at_actor x)) (sa_surface actor)
         && bool_decide (sa_role (at_actor x) = sa_role actor)
         && bool_decide (en_state e = LsAttached)
      then
        let due := (heartbeat_persist_interval ttl <=? now - en_persisted_at_ms e)%N in
        let e := with_attachments (en_state e) (<[sa_id actor := seen now x]> (en_attachments e))
                   now e in
        let event := observed_event id "session.presence_observed" (Some actor) now e in
        if expired || due then checkpoint id now event e else unsaved event e
      else attach_at (at_attached_at_ms x)
  | None => attach_at now
  end.

(** [detach] *)
Definition detach_section (ttl : N) (id actor_id : string) (clk : nat -> N)
    (previous : option SessionLifecycleEntry) : Mutation :=
  let '(e, expired) := prune_expired_attachments ttl (clk 0) (default entry_default previous) in
  match en_attachments e !! actor_id with
  | None =>
      let event := observed_event id "session.presence_absent" None (clk 1) e in
      if expired then checkpoint id (clk 2) event e else unsaved event e
  | Some x =>
      let left := delete actor_id (en_attachments e) in
      let state := if bool_decide (left = ∅) then LsDetached else LsAttached in
      recorded id "session.detach" (Some (at_actor x)) state (clk 1)
        (with_attachments state left (clk 1) e)
  end.

(** [mark_active] *)
Definition active_section (ttl : N) (id : string) (clk : nat -> N)
    (previous : option SessionLifecycleEntry) : Mutation :=
  let now := clk 1 in
  let '(e, expired) := prune_expired_attachments ttl (clk 0) (default entry_default previous) in
  if bool_decide (en_state e = LsActive)
  then
    let e := with_attachments (en_state e) (en_attachments e) now e in
    let event := observed_event id "session.active_observed" None now e in
    if expired then checkpoint id now event e else unsaved event e
  else
    recorded id "session.active" None LsActive now
      (with_attachments LsActive (en_attachments e) now e).

(** ** The ledger *)

Abbreviation Sessions := (gmap string SessionLifecycleEntry).

(** [validate_session_id], [validate_actor] *)
Definition validate_session_id (id : string) : Result string string :=
  if trim_is_empty id then Err "session_id is required"%string else Ok (trim id).

Definition validate_actor (a : SessionActor) : Result string unit :=
  guard_err (trim_is_empty (sa_id a) || trim_is_empty (sa_surface a))
    "actor.id and actor.surface are required"%string.

(** Attachments collected into a [HashMap]: the last of an id stays. *)
Definition collect_attachments (l : list SessionAttachment) : gmap string SessionAttachment :=
  foldl (fun m a => <[sa_id (at_actor a) := a]> m) ∅ l.

Definition conflict_message (id : string) : string :=
  "Session presence revision conflict for `" +:+ id +:+ "`; retry against the latest projection".

(** [restore_after_failed_persist] *)
Definition restore_after_failed_persist (error : string)
    (previous : option SessionLifecycleEntry) : option SessionLifecycleEntry :=
  if str_contains error "presence revision conflict" then None else previous.

Section Ledger.
Context `{AttachmentJson} {S : Type} `{PresenceStore S} (stored : bool) (ttl : N).

Definition entry_of_projection (p : SessionPresenceProjection) :
  Result string SessionLifecycleEntry :=
  state ← ok_or ("decode Session presence state: " +:+ unknown_state (pp_state p))%string
            (lifecycle_from_str (pp_state p));
  attachments ← map_err (fun m => "decode Session presence attachments: " +:+ m)%string
                  (attachments_from_json (pp_attachments_json p));
  Ok {| en_state := state; en_attachments := collect_attachments attachments;
        en_next_sequence := pp_next_sequence p; en_revision := pp_revision p;
        en_updated_at_ms := pp_updated_at_ms p; en_persisted_at_ms := pp_updated_at_ms p |}.

(** [ensure_loaded_locked] *)
Definition ensure_loaded (id : string) (slot : option SessionLifecycleEntry) (s : S) :
  Result string (option SessionLifecycleEntry) :=
  match slot with
  | Some _ => Ok slot
  | None =>
      if negb stored then Ok None
      else p ← get_presence id s;
           match p with
           | None => Ok None
           | Some p => e ← entry_of_projection p; Ok (Some e)
           end
  end.

Definition projection_of (n : SessionLifecycleSnapshot) (revision : N) (json : string) :
  SessionPresenceProjection :=
  {| pp_session_id := sn_session_id n; pp_state := lifecycle_as_str (sn_state n);
     pp_attachments_json := json; pp_next_sequence := sn_next_sequence n; pp_revision := revision;
     pp_updated_at_ms := sn_updated_at_ms n |}.

(** [persist] *)
Definition persist (n : SessionLifecycleSnapshot) (expected : option N) (revision : N) (s : S) :
  Result string unit * S :=
  if negb stored then (Ok tt, s)
  else
    match attachments_to_json (sn_attachments n) with
    | Err e => (Err e, s)
    | Ok json =>
        let '(changed, s) := compare_and_upsert (projection_of n revision json) expected s in
        (changed ← changed; guard_err (negb changed) (conflict_message (sn_session_id n)), s)
    end.

(** What follows the critical section: the checkpoint, if there is one. *)
Definition finish {A} (answer : A) (entry : SessionLifecycleEntry)
    (write : option (SessionLifecycleSnapshot * N)) (previous : option SessionLifecycleEntry)
    (env : nat -> S -> S) (s : S) : Result string A * option SessionLifecycleEntry * S :=
  match write with
  | None => (Ok answer, Some entry, s)
  | Some (snapshot, revision) =>
      match persist snapshot (en_revision <$> previous) revision (env 1 s) with
      | (Ok _, s) => (Ok answer, Some entry, s)
      | (Err e, s) => (Err e, restore_after_failed_persist e previous, s)
      end
  end.

(** An operation on one session: load, change, persist. *)
Definition mutate (section : option SessionLifecycleEntry -> Mutation) (env : nat -> S -> S)
    (id : string) (slot : option SessionLifecycleEntry) (s : S) :
  Result string SessionLifecycleEvent * option SessionLifecycleEntry * S :=
  let s := env 0 s in
  match ensure_loaded id slot s with
  | Err e => (Err e, slot, s)
  | Ok previous =>
      let m := section previous in
      finish (mu_event m) (mu_entry m) (mu_write m) previous env s
  end.

(** [expire_stale_attachments] *)
Definition expire (clk : nat -> N) (env : nat -> S -> S) (id : string)
    (slot : option SessionLifecycleEntry) (s : S) :
  Result string unit * option SessionLifecycleEntry * S :=
  let s := env 0 s in
  match ensure_loaded id slot s with
  | Err e => (Err e, slot, s)
  | Ok None => (Ok tt, None, s)
  | Ok (Some e) =>
      let '(e', expired) := prune_expired_attachments ttl (clk 0) e in
      if expired
      then let m := checkpoint id (clk 0) (observed_event id "" None (clk 0) e') e' in
           finish tt (mu_entry m) (mu_write m) (Some e) env s
      else (Ok tt, Some e, s)
  end.

(** The same on the sessions of a process. *)
Definition on_session {A} (id : string)
    (f : option SessionLifecycleEntry -> S -> Result string A * option SessionLifecycleEntry * S)
    (sessions : Sessions) (s : S) : Result string A * Sessions * S :=
  let '(r, slot, s) := f (sessions !! id) s in
  (r, match slot with Some e => <[id := e]> sessions | None => delete id sessions end, s).

Section Operations.
Context (clk : nat -> N) (env : nat -> S -> S).

Definition attach (session_id : string) (actor : SessionActor) (sessions : Sessions) (s : S) :
  Result string SessionLifecycleEvent * Sessions * S :=
  match id ← validate_session_id session_id; _ ← validate_actor actor; Ok id with
  | Err e => (Err e, sessions, s)
  | Ok id => on_session id (mutate (attach_section ttl id actor clk) env id) sessions s
  end.

Definition detach (session_id actor_id : string) (sessions : Sessions) (s : S) :
  Result string SessionLifecycleEvent * Sessions * S :=
  match
    id ← validate_session_id session_id;
    _ ← guard_err (trim_is_empty actor_id) "actor_id is required"%string; Ok id
  with
  | Err e => (Err e, sessions, s)
  | Ok id => on_session id (mutate (detach_section ttl id actor_id clk) env id) sessions s
  end.

Definition mark_active (session_id : string) (sessions : Sessions) (s : S) :
  Result string SessionLifecycleEvent * Sessions * S :=
  match validate_session_id session_id with
  | Err e => (Err e, sessions, s)
  | Ok id => on_session id (mutate (active_section ttl id clk) env id) sessions s
  end.

Definition expire_stale_attachments (session_id : string) (sessions : Sessions) (s : S) :
  Result string unit * Sessions * S :=
  match validate_session_id session_id with
  | Err e => (Err e, sessions, s)
  | Ok id => on_session id (expire clk env id) sessions s
  end.

(** [attachment_role]; the entry is looked up under the id as it was given. *)
Definition attachment_role (session_id actor_id : string) (sessions : Sessions) (s : S) :
  option string * Sessions * S :=
  match expire_stale_attachments session_id sessions s with
  | (Err _, sessions, s) => (None, sessions, s)
  | (Ok _, sessions, s) =>
      (e ← sessions !! session_id; a ← en_attachments e !! actor_id; sa_role (at_actor a),
       sessions, s)
  end.

(** [snapshot] *)
Definition presence_snapshot (session_id : string) (sessions : Sessions) (s : S) :
  option SessionLifecycleSnapshot * Sessions * S :=
  match expire_stale_attachments session_id sessions s with
  | (Err _, sessions, s) => (None, sessions, s)
  | (Ok _, sessions, s) => (snapshot_from_entry session_id <$> sessions !! session_id, sessions, s)
  end.
End Operations.

(** [snapshots], over the ids that [list_sessions] answers; the clock and the
    others by position. *)
Fixpoint expire_all (clks : nat -> nat -> N) (envs : nat -> nat -> S -> S) (n : nat)
    (ids : list string) (sessions : Sessions) (s : S) : Sessions * S :=
  match ids with
  | [] => (sessions, s)
  | id :: ids =>
      let '(_, sessions, s) := expire_stale_attachments (clks n) (envs n) id sessions s in
      expire_all clks envs (Datatypes.S n) ids sessions s
  end.

Definition presence_snapshots (clks : nat -> nat -> N) (envs : nat -> nat -> S -> S)
    (ids : list string) (sessions : Sessions) (s : S) :
  list SessionLifecycleSnapshot * Sessions * S :=
  let '(sessions, s) := if stored then expire_all clks envs 0 ids sessions s else (sessions, s) in
  ((fun p => snapshot_from_entry p.1 p.2) <$> btree_entries sessions, sessions, s).
End Ledger.

(** ** The rows in PostgreSQL *)

Definition i64_max : N := 9223372036854775807.

Definition to_i64 (value : N) (label : string) : Result string unit :=
  guard_err (i64_max <? value)%N ("session storage error: " +:+ label +:+ " overflow")%string.

(** [compare_and_upsert_session_presence_projection]: the conversions, then the
    [UPDATE] or the [INSERT], and whether it changed one row. *)
Definition upsert_row (p : SessionPresenceProjection) (expected : option N)
    (rows : gmap string SessionPresenceProjection) :
  Result string bool * gmap string SessionPresenceProjection :=
  match
    _ ← to_i64 (pp_next_sequence p) "presence next sequence";
    _ ← to_i64 (pp_revision p) "presence revision";
    _ ← to_i64 (pp_updated_at_ms p) "presence updated time";
    match expected with
    | Some r => to_i64 r "presence expected revision"
    | None => Ok tt
    end
  with
  | Err e => (Err e, rows)
  | Ok _ =>
      let changed :=
        match expected, rows !! pp_session_id p with
        | Some r, Some row => (pp_revision row =? r)%N
        | None, None => true
        | _, _ => false
        end in
      (Ok changed, if changed then <[pp_session_id p := p]> rows else rows)
  end.

#[export] Instance PresenceRows : PresenceStore (gmap string SessionPresenceProjection) := {
  get_presence id rows := Ok (rows !! id);
  compare_and_upsert := upsert_row
}.
