(* ===== verification/PresenceSafety.v ===== *)
(** * Presence is not lost

    The row of a session under any number of processes: every write is a move of
    an abstract presence, made from what the row shows ([presence_history_refines]);
    each operation, with others between its steps, is such a history
    ([presence_operation_recorded]). *)

From S2P Require Import Prelude SessionPresence.

(** ** What a store promises *)

(** Rows that read the same: [jsonb] keeps the value of the text, not the text. *)
Definition same_row `{AttachmentJson} (p q : SessionPresenceProjection) : Prop :=
  pp_session_id q = pp_session_id p /\ pp_state q = pp_state p /\
  attachments_from_json (pp_attachments_json q) = attachments_from_json (pp_attachments_json p) /\
  pp_next_sequence q = pp_next_sequence p /\ pp_revision q = pp_revision p /\
  pp_updated_at_ms q = pp_updated_at_ms p.

Definition replaces `{AttachmentJson} (p : SessionPresenceProjection) (expected : option N)
    (rows rows' : gmap string SessionPresenceProjection) : Prop :=
  pp_revision <$> rows !! pp_session_id p = expected /\
  (pp_next_sequence p <= i64_max)%N /\ (pp_revision p <= i64_max)%N /\
  exists q, same_row p q /\ rows' = <[pp_session_id p := q]> rows.

(** Reads see the rows; a write that reports a change has made it, one that
    reports none has not, and one that fails has made it or not. *)
Class PresenceStoreLaws `{AttachmentJson} (S : Type) `{PresenceStore S} := {
  ps_rows : S -> gmap string SessionPresenceProjection;
  ps_get : forall id s o, get_presence id s = Ok o -> o = ps_rows s !! id;
  ps_upsert : forall p expected s r s',
    compare_and_upsert p expected s = (r, s') ->
    (ps_rows s' = ps_rows s /\ r <> Ok true) \/
    (replaces p expected (ps_rows s) (ps_rows s') /\ r <> Ok false)
}.

Lemma upsert_row_spec `{AttachmentJson} p expected s r s' :
  upsert_row p expected s = (r, s') ->
  (s' = s /\ r <> Ok true) \/ (replaces p expected s s' /\ r <> Ok false).
Proof.
  intros Hu. unfold upsert_row in Hu.
  destruct (_ ← to_i64 _ _; _) as [?|?] eqn:E; [|by injection Hu as <- <-; left].
  ok_inv. unfold to_i64 in *.
  repeat match goal with H : guard_err _ _ = Ok _ |- _ => apply guard_err_Ok_inv, N.ltb_ge in H end.
  match type of Hu with (Ok ?c, _) = _ => set (changed := c) in Hu end.
  assert (changed = true -> pp_revision <$> s !! pp_session_id p = expected) as Hc.
  { subst changed. destruct expected, (s !! pp_session_id p); try done.
    intros Hch%N.eqb_eq. by subst. }
  destruct changed; injection Hu as <- <-; [right|by left].
  split; [|done]. split; [by apply Hc|]. do 2 (split; [done|]). exists p. by repeat split.
Qed.

#[export] Instance PresenceRows_laws `{AttachmentJson} :
  PresenceStoreLaws (gmap string SessionPresenceProjection).
Proof.
  refine {| ps_rows := fun rows => rows; ps_upsert := upsert_row_spec |}.
  by intros ? ? ? [= <-].
Defined.

(** ** The abstract presence *)

(** Who is attached, since when; the state; the next number; how often it was
    written. *)
Record View := {
  vw_state : SessionLifecycleState;
  vw_members : gmap string (SessionActor * N);
  vw_next : N;
  vw_revision : N
}.

Definition members (m : gmap string SessionAttachment) : gmap string (SessionActor * N) :=
  (fun a => (at_actor a, at_attached_at_ms a)) <$> m.

Definition view_of (e : SessionLifecycleEntry) : View :=
  {| vw_state := en_state e; vw_members := members (en_attachments e);
     vw_next := en_next_sequence e; vw_revision := en_revision e |}.

(** A move: those whose time is up are dropped, and then a surface attaches or
    detaches or the session is active, with a number, or nothing else changes. *)
Inductive presence_move (v : View) : View -> Prop :=
| PvAttach base a t :
    base ⊆ vw_members v -> (forall x, base !! sa_id a = Some x -> t = x.2) ->
    presence_move v {| vw_state := LsAttached; vw_members := <[sa_id a := (a, t)]> base;
                       vw_next := vw_next v + 1; vw_revision := vw_revision v + 1 |}
| PvDetach base i x :
    base ⊆ vw_members v -> base !! i = Some x ->
    presence_move v {| vw_state := if bool_decide (delete i base = ∅) then LsDetached
                                   else LsAttached;
                       vw_members := delete i base;
                       vw_next := vw_next v + 1; vw_revision := vw_revision v + 1 |}
| PvActive base :
    base ⊆ vw_members v -> vw_state v <> LsActive ->
    presence_move v {| vw_state := LsActive; vw_members := base;
                       vw_next := vw_next v + 1; vw_revision := vw_revision v + 1 |}
| PvRefresh base state :
    base ⊆ vw_members v ->
    state = vw_state v \/ (base = ∅ /\ vw_state v = LsAttached /\ state = LsDetached) ->
    presence_move v {| vw_state := state; vw_members := base;
                       vw_next := vw_next v; vw_revision := vw_revision v + 1 |}.

(** ** Entries and rows *)

Definition keyed (e : SessionLifecycleEntry) : Prop :=
  forall k a, en_attachments e !! k = Some a -> sa_id (at_actor a) = k.

Lemma members_empty m : members m = ∅ <-> m = ∅.
Proof. unfold members. split; [apply fmap_empty_inv|by intros ->; rewrite fmap_empty]. Qed.

Lemma prune_view ttl now e e' b :
  prune_expired_attachments ttl now e = (e', b) -> keyed e ->
  keyed e' /\ members (en_attachments e') ⊆ members (en_attachments e) /\
  en_next_sequence e' = en_next_sequence e /\ en_revision e' = en_revision e /\
  (en_state e' = en_state e \/
   (en_attachments e' = ∅ /\ en_state e = LsAttached /\ en_state e' = LsDetached)) /\
  (b = false -> e' = e).
Proof.
  unfold prune_expired_attachments. intros Hp Hk. destruct (size _ =? size _).
  - injection Hp as <- <-. by repeat split; try left.
  - injection Hp as <- <-. cbn. split; [|split; [|do 2 (split; [done|]); split; [|done]]].
    + intros k a Ha. cbn in Ha. apply map_lookup_filter_Some in Ha as [Ha _]. by apply Hk.
    + apply map_fmap_mono, map_filter_subseteq.
    + case_bool_decide as He; [|by left]. case_bool_decide; [|by left]. right. done.
Qed.

Lemma collect_lookup l k :
  collect_attachments l !! k = List.find (fun a => String.eqb (sa_id (at_actor a)) k) (rev l).
Proof.
  unfold collect_attachments.
  induction l as [|a l IH] using rev_ind; [apply lookup_empty|].
  rewrite foldl_app, rev_app_distr. cbn. destruct (String.eqb_spec (sa_id (at_actor a)) k) as [->|Hn].
  - apply lookup_insert_eq.
  - by rewrite lookup_insert_ne.
Qed.

Lemma collect_keyed l k a : collect_attachments l !! k = Some a -> sa_id (at_actor a) = k.
Proof. rewrite collect_lookup. intros [_ He]%List.find_some. by apply String.eqb_eq. Qed.

(** Sorting the attachments and collecting them again gives the same map. *)
Lemma collect_sorted m :
  (forall k a, m !! k = Some a -> sa_id (at_actor a) = k) ->
  collect_attachments (merge_sort attachment_le (map_to_list m).*2) = m.
Proof.
  intros Hk. apply map_eq. intros k.
  assert (forall a, a ∈ merge_sort attachment_le (map_to_list m).*2 <-> m !! sa_id (at_actor a) = Some a)
    as Hin.
  { intros a. rewrite merge_sort_Permutation. split.
    - intros ((i & x) & -> & Hx)%list_elem_of_fmap. apply elem_of_map_to_list in Hx. cbn.
      by rewrite (Hk _ _ Hx).
    - intros Ha. apply list_elem_of_fmap. exists (sa_id (at_actor a), a).
      split; [done|]. by apply elem_of_map_to_list. }
  rewrite collect_lookup. destruct (m !! k) as [a|] eqn:E.
  - destruct (List.find _ _) as [b|] eqn:F.
    + apply List.find_some in F as [Hb He]. apply String.eqb_eq in He.
      apply List.in_rev, list_elem_of_In, Hin in Hb. congruence.
    + apply (List.find_none _ _) with (x := a) in F.
      * apply String.eqb_neq in F. by rewrite (Hk _ _ E) in F.
      * apply -> List.in_rev. apply list_elem_of_In, Hin. by rewrite (Hk _ _ E).
  - destruct (List.find _ _) as [b|] eqn:F; [|done].
    apply List.find_some in F as [Hb He]. apply String.eqb_eq in He.
    apply List.in_rev, list_elem_of_In, Hin in Hb. congruence.
Qed.

Lemma lifecycle_roundtrip s : lifecycle_from_str (lifecycle_as_str s) = Some s.
Proof. by destruct s. Qed.

(** ** Mutations are moves *)

Lemma keyed_default : keyed entry_default.
Proof. intros k a Ha. cbn in Ha. by rewrite lookup_empty in Ha. Qed.

Lemma keyed_insert state i x now e :
  keyed e -> sa_id (at_actor x) = i ->
  keyed (with_attachments state (<[i := x]> (en_attachments e)) now e).
Proof.
  intros Hk Hi k a Ha. cbn in Ha. apply lookup_insert_Some in Ha as [[<- <-]|[_ Ha]]; [done|].
  by apply Hk.
Qed.

Lemma keyed_delete state i now e :
  keyed e -> keyed (with_attachments state (delete i (en_attachments e)) now e).
Proof. intros Hk k a Ha. cbn in Ha. apply lookup_delete_Some in Ha as [_ Ha]. by apply Hk. Qed.

Lemma members_lookup m k x :
  m !! k = Some x -> members m !! k = Some (at_actor x, at_attached_at_ms x).
Proof. unfold members. rewrite lookup_fmap. by intros ->. Qed.

(** What an operation does to the entry [e], or to a new one. *)
Definition saved (id : string) (e : SessionLifecycleEntry) (m : Mutation) : Prop :=
  keyed (mu_entry m) /\ presence_move (view_of e) (view_of (mu_entry m)) /\
  mu_write m = Some (snapshot_from_entry id (mu_entry m), en_revision (mu_entry m)).

Definition kept (e : SessionLifecycleEntry) (m : Mutation) : Prop :=
  keyed (mu_entry m) /\ view_of (mu_entry m) = view_of e /\ mu_write m = None.

Definition in_bounds (e : SessionLifecycleEntry) : Prop :=
  (en_next_sequence e < i64_max + 1)%N /\ (en_revision e < i64_max + 1)%N.

Lemma checkpoint_saved id now event e base :
  keyed base -> in_bounds e -> en_next_sequence base = en_next_sequence e ->
  en_revision base = en_revision e ->
  presence_move (view_of e)
    {| vw_state := en_state base; vw_members := members (en_attachments base);
       vw_next := en_next_sequence e; vw_revision := en_revision e + 1 |} ->
  saved id e (checkpoint id now event base).
Proof.
  intros Hk [_ Hr] Hn Hrev Hm. split; [done|]. split; [|done].
  unfold view_of at 2. cbn. rewrite Hrev, Hn. unfold u64_saturating_add.
  rewrite sat_add_exact; [done|]. unfold i64_max, u64_max in *. lia.
Qed.

Lemma recorded_saved id kind actor state m now e base :
  keyed (with_attachments state m now base) -> in_bounds e ->
  en_next_sequence base = en_next_sequence e -> en_revision base = en_revision e ->
  presence_move (view_of e)
    {| vw_state := state; vw_members := members m;
       vw_next := en_next_sequence e + 1; vw_revision := en_revision e + 1 |} ->
  saved id e (recorded id kind actor state now (with_attachments state m now base)).
Proof.
  intros Hk [Hn Hr] Hnb Hrb Hm. split; [done|]. split; [|done].
  unfold view_of at 2. cbn. rewrite Hrb, Hnb. unfold u64_saturating_add.
  rewrite sat_add_exact by (unfold i64_max, u64_max in *; lia).
  rewrite N.mod_small; [done|]. unfold i64_max in *. lia.
Qed.

(** The checkpoint of an entry that only lost attachments. *)
Lemma pruned_saved id ttl now now' event e e' b :
  prune_expired_attachments ttl now e = (e', b) -> keyed e -> in_bounds e ->
  saved id e (checkpoint id now' event e').
Proof.
  intros Hp Hk Hb. destruct (prune_view _ _ _ _ _ Hp Hk) as (Hk' & Hsub & Hn & Hr & Hs & _).
  apply checkpoint_saved; [done..|]. apply (PvRefresh (view_of e)); [done|].
  destruct Hs as [->|(He & Ha & ->)]; [by left|]. right. by rewrite He.
Qed.

Lemma attach_mutation ttl id actor clk previous :
  let e := default (entry_created (clk 0)) previous in
  keyed e -> in_bounds e ->
  let m := attach_section ttl id actor clk previous in saved id e m \/ kept e m.
Proof.
  cbn zeta. intros Hk Hb. unfold attach_section. set (e := default _ previous) in *.
  destruct (prune_expired_attachments ttl (clk 1) e) as [e' b] eqn:Hp.
  destruct (prune_view _ _ _ _ _ Hp Hk) as (Hk' & Hsub & Hn & Hr & Hs & Hb0).
  assert (forall t, (forall x, en_attachments e' !! sa_id actor = Some x -> t = at_attached_at_ms x) ->
    saved id e (recorded id "session.attach" (Some actor) LsAttached (clk 1)
      (with_attachments LsAttached
         (<[sa_id actor := attachment id actor t (clk 1)]> (en_attachments e')) (clk 1) e'))) as Ha.
  { intros t Ht. apply recorded_saved; [by apply keyed_insert|done..|].
    unfold members. rewrite fmap_insert.
    apply (PvAttach (view_of e) (members (en_attachments e'))); [done|].
    intros x. unfold members. rewrite lookup_fmap. destruct (_ !! _) eqn:E; [|done].
    intros [= <-]. by apply Ht. }
  destruct (en_attachments e' !! sa_id actor) as [x|] eqn:Hx; [|left; by apply Ha].
  destruct (String.eqb_spec (sa_surface (at_actor x)) (sa_surface actor)) as [Hsf|];
    [|left; apply Ha; congruence].
  case_bool_decide as Hrole; [|left; apply Ha; congruence].
  case_bool_decide as Hst; [|left; apply Ha; congruence]. cbn [andb].
  set (e1 := with_attachments (en_state e') (<[sa_id actor := seen (clk 1) x]> (en_attachments e')) (clk 1) e').
  assert (members (en_attachments e1) = members (en_attachments e')) as Hm.
  { cbn. unfold members. rewrite fmap_insert. cbn. apply insert_id. by apply members_lookup. }
  assert (keyed e1) as Hk1 by (apply keyed_insert; [done|]; by apply (Hk' _ _ Hx)).
  destruct b; [|destruct (_ <=? _)%N]; cbn [orb].
  1, 2: left; apply checkpoint_saved; [done..|]; rewrite Hm; cbn [e1 with_attachments en_state];
    apply (PvRefresh (view_of e)); [done|]; destruct Hs as [->|(He & ? & ?)]; [by left|congruence].
  right. split; [done|]. split; [|done]. unfold view_of at 1. cbn [mu_entry unsaved]. rewrite Hm.
  cbn. by rewrite (Hb0 eq_refl).
Qed.

Lemma detach_mutation ttl id actor_id clk previous :
  let e := default entry_default previous in
  keyed e -> in_bounds e ->
  let m := detach_section ttl id actor_id clk previous in saved id e m \/ kept e m.
Proof.
  cbn zeta. intros Hk Hb. unfold detach_section. set (e := default _ previous) in *.
  destruct (prune_expired_attachments ttl (clk 0) e) as [e' b] eqn:Hp.
  destruct (prune_view _ _ _ _ _ Hp Hk) as (Hk' & Hsub & Hn & Hr & Hs & Hb0).
  destruct (en_attachments e' !! actor_id) as [x|] eqn:Hx.
  - left. apply recorded_saved; [by apply keyed_delete|done..|].
    replace (bool_decide (delete actor_id (en_attachments e') = ∅))
      with (bool_decide (delete actor_id (members (en_attachments e')) = ∅)).
    { unfold members. rewrite fmap_delete.
      eapply (PvDetach (view_of e) (members (en_attachments e'))); [done|]. by apply members_lookup. }
    apply bool_decide_ext. rewrite <-(members_empty (delete _ _)). unfold members.
    by rewrite fmap_delete.
  - destruct b; [left; by eapply pruned_saved|]. right. cbn. by rewrite (Hb0 eq_refl).
Qed.

Lemma active_mutation ttl id clk previous :
  let e := default entry_default previous in
  keyed e -> in_bounds e ->
  let m := active_section ttl id clk previous in saved id e m \/ kept e m.
Proof.
  cbn zeta. intros Hk Hb. unfold active_section. set (e := default _ previous) in *.
  destruct (prune_expired_attachments ttl (clk 0) e) as [e' b] eqn:Hp.
  destruct (prune_view _ _ _ _ _ Hp Hk) as (Hk' & Hsub & Hn & Hr & Hs & Hb0).
  case_bool_decide as Hst.
  - destruct b; [left|right].
    + apply checkpoint_saved; [done..|]. apply (PvRefresh (view_of e)); [done|].
      cbn. destruct Hs as [->|(? & ? & ?)]; [by left|congruence].
    + split; [done|]. split; [|done]. cbn. by rewrite (Hb0 eq_refl).
  - left. apply recorded_saved; [done..|]. apply (PvActive (view_of e)); [done|].
    cbn. destruct Hs as [<-|(? & -> & ?)]; done.
Qed.

(** ** Histories of a row *)

Section Presence.
Context `{AttachmentJson} `{!AttachmentJsonLaws} {S : Type} `{PresenceStore S}
  `{!PresenceStoreLaws S} (id : string).

Definition row (s : S) : option SessionPresenceProjection := ps_rows s !! id.

(** What an operation may do to the entry a process has, or to none. *)
Inductive mutation (slot : option SessionLifecycleEntry) : Mutation -> Prop :=
| MuAttach ttl actor clk : mutation slot (attach_section ttl id actor clk slot)
| MuDetach ttl actor_id clk : mutation slot (detach_section ttl id actor_id clk slot)
| MuActive ttl clk : mutation slot (active_section ttl id clk slot)
| MuExpire ttl now event e e' :
    slot = Some e -> prune_expired_attachments ttl now e = (e', true) ->
    mutation slot (checkpoint id now event e').

(** An entry in memory comes from a row there has been, up to the times it was
    last seen; or it was never saved. *)
Definition grounded (h : list S) (slot : option SessionLifecycleEntry) : Prop :=
  match slot with
  | None => True
  | Some e =>
      keyed e /\ in_bounds e /\
      (en_revision e = 0%N \/
       exists x p e0, x ∈ h /\ row x = Some p /\ entry_of_projection p = Ok e0 /\
         view_of e0 = view_of e)
  end.

(** The states of the store, newest first: other rows change, and processes write
    the row from whatever grounded entry they have. *)
Inductive presence_history : list S -> Prop :=
| PresenceStart s : row s = None -> presence_history [s]
| PresenceElsewhere h s s' :
    presence_history (s :: h) -> row s' = row s -> presence_history (s' :: s :: h)
| PresenceWrite h s slot m n revision json r s' :
    presence_history (s :: h) -> grounded (s :: h) slot -> mutation slot m ->
    mu_write m = Some (n, revision) -> attachments_to_json (sn_attachments n) = Ok json ->
    compare_and_upsert (projection_of n revision json) (en_revision <$> slot) s = (r, s') ->
    presence_history (s' :: s :: h).

(** What the row shows. *)
Definition row_view (s : S) (v : View) : Prop :=
  match row s with
  | None => v = view_of entry_default
  | Some p => exists e, entry_of_projection p = Ok e /\ view_of e = v
  end.

Definition good_row (p : SessionPresenceProjection) : Prop :=
  exists e, entry_of_projection p = Ok e /\ keyed e /\ in_bounds e /\ (1 <= pp_revision p)%N.

Definition RowInv (s : S) (h : list S) : Prop :=
  forall x p, x ∈ h -> row x = Some p ->
    good_row p /\
    exists p', row s = Some p' /\ ((pp_revision p < pp_revision p')%N \/ p' = p).

Lemma entry_revision p e : entry_of_projection p = Ok e -> en_revision e = pp_revision p.
Proof. unfold entry_of_projection. intros He. ok_inv. by subst. Qed.

(** A saved entry is read back from its row. *)
Lemma saved_row e json revision q :
  keyed e -> attachments_to_json (sn_attachments (snapshot_from_entry id e)) = Ok json ->
  same_row (projection_of (snapshot_from_entry id e) revision json) q ->
  exists e0, entry_of_projection q = Ok e0 /\ en_attachments e0 = en_attachments e /\
    en_state e0 = en_state e /\ en_next_sequence e0 = en_next_sequence e /\
    en_revision e0 = revision.
Proof.
  intros Hk Hj (_ & Hs & Ha & Hn & Hr & _). cbn in *. unfold entry_of_projection.
  rewrite Hs, lifecycle_roundtrip, Ha, (attachments_roundtrip _ _ Hj). cbn.
  eexists. split; [done|]. cbn. by rewrite (collect_sorted _ Hk).
Qed.

Lemma mutation_cases slot m :
  mutation slot m -> let e := default entry_default slot in
  keyed e -> in_bounds e -> saved id e m \/ kept e m.
Proof.
  intros Hm. destruct Hm as [ttl actor clk|ttl actor_id clk|ttl clk|ttl now event e e' -> Hp]; cbn zeta.
  - intros Hk Hb. destruct slot as [e|]; by apply attach_mutation.
  - by apply detach_mutation.
  - by apply active_mutation.
  - intros Hk Hb. left. by eapply pruned_saved.
Qed.

Lemma grounded_default h slot :
  grounded h slot -> keyed (default entry_default slot) /\ in_bounds (default entry_default slot).
Proof. destruct slot; [by intros (? & ? & _)|]. intros _. split; [apply keyed_default|done]. Qed.

Lemma grounded_mono h h' slot :
  (forall x, x ∈ h -> x ∈ h') -> grounded h slot -> grounded h' slot.
Proof.
  destruct slot as [e|]; [|done]. intros Hi (Hk & Hb & [Hz|(x & p & e0 & Hx & Hp)]);
    (split; [done|split; [done|]]); [by left|]. right. exists x, p, e0. split; [by apply Hi|done].
Qed.

(** One write: nothing, or a move from what the row shows. *)
Lemma write_step s h slot m n revision json r s' :
  RowInv s (s :: h) -> grounded (s :: h) slot -> mutation slot m ->
  mu_write m = Some (n, revision) -> attachments_to_json (sn_attachments n) = Ok json ->
  compare_and_upsert (projection_of n revision json) (en_revision <$> slot) s = (r, s') ->
  (row s' = row s /\ r <> Ok true) \/
  (exists q e0 v, row s' = Some q /\ entry_of_projection q = Ok e0 /\
     view_of e0 = view_of (mu_entry m) /\ in_bounds (mu_entry m) /\
     keyed e0 /\ keyed (mu_entry m) /\
     row_view s v /\ presence_move v (view_of e0) /\ r <> Ok false /\
     (forall p, row s = Some p -> (pp_revision p < pp_revision q)%N) /\ (1 <= pp_revision q)%N).
Proof.
  intros Hi Hg Hm Hw Hj Hu. destruct (grounded_default _ _ Hg) as [Hk Hb].
  destruct (mutation_cases _ _ Hm Hk Hb) as [(Hkm & Hmv & Hwm)|(_ & _ & Hwm)]; [|congruence].
  rewrite Hw in Hwm. injection Hwm as -> ->.
  destruct (ps_upsert _ _ _ _ _ Hu) as [[He Hr]|[(Hex & Hbn & Hbr & q & Hq & He) Hr]];
    [left; split; [unfold row; by rewrite He|done]|]. right.
  cbn [projection_of snapshot_from_entry sn_session_id pp_session_id] in Hex, He.
  destruct (saved_row _ _ _ _ Hkm Hj Hq) as (e0 & He0 & Hat & Hst & Hnx & Hrv).
  assert (view_of e0 = view_of (mu_entry m)) as Hv by (unfold view_of; congruence).
  assert (in_bounds (mu_entry m)) as Hbm.
  { cbn in Hbn, Hbr. unfold in_bounds. lia. }
  assert (row_view s (view_of (default entry_default slot))) as Hrow.
  { unfold row_view. destruct (row s) as [p|] eqn:Hp; unfold row in Hp; rewrite Hp in Hex.
    - destruct slot as [e|]; [|done]. cbn in Hex. injection Hex as Hex. cbn in Hk, Hb |- *.
      destruct (Hi s p ltac:(left) Hp) as [(ep & Hep & _ & _ & Hp1) _].
      destruct Hg as (_ & _ & [Hz|(x & px & ex & Hx & Hpx & Hdx & Hvx)]); [lia|].
      destruct (Hi x px Hx Hpx) as [_ (p' & Hp' & Hor)]. unfold row in Hp'. rewrite Hp in Hp'.
      injection Hp' as <-. pose proof (entry_revision _ _ Hdx) as Hrx.
      assert (en_revision ex = en_revision e) as Hree by (by apply (f_equal vw_revision) in Hvx).
      destruct Hor as [Hlt| ->]; [lia|]. by exists ex.
    - destruct slot; done. }
  exists q, e0, (view_of (default entry_default slot)).
  split; [unfold row; by rewrite He, lookup_insert_eq|]. do 3 (split; [done|]).
  split. { intros k a. rewrite Hat. apply Hkm. }
  do 2 (split; [done|]). split; [by rewrite Hv|]. split; [done|].
  assert (pp_revision q = en_revision (default entry_default slot) + 1)%N as Hrq.
  { rewrite <-(entry_revision _ _ He0), Hrv. change (vw_revision (view_of (mu_entry m)) = vw_revision (view_of (default entry_default slot)) + 1)%N.
    by destruct Hmv. }
  split; [|lia]. intros p Hp. unfold row in Hp. rewrite Hp in Hex. destruct slot as [e|]; [|done].
  injection Hex as Hex. cbn in Hrq. lia.
Qed.

Lemma row_inv_same s s' h : row s' = row s -> RowInv s (s :: h) -> RowInv s' (s' :: s :: h).
Proof.
  intros Hr Hi x p Hx Hp. rewrite Hr. apply elem_of_cons in Hx as [->|Hx].
  - rewrite Hr in Hp. by apply (Hi s); [left|].
  - by apply (Hi x).
Qed.

Lemma history_row_inv l : presence_history l -> exists s h, l = s :: h /\ RowInv s (s :: h).
Proof.
  induction 1 as [s Hs|h s s' Hh IH Hr|h s slot m n revision json r s' Hh IH Hg Hm Hw Hj Hu].
  - exists s, []. split; [done|]. intros x p Hx Hp. apply list_elem_of_singleton in Hx as ->. congruence.
  - destruct IH as (s0 & h0 & [= <- <-] & Hi). exists s', (s :: h). split; [done|].
    by apply row_inv_same.
  - destruct IH as (s0 & h0 & [= <- <-] & Hi). exists s', (s :: h). split; [done|].
    destruct (write_step _ _ _ _ _ _ _ _ _ Hi Hg Hm Hw Hj Hu)
      as [[Hr _]|(q & e0 & v & Hq & He0 & Hv & Hb & Hk0 & _ & _ & _ & _ & Hlt & Hge)];
      [by apply row_inv_same|].
    assert (good_row q) as Hgood.
    { exists e0. split; [done|]. split; [done|]. split; [|done].
      apply (f_equal vw_revision) in Hv as Hvr. apply (f_equal vw_next) in Hv as Hvn.
      cbn in Hvr, Hvn. unfold in_bounds in *. by rewrite Hvr, Hvn. }
    intros x p Hx Hp. rewrite Hq. apply elem_of_cons in Hx as [->|Hx].
    + rewrite Hq in Hp. injection Hp as <-. split; [done|]. exists q. by split; [|right].
    + destruct (Hi x p Hx Hp) as [Hg' (p' & Hp' & Hor)]. split; [done|]. exists q.
      split; [done|]. left. specialize (Hlt p' Hp'). destruct Hor as [?| ->]; lia.
Qed.

Lemma presence_history_inv s h : presence_history (s :: h) -> RowInv s (s :: h).
Proof. intros Hh. by destruct (history_row_inv _ Hh) as (? & ? & [= <- <-] & ?). Qed.

Lemma row_view_total s h : presence_history (s :: h) -> exists v, row_view s v.
Proof.
  intros Hh%presence_history_inv. unfold row_view. destruct (row s) as [p|] eqn:Hp; [|by eexists].
  destruct (Hh s p ltac:(left) Hp) as [(e & He & _) _]. by exists (view_of e), e.
Qed.

Lemma row_view_same s s' v : row s' = row s -> row_view s v -> row_view s' v.
Proof. unfold row_view. by intros ->. Qed.


(** ** Operations among others *)

(** What others do between the steps of an operation. *)
Definition presence_others (env : nat -> S -> S) : Prop :=
  forall n s h, presence_history (s :: h) ->
    exists h', presence_history (env n s :: h') /\ forall x, x ∈ s :: h -> x ∈ env n s :: h'.

Lemma loaded_grounded s h slot previous :
  presence_history (s :: h) -> grounded (s :: h) slot ->
  ensure_loaded true id slot s = Ok previous ->
  grounded (s :: h) previous /\ (is_Some slot -> previous = slot).
Proof.
  intros Hh Hg Hl. unfold ensure_loaded in Hl. destruct slot as [e|].
  { injection Hl as <-. done. }
  cbn in Hl. ok_inv. split; [|by intros []]. pose proof (ps_get _ _ _ Ha) as Hrow.
  destruct a as [p|]; [|by injection Hl as <-]. ok_inv. subst.
  destruct (presence_history_inv _ _ Hh s p ltac:(left) (eq_sym Hrow)) as [(e & He & Hk & Hb & _) _].
  assert (e = a) as -> by congruence. split; [done|]. split; [done|]. right.
  exists s, p, a. split; [left|done].
Qed.

Lemma kept_grounded h slot m :
  grounded h slot -> kept (default entry_default slot) m -> grounded h (Some (mu_entry m)).
Proof.
  intros Hg (Hk & Hv & _).
  apply (f_equal vw_revision) in Hv as Hvr. apply (f_equal vw_next) in Hv as Hvn. cbn in Hvr, Hvn.
  destruct (grounded_default _ _ Hg) as [_ Hb]. split; [done|].
  split; [unfold in_bounds in *; by rewrite Hvr, Hvn|]. rewrite Hvr, Hv.
  destruct slot as [e|]; [by destruct Hg as (_ & _ & ?)|by left].
Qed.

Lemma restored_grounded h e slot : grounded h slot -> grounded h (restore_after_failed_persist e slot).
Proof. unfold restore_after_failed_persist. by destruct (str_contains _ _). Qed.

(** The end of an operation. *)
Lemma finish_recorded {A} (answer : A) m slot env s h res slot' s' :
  presence_history (s :: h) -> grounded (s :: h) slot -> presence_others env -> mutation slot m ->
  finish true answer (mu_entry m) (mu_write m) slot env s = (res, slot', s') ->
  (exists h', presence_history (s' :: h') /\ (forall x, x ∈ s :: h -> x ∈ s' :: h') /\
    grounded (s' :: h') slot') /\
  match res with
  | Ok a => a = answer /\ slot' = Some (mu_entry m) /\
            (is_Some (mu_write m) -> row_view s' (view_of (mu_entry m)))
  | Err e => slot' = restore_after_failed_persist e slot
  end.
Proof.
  intros Hh Hg He Hm Hf. unfold finish in Hf.
  destruct (grounded_default _ _ Hg) as [Hk Hb].
  destruct (mu_write m) as [[n revision]|] eqn:Hw.
  2: { injection Hf as <- <- <-. split; [|by split; [|split; [|intros []]]].
       exists h. do 2 (split; [done|]).
       destruct (mutation_cases _ _ Hm Hk Hb) as [(_ & _ & Hwm)|Hkp]; [congruence|].
       by apply (kept_grounded _ slot). }
  destruct (He 1 s h Hh) as (h1 & Hh1 & Hsub). pose proof (grounded_mono _ _ _ Hsub Hg) as Hg1.
  unfold persist in Hf. cbn [negb] in Hf.
  destruct (attachments_to_json (sn_attachments n)) as [json|e] eqn:Hj.
  2: { injection Hf as <- <- <-. split; [|done]. exists h1. do 2 (split; [done|]).
       by apply restored_grounded. }
  destruct (compare_and_upsert _ _ (env 1 s)) as [r s1] eqn:Hu.
  pose proof (PresenceWrite _ _ _ _ _ _ _ _ _ Hh1 Hg1 Hm Hw Hj Hu) as Hh2.
  assert (forall x, x ∈ s :: h -> x ∈ s1 :: env 1 s :: h1) as Hsub2
    by (intros x Hx; right; by apply Hsub).
  destruct (write_step _ _ _ _ _ _ _ _ _ (presence_history_inv _ _ Hh1) Hg1 Hm Hw Hj Hu)
    as [[Hr Hne]|(q & e0 & v & Hq & He0 & Hv & Hbm & Hk0 & Hkm & _ & _ & Hne & _)].
  - destruct r as [[]|e]; [done| |]; cbn in Hf; injection Hf as <- <- <-;
      (split; [|done]); eexists; (split; [done|]); (split; [done|]);
      apply restored_grounded; by apply (grounded_mono (s :: h)).
  - destruct r as [[]|e]; [|done|]; cbn in Hf; injection Hf as <- <- <-.
    + split.
      * eexists. do 2 (split; [done|]). split; [done|]. split; [done|]. right.
        exists s1, q, e0. split; [left|done].
      * do 2 (split; [done|]). intros _. unfold row_view. rewrite Hq. by exists e0.
    + split; [|done]. eexists. do 2 (split; [done|]).
      apply restored_grounded. by apply (grounded_mono (s :: h)).
Qed.

(** An operation whose change of the entry is [section]. *)
Lemma presence_operation section env slot s h res slot' s' :
  (forall slot, mutation slot (section slot)) ->
  presence_history (s :: h) -> grounded (s :: h) slot -> presence_others env ->
  mutate true section env id slot s = (res, slot', s') ->
  (exists h', presence_history (s' :: h') /\ (forall x, x ∈ s :: h -> x ∈ s' :: h') /\
    grounded (s' :: h') slot') /\
  forall event, res = Ok event -> exists previous,
    (is_Some slot -> previous = slot) /\
    let m := section previous in
    event = mu_event m /\ slot' = Some (mu_entry m) /\
    (is_Some (mu_write m) -> row_view s' (view_of (mu_entry m))).
Proof.
  intros Hs Hh Hg He Hm. unfold mutate in Hm. cbn zeta in Hm.
  destruct (He 0 s h Hh) as (h0 & Hh0 & Hsub). pose proof (grounded_mono _ _ _ Hsub Hg) as Hg0.
  destruct (ensure_loaded true id slot (env 0 s)) as [previous|e] eqn:Hl.
  - destruct (loaded_grounded _ _ _ _ Hh0 Hg0 Hl) as [Hgp Hp].
    destruct (finish_recorded _ _ _ _ _ _ _ _ _ Hh0 Hgp He (Hs previous) Hm)
      as [(h' & Hh' & Hsub' & Hg') Hres].
    split; [exists h'; split; [done|]; split; [|done]; intros x Hx; by apply Hsub', Hsub|].
    intros event ->. exists previous. by split.
  - injection Hm as <- <- <-. split; [|done]. by exists h0.
Qed.

(** What [attach] leaves in memory: the actor, seen just now. *)
Definition present (actor : SessionActor) (now : N) (m : Mutation) : Prop :=
  (exists a, en_attachments (mu_entry m) !! sa_id actor = Some a /\
     sa_surface (at_actor a) = sa_surface actor /\ sa_role (at_actor a) = sa_role actor /\
     at_last_seen_ms a = now) /\
  en_state (mu_entry m) = LsAttached /\
  (le_event_type (mu_event m) = "session.attach"%string ->
   is_Some (mu_write m) /\
   en_next_sequence (mu_entry m) = ((le_sequence (mu_event m) + 1) mod 2 ^ 64)%N).

Lemma attach_section_present ttl actor clk slot :
  present actor (clk 1) (attach_section ttl id actor clk slot).
Proof.
  unfold attach_section. destruct (prune_expired_attachments _ _ _) as [e b].
  assert (forall t, present actor (clk 1) (recorded id "session.attach" (Some actor) LsAttached (clk 1)
     (with_attachments LsAttached (<[sa_id actor := attachment id actor t (clk 1)]> (en_attachments e))
        (clk 1) e))) as Ha.
  { intros t. split; [|by split; [|intros _; split; [eexists|]]].
    exists (attachment id actor t (clk 1)). by split; [apply lookup_insert_eq|]. }
  destruct (en_attachments e !! sa_id actor) as [x|]; [|apply Ha].
  destruct (String.eqb_spec (sa_surface (at_actor x)) (sa_surface actor)) as [Hs|]; [|apply Ha].
  case_bool_decide as Hr; [|apply Ha]. case_bool_decide as Hst; [|apply Ha]. cbn [andb].
  destruct (_ || _); (split; [|by split]); exists (seen (clk 1) x);
    (split; [apply lookup_insert_eq|by split]).
Qed.

(** An attachment that was answered is there.  With other processes before the row
    is read and before it is written, [attach] leaves the store in a history of
    the row and the process with an entry from it; no other session of the process
    is touched.  When it succeeds, the surface is attached in memory with the role
    it asked for and was seen at the reading of the clock; and when the event says
    so, the row shows exactly what is in memory, with the next number after the
    event's. *)
Theorem attach_recorded ttl clk env session_id actor sessions s h res sessions' s' :
  trim session_id = id -> presence_history (s :: h) -> grounded (s :: h) (sessions !! id) ->
  presence_others env ->
  attach true ttl clk env session_id actor sessions s = (res, sessions', s') ->
  (exists h', presence_history (s' :: h') /\ (forall x, x ∈ s :: h -> x ∈ s' :: h') /\
    grounded (s' :: h') (sessions' !! id)) /\
  (forall k, k <> id -> sessions' !! k = sessions !! k) /\
  forall event, res = Ok event -> exists e a,
    sessions' !! id = Some e /\ en_attachments e !! sa_id actor = Some a /\
    sa_surface (at_actor a) = sa_surface actor /\ sa_role (at_actor a) = sa_role actor /\
    at_last_seen_ms a = clk 1 /\
    (le_event_type event = "session.attach"%string ->
     row_view s' (view_of e) /\ en_next_sequence e = ((le_sequence event + 1) mod 2 ^ 64)%N).
Proof.
  intros Hid Hh Hg He Ha. unfold attach in Ha.
  destruct (_ ← validate_session_id session_id; _) as [i|] eqn:Hv.
  2: { injection Ha as <- <- <-. split; [by exists h|]. by split. }
  ok_inv. subst i. unfold validate_session_id in Ha0. destruct (trim_is_empty session_id); [done|].
  injection Ha0 as <-. rewrite Hid in Ha. unfold on_session in Ha.
  destruct (mutate _ _ _ _ _ _) as [[r slot'] s1] eqn:Hm. injection Ha as <- <- <-.
  apply (presence_operation _ _ _ _ h) in Hm as [Hhist Hres];
    [|intros; apply MuAttach|done..].
  assert (match slot' with Some e => <[id:=e]> sessions | None => delete id sessions end !! id = slot')
    as Hslot by (destruct slot'; [apply lookup_insert_eq|apply lookup_delete_eq]).
  split; [by rewrite Hslot|]. split.
  { intros k Hk. destruct slot'; [by rewrite lookup_insert_ne|by rewrite lookup_delete_ne]. }
  intros event ->. rewrite Hslot. destruct (Hres event eq_refl) as (previous & _ & -> & -> & Hrow).
  destruct (attach_section_present ttl actor clk previous) as [(a & Hla & Hsf & Hro & Hls) [_ Hev]].
  eexists _, a. split; [done|]. do 4 (split; [done|]). intros Hk. destruct (Hev Hk) as [Hw Hn].
  split; [by apply Hrow|done].
Qed.
End Presence.
