(* ===== verification/PresenceFaults.v ===== *)
(** * Where presence fails

    Two behaviours of [session/src/lifecycle.rs] on the rows of PostgreSQL: an
    entry that was never saved makes the next write fail, and a surface that is
    alive is taken for gone. *)

From S2P Require Import Prelude SessionPresence.

(** No other process does anything. *)
Definition quiet (_ : nat) (rows : gmap string SessionPresenceProjection) :
  gmap string SessionPresenceProjection := rows.

Lemma prune_drops ttl now e e' b k x :
  prune_expired_attachments ttl now e = (e', b) -> en_attachments e !! k = Some x ->
  fresh now ttl x = false -> b = true /\ en_attachments e' !! k = None.
Proof.
  unfold prune_expired_attachments. intros Hp Hx Hf.
  assert (filter (fun q => fresh now ttl q.2 = true) (en_attachments e) !! k = None) as Hn.
  { apply map_lookup_filter_None. right. intros y Hy. cbn. rewrite Hx in Hy. injection Hy as <-.
    by rewrite Hf. }
  destruct (Nat.eqb_spec (size (filter (fun q => fresh now ttl q.2 = true) (en_attachments e)))
              (size (en_attachments e))) as [Hsz|_]; [|by injection Hp as <- <-].
  by rewrite (filter_same_size _ _ Hsz), Hx in Hn.
Qed.

(** A surface whose time is up has no role, whatever becomes of the checkpoint. *)
Lemma expired_has_no_role `{AttachmentJson} {S} `{PresenceStore S} stored ttl clk env session_id
    actor_id (sessions : Sessions) (s : S) e x :
  trim session_id = session_id ->
  ensure_loaded stored session_id (sessions !! session_id) (env 0 s) = Ok (Some e) ->
  en_attachments e !! actor_id = Some x -> fresh (clk 0) ttl x = false ->
  (attachment_role stored ttl clk env session_id actor_id sessions s).1.1 = None.
Proof.
  intros Ht Hl Hx Hf. unfold attachment_role, expire_stale_attachments, validate_session_id.
  destruct (trim_is_empty session_id); [done|]. rewrite Ht. unfold on_session, expire. cbn zeta.
  rewrite Hl. destruct (prune_expired_attachments ttl (clk 0) e) as [e' b] eqn:Hp.
  destruct (prune_drops _ _ _ _ _ _ _ Hp Hx Hf) as [-> Hgone].
  unfold finish. cbn [mu_write checkpoint].
  destruct (persist _ _ _ _ _) as [[u|err] rows']; [|done].
  rewrite lookup_insert_eq. cbn. by rewrite Hgone.
Qed.

Section Faults.
Context `{AttachmentJson} (ttl : N) (session_id id : string).
Context (Hid : trim session_id = id) (Hne : trim_is_empty session_id = false).

Lemma prune_no_attachments now e :
  en_attachments e = ∅ -> prune_expired_attachments ttl now e = (e, false).
Proof. intros He. unfold prune_expired_attachments. by rewrite He, map_filter_empty. Qed.

Lemma prune_all_fresh now e :
  (forall k a, en_attachments e !! k = Some a -> fresh now ttl a = true) ->
  prune_expired_attachments ttl now e = (e, false).
Proof.
  intros Hf. unfold prune_expired_attachments. rewrite map_filter_id, Nat.eqb_refl; [done|].
  intros k a Ha. by apply (Hf k).
Qed.

Lemma attach_runs clk actor sessions rows :
  validate_actor actor = Ok tt ->
  attach true ttl clk quiet session_id actor sessions rows
  = on_session id (mutate true (attach_section ttl id actor clk) quiet id) sessions rows.
Proof.
  intros Ha. unfold attach, validate_session_id. rewrite Hne, Hid. cbn. by rewrite Ha.
Qed.

(** The first attachment to a session without a row. *)
Definition first_attach (actor : SessionActor) (clk : nat -> N) (rest : SessionLifecycleEntry) :
  Mutation :=
  recorded id "session.attach" (Some actor) LsAttached (clk 1)
    (with_attachments LsAttached (<[sa_id actor := attachment id actor (clk 1) (clk 1)]> ∅) (clk 1) rest).

Lemma attach_section_empty actor clk slot :
  en_attachments (default (entry_created (clk 0)) slot) = ∅ ->
  attach_section ttl id actor clk slot
  = first_attach actor clk (default (entry_created (clk 0)) slot).
Proof.
  intros He. unfold attach_section, first_attach. rewrite prune_no_attachments by done.
  by rewrite He, lookup_empty.
Qed.

Lemma load_none (rows : gmap string SessionPresenceProjection) :
  rows !! id = None -> ensure_loaded true id None rows = Ok None.
Proof.
  intros Hr. unfold ensure_loaded. cbn [negb].
  change (get_presence id rows) with (Ok (E := string) (rows !! id)). by rewrite Hr.
Qed.

Lemma load_row (rows : gmap string SessionPresenceProjection) p e :
  rows !! id = Some p -> entry_of_projection p = Ok e ->
  ensure_loaded true id None rows = Ok (Some e).
Proof.
  intros Hr He. unfold ensure_loaded. cbn [negb].
  change (get_presence id rows) with (Ok (E := string) (rows !! id)). rewrite Hr. cbn.
  by rewrite He.
Qed.

Lemma mutate_loaded section slot slot' (rows : gmap string SessionPresenceProjection) :
  ensure_loaded true id slot rows = Ok slot' ->
  mutate true section quiet id slot rows
  = finish true (mu_event (section slot')) (mu_entry (section slot')) (mu_write (section slot'))
      slot' quiet rows.
Proof. intros Hl. unfold mutate. cbn zeta. change (quiet 0 rows) with rows. by rewrite Hl. Qed.

Lemma detach_absent actor_id clk sessions rows :
  trim_is_empty actor_id = false -> sessions !! id = None -> rows !! id = None ->
  detach true ttl clk quiet session_id actor_id sessions rows
  = (Ok (observed_event id "session.presence_absent" None (clk 1) entry_default),
     <[id := entry_default]> sessions, rows).
Proof.
  intros Ha Hs Hr. unfold detach, validate_session_id. rewrite Hne, Hid. cbn. rewrite Ha. cbn.
  unfold on_session. rewrite Hs, (mutate_loaded _ _ None) by (by apply load_none).
  unfold detach_section. cbn [default]. by rewrite prune_no_attachments.
Qed.

(** A first attachment that is written, by expectation. *)
Lemma first_attach_finish actor (clk : nat -> N) rest
    (rows : gmap string SessionPresenceProjection) previous json :
  en_attachments rest = ∅ -> en_next_sequence rest = 0%N -> en_revision rest = 0%N ->
  rows !! id = None -> (clk 1%nat <= i64_max)%N ->
  attachments_to_json [attachment id actor (clk 1) (clk 1)] = Ok json ->
  (en_revision <$> previous = None \/ en_revision <$> previous = Some 0%N) ->
  let m := first_attach actor clk rest in
  let '(r, _, rows') := finish true (mu_event m) (mu_entry m) (mu_write m) previous quiet rows in
  match previous with
  | None => r = Ok (mu_event m)
  | Some _ => r = Err (conflict_message id) /\ rows' = rows
  end.
Proof.
  intros He Hn Hrv Hr Hc Hj Hp. cbn zeta.
  set (m := first_attach actor clk rest).
  assert (sn_attachments (snapshot_from_entry id (mu_entry m)) = [attachment id actor (clk 1) (clk 1)])
    as Hsn by (cbn; by rewrite insert_empty, map_to_list_singleton).
  assert (mu_write m = Some (snapshot_from_entry id (mu_entry m), 1%N)) as -> by (unfold m; cbn; by rewrite Hrv).
  unfold finish, persist. cbn [negb]. rewrite Hsn, Hj.
  change (compare_and_upsert ?p ?x ?s) with (upsert_row p x s). unfold upsert_row, quiet.
  cbn [pp_next_sequence pp_revision pp_updated_at_ms projection_of pp_session_id sn_session_id
       snapshot_from_entry sn_next_sequence sn_updated_at_ms].
  assert (en_next_sequence (mu_entry m) = 1%N) as -> by (unfold m; cbn; by rewrite Hn).
  change (en_updated_at_ms (mu_entry m)) with (clk 1). rewrite Hr.
  unfold to_i64. replace (i64_max <? clk 1%nat)%N with false by (symmetry; by apply N.ltb_ge).
  destruct previous as [e|]; [|done]. cbn [fmap option_fmap option_map] in *.
  destruct Hp as [|[= ->]]; [done|]. by split.
Qed.

(** A detachment of somebody who is not there makes the next attachment fail.  A
    session has no row and no entry: the detachment of an unknown surface answers
    that it is absent, writes nothing, and leaves an entry with revision zero in
    memory; the next [attach], by whatever surface, expects that revision in a row
    that does not exist, and fails with a revision conflict though nobody else
    wrote.  Without the detachment the same [attach] succeeds. *)
Theorem absent_detach_blocks_attach actor_id actor (clk clk' : nat -> N) (sessions : Sessions)
    (rows : gmap string SessionPresenceProjection) json :
  trim_is_empty actor_id = false -> validate_actor actor = Ok tt ->
  sessions !! id = None -> rows !! id = None -> (clk' 1%nat <= i64_max)%N ->
  attachments_to_json [attachment id actor (clk' 1) (clk' 1)] = Ok json ->
  exists absent event sessions1,
    detach true ttl clk quiet session_id actor_id sessions rows = (Ok absent, sessions1, rows) /\
    le_event_type absent = "session.presence_absent"%string /\
    (attach true ttl clk' quiet session_id actor sessions1 rows).1.1
      = Err (conflict_message id) /\
    (attach true ttl clk' quiet session_id actor sessions1 rows).2 = rows /\
    (attach true ttl clk' quiet session_id actor sessions rows).1.1 = Ok event /\
    le_event_type event = "session.attach"%string.
Proof.
  intros Ha Hv Hs Hr Hc Hj.
  eexists _, _, _. split; [by apply detach_absent|]. split; [done|].
  rewrite !attach_runs by done. unfold on_session. rewrite lookup_insert_eq, Hs.
  rewrite (mutate_loaded _ (Some entry_default) (Some entry_default)) by done.
  rewrite (mutate_loaded _ None None) by (by apply load_none).
  rewrite !attach_section_empty by done. cbn [default from_option].
  pose proof (first_attach_finish actor clk' entry_default rows (Some entry_default) json
    eq_refl eq_refl eq_refl Hr Hc Hj (or_intror eq_refl)) as H1.
  pose proof (first_attach_finish actor clk' (entry_created (clk' 0)) rows None json
    eq_refl eq_refl eq_refl Hr Hc Hj (or_introl eq_refl)) as H2.
  cbn zeta in H1, H2. destruct (finish _ _ _ _ (Some _) _ _) as [[r1 slot1] rows1].
  destruct (finish _ _ _ _ None _ _) as [[r2 slot2] rows2]. destruct H1 as [-> ->]. subst r2.
  by repeat split.
Qed.

(** A surface that is alive is taken for gone.  An attached surface calls again
    within its time; the row was written a short while ago, on behalf of another
    surface.  The call is answered and writes nothing, so the row still has the
    time at which this surface was seen before.  As soon as that time is up, a
    process that has only the row, another one or this one after a restart, drops
    the surface and knows of no role for it, however recent its call is. *)
Theorem heartbeat_not_durable actor (clk clk' : nat -> N)
    (rows : gmap string SessionPresenceProjection) p e x :
  session_id = id -> validate_actor actor = Ok tt ->
  rows !! id = Some p -> entry_of_projection p = Ok e ->
  en_state e = LsAttached -> en_attachments e !! sa_id actor = Some x -> at_actor x = actor ->
  (forall k a, en_attachments e !! k = Some a -> fresh (clk 1) ttl a = true) ->
  (clk 1%nat - pp_updated_at_ms p < heartbeat_persist_interval ttl)%N ->
  fresh (clk' 0) ttl x = false ->
  exists event sessions,
    attach true ttl clk quiet session_id actor ∅ rows = (Ok event, sessions, rows) /\
    le_event_type event = "session.presence_observed"%string /\
    (attachment_role true ttl clk' quiet session_id (sa_id actor) ∅ rows).1.1 = None.
Proof.
  intros Hsid Hv Hr He Hst Hx Hax Hall Hdue Hold.
  rewrite attach_runs by done. unfold on_session.
  rewrite lookup_empty, (mutate_loaded _ _ (Some e)) by (by apply (load_row rows p)).
  unfold attach_section. change (default _ (Some e)) with e. rewrite prune_all_fresh by done.
  cbv beta iota zeta. rewrite Hx, Hax.
  rewrite String.eqb_refl, !bool_decide_true by done. cbn [andb orb].
  assert (en_persisted_at_ms e = pp_updated_at_ms p) as ->
    by (unfold entry_of_projection in He; ok_inv; by subst).
  apply N.leb_gt in Hdue. rewrite Hdue. cbn.
  eexists _, _. split; [done|]. split; [done|].
  apply (expired_has_no_role _ _ _ _ _ _ _ _ e x); [congruence| |done..].
  rewrite lookup_empty, Hsid. by apply (load_row rows p).
Qed.
End Faults.
