(* ===== verification/WriterLease.v ===== *)
(** * Writer leases of a session

    [session/src/lease.rs]: who may write to a session, alone or together.  Each
    operation runs under the write lock of the registry and is atomic. *)

From S2P Require Import Prelude.

Record SessionLease := {
  sl_session_id : string;
  sl_owner : string;
  sl_mode : string;
  sl_acquired_at_ms : N
}.

Abbreviation Owners := (gmap string SessionLease).
Abbreviation Leases := (gmap string (gmap string SessionLease)).

(** [values().next()] of a [HashMap]: some value, if there is one. *)
Class FirstValue := { first_value : Owners -> option SessionLease }.

Class FirstValueLaws `{FirstValue} := {
  first_value_some : forall m l, first_value m = Some l -> exists o, m !! o = Some l;
  first_value_none : forall m, first_value m = None -> m = ∅
}.

(** The answers, which the code writes as JSON. *)
Inductive LeaseAnswer :=
| LeaseGranted (lease : SessionLease) (existing : option bool)
| LeaseRefused (error : string) (session_id : option string) (holder : option (string * string))
| LeaseReleased (session_id : string) (released : bool).

Definition answer_ok (a : LeaseAnswer) : bool :=
  match a with LeaseRefused _ _ _ => false | _ => true end.

Definition COLLABORATIVE : string := "collaborative".
Definition EXCLUSIVE : string := "exclusive".
Definition TAKEOVER : string := "takeover".

Definition identity_required : LeaseAnswer :=
  LeaseRefused "session_id and owner are required" None None.

Definition all_collaborative (m : Owners) : bool :=
  forallb (fun l => String.eqb (sl_mode l) COLLABORATIVE) (map_to_list m).*2.

Definition held_by (error session_id : string) (holder : SessionLease) : LeaseAnswer :=
  LeaseRefused error (Some session_id) (Some (sl_owner holder, sl_mode holder)).

Definition normalized_mode (mode : string) : string :=
  if memb [EXCLUSIVE; COLLABORATIVE; TAKEOVER] mode then mode else COLLABORATIVE.

Definition lease_of (session_id owner mode : string) (now : N) : SessionLease :=
  {| sl_session_id := session_id; sl_owner := owner; sl_mode := mode; sl_acquired_at_ms := now |}.

Section Registry.
Context `{FirstValue}.

(** Why an owner may not have a lease beside those there are. *)
Definition acquire_refusal (session_id owner mode : string) (existing : Owners) :
  option LeaseAnswer :=
  let same_owner := bool_decide (is_Some (existing !! owner)) in
  let compatible := String.eqb mode COLLABORATIVE && all_collaborative existing in
  let takeover := String.eqb mode TAKEOVER in
  match
    if negb same_owner && negb compatible && negb takeover then first_value existing else None
  with
  | Some holder =>
      Some (held_by "session lease is held by another owner" session_id holder)
  | None =>
      if same_owner && String.eqb mode EXCLUSIVE
         && existsb (fun o => negb (String.eqb o owner)) (map_to_list existing).*1
      then Some (LeaseRefused
             "exclusive session lease requires takeover while collaborators remain"
             (Some session_id) None)
      else None
  end.

(** [acquire] *)
Definition acquire (now : N) (session_id owner mode : string) (leases : Leases) :
  LeaseAnswer * Leases :=
  if trim_is_empty session_id || trim_is_empty owner then (identity_required, leases)
  else
    let mode := normalized_mode mode in
    match leases !! session_id ≫= acquire_refusal session_id owner mode with
    | Some refusal => (refusal, leases)
    | None =>
        let lease :=
          lease_of session_id owner (if String.eqb mode TAKEOVER then EXCLUSIVE else mode) now in
        let owners := default ∅ (leases !! session_id) in
        let owners := if String.eqb mode TAKEOVER then ∅ else owners in
        (LeaseGranted lease None, <[session_id := <[owner := lease]> owners]> leases)
    end.

(** [ensure_writer] *)
Definition ensure_writer (now : N) (session_id owner : string) (leases : Leases) :
  LeaseAnswer * Leases :=
  if trim_is_empty session_id || trim_is_empty owner then (identity_required, leases)
  else
    let lease := lease_of session_id owner COLLABORATIVE now in
    match leases !! session_id with
    | Some existing =>
        match existing !! owner with
        | Some lease => (LeaseGranted lease (Some true), leases)
        | None =>
            match if negb (all_collaborative existing) then first_value existing else None with
            | Some holder =>
                (held_by "session lease is held exclusively by another owner" session_id holder,
                 leases)
            | None =>
                (LeaseGranted lease (Some false),
                 <[session_id := <[owner := lease]> existing]> leases)
            end
        end
    | None => (LeaseGranted lease (Some false), <[session_id := {[owner := lease]}]> leases)
    end.

(** [release] *)
Definition release (session_id owner : string) (leases : Leases) : LeaseAnswer * Leases :=
  match leases !! session_id with
  | Some existing =>
      let left := delete owner existing in
      match existing !! owner with
      | Some _ =>
          (LeaseReleased session_id true,
           if bool_decide (left = ∅) then delete session_id leases
           else <[session_id := left]> leases)
      | None =>
          match first_value existing with
          | Some holder =>
              (held_by "session lease is held by another owner" session_id holder, leases)
          | None => (LeaseReleased session_id false, delete session_id leases)
          end
      end
  | None => (LeaseReleased session_id false, leases)
  end.

(** [list]: sorted by session and then by owner. *)
Definition list_leases (leases : Leases) : list SessionLease :=
  btree_values leases ≫= btree_values.

(** [active_session_ids] *)
Definition active_session_ids (leases : Leases) : list string :=
  (List.filter (fun p => negb (bool_decide (p.2 = ∅))) (btree_entries leases)).*1.

(** ** The invariant *)

Record OwnersInv (session_id : string) (m : Owners) : Prop := {
  oi_nonempty : m <> ∅;
  oi_keys : forall o l, m !! o = Some l ->
    sl_owner l = o /\ sl_session_id l = session_id /\ sl_mode l ∈ [COLLABORATIVE; EXCLUSIVE];
  oi_exclusive : forall o l o', m !! o = Some l -> sl_mode l = EXCLUSIVE ->
    is_Some (m !! o') -> o' = o
}.

Definition LeasesInv (leases : Leases) : Prop :=
  forall session_id m, leases !! session_id = Some m -> OwnersInv session_id m.

(** The operations of the registry, with their clock and arguments. *)
Inductive lease_step (leases : Leases) : Leases -> Prop :=
| LeaseAcquire now session_id owner mode :
    lease_step leases (acquire now session_id owner mode leases).2
| LeaseEnsure now session_id owner : lease_step leases (ensure_writer now session_id owner leases).2
| LeaseRelease session_id owner : lease_step leases (release session_id owner leases).2.

Lemma all_collaborative_spec m :
  all_collaborative m = true <-> forall o l, m !! o = Some l -> sl_mode l = COLLABORATIVE.
Proof.
  unfold all_collaborative. rewrite forallb_elem_of. split.
  - intros Ha o l Hl. apply String.eqb_eq, Ha, list_elem_of_fmap. exists (o, l). split; [done|].
    by apply elem_of_map_to_list.
  - intros Ha l ((o & x) & -> & Hx)%list_elem_of_fmap. apply elem_of_map_to_list in Hx.
    apply String.eqb_eq. by apply (Ha o).
Qed.

Lemma other_owner_spec (m : Owners) owner :
  existsb (fun o => negb (String.eqb o owner)) (map_to_list m).*1 = false <->
  forall o, is_Some (m !! o) -> o = owner.
Proof.
  rewrite existsb_false. split.
  - intros Ha o [l Hl]. specialize (Ha o). rewrite negb_false_iff, String.eqb_eq in Ha.
    apply Ha, list_elem_of_fmap. exists (o, l). split; [done|]. by apply elem_of_map_to_list.
  - intros Ha o ((o' & l) & -> & Hl)%list_elem_of_fmap. apply elem_of_map_to_list in Hl. cbn.
    rewrite negb_false_iff. apply String.eqb_eq, Ha. by exists l.
Qed.

Lemma modes_differ : COLLABORATIVE <> EXCLUSIVE.
Proof. done. Qed.

(** A collaborator joins collaborators. *)
Lemma owners_join session_id owner now m :
  (forall o l, m !! o = Some l ->
     sl_owner l = o /\ sl_session_id l = session_id /\ sl_mode l ∈ [COLLABORATIVE; EXCLUSIVE]) ->
  all_collaborative m = true ->
  OwnersInv session_id (<[owner := lease_of session_id owner COLLABORATIVE now]> m).
Proof.
  intros Hk Ha. rewrite all_collaborative_spec in Ha. split.
  - apply insert_non_empty.
  - intros o l [[<- <-]|[_ Hl]]%lookup_insert_Some; [|by apply Hk]. split; [done|]. split; [done|left].
  - intros o l o' [[<- <-]|[_ Hl]]%lookup_insert_Some Hm; [done|].
    by rewrite (Ha _ _ Hl) in Hm.
Qed.

Lemma owners_alone session_id owner mode now :
  mode ∈ [COLLABORATIVE; EXCLUSIVE] ->
  OwnersInv session_id {[owner := lease_of session_id owner mode now]}.
Proof.
  intros Hm. split; [apply insert_non_empty| |].
  - intros o l [<- <-]%lookup_singleton_Some. done.
  - intros o l o' [<- <-]%lookup_singleton_Some _ [x Hx].
    by apply lookup_singleton_Some in Hx as [<- _].
Qed.

Lemma owners_release session_id owner m :
  OwnersInv session_id m -> delete owner m <> ∅ -> OwnersInv session_id (delete owner m).
Proof.
  intros [_ Hk He] Hn. split; [done| |].
  - intros o l [_ Hl]%lookup_delete_Some. by apply Hk.
  - intros o l o' [_ Hl]%lookup_delete_Some Hm [x [_ Hx]%lookup_delete_Some]. by eapply He.
Qed.

Lemma leases_insert session_id m leases :
  LeasesInv leases -> OwnersInv session_id m -> LeasesInv (<[session_id := m]> leases).
Proof. intros Hi Hm s x [[<- <-]|[_ Hx]]%lookup_insert_Some; [done|]. by apply Hi. Qed.

Lemma leases_delete session_id leases : LeasesInv leases -> LeasesInv (delete session_id leases).
Proof. intros Hi s x [_ Hx]%lookup_delete_Some. by apply Hi. Qed.

Lemma normalized_mode_cases mode :
  normalized_mode mode = COLLABORATIVE \/ normalized_mode mode = EXCLUSIVE \/
  normalized_mode mode = TAKEOVER.
Proof.
  unfold normalized_mode. destruct (memb _ mode) eqn:E; [|by left].
  apply memb_true in E. set_solver.
Qed.

Context `{!FirstValueLaws}.

(** What it means that an acquisition is not refused. *)
Lemma acquire_not_refused session_id owner mode m :
  OwnersInv session_id m -> acquire_refusal session_id owner mode m = None ->
  mode = TAKEOVER \/
  (mode <> EXCLUSIVE /\ (all_collaborative m = true \/ forall o, is_Some (m !! o) -> o = owner)) \/
  forall o, is_Some (m !! o) -> o = owner.
Proof.
  intros Hm Hr. unfold acquire_refusal in Hr.
  destruct (String.eqb_spec mode TAKEOVER) as [|Ht]; [by left|]. right.
  case_bool_decide as Hs.
  - cbn [negb andb] in Hr. destruct (String.eqb_spec mode EXCLUSIVE) as [|Hne].
    + right. apply other_owner_spec. cbn [andb] in Hr. by destruct (existsb _ _).
    + left. split; [done|]. destruct (all_collaborative m) eqn:Ha; [by left|right].
      apply not_true_iff_false in Ha. rewrite all_collaborative_spec in Ha.
      destruct Hs as [l Hl]. intros o Ho. destruct (decide (sl_mode l = EXCLUSIVE)) as [He|He].
      { by apply (oi_exclusive _ _ Hm owner l). }
      exfalso. apply Ha. intros o' l' Hl'.
      destruct (oi_keys _ _ Hm o' l' Hl') as (_ & _ & Hmode).
      apply elem_of_cons in Hmode as [|Hmode]; [done|]. apply list_elem_of_singleton in Hmode.
      assert (owner = o') as <- by (eapply (oi_exclusive _ _ Hm); eauto). congruence.
  - cbn [negb andb] in Hr. rewrite andb_true_r in Hr.
    destruct (String.eqb_spec mode COLLABORATIVE) as [->|Hc]; cbn [negb andb] in Hr.
    + destruct (all_collaborative m) eqn:Ha; [left; split; [done|by left]|]. cbn [negb] in Hr.
      destruct (first_value m) eqn:Hf; [done|]. by destruct (oi_nonempty _ _ Hm (first_value_none _ Hf)).
    + destruct (first_value m) eqn:Hf; [done|]. by destruct (oi_nonempty _ _ Hm (first_value_none _ Hf)).
Qed.

Lemma acquire_inv now session_id owner mode leases :
  LeasesInv leases -> LeasesInv (acquire now session_id owner mode leases).2.
Proof.
  intros Hi. unfold acquire. destruct (_ || _); [done|]. cbn zeta.
  destruct (leases !! session_id ≫= _) as [a|] eqn:Hr; [done|]. cbn [snd].
  apply leases_insert; [done|].
  destruct (String.eqb_spec (normalized_mode mode) TAKEOVER) as [Ht|Ht].
  { rewrite insert_empty. apply owners_alone. set_solver. }
  assert (normalized_mode mode ∈ [COLLABORATIVE; EXCLUSIVE]) as Hmode.
  { destruct (normalized_mode_cases mode) as [->|[->|?]]; [left|right; left|done]. }
  destruct (leases !! session_id) as [m|] eqn:Hm; cbn in Hr |- *.
  2: { rewrite insert_empty. by apply owners_alone. }
  specialize (Hi _ _ Hm).
  assert ((forall o, is_Some (m !! o) -> o = owner) ->
    OwnersInv session_id (<[owner := lease_of session_id owner (normalized_mode mode) now]> m)) as Halone.
  { intros Ho. replace (<[owner := _]> m) with ({[owner := lease_of session_id owner (normalized_mode mode) now]} : Owners).
    { by apply owners_alone. }
    apply map_eq. intros o. destruct (decide (o = owner)) as [->|Hn].
    - by rewrite lookup_singleton_eq, lookup_insert_eq.
    - rewrite lookup_singleton_ne, lookup_insert_ne by done. symmetry.
      destruct (m !! o) eqn:E; [|done]. exfalso. by apply Hn, Ho. }
  destruct (acquire_not_refused _ _ _ _ Hi Hr) as [?|[[Hne Hor]|Ho]]; [done| |by apply Halone].
  assert (normalized_mode mode = COLLABORATIVE) as Hc.
  { destruct (normalized_mode_cases mode) as [?|[?|?]]; done. }
  destruct Hor as [Ha|Ho]; [|by apply Halone]. rewrite Hc.
  apply owners_join; [|done]. apply (oi_keys _ _ Hi).
Qed.

Lemma ensure_inv now session_id owner leases :
  LeasesInv leases -> LeasesInv (ensure_writer now session_id owner leases).2.
Proof.
  intros Hi. unfold ensure_writer. destruct (_ || _); [done|]. cbn zeta.
  destruct (leases !! session_id) as [m|] eqn:Hm.
  - destruct (m !! owner); [done|]. destruct (all_collaborative m) eqn:Ha; cbn [negb].
    + apply leases_insert; [done|]. apply owners_join; [|done]. apply (oi_keys _ _ (Hi _ _ Hm)).
    + destruct (first_value m) eqn:Hf; [done|].
      by destruct (oi_nonempty _ _ (Hi _ _ Hm) (first_value_none _ Hf)).
  - apply leases_insert; [done|]. apply owners_alone. left.
Qed.

Lemma release_inv session_id owner leases :
  LeasesInv leases -> LeasesInv (release session_id owner leases).2.
Proof.
  intros Hi. unfold release. destruct (leases !! session_id) as [m|] eqn:Hm; [|done]. cbn zeta.
  destruct (m !! owner).
  - cbn. case_bool_decide; [by apply leases_delete|]. apply leases_insert; [done|].
    apply owners_release; [|done]. by apply Hi.
  - destruct (first_value m); [done|]. by apply leases_delete.
Qed.

Lemma writer_step_inv leases leases' : lease_step leases leases' -> LeasesInv leases -> LeasesInv leases'.
Proof. intros [] ?; [by apply acquire_inv|by apply ensure_inv|by apply release_inv]. Qed.

Lemma writer_run_inv leases : rtc lease_step ∅ leases -> LeasesInv leases.
Proof.
  intros Hr. apply (rtc_ind_r (R := lease_step) LeasesInv ∅) with (3 := Hr).
  - intros s m Hm. by rewrite lookup_empty in Hm.
  - intros y z _ Hyz. by apply writer_step_inv.
Qed.

Lemma owners_exclusive session_id m o l owner lease :
  OwnersInv session_id m -> m !! o = Some l -> sl_mode l = EXCLUSIVE -> m !! owner = Some lease ->
  m = {[owner := lease]}.
Proof.
  intros Hi Ho He Hl. assert (owner = o) as -> by (by apply (oi_exclusive _ _ Hi o l)).
  apply map_eq. intros k. destruct (decide (k = o)) as [->|Hn]; [by rewrite lookup_singleton_eq|].
  rewrite lookup_singleton_ne by done. destruct (m !! k) eqn:E; [|done].
  exfalso. apply Hn. by apply (oi_exclusive _ _ Hi o l).
Qed.

(** C29. An exclusive lease is alone.  After any sequence of acquisitions, admissions
    and releases by any owners, with any modes: whoever holds an exclusive lease of
    a session is the only one who holds any; and every owner on record has one
    lease, which names that owner and that session. *)
Theorem exclusive_lease_is_alone leases session_id m owner lease :
  rtc lease_step ∅ leases ->
  leases !! session_id = Some m -> m !! owner = Some lease ->
  sl_owner lease = owner /\ sl_session_id lease = session_id /\
  sl_mode lease ∈ [COLLABORATIVE; EXCLUSIVE] /\
  (sl_mode lease = EXCLUSIVE -> m = {[owner := lease]}).
Proof.
  intros Hr Hm Hl. specialize (writer_run_inv _ Hr _ _ Hm) as Hi.
  destruct (oi_keys _ _ Hi _ _ Hl) as (Ho & Hs & Hmode). do 3 (split; [done|]).
  intros He. by apply (owners_exclusive session_id m owner lease).
Qed.

(** What an admission does: the owner has a lease that was there or is
    collaborative, and every other lease stays as it is. *)
Lemma ensure_admitted now session_id owner leases a leases' :
  LeasesInv leases -> ensure_writer now session_id owner leases = (a, leases') ->
  answer_ok a = true ->
  LeasesInv leases' /\
  (exists m lease, leases' !! session_id = Some m /\ m !! owner = Some lease /\
     (sl_mode lease = EXCLUSIVE -> leases !! session_id = Some m)) /\
  forall s m o l, leases !! s = Some m -> m !! o = Some l ->
    exists m', leases' !! s = Some m' /\ m' !! o = Some l.
Proof.
  intros Hi He Hok. pose proof (ensure_inv now session_id owner _ Hi) as Hi'. rewrite He in Hi'.
  split; [done|]. unfold ensure_writer in He. destruct (_ || _); [by injection He as <- <-|].
  cbn zeta in He.
  assert (forall m, (leases !! session_id = Some m /\ m !! owner = None) \/
                    (leases !! session_id = None /\ m = ∅) ->
    (exists m' lease, <[session_id := <[owner := lease_of session_id owner COLLABORATIVE now]> m]> leases
        !! session_id = Some m' /\ m' !! owner = Some lease /\
        (sl_mode lease = EXCLUSIVE -> leases !! session_id = Some m')) /\
    forall s x o l, leases !! s = Some x -> x !! o = Some l ->
      exists m', <[session_id := <[owner := lease_of session_id owner COLLABORATIVE now]> m]> leases
        !! s = Some m' /\ m' !! o = Some l) as Hins.
  { intros m Hm. split.
    - eexists _, _. split; [apply lookup_insert_eq|]. split; [apply lookup_insert_eq|]. done.
    - intros s x o l Hx Hl. destruct (decide (s = session_id)) as [->|Hn].
      + eexists. split; [apply lookup_insert_eq|].
        destruct Hm as [[Hm Ho]|[Hm _]]; [|congruence].
        assert (x = m) as -> by congruence. rewrite lookup_insert_ne; [done|]. intros <-. congruence.
      + exists x. by rewrite lookup_insert_ne. }
  destruct (leases !! session_id) as [m|] eqn:Hm.
  - destruct (m !! owner) as [l|] eqn:Ho.
    { injection He as <- <-. split; [by exists m, l|]. intros s x o l' Hx Hl. by exists x. }
    destruct (if negb (all_collaborative m) then first_value m else None);
      injection He as <- <-; [done|]. apply Hins. by left.
  - injection He as <- <-. rewrite <-insert_empty. apply Hins. by right.
Qed.

Lemma ensure_refused_same now session_id owner leases a leases' :
  ensure_writer now session_id owner leases = (a, leases') -> answer_ok a = false -> leases' = leases.
Proof.
  unfold ensure_writer. destruct (_ || _); [by intros [= <- <-]|]. cbn zeta.
  destruct (leases !! session_id) as [m|]; [|by intros [= <- <-]].
  destruct (m !! owner); [by intros [= <- <-]|].
  destruct (if negb (all_collaborative m) then first_value m else None); by intros [= <- <-].
Qed.

(** An owner is refused while another has an exclusive lease. *)
Lemma ensure_refused now session_id owner other leases m lease :
  LeasesInv leases -> leases !! session_id = Some m -> m !! other = Some lease ->
  sl_mode lease = EXCLUSIVE -> owner <> other ->
  let '(a, leases') := ensure_writer now session_id owner leases in
  answer_ok a = false /\ leases' = leases.
Proof.
  intros Hi Hm Hl He Hn. unfold ensure_writer. destruct (_ || _); [done|]. cbn zeta. rewrite Hm.
  destruct (m !! owner) as [l|] eqn:Ho.
  { exfalso. apply Hn. eapply (oi_exclusive _ _ (Hi _ _ Hm)); eauto. }
  destruct (all_collaborative m) eqn:Ha; cbn [negb].
  { rewrite all_collaborative_spec in Ha. by rewrite (Ha _ _ Hl) in He. }
  destruct (first_value m) eqn:Hf; [done|].
  by destruct (oi_nonempty _ _ (Hi _ _ Hm) (first_value_none _ Hf)).
Qed.
End Registry.
