(* ===== verification/SessionAdmission.v ===== *)
(** * Writers at the gateway

    [gateway/src/api_routes/mod.rs], [session_routes.rs], [runtime_routes.rs],
    [message_routes.rs], [live_routes.rs]: what a request must show before it may
    change a session, on the presence ledger and the lease registry.

    A request takes several steps.  What the other tasks of the gateway do to the
    leases between the check of the role and the use of the registry is [between];
    what other processes do to the rows is [env], as in [SessionPresence]. *)

From S2P Require Import Prelude SessionPresence PresenceFaults WriterLease.
From S2P Require Import Approval.

(** ** Principals and surfaces *)

(** The characters of an observer id: ASCII letters and digits, [:-_.]. *)
Definition observer_char (a : Ascii.ascii) : bool :=
  let n := Ascii.N_of_ascii a in
  (((48 <=? n) && (n <=? 58)) || ((65 <=? n) && (n <=? 90)) || ((97 <=? n) && (n <=? 122))
   || (n =? 45) || (n =? 95) || (n =? 46))%N.

(** [validated_session_observer_id] *)
Definition validated_session_observer_id (observer_id : string) : option string :=
  let value := trim observer_id in
  if negb (String.eqb value "") && (str_len value <=? 128)%N && str_forallb observer_char value
  then Some value else None.

Definition principal_actor_id (p : PrincipalClaims) : string := "principal:" +:+ pl_principal_id p.

Definition surface_actor_id (p : PrincipalClaims) (surface : string) : string :=
  principal_actor_id p +:+ ":surface:" +:+ trim surface.

Definition session_lease_owner (p : PrincipalClaims) (observer_id : string) : string :=
  "principal:" +:+ pl_principal_id p +:+ ":observer:" +:+ observer_id.

(** ** Answers *)

Inductive StatusCode :=
| BAD_REQUEST | FORBIDDEN | NOT_FOUND | CONFLICT | INTERNAL_SERVER_ERROR | SERVICE_UNAVAILABLE.

Record ApiError := { ae_status : StatusCode; ae_error : string }.

Definition fail {A} (status : StatusCode) (error : string) : Result ApiError A :=
  Err {| ae_status := status; ae_error := error |}.

(** The header [x-cowd-observer-id]: absent, not text, or text. *)
Inductive ObserverHeader := HeaderAbsent | HeaderNotText | HeaderText (value : string).

(** ** Access to a session *)

Inductive SessionAccess := AccessRead | AccessWrite | AccessDestructive.

Definition access_debug (a : SessionAccess) : string :=
  match a with
  | AccessRead => "Read" | AccessWrite => "Write" | AccessDestructive => "Destructive"
  end.

Definition session_access_authorized (access : SessionAccess)
    (owner_matches explicit_session explicit_mission manager : bool) : bool :=
  match access with
  | AccessRead => owner_matches || explicit_session || explicit_mission || manager
  | AccessWrite => owner_matches || explicit_session || manager
  | AccessDestructive => owner_matches || manager
  end.

(** What the stores say about a session: whether it is stored and who owns it,
    whether it runs, and the missions it belongs to. *)
Record AccessFacts := {
  af_stored : Result string (option (option string));
  af_active : bool;
  af_missions : list string
}.

Definition has_scope (p : PrincipalClaims) (scope : string) : bool :=
  existsb (fun s => String.eqb s scope) (pl_scopes p).

Definition maintainer (p : PrincipalClaims) : bool :=
  is_human_interactive p && has_capability p "runtime.maintenance.manage".

(** [authorize_session_access] *)
Definition authorize_session_access (facts : AccessFacts) (p : PrincipalClaims)
    (session_id : string) (access : SessionAccess) : Result ApiError unit :=
  match af_stored facts with
  | Err e => fail INTERNAL_SERVER_ERROR ("failed to resolve session ownership: " +:+ e)
  | Ok record =>
      if bool_decide (record = None) && negb (af_active facts)
      then fail NOT_FOUND ("session " +:+ session_id +:+ " not found")
      else if session_access_authorized access
                (bool_decide (record ≫= (fun owner => owner) = Some (pl_principal_id p)))
                (has_scope p ("session:" +:+ session_id))
                (existsb (fun mission => has_scope p ("mission:" +:+ mission)) (af_missions facts))
                (maintainer p)
      then Ok tt
      else fail FORBIDDEN ("session " +:+ session_id
             +:+ " is outside the authenticated principal scope for " +:+ access_debug access
             +:+ " access")
  end.

(** ** Routes *)

Section Routes.
Context `{AttachmentJson} {S : Type} `{PresenceStore S} `{FirstValue} (stored : bool) (ttl : N).

(** The state of the gateway: the entries of the presence ledger, the store behind
    them, and the lease registry where there is one. *)
Record Gateway := {
  gw_sessions : Sessions;
  gw_store : S;
  gw_leases : option Leases
}.

Definition with_presence (sessions : Sessions) (s : S) (g : Gateway) : Gateway :=
  {| gw_sessions := sessions; gw_store := s; gw_leases := gw_leases g |}.

Definition with_leases (leases : Leases) (g : Gateway) : Gateway :=
  {| gw_sessions := gw_sessions g; gw_store := gw_store g; gw_leases := Some leases |}.

Section Request.
Context (clk : nat -> N) (env : nat -> S -> S) (between : Leases -> Leases).

(** [lifecycle_attachment_role] *)
Definition lifecycle_attachment_role (session_id actor_id : string) (g : Gateway) :
  option string * Gateway :=
  let '(role, sessions, s) :=
    attachment_role stored ttl clk env session_id actor_id (gw_sessions g) (gw_store g) in
  (role, with_presence sessions s g).

(** The other tasks run. *)
Definition others_run (g : Gateway) : Gateway :=
  {| gw_sessions := gw_sessions g; gw_store := gw_store g; gw_leases := between <$> gw_leases g |}.

Definition required_observer (header : ObserverHeader) : Result ApiError string :=
  match header with
  | HeaderAbsent => fail FORBIDDEN "session mutation requires x-cowd-observer-id"
  | HeaderNotText => fail FORBIDDEN "x-cowd-observer-id is not valid UTF-8"
  | HeaderText value =>
      match validated_session_observer_id value with
      | Some observer_id => Ok observer_id
      | None => fail FORBIDDEN "x-cowd-observer-id is invalid"
      end
  end.

(** [require_session_writer_admission]; [now] is the clock of the registry. *)
Definition require_session_writer_admission (now : N) (p : PrincipalClaims)
    (header : ObserverHeader) (session_id : string) (g : Gateway) :
  Result ApiError string * Gateway :=
  match required_observer header with
  | Err e => (Err e, g)
  | Ok observer_id =>
      let '(role, g) := lifecycle_attachment_role session_id (surface_actor_id p observer_id) g in
      if negb (bool_decide (role = Some "writer"%string))
      then (fail FORBIDDEN
              (if bool_decide (role = Some "reader"%string)
               then "reader session attachment cannot execute mutations"
               else "session mutation requires an attached writer Surface"), g)
      else
        let owner := session_lease_owner p observer_id in
        let g := others_run g in
        match gw_leases g with
        | None =>
            (fail SERVICE_UNAVAILABLE
               "session lease registry unavailable; mutation is fail-closed", g)
        | Some leases =>
            let '(a, leases) := ensure_writer now session_id owner leases in
            (match a with
             | LeaseRefused error _ _ => fail CONFLICT error
             | _ => Ok owner
             end, with_leases leases g)
        end
  end.

(** The observer of a route whose header must be text. *)
Definition header_observer (error : string) (header : ObserverHeader) : Result ApiError string :=
  match header with
  | HeaderText value =>
      match validated_session_observer_id value with
      | Some observer_id => Ok observer_id
      | None => fail BAD_REQUEST error
      end
  | _ => fail BAD_REQUEST error
  end.

(** [required_writer_observer] *)
Definition required_writer_observer (p : PrincipalClaims) (header : ObserverHeader)
    (session_id : string) (g : Gateway) : Result ApiError string * Gateway :=
  match header_observer "session lease mutation requires a valid x-cowd-observer-id" header with
  | Err e => (Err e, g)
  | Ok observer_id =>
      let '(role, g) := lifecycle_attachment_role session_id (surface_actor_id p observer_id) g in
      (if negb (bool_decide (role = Some "writer"%string))
       then fail FORBIDDEN
              (if bool_decide (role = Some "reader"%string)
               then "reader session attachment cannot acquire or release a writer lease"
               else "session lease mutation requires the exact attached writer Surface")
       else Ok observer_id, g)
  end.

Definition lease_answer (a : LeaseAnswer) : Result ApiError LeaseAnswer :=
  match a with LeaseRefused error _ _ => fail CONFLICT error | _ => Ok a end.

(** [acquire_runtime_session_lease] *)
Definition acquire_runtime_session_lease (facts : AccessFacts) (now : N) (p : PrincipalClaims)
    (header : ObserverHeader) (session_id : string) (mode : option string) (g : Gateway) :
  Result ApiError LeaseAnswer * Gateway :=
  match authorize_session_access facts p session_id AccessWrite with
  | Err e => (Err e, g)
  | Ok _ =>
      let '(observer, g) := required_writer_observer p header session_id g in
      match observer with
      | Err e => (Err e, g)
      | Ok observer_id =>
          let g := others_run g in
          match gw_leases g with
          | None => (fail SERVICE_UNAVAILABLE "session lease registry is not attached", g)
          | Some leases =>
              let mode := default COLLABORATIVE mode in
              if negb (memb [COLLABORATIVE; EXCLUSIVE; TAKEOVER] mode)
              then (fail BAD_REQUEST
                      "session lease mode must be collaborative, exclusive, or takeover", g)
              else if String.eqb mode TAKEOVER && negb (maintainer p)
              then (fail FORBIDDEN "session lease takeover requires runtime.maintenance.manage", g)
              else
                let '(a, leases) :=
                  acquire now session_id (session_lease_owner p observer_id) mode leases in
                (lease_answer a, with_leases leases g)
          end
      end
  end.

(** [release_runtime_session_lease] *)
Definition release_runtime_session_lease (facts : AccessFacts) (p : PrincipalClaims)
    (header : ObserverHeader) (session_id : string) (g : Gateway) :
  Result ApiError LeaseAnswer * Gateway :=
  match authorize_session_access facts p session_id AccessWrite with
  | Err e => (Err e, g)
  | Ok _ =>
      let '(observer, g) := required_writer_observer p header session_id g in
      match observer with
      | Err e => (Err e, g)
      | Ok observer_id =>
          let g := others_run g in
          match gw_leases g with
          | None => (fail SERVICE_UNAVAILABLE "session lease registry is not attached", g)
          | Some leases =>
              let '(a, leases) := release session_id (session_lease_owner p observer_id) leases in
              (lease_answer a, with_leases leases g)
          end
      end
  end.

Definition release_if_registered (session_id owner : string) (g : Gateway) : Gateway :=
  match gw_leases g with
  | Some leases => with_leases (release session_id owner leases).2 g
  | None => g
  end.
End Request.

(** [attach_session_handler]: the answer of [attach_session_value] without its
    snapshot, which expires attachments once more. *)
Definition attach_session_handler (clk clk' : nat -> N) (env env' : nat -> S -> S)
    (facts : AccessFacts) (p : PrincipalClaims) (header : ObserverHeader)
    (session_id surface : string) (role : option string) (g : Gateway) :
  Result ApiError (Result string SessionLifecycleEvent) * Gateway :=
  match
    observer_id ← header_observer "session attach requires a valid x-cowd-observer-id" header;
    let role := default "reader"%string role in
    _ ← (if memb ["reader"; "writer"]%string role then Ok tt
         else fail BAD_REQUEST "session attachment role must be reader or writer");
    _ ← authorize_session_access facts p session_id
          (if String.eqb role "writer" then AccessWrite else AccessRead);
    Ok (observer_id, role)
  with
  | Err e => (Err e, g)
  | Ok (observer_id, role) =>
      let actor := {| sa_id := surface_actor_id p observer_id; sa_surface := surface;
                      sa_role := Some role |} in
      let '(r, sessions, s) :=
        attach stored ttl clk env session_id actor (gw_sessions g) (gw_store g) in
      let g := with_presence sessions s g in
      match r with
      | Err _ => (Ok r, g)
      | Ok _ =>
          let '(_, sessions, s) :=
            presence_snapshot stored ttl clk' env' session_id (gw_sessions g) (gw_store g) in
          (Ok r, with_presence sessions s g)
      end
  end.

(** The same for [detach_session_value]. *)
Definition detach_session_value (clk clk' : nat -> N) (env env' : nat -> S -> S)
    (session_id actor_id : string) (g : Gateway) : Result string SessionLifecycleEvent * Gateway :=
  let '(r, sessions, s) :=
    detach stored ttl clk env session_id actor_id (gw_sessions g) (gw_store g) in
  let g := with_presence sessions s g in
  match r with
  | Err _ => (r, g)
  | Ok _ =>
      let '(_, sessions, s) :=
        presence_snapshot stored ttl clk' env' session_id (gw_sessions g) (gw_store g) in
      (r, with_presence sessions s g)
  end.

(** [detach_session_handler]; the role is read first, [clks] and [envs] by step. *)
Definition detach_session_handler (clks : nat -> nat -> N) (envs : nat -> nat -> S -> S)
    (between : Leases -> Leases) (facts : AccessFacts) (p : PrincipalClaims)
    (header : ObserverHeader) (session_id : string) (g : Gateway) :
  Result ApiError (Result string SessionLifecycleEvent) * Gateway :=
  match
    _ ← authorize_session_access facts p session_id AccessRead;
    header_observer "session detach requires a valid x-cowd-observer-id" header
  with
  | Err e => (Err e, g)
  | Ok observer_id =>
      let actor_id := surface_actor_id p observer_id in
      let '(role, g) := lifecycle_attachment_role (clks 0) (envs 0) session_id actor_id g in
      let g := others_run between g in
      let g :=
        if bool_decide (role = Some "writer"%string)
        then release_if_registered session_id (session_lease_owner p observer_id) g else g in
      let '(r, g) :=
        detach_session_value (clks 1) (clks 2) (envs 1) (envs 2) session_id actor_id g in
      (Ok r, g)
  end.

(** [cleanup_revoked_session_stream_authority] *)
Definition cleanup_revoked_session_stream_authority (clk clk' : nat -> N)
    (env env' : nat -> S -> S) (session_id : string) (attachment_actor : option string)
    (lease_owner : string) (g : Gateway) : Gateway :=
  let g := match attachment_actor with
           | Some actor_id => (detach_session_value clk clk' env env' session_id actor_id g).2
           | None => g
           end in
  release_if_registered session_id lease_owner g.

(** [release_disconnected_surface_session_leases]: the sessions of the connection
    that is gone, without those a connection of the same surface still follows. *)
Definition release_disconnected_surface_session_leases (active_connection : bool)
    (session_ids active_session_ids : gset string) (lease_owner : string) (leases : Leases) :
  Leases :=
  if active_connection then leases
  else
    foldl (fun l session_id => (release session_id lease_owner l).2) leases
      (btree_set_iter (session_ids ∖ active_session_ids)).
End Routes.
Arguments Gateway S : clear implicits.

(** ** What an admission shows *)

Section Admission.
Context `{AttachmentJson} {S : Type} `{PresenceStore S} `{FirstValue} `{!FirstValueLaws}
  (stored : bool) (ttl : N).

(** The actor is attached in memory, seen within the time to live. *)
Definition attached_as (sessions : Sessions) (now : N) (session_id actor_id role : string) : Prop :=
  exists e a, sessions !! session_id = Some e /\ en_attachments e !! actor_id = Some a /\
    sa_role (at_actor a) = Some role /\ fresh now ttl a = true.

Lemma prune_fresh now e e' b k a :
  prune_expired_attachments ttl now e = (e', b) -> en_attachments e' !! k = Some a ->
  fresh now ttl a = true.
Proof.
  unfold prune_expired_attachments.
  destruct (Nat.eqb_spec (size (filter (fun p => fresh now ttl p.2 = true) (en_attachments e)))
              (size (en_attachments e))) as [Hs|_]; intros [= <- _].
  - intros Ha. rewrite <-(filter_same_size _ _ Hs) in Ha. by apply map_lookup_filter_Some in Ha as [_ ?].
  - cbn. by intros [_ ?]%map_lookup_filter_Some.
Qed.

(** A role that was read is that of a surface seen within its time. *)
Lemma attachment_role_attached clk env session_id actor_id sessions s role sessions' s' :
  attachment_role stored ttl clk env session_id actor_id sessions s = (Some role, sessions', s') ->
  trim session_id = session_id ->
  attached_as sessions' (clk 0) session_id actor_id role.
Proof.
  intros Hr Ht. unfold attachment_role, expire_stale_attachments, validate_session_id in Hr.
  destruct (trim_is_empty session_id); [done|]. rewrite Ht in Hr. unfold on_session, expire in Hr.
  cbn zeta in Hr. destruct (ensure_loaded _ _ _ _) as [[e|]|err]; [| |done].
  2: { rewrite lookup_delete_eq in Hr. done. }
  destruct (prune_expired_attachments ttl (clk 0) e) as [e' b] eqn:Hp. destruct b.
  - unfold finish in Hr. cbn [mu_write checkpoint] in Hr.
    destruct (persist _ _ _ _ _) as [[u|err] s1]; [|done].
    injection Hr as Hrole <- <-. rewrite lookup_insert_eq in Hrole. cbn in Hrole.
    destruct (en_attachments e' !! actor_id) as [a|] eqn:Ha; [|done].
    eexists _, a. split; [apply lookup_insert_eq|]. cbn. do 2 (split; [done|]).
    by apply (prune_fresh _ _ _ _ _ _ Hp Ha).
  - injection Hr as Hrole <- <-. rewrite lookup_insert_eq in Hrole. cbn in Hrole.
    destruct (en_attachments e !! actor_id) as [a|] eqn:Ha; [|done].
    eexists _, a. split; [apply lookup_insert_eq|]. do 2 (split; [done|]).
    assert (e' = e) as ->; [|by apply (prune_fresh _ _ _ _ _ _ Hp Ha)].
    unfold prune_expired_attachments in Hp.
    destruct (_ =? _) in Hp; [by injection Hp as <-|done].
Qed.

(** C28. A request that is admitted to write may write.  Its observer id is valid; the
    surface of this principal and observer was attached with the role of a writer
    and seen within its time when the role was read; whatever other tasks did to
    the leases in between, by acquisitions, admissions and releases, the owner now
    has a lease of the session, no other lease was changed by the admission, and
    when any lease of the session is exclusive it is the owner's and the only one.
    A request that is refused changes no lease. *)
Theorem admitted_writer clk env between now p header session_id g res g' :
  trim session_id = session_id ->
  match gw_leases g with
  | Some leases => rtc lease_step ∅ leases /\ rtc lease_step leases (between leases)
  | None => True
  end ->
  require_session_writer_admission stored ttl clk env between now p header session_id g = (res, g') ->
  match res with
  | Ok owner => exists value observer_id leases leases' m lease,
      header = HeaderText value /\ validated_session_observer_id value = Some observer_id /\
      owner = session_lease_owner p observer_id /\
      attached_as (gw_sessions g') (clk 0) session_id (surface_actor_id p observer_id) "writer" /\
      between <$> gw_leases g = Some leases /\ gw_leases g' = Some leases' /\
      leases' !! session_id = Some m /\ m !! owner = Some lease /\
      (forall o l, m !! o = Some l -> sl_mode l = EXCLUSIVE -> m = {[owner := lease]}) /\
      (forall s x o l, leases !! s = Some x -> x !! o = Some l ->
         exists x', leases' !! s = Some x' /\ x' !! o = Some l)
  | Err _ => gw_leases g' = gw_leases g \/ gw_leases g' = between <$> gw_leases g
  end.
Proof.
  intros Ht Hl Hr. unfold require_session_writer_admission in Hr.
  destruct (required_observer header) as [observer_id|] eqn:Ho; [|by injection Hr as <- <-; left].
  assert (exists value, header = HeaderText value /\
    validated_session_observer_id value = Some observer_id) as (value & -> & Hv).
  { unfold required_observer in Ho. destruct header as [| |value]; [done..|].
    destruct (validated_session_observer_id value) as [o|] eqn:E; [|done]. injection Ho as <-.
    by exists value. }
  clear Ho. unfold lifecycle_attachment_role in Hr.
  destruct (attachment_role _ _ _ _ _ _ _ _) as [[role sessions] s] eqn:Ha.
  case_bool_decide as Hw; cbn [negb] in Hr; [|by injection Hr as <- <-; left]. subst role.
  apply attachment_role_attached in Ha; [|done]. cbn [others_run with_presence gw_leases] in Hr.
  destruct (gw_leases g) as [leases|] eqn:Hg; cbn [fmap option_fmap option_map] in Hr |- *;
    [|injection Hr as <- <-; left; cbn; by rewrite Hg].
  assert (LeasesInv (between leases)) as Hi.
  { apply writer_run_inv. etrans; [apply Hl|apply Hl]. }
  destruct (ensure_writer now session_id (session_lease_owner p observer_id) (between leases))
    as [a leases'] eqn:He.
  destruct (answer_ok a) eqn:Hok.
  - destruct (ensure_admitted _ _ _ _ _ _ Hi He Hok) as (Hi' & (m & lease & Hm & Hlease & _) & Hkeep).
    destruct a; [| done |]; injection Hr as <- <-;
      (exists value, observer_id, (between leases), leases', m, lease;
       do 3 (split; [done|]); split; [done|]; do 4 (split; [done|]); split; [|done];
       intros o l Hol Hex; by apply (owners_exclusive _ _ _ _ _ _ (Hi' _ _ Hm) Hol Hex Hlease)).
  - destruct a; [done| |done]. injection Hr as <- <-. right. cbn. f_equal.
    by apply (ensure_refused_same _ _ _ _ _ _ He).
Qed.

(** A surface that is late cannot give its lease back.  When the time of a writer
    is up and it then asks to be detached, its role is no longer known, so the
    handler does not release its lease: an exclusive lease stays on record, and
    every other owner is refused until a maintainer takes the session over or the
    gateway ends. *)
Theorem late_detach_keeps_lease clks envs facts p header session_id observer_id g leases m lease
    e x other now :
  trim session_id = session_id ->
  header_observer "session detach requires a valid x-cowd-observer-id" header = Ok observer_id ->
  gw_sessions g !! session_id = Some e ->
  en_attachments e !! surface_actor_id p observer_id = Some x ->
  fresh (clks 0 0) ttl x = false ->
  gw_leases g = Some leases -> rtc lease_step ∅ leases ->
  leases !! session_id = Some m -> m !! session_lease_owner p observer_id = Some lease ->
  sl_mode lease = EXCLUSIVE -> other <> session_lease_owner p observer_id ->
  let g' := (detach_session_handler stored ttl clks envs id facts p header session_id g).2 in
  gw_leases g' = Some leases /\
  answer_ok (ensure_writer now session_id other leases).1 = false.
Proof.
  intros Ht Ho He Hx Hf Hg Hr Hm Hl Hex Hn. cbn zeta. split.
  2: { pose proof (ensure_refused now session_id other _ _ _ _ (writer_run_inv _ Hr) Hm Hl Hex Hn) as Hres.
       destruct (ensure_writer _ _ _ _) as [a leases']. apply Hres. }
  unfold detach_session_handler. rewrite Ho.
  destruct (authorize_session_access _ _ _ _); [|done]. cbn [mbind Result_bind].
  unfold lifecycle_attachment_role.
  assert ((attachment_role stored ttl (clks 0) (envs 0) session_id (surface_actor_id p observer_id)
             (gw_sessions g) (gw_store g)).1.1 = None) as Hrole.
  { apply (expired_has_no_role _ _ _ _ _ _ _ _ e x); [done| |done..]. by rewrite He. }
  destruct (attachment_role _ _ _ _ _ _ _ _) as [[role sessions] s]. cbn in Hrole. subst role.
  rewrite bool_decide_false by done. unfold detach_session_value.
  destruct (detach _ _ _ _ _ _ _ _) as [[r sessions1] s1].
  destruct r; [destruct (presence_snapshot _ _ _ _ _ _ _) as [[? ?] ?]|]; cbn; by rewrite Hg.
Qed.
End Admission.
