(* ===== verification/PresenceSamples.v ===== *)
(** * Runs of the presence ledger and the writer leases

    A JSON of its own for attachments, rows, processes and a gateway, at which the
    theorems of [PresenceSafety], [PresenceFaults], [WriterLease] and
    [SessionAdmission] are applied. *)

From stdpp Require Import countable.
From S2P Require Import Prelude SessionPresence PresenceSafety PresenceFaults WriterLease.
From S2P Require Import Approval SessionAdmission.

(** ** Attachments as text *)

#[export] Instance SessionActor_countable : Countable SessionActor.
Proof.
  refine (inj_countable' (fun a => (sa_id a, sa_surface a, sa_role a))
            (fun '(i, s, r) => {| sa_id := i; sa_surface := s; sa_role := r |}) _).
  by intros [].
Defined.

#[export] Instance SessionAttachment_eq_dec : EqDecision SessionAttachment.
Proof. solve_decision. Defined.

#[export] Instance SessionAttachment_countable : Countable SessionAttachment.
Proof.
  refine (inj_countable'
            (fun a => (at_session_id a, at_actor a, at_attached_at_ms a, at_last_seen_ms a))
            (fun '(s, a, t, l) => {| at_session_id := s; at_actor := a; at_attached_at_ms := t;
                                     at_last_seen_ms := l |}) _).
  by intros [].
Defined.

Definition zero : Ascii.ascii := Ascii.ascii_of_nat 48.
Definition one : Ascii.ascii := Ascii.ascii_of_nat 49.

Fixpoint bits_of (p : positive) : string :=
  match p with
  | xH => EmptyString
  | xO p => String zero (bits_of p)
  | xI p => String one (bits_of p)
  end.

Fixpoint of_bits (s : string) : positive :=
  match s with
  | EmptyString => xH
  | String a s => if Ascii.eqb a zero then xO (of_bits s) else xI (of_bits s)
  end.

Lemma of_bits_of p : of_bits (bits_of p) = p.
Proof. induction p; cbn; by f_equal. Qed.

#[export] Instance sample_json : AttachmentJson := {
  attachments_to_json l := Ok (bits_of (encode l));
  attachments_from_json s := ok_or "invalid"%string (decode (of_bits s));
  unknown_state s := s
}.

#[export] Instance sample_json_laws : AttachmentJsonLaws.
Proof.
  split. intros l j [= <-]. cbn [attachments_from_json sample_json].
  by rewrite of_bits_of, decode_encode.
Qed.

#[export] Instance sample_first : FirstValue := {
  first_value m := snd <$> head (map_to_list m)
}.

#[export] Instance sample_first_laws : FirstValueLaws.
Proof.
  split; intros m; cbn [first_value sample_first].
  - intros l Hl. destruct (map_to_list m) as [|[o x] r] eqn:E; [done|]. injection Hl as <-.
    exists o. apply elem_of_map_to_list. rewrite E. left.
  - intros Hn. apply map_to_list_empty_iff. by destruct (map_to_list m).
Qed.

(** ** Two surfaces *)

Definition rows0 : gmap string SessionPresenceProjection := ∅.
Definition surface_a : SessionActor :=
  {| sa_id := "a"; sa_surface := "tui"; sa_role := Some "writer"%string |}.
Definition surface_b : SessionActor :=
  {| sa_id := "b"; sa_surface := "web"; sa_role := Some "reader"%string |}.
Definition surface_c : SessionActor :=
  {| sa_id := "c"; sa_surface := "web"; sa_role := Some "writer"%string |}.
Definition at_time (t : N) (_ : nat) : N := t.
Definition sample_ttl : N := 3600000.

Definition attach_at (t : N) (a : SessionActor) :=
  attach true sample_ttl (at_time t) quiet "s" a.

Definition run1 := attach_at 1000 surface_a ∅ rows0.
Definition rows1 : gmap string SessionPresenceProjection := run1.2.

Lemma quiet_presence : presence_others "s" quiet.
Proof. intros n s h Hh. by exists h. Qed.

Lemma presence_history0 : presence_history "s" [rows0].
Proof. apply PresenceStart. change (rows0 !! "s"%string = None). apply lookup_empty. Qed.

Lemma presence_history1 : presence_history "s" [rows1; rows0].
Proof.
  pose proof (PresenceWrite "s" [] rows0 None (attach_section sample_ttl "s" surface_a (at_time 1000) None)
    (snapshot_from_entry "s" (mu_entry (attach_section sample_ttl "s" surface_a (at_time 1000) None))) 1
    (bits_of (encode (sn_attachments (snapshot_from_entry "s"
       (mu_entry (attach_section sample_ttl "s" surface_a (at_time 1000) None)))))) (Ok true) rows1
    presence_history0 I (MuAttach _ _ _ _ _)) as Hw.
  apply Hw; [vm_compute; reflexivity|reflexivity|vm_compute; reflexivity].
Qed.


Lemma run1_ok : exists event, run1.1.1 = Ok event /\ le_event_type event = "session.attach"%string.
Proof. eexists. split; vm_compute; reflexivity. Qed.

Lemma empty_grounded : grounded "s" [rows0] ((∅ : Sessions) !! "s"%string).
Proof. by rewrite lookup_empty. Qed.

Lemma attach_recorded_witness :
  exists event e a, run1.1.1 = Ok event /\ run1.1.2 !! "s"%string = Some e /\
    en_attachments e !! "a"%string = Some a /\ at_last_seen_ms a = 1000%N /\
    row_view "s" rows1 (view_of e).
Proof.
  destruct run1_ok as (event & He & Ht). unfold rows1.
  destruct run1 as [[r sessions] rows] eqn:E. cbn [fst snd] in *.
  destruct (attach_recorded "s" sample_ttl (at_time 1000) quiet "s" surface_a ∅ rows0 [] r sessions rows
    eq_refl presence_history0 empty_grounded quiet_presence E) as (_ & _ & Hev).
  destruct (Hev event He) as (e & a & ? & ? & _ & _ & ? & Hrow). exists event, e, a.
  do 4 (split; [done|]). by apply Hrow.
Defined.

(** ** Failures *)

Lemma absent_detach_blocks_attach_witness :
  exists absent event sessions1,
    detach true sample_ttl (at_time 5) quiet "s" "b" ∅ rows0 = (Ok absent, sessions1, rows0) /\
    le_event_type absent = "session.presence_absent"%string /\
    (attach true sample_ttl (at_time 9) quiet "s" surface_a sessions1 rows0).1.1
      = Err (conflict_message "s") /\
    (attach true sample_ttl (at_time 9) quiet "s" surface_a sessions1 rows0).2 = rows0 /\
    (attach true sample_ttl (at_time 9) quiet "s" surface_a ∅ rows0).1.1 = Ok event /\
    le_event_type event = "session.attach"%string.
Proof.
  apply (absent_detach_blocks_attach sample_ttl "s" "s" eq_refl eq_refl "b" surface_a
    (at_time 5) (at_time 9) ∅ rows0 (bits_of (encode [attachment "s" surface_a 9 9])));
    try reflexivity; try apply lookup_empty. vm_compute. discriminate.
Defined.

(** [a] attaches at 0, [b] at 3500 s, and [a] calls at 3550 s; its time is 3600 s. *)
Definition two_rows : gmap string SessionPresenceProjection :=
  let '(_, sessions, rows) := attach_at 0 surface_a ∅ rows0 in
  (attach_at 3500000 surface_b sessions rows).2.

Definition two_row : SessionPresenceProjection :=
  default {| pp_session_id := ""; pp_state := ""; pp_attachments_json := ""; pp_next_sequence := 0;
             pp_revision := 0; pp_updated_at_ms := 0 |} (two_rows !! "s"%string).

Definition two_entry : SessionLifecycleEntry :=
  match entry_of_projection two_row with Ok e => e | Err _ => entry_default end.

Definition seen_at_0 : SessionAttachment := attachment "s" surface_a 0 0.

Lemma two_all_fresh k a :
  en_attachments two_entry !! k = Some a -> fresh 3550000 sample_ttl a = true.
Proof.
  assert (map_Forall (fun _ a => fresh 3550000 sample_ttl a = true) (en_attachments two_entry)) as Hf
    by (apply (bool_decide_unpack _); vm_compute; exact I).
  apply Hf.
Qed.

Lemma heartbeat_not_durable_witness :
  exists event sessions,
    attach true sample_ttl (at_time 3550000) quiet "s" surface_a ∅ two_rows
      = (Ok event, sessions, two_rows) /\
    le_event_type event = "session.presence_observed"%string /\
    (attachment_role true sample_ttl (at_time 3600000) quiet "s" "a" ∅ two_rows).1.1 = None.
Proof.
  apply (heartbeat_not_durable sample_ttl "s" "s" eq_refl eq_refl surface_a (at_time 3550000)
    (at_time 3600000) two_rows two_row two_entry seen_at_0);
    [reflexivity|reflexivity|vm_compute; reflexivity|vm_compute; reflexivity
    |vm_compute; reflexivity|vm_compute; reflexivity|reflexivity|exact two_all_fresh
    |vm_compute; reflexivity|reflexivity].
Defined.

(** A write that is cancelled after the change in memory and before the row: the
    entry is one revision ahead of the row.  When another process writes that
    revision, the next operation of the first one replaces it: [b] was told that it
    is attached, and is not. *)
Definition cancelled_entry : SessionLifecycleEntry :=
  mu_entry (attach_section sample_ttl "s" surface_c (at_time 2000) (run1.1.2 !! "s"%string)).

Definition attached_ids (rows : gmap string SessionPresenceProjection) : list string :=
  match entry_of_projection (default two_row (rows !! "s"%string)) with
  | Ok e => btree_keys (en_attachments e)
  | Err _ => []
  end.

Lemma cancelled_attach_loses_other :
  let other := attach_at 2500 surface_b ∅ rows1 in
  let next := mark_active true sample_ttl (at_time 3000) quiet "s"
                {["s"%string := cancelled_entry]} other.2 in
  is_ok other.1.1 = true /\ attached_ids other.2 = ["a"; "b"]%string /\
  is_ok next.1.1 = true /\ attached_ids next.2 = ["a"; "c"]%string.
Proof. vm_compute. repeat split. Qed.

(** ** Leases and admissions *)

Definition sample_principal : PrincipalClaims :=
  {| pl_principal_id := "p"; pl_tenant_id := "t"; pl_grant_id := "g"; pl_kind := PkHuman;
     pl_scopes := []; pl_capabilities := []; pl_assurance := PaHumanInteractive;
     pl_issuer := "broker"; pl_issued_at_ms := 0; pl_expires_at_ms := None;
     pl_credential_fingerprint := "f"; pl_credential_epoch := 0; pl_profile_revision := 1;
     pl_app_profiles := ∅ |}.

Definition sample_header : ObserverHeader := HeaderText " tui-1 ".
Definition sample_actor : SessionActor :=
  {| sa_id := surface_actor_id sample_principal "tui-1"; sa_surface := "tui";
     sa_role := Some "writer"%string |}.

(** The lease of the principal's surface, taken alone. *)
Definition sample_owner : string := session_lease_owner sample_principal "tui-1".
Definition leases1 : Leases := (acquire 7 "s" sample_owner EXCLUSIVE ∅).2.

Lemma leases1_run : rtc lease_step ∅ leases1.
Proof. apply rtc_once, LeaseAcquire. Qed.

Definition sample_owners : Owners := default ∅ (leases1 !! "s"%string).
Definition sample_lease : SessionLease := lease_of "s" sample_owner EXCLUSIVE 7.

Lemma exclusive_lease_is_alone_witness :
  sl_owner sample_lease = sample_owner /\ sl_session_id sample_lease = "s"%string /\
  sl_mode sample_lease ∈ [COLLABORATIVE; EXCLUSIVE] /\
  (sl_mode sample_lease = EXCLUSIVE -> sample_owners = {[sample_owner := sample_lease]}).
Proof.
  apply (exclusive_lease_is_alone leases1 "s" sample_owners sample_owner sample_lease leases1_run);
    vm_compute; reflexivity.
Defined.

Definition gateway1 : Gateway (gmap string SessionPresenceProjection) :=
  let '(_, sessions, rows) := attach_at 1000 sample_actor ∅ rows0 in
  {| gw_sessions := sessions; gw_store := rows; gw_leases := Some leases1 |}.

(** The surface writes a second later. *)
Definition admission1 :=
  require_session_writer_admission true sample_ttl (at_time 2000) quiet (fun l => l) 2000
    sample_principal sample_header "s" gateway1.

Lemma admission1_owner : admission1.1 = Ok sample_owner.
Proof. vm_compute. reflexivity. Qed.

Lemma gateway1_run :
  match gw_leases gateway1 with
  | Some leases => rtc lease_step ∅ leases /\ rtc lease_step leases leases
  | None => True
  end.
Proof.
  replace (gw_leases gateway1) with (Some leases1) by (vm_compute; reflexivity).
  split; [exact leases1_run|done].
Qed.

Lemma admitted_writer_witness :
  attached_as sample_ttl (gw_sessions admission1.2) 2000 "s" (sa_id sample_actor) "writer".
Proof.
  pose proof admission1_owner as Ho. unfold admission1 in *.
  destruct (require_session_writer_admission true sample_ttl (at_time 2000) quiet (fun l => l) 2000
    sample_principal sample_header "s" gateway1) as [res g'] eqn:E. cbn [fst snd] in *. subst res.
  destruct (admitted_writer true sample_ttl (at_time 2000) quiet (fun l => l) 2000 sample_principal
    sample_header "s" gateway1 _ g' eq_refl gateway1_run E)
    as (value & observer_id & ? & ? & ? & ? & Hh & Hv & _ & Ha & _).
  injection Hh as <-. vm_compute in Hv. injection Hv as <-. exact Ha.
Defined.

(** It asks to be detached after its time. *)
Definition sample_facts : AccessFacts :=
  {| af_stored := Ok (Some (Some "p"%string)); af_active := false; af_missions := [] |}.

Definition sample_entry : SessionLifecycleEntry :=
  default entry_default (gw_sessions gateway1 !! "s"%string).

Lemma late_detach_keeps_lease_witness :
  let g' := (detach_session_handler true sample_ttl (fun _ => at_time 9000000) (fun _ => quiet) id
               sample_facts sample_principal sample_header "s" gateway1).2 in
  gw_leases g' = Some leases1 /\
  answer_ok (ensure_writer 9000001 "s" "other" leases1).1 = false.
Proof.
  apply (late_detach_keeps_lease true sample_ttl (fun _ => at_time 9000000) (fun _ => quiet)
    sample_facts sample_principal sample_header "s" "tui-1" gateway1 leases1 sample_owners sample_lease
    sample_entry (attachment "s" sample_actor 1000 1000) "other" 9000001 eq_refl);
    [vm_compute; reflexivity|vm_compute; reflexivity|vm_compute; reflexivity
    |vm_compute; reflexivity|vm_compute; reflexivity|exact leases1_run
    |vm_compute; reflexivity|vm_compute; reflexivity|reflexivity|vm_compute; discriminate].
Defined.
