(* ===== verification/WorkMarket.v ===== *)
(** * The work market

    [runtime/src/agentic/work_market.rs]: what each action on a task does to the
    program, and the two walks over the tasks, along replacements and along
    dependencies.  Whether an action is admitted is decided in [ProgramAuthority]. *)

From S2P Require Import Prelude AgentAction AgentProgram.

Definition CLAIM_LEASE_MS : N := 90000.
Definition MAX_TASK_EXECUTION_ATTEMPTS : N := 3.
Definition MAX_TASK_REVIEW_ATTEMPTS : N := 3.

Definition u8_saturating_add : N -> N -> N := sat_add u8_max.

(** A claim that nobody holds, at generation [g]. *)
Definition no_claim (g : N) : ClaimFence :=
  {| tk_claimant := None; tk_claim_generation := g; tk_claim_execution_id := None;
     tk_claimed_at_ms := None; tk_lease_expires_at_ms := None |}.

Definition fence_generation (g : N) (c : ClaimFence) : ClaimFence :=
  {| tk_claimant := tk_claimant c; tk_claim_generation := g;
     tk_claim_execution_id := tk_claim_execution_id c; tk_claimed_at_ms := tk_claimed_at_ms c;
     tk_lease_expires_at_ms := tk_lease_expires_at_ms c |}.

(** [task.claim_execution_id = None] *)
Definition without_execution (c : ClaimFence) : ClaimFence :=
  {| tk_claimant := tk_claimant c; tk_claim_generation := tk_claim_generation c;
     tk_claim_execution_id := None; tk_claimed_at_ms := tk_claimed_at_ms c;
     tk_lease_expires_at_ms := tk_lease_expires_at_ms c |}.

Definition drop_claim (t : AgenticTaskProjection) : AgenticTaskProjection :=
  with_claim (no_claim (claim_generation t)) t.

(** ** Publication *)

Definition contract_of (id : string) (i : TaskPublishInput) : TaskContract :=
  {| tk_task_id := id; tk_team_id := tpi_team_ref i; tk_title := trim (tpi_title i);
     tk_objective := trim (tpi_objective i); tk_acceptance := trim (tpi_acceptance i);
     tk_acceptance_checks := tpi_acceptance_checks i;
     tk_required_capabilities := tpi_required_capabilities i;
     tk_obligation_refs := tpi_obligation_refs i; tk_purpose := tpi_purpose i;
     tk_execution_requirements := tpi_execution_requirements i;
     tk_expertise_hints := tpi_expertise_hints i; tk_depends_on := tpi_depends_on i |}.

Definition published_task (id : string) (i : TaskPublishInput) : AgenticTaskProjection :=
  {| tk_contract := contract_of id i; tk_status := AtPublished; tk_claim := no_claim 0;
     tk_active_attempts := ∅;
     tk_delivery := {| tk_artifact_refs := []; tk_evidence_refs := []; tk_unresolved := [];
                       tk_review_reason := None; tk_reviewed_by := None |};
     tk_failures := {| tk_failed_attempts := 0; tk_review_generation := 0;
                       tk_failed_review_attempts := 0; tk_last_failure := None |};
     tk_retirement := {| tk_replacement_task_refs := []; tk_supersede_evidence_refs := [];
                         tk_superseded_reason := None; tk_superseded_by := None;
                         tk_cancel_requested_by := None; tk_cancel_reason_ref := None;
                         tk_cancel_evidence_refs := []; tk_pending_retirement := None |} |}.

Definition with_task_ids (ids : list string) (t : AgenticTeamProjection) : AgenticTeamProjection :=
  {| tm_team_id := tm_team_id t; tm_name := tm_name t; tm_mission := tm_mission t;
     tm_objective := tm_objective t; tm_topic_ref := tm_topic_ref t;
     tm_created_by := tm_created_by t; tm_member_ids := tm_member_ids t; tm_task_ids := ids;
     tm_lifecycle := tm_lifecycle t |}.

(** [apply_task_publish] *)
Definition apply_task_publish (i : TaskPublishInput) (entity_ref : option string)
    (p : AgenticProgramProjection) : AgenticProgramProjection :=
  match entity_ref with
  | None => p
  | Some id =>
      with_teams (alter (fun t => with_task_ids (tm_task_ids t ++ [id]) t) (tpi_team_ref i)
                    (pr_teams p))
        (with_tasks (<[id := published_task id i]> (pr_tasks p)) p)
  end.

(** ** Physical attempts *)

Definition attempt_of (i : TaskAttemptDispatchInput) : AgenticTaskAttemptProjection :=
  {| at_execution_id := tdi_execution_id i; at_agent_id := tdi_agent_ref i;
     at_membership_id := tdi_membership_id i; at_mode := tdi_mode i;
     at_generation := tdi_generation i |}.

Definition consumption_of (i : TaskAttemptDispatchInput) : AgenticCoordinationConsumption :=
  {| cc_execution_id := tdi_execution_id i; cc_agent_id := tdi_agent_ref i;
     cc_membership_id := tdi_membership_id i; cc_settled := false; cc_reason := None |}.

(** The first entry of the revision, in the first topic that has one. *)
Definition consume_request (i : TaskAttemptDispatchInput) (p : AgenticProgramProjection) :
  AgenticProgramProjection :=
  let at_revision e := (te_revision e =? tdi_generation i)%N in
  match List.find (fun x => existsb at_revision x.2) (btree_entries (pr_topics p)) with
  | Some (topic, entries) =>
      with_topics
        (<[topic := update_first at_revision (with_coordination (Some (consumption_of i))) entries]>
           (pr_topics p)) p
  | None => p
  end.

(** [apply_task_attempt_dispatch] *)
Definition apply_task_attempt_dispatch (i : TaskAttemptDispatchInput)
    (p : AgenticProgramProjection) : AgenticProgramProjection :=
  match pr_tasks p !! tdi_task_ref i with
  | None => p
  | Some _ =>
      let p := update_task (tdi_task_ref i) (fun t =>
                 with_attempts (<[tdi_execution_id i := attempt_of i]> (tk_active_attempts t)) t) p in
      if bool_decide (tdi_mode i = AmCoordination) then consume_request i p else p
  end.

(** [finalize_pending_retirement] *)
Definition finalize_pending_retirement (t : AgenticTaskProjection) : AgenticTaskProjection :=
  if negb (bool_decide (tk_active_attempts t = ∅)) then t
  else
    let r := tk_retirement t in
    drop_claim
      (with_retirement
         {| tk_replacement_task_refs := tk_replacement_task_refs r;
            tk_supersede_evidence_refs := tk_supersede_evidence_refs r;
            tk_superseded_reason := tk_superseded_reason r;
            tk_superseded_by := tk_superseded_by r;
            tk_cancel_requested_by := tk_cancel_requested_by r;
            tk_cancel_reason_ref := tk_cancel_reason_ref r;
            tk_cancel_evidence_refs := tk_cancel_evidence_refs r;
            tk_pending_retirement := None |}
         (with_status (match tk_pending_retirement r with
                       | Some RetireWithdrawn => AtWithdrawn
                       | Some RetireSuperseded => AtSuperseded
                       | None => AtBlocked
                       end) t)).

(** A physical execution has left a task whose cancellation is requested. *)
Definition leave_cancelled (execution_id : option string) (t : AgenticTaskProjection) :
  AgenticTaskProjection :=
  let t := if bool_decide (claim_execution_id t = execution_id)
           then with_claim (without_execution (tk_claim t)) t else t in
  if bool_decide (tk_active_attempts t = ∅) && is_none (claim_execution_id t)
  then finalize_pending_retirement t else t.

Definition repeats_same_failure (i : TaskAttemptFailInput) (t : AgenticTaskProjection) : bool :=
  tfi_retryable i && bool_decide (tk_last_failure (tk_failures t) = Some (tfi_reason i)).

Definition fail_execution (i : TaskAttemptFailInput)
    (attempt : option AgenticTaskAttemptProjection) (t : AgenticTaskProjection) :
  AgenticTaskProjection :=
  let repeats := repeats_same_failure i t in
  let generation :=
    if is_none (claim_execution_id t)
       && match attempt with
          | Some a => (at_generation a =? claim_generation t)%N
          | None => false
          end
    then u64_saturating_add (claim_generation t) 1 else claim_generation t in
  let failed := u8_saturating_add (failed_attempts t) 1 in
  with_status
    (if (MAX_TASK_EXECUTION_ATTEMPTS <=? failed)%N then AtBlocked
     else if tfi_retryable i && negb repeats then AtRework
     else if tfi_retryable i then AtBlocked
     else AtPublished)
    (with_claim (no_claim generation)
       (with_failures
          {| tk_failed_attempts := failed;
             tk_review_generation := tk_review_generation (tk_failures t);
             tk_failed_review_attempts := failed_review_attempts t;
             tk_last_failure := Some (tfi_reason i) |} t)).

Definition fail_review (i : TaskAttemptFailInput) (t : AgenticTaskProjection) :
  AgenticTaskProjection :=
  let repeats := repeats_same_failure i t in
  let failed := u8_saturating_add (failed_review_attempts t) 1 in
  with_status
    (if (MAX_TASK_REVIEW_ATTEMPTS <=? failed)%N then AtBlocked
     else if tfi_retryable i && negb repeats then AtSubmitted
     else if tfi_retryable i then AtBlocked
     else AtPublished)
    (with_failures
       {| tk_failed_attempts := failed_attempts t;
          tk_review_generation := u64_saturating_add (tk_review_generation (tk_failures t)) 1;
          tk_failed_review_attempts := failed;
          tk_last_failure := Some (tfi_reason i) |} t).

Definition fail_attempt (i : TaskAttemptFailInput) (t : AgenticTaskProjection) :
  AgenticTaskProjection :=
  let attempt := tk_active_attempts t !! tfi_execution_id i in
  let t := with_attempts (delete (tfi_execution_id i) (tk_active_attempts t)) t in
  if bool_decide (tk_status t = AtCancelRequested) then
    leave_cancelled (Some (tfi_execution_id i)) t
  else match tfi_mode i with
       | AmCoordination => t
       | AmExecute => fail_execution i attempt t
       | AmReview => fail_review i t
       end.

(** [apply_task_attempt_fail] *)
Definition apply_task_attempt_fail (i : TaskAttemptFailInput) (p : AgenticProgramProjection) :
  AgenticProgramProjection :=
  update_task (tfi_task_ref i) (fail_attempt i)
    (if bool_decide (tfi_mode i = AmCoordination)
     then settle_coordination (tfi_execution_id i) (Some (tfi_reason i)) p else p).

(** ** Claims *)

Definition is_renewal (e : AgentActionEnvelope) (t : AgenticTaskProjection) : bool :=
  bool_decide (tk_status t = AtClaimed) && bool_decide (claimant t = actor_agent_id e)
  && bool_decide (claim_execution_id t = ab_execution_id (ae_actor e)).

(** [apply_task_claim] *)
Definition claim_task (e : AgentActionEnvelope) (now : N) (t : AgenticTaskProjection) :
  AgenticTaskProjection :=
  with_status AtClaimed
    (with_claim
       {| tk_claimant := actor_agent_id e;
          tk_claim_generation :=
            if is_renewal e t then claim_generation t else u64_saturating_add (claim_generation t) 1;
          tk_claim_execution_id := ab_execution_id (ae_actor e);
          tk_claimed_at_ms := Some now;
          tk_lease_expires_at_ms := Some (u64_saturating_add now CLAIM_LEASE_MS) |} t).

Definition apply_task_claim (e : AgentActionEnvelope) (i : TaskClaimInput) (now : N) :
  AgenticProgramProjection -> AgenticProgramProjection :=
  update_task (tcl_task_ref i) (claim_task e now).

(** [if let Some(execution_id) = ... { task.active_attempts.remove(execution_id) }] *)
Definition end_attempt (execution_id : option string) (t : AgenticTaskProjection) :
  AgenticTaskProjection :=
  match execution_id with
  | Some x => with_attempts (delete x (tk_active_attempts t)) t
  | None => t
  end.

Definition release_task (e : AgentActionEnvelope) (coordination : bool)
    (t : AgenticTaskProjection) : AgenticTaskProjection :=
  let execution_id := ab_execution_id (ae_actor e) in
  let t := end_attempt execution_id t in
  if bool_decide (tk_status t = AtCancelRequested) then leave_cancelled execution_id t
  else if coordination then t
  else with_status AtPublished (drop_claim t).

(** [apply_task_release] *)
Definition apply_task_release (e : AgentActionEnvelope) (i : TaskReleaseInput)
    (p : AgenticProgramProjection) : AgenticProgramProjection :=
  let execution_id := default EmptyString (ab_execution_id (ae_actor e)) in
  let coordination := is_some (coordination_attempt p execution_id) in
  update_task (trl_task_ref i) (release_task e coordination)
    (if coordination then settle_coordination execution_id None p else p).

(** ** Retirement *)

(** The claim is live, or an attempt is. *)
Definition must_cancel (t : AgenticTaskProjection) : bool :=
  bool_decide (tk_status t = AtClaimed) || negb (bool_decide (tk_active_attempts t = ∅)).

Definition next_generation (t : AgenticTaskProjection) : AgenticTaskProjection :=
  with_claim (fence_generation (u64_saturating_add (claim_generation t) 1) (tk_claim t)) t.

Definition supersede_task (e : AgentActionEnvelope) (i : TaskSupersedeInput)
    (t : AgenticTaskProjection) : AgenticTaskProjection :=
  let actor := ab_actor_id (ae_actor e) in
  let r := tk_retirement t in
  if must_cancel t then
    with_retirement
      {| tk_replacement_task_refs := tsi_replacement_task_refs i;
         tk_supersede_evidence_refs := tsi_evidence_refs i;
         tk_superseded_reason := Some (tsi_reason i); tk_superseded_by := Some actor;
         tk_cancel_requested_by := Some actor; tk_cancel_reason_ref := None;
         tk_cancel_evidence_refs := tsi_evidence_refs i;
         tk_pending_retirement := Some RetireSuperseded |}
      (with_status AtCancelRequested (next_generation t))
  else
    with_retirement
      {| tk_replacement_task_refs := tsi_replacement_task_refs i;
         tk_supersede_evidence_refs := tsi_evidence_refs i;
         tk_superseded_reason := Some (tsi_reason i); tk_superseded_by := Some actor;
         tk_cancel_requested_by := tk_cancel_requested_by r;
         tk_cancel_reason_ref := tk_cancel_reason_ref r;
         tk_cancel_evidence_refs := tk_cancel_evidence_refs r;
         tk_pending_retirement := tk_pending_retirement r |}
      (with_status AtSuperseded t).

(** [apply_task_supersede] *)
Definition apply_task_supersede (e : AgentActionEnvelope) (i : TaskSupersedeInput) :
  AgenticProgramProjection -> AgenticProgramProjection :=
  update_task (tsi_task_ref i) (supersede_task e i).

(** The retirement of a withdrawn task, with [pending] its pending form. *)
Definition withdrawal (e : AgentActionEnvelope) (i : TaskWithdrawInput)
    (pending : option AgenticTaskRetirement) (r : TaskRetirement) : TaskRetirement :=
  {| tk_replacement_task_refs := tk_replacement_task_refs r;
     tk_supersede_evidence_refs := tk_supersede_evidence_refs r;
     tk_superseded_reason := tk_superseded_reason r; tk_superseded_by := tk_superseded_by r;
     tk_cancel_requested_by := Some (ab_actor_id (ae_actor e));
     tk_cancel_reason_ref := Some (twi_reason_ref i);
     tk_cancel_evidence_refs := twi_evidence_refs i;
     tk_pending_retirement := pending |}.

Definition withdraw_task (e : AgentActionEnvelope) (i : TaskWithdrawInput)
    (t : AgenticTaskProjection) : AgenticTaskProjection :=
  if must_cancel t then
    with_retirement (withdrawal e i (Some RetireWithdrawn) (tk_retirement t))
      (with_status AtCancelRequested (next_generation t))
  else
    with_retirement (withdrawal e i (pending_retirement t) (tk_retirement t))
      (with_failures
         {| tk_failed_attempts := failed_attempts t;
            tk_review_generation := tk_review_generation (tk_failures t);
            tk_failed_review_attempts := failed_review_attempts t;
            tk_last_failure := Some ("withdrawn: " +:+ twi_reason_ref i) |}
         (with_status AtWithdrawn (drop_claim t))).

(** [apply_task_withdraw] *)
Definition apply_task_withdraw (e : AgentActionEnvelope) (i : TaskWithdrawInput) :
  AgenticProgramProjection -> AgenticProgramProjection :=
  update_task (twi_task_ref i) (withdraw_task e i).

(** ** Submission and review *)

Definition submit_task (e : AgentActionEnvelope) (i : TaskSubmitInput)
    (evidence : list string) (t : AgenticTaskProjection) : AgenticTaskProjection :=
  with_delivery
    {| tk_artifact_refs := tsu_artifact_refs i; tk_evidence_refs := evidence;
       tk_unresolved := tsu_unresolved i; tk_review_reason := tk_review_reason (tk_delivery t);
       tk_reviewed_by := reviewed_by t |}
    (with_status AtSubmitted (end_attempt (ab_execution_id (ae_actor e)) t)).

(** [apply_task_submit] *)
Definition apply_task_submit (e : AgentActionEnvelope) (i : TaskSubmitInput)
    (p : AgenticProgramProjection) : AgenticProgramProjection :=
  let contents := omap (fun a => ar_content_ref <$> pr_artifacts p !! a) (tsu_artifact_refs i) in
  update_task (tsu_task_ref i) (submit_task e i (sort_dedup (tsu_evidence_refs i ++ contents))) p.

Definition review_task (e : AgentActionEnvelope) (i : TaskReviewInput)
    (t : AgenticTaskProjection) : AgenticTaskProjection :=
  let t := with_delivery
             {| tk_artifact_refs := artifact_refs t;
                tk_evidence_refs := sort_dedup (evidence_refs t ++ tri_evidence_refs i);
                tk_unresolved := tk_unresolved (tk_delivery t);
                tk_review_reason := Some (tri_reason i);
                tk_reviewed_by := Some (ab_actor_id (ae_actor e)) |}
             (end_attempt (ab_execution_id (ae_actor e)) t) in
  match tri_decision i with
  | RvAccept => with_status AtAccepted t
  | RvChallenge | RvRework => with_status AtRework (drop_claim t)
  end.

(** [apply_task_review] *)
Definition apply_task_review (e : AgentActionEnvelope) (i : TaskReviewInput) :
  AgenticProgramProjection -> AgenticProgramProjection :=
  update_task (tri_task_ref i) (review_task e i).

(** ** The two walks

    Each is depth first, with the tasks on the current path in [visiting]; the
    source takes a task off the set when it leaves it.  The depth is bounded by the
    number of tasks, which [WorkWalks] proves. *)

(** [iter().all(f)] and [iter().any(f)] *)
Fixpoint exec_all {A} (f : A -> Exec bool) (l : list A) : Exec bool :=
  match l with
  | [] => Done true
  | x :: l => b ← f x; if b : bool then exec_all f l else Done false
  end.

Fixpoint exec_any {A} (f : A -> Exec bool) (l : list A) : Exec bool :=
  match l with
  | [] => Done false
  | x :: l => b ← f x; if b : bool then Done true else exec_any f l
  end.

Section Walks.
Context (p : AgenticProgramProjection).

Fixpoint visit_satisfied (fuel : nat) (visiting : gset string) (task_ref : string) : Exec bool :=
  match fuel with
  | O => OutOfFuel
  | S fuel =>
      match pr_tasks p !! task_ref with
      | None => Done false
      | Some task =>
          match tk_status task with
          | AtAccepted => Done true
          | AtSuperseded =>
              if is_nil (replacement_task_refs task) || bool_decide (task_ref ∈ visiting)
              then Done false
              else exec_all (visit_satisfied fuel ({[task_ref]} ∪ visiting))
                     (replacement_task_refs task)
          | _ => Done false
          end
      end
  end.

Fixpoint visit_depends (fuel : nat) (dependency_ref : string) (visiting : gset string)
    (task_ref : string) : Exec bool :=
  match fuel with
  | O => OutOfFuel
  | S fuel =>
      match pr_tasks p !! task_ref with
      | None => Done false
      | Some task =>
          if memb (depends_on task) dependency_ref then Done true
          else if bool_decide (task_ref ∈ visiting) then Done false
          else exec_any (visit_depends fuel dependency_ref ({[task_ref]} ∪ visiting))
                 (depends_on task)
      end
  end.

Definition walk_depth : nat := S (size (pr_tasks p)).

Definition walk_result (r : Exec bool) : bool :=
  match r with Done b => b | Panic | OutOfFuel => false end.

(** [task_dependency_satisfied], [task_depends_on] *)
Definition task_dependency_satisfied (task_ref : string) : bool :=
  walk_result (visit_satisfied walk_depth ∅ task_ref).

Definition task_depends_on (task_ref dependency_ref : string) : bool :=
  walk_result (visit_depends walk_depth dependency_ref ∅ task_ref).
End Walks.
