(* ===== verification/AgentRoster.v ===== *)
(** * The roster, the topics and the supervision of a program

    [runtime/src/agentic/roster.rs], [topic.rs], [issues.rs] and [supervision.rs]:
    who belongs to which team, what is said and delivered, and when the program may
    be called complete. *)

From stdpp Require Import pretty.
From S2P Require Import Prelude AgentAction AgentProgram WorkMarket.

(** ** Teams and members *)

Definition with_team_lifecycle (l : AgenticTeamLifecycle) (t : AgenticTeamProjection) :
  AgenticTeamProjection :=
  {| tm_team_id := tm_team_id t; tm_name := tm_name t; tm_mission := tm_mission t;
     tm_objective := tm_objective t; tm_topic_ref := tm_topic_ref t;
     tm_created_by := tm_created_by t; tm_member_ids := tm_member_ids t;
     tm_task_ids := tm_task_ids t; tm_lifecycle := l |}.

Definition with_mission (mission : string) (t : AgenticTeamProjection) : AgenticTeamProjection :=
  {| tm_team_id := tm_team_id t; tm_name := tm_name t; tm_mission := mission;
     tm_objective := tm_objective t; tm_topic_ref := tm_topic_ref t;
     tm_created_by := tm_created_by t; tm_member_ids := tm_member_ids t;
     tm_task_ids := tm_task_ids t; tm_lifecycle := tm_lifecycle t |}.

Definition with_members (members : list string) (t : AgenticTeamProjection) :
  AgenticTeamProjection :=
  {| tm_team_id := tm_team_id t; tm_name := tm_name t; tm_mission := tm_mission t;
     tm_objective := tm_objective t; tm_topic_ref := tm_topic_ref t;
     tm_created_by := tm_created_by t; tm_member_ids := members;
     tm_task_ids := tm_task_ids t; tm_lifecycle := tm_lifecycle t |}.

Definition with_membership_ids (ids : list string) (m : AgentMemberProjection) :
  AgentMemberProjection :=
  {| mb_agent_id := mb_agent_id m; mb_display_name := mb_display_name m; mb_role := mb_role m;
     mb_mission := mb_mission m; mb_required_capabilities := mb_required_capabilities m;
     mb_invited_by := mb_invited_by m; mb_membership_ids := ids;
     mb_definition_ref := mb_definition_ref m; mb_model_profile_ref := mb_model_profile_ref m;
     mb_expertise_hints := mb_expertise_hints m;
     mb_execution_requirements := mb_execution_requirements m |}.

Definition with_lifecycle (l : AgenticMembershipLifecycle) (m : AgenticMembershipProjection) :
  AgenticMembershipProjection :=
  {| ms_membership_id := ms_membership_id m; ms_agent_id := ms_agent_id m;
     ms_team_id := ms_team_id m; ms_lifecycle := l; ms_delegation_ref := ms_delegation_ref m;
     ms_reason_ref := ms_reason_ref m; ms_created_by := ms_created_by m |}.

Definition with_reason (r : option string) (m : AgenticMembershipProjection) :
  AgenticMembershipProjection :=
  {| ms_membership_id := ms_membership_id m; ms_agent_id := ms_agent_id m;
     ms_team_id := ms_team_id m; ms_lifecycle := ms_lifecycle m;
     ms_delegation_ref := ms_delegation_ref m; ms_reason_ref := r;
     ms_created_by := ms_created_by m |}.

Definition with_delegation (d : option string) (m : AgenticMembershipProjection) :
  AgenticMembershipProjection :=
  {| ms_membership_id := ms_membership_id m; ms_agent_id := ms_agent_id m;
     ms_team_id := ms_team_id m; ms_lifecycle := ms_lifecycle m; ms_delegation_ref := d;
     ms_reason_ref := ms_reason_ref m; ms_created_by := ms_created_by m |}.

Definition new_membership (agent team : string) (reason : option string) (creator : string) :
  AgenticMembershipProjection :=
  {| ms_membership_id := membership_id agent team; ms_agent_id := agent; ms_team_id := team;
     ms_lifecycle := MlActive; ms_delegation_ref := None; ms_reason_ref := reason;
     ms_created_by := creator |}.

(** The member is listed in its team and the membership at the member. *)
Definition link_member (agent team : string) (p : AgenticProgramProjection) :
  AgenticProgramProjection :=
  with_agents
    (alter (fun m => with_membership_ids
                       (push_new (membership_id agent team) (mb_membership_ids m)) m)
       agent (pr_agents p))
    (with_teams
       (alter (fun t => with_members (push_new agent (tm_member_ids t)) t) team (pr_teams p)) p).

(** [apply_membership_update] *)
Definition apply_membership_update (e : AgentActionEnvelope) (i : MembershipUpdateInput)
    (p : AgenticProgramProjection) : AgenticProgramProjection :=
  let agent := mui_agent_ref i in
  let team := mui_team_ref i in
  if is_none (pr_agents p !! agent) || is_none (pr_teams p !! team) then p
  else
    let id := membership_id agent team in
    match mui_operation i with
    | MoJoin =>
        let m := default (new_membership agent team (mui_reason_ref i) (ab_actor_id (ae_actor e)))
                   (pr_memberships p !! id) in
        link_member agent team
          (with_memberships
             (<[id := with_reason (mui_reason_ref i) (with_lifecycle MlActive m)]>
                (pr_memberships p)) p)
    | MoLeave =>
        with_memberships
          (alter (fun m => with_reason (mui_reason_ref i) (with_lifecycle MlDraining m)) id
             (pr_memberships p)) p
    end.

Definition new_team (e : AgentActionEnvelope) (i : TeamCreateInput) (id : string) :
  AgenticTeamProjection :=
  {| tm_team_id := id; tm_name := trim (tci_name i); tm_mission := trim (tci_mission i);
     tm_objective := tci_objective i; tm_topic_ref := "topic:" +:+ id;
     tm_created_by := ab_actor_id (ae_actor e); tm_member_ids := []; tm_task_ids := [];
     tm_lifecycle := TlActive |}.

(** [apply_team_create] *)
Definition apply_team_create (e : AgentActionEnvelope) (i : TeamCreateInput)
    (entity_ref : option string) (p : AgenticProgramProjection) : AgenticProgramProjection :=
  match entity_ref with
  | None => p
  | Some id =>
      let p := with_teams (<[id := new_team e i id]> (pr_teams p)) p in
      match is_managed (ab_kind (ae_actor e)), ab_agent_id (ae_actor e),
            ab_execution_id (ae_actor e) with
      | true, Some agent, Some execution =>
          let p := apply_membership_update e
                     {| mui_agent_ref := agent; mui_team_ref := id; mui_operation := MoJoin;
                        mui_reason_ref := None |} p in
          with_memberships
            (alter (with_delegation (Some execution)) (membership_id agent id)
               (pr_memberships p)) p
      | _, _, _ => p
      end
  end.

Definition drain_membership (i : TeamUpdateInput) (m : AgenticMembershipProjection) :
  AgenticMembershipProjection :=
  if String.eqb (ms_team_id m) (tui_team_ref i) && bool_decide (ms_lifecycle m = MlActive)
  then with_reason (tui_reason_ref i) (with_lifecycle MlDraining m) else m.

(** [apply_team_update] *)
Definition apply_team_update (i : TeamUpdateInput) (p : AgenticProgramProjection) :
  AgenticProgramProjection :=
  match pr_teams p !! tui_team_ref i with
  | None => p
  | Some team =>
      let team := match tui_mission_ref i with Some m => with_mission m team | None => team end in
      if tui_request_retire i then
        with_memberships (drain_membership i <$> pr_memberships p)
          (with_teams (<[tui_team_ref i := with_team_lifecycle TlDraining team]> (pr_teams p)) p)
      else with_teams (<[tui_team_ref i := team]> (pr_teams p)) p
  end.

Definition new_member (e : AgentActionEnvelope) (i : AgentInviteInput) (agent : string) :
  AgentMemberProjection :=
  {| mb_agent_id := agent; mb_display_name := trim (aii_role i); mb_role := trim (aii_role i);
     mb_mission := trim (aii_mission i); mb_required_capabilities := aii_required_capabilities i;
     mb_invited_by := ab_actor_id (ae_actor e); mb_membership_ids := [];
     mb_definition_ref := aii_definition_ref i; mb_model_profile_ref := aii_model_profile_ref i;
     mb_expertise_hints := aii_expertise_hints i;
     mb_execution_requirements := aii_execution_requirements i |}.

(** [apply_agent_invite] *)
Definition apply_agent_invite (e : AgentActionEnvelope) (i : AgentInviteInput)
    (entity_ref : option string) (p : AgenticProgramProjection) : AgenticProgramProjection :=
  match entity_ref with
  | None => p
  | Some new_agent_id =>
      let agent := default new_agent_id (aii_existing_agent_ref i) in
      let team := aii_team_ref i in
      let member := default (new_member e i agent) (pr_agents p !! agent) in
      link_member agent team
        (with_memberships
           (<[membership_id agent team := new_membership agent team None
                                            (ab_actor_id (ae_actor e))]> (pr_memberships p))
           (with_agents (<[agent := member]> (pr_agents p)) p))
  end.

(** ** Draining *)

Definition owns_live_claim (p : AgenticProgramProjection) (membership agent : string) : bool :=
  any_value (fun t =>
    any_value (fun a => String.eqb (at_membership_id a) membership) (tk_active_attempts t)
    || (bool_decide (claimant t = Some agent)
        && bool_decide (tk_status t ∈ [AtClaimed; AtCancelRequested]))) (pr_tasks p).

Definition task_finished (s : AgenticTaskStatus) : bool :=
  match s with AtAccepted | AtWithdrawn | AtSuperseded => true | _ => false end.

Definition has_unfinished_work (p : AgenticProgramProjection) (team : string) : bool :=
  any_value (fun t => String.eqb (team_id t) team && negb (task_finished (tk_status t)))
    (pr_tasks p).

Definition retire_membership (p : AgenticProgramProjection)
    (ms : gmap string AgenticMembershipProjection) (draining : string * string) :
  gmap string AgenticMembershipProjection :=
  if owns_live_claim p draining.1 draining.2 then ms
  else alter (with_lifecycle MlRetired) draining.1 ms.

Definition retire_team (p : AgenticProgramProjection) (ts : gmap string AgenticTeamProjection)
    (team : string) : gmap string AgenticTeamProjection :=
  if has_unfinished_work p team then ts else alter (with_team_lifecycle TlRetired) team ts.

(** [reconcile_lifecycle] *)
Definition reconcile_lifecycle (p : AgenticProgramProjection) : AgenticProgramProjection :=
  let draining_memberships :=
    map (fun m => (ms_membership_id m, ms_agent_id m))
      (List.filter (fun m => bool_decide (ms_lifecycle m = MlDraining))
         (btree_values (pr_memberships p))) in
  let p := with_memberships
             (foldl (retire_membership p) (pr_memberships p) draining_memberships) p in
  let draining_teams :=
    map tm_team_id
      (List.filter (fun t => bool_decide (tm_lifecycle t = TlDraining))
         (btree_values (pr_teams p))) in
  with_teams (foldl (retire_team p) (pr_teams p) draining_teams) p.

(** ** Topics and artifacts *)

(** The attempt behind a declining message is the one the decline settles. *)
Definition declines_attempt (e : AgentActionEnvelope) (t : AgenticTaskProjection)
    (a : AgenticTaskAttemptProjection) : bool :=
  bool_decide (ab_agent_id (ae_actor e) = Some (at_agent_id a))
  && String.eqb (at_agent_id a) (ab_actor_id (ae_actor e))
  && bool_decide (at_mode a = AmExecute)
  && (at_generation a =? claim_generation t)%N
  && bool_decide (tk_status t ∈ [AtPublished; AtRework]).

(** The generation the intent is bound to, and the tasks after it. *)
Definition bind_intent (e : AgentActionEnvelope) (intent : option TaskIntent)
    (tasks : gmap string AgenticTaskProjection) :
  option N * gmap string AgenticTaskProjection :=
  match intent with
  | None => (None, tasks)
  | Some intent =>
      match tasks !! ti_task_ref intent with
      | None => (None, tasks)
      | Some t =>
          if bool_decide (ti_kind intent = InDecline) then
            match x ← ab_execution_id (ae_actor e); a ← tk_active_attempts t !! x; Some (x, a) with
            | Some (x, a) =>
                if declines_attempt e t a
                then (Some (claim_generation t),
                      <[ti_task_ref intent :=
                          with_attempts (delete x (tk_active_attempts t)) t]> tasks)
                else (None, tasks)
            | None => (None, tasks)
            end
          else (Some (claim_generation t), tasks)
      end
  end.

(** [apply_message_publish] *)
Definition apply_message_publish (e : AgentActionEnvelope) (i : MessagePublishInput)
    (entity_ref : option string) (revision : N) (p : AgenticProgramProjection) :
  AgenticProgramProjection :=
  match entity_ref with
  | None => p
  | Some entry_id =>
      let '(generation, tasks) := bind_intent e (mpi_intent i) (pr_tasks p) in
      let entry :=
        {| te_entry_id := entry_id; te_revision := revision;
           te_actor_id := ab_actor_id (ae_actor e);
           te_source_execution_id := ab_execution_id (ae_actor e);
           te_intent_generation := generation; te_coordination := None;
           te_summary := mpi_summary i; te_content_ref := mpi_content_ref i;
           te_refs := mpi_refs i; te_recipients := mpi_recipients i; te_intent := mpi_intent i;
           te_issue_dispositions := mpi_issue_dispositions i |} in
      with_topics
        (<[mpi_topic_ref i := default [] (pr_topics p !! mpi_topic_ref i) ++ [entry]]>
           (pr_topics p)) (with_tasks tasks p)
  end.

(** The task its actor holds the claim of. *)
Definition active_claim (e : AgentActionEnvelope) (p : AgenticProgramProjection) :
  option AgenticTaskProjection :=
  find_value (fun t =>
    bool_decide (tk_status t = AtClaimed)
    && bool_decide (claimant t = ab_agent_id (ae_actor e))
    && bool_decide (claim_execution_id t = ab_execution_id (ae_actor e))) (pr_tasks p).

(** [apply_artifact_commit] *)
Definition apply_artifact_commit (e : AgentActionEnvelope) (i : ArtifactCommitInput)
    (entity_ref : option string) (p : AgenticProgramProjection) : AgenticProgramProjection :=
  match entity_ref with
  | None => p
  | Some artifact_ref =>
      let claim := active_claim e p in
      with_artifacts
        (<[artifact_ref :=
             {| ar_artifact_ref := artifact_ref; ar_content_ref := aci_content_ref i;
                ar_kind := aci_kind i; ar_title := aci_title i;
                ar_relates_to := match claim with
                                 | Some t => sort_dedup (aci_relates_to i ++ [task_id t])
                                 | None => aci_relates_to i
                                 end;
                ar_committed_by := ab_actor_id (ae_actor e);
                ar_claim_execution_id := t ← claim; claim_execution_id t;
                ar_claim_generation := t ← claim; Some (claim_generation t) |}]>
           (pr_artifacts p)) p
  end.

(** ** Issues *)

(** The digest over a task and a description, hexadecimal. *)
Class IssueDigest := issue_digest : string -> string -> string.

Section Issues.
Context `{IssueDigest} (p : AgenticProgramProjection).

Record IssueView := {
  iv_issue_ref : string;
  iv_source_ref : string;
  iv_description : string;
  iv_disposition : option IssueDisposition;
  iv_adjudication_ref : option string;
  iv_adjudicated_by : option string
}.

(** [max_by_key] of an iterator: the last of the greatest. *)
Definition later {A} (a b : AgenticTopicEntryProjection * A) : AgenticTopicEntryProjection * A :=
  if (te_revision a.1 <=? te_revision b.1)%N then b else a.

Definition latest_disposition (issue_ref : string) :
  option (AgenticTopicEntryProjection * IssueDisposition) :=
  match omap (fun e =>
          item ← List.find (fun item => String.eqb (isd_issue_ref item) issue_ref)
                   (te_issue_dispositions e);
          Some (e, item)) (topic_entries p) with
  | [] => None
  | x :: l => Some (foldl later x l)
  end.

Definition issue_view (t : AgenticTaskProjection) (description : string) : IssueView :=
  let issue_ref := "issue:" +:+ issue_digest (task_id t) description in
  let latest := latest_disposition issue_ref in
  {| iv_issue_ref := issue_ref; iv_source_ref := task_id t; iv_description := description;
     iv_disposition := snd <$> latest;
     iv_adjudication_ref := (fun x => te_entry_id x.1) <$> latest;
     iv_adjudicated_by := (fun x => te_actor_id x.1) <$> latest |}.

Definition by_issue_ref (a b : IssueView) : Prop := str_le (iv_issue_ref a) (iv_issue_ref b).

#[export] Instance by_issue_ref_dec : RelDecision by_issue_ref.
Proof. intros a b. unfold by_issue_ref. apply _. Defined.

(** [issues] *)
Definition issues : list IssueView :=
  merge_sort by_issue_ref
    (flat_map (fun t => map (issue_view t) (tk_unresolved (tk_delivery t)))
       (List.filter (fun t => negb (is_retired (tk_status t))) (btree_values (pr_tasks p)))).

Definition durable_prefix (reference : string) : bool :=
  starts_with reference "artifact://" || starts_with reference "tool://".

Definition disposition_error (known : list IssueView) (d : IssueDisposition) :
  option (string * string) :=
  if negb (existsb (fun v => String.eqb (iv_issue_ref v) (isd_issue_ref d)) known)
  then Some ("issue_source_changed_or_not_found"%string, isd_issue_ref d)
  else if negb (forallb durable_prefix (isd_reason_ref d :: isd_evidence_refs d))
  then Some ("issue_disposition_requires_durable_evidence"%string, isd_issue_ref d)
  else None.

(** [validate_dispositions] *)
Definition validate_dispositions (e : AgentActionEnvelope) (i : MessagePublishInput) :
  option (string * string) :=
  if is_nil (mpi_issue_dispositions i) then None
  else if negb (bool_decide (ab_kind (ae_actor e) = AkRoot)) then
    Some ("issue_adjudication_requires_root",
          "members may propose through Topic; final Objective classification belongs to the root")%string
  else head (omap (disposition_error issues) (mpi_issue_dispositions i)).

Definition issue_gap (v : IssueView) : option string :=
  match isd_disposition <$> iv_disposition v with
  | None => Some ("issue_requires_classification:" +:+ iv_issue_ref v)
  | Some IdMustResolve => Some ("issue_must_resolve:" +:+ iv_issue_ref v)
  | Some (IdDisclose | IdResolved) => None
  end.

(** [completion_gap] of [issues.rs] *)
Definition issues_completion_gap : option string := head (omap issue_gap issues).

End Issues.

(** ** Completion *)

Definition is_accepted (t : AgenticTaskProjection) : bool := bool_decide (tk_status t = AtAccepted).

(** The walk from the tasks that delivered an artifact, along dependencies of
    accepted tasks and replacements of superseded ones; [pending] is a stack. *)
Record Lineage := {
  li_integrated : gset string;
  li_visited : gset string;
  li_pending : list string
}.

(** [URL_SAFE_NO_PAD.decode], then [String::from_utf8] *)
Class UrlDecode := url_decode : string -> option string.

(** [parse_graph_approval_id] *)
Definition parse_graph_approval_id `{UrlDecode} (approval_id : string) :
  option (string * string) :=
  encoded ← strip_prefix approval_id "approval:v1:";
  '(graph, node) ← split_once encoded ":";
  graph ← url_decode graph;
  node ← url_decode node;
  if trim_is_empty graph || trim_is_empty node then None else Some (graph, node).

Section Completion.
Context `{IssueDigest} `{UrlDecode} (p : AgenticProgramProjection).

(** One turn of the loop, with [task_ref] popped: [extend] pushes at the end, so
    the last of the new references is the next popped. *)
Definition lineage_step (s : Lineage) (task_ref : string) (pending : list string) : Lineage :=
  if bool_decide (task_ref ∈ li_visited s)
  then {| li_integrated := li_integrated s; li_visited := li_visited s; li_pending := pending |}
  else
    let visited := {[task_ref]} ∪ li_visited s in
    match pr_tasks p !! task_ref with
    | Some task =>
        match tk_status task with
        | AtAccepted =>
            {| li_integrated := {[task_id task]} ∪ li_integrated s; li_visited := visited;
               li_pending := rev (depends_on task) ++ pending |}
        | AtSuperseded =>
            {| li_integrated := li_integrated s; li_visited := visited;
               li_pending := rev (replacement_task_refs task) ++ pending |}
        | _ => {| li_integrated := li_integrated s; li_visited := visited; li_pending := pending |}
        end
    | None => {| li_integrated := li_integrated s; li_visited := visited; li_pending := pending |}
    end.

Fixpoint lineage_loop (fuel : nat) (s : Lineage) : Exec (gset string) :=
  match li_pending s with
  | [] => Done (li_integrated s)
  | task_ref :: pending =>
      match fuel with
      | O => OutOfFuel
      | S fuel => lineage_loop fuel (lineage_step s task_ref pending)
      end
  end.

Definition delivers (artifact_ref : string) (t : AgenticTaskProjection) : bool :=
  is_accepted t && memb (artifact_refs t) artifact_ref.

(** What a task may push when it is visited. *)
Definition outgoing (t : AgenticTaskProjection) : list string :=
  match tk_status t with
  | AtAccepted => depends_on t
  | AtSuperseded => replacement_task_refs t
  | _ => []
  end.

Definition lineage_start (artifact_ref : string) : list string :=
  rev (map (fun t => task_id t) (List.filter (delivers artifact_ref) (btree_values (pr_tasks p)))).

Definition lineage_fuel (artifact_ref : string) : nat :=
  length (lineage_start artifact_ref)
  + foldr (fun t n => length (outgoing t) + n) 0 (btree_values (pr_tasks p)).

(** [integrated_accepted_tasks] *)
Definition integrated_accepted_tasks (artifact_ref : string) : gset string :=
  match lineage_loop (lineage_fuel artifact_ref)
          {| li_integrated := ∅; li_visited := ∅; li_pending := lineage_start artifact_ref |} with
  | Done s => s
  | Panic | OutOfFuel => ∅
  end.

(** The teams of a set of tasks. *)
Definition teams_of (tasks : list string) : gset string :=
  list_to_set (omap (fun id => (fun t => team_id t) <$> pr_tasks p !! id) tasks).

Definition required_teams : nat := N.to_nat (required_team_count p).

Definition incomplete_tasks : list string :=
  map (fun t => task_id t)
    (List.filter (fun t => negb (is_retired (tk_status t)) && negb (is_accepted t))
       (btree_values (pr_tasks p))).

Definition contributing_teams : gset string :=
  list_to_set (map (fun t => team_id t) (List.filter is_accepted (btree_values (pr_tasks p)))).

Definition integrated_by (result_refs : list string) : gset string :=
  list_to_set
    (flat_map (fun r =>
       flat_map (fun a => elements (integrated_accepted_tasks (ar_artifact_ref a)))
         (List.filter (fun a => String.eqb (ar_artifact_ref a) r || String.eqb (ar_content_ref a) r)
            (btree_values (pr_artifacts p)))) result_refs).

Definition uncovered_teams (result_refs : list string) : list string :=
  let contributing := teams_of (elements (integrated_by result_refs)) in
  if required_teams <=? size contributing then []
  else List.filter (fun t => negb (bool_decide (t ∈ contributing))) (btree_keys (pr_teams p)).

(** Whether the execution and the review of a task are by two agents. *)
Definition independent (t : AgenticTaskProjection) : bool :=
  is_some (claimant t) && is_some (reviewed_by t) && negb (bool_decide (claimant t = reviewed_by t)).

Definition unverified_tasks : list string :=
  map (fun t => task_id t)
    (List.filter (fun t => negb (is_retired (tk_status t)) && negb (independent t))
       (btree_values (pr_tasks p))).

Definition expected_actual (label : string) (actual : nat) : string :=
  label +:+ ":expected=" +:+ pretty (required_team_count p) +:+ ",actual="
  +:+ pretty (N.of_nat actual).

(** [completion_gap] of [supervision.rs] *)
Definition completion_gap (i : ObjectiveCompleteRequestInput) : option string :=
  let result_refs := oci_result_refs i in
  let known r := is_some (pr_artifacts p !! r) in
  if size (pr_teams p) <? required_teams then
    Some (expected_actual "required_teams_missing" (size (pr_teams p)))
  else if any_value (fun t => negb (bool_decide (tk_active_attempts t = ∅))) (pr_tasks p) then
    Some "execution_cleanup_pending"%string
  else if negb (is_nil (oci_unresolved i)) then Some "completion_has_unresolved_items"%string
  else match issues_completion_gap p with
  | Some gap => Some gap
  | None =>
  if negb (is_nil incomplete_tasks) then
    Some ("tasks_not_accepted:" +:+ String.concat "," incomplete_tasks)
  else if size contributing_teams <? required_teams then
    Some (expected_actual "required_team_contributions_missing" (size contributing_teams))
  else if existsb (fun r => negb (known r) && negb (durable_prefix r) && is_none (parse_graph_approval_id r))
            result_refs then
    Some "completion_result_reference_not_supported"%string
  else if existsb known result_refs && negb (is_nil (uncovered_teams result_refs)) then
    Some ("result_artifact_does_not_integrate_required_teams:"
          +:+ String.concat "," (uncovered_teams result_refs))
  else if negb (is_nil unverified_tasks) then
    Some ("tasks_without_independent_execution_and_review:" +:+ String.concat "," unverified_tasks)
  else if negb (bool_decide (pr_tasks p = ∅)) && is_nil (oci_evidence_refs i)
          && forallb (fun t => is_nil (evidence_refs t)) (btree_values (pr_tasks p)) then
    Some "completion_has_no_evidence"%string
  else None
  end.

Definition uncovered_delivery_teams (artifact_ref : string) : list string :=
  let integrated := integrated_accepted_tasks artifact_ref in
  if required_teams <=? size (teams_of (elements integrated)) then []
  else
    map tm_team_id
      (List.filter (fun t => negb (existsb (fun id => bool_decide (id ∈ integrated)) (tm_task_ids t)))
         (btree_values (pr_teams p))).

(** [completion_ready_result_artifact_refs] *)
Definition completion_ready_result_artifact_refs : list string :=
  if (size (pr_teams p) <? required_teams) || bool_decide (pr_tasks p = ∅)
     || negb (is_nil incomplete_tasks) then []
  else
    List.filter (fun a => any_value (delivers a) (pr_tasks p) && is_nil (uncovered_delivery_teams a))
      (btree_keys (pr_artifacts p)).

(** [apply_completion_request] *)
Definition apply_completion_request (e : AgentActionEnvelope) (i : ObjectiveCompleteRequestInput)
    (revision : N) : AgenticProgramProjection :=
  let primary := List.find (fun r => is_some (pr_artifacts p !! r)) (oci_result_refs i) in
  with_outcome PsCompletionRequested
    {| po_final_artifact_ref := primary;
       po_completion_request :=
         Some {| cr_action_id := ae_action_id e; cr_requested_by := ab_actor_id (ae_actor e);
                 cr_program_revision := revision; cr_result_refs := oci_result_refs i;
                 cr_primary_artifact_ref := primary; cr_evidence_refs := oci_evidence_refs i;
                 cr_unresolved := oci_unresolved i |};
       po_objective_verdict := objective_verdict p;
       po_unresolved := oci_unresolved i |} p.

End Completion.
