(* ===== verification/ProgramAuthority.v ===== *)
(** * What a program admits

    [runtime/src/agentic/action_service/authorization.rs] and [delegation.rs]: the
    guards of every action, in the order of the code; the first that holds refuses. *)

From stdpp Require Import pretty.
From S2P Require Import Prelude Approval Contract AgentAction AgentProgram WorkMarket AgentRoster.

(** A refusal: its code and its message. *)
Abbreviation Refusal := (option (string * string)).

Definition refuse_if (cond : bool) (code message : string) (rest : Refusal) : Refusal :=
  if cond then Some (code, message) else rest.

(** ** References *)

Fixpoint has_whitespace (s : string) : bool :=
  match s with
  | EmptyString => false
  | String _ s' => negb (String.eqb (trim_start s) s) || has_whitespace s'
  end.

(** [is_durable_evidence_ref] *)
Definition is_durable_evidence_ref (reference : string) : bool :=
  let reference := trim reference in
  existsb (fun prefix => starts_with reference prefix
                         && (String.length prefix <? String.length reference))
    ["tool://"; "artifact://"]%string
  && negb (has_whitespace reference).

Definition undurable_evidence (refs : list string) : Refusal :=
  pair "unsupported_evidence_ref"%string
  <$> List.find (fun r => negb (is_durable_evidence_ref r)) refs.

(** ** Delegation *)

(** The fields of a task packet that delegation reads. *)
Record ExecutionScope := {
  xs_program_id : string;
  xs_agent_id : string;
  xs_membership_id : string;
  xs_team_id : string
}.

Record PacketBinding := {
  kb_tool_contract_refs : list string;
  kb_digest_holds : bool
}.

Record GrantPacket := {
  gp_graph_id : string;
  gp_session_id : string;
  gp_agentic_binding : option ExecutionScope;
  gp_binding : option PacketBinding;
  gp_allowed_tools : list string
}.

(** The graph store ([None] where none is installed, or a graph does not load), and
    the reading of a node's payload, with the digest of its binding recomputed. *)
Class ExecutionGrants := {
  load_graph : string -> option ExecutionGraph;
  read_packet : string -> option GrantPacket
}.

Section Authority.
Context `{ExecutionGrants} `{IssueDigest} `{UrlDecode}.

Section Guards.
Context (p : AgenticProgramProjection) (e : AgentActionEnvelope).

Abbreviation actor := (ae_actor e).

Definition packet_grants (g : ExecutionGraph) (execution agent team tool_id : string)
    (packet : GrantPacket) : bool :=
  match gp_agentic_binding packet, gp_binding packet with
  | Some scope, Some binding =>
      String.eqb (gp_graph_id packet) execution
      && String.eqb (gp_session_id packet) (ab_session_id actor)
      && match eg_lineage g with
         | Some l => String.eqb (gl_turn_id l) (ab_turn_id actor)
                     && String.eqb (gl_session_id l) (ab_session_id actor)
         | None => false
         end
      && String.eqb (xs_program_id scope) (ab_program_id actor)
      && String.eqb (xs_agent_id scope) agent
      && String.eqb (xs_team_id scope) team
      && match membership_for p agent team with
         | Some m => String.eqb (ms_membership_id m) (xs_membership_id scope)
         | None => false
         end
      && memb (gp_allowed_tools packet) tool_id
      && memb (kb_tool_contract_refs binding) tool_id
      && kb_digest_holds binding
  | _, _ => false
  end.

Definition node_grants (g : ExecutionGraph) (execution agent team tool_id : string)
    (node : ExecutionNodeSpec) : bool :=
  bool_decide (ns_kind node = AgentTask)
  && match eg_node_statuses g !! ns_id node with
     | Some s => negb (is_terminal s)
     | None => false
     end
  && match read_packet (ns_payload_ref node) with
     | Some packet => packet_grants g execution agent team tool_id packet
     | None => false
     end.

(** [can_invoke_bound_action] *)
Definition can_invoke_bound_action (tool_id : string) : bool :=
  match ab_execution_id actor, ab_agent_id actor, ab_team_id actor with
  | Some execution, Some agent, Some team =>
      String.eqb (ab_actor_id actor) agent && agent_is_active_in p agent team
      && match load_graph execution with
         | Some g => existsb (node_grants g execution agent team tool_id) (eg_nodes g)
         | None => false
         end
  | _, _, _ => false
  end.

(** [can_organize_team] *)
Definition can_organize_team (team_id : string) : bool :=
  match ab_agent_id actor with
  | None => false
  | Some agent =>
      agent_is_active_in p agent team_id
      && match ab_team_id actor with
         | Some bound => agent_is_active_in p agent bound
         | None => false
         end
      && (bool_decide (ab_team_id actor = Some team_id)
          || match membership_for p agent team_id with
             | Some m => is_some (ms_delegation_ref m)
                         && bool_decide (ms_delegation_ref m = ab_execution_id actor)
             | None => false
             end)
  end.

(** ** The guards of tasks *)

(** [let Some(task) = projection.tasks.get(..) else { return task_not_found }] *)
Definition on_task (task_ref : string) (k : AgenticTaskProjection -> Refusal) : Refusal :=
  match pr_tasks p !! task_ref with
  | None => Some ("task_not_found"%string, task_ref)
  | Some task => k task
  end.

Definition validate_task_withdraw (i : TaskWithdrawInput) : Refusal :=
  on_task (twi_task_ref i) (fun task =>
  refuse_if (bool_decide (tk_status task ∈ [AtAccepted; AtSuperseded; AtWithdrawn]))
    "task_not_withdrawable" (task_status_debug (tk_status task))
  (if is_organizer (ab_kind actor)
      || (is_managed (ab_kind actor) && bool_decide (ab_team_id actor = Some (team_id task)))
   then None else Some ("task_withdraw_not_delegated"%string, team_id task))).

Definition validate_task_publish (i : TaskPublishInput) : Refusal :=
  let team := tpi_team_ref i in
  refuse_if (is_none (pr_teams p !! team)) "team_not_found" team
  (refuse_if (negb (team_active p team)) "team_not_accepting_work" team
  (refuse_if (is_managed (ab_kind actor) && negb (can_organize_team team))
     "cross_team_work_mutation_not_delegated" team
  (pair "dependency_not_found"%string
   <$> List.find (fun t => is_none (pr_tasks p !! t)) (tpi_depends_on i)))).

Definition expired_claim (now : N) (task : AgenticTaskProjection) : bool :=
  bool_decide (tk_status task = AtClaimed)
  && match lease_expires_at_ms task with
     | Some expires => (expires <=? now)%N
     | None => false
     end.

Definition validate_task_claim (i : TaskClaimInput) (now : N) : Refusal :=
  let task_ref := tcl_task_ref i in
  refuse_if (execution_is_coordinator p (ab_execution_id actor))
    "coordination_cannot_claim_task" task_ref
  (on_task task_ref (fun task =>
  let renewal := is_renewal e task in
  refuse_if (negb (bool_decide (tk_status task ∈ [AtPublished; AtRework]))
             && negb (expired_claim now task) && negb renewal)
    "task_not_claimable" (task_status_debug (tk_status task))
  (refuse_if (negb (is_managed (ab_kind actor)))
    "actor_cannot_execute_task" "task claims require a roster-bound Agent"
  (match List.find (fun d => negb (task_dependency_satisfied p d)) (depends_on task) with
  | Some waiting => Some ("dependency_not_accepted"%string, waiting)
  | None =>
  match ab_agent_id actor with
  | None => Some ("actor_not_bound", "agent_id")%string
  | Some agent =>
  refuse_if (is_none (pr_agents p !! agent)) "actor_not_in_roster" agent
  (refuse_if (negb (agent_is_active_in p agent (team_id task)))
     "task_outside_actor_team" (team_id task)
  (refuse_if (match ab_execution_id actor with
              | Some x => declined_task_opportunity p task_ref agent None (Some x)
              | None => false
              end) "task_opportunity_declined" task_ref
  (if renewal then None
   else (fun active => ("execution_already_claims_task"%string,
           "physical Agent execution is already bound to active Task " +:+ task_id active))
        <$> find_value (fun c =>
              negb (String.eqb (task_id c) task_ref) && bool_decide (tk_status c = AtClaimed)
              && bool_decide (claimant c = Some agent)
              && bool_decide (claim_execution_id c = ab_execution_id actor)) (pr_tasks p))))
  end end)))).

(** The attempt of the actor's execution at a task, when it coordinates. *)
Definition coordinating (task : AgenticTaskProjection) : option AgenticTaskAttemptProjection :=
  x ← ab_execution_id actor;
  attempt ← tk_active_attempts task !! x;
  if bool_decide (at_mode attempt = AmCoordination) then Some attempt else None.

Definition validate_task_release (i : TaskReleaseInput) : Refusal :=
  let task_ref := trl_task_ref i in
  on_task task_ref (fun task =>
  match coordinating task with
  | Some attempt =>
      if bool_decide (ab_kind actor = AkSupervisor) then None
      else
        refuse_if (negb (bool_decide (actor_agent_id e = Some (at_agent_id attempt))))
          "coordination_actor_mismatch" task_ref
        (match coordination_wake p (at_generation attempt) with
         | None => Some ("coordination_wake_missing"%string, task_ref)
         | Some (_, wake) =>
             refuse_if (negb (coordination_replied p (te_entry_id wake)
                                (at_execution_id attempt) (at_agent_id attempt)))
               "coordination_reply_required" (te_entry_id wake) None
         end)
  | None =>
      refuse_if (negb (bool_decide (tk_status task ∈ [AtClaimed; AtCancelRequested])))
        "task_not_claimed" task_ref
      (refuse_if (negb (bool_decide (ab_kind actor = AkSupervisor))
                  && negb (bool_decide (claimant task = actor_agent_id e)))
        "task_claimant_mismatch" task_ref
      (refuse_if (negb (bool_decide (claim_execution_id task = ab_execution_id actor)))
        "task_claim_fence_mismatch" task_ref None))
  end).

Definition replacement_error (task_ref replacement_ref : string) : Refusal :=
  match pr_tasks p !! replacement_ref with
  | None => Some ("replacement_task_not_found"%string, replacement_ref)
  | Some replacement =>
      refuse_if (bool_decide (tk_status replacement = AtSuperseded))
        "replacement_task_already_superseded" replacement_ref
      (refuse_if (task_depends_on p replacement_ref task_ref)
        "replacement_depends_on_superseded_task" replacement_ref None)
  end.

Definition validate_task_supersede (i : TaskSupersedeInput) : Refusal :=
  on_task (tsi_task_ref i) (fun task =>
  refuse_if (bool_decide (ab_kind actor = AkAgent)) "task_supersede_not_delegated"
    "only the root, owning Team lead, or Program supervisor may retire work"
  (refuse_if (bool_decide (ab_kind actor = AkTeamLead)
              && negb (bool_decide (ab_team_id actor = Some (team_id task))))
    "cross_team_work_mutation_not_delegated" (team_id task)
  (refuse_if (negb (bool_decide (tk_status task ∈
                      [AtPublished; AtRework; AtBlocked; AtClaimed; AtSubmitted])))
    "task_not_supersedable" (task_status_debug (tk_status task))
  (match head (omap (replacement_error (tsi_task_ref i)) (tsi_replacement_task_refs i)) with
   | Some refusal => Some refusal
   | None => undurable_evidence (tsi_evidence_refs i)
   end)))).

Definition validate_task_attempt_failure (i : TaskAttemptFailInput) : Refusal :=
  let task_ref := tfi_task_ref i in
  let execution := tfi_execution_id i in
  refuse_if (negb (bool_decide (ab_kind actor = AkSupervisor)))
    "attempt_failure_requires_supervisor" task_ref
  (on_task task_ref (fun task =>
  let registered := match tk_active_attempts task !! execution with
                    | Some a => bool_decide (at_mode a = tfi_mode i)
                    | None => false
                    end in
  let holds := bool_decide (claim_execution_id task = Some execution) in
  let cancelled := bool_decide (tk_status task = AtCancelRequested) in
  let claimed := bool_decide (tk_status task = AtClaimed) in
  match tfi_mode i with
  | AmCoordination => refuse_if (negb registered) "coordination_attempt_missing" execution None
  | AmExecute =>
      if cancelled && (registered || holds) then None
      else
        refuse_if (claimed && negb holds) "task_claim_fence_mismatch" task_ref
        (refuse_if (negb (bool_decide (tk_status task ∈ [AtPublished; AtRework; AtClaimed])))
          "task_not_claimed" task_ref
        (refuse_if (negb claimed && negb registered) "task_not_claimed" task_ref
        (refuse_if (negb registered && negb holds) "task_claim_fence_mismatch" task_ref None)))
  | AmReview =>
      if cancelled && registered then None
      else
        refuse_if (negb (bool_decide (tk_status task = AtSubmitted))
                   || (negb registered && negb (bool_decide (tk_active_attempts task = ∅))))
          "task_not_submitted" task_ref None
  end)).

Definition dispatch_ready (i : TaskAttemptDispatchInput) (task : AgenticTaskProjection) : bool :=
  match tdi_mode i with
  | AmCoordination =>
      match coordination_wake p (tdi_generation i) with
      | Some (_, wake) =>
          match te_intent wake with
          | Some intent => String.eqb (ti_task_ref intent) (tdi_task_ref i)
          | None => false
          end
          && coordination_request_current p wake && is_none (te_coordination wake)
      | None => false
      end
  | AmExecute => bool_decide (tk_status task ∈ [AtPublished; AtRework])
  | AmReview => bool_decide (tk_status task = AtSubmitted)
  end.

Definition has_active_opportunity (agent : string) : bool :=
  any_value (fun c =>
    any_value (fun a => String.eqb (at_agent_id a) agent) (tk_active_attempts c)
    || (bool_decide (tk_status c = AtClaimed) && bool_decide (claimant c = Some agent)))
    (pr_tasks p).

Definition validate_task_attempt_dispatch (i : TaskAttemptDispatchInput) : Refusal :=
  let task_ref := tdi_task_ref i in
  let agent := tdi_agent_ref i in
  refuse_if (negb (bool_decide (ab_kind actor = AkSupervisor)))
    "attempt_dispatch_requires_supervisor" task_ref
  (on_task task_ref (fun task =>
  refuse_if (is_none (pr_agents p !! agent)) "attempt_agent_not_in_roster" agent
  (match (if bool_decide (tdi_mode i = AmCoordination)
          then coordination_team_id_for p agent (tdi_generation i)
          else dispatch_team_id_for p agent task (bool_decide (tdi_mode i = AmReview))) with
  | None => Some ("attempt_membership_inactive"%string, agent)
  | Some team =>
  refuse_if (negb (String.eqb (tdi_membership_id i) (membership_id agent team)))
    "attempt_membership_mismatch" agent
  (refuse_if (negb (dispatch_ready i task)) "task_not_dispatchable"
     (task_status_debug (tk_status task))
  (refuse_if (negb (tdi_generation i =?
                match tdi_mode i with
                | AmCoordination => tdi_generation i
                | AmExecute => claim_generation task
                | AmReview => tk_review_generation (tk_failures task)
                end)%N) "attempt_generation_stale" task_ref
  (refuse_if (bool_decide (tdi_mode i = AmExecute)
              && declined_task_opportunity p task_ref agent (Some (tdi_generation i)) None)
     "task_opportunity_declined" task_ref
  (refuse_if (any_value (fun a => bool_decide (at_mode a = tdi_mode i)
                                  && (at_generation a =? tdi_generation i)%N)
                (tk_active_attempts task)) "attempt_generation_already_dispatched" task_ref
  (refuse_if (has_active_opportunity agent) "agent_has_active_opportunity" agent None)))))
  end))).

Definition unbound_artifact (i : TaskSubmitInput) (task : AgenticTaskProjection) (a : string) :
  bool :=
  match pr_artifacts p !! a with
  | Some artifact =>
      negb (String.eqb (ar_committed_by artifact) (ab_actor_id actor))
      || negb (memb (ar_relates_to artifact) (tsu_task_ref i))
      || negb (bool_decide (ar_claim_execution_id artifact = claim_execution_id task))
      || negb (bool_decide (ar_claim_generation artifact = Some (claim_generation task)))
  | None => false
  end.

Definition validate_task_submission (i : TaskSubmitInput) (now : N) : Refusal :=
  let task_ref := tsu_task_ref i in
  refuse_if (negb (is_managed (ab_kind actor))) "actor_cannot_submit_task"
    "task submissions require the roster-bound claimant"
  (on_task task_ref (fun task =>
  refuse_if (negb (bool_decide (tk_status task = AtClaimed))) "task_not_claimed" task_ref
  (refuse_if (negb (bool_decide (claimant task = actor_agent_id e)))
     "task_claimant_mismatch" task_ref
  (refuse_if (negb (bool_decide (claim_execution_id task = ab_execution_id actor)))
     "task_claim_fence_mismatch" task_ref
  (refuse_if (match lease_expires_at_ms task with
              | Some expires => (expires <=? now)%N
              | None => true
              end) "task_claim_expired" task_ref
  (match List.find (fun a => is_none (pr_artifacts p !! a)) (tsu_artifact_refs i) with
  | Some missing => Some ("artifact_not_committed"%string, missing)
  | None =>
  match List.find (unbound_artifact i task) (tsu_artifact_refs i) with
  | Some unowned => Some ("artifact_not_bound_to_active_claim"%string, unowned)
  | None =>
  refuse_if (is_nil (tsu_artifact_refs i)) "task_submission_has_no_artifact"
    "commit substantive work, then submit its compact artifact reference"
  (refuse_if (is_nil (tsu_evidence_refs i)) "task_submission_has_no_evidence"
    "submit at least one durable tool:// or artifact:// evidence reference"
  (undurable_evidence (tsu_evidence_refs i)))
  end end)))))).

Definition validate_task_review (i : TaskReviewInput) : Refusal :=
  let task_ref := tri_task_ref i in
  refuse_if (execution_is_coordinator p (ab_execution_id actor))
    "coordination_cannot_review_task" task_ref
  (refuse_if (negb (is_managed (ab_kind actor))) "actor_cannot_review_task"
    "a roster-bound independent Agent must review"
  (on_task task_ref (fun task =>
  refuse_if (negb (bool_decide (tk_status task = AtSubmitted))) "task_not_submitted" task_ref
  (refuse_if (bool_decide (claimant task = actor_agent_id e)) "self_review_forbidden" task_ref
  (refuse_if (is_some (claim_execution_id task)
              && bool_decide (claim_execution_id task = ab_execution_id actor))
     "self_review_forbidden" "producer and reviewer share a physical execution"
  (match ab_agent_id actor with
  | None => Some ("actor_not_bound", "agent_id")%string
  | Some reviewer =>
  refuse_if (is_none (pr_agents p !! reviewer)) "actor_not_in_roster" reviewer
  (refuse_if (is_nil (tri_evidence_refs i)) "review_has_no_evidence"
    "independent review must cite inspected tool:// or artifact:// evidence"
  (undurable_evidence (tri_evidence_refs i)))
  end)))))).

(** ** The guards of messages, members and the objective *)

Definition blank (o : option string) : bool :=
  match o with Some text => trim_is_empty text | None => true end.

Definition reasonless (i : MessagePublishInput) (intent : TaskIntent) : bool :=
  blank (mpi_summary i) && is_none (mpi_content_ref i) && is_none (ti_reason_ref intent).

Definition declines_current (task : AgenticTaskProjection) : bool :=
  match x ← ab_execution_id actor; tk_active_attempts task !! x with
  | Some a =>
      bool_decide (ab_agent_id actor = Some (at_agent_id a))
      && String.eqb (at_agent_id a) (ab_actor_id actor)
      && bool_decide (at_mode a = AmExecute)
      && (at_generation a =? claim_generation task)%N
      && agent_is_active_in p (at_agent_id a) (team_id task)
  | None => false
  end.

Definition validate_intent (i : MessagePublishInput) (intent : TaskIntent) : Refusal :=
  let task_ref := ti_task_ref intent in
  refuse_if (bool_decide (ti_kind intent = InRequestHelp) && reasonless i intent)
    "coordination_reason_required" task_ref
  (on_task task_ref (fun task =>
  refuse_if (bool_decide (ti_kind intent = InOffer)
             && (negb (is_managed (ab_kind actor)) || is_none (ab_execution_id actor)
                 || negb (bool_decide (ab_agent_id actor = Some (ab_actor_id actor)))
                 || negb (agent_is_active_in p (ab_actor_id actor) (team_id task))))
    "offer_requires_bound_team_agent" task_ref
  (if negb (bool_decide (ti_kind intent = InDecline)) then None
   else
     refuse_if (negb (is_managed (ab_kind actor))) "decline_requires_bound_agent" task_ref
     (refuse_if (negb (declines_current task)
                 || negb (bool_decide (tk_status task ∈ [AtPublished; AtRework])))
        "decline_opportunity_fence_mismatch" task_ref
     (refuse_if (reasonless i intent) "decline_reason_required" task_ref None))))).

Definition validate_message_publish (i : MessagePublishInput) : Refusal :=
  match validate_dispositions p e i with
  | Some error => Some error
  | None =>
      refuse_if (negb (String.eqb (mpi_topic_ref i) ("topic:" +:+ program_id p))
                 && negb (any_value (fun t => String.eqb (tm_topic_ref t) (mpi_topic_ref i))
                            (pr_teams p))) "topic_not_found" (mpi_topic_ref i)
      (match mpi_intent i with Some intent => validate_intent i intent | None => None end)
  end.

Definition validate_invite (i : AgentInviteInput) : Refusal :=
  let team := aii_team_ref i in
  refuse_if (is_none (pr_teams p !! team)) "team_not_found" team
  (refuse_if (negb (team_active p team)) "team_not_accepting_members" team
  (refuse_if (is_managed (ab_kind actor) && negb (can_organize_team team))
    "cross_team_roster_mutation_not_delegated" team None)).

Definition joins (i : MembershipUpdateInput) : bool :=
  match mui_operation i with MoJoin => true | MoLeave => false end.

Definition validate_membership_update (i : MembershipUpdateInput) : Refusal :=
  let team := mui_team_ref i in
  refuse_if (is_none (pr_teams p !! team)) "membership_target_not_found" team
  (refuse_if (is_none (pr_agents p !! mui_agent_ref i)) "membership_target_not_found"
     (mui_agent_ref i)
  (refuse_if (joins i && negb (team_active p team)) "team_not_accepting_members" team
  (if is_organizer (ab_kind actor) || bool_decide (ab_agent_id actor = Some (mui_agent_ref i))
   then None else Some ("membership_update_not_delegated"%string, mui_agent_ref i)))).

Definition validate_team_update (i : TeamUpdateInput) : Refusal :=
  match pr_teams p !! tui_team_ref i with
  | None => Some ("team_not_found"%string, tui_team_ref i)
  | Some team =>
      if is_organizer (ab_kind actor)
         || (bool_decide (ab_kind actor = AkTeamLead)
             && bool_decide (ab_team_id actor = Some (tm_team_id team)))
      then None else Some ("team_update_not_delegated"%string, tui_team_ref i)
  end.

Definition validate_complete_request (i : ObjectiveCompleteRequestInput) : Refusal :=
  refuse_if (negb (is_organizer (ab_kind actor))) "objective_completion_not_delegated"
    "only the root or Objective supervisor may request Program completion"
  (pair "objective_not_verifiable"%string <$> completion_gap p i).

Definition objective_guard : Refusal :=
  if is_organizer (ab_kind actor) then None
  else Some ("objective_mutation_not_delegated",
             "only the root or Objective supervisor may mutate the user Objective")%string.

Definition is_inspect : bool :=
  match ae_action e with StateInspect _ => true | _ => false end.

Definition program_terminal (s : AgenticProgramStatus) : bool :=
  match s with PsVerified | PsPartial | PsBlocked | PsFailed | PsCancelled => true | _ => false end.

Definition validate_by_action (now : N) : Refusal :=
  match ae_action e with
  | StateInspect _ => None
  | TeamCreate _ =>
      if is_organizer (ab_kind actor) || can_invoke_bound_action "team_create" then None
      else Some ("team_create_not_delegated",
                 "Team creation requires a current immutable execution grant in the bound Team")%string
  | AgentInvite i => validate_invite i
  | TaskPublish i => validate_task_publish i
  | TaskClaim i => validate_task_claim i now
  | TaskRelease i => validate_task_release i
  | TaskSupersede i => validate_task_supersede i
  | TaskWithdraw i => validate_task_withdraw i
  | TaskAttemptDispatch i => validate_task_attempt_dispatch i
  | TaskAttemptFail i => validate_task_attempt_failure i
  | TaskSubmit i => validate_task_submission i now
  | TaskReview i => validate_task_review i
  | MessagePublish i => validate_message_publish i
  | ArtifactCommit i =>
      refuse_if (negb (starts_with (aci_content_ref i) "artifact://")) "content_ref_unresolved"
        "Commit a non-empty deliverable: use artifact_publish with a non-empty file, or select a current_message_block:<index> that actually contains the findings. An empty or absent Text block is never committed."
        None
  | ObjectiveReview _ =>
      if can_invoke_bound_action "objective_review" then None else objective_guard
  | ObjectiveUpdate _ => objective_guard
  | MembershipUpdate i => validate_membership_update i
  | TeamUpdate i => validate_team_update i
  | ObjectiveCompleteRequest i => validate_complete_request i
  end.

(** [validate_transition] *)
Definition validate_transition (now : N) : Refusal :=
  refuse_if (bool_decide (pr_status p = PsCompletionRequested) && negb is_inspect)
    "objective_verdict_pending"
    "the completion request is durable and awaiting ObjectiveSupervisor verdict"
  (refuse_if (program_terminal (pr_status p) && negb is_inspect) "program_terminal"
    "a verified or blocked Program is immutable; start a new Objective to do more work"
  (validate_by_action now)).

End Guards.
End Authority.
