(* ===== verification/ProgramJournal.v ===== *)
(** * The journal of a program

    [runtime/src/agentic/program.rs] ([apply]), [action_service.rs] ([apply_locked],
    [project_snapshot], [apply_projection_events], [commit_program_conclusion],
    [bind_objective_verdict]), [supervision.rs] ([reconcile_completion_request]) and
    [continuation.rs] ([revision_seed]).

    A journal is the stream of a program: its events in order, the first with
    sequence 1.  [apply_locked] holds the lock of the stream from its first read to
    its append, so an action is one step.  A payload stands for what it decodes to:
    the writer serializes and the reader deserializes with the same derived code. *)

From stdpp Require Import pretty.
From S2P Require Import Prelude Approval AgentAction AgentProgram WorkMarket AgentRoster.
From S2P Require Import ProgramAuthority.

(** ** The effect of an action *)

Section Effect.
Context `{IssueDigest}.

Definition apply_action (e : AgentActionEnvelope) (entity_ref : option string)
    (revision applied_at : N) (p : AgenticProgramProjection) : AgenticProgramProjection :=
  match ae_action e with
  | StateInspect _ => p
  | TeamCreate i => apply_team_create e i entity_ref p
  | AgentInvite i => apply_agent_invite e i entity_ref p
  | TaskPublish i => apply_task_publish i entity_ref p
  | TaskClaim i => apply_task_claim e i applied_at p
  | TaskRelease i => apply_task_release e i p
  | TaskSupersede i => apply_task_supersede e i p
  | TaskWithdraw i => apply_task_withdraw e i p
  | TaskAttemptDispatch i => apply_task_attempt_dispatch i p
  | TaskAttemptFail i => apply_task_attempt_fail i p
  | TaskSubmit i => apply_task_submit e i p
  | TaskReview i => apply_task_review e i p
  | MessagePublish i => apply_message_publish e i entity_ref revision p
  | ArtifactCommit i => apply_artifact_commit e i entity_ref p
  | ObjectiveUpdate _ | ObjectiveReview _ => p
  | MembershipUpdate i => apply_membership_update e i p
  | TeamUpdate i => apply_team_update i p
  | ObjectiveCompleteRequest i => apply_completion_request p e i revision
  end.

(** [AgenticProgramProjection::apply] *)
Definition program_apply (e : AgentActionEnvelope) (entity_ref : option string)
    (revision applied_at : N) (p : AgenticProgramProjection) : AgenticProgramProjection :=
  with_revision revision (reconcile_lifecycle (apply_action e entity_ref revision applied_at p)).

End Effect.

Definition verdict_status (k : ObjectiveTerminalKind) : AgenticProgramStatus :=
  match k with
  | OtSatisfied => PsVerified
  | OtPartiallySatisfied => PsPartial
  | OtBlocked => PsBlocked
  | OtFailed => PsFailed
  | OtCancelled => PsCancelled
  end.

(** [apply_objective_verdict] *)
Definition apply_objective_verdict (v : AgenticObjectiveVerdictProjection) (revision : N)
    (p : AgenticProgramProjection) : AgenticProgramProjection :=
  let o := pr_outcome p in
  with_revision revision
    (with_outcome (verdict_status (ov_kind v))
       {| po_final_artifact_ref := po_final_artifact_ref o;
          po_completion_request := po_completion_request o;
          po_objective_verdict := Some v; po_unresolved := po_unresolved o |} p).

(** ** Identities *)

(** SHA-256, hexadecimal *)
Class Sha256 := sha256_hex : string -> string.

Section Journal.
Context `{IssueDigest} `{UrlDecode} `{ExecutionGrants} `{Sha256}.

Definition entity_prefix (a : AgentAction) : option string :=
  match a with
  | TeamCreate _ => Some "team"
  | AgentInvite _ => Some "agent"
  | TaskPublish _ => Some "task"
  | MessagePublish _ => Some "message"
  | ArtifactCommit _ => Some "artifact"
  | _ => None
  end%string.

(** [entity_ref] *)
Definition entity_ref (e : AgentActionEnvelope) : option string :=
  let generated :=
    prefix ← entity_prefix (ae_action e);
    Some (prefix +:+ ":"
          +:+ String.substring 0 24
                (sha256_hex (ab_program_id (ae_actor e) +:+ "|" +:+ ab_actor_id (ae_actor e)
                             +:+ "|" +:+ ae_action_id e +:+ "|" +:+ action_kind (ae_action e)))) in
  match ae_action e with
  | AgentInvite i => match aii_existing_agent_ref i with Some r => Some r | None => generated end
  | TaskSupersede i => Some (tsi_task_ref i)
  | TaskWithdraw i => Some (twi_task_ref i)
  | _ => generated
  end.

(** ** Events *)

Inductive ProgramEvent :=
| PeOpened (b : ProgramBinding) (seed : option AgenticProgramProjection)
| PeAction (e : AgentActionEnvelope) (entity : option string)
| PeVerdict (v : AgenticObjectiveVerdictProjection)
| PeReopened (request_revision : option N) (gaps : list string)
| PeOther.

Record JournalEntry := {
  je_event : ProgramEvent;
  je_created_at_ms : N
}.

Inductive ServiceError :=
| Corrupt (message : string)
| StoreFailed (message : string).

Abbreviation Projected := (Result ServiceError AgenticProgramProjection).

Definition reopened (gaps : list string) (sequence : N) (p : AgenticProgramProjection) :
  AgenticProgramProjection :=
  with_revision sequence
    (with_outcome PsOpen
       {| po_final_artifact_ref := None; po_completion_request := None;
          po_objective_verdict := objective_verdict p; po_unresolved := gaps |} p).

(** The body of the loop of [apply_projection_events]. *)
Definition apply_event (p : AgenticProgramProjection) (x : N * JournalEntry) : Projected :=
  let sequence := x.1 in
  if (sequence <=? pr_revision p)%N then Ok p
  else match je_event x.2 with
  | PeOpened _ seed =>
      match seed with
      | None => Ok (with_revision sequence p)
      | Some inherited =>
          if negb (String.eqb (program_id inherited) (program_id p))
             || negb (String.eqb (pb_objective_id (pr_binding inherited))
                        (pb_objective_id (pr_binding p)))
             || is_none (pb_continuation (pr_binding inherited))
             || negb (sequence =? 1)%N
          then Err (Corrupt "invalid continuation seed")
          else Ok (with_revision sequence inherited)
      end
  | PeVerdict v => Ok (apply_objective_verdict v sequence p)
  | PeReopened request_revision gaps =>
      if bool_decide (cr_program_revision <$> completion_request p = request_revision)
      then Ok (reopened gaps sequence p)
      else Err (Corrupt "completion reopen request fence mismatch")
  | PeAction e entity => Ok (program_apply e entity sequence (je_created_at_ms x.2) p)
  | PeOther => Ok (with_revision sequence p)
  end.

Fixpoint number_from (n : N) (j : list JournalEntry) : list (N * JournalEntry) :=
  match j with
  | [] => []
  | x :: j => (n, x) :: number_from (n + 1) j
  end.

(** The events of a stream with their sequences. *)
Definition numbered (j : list JournalEntry) : list (N * JournalEntry) := number_from 1 j.

Definition opening (x : JournalEntry) : option ProgramBinding :=
  match je_event x with PeOpened b _ => Some b | _ => None end.

(** The full replay at the end of [project_snapshot]. *)
Definition project (j : list JournalEntry) : Projected :=
  match head (omap opening j) with
  | None => Err (Corrupt "program_not_found")
  | Some b => try_fold apply_event (opened_program b) (numbered j)
  end.

(** What a cached or persisted projection is brought to the head with:
    [list_stream_after] its revision. *)
Definition events_after (revision : N) (j : list JournalEntry) : list (N * JournalEntry) :=
  List.filter (fun x => (revision <? x.1)%N) (numbered j).

Definition resume_projection (cached : AgenticProgramProjection) (j : list JournalEntry) :
  Projected := try_fold apply_event cached (events_after (pr_revision cached) j).

(** ** Admission *)

Record GoalView := {
  gv_goal_id : string;
  gv_program_id : string;
  gv_objective_id : string;
  gv_session_id : string;
  gv_turn_id : string;
  gv_root_execution_id : string;
  gv_conditions : list string
}.

(** The durable goal of a root ([GoalStore::projection], with its binding and the
    ids of its criteria and obligations), and the artifact store. *)
Class ProgramReads := {
  read_goal : string -> Result string (option GoalView);
  resolve_artifact : option (string -> Result string unit)
}.

Inductive Submission :=
| SubApplied (duplicate : bool) (revision : N) (entity : option string)
| SubObserved (revision : N)
| SubRejected (revision : N) (code message : string)
| SubError (error : ServiceError).

#[export] Instance AgentActorBinding_eq_dec : EqDecision AgentActorBinding.
Proof. solve_decision. Defined.

#[export] Instance AgentAction_eq_dec : EqDecision AgentAction.
Proof. unfold EqDecision, Decision. repeat decide equality. Defined.

Definition is_action (action_id : string) (x : JournalEntry) :
  option (AgentActionEnvelope * option string) :=
  match je_event x with
  | PeAction e entity => if String.eqb (ae_action_id e) action_id then Some (e, entity) else None
  | _ => None
  end.

(** [replay_if_applied] *)
Definition replay_if_applied (e : AgentActionEnvelope) (j : list JournalEntry) :
  option Submission :=
  '(original, entity) ← head (omap (is_action (ae_action_id e)) j);
  Some match project j with
       | Err error => SubError error
       | Ok p =>
           if bool_decide (ae_actor original = ae_actor e)
              && bool_decide (ae_action original = ae_action e)
           then SubApplied true (pr_revision p) entity
           else SubRejected (pr_revision p) "action_id_conflict"
                  "action_id already identifies a different actor or payload; use the original request to retry"
       end.

(** The binding a first action opens the program with. *)
Definition binding_of (a : AgentActorBinding) : ProgramBinding :=
  {| pb_program_id := ab_program_id a; pb_objective_id := ab_objective_id a;
     pb_session_id := ab_session_id a; pb_turn_id := ab_turn_id a;
     pb_root_execution_id := ab_root_execution_id a;
     pb_required_team_count := ab_required_team_count a;
     pb_objective_summary := ab_objective_summary a;
     pb_model_lease := if trim_is_empty (ab_model_lease a) then "default" else ab_model_lease a;
     pb_permission_ceiling := default PmReadOnly (ab_permission_ceiling a);
     pb_resource_scopes := ab_resource_scopes a; pb_continuation := None |}.

Definition current_projection (a : AgentActorBinding) (j : list JournalEntry) : Projected :=
  match project j with
  | Err (Corrupt message) =>
      if String.eqb message "program_not_found" then Ok (opened_program (binding_of a))
      else Err (Corrupt message)
  | r => r
  end.

Definition binding_differs (a : AgentActorBinding) (b : ProgramBinding) : bool :=
  negb (String.eqb (pb_session_id b) (ab_session_id a)
        && String.eqb (pb_turn_id b) (ab_turn_id a)
        && bool_decide (pb_root_execution_id b = ab_root_execution_id a)
        && (pb_required_team_count b =? ab_required_team_count a)%N
        && String.eqb (pb_objective_summary b) (ab_objective_summary a)
        && String.eqb (pb_model_lease b) (ab_model_lease a)
        && bool_decide (Some (pb_permission_ceiling b) = ab_permission_ceiling a)
        && bool_decide (pb_resource_scopes b = ab_resource_scopes a)).

Context `{ProgramReads}.

(** The goal conditions a published task refers to. *)
Definition check_obligations (a : AgentAction) (p : AgenticProgramProjection) :
  Result ServiceError Refusal :=
  match a with
  | TaskPublish i =>
      if is_nil (tpi_obligation_refs i) then Ok None
      else
        goal ← match pb_root_execution_id (pr_binding p) with
               | None => Ok None
               | Some root => map_err Corrupt (read_goal ("goal:" +:+ root))
               end;
        Ok match goal with
           | None => Some ("obligation_goal_not_found",
                           "Task obligation references require the bound durable Goal")%string
           | Some g =>
               let b := pr_binding p in
               if negb (String.eqb (gv_program_id g) (pb_program_id b)
                        && String.eqb (gv_objective_id g) (pb_objective_id b)
                        && String.eqb (gv_session_id g) (pb_session_id b)
                        && String.eqb (gv_turn_id g) (pb_turn_id b)
                        && bool_decide (Some (gv_root_execution_id g) = pb_root_execution_id b))
               then Some ("obligation_goal_binding_mismatch",
                          "Task references must belong to this Program's immutable Goal binding")%string
               else (fun missing => ("obligation_not_found"%string,
                       "Goal condition " +:+ missing
                       +:+ " does not exist; inspect the current Goal"))
                    <$> List.find (fun r => negb (memb (gv_conditions g) r)) (tpi_obligation_refs i)
           end
  | _ => Ok None
  end.

Definition cited_evidence (a : AgentAction) : list string :=
  match a with
  | TaskSubmit i => tsu_evidence_refs i
  | TaskReview i => tri_evidence_refs i
  | TaskSupersede i => tsi_evidence_refs i
  | TaskWithdraw i => twi_evidence_refs i
  | ObjectiveReview i => ori_evidence_refs i
  | ObjectiveCompleteRequest i => oci_evidence_refs i
  | _ => []
  end.

(** What the artifact store must hold. *)
Definition check_artifacts (a : AgentAction) : Refusal :=
  match resolve_artifact with
  | None => None
  | Some resolve =>
      let evidence :=
        (fun r => ("evidence_not_durable"%string,
                   "evidence reference does not resolve in Runtime ArtifactStore: " +:+ r))
        <$> List.find (fun r => starts_with r "artifact://" && negb (is_ok (resolve r)))
              (cited_evidence a) in
      match a with
      | ArtifactCommit i =>
          match resolve (aci_content_ref i) with
          | Err error => Some ("artifact_content_not_durable"%string,
                               "content_ref must resolve in Runtime ArtifactStore: " +:+ error)
          | Ok _ => evidence
          end
      | _ => evidence
      end
  end.

Definition opening_entry (a : AgentActorBinding) (now : N) : JournalEntry :=
  {| je_event :=
       PeOpened
         {| pb_program_id := ab_program_id a; pb_objective_id := ab_objective_id a;
            pb_session_id := ab_session_id a; pb_turn_id := ab_turn_id a;
            pb_root_execution_id := ab_root_execution_id a;
            pb_required_team_count := ab_required_team_count a;
            pb_objective_summary := ab_objective_summary a; pb_model_lease := ab_model_lease a;
            pb_permission_ceiling := default PmReadOnly (ab_permission_ceiling a);
            pb_resource_scopes := ab_resource_scopes a; pb_continuation := None |} None;
     je_created_at_ms := now |}.

Definition stale (e : AgentActionEnvelope) (p : AgenticProgramProjection) : bool :=
  match ae_expected_revision e with
  | Some expected => negb (expected =? pr_revision p)%N
  | None => false
  end.

(** What [apply_locked] appends for an admitted action. *)
Definition admitted_entries (e : AgentActionEnvelope) (at_ms : N) (p : AgenticProgramProjection) :
  list JournalEntry :=
  (if (pr_revision p =? 0)%N then [opening_entry (ae_actor e) at_ms] else [])
  ++ [{| je_event := PeAction e (entity_ref e); je_created_at_ms := at_ms |}].

(** [apply_locked], without a goal event and without a review proof; the guards read
    the clock at [now], the store at [at_ms]. *)
Definition apply_locked (e : AgentActionEnvelope) (now at_ms : N) (j : list JournalEntry) :
  Submission * list JournalEntry :=
  match replay_if_applied e j with
  | Some replay => (replay, j)
  | None =>
  match current_projection (ae_actor e) j with
  | Err error => (SubError error, j)
  | Ok p =>
  let reject code message := (SubRejected (pr_revision p) code message, j) in
  if negb (String.eqb (pb_objective_id (pr_binding p)) (ab_objective_id (ae_actor e))) then
    reject "objective_binding_mismatch"%string "the Program is bound to a different Objective"%string
  else if binding_differs (ae_actor e) (pr_binding p) then
    reject "program_binding_mismatch"%string
      "session, turn, Objective, execution policy, or completion obligation differs from the frozen Program binding"%string
  else if is_inspect e then (SubObserved (pr_revision p), j)
  else if stale e p then
    reject "stale_revision"%string
      ("expected Program revision " +:+ pretty (default 0%N (ae_expected_revision e))
       +:+ ", actual " +:+ pretty (pr_revision p))
  else match validate_transition p e now with
  | Some (code, message) => reject code message
  | None =>
  match check_obligations (ae_action e) p with
  | Err error => (SubError error, j)
  | Ok (Some (code, message)) => reject code message
  | Ok None =>
  match check_artifacts (ae_action e) with
  | Some (code, message) => reject code message
  | None =>
      let j := j ++ admitted_entries e at_ms p in
      (match project j with
       | Ok p => SubApplied false (pr_revision p) (entity_ref e)
       | Err error => SubError error
       end, j)
  end end end end end.

(** [AgentActionService::apply] *)
Definition submit_action (e : AgentActionEnvelope) (now at_ms : N) (j : list JournalEntry) :
  Submission * list JournalEntry :=
  match validate_envelope e with
  | Err error =>
      (SubRejected 0 "invalid_action"
         match error with
         | VeMissing f => "agent action field `" +:+ f +:+ "` is required"
         | VeEmpty f => "agent action field `" +:+ f +:+ "` cannot be empty"
         | VeDuplicate f => "agent action field `" +:+ f +:+ "` contains duplicate values"
         | VeInvalid f => "agent action field `" +:+ f +:+ "` has an invalid canonical form"
         end, j)
  | Ok _ => apply_locked e now at_ms j
  end.

(** ** Conclusions *)

Inductive GoalCompletion :=
| GoOpen | GoSatisfied | GoPartial | GoBlocked | GoFailed | GoWaitingExternalDecision
| GoCancelled.

Record ObjectiveTerminal := {
  ot_kind : ObjectiveTerminalKind;
  ot_terminal_fence : string;
  ot_authority_revision : N
}.

Record GoalExecutionBinding := {
  gb_objective_id : string;
  gb_session_id : string;
  gb_turn_id : string;
  gb_root_execution_id : string;
  gb_agentic_program_id : string
}.

(** The fields of a goal that a verdict is taken from. *)
Record BoundGoal := {
  bo_id : string;
  bo_session_id : string;
  bo_revision : N;
  bo_completion : GoalCompletion;
  bo_evidence_refs : list string;
  bo_execution_binding : option GoalExecutionBinding;
  bo_terminal : option ObjectiveTerminal
}.

(** What the goal store prepared: the goal after its next event, the gaps that are
    left, and whether the streams it was prepared from are where they were. *)
Record PreparedProgramConclusion := {
  pp_goal : BoundGoal;
  pp_gaps : list string;
  pp_sources_current : bool
}.

Definition verdict_of (g : BoundGoal) (t : ObjectiveTerminal) : AgenticObjectiveVerdictProjection :=
  {| ov_goal_id := bo_id g; ov_goal_revision := bo_revision g;
     ov_terminal_fence := ot_terminal_fence t; ov_authority_revision := ot_authority_revision t;
     ov_kind := ot_kind t |}.

(** [commit_program_conclusion]: [read] is the projection the conclusion was
    prepared on, and the append expects its revision. *)
Definition commit_program_conclusion (read : AgenticProgramProjection)
    (prepared : PreparedProgramConclusion) (now : N) (j : list JournalEntry) :
  Result ServiceError (list JournalEntry) :=
  match completion_request read with
  | None => Err (Corrupt "missing completion request")
  | Some request =>
      if negb (pr_revision read =? N.of_nat (length j))%N || negb (pp_sources_current prepared)
      then Err (StoreFailed "stale stream revision")
      else
        Ok (j ++ [{| je_event := match bo_terminal (pp_goal prepared) with
                                 | Some terminal => PeVerdict (verdict_of (pp_goal prepared) terminal)
                                 | None =>
                                     PeReopened (Some (cr_program_revision request))
                                       (pp_gaps prepared)
                                 end;
                     je_created_at_ms := now |}])
  end.

Definition terminal_matches_completion (k : ObjectiveTerminalKind) (c : GoalCompletion) : bool :=
  match k, c with
  | OtSatisfied, GoSatisfied | OtPartiallySatisfied, GoPartial | OtBlocked, GoBlocked
  | OtFailed, GoFailed | OtCancelled, GoCancelled => true
  | _, _ => false
  end.

(** The goal is the one of the program's root, and its terminal answers [request]. *)
Definition terminal_bound (p : AgenticProgramProjection) (root : string)
    (request : AgenticCompletionRequestProjection) (g : BoundGoal) (t : ObjectiveTerminal) : bool :=
  let b := pr_binding p in
  String.eqb (bo_id g) ("goal:" +:+ root)
  && String.eqb (bo_session_id g) (pb_session_id b)
  && match bo_execution_binding g with
     | Some binding =>
         String.eqb (gb_objective_id binding) (pb_objective_id b)
         && String.eqb (gb_session_id binding) (pb_session_id b)
         && String.eqb (gb_turn_id binding) (pb_turn_id b)
         && String.eqb (gb_root_execution_id binding) root
         && String.eqb (gb_agentic_program_id binding) (program_id p)
     | None => false
     end
  && String.eqb (ot_terminal_fence t)
       ("agentic-objective:" +:+ program_id p +:+ ":request:"
        +:+ pretty (cr_program_revision request))
  && (ot_authority_revision t =? cr_program_revision request)%N
  && terminal_matches_completion (ot_kind t) (bo_completion g)
  && forallb (memb (bo_evidence_refs g)) (cr_evidence_refs request)
  && memb (bo_evidence_refs g) ("execution_graph:" +:+ root).

(** [bind_objective_verdict] *)
Definition bind_objective_verdict (g : BoundGoal) (now : N) (j : list JournalEntry) :
  Result ServiceError (list JournalEntry) :=
  p ← project j;
  request ← ok_or (Corrupt "objective_verdict_without_completion_request") (completion_request p);
  root ← ok_or (Corrupt "objective_verdict_without_root_execution")
           (pb_root_execution_id (pr_binding p));
  t ← ok_or (Corrupt "objective_verdict_is_not_terminal") (bo_terminal g);
  if negb (terminal_bound p root request g t)
  then Err (Corrupt "objective_verdict_binding_mismatch")
  else match objective_verdict p with
  | Some existing =>
      if String.eqb (ov_terminal_fence existing) (ot_terminal_fence t)
         && (ov_goal_revision existing =? bo_revision g)%N
         && bool_decide (ov_kind existing = ot_kind t)
      then Ok j
      else Err (Corrupt "objective_verdict_conflicts_with_bound_terminal")
  | None =>
      if negb (pr_revision p =? N.of_nat (length j))%N
      then Err (StoreFailed "stale stream revision")
      else Ok (j ++ [{| je_event := PeVerdict (verdict_of g t); je_created_at_ms := now |}])
  end.

(** What the goal store says of a program's goal while it is reconciled: the goal
    under an id, and the conclusion it prepares. *)
Record GoalStore := {
  gs_get : string -> Result string (option BoundGoal);
  gs_prepare : AgenticProgramProjection -> Result string PreparedProgramConclusion
}.

(** [reconcile_completion_request] concludes only what is requested. *)
Definition reconcile_completion_request (goals : GoalStore) (now : N) (j : list JournalEntry) :
  Result ServiceError (list JournalEntry) :=
  p ← project j;
  if negb (bool_decide (pr_status p = PsCompletionRequested)) then Ok j
  else
    root ← ok_or (Corrupt "completion request has no root execution binding")
             (pb_root_execution_id (pr_binding p));
    goal ← map_err Corrupt (gs_get goals ("goal:" +:+ root));
    match (g ← goal; t ← bo_terminal g; Some g) with
    | Some g => bind_objective_verdict g now j
    | None =>
        prepared ← map_err Corrupt (gs_prepare goals p);
        commit_program_conclusion p prepared now j
    end.

(** ** Continuations *)

Definition unreconciled (t : AgenticTaskProjection) : bool :=
  bool_decide (tk_status t ∈ [AtClaimed; AtCancelRequested])
  || (negb (bool_decide (tk_active_attempts t = ∅)) && negb (is_accepted t)
      && negb (is_retired (tk_status t))).

(** The loop over the tasks of [revision_seed]. *)
Definition seed_task (source_id : string) (t : AgenticTaskProjection) :
  Result string AgenticTaskProjection :=
  let gap := "continuation_effect_reconciliation:" +:+ source_id +:+ ":" +:+ task_id t in
  let d := tk_delivery t in
  let t := if unreconciled t
           then with_delivery
                  {| tk_artifact_refs := tk_artifact_refs d; tk_evidence_refs := tk_evidence_refs d;
                     tk_unresolved := push_new gap (tk_unresolved d);
                     tk_review_reason := tk_review_reason d; tk_reviewed_by := tk_reviewed_by d |}
                  (with_status AtBlocked t)
           else t in
  if (claim_generation t =? u64_max)%N then Err "claim generation exhausted"%string
  else
    Ok (with_failures
          {| tk_failed_attempts := 0; tk_review_generation := tk_review_generation (tk_failures t);
             tk_failed_review_attempts := 0; tk_last_failure := tk_last_failure (tk_failures t) |}
          (with_attempts ∅ (with_claim (no_claim (claim_generation t + 1)) t))).

Fixpoint seed_tasks (source_id : string) (l : list (string * AgenticTaskProjection)) :
  Result string (gmap string AgenticTaskProjection) :=
  match l with
  | [] => Ok ∅
  | (k, t) :: l =>
      t ← seed_task source_id t;
      m ← seed_tasks source_id l;
      Ok (<[k := t]> m)
  end.

Record ContinuationBinding := {
  cb_source_root_id : string;
  cb_authorization_revision : N;
  cb_binding_digest : string
}.

Definition continuation_of (source : AgenticProgramProjection) (b : ContinuationBinding) :
  Result string AgenticProgramContinuation :=
  let generation := match pb_continuation (pr_binding source) with
                    | Some c => pc_authorization_generation c
                    | None => 1%N
                    end in
  if (generation =? u64_max)%N then Err "authorization generation exhausted"%string
  else
    Ok {| pc_source_program_id := program_id source;
          pc_source_objective_id := pb_objective_id (pr_binding source);
          pc_source_root_id := cb_source_root_id b; pc_source_revision := pr_revision source;
          pc_source_status := pr_status source; pc_authorization_generation := generation + 1;
          pc_authorization_revision := cb_authorization_revision b;
          pc_binding_digest := cb_binding_digest b |}.

(** [revision_seed] *)
Definition revision_seed (source : AgenticProgramProjection) (b : ContinuationBinding)
    (a : AgentActorBinding) : Result string AgenticProgramProjection :=
  continuation ← continuation_of source b;
  ceiling ← ok_or "missing current permission ceiling"%string (ab_permission_ceiling a);
  tasks ← seed_tasks (program_id source) (btree_entries (pr_tasks source));
  Ok {| pr_binding :=
          {| pb_program_id := ab_program_id a; pb_objective_id := ab_objective_id a;
             pb_session_id := pb_session_id (pr_binding source); pb_turn_id := ab_turn_id a;
             pb_root_execution_id := ab_root_execution_id a;
             pb_required_team_count := required_team_count source;
             pb_objective_summary := pb_objective_summary (pr_binding source);
             pb_model_lease := ab_model_lease a; pb_permission_ceiling := ceiling;
             pb_resource_scopes := ab_resource_scopes a; pb_continuation := Some continuation |};
        pr_revision := 0; pr_status := PsOpen; pr_teams := pr_teams source;
        pr_agents := pr_agents source; pr_memberships := pr_memberships source;
        pr_tasks := tasks; pr_topics := pr_topics source; pr_artifacts := pr_artifacts source;
        pr_outcome := {| po_final_artifact_ref := None; po_completion_request := None;
                         po_objective_verdict := None;
                         po_unresolved := po_unresolved (pr_outcome source) |} |}.

End Journal.
