(* ===== verification/WorkWalks.v ===== *)
(** * The walks over tasks

    The walks of [WorkMarket] and [AgentRoster] end within their fuel and compute
    what they are for: a dependency is satisfied when it follows from accepted tasks
    through replacements, a task depends on another when a path of dependencies leads
    there, and an artifact integrates the accepted tasks its lineage reaches. *)

From S2P Require Import Prelude AgentAction AgentProgram WorkMarket AgentRoster.

(** ** What the walks decide *)

Section Specification.
Context (p : AgenticProgramProjection).

(** Satisfied, by a derivation: a superseded task is where all that replaces it is. *)
Inductive satisfied : string -> Prop :=
| satisfied_accepted r t :
    pr_tasks p !! r = Some t -> tk_status t = AtAccepted -> satisfied r
| satisfied_replaced r t :
    pr_tasks p !! r = Some t -> tk_status t = AtSuperseded -> replacement_task_refs t <> [] ->
    (forall x, x ∈ replacement_task_refs t -> satisfied x) -> satisfied r.

(** [a] lists [b] as a dependency. *)
Definition depends_edge (a b : string) : Prop :=
  exists t, pr_tasks p !! a = Some t /\ b ∈ depends_on t.

(** [a] leads to [b] in the lineage of a delivery. *)
Definition lineage_edge (a b : string) : Prop :=
  exists t, pr_tasks p !! a = Some t /\ b ∈ outgoing t.

(** The accepted tasks the lineage of an artifact reaches. *)
Definition integrates (artifact_ref x : string) : Prop :=
  exists k0 t0 k t, pr_tasks p !! k0 = Some t0 /\ delivers artifact_ref t0 = true
    /\ rtc lineage_edge (task_id t0) k
    /\ pr_tasks p !! k = Some t /\ tk_status t = AtAccepted /\ x = task_id t.

(** ** Satisfaction *)

(** A derivation of at most [n] levels. *)
Fixpoint satisfied_within (n : nat) (r : string) : bool :=
  match n with
  | O => false
  | S n =>
      match pr_tasks p !! r with
      | None => false
      | Some t =>
          match tk_status t with
          | AtAccepted => true
          | AtSuperseded =>
              negb (is_nil (replacement_task_refs t))
              && forallb (satisfied_within n) (replacement_task_refs t)
          | _ => false
          end
      end
  end.

Lemma satisfied_within_S n : forall r, satisfied_within n r = true -> satisfied_within (S n) r = true.
Proof.
  induction n as [|n IH]; intros r; [done|].
  change (satisfied_within (S (S n)) r) with
    (match pr_tasks p !! r with
     | None => false
     | Some t => match tk_status t with
                 | AtAccepted => true
                 | AtSuperseded => negb (is_nil (replacement_task_refs t))
                                   && forallb (satisfied_within (S n)) (replacement_task_refs t)
                 | _ => false
                 end
     end).
  cbn [satisfied_within]. destruct (pr_tasks p !! r) as [t|]; [|done].
  destruct (tk_status t); try done. intros [-> Hf]%andb_prop. cbn [andb].
  rewrite !forallb_elem_of in *. eauto.
Qed.

Lemma satisfied_within_le n m r : n <= m -> satisfied_within n r = true -> satisfied_within m r = true.
Proof. induction 1; eauto using satisfied_within_S. Qed.

Lemma common_bound (l : list string) :
  (forall x, x ∈ l -> exists n, satisfied_within n x = true) ->
  exists n, forall x, x ∈ l -> satisfied_within n x = true.
Proof.
  induction l as [|y l IH]; intros Hl; [exists 0; by intros x ?%elem_of_nil|].
  destruct (Hl y) as [a Ha]; [left|]. destruct IH as [b Hb]; [intros; apply Hl; by right|].
  exists (a + b). intros x [->|Hx]%elem_of_cons.
  - eapply satisfied_within_le; [|done]. lia.
  - eapply satisfied_within_le; [|by apply Hb]. lia.
Qed.

Lemma satisfied_bounded r : satisfied r -> exists n, satisfied_within n r = true.
Proof.
  induction 1 as [r t Ht Hs|r t Ht Hs Hne Hall IH].
  - exists 1. cbn. by rewrite Ht, Hs.
  - destruct (common_bound _ IH) as [n Hn]. exists (S n). cbn [satisfied_within]. rewrite Ht, Hs.
    destruct (replacement_task_refs t) eqn:E; [done|]. rewrite <-E in *. apply andb_true_intro.
    rewrite E at 1. split; [done|]. by apply forallb_elem_of.
Qed.

(** *** The loops of the walks *)

Lemma exec_all_true {A} (f : A -> Exec bool) l :
  (forall x, x ∈ l -> f x = Done true) -> exec_all f l = Done true.
Proof.
  induction l as [|x l IH]; intros Hl; [done|]. cbn. rewrite (Hl x) by left. cbn.
  apply IH. intros. apply Hl. by right.
Qed.

Lemma exec_all_inv {A} (f : A -> Exec bool) l :
  exec_all f l = Done true -> forall x, x ∈ l -> f x = Done true.
Proof.
  induction l as [|y l IH]; cbn; intros He x Hx; [by apply elem_of_nil in Hx|].
  destruct (f y) as [[]| |] eqn:Ey; try discriminate. apply elem_of_cons in Hx as [->|Hx]; eauto.
Qed.

Lemma exec_all_done {A} (f : A -> Exec bool) l :
  (forall x, x ∈ l -> exists b, f x = Done b) -> exists b, exec_all f l = Done b.
Proof.
  induction l as [|y l IH]; intros Hl; cbn; [eauto|].
  destruct (Hl y) as [[] ->]; [left| |cbn; eauto]. cbn. apply IH. intros. apply Hl. by right.
Qed.

Lemma exec_any_inv {A} (f : A -> Exec bool) l :
  exec_any f l = Done true -> exists x, x ∈ l /\ f x = Done true.
Proof.
  induction l as [|y l IH]; cbn; [done|]. destruct (f y) as [[]| |] eqn:Ey; cbn; try discriminate.
  - intros _. exists y. split; [left|done].
  - intros (x & Hx & Hf)%IH. exists x. split; [by right|done].
Qed.

Lemma exec_any_done {A} (f : A -> Exec bool) l :
  (forall x, x ∈ l -> exists b, f x = Done b) ->
  exists b, exec_any f l = Done b /\ ((exists x, x ∈ l /\ f x = Done true) -> b = true).
Proof.
  induction l as [|y l IH]; intros Hl; cbn.
  - exists false. split; [done|]. by intros (x & ?%elem_of_nil & _).
  - destruct (Hl y) as [[] Hy]; [left| |].
    + rewrite Hy. cbn. eauto.
    + rewrite Hy. cbn. destruct IH as (b & Hb & Hx); [intros; apply Hl; by right|].
      exists b. split; [done|]. intros (x & [->|Hin]%elem_of_cons & Hf); [congruence|eauto].
Qed.

(** A set on the path, within the tasks, leaves room for one more. *)
Lemma path_room (visiting : gset string) r t :
  visiting ⊆ dom (pr_tasks p) -> r ∉ visiting -> pr_tasks p !! r = Some t ->
  {[r]} ∪ visiting ⊆ dom (pr_tasks p)
  /\ size ({[r]} ∪ visiting) = S (size visiting) /\ size visiting < size (pr_tasks p).
Proof.
  intros Hv Hr Ht. assert ({[r]} ∪ visiting ⊆ dom (pr_tasks p)) as Hsub.
  { apply elem_of_dom_2 in Ht. set_solver. }
  assert (size ({[r]} ∪ visiting) = S (size visiting)) as Hs.
  { rewrite size_union, size_singleton by set_solver. lia. }
  split_and!; [done..|]. apply subseteq_size in Hsub. rewrite size_dom in Hsub. lia.
Qed.

Lemma visit_satisfied_done fuel : forall visiting r,
  visiting ⊆ dom (pr_tasks p) -> size (pr_tasks p) < fuel + size visiting ->
  exists b, visit_satisfied p fuel visiting r = Done b.
Proof.
  induction fuel as [|fuel IH]; intros visiting r Hv Hf.
  { apply subseteq_size in Hv. rewrite size_dom in Hv. lia. }
  cbn [visit_satisfied]. destruct (pr_tasks p !! r) as [t|] eqn:Ht; [|eauto].
  destruct (tk_status t); eauto. destruct (is_nil _); [eauto|]. cbn [orb].
  case_bool_decide as Hr; [eauto|]. apply exec_all_done. intros x _.
  destruct (path_room visiting r t) as (Hsub & Hs & Hlt); [done..|]. apply IH; [done|lia].
Qed.

Lemma visit_satisfied_sound fuel : forall visiting r,
  visit_satisfied p fuel visiting r = Done true -> satisfied r.
Proof.
  induction fuel as [|fuel IH]; intros visiting r; [done|]. cbn [visit_satisfied].
  destruct (pr_tasks p !! r) as [t|] eqn:Ht; [|done].
  destruct (tk_status t) eqn:Hs; try done; [intros _; by eapply satisfied_accepted|].
  destruct (is_nil _) eqn:Hn; [done|]. cbn [orb]. case_bool_decide; [done|].
  intros Hall. eapply satisfied_replaced; [done..| |].
  - by destruct (replacement_task_refs t).
  - intros x Hx. eapply IH. by eapply exec_all_inv in Hall.
Qed.

(** No task on the path follows within the levels that are left. *)
Lemma visit_satisfied_complete n : forall fuel visiting r,
  visiting ⊆ dom (pr_tasks p) -> size (pr_tasks p) < fuel + size visiting ->
  satisfied_within n r = true ->
  (forall v, v ∈ visiting -> satisfied_within n v = false) ->
  visit_satisfied p fuel visiting r = Done true.
Proof.
  induction n as [|n IH]; intros fuel visiting r Hv Hf Hr Hno; [done|].
  destruct (satisfied_within n r) eqn:Hn.
  { apply IH; [done..|]. intros v Hin. destruct (satisfied_within n v) eqn:E; [|done].
    apply satisfied_within_S in E. rewrite Hno in E; done. }
  assert (r ∉ visiting) as Hfresh by (intros Hin; rewrite Hno in Hr; done).
  destruct fuel as [|fuel].
  { apply subseteq_size in Hv. rewrite size_dom in Hv. lia. }
  cbn [visit_satisfied]. cbn [satisfied_within] in Hr.
  destruct (pr_tasks p !! r) as [t|] eqn:Ht; [|done]. destruct (tk_status t); try done.
  apply andb_prop in Hr as [Hne Hall]. destruct (is_nil _); [done|]. cbn [orb].
  rewrite bool_decide_eq_false_2 by done.
  destruct (path_room visiting r t) as (Hsub & Hs & Hlt); [done..|].
  apply exec_all_true. intros x Hx. apply IH; [done|lia| |].
  - by apply (proj1 (forallb_elem_of _ _) Hall).
  - intros v [->%elem_of_singleton|Hin]%elem_of_union; [done|].
    destruct (satisfied_within n v) eqn:E; [|done].
    apply satisfied_within_S in E. rewrite Hno in E; done.
Qed.

Lemma visit_satisfied_spec n r :
  walk_depth p <= n ->
  visit_satisfied p n ∅ r = Done (task_dependency_satisfied p r)
  /\ (task_dependency_satisfied p r = true <-> satisfied r).
Proof.
  unfold task_dependency_satisfied, walk_depth. intros Hn.
  assert (forall m, S (size (pr_tasks p)) <= m ->
            exists b, visit_satisfied p m ∅ r = Done b /\ (b = true <-> satisfied r)) as Hd.
  { intros m Hm. destruct (visit_satisfied_done m ∅ r) as [b Hb]; [done|lia|].
    exists b. split; [done|]. split.
    - intros ->. by eapply visit_satisfied_sound.
    - intros [k Hk]%satisfied_bounded. rewrite (visit_satisfied_complete k) in Hb; [congruence|done|lia|done|].
      intros v Hv. by apply elem_of_empty in Hv. }
  destruct (Hd n Hn) as (b & Hb & Hs), (Hd (S (size (pr_tasks p)))) as (b' & Hb' & Hs'); [lia|].
  rewrite Hb, Hb'. cbn [walk_result]. split; [|done]. f_equal.
  destruct b, b'; intuition congruence.
Qed.

Lemma task_dependency_satisfied_iff r : task_dependency_satisfied p r = true <-> satisfied r.
Proof. apply (visit_satisfied_spec (walk_depth p)). done. Qed.

(** ** Dependencies *)

Fixpoint depends_within (n : nat) (d r : string) : bool :=
  match n with
  | O => false
  | S n =>
      match pr_tasks p !! r with
      | None => false
      | Some t => memb (depends_on t) d || existsb (depends_within n d) (depends_on t)
      end
  end.

Lemma depends_within_S n d : forall r, depends_within n d r = true -> depends_within (S n) d r = true.
Proof.
  induction n as [|n IH]; intros r; [done|].
  change (depends_within (S (S n)) d r) with
    (match pr_tasks p !! r with
     | None => false
     | Some t => memb (depends_on t) d || existsb (depends_within (S n) d) (depends_on t)
     end).
  cbn [depends_within]. destruct (pr_tasks p !! r) as [t|]; [|done].
  intros [->|He]%orb_prop; [done|]. apply orb_true_iff. right.
  rewrite existsb_elem_of in *. naive_solver.
Qed.

Lemma depends_bounded r d : tc depends_edge r d -> exists n, depends_within n d r = true.
Proof.
  induction 1 as [r d (t & Ht & Hin)|r x d (t & Ht & Hin) _ [n Hn]].
  - exists 1. cbn. rewrite Ht. apply orb_true_iff. left. by apply memb_true.
  - exists (S n). cbn. rewrite Ht. apply orb_true_iff. right. apply existsb_elem_of. eauto.
Qed.

Lemma visit_depends_done d fuel : forall visiting r,
  visiting ⊆ dom (pr_tasks p) -> size (pr_tasks p) < fuel + size visiting ->
  exists b, visit_depends p fuel d visiting r = Done b.
Proof.
  induction fuel as [|fuel IH]; intros visiting r Hv Hf.
  { apply subseteq_size in Hv. rewrite size_dom in Hv. lia. }
  cbn [visit_depends]. destruct (pr_tasks p !! r) as [t|] eqn:Ht; [|eauto].
  destruct (memb _ _); [eauto|]. case_bool_decide as Hr; [eauto|].
  destruct (path_room visiting r t) as (Hsub & Hs & Hlt); [done..|].
  destruct (exec_any_done (visit_depends p fuel d ({[r]} ∪ visiting)) (depends_on t)) as (b & Hb & _);
    [|eauto].
  intros x _. apply IH; [done|lia].
Qed.

Lemma visit_depends_sound d fuel : forall visiting r,
  visit_depends p fuel d visiting r = Done true -> tc depends_edge r d.
Proof.
  induction fuel as [|fuel IH]; intros visiting r; [done|]. cbn [visit_depends].
  destruct (pr_tasks p !! r) as [t|] eqn:Ht; [|done].
  destruct (memb _ _) eqn:Hm; [intros _; apply tc_once; exists t; split; [done|]; by apply memb_true|].
  case_bool_decide; [done|]. intros (x & Hx & Hv)%exec_any_inv.
  eapply tc_l; [by exists t|]. by eapply IH.
Qed.

Lemma visit_depends_complete d n : forall fuel visiting r,
  visiting ⊆ dom (pr_tasks p) -> size (pr_tasks p) < fuel + size visiting ->
  depends_within n d r = true ->
  (forall v, v ∈ visiting -> depends_within n d v = false) ->
  visit_depends p fuel d visiting r = Done true.
Proof.
  induction n as [|n IH]; intros fuel visiting r Hv Hf Hr Hno; [done|].
  assert (forall v, v ∈ visiting -> depends_within n d v = false) as Hno'.
  { intros v Hin. destruct (depends_within n d v) eqn:E; [|done].
    apply depends_within_S in E. rewrite Hno in E; done. }
  destruct (depends_within n d r) eqn:Hn; [by apply IH|].
  assert (r ∉ visiting) as Hfresh by (intros Hin; rewrite Hno in Hr; done).
  destruct fuel as [|fuel].
  { apply subseteq_size in Hv. rewrite size_dom in Hv. lia. }
  cbn [visit_depends]. cbn [depends_within] in Hr.
  destruct (pr_tasks p !! r) as [t|] eqn:Ht; [|done]. destruct (memb _ _); [done|].
  rewrite bool_decide_eq_false_2 by done. cbn [orb] in Hr. apply existsb_elem_of in Hr as (x & Hx & Hr).
  destruct (path_room visiting r t) as (Hsub & Hs & Hlt); [done..|].
  destruct (exec_any_done (visit_depends p fuel d ({[r]} ∪ visiting)) (depends_on t)) as (b & -> & Hb).
  - intros y _. apply visit_depends_done; [done|lia].
  - f_equal. apply Hb. exists x. split; [done|]. apply IH; [done|lia|done|].
    intros v [->%elem_of_singleton|Hin]%elem_of_union; eauto.
Qed.

Lemma visit_depends_spec n r d :
  walk_depth p <= n ->
  visit_depends p n d ∅ r = Done (task_depends_on p r d)
  /\ (task_depends_on p r d = true <-> tc depends_edge r d).
Proof.
  unfold task_depends_on, walk_depth. intros Hn.
  assert (forall m, S (size (pr_tasks p)) <= m ->
            exists b, visit_depends p m d ∅ r = Done b /\ (b = true <-> tc depends_edge r d)) as Hd.
  { intros m Hm. destruct (visit_depends_done d m ∅ r) as [b Hb]; [done|lia|].
    exists b. split; [done|]. split.
    - intros ->. by eapply visit_depends_sound.
    - intros [k Hk]%depends_bounded. rewrite (visit_depends_complete d k) in Hb; [congruence|done|lia|done|].
      intros v Hv. by apply elem_of_empty in Hv. }
  destruct (Hd n Hn) as (b & Hb & Hs), (Hd (S (size (pr_tasks p)))) as (b' & Hb' & Hs'); [lia|].
  rewrite Hb, Hb'. cbn [walk_result]. split; [|done]. f_equal.
  destruct b, b'; intuition congruence.
Qed.

Lemma task_depends_on_iff r d : task_depends_on p r d = true <-> tc depends_edge r d.
Proof. apply (visit_depends_spec (walk_depth p)). done. Qed.

(** ** The lineage of a delivery *)

(** What the tasks that are not visited may still push. *)
Definition unvisited (visited : gset string) (l : list (string * AgenticTaskProjection)) : nat :=
  foldr (fun x n => (if bool_decide (x.1 ∈ visited) then 0 else length (outgoing x.2)) + n) 0 l.

Lemma unvisited_absent visited r l :
  r ∉ l.*1 -> unvisited ({[r]} ∪ visited) l = unvisited visited l.
Proof.
  induction l as [|[k t] l IH]; intros Hr; [done|]. cbn [unvisited foldr fst snd].
  fold (unvisited visited l) (unvisited ({[r]} ∪ visited) l).
  rewrite IH by set_solver. f_equal. rewrite (bool_decide_ext (k ∈ {[r]} ∪ visited) (k ∈ visited)) by set_solver.
  done.
Qed.

Lemma unvisited_visit visited r t l :
  NoDup l.*1 -> (r, t) ∈ l -> r ∉ visited ->
  unvisited visited l = length (outgoing t) + unvisited ({[r]} ∪ visited) l.
Proof.
  induction l as [|[k u] l IH]; intros Hnd Hin Hr; [by apply elem_of_nil in Hin|].
  apply NoDup_cons in Hnd as [Hk Hnd]. cbn [unvisited foldr fst snd].
  fold (unvisited visited l) (unvisited ({[r]} ∪ visited) l).
  apply elem_of_cons in Hin as [[= <- <-]|Hin].
  - rewrite (unvisited_absent visited r l) by done.
    rewrite bool_decide_eq_false_2, bool_decide_eq_true_2 by set_solver. lia.
  - assert (r <> k) as Hne by (intros ->; apply Hk; apply list_elem_of_fmap; by exists (k, t)).
    rewrite (IH Hnd Hin Hr), (bool_decide_ext (k ∈ {[r]} ∪ visited) (k ∈ visited)) by set_solver. lia.
Qed.

Definition lineage_measure (s : Lineage) : nat :=
  length (li_pending s) + unvisited (li_visited s) (btree_entries (pr_tasks p)).

Lemma lineage_step_measure s r pending :
  li_pending s = r :: pending ->
  S (lineage_measure (lineage_step p s r pending)) <= lineage_measure s.
Proof.
  intros Hp. unfold lineage_measure. rewrite Hp. unfold lineage_step.
  case_bool_decide as Hv; [cbn; lia|]. destruct (pr_tasks p !! r) as [t|] eqn:Ht.
  - assert (unvisited (li_visited s) (btree_entries (pr_tasks p)) = length (outgoing t)
            + unvisited ({[r]} ∪ li_visited s) (btree_entries (pr_tasks p))) as ->.
    { apply unvisited_visit; [|by apply elem_of_btree_entries|done].
      rewrite btree_entries_keys. apply NoDup_btree_keys. }
    unfold outgoing. destruct (tk_status t); cbn; rewrite ?length_app, ?length_rev; lia.
  - rewrite <-(unvisited_absent (li_visited s) r); [cbn; lia|].
    rewrite btree_entries_keys, elem_of_btree_keys, Ht. apply is_Some_None.
Qed.

Lemma elem_of_rev {A} (x : A) l : x ∈ rev l <-> x ∈ l.
Proof. by rewrite !list_elem_of_In, <-in_rev. Qed.

(** What holds while the loop runs, of the start [l0]. *)
Record LineageInv (l0 : list string) (s : Lineage) : Prop := {
  li_reached : forall x, x ∈ li_visited s \/ x ∈ li_pending s ->
                 exists x0, x0 ∈ l0 /\ rtc lineage_edge x0 x;
  li_started : forall x, x ∈ l0 -> x ∈ li_visited s \/ x ∈ li_pending s;
  li_closed : forall x y, x ∈ li_visited s -> lineage_edge x y ->
                y ∈ li_visited s \/ y ∈ li_pending s;
  li_collected : forall y, y ∈ li_integrated s <->
                   exists x t, x ∈ li_visited s /\ pr_tasks p !! x = Some t
                     /\ tk_status t = AtAccepted /\ y = task_id t
}.

(** One turn visits [r] and pushes what it leads to, or drops it again. *)
Lemma lineage_step_cases s r pending :
  let s' := lineage_step p s r pending in
  (r ∈ li_visited s /\ li_integrated s' = li_integrated s /\ li_visited s' = li_visited s
   /\ li_pending s' = pending)
  \/ ((r ∉ li_visited s) /\ li_visited s' = {[r]} ∪ li_visited s
      /\ (forall y, y ∈ li_pending s' <-> lineage_edge r y \/ y ∈ pending)
      /\ (forall y, y ∈ li_integrated s' <->
            y ∈ li_integrated s \/ (exists t, pr_tasks p !! r = Some t
              /\ tk_status t = AtAccepted /\ y = task_id t))).
Proof.
  cbv zeta. unfold lineage_step. case_bool_decide as Hv; [left; done|]. right.
  split; [done|]. destruct (pr_tasks p !! r) as [t|] eqn:Ht.
  - assert (forall y, lineage_edge r y <-> y ∈ outgoing t) as He.
    { intros y. unfold lineage_edge. rewrite Ht. naive_solver. }
    assert (forall y, (exists u, Some t = Some u /\ tk_status u = AtAccepted /\ y = task_id u)
              <-> tk_status t = AtAccepted /\ y = task_id t) as Ha by naive_solver.
    setoid_rewrite He. setoid_rewrite Ha. unfold outgoing.
    destruct (tk_status t); cbn; split_and!; try done; intros y;
      rewrite ?elem_of_app, ?elem_of_rev, ?elem_of_union, ?elem_of_singleton, ?elem_of_nil; naive_solver.
  - assert (forall y, ~ lineage_edge r y) as He by (intros y (t & Ht' & _); congruence).
    cbn. split_and!; [done|naive_solver..].
Qed.

Lemma lineage_step_inv l0 s r pending :
  li_pending s = r :: pending -> LineageInv l0 s -> LineageInv l0 (lineage_step p s r pending).
Proof.
  intros Hp [Hr Hs Hc Hi]. rewrite Hp in *.
  destruct (lineage_step_cases s r pending) as [(Hin & Ei & Ev & Ep)|(Hn & Ev & Ep & Ei)];
    split; rewrite ?Ei, ?Ev, ?Ep.
  - intros x Hx. apply Hr. set_solver.
  - intros x Hx. specialize (Hs x Hx). set_solver.
  - intros x y Hx He. specialize (Hc x y Hx He). set_solver.
  - done.
  - intros x [[->%elem_of_singleton|Hx]%elem_of_union|[He|Hx]%Ep].
    + apply Hr. right. left.
    + apply Hr. by left.
    + destruct (Hr r) as (x0 & H0 & Hrt); [right; left|]. exists x0. split; [done|]. by eapply rtc_r.
    + apply Hr. right. by right.
  - intros x Hx. rewrite Ep. specialize (Hs x Hx). set_solver.
  - intros x y Hx He. rewrite Ep. apply elem_of_union in Hx as [->%elem_of_singleton|Hx]; [tauto|].
    specialize (Hc x y Hx He). set_solver.
  - intros y. rewrite Ei, Hi. set_solver.
Qed.

Lemma lineage_loop_spec l0 fuel : forall s,
  LineageInv l0 s -> lineage_measure s <= fuel ->
  exists result, lineage_loop p fuel s = Done result
    /\ forall y, y ∈ result <-> exists x0 x t, x0 ∈ l0 /\ rtc lineage_edge x0 x
         /\ pr_tasks p !! x = Some t /\ tk_status t = AtAccepted /\ y = task_id t.
Proof.
  induction fuel as [|fuel IH]; intros s Hinv Hm; cbn [lineage_loop];
    destruct (li_pending s) as [|r pending] eqn:Hp.
  2: { unfold lineage_measure in Hm. rewrite Hp in Hm. cbn in Hm. lia. }
  3: { apply IH; [by apply lineage_step_inv|]. pose proof (lineage_step_measure s r pending Hp). lia. }
  all: exists (li_integrated s); split; [done|]; intros y; destruct Hinv as [Hr Hs Hc Hi];
    rewrite Hp in *; rewrite Hi; split.
  1, 3: intros (x & t & Hx & Ht); destruct (Hr x) as (x0 & H0 & Hrt); [by left|]; exists x0, x, t; tauto.
  all: intros (x0 & x & t & H0 & Hrt & Ht); exists x, t; split; [|done];
    assert (x0 ∈ li_visited s) as H1 by (destruct (Hs x0 H0) as [?|?%elem_of_nil]; done);
    clear Ht H0; induction Hrt as [|a b c He Hrt IHr]; [done|]; apply IHr;
    destruct (Hc a b H1 He) as [?|?%elem_of_nil]; done.
Qed.

Lemma integrated_accepted_tasks_spec artifact_ref :
  lineage_loop p (lineage_fuel p artifact_ref)
    {| li_integrated := ∅; li_visited := ∅; li_pending := lineage_start p artifact_ref |}
  = Done (integrated_accepted_tasks p artifact_ref)
  /\ forall y, y ∈ integrated_accepted_tasks p artifact_ref <-> integrates artifact_ref y.
Proof.
  destruct (lineage_loop_spec (lineage_start p artifact_ref) (lineage_fuel p artifact_ref)
              {| li_integrated := ∅; li_visited := ∅; li_pending := lineage_start p artifact_ref |})
    as (result & Hres & Hspec).
  - split; cbn; [|tauto|set_solver|set_solver].
    intros x [Hx|Hx]; [by apply elem_of_empty in Hx|]. by exists x.
  - unfold lineage_measure, lineage_fuel. cbn [li_pending li_visited]. apply Nat.add_le_mono_l.
    unfold btree_values. induction (btree_entries (pr_tasks p)) as [|[k t] l IH]; [done|].
    cbn [fmap list_fmap foldr unvisited fst snd]. cbn in IH. cbn. apply Nat.add_le_mono; [done|exact IH].
  - unfold integrated_accepted_tasks. rewrite Hres. split; [done|]. intros y. rewrite Hspec.
    unfold integrates, lineage_start. split.
    + intros (x0 & x & t & H0 & Hrt & Ht). apply list_elem_of_In, in_rev, in_map_iff in H0 as (t0 & <- & H0).
      apply filter_In in H0 as [H0 Hd]. apply list_elem_of_In, elem_of_btree_values in H0 as [k0 H0].
      exists k0, t0, x, t. tauto.
    + intros (k0 & t0 & k & t & H0 & Hd & Hrt & Ht). exists (task_id t0), k, t. split; [|tauto].
      apply list_elem_of_In, in_rev. rewrite rev_involutive. apply in_map_iff. exists t0. split; [done|].
      apply filter_In. split; [|done]. apply list_elem_of_In, elem_of_btree_values. eauto.
Qed.

End Specification.
