(* ===== verification/TaskMachine.v ===== *)
(** * The life of a task

    What an admitted step does to the tasks of a program: one task makes a move of
    [task_move], with what the guards have established, or a new one is published.
    Over this, each task follows the machine [task_next]. *)

From S2P Require Import Prelude AgentAction AgentProgram WorkMarket AgentRoster ProgramAuthority.
From S2P Require Import ProgramJournal WorkWalks.

(** ** Guards that let an action through *)

Lemma refuse_if_None c code message rest :
  refuse_if c code message rest = None <-> c = false /\ rest = None.
Proof. unfold refuse_if. destruct c; naive_solver. Qed.

Lemma on_task_None p r k :
  on_task p r k = None <-> exists t, pr_tasks p !! r = Some t /\ k t = None.
Proof. unfold on_task. destruct (pr_tasks p !! r); naive_solver. Qed.

Lemma find_None {A} (f : A -> bool) l : List.find f l = None <-> forall x, x ∈ l -> f x = false.
Proof.
  split.
  - intros Hf x Hx%list_elem_of_In. by eapply find_none in Hf.
  - induction l as [|y l IH]; intros Hl; [done|]. cbn. rewrite (Hl y) by left.
    apply IH. intros. apply Hl. by right.
Qed.

Lemma fmap_find_None {A B} (g : A -> B) (f : A -> bool) l :
  g <$> List.find f l = None <-> forall x, x ∈ l -> f x = false.
Proof. rewrite fmap_None. apply find_None. Qed.

Lemma head_omap_None {A B} (f : A -> option B) l :
  head (omap f l) = None <-> forall x, x ∈ l -> f x = None.
Proof.
  induction l as [|y l IH]; cbn; [split; [intros _ x ?%elem_of_nil; done|done]|].
  destruct (f y) as [b|] eqn:Ey; cbn.
  - split; [done|]. intros Hl. rewrite (Hl y) in Ey by left. done.
  - rewrite IH. set_solver.
Qed.

Lemma any_value_true {V} (P : V -> bool) m :
  any_value P m = true <-> exists k v, m !! k = Some v /\ P v = true.
Proof. unfold any_value. rewrite existsb_elem_of. setoid_rewrite elem_of_btree_values. naive_solver. Qed.

Lemma any_value_false {V} (P : V -> bool) m :
  any_value P m = false <-> forall k v, m !! k = Some v -> P v = false.
Proof. unfold any_value. rewrite existsb_false. setoid_rewrite elem_of_btree_values. naive_solver. Qed.

Lemma is_none_false {A} (o : option A) : is_none o = false <-> is_Some o.
Proof. destruct o; cbn; [naive_solver|]. split; [done|by intros [? ?]]. Qed.

(** Opens the guards of an admitted action in [H]. *)
Ltac open_guards :=
  repeat match goal with
  | H : refuse_if _ _ _ _ = None |- _ =>
      let Hc := fresh "Hc" in apply refuse_if_None in H; destruct H as [Hc H]
  | H : on_task _ _ _ = None |- _ =>
      let t := fresh "t" in let Ht := fresh "Ht" in
      apply on_task_None in H; destruct H as (t & Ht & H); cbv beta zeta in H
  | H : negb _ = false |- _ => apply negb_false_iff in H
  | H : negb _ = true |- _ => apply negb_true_iff in H
  | H : bool_decide _ = true |- _ => apply bool_decide_eq_true in H
  | H : bool_decide _ = false |- _ => apply bool_decide_eq_false in H
  | H : _ || _ = false |- _ =>
      let Hl := fresh "Hl" in let Hr := fresh "Hr" in
      apply orb_false_elim in H; destruct H as [Hl Hr]
  | H : _ && _ = true |- _ =>
      let Hl := fresh "Hl" in let Hr := fresh "Hr" in
      apply andb_prop in H; destruct H as [Hl Hr]
  | H : is_none _ = false |- _ => apply is_none_false in H
  end.

(** ** Steps *)

Section Steps.
Context `{IssueDigest} `{UrlDecode} `{ExecutionGrants} `{Sha256}.

(** What the runtime guarantees of an action, outside the program: the id of a new
    entity is new (it is a digest over the action), the execution of a dispatch is
    no live attempt yet (its graph id is a digest over program, task, agent, mode and
    generation), and the actor of an agent is that agent (
    [resolve_agent_action_actor]). *)
Definition fresh_entity (p : AgenticProgramProjection) (e : AgentActionEnvelope) : Prop :=
  match ae_action e with
  | TaskPublish _ => forall id, entity_ref e = Some id -> pr_tasks p !! id = None
  | TeamCreate _ => forall id, entity_ref e = Some id -> pr_teams p !! id = None
  | ArtifactCommit _ => forall id, entity_ref e = Some id -> pr_artifacts p !! id = None
  | _ => True
  end.

Definition fresh_execution (p : AgenticProgramProjection) (e : AgentActionEnvelope) : Prop :=
  match ae_action e with
  | TaskAttemptDispatch i =>
      forall k t, pr_tasks p !! k = Some t -> tk_active_attempts t !! tdi_execution_id i = None
  | _ => True
  end.

Definition bound_actor (e : AgentActionEnvelope) : Prop :=
  is_managed (ab_kind (ae_actor e)) = true -> ab_agent_id (ae_actor e) = Some (ab_actor_id (ae_actor e)).

Record Admissible (p : AgenticProgramProjection) (e : AgentActionEnvelope) : Prop := {
  adm_entity : fresh_entity p e;
  adm_execution : fresh_execution p e;
  adm_actor : bound_actor e
}.

Inductive program_step (p : AgenticProgramProjection) : AgenticProgramProjection -> Prop :=
| st_action e now at_ms revision :
    validate_envelope e = Ok tt -> is_inspect e = false ->
    validate_transition p e now = None -> Admissible p e ->
    program_step p (program_apply e (entity_ref e) revision at_ms p)
| st_verdict v revision :
    pr_status p = PsCompletionRequested -> program_step p (apply_objective_verdict v revision p)
| st_reopened gaps revision :
    pr_status p = PsCompletionRequested -> program_step p (reopened gaps revision p).

(** ** Moves of a task *)

(** The artifacts of a submission, committed under the claim it ends. *)
Definition bound_artifact (p : AgenticProgramProjection) (e : AgentActionEnvelope) (k : string)
    (t : AgenticTaskProjection) (a : string) : Prop :=
  exists x, pr_artifacts p !! a = Some x /\ ar_committed_by x = ab_actor_id (ae_actor e)
    /\ k ∈ ar_relates_to x /\ ar_claim_execution_id x = claim_execution_id t
    /\ ar_claim_generation x = Some (claim_generation t).

Definition sound_replacement (p : AgenticProgramProjection) (k r : string) : Prop :=
  r <> k /\ (exists t, pr_tasks p !! r = Some t /\ tk_status t <> AtSuperseded)
  /\ ~ tc (depends_edge p) r k.

Definition dispatch_status (i : TaskAttemptDispatchInput) (t : AgenticTaskProjection) : Prop :=
  match tdi_mode i with
  | AmExecute => tk_status t ∈ [AtPublished; AtRework]
  | AmReview => tk_status t = AtSubmitted
  | AmCoordination => tk_status t ∉ [AtAccepted; AtWithdrawn; AtSuperseded; AtCancelRequested]
  end.

Definition failure_status (i : TaskAttemptFailInput) (t : AgenticTaskProjection) : Prop :=
  tk_status t = AtCancelRequested
  \/ match tfi_mode i with
     | AmExecute => tk_status t ∈ [AtPublished; AtRework; AtClaimed]
     | AmReview => tk_status t = AtSubmitted
     | AmCoordination => True
     end.

(** The team an attempt is dispatched for has the agent as an active member. *)
Definition active_membership (p : AgenticProgramProjection) (i : TaskAttemptDispatchInput) : Prop :=
  exists k m, pr_memberships p !! k = Some m /\ ms_agent_id m = tdi_agent_ref i
    /\ ms_lifecycle m = MlActive
    /\ tdi_membership_id i = membership_id (ms_agent_id m) (ms_team_id m).

Inductive task_move (p : AgenticProgramProjection) (k : string) (t : AgenticTaskProjection) :
  AgenticTaskProjection -> Prop :=
| mv_claim e at_ms agent :
    tk_status t ∈ [AtPublished; AtRework; AtClaimed] ->
    (forall d, d ∈ depends_on t -> satisfied p d) ->
    ab_agent_id (ae_actor e) = Some agent -> agent_is_active_in p agent (team_id t) = true ->
    task_move p k t (claim_task e at_ms t)
| mv_release e coordination :
    coordination = true \/ tk_status t ∈ [AtClaimed; AtCancelRequested] ->
    task_move p k t (release_task e coordination t)
| mv_fail i : failure_status i t -> task_move p k t (fail_attempt i t)
| mv_dispatch i :
    dispatch_status i t -> active_membership p i ->
    (forall k t, pr_tasks p !! k = Some t -> tk_active_attempts t !! tdi_execution_id i = None) ->
    task_move p k t (with_attempts (<[tdi_execution_id i := attempt_of i]> (tk_active_attempts t)) t)
| mv_decline x : task_move p k t (with_attempts (delete x (tk_active_attempts t)) t)
| mv_submit e i evidence :
    is_managed (ab_kind (ae_actor e)) = true -> bound_actor e ->
    tk_status t = AtClaimed -> claimant t = actor_agent_id e -> tsu_artifact_refs i <> [] ->
    (forall a, a ∈ tsu_artifact_refs i -> bound_artifact p e k t a) ->
    task_move p k t (submit_task e i evidence t)
| mv_review e i :
    is_managed (ab_kind (ae_actor e)) = true -> bound_actor e ->
    tk_status t = AtSubmitted -> claimant t <> actor_agent_id e ->
    task_move p k t (review_task e i t)
| mv_supersede e i :
    tk_status t ∈ [AtPublished; AtRework; AtBlocked; AtClaimed; AtSubmitted] ->
    tsi_replacement_task_refs i <> [] ->
    (forall r, r ∈ tsi_replacement_task_refs i -> sound_replacement p k r) ->
    task_move p k t (supersede_task e i t)
| mv_withdraw e i :
    tk_status t ∉ [AtAccepted; AtSuperseded; AtWithdrawn] ->
    task_move p k t (withdraw_task e i t).

(** ** What a step does to the tasks *)

Record TasksKeyed (p : AgenticProgramProjection) : Prop := {
  keyed_tasks : forall k t, pr_tasks p !! k = Some t -> task_id t = k;
  one_attempt : forall k1 k2 t1 t2 x a1 a2,
    pr_tasks p !! k1 = Some t1 -> pr_tasks p !! k2 = Some t2 ->
    tk_active_attempts t1 !! x = Some a1 -> tk_active_attempts t2 !! x = Some a2 -> k1 = k2
}.

Inductive tasks_step (p p' : AgenticProgramProjection) : Prop :=
| ts_same : pr_tasks p' = pr_tasks p -> tasks_step p p'
| ts_move k t t' :
    pr_tasks p !! k = Some t -> task_move p k t t' -> pr_tasks p' = <[k := t']> (pr_tasks p) ->
    tasks_step p p'
| ts_publish k i :
    pr_tasks p !! k = None -> team_active p (tpi_team_ref i) = true ->
    (forall d, d ∈ tpi_depends_on i -> is_Some (pr_tasks p !! d)) ->
    pr_tasks p' = <[k := published_task k i]> (pr_tasks p) -> tasks_step p p'.

Lemma alter_insert {V} (f : V -> V) (m : gmap string V) k v :
  m !! k = Some v -> alter f k m = <[k := f v]> m.
Proof.
  intros Hv. apply map_eq. intros j. destruct (decide (j = k)) as [->|Hne].
  - by rewrite lookup_alter_eq, Hv, lookup_insert_eq.
  - by rewrite lookup_alter_ne, lookup_insert_ne by done.
Qed.

(** An action on task [k] that computes [f] of it. *)
Lemma ts_update p p' k f t :
  pr_tasks p !! k = Some t -> pr_tasks p' = alter f k (pr_tasks p) -> task_move p k t (f t) ->
  tasks_step p p'.
Proof. intros Ht Hp Hm. eapply ts_move; [done..|]. by rewrite Hp, (alter_insert _ _ _ t). Qed.

Lemma coordination_attempt_at p k t x a :
  TasksKeyed p -> pr_tasks p !! k = Some t -> tk_active_attempts t !! x = Some a ->
  coordination_attempt p x = if bool_decide (at_mode a = AmCoordination) then Some a else None.
Proof.
  intros [_ Hone] Ht Ha. unfold coordination_attempt.
  destruct (omap _ _) as [|b l] eqn:El.
  - exfalso. assert (a ∈ @nil AgenticTaskAttemptProjection) as []%elem_of_nil.
    rewrite <-El. apply list_elem_of_omap. exists t. split; [|done]. apply elem_of_btree_values. eauto.
  - assert (b ∈ b :: l) as Hb by left. rewrite <-El in Hb.
    apply list_elem_of_omap in Hb as (t2 & [k2 Hk2]%elem_of_btree_values & Hb).
    assert (k2 = k) as -> by (eapply (Hone k2 k t2 t x b a); done). cbn. by simplify_eq.
Qed.

(** *** The admitted actions, one by one *)

Section Inversions.
Context (p : AgenticProgramProjection) (e : AgentActionEnvelope) (now at_ms revision : N).
Context (Hkeyed : TasksKeyed p) (Hadm : Admissible p e) (Hvalid : validate_envelope e = Ok tt).

Lemma publish_step i :
  ae_action e = TaskPublish i -> validate_task_publish p e i = None ->
  tasks_step p (apply_task_publish i (entity_ref e) p).
Proof.
  intros He Hv. unfold validate_task_publish in Hv. open_guards.
  destruct (entity_ref e) as [id|] eqn:Eid; [|by apply ts_same].
  eapply (ts_publish _ _ id i); [|done| |done].
  - destruct Hadm as [Hf _ _]. unfold fresh_entity in Hf. rewrite He in Hf. eauto.
  - intros d Hd. apply is_none_false. by apply (proj1 (fmap_find_None _ _ _) Hv).
Qed.

Lemma claim_step i :
  validate_task_claim p e i now = None -> tasks_step p (apply_task_claim e i at_ms p).
Proof.
  intros Hv. unfold validate_task_claim in Hv. open_guards.
  destruct (List.find _ _) eqn:Ed; [done|]. destruct (ab_agent_id (ae_actor e)) as [agent|] eqn:Ea; [|done].
  open_guards. eapply ts_update; [done..|]. eapply (mv_claim _ _ _ e at_ms agent); [|..|done|done].
  - destruct (negb _) eqn:Es; open_guards; [|set_solver].
    cbn [andb] in *. destruct (expired_claim now t) eqn:Ex.
    + unfold expired_claim in Ex. open_guards. set_solver.
    + cbn [negb andb] in *. open_guards. unfold is_renewal in *. open_guards. set_solver.
  - intros d Hd. apply task_dependency_satisfied_iff, negb_false_iff. by apply (proj1 (find_None _ _) Ed).
Qed.

Lemma release_tasks i :
  pr_tasks (apply_task_release e i p) =
  alter (release_task e (is_some (coordination_attempt p
           (default EmptyString (ab_execution_id (ae_actor e)))))) (trl_task_ref i) (pr_tasks p).
Proof. unfold apply_task_release. by destruct (is_some _). Qed.

Lemma fail_tasks i :
  pr_tasks (apply_task_attempt_fail i p) = alter (fail_attempt i) (tfi_task_ref i) (pr_tasks p).
Proof. unfold apply_task_attempt_fail. by case_bool_decide. Qed.

Lemma dispatch_tasks i t :
  pr_tasks p !! tdi_task_ref i = Some t ->
  pr_tasks (apply_task_attempt_dispatch i p) =
  alter (fun t => with_attempts (<[tdi_execution_id i := attempt_of i]> (tk_active_attempts t)) t)
    (tdi_task_ref i) (pr_tasks p).
Proof.
  intros Ht. unfold apply_task_attempt_dispatch. rewrite Ht. case_bool_decide; [|done].
  unfold consume_request. by destruct (List.find _ _) as [[topic entries]|].
Qed.

Lemma release_step i :
  validate_task_release p e i = None -> tasks_step p (apply_task_release e i p).
Proof.
  intros Hv. unfold validate_task_release in Hv. open_guards.
  eapply ts_update; [done|apply release_tasks|].
  apply mv_release. destruct (coordinating e t) as [a|] eqn:Ec.
  - left. unfold coordinating in Ec. destruct (ab_execution_id (ae_actor e)) as [x|]; [|done].
    cbn in Ec. destruct (tk_active_attempts t !! x) as [b|] eqn:Eb; [|done]. cbn in Ec.
    destruct (bool_decide (at_mode b = AmCoordination)) eqn:Em; [|done]. cbn.
    by rewrite (coordination_attempt_at p _ t x b), Em by done.
  - right. open_guards. done.
Qed.

Lemma supersede_step i :
  ae_action e = TaskSupersede i ->
  validate_task_supersede p e i = None -> tasks_step p (apply_task_supersede e i p).
Proof.
  intros He Hv. unfold validate_task_supersede in Hv. open_guards.
  destruct (head _) eqn:Er; [done|]. eapply ts_update; [done..|].
  apply validated_action in Hvalid. rewrite He in Hvalid. apply replacements_not_self in Hvalid as [Hne Hself].
  apply mv_supersede; [done|done|]. intros r Hr. split; [set_solver|].
  pose proof (proj1 (head_omap_None _ _) Er r Hr) as Hrep. unfold replacement_error in Hrep.
  destruct (pr_tasks p !! r) as [u|]; [|done]. open_guards. split; [by exists u|].
  rewrite <-task_depends_on_iff. by destruct (task_depends_on p r (tsi_task_ref i)).
Qed.

Lemma withdraw_step i :
  validate_task_withdraw p e i = None -> tasks_step p (apply_task_withdraw e i p).
Proof.
  intros Hv. unfold validate_task_withdraw in Hv. open_guards.
  eapply ts_update; [done..|]. by apply mv_withdraw.
Qed.

Lemma fail_step i :
  validate_task_attempt_failure p e i = None -> tasks_step p (apply_task_attempt_fail i p).
Proof.
  intros Hv. unfold validate_task_attempt_failure in Hv. open_guards.
  eapply ts_update; [done|apply fail_tasks|]. apply mv_fail.
  unfold failure_status. destruct (decide (tk_status t = AtCancelRequested)) as [|Hcancel]; [by left|right].
  rewrite (bool_decide_eq_false_2 (tk_status t = AtCancelRequested)) in Hv by done. cbn [andb] in Hv.
  destruct (tfi_mode i); open_guards; done.
Qed.

Lemma active_team_id p0 agent team :
  team ∈ active_team_ids_for p0 agent ->
  exists k m, pr_memberships p0 !! k = Some m /\ ms_agent_id m = agent /\ ms_lifecycle m = MlActive
    /\ ms_team_id m = team.
Proof.
  unfold active_team_ids_for. rewrite list_elem_of_In, in_map_iff.
  intros (m & <- & Hm). apply filter_In in Hm as [Hm Hf].
  apply list_elem_of_In, elem_of_btree_values in Hm as [k Hk].
  apply andb_prop in Hf as [[Ha Hl]%andb_prop _]. apply String.eqb_eq in Ha. open_guards. eauto 10.
Qed.

Lemma find_elem {A} (f : A -> bool) l x : List.find f l = Some x -> x ∈ l.
Proof. intros [Hx _]%find_some. by apply list_elem_of_In. Qed.

Lemma dispatch_team p0 agent t review team :
  dispatch_team_id_for p0 agent t review = Some team -> team ∈ active_team_ids_for p0 agent.
Proof.
  intros Ht. rewrite <-sort_strings_perm. revert Ht. unfold dispatch_team_id_for.
  destruct (negb review); [apply find_elem|].
  destruct (List.find _ _) eqn:Ef; [intros [= <-]; by apply find_elem in Ef|].
  destruct (sort_strings _); [done|]. intros [= <-]. left.
Qed.

Lemma coordination_team p0 agent n team :
  coordination_team_id_for p0 agent n = Some team -> team ∈ active_team_ids_for p0 agent.
Proof.
  unfold coordination_team_id_for. destruct (coordination_wake p0 n) as [[topic entry]|]; [|done]. cbn.
  destruct (_ || _); [done|]. intros Hf%find_elem. by rewrite sort_strings_perm in Hf.
Qed.

Lemma dispatch_step i :
  ae_action e = TaskAttemptDispatch i ->
  validate_task_attempt_dispatch p e i = None -> tasks_step p (apply_task_attempt_dispatch i p).
Proof.
  intros He Hv. unfold validate_task_attempt_dispatch in Hv. open_guards.
  destruct (if bool_decide _ then _ else _) as [team|] eqn:Eteam; [|done]. open_guards.
  eapply ts_update; [done|by eapply dispatch_tasks|]. apply (mv_dispatch _ _ _ i).
  - unfold dispatch_status, dispatch_ready in *. destruct (tdi_mode i); open_guards; [done..|].
    destruct (coordination_wake _ _) as [[topic wake]|]; [|done].
    match goal with Hr : _ && _ = true |- _ => apply andb_prop in Hr as [[Hi Hcur]%andb_prop _] end.
    unfold coordination_request_current in Hcur. destruct (te_intent wake) as [intent|]; [|done].
    apply String.eqb_eq in Hi. cbn in Hcur. rewrite Hi, Ht in Hcur.
    apply andb_prop in Hcur as [_ Hcur]. by open_guards.
  - assert (team ∈ active_team_ids_for p (tdi_agent_ref i)) as Hteam.
    { destruct (bool_decide _); [by eapply coordination_team|by eapply dispatch_team]. }
    apply active_team_id in Hteam as (k & m & Hm & Ha & Hl & Hteam).
    exists k, m. split_and!; [done..|]. rewrite Ha, Hteam. by apply String.eqb_eq.
  - destruct Hadm as [_ Hf _]. unfold fresh_execution in Hf. by rewrite He in Hf.
Qed.

Lemma submit_step i :
  validate_task_submission p e i now = None -> tasks_step p (apply_task_submit e i p).
Proof.
  intros Hv. unfold validate_task_submission in Hv. open_guards.
  destruct (List.find _ _) eqn:Em; [done|]. destruct (List.find (unbound_artifact _ _ _ _) _) eqn:Eu; [done|].
  open_guards. eapply ts_update; [done..|]. cbv beta. apply mv_submit; try done.
  - by destruct Hadm.
  - by destruct (tsu_artifact_refs i).
  - intros a Ha. pose proof (proj1 (find_None _ _) Em a Ha) as [x Hx]%is_none_false.
    pose proof (proj1 (find_None _ _) Eu a Ha) as Hb. unfold unbound_artifact in Hb. rewrite Hx in Hb.
    open_guards. exists x. split_and!; try done; [by apply String.eqb_eq|by apply memb_true].
Qed.

Lemma review_step i :
  validate_task_review p e i = None -> tasks_step p (apply_task_review e i p).
Proof.
  intros Hv. unfold validate_task_review in Hv. open_guards.
  eapply ts_update; [done..|]. apply mv_review; try done. by destruct Hadm.
Qed.

Lemma message_step i :
  tasks_step p (apply_message_publish e i (entity_ref e) revision p).
Proof.
  unfold apply_message_publish. destruct (entity_ref e) as [id|]; [|by apply ts_same].
  unfold bind_intent. destruct (mpi_intent i) as [intent|]; [|by apply ts_same].
  destruct (pr_tasks p !! ti_task_ref intent) as [t|] eqn:Ht; [|by apply ts_same].
  case_bool_decide; [|by apply ts_same].
  destruct (x ← ab_execution_id (ae_actor e); a ← tk_active_attempts t !! x; Some (x, a))
    as [[x a]|]; [|by apply ts_same].
  destruct (declines_attempt e t a); [|by apply ts_same].
  eapply ts_move; [done|apply (mv_decline _ _ _ x)|done].
Qed.
End Inversions.

Lemma team_create_tasks e i id p : pr_tasks (apply_team_create e i id p) = pr_tasks p.
Proof.
  unfold apply_team_create, apply_membership_update. destruct id; [|done].
  destruct (is_managed _), (ab_agent_id (ae_actor e)), (ab_execution_id (ae_actor e)); try done. cbn [mui_operation].
  by destruct (_ || _).
Qed.

Lemma step_tasks p p' : TasksKeyed p -> program_step p p' -> tasks_step p p'.
Proof.
  intros Hk [e now at_ms revision He Hi Hv Ha| |]; [|by apply ts_same..].
  unfold validate_transition in Hv. open_guards. unfold validate_by_action in *.
  assert (tasks_step p (apply_action e (entity_ref e) revision at_ms p)) as Hs; [|by destruct Hs; [eapply ts_same|eapply ts_move|eapply ts_publish]].
  unfold apply_action. destruct (ae_action e) eqn:Ee; open_guards; try by apply ts_same.
  - apply ts_same, team_create_tasks.
  - apply ts_same. unfold apply_agent_invite. by destruct (entity_ref e).
  - by apply publish_step.
  - by eapply claim_step.
  - by eapply release_step.
  - by eapply supersede_step.
  - by eapply withdraw_step.
  - by eapply dispatch_step.
  - by eapply fail_step.
  - by eapply submit_step.
  - by eapply review_step.
  - by apply message_step.
  - apply ts_same. unfold apply_artifact_commit. by destruct (entity_ref e).
  - apply ts_same. unfold apply_membership_update. destruct (_ || _); [done|]. by destruct (mui_operation _).
  - apply ts_same. unfold apply_team_update. by repeat case_match.
Qed.

End Steps.
