(* ===== verification/TaskLife.v ===== *)
(** * The machine of a task

    [life_step] is what a task is promised to do; every move of [TaskMachine] is a
    step of it or leaves its view alone, as long as the task is in order ([TaskOk]),
    which every move keeps. *)

From S2P Require Import Prelude AgentAction AgentProgram WorkMarket AgentRoster ProgramAuthority.
From S2P Require Import ProgramJournal WorkWalks TaskMachine.

(** ** The machine *)

Record TaskView := {
  vw_task_status : AgenticTaskStatus;
  vw_generation : N;
  vw_failed : N;
  vw_failed_reviews : N
}.

Definition task_view (t : AgenticTaskProjection) : TaskView :=
  {| vw_task_status := tk_status t; vw_generation := claim_generation t;
     vw_failed := failed_attempts t; vw_failed_reviews := failed_review_attempts t |}.

Definition view (s : AgenticTaskStatus) (g f r : N) : TaskView :=
  {| vw_task_status := s; vw_generation := g; vw_failed := f; vw_failed_reviews := r |}.

Definition unfinished (s : AgenticTaskStatus) : Prop := task_finished s = false.

(** Claims, releases, submissions and reviews; failures, of which the third blocks;
    and retirement, from which nothing returns. *)
Inductive life_step : relation TaskView :=
| life_claim s g f r :
    s ∈ [AtPublished; AtRework; AtClaimed] ->
    life_step (view s g f r) (view AtClaimed (u64_saturating_add g 1) f r)
| life_release g f r : life_step (view AtClaimed g f r) (view AtPublished g f r)
| life_submit g f r : life_step (view AtClaimed g f r) (view AtSubmitted g f r)
| life_review s g f r :
    s ∈ [AtAccepted; AtRework] -> life_step (view AtSubmitted g f r) (view s g f r)
| life_fail s s' g g' f r :
    s ∈ [AtPublished; AtRework; AtClaimed] -> s' ∈ [AtPublished; AtRework; AtBlocked] ->
    (f < MAX_TASK_EXECUTION_ATTEMPTS)%N ->
    (f + 1 = MAX_TASK_EXECUTION_ATTEMPTS -> s' = AtBlocked)%N ->
    g' = g \/ g' = u64_saturating_add g 1 ->
    life_step (view s g f r) (view s' g' (f + 1) r)
| life_fail_review s' g f r :
    s' ∈ [AtPublished; AtSubmitted; AtBlocked] -> (r < MAX_TASK_REVIEW_ATTEMPTS)%N ->
    (r + 1 = MAX_TASK_REVIEW_ATTEMPTS -> s' = AtBlocked)%N ->
    life_step (view AtSubmitted g f r) (view s' g f (r + 1))
| life_cancel s g f r :
    unfinished s -> life_step (view s g f r) (view AtCancelRequested (u64_saturating_add g 1) f r)
| life_retire s s' g f r :
    unfinished s -> s' ∈ [AtWithdrawn; AtSuperseded] -> life_step (view s g f r) (view s' g f r).

Lemma life_step_unfinished v v' : life_step v v' -> unfinished (vw_task_status v).
Proof. destruct 1; cbn; unfold unfinished in *; try done; by repeat match goal with
  | H : _ ∈ _ :: _ |- _ => apply elem_of_cons in H as [->|H]; [done|]
  | H : _ ∈ [] |- _ => by apply elem_of_nil in H
  end. Qed.

(** A finished task stays as it is. *)
Lemma life_finished v v' :
  rtc life_step v v' -> task_finished (vw_task_status v) = true -> v' = v.
Proof. intros [|v1 v2 v3 Hs%life_step_unfinished _]; [done|]. unfold unfinished in *. congruence. Qed.

(** ** Tasks in order *)

Definition exhausted (s : AgenticTaskStatus) : Prop :=
  s ∈ [AtBlocked; AtCancelRequested; AtWithdrawn; AtSuperseded].

Record TaskOk (t : AgenticTaskProjection) : Prop := {
  tok_pending : tk_status t = AtCancelRequested -> pending_retirement t <> None;
  tok_failed : (failed_attempts t <= MAX_TASK_EXECUTION_ATTEMPTS)%N;
  tok_failed_out : failed_attempts t = MAX_TASK_EXECUTION_ATTEMPTS -> exhausted (tk_status t);
  tok_reviews : (failed_review_attempts t <= MAX_TASK_REVIEW_ATTEMPTS)%N;
  tok_reviews_out : failed_review_attempts t = MAX_TASK_REVIEW_ATTEMPTS -> exhausted (tk_status t);
  tok_generation : (claim_generation t <= u64_max)%N
}.

(** What a move does to a task in order. *)
Record Moved (t t' : AgenticTaskProjection) : Prop := {
  moved_ok : TaskOk t';
  moved_contract : tk_contract t' = tk_contract t;
  moved_view : rtc life_step (task_view t) (task_view t');
  moved_finished :
    task_finished (tk_status t) = true ->
    tk_claim t' = tk_claim t /\ tk_delivery t' = tk_delivery t
    /\ replacement_task_refs t' = replacement_task_refs t
}.

(** Splits membership in a list of statuses. *)
Ltac each_status H :=
  repeat (apply elem_of_cons in H; destruct H as [H|H]); [.. | by apply elem_of_nil in H].

Lemma published_ok id i : TaskOk (published_task id i).
Proof. split; cbn; done. Qed.

Lemma moved_refl t : TaskOk t -> Moved t t.
Proof. by split. Qed.

(** A change of attempts only. *)
Lemma moved_attempts t m : TaskOk t -> Moved t (with_attempts m t).
Proof. intros [????]. by split; [split|..]. Qed.

Lemma moved_trans t1 t2 t3 :
  Moved t1 t2 -> Moved t2 t3 -> Moved t1 t3.
Proof.
  intros [Ho1 Hc1 Hv1 Hf1] [Ho2 Hc2 Hv2 Hf2].
  split; [done|congruence|by etrans|]. intros Hfin. destruct (Hf1 Hfin) as (Ea & Eb & Ec).
  assert (tk_status t2 = tk_status t1) as Es.
  { pose proof (life_finished _ _ Hv1 Hfin) as Hv. apply (f_equal vw_task_status) in Hv. done. }
  rewrite <-Es in Hfin. destruct (Hf2 Hfin) as (Fa & Fb & Fc). split_and!; congruence.
Qed.

Lemma generation_ok g : (u64_saturating_add g 1 <= u64_max)%N.
Proof. apply sat_add_le. Qed.

(** Not exhausted, so below both bounds. *)
Lemma below_bounds t :
  TaskOk t -> ~ exhausted (tk_status t) ->
  (failed_attempts t < MAX_TASK_EXECUTION_ATTEMPTS)%N
  /\ (failed_review_attempts t < MAX_TASK_REVIEW_ATTEMPTS)%N.
Proof.
  intros [_ Hf Hfo Hr Hro _] Hne. split.
  - destruct (N.lt_total (failed_attempts t) MAX_TASK_EXECUTION_ATTEMPTS) as [|[?|?]];
      [done|exfalso; eauto|lia].
  - destruct (N.lt_total (failed_review_attempts t) MAX_TASK_REVIEW_ATTEMPTS) as [|[?|?]];
      [done|exfalso; eauto|lia].
Qed.

Lemma claimable_open s : s ∈ [AtPublished; AtRework; AtClaimed] -> ~ exhausted s /\ unfinished s.
Proof. unfold exhausted, unfinished. intros Hs. each_status Hs; subst s; (split; [set_solver|done]). Qed.

Lemma moved_claim e now t :
  TaskOk t -> tk_status t ∈ [AtPublished; AtRework; AtClaimed] -> Moved t (claim_task e now t).
Proof.
  intros Ht Hs. destruct (claimable_open _ Hs) as [Hne Hu].
  destruct (below_bounds t Ht Hne) as [Hf Hr]. destruct Ht as [_ _ _ _ _ Hg].
  split; cbn.
  - split; cbn; try done; try lia. destruct (is_renewal e t); [done|apply generation_ok].
  - done.
  - unfold task_view. cbn. destruct (is_renewal e t) eqn:Er; [|by apply rtc_once, life_claim].
    unfold is_renewal in Er. open_guards. rewrite Hl0. reflexivity.
  - unfold unfinished in Hu. congruence.
Qed.

(** The end of a cancelled task. *)
Lemma moved_leave x t :
  TaskOk t -> tk_status t = AtCancelRequested -> Moved t (leave_cancelled x t).
Proof.
  intros Hok Hs. unfold leave_cancelled.
  assert (forall c, tk_claim_generation c = claim_generation t -> Moved t (with_claim c t)) as Hclaim.
  { intros c Hc. destruct Hok as [Hp Hf Hfo Hr Hro Hg].
    split; [split; cbn; rewrite ?Hc; done|done| |by rewrite Hs].
    unfold task_view. cbn. by rewrite Hc. }
  set (t1 := if bool_decide _ then _ else t).
  assert (Moved t t1 /\ tk_status t1 = AtCancelRequested) as [Hm1 Hs1].
  { unfold t1. case_bool_decide; [|by split; [apply moved_refl|]]. by split; [apply Hclaim|]. }
  destruct (_ && _); [|done]. apply (moved_trans _ _ _ Hm1). apply moved_ok in Hm1.
  clearbody t1. clear Hclaim Hok Hs. unfold finalize_pending_retirement.
  destruct (negb _); [by apply moved_refl|]. cbn zeta.
  destruct Hm1 as [Hp Hf Hfo Hr Hro Hg]. specialize (Hp Hs1). rewrite Hs1 in *.
  destruct (pending_retirement t1) as [[]|] eqn:Epr; [..|done];
    (split; [split; cbn|done| |by rewrite Hs1]); try done;
    try (intros _; unfold exhausted; set_solver).
  all: unfold task_view; cbn; rewrite Hs1; apply rtc_once, life_retire; [done|set_solver].
Qed.

Lemma moved_release e coordination t :
  TaskOk t -> coordination = true \/ tk_status t ∈ [AtClaimed; AtCancelRequested] ->
  Moved t (release_task e coordination t).
Proof.
  intros Hok Hs. unfold release_task.
  assert (Moved t (end_attempt (ab_execution_id (ae_actor e)) t)) as Hm
    by (unfold end_attempt; destruct (ab_execution_id _); [by apply moved_attempts|by apply moved_refl]).
  assert (tk_status (end_attempt (ab_execution_id (ae_actor e)) t) = tk_status t) as He
    by (unfold end_attempt; by destruct (ab_execution_id _)).
  apply (moved_trans _ _ _ Hm). apply moved_ok in Hm. revert Hm He. generalize (end_attempt (ab_execution_id (ae_actor e)) t).
  intros t1 Hok1 He. rewrite <-He in Hs. clear t Hok He.
  case_bool_decide as Hc; [by apply moved_leave|].
  destruct coordination; [by apply moved_refl|]. destruct Hs as [?|Hs]; [done|].
  each_status Hs; [|done]. destruct (claimable_open (tk_status t1)) as [Hne Hu]; [set_solver|].
  destruct (below_bounds _ Hok1 Hne). destruct Hok1. split; cbn; [split; cbn; try done; lia|done| |].
  - unfold task_view. cbn. rewrite Hs. apply rtc_once, life_release.
  - unfold unfinished in Hu. congruence.
Qed.

Lemma failed_next f :
  (f < MAX_TASK_EXECUTION_ATTEMPTS)%N -> u8_saturating_add f 1 = (f + 1)%N.
Proof. unfold u8_saturating_add, sat_add, u8_max, MAX_TASK_EXECUTION_ATTEMPTS. lia. Qed.

Lemma reached_bound bound f :
  (f < bound)%N -> (bound <=? f + 1)%N = true <-> (f + 1 = bound)%N.
Proof. rewrite N.leb_le. lia. Qed.

Lemma moved_fail_execution i a t :
  TaskOk t -> tk_status t ∈ [AtPublished; AtRework; AtClaimed] -> Moved t (fail_execution i a t).
Proof.
  intros Hok Hs. destruct (claimable_open _ Hs) as [Hne Hu]. destruct (below_bounds _ Hok Hne) as [Hf Hr].
  unfold fail_execution. rewrite (failed_next _ Hf).
  set (g := if is_none _ && _ then _ else _). set (s := if (_ <=? _)%N then _ else _).
  assert (g = claim_generation t \/ g = u64_saturating_add (claim_generation t) 1) as Hg
    by (unfold g; destruct (_ && _); tauto).
  assert (s ∈ [AtPublished; AtRework; AtBlocked]) as Hmem.
  { unfold s. destruct (_ <=? _)%N; [set_solver|]. destruct (tfi_retryable i), (repeats_same_failure i t); set_solver. }
  assert (failed_attempts t + 1 = MAX_TASK_EXECUTION_ATTEMPTS -> s = AtBlocked)%N as Hb
    by (intros Hb; apply (reached_bound _ _ Hf) in Hb; unfold s; by rewrite Hb).
  clearbody g s. destruct Hok as [_ _ _ _ _ Hgen]. split; cbn; [split; cbn|done| |].
  - intros ->. each_status Hmem; done.
  - lia.
  - intros ->%Hb. unfold exhausted. set_solver.
  - lia.
  - lia.
  - destruct Hg as [->| ->]; [done|apply generation_ok].
  - apply rtc_once. unfold task_view. cbn. by apply life_fail.
  - unfold unfinished in Hu. congruence.
Qed.

Lemma moved_fail_review i t :
  TaskOk t -> tk_status t = AtSubmitted -> Moved t (fail_review i t).
Proof.
  intros Hok Hs. destruct (below_bounds _ Hok) as [Hf Hr]; [rewrite Hs; unfold exhausted; set_solver|].
  unfold fail_review. rewrite (failed_next (failed_review_attempts t) Hr).
  set (s := if (_ <=? _)%N then _ else _).
  assert (s ∈ [AtPublished; AtSubmitted; AtBlocked]) as Hmem.
  { unfold s. destruct (_ <=? _)%N; [set_solver|]. destruct (tfi_retryable i), (repeats_same_failure i t); set_solver. }
  assert (failed_review_attempts t + 1 = MAX_TASK_REVIEW_ATTEMPTS -> s = AtBlocked)%N as Hb
    by (intros Hb; apply (reached_bound _ _ Hr) in Hb; unfold s; by rewrite Hb).
  clearbody s. destruct Hok as [_ _ _ _ _ Hgen]. split; cbn; [split; cbn|done| |].
  - intros ->. each_status Hmem; done.
  - lia.
  - lia.
  - unfold MAX_TASK_REVIEW_ATTEMPTS, MAX_TASK_EXECUTION_ATTEMPTS in *. lia.
  - intros ->%Hb. unfold exhausted. set_solver.
  - done.
  - apply rtc_once. unfold task_view. cbn. rewrite Hs. by apply life_fail_review.
  - by rewrite Hs.
Qed.

Lemma moved_fail i t : TaskOk t -> failure_status i t -> Moved t (fail_attempt i t).
Proof.
  intros Hok Hs. unfold fail_attempt.
  eapply moved_trans; [by apply (moved_attempts t (delete (tfi_execution_id i) (tk_active_attempts t)))|].
  pose proof (moved_ok _ _ (moved_attempts t (delete (tfi_execution_id i) (tk_active_attempts t)) Hok)) as Hok1.
  unfold failure_status in Hs. case_bool_decide as Hc; [by apply moved_leave|].
  destruct Hs as [Hs|Hs]; [done|].
  destruct (tfi_mode i); [by apply moved_fail_execution|by apply moved_fail_review|by apply moved_refl].
Qed.

Lemma moved_submit e i evidence t :
  TaskOk t -> tk_status t = AtClaimed -> Moved t (submit_task e i evidence t).
Proof.
  intros Hok Hs. destruct (claimable_open (tk_status t)) as [Hne Hu]; [rewrite Hs; set_solver|].
  destruct (below_bounds _ Hok Hne). destruct Hok. unfold submit_task, end_attempt.
  destruct (ab_execution_id _); (split; cbn; [split; cbn; try done; lia|done| |by rewrite Hs]);
    unfold task_view; cbn; rewrite Hs; apply rtc_once, life_submit.
Qed.

Lemma moved_review e i t : TaskOk t -> tk_status t = AtSubmitted -> Moved t (review_task e i t).
Proof.
  intros Hok Hs. destruct (below_bounds _ Hok); [rewrite Hs; unfold exhausted; set_solver|].
  destruct Hok. unfold review_task, end_attempt.
  destruct (ab_execution_id _), (tri_decision i);
    (split; cbn; [split; cbn; try done; lia|done| |by rewrite Hs]);
    unfold task_view; cbn; rewrite Hs; apply rtc_once, life_review; set_solver.
Qed.

Lemma moved_supersede e i t : TaskOk t -> unfinished (tk_status t) -> Moved t (supersede_task e i t).
Proof.
  intros [Hp Hf Hfo Hr Hro Hg] Hu. unfold supersede_task. cbn zeta.
  destruct (must_cancel t); (split; cbn; [split; cbn|done| |unfold unfinished in Hu; congruence]);
    try done; try (intros _; unfold exhausted; set_solver); try apply generation_ok.
  - apply rtc_once. unfold task_view. cbn. by apply life_cancel.
  - apply rtc_once. unfold task_view. cbn. apply life_retire; [done|set_solver].
Qed.

Lemma moved_withdraw e i t : TaskOk t -> unfinished (tk_status t) -> Moved t (withdraw_task e i t).
Proof.
  intros [Hp Hf Hfo Hr Hro Hg] Hu. unfold withdraw_task. cbn zeta.
  destruct (must_cancel t); (split; cbn; [split; cbn|done| |unfold unfinished in Hu; congruence]);
    try done; try (intros _; unfold exhausted; set_solver); try apply generation_ok.
  - apply rtc_once. unfold task_view. cbn. by apply life_cancel.
  - apply rtc_once. unfold task_view. cbn. apply life_retire; [done|set_solver].
Qed.

Lemma task_moved p k t t' : TaskOk t -> task_move p k t t' -> Moved t t'.
Proof.
  intros Hok [].
  - by eapply moved_claim.
  - by apply moved_release.
  - by apply moved_fail.
  - by apply moved_attempts.
  - by apply moved_attempts.
  - by apply moved_submit.
  - by apply moved_review.
  - apply moved_supersede; [done|]. unfold unfinished.
    match goal with Hs : tk_status t ∈ _ |- _ => each_status Hs; by rewrite Hs end.
  - apply moved_withdraw; [done|]. unfold unfinished.
    destruct (tk_status t); try done; exfalso; set_solver.
Qed.
