(* ===== verification/ProgramSafety.v ===== *)
(** * What every program keeps

    [WorkInv] holds of a program that is opened, and every admitted step keeps it:
    ids name one task and one live attempt, every task is in order, no work starts
    before its dependencies, a submission holds artifacts of its own claim, and what
    is accepted was reviewed by another agent. *)

From S2P Require Import Prelude AgentAction AgentProgram WorkMarket AgentRoster ProgramAuthority.
From S2P Require Import ProgramJournal WorkWalks TaskMachine TaskLife.

(** ** The invariant *)

Definition working (s : AgenticTaskStatus) : Prop := s ∈ [AtClaimed; AtSubmitted; AtAccepted].

Definition delivering (s : AgenticTaskStatus) : Prop := s ∈ [AtSubmitted; AtAccepted].

(** What a task submitted: artifacts its claimant committed to it under this claim. *)
Definition delivered (p : AgenticProgramProjection) (k : string) (t : AgenticTaskProjection) :
  Prop :=
  artifact_refs t <> []
  /\ exists c, claimant t = Some c
     /\ forall a, a ∈ artifact_refs t -> exists x, pr_artifacts p !! a = Some x
          /\ ar_committed_by x = c /\ k ∈ ar_relates_to x
          /\ ar_claim_execution_id x = claim_execution_id t
          /\ ar_claim_generation x = Some (claim_generation t).

(** Another agent than its claimant reviewed the task. *)
Definition reviewed (t : AgenticTaskProjection) : Prop :=
  exists c r, claimant t = Some c /\ reviewed_by t = Some r /\ c <> r.

Record CoreInv (p : AgenticProgramProjection) : Prop := {
  ci_keyed : TasksKeyed p;
  ci_ok : forall k t, pr_tasks p !! k = Some t -> TaskOk t
}.

Record WorkInv (p : AgenticProgramProjection) : Prop := {
  wi_core : CoreInv p;
  wi_closed : forall k t d, pr_tasks p !! k = Some t -> d ∈ depends_on t -> is_Some (pr_tasks p !! d);
  wi_depends : forall k t d,
    pr_tasks p !! k = Some t -> working (tk_status t) -> d ∈ depends_on t -> satisfied p d;
  wi_delivered : forall k t,
    pr_tasks p !! k = Some t -> delivering (tk_status t) -> delivered p k t;
  wi_reviewed : forall k t, pr_tasks p !! k = Some t -> tk_status t = AtAccepted -> reviewed t
}.

(** ** Tasks across a step *)

Definition tasks_grow (p p' : AgenticProgramProjection) : Prop :=
  forall k t, pr_tasks p !! k = Some t -> exists t', pr_tasks p' !! k = Some t' /\ Moved t t'.

Lemma satisfied_grow p p' r : tasks_grow p p' -> satisfied p r -> satisfied p' r.
Proof.
  intros Hg. induction 1 as [r t Ht Hs|r t Ht Hs Hne _ IH];
    destruct (Hg r t Ht) as (t' & Ht' & [_ _ Hv Hf]);
    (assert (task_finished (tk_status t) = true) as Hfin by by rewrite Hs);
    (assert (tk_status t' = tk_status t) as Hs'
       by (apply (f_equal vw_task_status (life_finished _ _ Hv Hfin))));
    destruct (Hf Hfin) as (_ & _ & Er).
  - eapply satisfied_accepted; [done|congruence].
  - eapply satisfied_replaced; [done|congruence|by rewrite Er|by rewrite Er].
Qed.

Section Steps.
Context `{IssueDigest} `{UrlDecode} `{ExecutionGrants} `{Sha256}.

Lemma tasks_step_grow p p' : CoreInv p -> tasks_step p p' -> tasks_grow p p'.
Proof.
  intros Hinv Hs k t Ht. pose proof (ci_ok p Hinv k t Ht) as Hok.
  destruct Hs as [Ep|k1 t1 t2 Hk1 Hm Ep|k1 i Hk1 _ _ Ep]; rewrite Ep.
  - exists t. split; [done|by apply moved_refl].
  - destruct (decide (k1 = k)) as [->|Hne].
    + exists t2. rewrite lookup_insert_eq. split; [done|]. eapply task_moved; [done|]. by simplify_eq.
    + exists t. rewrite lookup_insert_ne by done. split; [done|by apply moved_refl].
  - rewrite lookup_insert_ne by congruence. exists t. split; [done|by apply moved_refl].
Qed.

(** Where a task of the next program comes from. *)
Lemma tasks_step_origin p p' k t' :
  tasks_step p p' -> pr_tasks p' !! k = Some t' ->
  pr_tasks p !! k = Some t'
  \/ (exists t, pr_tasks p !! k = Some t /\ task_move p k t t')
  \/ (exists i, pr_tasks p !! k = None /\ t' = published_task k i
        /\ forall d, d ∈ tpi_depends_on i -> is_Some (pr_tasks p !! d)).
Proof.
  intros [Ep|k1 t1 t2 Hk1 Hm Ep|k1 i Hk1 _ Hd Ep]; rewrite Ep; [by left|..];
    (destruct (decide (k1 = k)) as [->|Hne];
      [rewrite lookup_insert_eq; intros [= <-] | rewrite lookup_insert_ne by done; by left]).
  - right. left. eauto.
  - right. right. eauto.
Qed.

(** ** What the moves keep *)

Lemma leave_cancelled_status x t :
  tk_status t = AtCancelRequested -> tk_status (leave_cancelled x t) ∉ [AtClaimed; AtSubmitted; AtAccepted].
Proof.
  intros Hs. unfold leave_cancelled. set (t1 := if bool_decide _ then _ else t).
  assert (tk_status t1 = AtCancelRequested) as Hs1 by (unfold t1; by case_bool_decide).
  clearbody t1. destruct (_ && _); [|rewrite Hs1; set_solver].
  unfold finalize_pending_retirement. destruct (negb _); [rewrite Hs1; set_solver|]. cbn.
  destruct (pending_retirement t1) as [[]|]; set_solver.
Qed.

Lemma end_attempt_same x t :
  tk_status (end_attempt x t) = tk_status t /\ tk_claim (end_attempt x t) = tk_claim t
  /\ tk_delivery (end_attempt x t) = tk_delivery t.
Proof. unfold end_attempt. by destruct x. Qed.

Lemma leave_not_working x t :
  tk_status t = AtCancelRequested -> working (tk_status (leave_cancelled x t)) -> False.
Proof. intros Hs. by apply leave_cancelled_status. Qed.

Lemma delivering_working s : delivering s -> working s.
Proof. unfold delivering, working. set_solver. Qed.

Lemma accepted_working s : s = AtAccepted -> working s.
Proof. intros ->. unfold working. set_solver. Qed.

(** A working task was working, or has just been claimed. *)
Lemma move_working p k t t' :
  task_move p k t t' -> working (tk_status t') ->
  working (tk_status t) \/ (forall d, d ∈ depends_on t -> satisfied p d).
Proof.
  unfold working. intros [e now agent Hs Hd _ _|e c Hs|i Hs|i Hs _ _|x|e i ev _ _ Hs _ _ _|e i _ _ Hs _|e i Hs|e i Hs];
    cbn; intros Hw; try (by left); try (left; rewrite Hs; set_solver).
  - by right.
  - left. unfold release_task in Hw. destruct (end_attempt_same (ab_execution_id (ae_actor e)) t) as (Es & _ & _).
    case_bool_decide as Hc; [destruct (leave_not_working _ _ Hc Hw)|].
    destruct c; [congruence|]. cbn in Hw. set_solver.
  - left. unfold fail_attempt in Hw. case_bool_decide as Hc; [destruct (leave_not_working _ _ Hc Hw)|].
    destruct Hs as [?|Hs]; [done|]. destruct (tfi_mode i); [|set_solver|done].
    exfalso. cbn in Hw. destruct (_ <=? _)%N; [set_solver|].
    destruct (tfi_retryable i), (repeats_same_failure _ _); set_solver.
  - left. unfold supersede_task in Hw. destruct (must_cancel t); cbn in Hw; set_solver.
  - left. unfold withdraw_task in Hw. destruct (must_cancel t); cbn in Hw; set_solver.
Qed.

(** A delivering task was, with the same claim and artifacts, or has just submitted. *)
Lemma move_delivering p k t t' :
  task_move p k t t' -> delivering (tk_status t') ->
  (delivering (tk_status t) /\ tk_claim t' = tk_claim t /\ artifact_refs t' = artifact_refs t)
  \/ delivered p k t'.
Proof.
  unfold delivering. intros [e now agent Hs Hd _ _|e c Hs|i Hs|i Hs _ _|x|e i ev Hm Hb Hs Hc Hne Ha|e i _ _ Hs _|e i Hs|e i Hs];
    cbn; intros Hw; try (by left).
  - exfalso. set_solver.
  - left. unfold release_task in *. destruct (end_attempt_same (ab_execution_id (ae_actor e)) t) as (Es & Ec & Ed).
    case_bool_decide as Hc; [destruct (leave_not_working _ _ Hc (delivering_working _ Hw))|].
    destruct c; [rewrite Es, Ec, Ed in *; done|]. cbn in Hw. exfalso. set_solver.
  - left. unfold fail_attempt in *. case_bool_decide as Hc.
    { destruct (leave_not_working _ _ Hc (delivering_working _ Hw)). }
    destruct Hs as [?|Hs]; [done|]. destruct (tfi_mode i); [|cbn; split; [set_solver|done]|done].
    exfalso. cbn in Hw. destruct (_ <=? _)%N; [set_solver|].
    destruct (tfi_retryable i), (repeats_same_failure _ _); set_solver.
  - right. unfold delivered, submit_task, end_attempt in *. unfold actor_agent_id, bound_actor in *.
    rewrite (Hb Hm) in Hc. cbn in Hc. destruct (ab_execution_id _); cbn; (split; [done|]);
      exists (ab_actor_id (ae_actor e)); split; try done; intros a Hin;
      destruct (Ha a Hin) as (x & Hx & ? & ? & ? & ?); exists x; done.
  - left. unfold review_task in *. destruct (end_attempt_same (ab_execution_id (ae_actor e)) t) as (Es & Ec & Ed).
    split; [set_solver|]. destruct (tri_decision i); cbn in *; [by rewrite Ec|exfalso; set_solver..].
  - exfalso. unfold supersede_task in Hw. destruct (must_cancel t); cbn in Hw; set_solver.
  - exfalso. unfold withdraw_task in Hw. destruct (must_cancel t); cbn in Hw; set_solver.
Qed.

(** An accepted task was, or another agent has just accepted it. *)
Lemma move_accepted p k t t' :
  task_move p k t t' -> tk_status t' = AtAccepted ->
  tk_status t = AtAccepted
  \/ (tk_status t = AtSubmitted /\ tk_claim t' = tk_claim t /\ exists r, reviewed_by t' = Some r /\ claimant t <> Some r).
Proof.
  intros [e now agent Hs Hd _ _|e c Hs|i Hs|i Hs _ _|x|e i ev Hm Hb Hs Hc Hne Ha|e i Hm Hb Hs Hc|e i Hs|e i Hs];
    cbn; intros Hw; try (by left); try done.
  - left. unfold release_task in *. destruct (end_attempt_same (ab_execution_id (ae_actor e)) t) as (Es & Ec & Ed).
    case_bool_decide as Hc; [destruct (leave_not_working _ _ Hc (accepted_working _ Hw))|].
    destruct c; [congruence|done].
  - left. unfold fail_attempt in *. case_bool_decide as Hc.
    { destruct (leave_not_working _ _ Hc (accepted_working _ Hw)). }
    destruct Hs as [?|Hs]; [done|]. destruct (tfi_mode i); [..|done]; exfalso; cbn in Hw;
      repeat case_match; done.
  - right. split; [done|]. split.
    { unfold review_task, end_attempt in *. by destruct (tri_decision i), (ab_execution_id _). }
    exists (ab_actor_id (ae_actor e)). split.
    + unfold review_task in *. by destruct (tri_decision i).
    + unfold actor_agent_id, bound_actor in *. by rewrite (Hb Hm) in Hc.
  - unfold supersede_task in Hw. by destruct (must_cancel t).
  - unfold withdraw_task in Hw. by destruct (must_cancel t).
Qed.

(** The live attempts of a task: some leave, or a new one is dispatched. *)
Lemma leave_cancelled_attempts x t :
  tk_active_attempts (leave_cancelled x t) = tk_active_attempts t.
Proof.
  unfold leave_cancelled, finalize_pending_retirement. repeat case_match; try done.
Qed.

Lemma move_attempts p k t t' :
  task_move p k t t' ->
  tk_active_attempts t' ⊆ tk_active_attempts t
  \/ (exists i, tk_active_attempts t' = <[tdi_execution_id i := attempt_of i]> (tk_active_attempts t)
        /\ active_membership p i
        /\ forall k t, pr_tasks p !! k = Some t -> tk_active_attempts t !! tdi_execution_id i = None).
Proof.
  assert (forall x, tk_active_attempts (end_attempt x t) ⊆ tk_active_attempts t) as He
    by (intros [x|]; [apply delete_subseteq|done]).
  intros [e now agent Hs Hd _ _|e c Hs|i Hs|i Hs Ha Hf|x|e i ev Hm Hb Hs Hc Hne Ha|e i Hm Hb Hs Hc|e i Hs|e i Hs];
    try (by left).
  - left. unfold release_task. case_bool_decide; [rewrite leave_cancelled_attempts|]; [apply He|].
    destruct c; apply He.
  - left. unfold fail_attempt. case_bool_decide; [rewrite leave_cancelled_attempts; apply delete_subseteq|].
    destruct (tfi_mode i); apply delete_subseteq.
  - right. by exists i.
  - left. apply delete_subseteq.
  - left. apply He.
  - left. unfold review_task. destruct (tri_decision i); apply He.
  - left. unfold supersede_task. by destruct (must_cancel t).
  - left. unfold withdraw_task. by destruct (must_cancel t).
Qed.

(** ** Artifacts *)

Lemma step_artifacts p p' : program_step p p' -> pr_artifacts p ⊆ pr_artifacts p'.
Proof.
  intros [e now at_ms revision He Hi Hv [Hf _ _]| |]; [|done..].
  change (pr_artifacts p ⊆ pr_artifacts (apply_action e (entity_ref e) revision at_ms p)).
  unfold apply_action, fresh_entity in *. destruct (ae_action e); try done.
  - unfold apply_team_create, apply_membership_update. repeat case_match; done.
  - unfold apply_agent_invite. by case_match.
  - unfold apply_task_publish. by case_match.
  - unfold apply_task_release. by case_match.
  - unfold apply_task_attempt_dispatch, consume_request. by repeat case_match.
  - unfold apply_task_attempt_fail. by case_match.
  - unfold apply_message_publish. by repeat case_match.
  - unfold apply_artifact_commit. destruct (entity_ref e) as [id|]; [|done]. cbn.
    apply insert_subseteq. by apply Hf.
  - unfold apply_membership_update. by repeat case_match.
  - unfold apply_team_update. by repeat case_match.
Qed.

Lemma delivered_mono p p' k t :
  pr_artifacts p ⊆ pr_artifacts p' -> delivered p k t -> delivered p' k t.
Proof.
  intros Hsub (Hne & c & Hc & Ha). split; [done|]. exists c. split; [done|].
  intros a (x & Hx & Hr)%Ha. exists x. split; [by eapply lookup_weaken|done].
Qed.

Lemma delivered_same p k t t' :
  tk_claim t' = tk_claim t -> artifact_refs t' = artifact_refs t -> delivered p k t -> delivered p k t'.
Proof. unfold delivered. by intros -> ->. Qed.

(** ** The invariant is kept *)

Lemma step_keyed p p' : CoreInv p -> tasks_step p p' -> TasksKeyed p'.
Proof.
  intros Hinv Hs. pose proof (ci_keyed p Hinv) as [Hkey Hone]. split.
  - intros k t' Ht'. destruct (tasks_step_origin p p' k t' Hs Ht') as [?|[(t & Ht & Hm)|(i & _ & -> & _)]];
      [by apply Hkey| |done].
    rewrite (moved_contract _ _ (task_moved p k t t' (ci_ok p Hinv k t Ht) Hm)). by apply Hkey.
  - assert (forall k t' x a, pr_tasks p' !! k = Some t' -> tk_active_attempts t' !! x = Some a ->
              (exists t b, pr_tasks p !! k = Some t /\ tk_active_attempts t !! x = Some b)
              \/ (exists t, pr_tasks p' = <[k := t']> (pr_tasks p) /\ pr_tasks p !! k = Some t
                   /\ forall j u, pr_tasks p !! j = Some u -> tk_active_attempts u !! x = None)) as Hcase.
    { intros k t' x a Ht' Ha. destruct Hs as [Ep|k1 t1 t2 Hk1 Hm Ep|k1 i Hk1 _ _ Ep]; rewrite Ep in Ht'.
      - left. eauto.
      - destruct (decide (k1 = k)) as [->|Hne]; [|rewrite lookup_insert_ne in Ht' by done; left; eauto].
        rewrite lookup_insert_eq in Ht'. injection Ht' as ->.
        destruct (move_attempts _ _ _ _ Hm) as [Hsub|(i & Ea & _ & Hf)].
        + left. exists t1, a. split; [done|]. by eapply lookup_weaken.
        + rewrite Ea in Ha. apply lookup_insert_Some in Ha as [[<- _]|[Hne Ha]]; [right; eauto|left; eauto].
      - destruct (decide (k1 = k)) as [->|Hne]; [|rewrite lookup_insert_ne in Ht' by done; left; eauto].
        rewrite lookup_insert_eq in Ht'. injection Ht' as <-. cbn in Ha. by rewrite lookup_empty in Ha. }
    intros k1 k2 t1 t2 x a1 a2 Hk1 Hk2 Ha1 Ha2.
    destruct (Hcase k1 t1 x a1 Hk1 Ha1) as [(u1 & b1 & Hu1 & Hb1)|(u1 & E1 & Hu1 & Hf1)],
             (Hcase k2 t2 x a2 Hk2 Ha2) as [(u2 & b2 & Hu2 & Hb2)|(u2 & E2 & Hu2 & Hf2)].
    + by eapply (Hone k1 k2).
    + rewrite (Hf2 _ _ Hu1) in Hb1. done.
    + rewrite (Hf1 _ _ Hu2) in Hb2. done.
    + destruct (decide (k1 = k2)) as [|Hne]; [done|exfalso].
      rewrite E1 in Hk2. rewrite lookup_insert_ne in Hk2 by done. rewrite (Hf1 _ _ Hk2) in Ha2. done.
Qed.

Lemma step_core p p' : CoreInv p -> program_step p p' -> CoreInv p'.
Proof.
  intros Hinv Hstep. pose proof (step_tasks p p' (ci_keyed p Hinv) Hstep) as Hs.
  split; [by eapply step_keyed|].
  intros k t' Ht'. destruct (tasks_step_origin p p' k t' Hs Ht') as [Ht|[(t & Ht & Hm)|(i & _ & -> & _)]].
  - by eapply ci_ok.
  - eapply moved_ok, task_moved; [|done]. by eapply ci_ok.
  - apply published_ok.
Qed.

Lemma step_grow p p' : CoreInv p -> program_step p p' -> tasks_grow p p'.
Proof.
  intros Hinv Hs. apply tasks_step_grow; [done|]. by apply step_tasks; [apply ci_keyed|].
Qed.

Lemma step_inv p p' : WorkInv p -> program_step p p' -> WorkInv p'.
Proof.
  intros Hinv Hstep. pose proof (step_artifacts _ _ Hstep) as Hart.
  pose proof (wi_core p Hinv) as Hcore.
  pose proof (step_tasks p p' (ci_keyed p Hcore) Hstep) as Hs.
  pose proof (step_grow p p' Hcore Hstep) as Hgrow.
  pose proof (fun k t' => tasks_step_origin p p' k t' Hs) as Horigin.
  assert (forall k t t', pr_tasks p !! k = Some t -> task_move p k t t' -> Moved t t') as Hmoved
    by (intros k t t' Ht; apply task_moved; by eapply ci_ok).
  split.
  - by eapply step_core.
  - intros k t' d Ht' Hd.
    assert (is_Some (pr_tasks p !! d)) as [u (u' & Hu' & _)%Hgrow]; [|by eexists].
    destruct (Horigin k t' Ht') as [Ht|[(t & Ht & Hm)|(i & _ & -> & Hi)]]; [by eapply wi_closed| |by apply Hi].
    rewrite (moved_contract _ _ (Hmoved k t t' Ht Hm)) in Hd. by eapply wi_closed.
  - intros k t' d Ht' Hw Hd. apply (satisfied_grow p p' d Hgrow).
    destruct (Horigin k t' Ht') as [Ht|[(t & Ht & Hm)|(i & _ & -> & Hi)]]; [by eapply wi_depends| |].
    + rewrite (moved_contract _ _ (Hmoved k t t' Ht Hm)) in Hd.
      destruct (move_working _ _ _ _ Hm Hw) as [Hw'|Hsat]; [by eapply wi_depends|by apply Hsat].
    + unfold working in Hw. cbn in Hw. set_solver.
  - intros k t' Ht' Hw. apply (delivered_mono p p' k t' Hart).
    destruct (Horigin k t' Ht') as [Ht|[(t & Ht & Hm)|(i & _ & -> & Hi)]]; [by eapply wi_delivered| |].
    + destruct (move_delivering _ _ _ _ Hm Hw) as [(Hw' & Ec & Ea)|]; [|done].
      apply (delivered_same p k t t' Ec Ea). by eapply wi_delivered.
    + unfold delivering in Hw. cbn in Hw. set_solver.
  - intros k t' Ht' Hw.
    destruct (Horigin k t' Ht') as [Ht|[(t & Ht & Hm)|(i & _ & -> & Hi)]]; [by eapply wi_reviewed| |done].
    destruct (move_accepted _ _ _ _ Hm Hw) as [Hacc|(Hsub & Ec & r & Hr & Hne)].
    + assert (task_finished (tk_status t) = true) as Hfin by by rewrite Hacc.
      destruct (moved_finished _ _ (Hmoved k t t' Ht Hm) Hfin) as (Ec & Ed & _).
      unfold reviewed. rewrite Ec, Ed. by eapply wi_reviewed.
    + unfold reviewed. rewrite Ec. destruct (wi_delivered p Hinv k t Ht) as (_ & c & Hc & _); [unfold delivering; set_solver|].
      exists c, r. split_and!; [done..|congruence].
Qed.
End Steps.
