(* ===== verification/ProgramHistory.v ===== *)
(** * Histories of a program's journal

    Every submission and every conclusion leaves the journal as it is or extends it
    by one admitted step of the projected program; so what every step keeps holds of
    the projection of every journal that can arise. *)

From S2P Require Import Prelude AgentAction AgentProgram WorkMarket AgentRoster ProgramAuthority.
From S2P Require Import ProgramJournal WorkWalks TaskMachine TaskLife ProgramSafety.

(** ** Replaying *)

Section History.
Context `{IssueDigest} `{UrlDecode} `{ExecutionGrants} `{Sha256} `{ProgramReads}.

Lemma number_from_app n j1 j2 :
  number_from n (j1 ++ j2) = number_from n j1 ++ number_from (n + N.of_nat (length j1)) j2.
Proof.
  revert n. induction j1 as [|x j1 IH]; intros n; cbn [number_from app length].
  - f_equal. lia.
  - rewrite IH. do 3 f_equal. lia.
Qed.

(** A journal with an opening event and what is appended to it. *)
Lemma project_app j p more :
  project j = Ok p ->
  project (j ++ more) = try_fold apply_event p (number_from (1 + N.of_nat (length j)) more).
Proof.
  unfold project, numbered. intros Hp. destruct (head (omap opening j)) as [b|] eqn:Eb; [|done].
  assert (head (omap opening (j ++ more)) = Some b) as ->.
  { rewrite omap_app. by destruct (omap opening j). }
  rewrite number_from_app, try_fold_app, Hp. done.
Qed.

Lemma project_snoc j p x :
  project j = Ok p -> project (j ++ [x]) = apply_event p (1 + N.of_nat (length j), x)%N.
Proof.
  intros Hp. rewrite (project_app _ _ [x] Hp). cbn. by destruct (apply_event _ _).
Qed.

(** The projection stands at the head of its journal. *)
Definition at_head (j : list JournalEntry) (p : AgenticProgramProjection) : Prop :=
  project j = Ok p /\ pr_revision p = N.of_nat (length j).

Lemma at_head_nonempty j p : at_head j p -> pr_revision p <> 0%N.
Proof. intros [Hp Hr]. rewrite Hr. destruct j; [done|]. cbn. lia. Qed.

Lemma apply_next p (j : list JournalEntry) :
  pr_revision p = N.of_nat (length j) ->
  ((1 + N.of_nat (length j))%N <=? pr_revision p)%N = false.
Proof. intros ->. apply N.leb_gt. lia. Qed.

(** Where an admitted action leaves a journal with a projection. *)
Lemma submitted_head j p e at_ms :
  at_head j p ->
  at_head (j ++ admitted_entries e at_ms p)
    (program_apply e (entity_ref e) (1 + N.of_nat (length j)) at_ms p).
Proof.
  intros Hhead. pose proof Hhead as [Hp Hr].
  unfold admitted_entries. rewrite (proj2 (N.eqb_neq _ _) (at_head_nonempty _ _ Hhead)). cbn [app].
  split.
  - rewrite (project_snoc _ _ _ Hp). unfold apply_event. cbn [fst snd].
    rewrite (apply_next p j) by done. reflexivity.
  - cbn. rewrite length_app. cbn. lia.
Qed.

(** ** Steps of a journal *)

Inductive journal_step (j : list JournalEntry) : list JournalEntry -> Prop :=
| js_submit e now at_ms r j' :
    (forall p, current_projection (ae_actor e) j = Ok p -> Admissible p e) ->
    submit_action e now at_ms j = (r, j') -> journal_step j j'
| js_conclude goals now j' : reconcile_completion_request goals now j = Ok j' -> journal_step j j'.

(** What an admitted submission went through. *)
Lemma submit_inv e now at_ms j r j' :
  submit_action e now at_ms j = (r, j') ->
  j' = j
  \/ exists p, current_projection (ae_actor e) j = Ok p
    /\ binding_differs (ae_actor e) (pr_binding p) = false
    /\ is_inspect e = false /\ validate_envelope e = Ok tt
    /\ validate_transition p e now = None /\ j' = j ++ admitted_entries e at_ms p.
Proof.
  unfold submit_action, apply_locked. intros Hs.
  destruct (validate_envelope e) as [[]|] eqn:Ev; [|left; congruence].
  destruct (replay_if_applied e j); [left; congruence|].
  destruct (current_projection (ae_actor e) j) as [p|] eqn:Ep; [|left; congruence].
  destruct (negb (String.eqb _ _)); [left; congruence|].
  destruct (binding_differs _ _) eqn:Eb; [left; congruence|].
  destruct (is_inspect e) eqn:Ei; [left; congruence|]. destruct (stale e p); [left; congruence|].
  destruct (validate_transition p e now) as [[code message]|] eqn:Et; [left; congruence|].
  destruct (check_obligations _ _) as [[[code message]|]|]; try (left; congruence).
  destruct (check_artifacts _) as [[code message]|]; [left; congruence|]. injection Hs as _ <-.
  right. exists p. split_and!; done.
Qed.

(** What a conclusion appends, to the journal of a program that asked for it. *)
Inductive concludes (p : AgenticProgramProjection) : ProgramEvent -> Prop :=
| concludes_verdict v : concludes p (PeVerdict v)
| concludes_gaps request gaps :
    completion_request p = Some request ->
    concludes p (PeReopened (Some (cr_program_revision request)) gaps).

Lemma conclude_inv goals now j p j' :
  project j = Ok p -> reconcile_completion_request goals now j = Ok j' ->
  j' = j
  \/ pr_status p = PsCompletionRequested
     /\ exists event, concludes p event
          /\ j' = j ++ [{| je_event := event; je_created_at_ms := now |}].
Proof.
  intros Hp. unfold reconcile_completion_request. rewrite Hp. cbn.
  case_bool_decide as Hs; cbn [negb]; [|intros [= ->]; by left].
  destruct (pb_root_execution_id _) as [root|]; cbn; [|done]. destruct (gs_get _ _) as [goal|]; cbn; [|done].
  destruct (g ← goal; t ← bo_terminal g; Some g) as [g|].
  - unfold bind_objective_verdict. rewrite Hp. cbn.
    destruct (completion_request p) as [request|]; cbn; [|done].
    destruct (pb_root_execution_id _) as [root'|]; cbn; [|done].
    destruct (bo_terminal g) as [t|]; cbn; [|done]. destruct (negb _); [done|]. destruct (objective_verdict p).
    + destruct (_ && _); [intros [= ->]; by left|done].
    + destruct (negb _); [done|]. intros [= <-]. right. split; [done|]. eexists. by split; [constructor|].
  - destruct (gs_prepare _ _) as [prepared|]; cbn; [|done]. unfold commit_program_conclusion.
    destruct (completion_request p) as [request|] eqn:Er; [|done]. destruct (_ || _); [done|].
    intros [= <-]. right. split; [done|]. eexists. split; [|done].
    destruct (bo_terminal _); by constructor.
Qed.

(** A journal with a projection makes a step of the program, or none. *)
Lemma journal_step_program j p j' :
  at_head j p -> journal_step j j' ->
  exists p', at_head j' p' /\ (p' = p /\ j' = j \/ program_step p p').
Proof.
  intros Hhead Hs. pose proof Hhead as [Hp Hr]. destruct Hs as [e now at_ms r j' Hadm Hs|goals now j' Hs].
  - destruct (submit_inv _ _ _ _ _ _ Hs) as [->|(q & Hq & _ & Hi & He & Hv & ->)].
    { exists p. split; [done|by left]. }
    assert (q = p) as ->.
    { unfold current_projection in Hq. rewrite Hp in Hq. by injection Hq. }
    specialize (Hadm p Hq). eexists. split; [by apply submitted_head|].
    right. by eapply (st_action p e now at_ms).
  - destruct (conclude_inv _ _ _ _ _ Hp Hs) as [->|(Hc & event & Hevent & ->)].
    { exists p. split; [done|by left]. }
    unfold at_head. rewrite (project_snoc _ _ _ Hp). unfold apply_event. cbn [fst snd je_event].
    rewrite (apply_next p j) by done. destruct Hevent as [v|request gaps Er].
    + eexists. split; [split; [done|]|right; by apply st_verdict]. cbn. rewrite length_app. cbn. lia.
    + rewrite Er. cbn. rewrite bool_decide_eq_true_2 by done.
      eexists. split; [split; [done|]|right; by apply st_reopened]. cbn. rewrite length_app. cbn. lia.
Qed.

Lemma journal_run_program j p j' :
  at_head j p -> rtc journal_step j j' -> exists p', at_head j' p' /\ rtc program_step p p'.
Proof.
  intros Hp Hs. revert p Hp. induction Hs as [j|j j1 j' Hs _ IH]; intros p Hp; [by exists p|].
  destruct (journal_step_program _ _ _ Hp Hs) as (p1 & Hp1 & Hst).
  destruct (IH p1 Hp1) as (p' & Hp' & Hrun). exists p'. split; [done|].
  destruct Hst as [[-> _]|Hst]; [done|by eapply rtc_l].
Qed.

(** ** The first action *)

(** The opening event holds the binding that was compared with the actor. *)
Lemma opening_binding a :
  binding_differs a (binding_of a) = false ->
  je_event (opening_entry a 0) = PeOpened (binding_of a) None.
Proof.
  unfold binding_differs. intros Hb. apply negb_false_iff in Hb.
  repeat (apply andb_prop in Hb as [Hb ?]). cbn in *.
  match goal with Hm : String.eqb (if trim_is_empty _ then _ else _) _ = true |- _ =>
    apply String.eqb_eq in Hm; unfold opening_entry, binding_of; cbn; by rewrite Hm end.
Qed.

(** The program a first action finds: opened at revision 1. *)
Definition initial_program (b : ProgramBinding) : AgenticProgramProjection :=
  with_revision 1 (opened_program b).

Lemma first_step j' :
  journal_step [] j' ->
  j' = [] \/ exists b p', at_head j' p' /\ program_step (initial_program b) p'.
Proof.
  intros [e now at_ms r j1 Hadm Hs|c now j1 Hs]; [|done].
  destruct (submit_inv _ _ _ _ _ _ Hs) as [->|(q & Hq & Hb & Hi & He & Hv & ->)]; [by left|right].
  pose proof (Hadm q Hq) as Ha. cbn in Hq. injection Hq as <-.
  exists (binding_of (ae_actor e)). eexists. split.
  - unfold at_head, admitted_entries. cbn [pr_revision opened_program N.eqb app].
    unfold project, numbered. cbn [number_from omap list_omap opening].
    pose proof (opening_binding _ Hb) as Ho. cbn in Ho. injection Ho as Ho.
    unfold opening. cbn [je_event opening_entry head]. rewrite Ho. cbn [try_fold].
    unfold apply_event at 1. cbn. split; reflexivity.
  - apply (st_action (initial_program (binding_of (ae_actor e))) e now at_ms 2); try done.
    destruct Ha as [Hf Hx Hbound]. by split.
Qed.

(** Every journal that arises is empty, or projects to a program that its first
    state reaches. *)
Lemma journal_history j :
  rtc journal_step [] j ->
  j = [] \/ exists b p, at_head j p /\ rtc program_step (initial_program b) p.
Proof.
  intros Hs. remember [] as j0 eqn:E0. induction Hs as [|j0 j1 j Hs Hrun IH]; [by left|]. subst.
  destruct (first_step _ Hs) as [->|(b & p1 & Hp1 & Hst)]; [by apply IH|right].
  destruct (journal_run_program _ _ _ Hp1 Hrun) as (p & Hp & Hprun).
  exists b, p. split; [done|]. by eapply rtc_l.
Qed.

(** ** Invariants of histories *)

Lemma initial_work_inv b : WorkInv (initial_program b).
Proof.
  assert (CoreInv (initial_program b)) as Hcore
    by (split; [split|]; cbn; intros *; by rewrite lookup_empty).
  split; [done|..]; cbn; intros *; by rewrite lookup_empty.
Qed.

Lemma run_inv p p' : WorkInv p -> rtc program_step p p' -> WorkInv p'.
Proof. intros Hp Hs. induction Hs; eauto using step_inv. Qed.

Lemma history_program j p :
  rtc journal_step [] j -> project j = Ok p ->
  exists b, rtc program_step (initial_program b) p /\ at_head j p.
Proof.
  intros [->|(b & q & Hq & Hrun)]%journal_history Hp; [done|].
  assert (q = p) as -> by (destruct Hq; congruence). eauto.
Qed.

Lemma history_work_inv j p : rtc journal_step [] j -> project j = Ok p -> WorkInv p.
Proof.
  intros Hj Hp. destruct (history_program _ _ Hj Hp) as (b & Hrun & _).
  eapply run_inv; [|done]. apply initial_work_inv.
Qed.

(** A task of a program is a task, moved, of every later one. *)
Lemma run_grow p p' : CoreInv p -> rtc program_step p p' -> CoreInv p' /\ tasks_grow p p'.
Proof.
  intros Hp Hs. revert Hp. induction Hs as [p|p p1 p' Hs Hrun IH]; intros Hp.
  - split; [done|]. intros k t Ht. exists t. split; [done|]. apply moved_refl. by eapply ci_ok.
  - destruct (IH (step_core _ _ Hp Hs)) as [Hcore Hgrow]. split; [done|]. intros k t Ht.
    destruct (step_grow _ _ Hp Hs k t Ht) as (t1 & Ht1 & Hm1).
    destruct (Hgrow k t1 Ht1) as (t' & Ht' & Hm'). exists t'. split; [done|]. by eapply moved_trans.
Qed.

End History.
