(* ===== verification/ProgramRoster.v ===== *)
(** * Draining ends when the work has

    A membership that is retired holds no live attempt, and a team that is retired
    owns no unfinished task, in every program that arises: what drains is retired
    only by [reconcile_lifecycle], and nothing is given to what is not active. *)

From S2P Require Import Prelude AgentAction AgentProgram WorkMarket AgentRoster ProgramAuthority.
From S2P Require Import ProgramJournal WorkWalks TaskMachine TaskLife ProgramSafety.
From S2P Require Import ProgramHistory.

Abbreviation Memberships := (gmap string AgenticMembershipProjection).
Abbreviation Teams := (gmap string AgenticTeamProjection).

(** ** Maps of memberships and teams *)

Definition member_keyed (k : string) (m : AgenticMembershipProjection) : Prop :=
  ms_membership_id m = k /\ k = membership_id (ms_agent_id m) (ms_team_id m).

Definition members_keyed (ms : Memberships) : Prop := map_Forall member_keyed ms.

Definition teams_keyed (ts : Teams) : Prop := map_Forall (fun k t => tm_team_id t = k) ts.

Definition live_member (m : AgenticMembershipProjection) : Prop := ms_lifecycle m <> MlRetired.

Definition retired_team (t : AgenticTeamProjection) : Prop := tm_lifecycle t = TlRetired.

(** Before reconciliation no member is retired, and no team. *)
Record MembersKeep (ms ms' : Memberships) : Prop := {
  mk_keyed : members_keyed ms -> members_keyed ms';
  mk_live : forall k m, ms !! k = Some m -> live_member m ->
              exists m', ms' !! k = Some m' /\ live_member m'
}.

Record TeamsKeep (ts ts' : Teams) : Prop := {
  tk_keyed : teams_keyed ts -> teams_keyed ts';
  tk_retired : forall k t', ts' !! k = Some t' -> retired_team t' ->
                 exists t, ts !! k = Some t /\ retired_team t
}.

Lemma members_refl ms : MembersKeep ms ms.
Proof. split; eauto. Qed.

Lemma members_trans ms1 ms2 ms3 : MembersKeep ms1 ms2 -> MembersKeep ms2 ms3 -> MembersKeep ms1 ms3.
Proof.
  intros [K1 L1] [K2 L2]. split; [auto|]. intros k m Hm Hl.
  destruct (L1 k m Hm Hl) as (m2 & Hm2 & Hl2). eauto.
Qed.

Lemma members_insert ms k m :
  member_keyed k m -> live_member m -> MembersKeep ms (<[k := m]> ms).
Proof.
  intros Hk Hl. split; [intros Hms; by apply map_Forall_insert_2|].
  intros j x Hx Hlx. destruct (decide (k = j)) as [->|Hne].
  - exists m. by rewrite lookup_insert_eq.
  - exists x. by rewrite lookup_insert_ne by done.
Qed.

Lemma keyed_alter ms f k :
  (forall m, member_keyed k m -> member_keyed k (f m)) ->
  members_keyed ms -> members_keyed (alter f k ms).
Proof.
  intros Hk Hms j x Hx. apply lookup_alter_Some in Hx as [(<- & y & Hy & ->)|[_ Hx]]; auto.
Qed.

Lemma members_alter ms f k :
  (forall m, member_keyed k m -> member_keyed k (f m)) ->
  (forall m, live_member m -> live_member (f m)) -> MembersKeep ms (alter f k ms).
Proof.
  intros Hk Hl. split; [by apply keyed_alter|].
  intros j x Hx Hlx. destruct (decide (k = j)) as [->|Hne].
  - exists (f x). rewrite lookup_alter_eq, Hx. auto.
  - exists x. by rewrite lookup_alter_ne by done.
Qed.

Lemma members_fmap ms (f : AgenticMembershipProjection -> AgenticMembershipProjection) :
  (forall k m, member_keyed k m -> member_keyed k (f m)) ->
  (forall m, live_member m -> live_member (f m)) -> MembersKeep ms (f <$> ms).
Proof.
  intros Hk Hl. split.
  - intros Hms j x Hx. apply lookup_fmap_Some in Hx as (y & <- & Hy). auto.
  - intros j x Hx Hlx. exists (f x). rewrite lookup_fmap, Hx. auto.
Qed.

Lemma teams_refl ts : TeamsKeep ts ts.
Proof. split; eauto. Qed.

Lemma teams_trans ts1 ts2 ts3 : TeamsKeep ts1 ts2 -> TeamsKeep ts2 ts3 -> TeamsKeep ts1 ts3.
Proof.
  intros [K1 R1] [K2 R2]. split; [auto|]. intros k t Ht Hr. destruct (R2 k t Ht Hr) as (t2 & Ht2 & Hr2). eauto.
Qed.

Lemma teams_insert ts k t :
  tm_team_id t = k -> ~ retired_team t -> TeamsKeep ts (<[k := t]> ts).
Proof.
  intros Hk Hr. split; [intros Hts; by apply map_Forall_insert_2|].
  intros j x Hx Hrx. apply lookup_insert_Some in Hx as [[<- <-]|[_ Hx]]; [done|eauto].
Qed.

(** A change that keeps the id and the lifecycle of a team. *)
Lemma teams_alter ts f k :
  (forall t, tm_team_id (f t) = tm_team_id t /\ tm_lifecycle (f t) = tm_lifecycle t) ->
  TeamsKeep ts (alter f k ts).
Proof.
  intros Hf. split.
  - intros Hts j x Hx. apply lookup_alter_Some in Hx as [(<- & y & Hy & ->)|[_ Hx]]; [|by apply Hts].
    rewrite (proj1 (Hf y)). by apply Hts.
  - intros j x Hx Hr. apply lookup_alter_Some in Hx as [(<- & y & Hy & ->)|[_ Hx]]; [|by exists x].
    exists y. split; [done|]. unfold retired_team in *. by rewrite (proj2 (Hf y)) in Hr.
Qed.

Lemma teams_replace ts k t t' :
  ts !! k = Some t -> tm_team_id t' = tm_team_id t -> (retired_team t' -> retired_team t) ->
  TeamsKeep ts (<[k := t']> ts).
Proof.
  intros Ht Hid Hr. split.
  - intros Hts. apply map_Forall_insert_2; [|done]. rewrite Hid. by apply Hts.
  - intros j x Hx Hrx. apply lookup_insert_Some in Hx as [[<- <-]|[_ Hx]]; eauto.
Qed.

(** ** Actions *)

Record Keeps (p p' : AgenticProgramProjection) : Prop := {
  keeps_members : MembersKeep (pr_memberships p) (pr_memberships p');
  keeps_teams : TeamsKeep (pr_teams p) (pr_teams p')
}.

Lemma keeps_same p p' :
  pr_memberships p' = pr_memberships p -> pr_teams p' = pr_teams p -> Keeps p p'.
Proof. intros Hm Ht. split; [rewrite Hm; apply members_refl|rewrite Ht; apply teams_refl]. Qed.

Lemma keeps_trans p1 p2 p3 : Keeps p1 p2 -> Keeps p2 p3 -> Keeps p1 p3.
Proof. intros [] []. split; [by eapply members_trans|by eapply teams_trans]. Qed.

Lemma link_keeps agent team p : Keeps p (link_member agent team p).
Proof. split; [apply members_refl|]. apply teams_alter. done. Qed.

Lemma with_memberships_keeps ms p :
  MembersKeep (pr_memberships p) ms -> Keeps p (with_memberships ms p).
Proof. intros. by split; [|apply teams_refl]. Qed.

Lemma with_teams_keeps ts p : TeamsKeep (pr_teams p) ts -> Keeps p (with_teams ts p).
Proof. intros. by split; [apply members_refl|]. Qed.

Lemma membership_keeps e i p :
  members_keyed (pr_memberships p) -> Keeps p (apply_membership_update e i p).
Proof.
  intros Hkeyed. unfold apply_membership_update. cbn zeta.
  destruct (_ || _); [by apply keeps_same|]. destruct (mui_operation i).
  - eapply keeps_trans; [|apply link_keeps]. apply with_memberships_keeps, members_insert; [|done].
    destruct (pr_memberships p !! _) as [m|] eqn:Em; [|by split]. by apply Hkeyed in Em.
  - apply with_memberships_keeps, members_alter; [done|]. intros m _. unfold live_member. done.
Qed.

Lemma team_create_keeps e i id p :
  members_keyed (pr_memberships p) -> Keeps p (apply_team_create e i id p).
Proof.
  intros Hkeyed. unfold apply_team_create. destruct id as [id|]; [|by apply keeps_same].
  assert (Keeps p (with_teams (<[id := new_team e i id]> (pr_teams p)) p)) as Hteam
    by (apply with_teams_keeps, teams_insert; done).
  destruct (is_managed _), (ab_agent_id (ae_actor e)), (ab_execution_id (ae_actor e)); try done.
  eapply keeps_trans; [exact Hteam|]. eapply keeps_trans; [by apply membership_keeps|].
  apply with_memberships_keeps, members_alter; done.
Qed.

Lemma team_update_keeps i p : Keeps p (apply_team_update i p).
Proof.
  unfold apply_team_update. destruct (pr_teams p !! tui_team_ref i) as [team|] eqn:Et; [|by apply keeps_same].
  set (team1 := match tui_mission_ref i with Some _ => _ | None => _ end).
  assert (tm_team_id team1 = tm_team_id team /\ tm_lifecycle team1 = tm_lifecycle team) as [Hid Hl]
    by (unfold team1; by destruct (tui_mission_ref i)).
  clearbody team1. destruct (tui_request_retire i).
  - split; cbn.
    + apply members_fmap; intros *; unfold drain_membership; (destruct (_ && _); done).
    + eapply teams_replace; [done|done|]. done.
  - apply with_teams_keeps. eapply teams_replace; [done..|]. unfold retired_team. congruence.
Qed.

Lemma invite_keeps e i id p : Keeps p (apply_agent_invite e i id p).
Proof.
  unfold apply_agent_invite. destruct id as [id|]; [|by apply keeps_same]. cbn zeta.
  eapply keeps_trans; [|apply link_keeps]. split; [|apply teams_refl]. cbn. by apply members_insert.
Qed.

Section Steps.
Context `{IssueDigest} `{UrlDecode} `{ExecutionGrants} `{Sha256}.

Lemma action_keeps e id revision at_ms p :
  members_keyed (pr_memberships p) -> Keeps p (apply_action e id revision at_ms p).
Proof.
  intros Hkeyed. unfold apply_action. destruct (ae_action e); try by apply keeps_same.
  - by apply team_create_keeps.
  - apply invite_keeps.
  - unfold apply_task_publish. destruct id; [|by apply keeps_same].
    split; [apply members_refl|]. by apply teams_alter.
  - unfold apply_task_release. destruct (is_some _); by apply keeps_same.
  - unfold apply_task_attempt_dispatch, consume_request.
    repeat case_match; by apply keeps_same.
  - unfold apply_task_attempt_fail. case_bool_decide; by apply keeps_same.
  - unfold apply_message_publish. destruct id; [|by apply keeps_same].
    destruct (bind_intent _ _ _). by apply keeps_same.
  - unfold apply_artifact_commit. destruct id; by apply keeps_same.
  - by apply membership_keeps.
  - apply team_update_keeps.
Qed.

(** ** Reconciliation *)

(** A live attempt of a program. *)
Definition live_attempt (p : AgenticProgramProjection) (a : AgenticTaskAttemptProjection) : Prop :=
  exists k t x, pr_tasks p !! k = Some t /\ tk_active_attempts t !! x = Some a.

Record RosterInv (p : AgenticProgramProjection) : Prop := {
  ri_members : members_keyed (pr_memberships p);
  ri_teams : teams_keyed (pr_teams p);
  ri_attempts : forall a, live_attempt p a ->
    exists m, pr_memberships p !! at_membership_id a = Some m /\ live_member m;
  ri_retired : forall id team k t,
    pr_teams p !! id = Some team -> retired_team team ->
    pr_tasks p !! k = Some t -> team_id t = id -> task_finished (tk_status t) = true
}.

Lemma owns_attempt p a agent :
  live_attempt p a -> owns_live_claim p (at_membership_id a) agent = true.
Proof.
  intros (k & t & x & Ht & Ha). apply any_value_true. exists k, t. split; [done|].
  apply orb_true_iff. left. apply any_value_true. exists x, a. split; [done|]. by apply String.eqb_eq.
Qed.

(** Retiring memberships spares those with a live attempt. *)
Lemma retire_members_keep p l : forall ms,
  members_keyed ms ->
  (forall a, live_attempt p a -> exists m, ms !! at_membership_id a = Some m /\ live_member m) ->
  members_keyed (foldl (retire_membership p) ms l)
  /\ forall a, live_attempt p a ->
       exists m, foldl (retire_membership p) ms l !! at_membership_id a = Some m /\ live_member m.
Proof.
  induction l as [|[id agent] l IH]; intros ms Hk Hlive; [done|]. cbn [foldl]. apply IH.
  - unfold retire_membership. destruct (owns_live_claim _ _ _); [done|].
    by apply (keyed_alter ms (with_lifecycle MlRetired) id).
  - intros a Ha. unfold retire_membership. cbn. destruct (owns_live_claim p id agent) eqn:Eo; [by apply Hlive|].
    destruct (decide (at_membership_id a = id)) as [<-|Hne].
    + rewrite owns_attempt in Eo by done. done.
    + rewrite lookup_alter_ne by done. by apply Hlive.
Qed.

Definition retired_done (p : AgenticProgramProjection) (ts : Teams) : Prop :=
  forall id team k t,
    ts !! id = Some team -> retired_team team ->
    pr_tasks p !! k = Some t -> team_id t = id -> task_finished (tk_status t) = true.

Lemma no_unfinished_work p id k t :
  has_unfinished_work p id = false -> pr_tasks p !! k = Some t -> team_id t = id ->
  task_finished (tk_status t) = true.
Proof.
  unfold has_unfinished_work. intros Hw Ht Hid. apply any_value_false with (k := k) (v := t) in Hw; [|done].
  rewrite Hid, String.eqb_refl in Hw. cbn in Hw. by apply negb_false_iff.
Qed.

(** Retiring teams spares those with unfinished work. *)
Lemma retire_teams_keep p l : forall ts,
  teams_keyed ts -> retired_done p ts ->
  teams_keyed (foldl (retire_team p) ts l) /\ retired_done p (foldl (retire_team p) ts l).
Proof.
  induction l as [|id l IH]; intros ts Hk Hr; [done|]. cbn [foldl].
  assert (teams_keyed (retire_team p ts id) /\ retired_done p (retire_team p ts id)) as [? ?];
    [|by apply IH].
  unfold retire_team. destruct (has_unfinished_work p id) eqn:Ew; [done|]. split.
  - intros j x Hx. apply lookup_alter_Some in Hx as [(<- & y & Hy & ->)|[_ Hx]]; [|by apply Hk].
    cbn. by apply Hk in Hy.
  - intros j team k t Hx Hret Ht Hid. apply lookup_alter_Some in Hx as [(<- & y & Hy & ->)|[_ Hx]].
    + by eapply no_unfinished_work.
    + by eapply Hr.
Qed.

Lemma reconcile_inv p : RosterInv p -> RosterInv (reconcile_lifecycle p).
Proof.
  intros [Hm Ht Ha Hr]. unfold reconcile_lifecycle. cbn zeta.
  set (lm := map _ (List.filter _ (btree_values (pr_memberships p)))).
  destruct (retire_members_keep p lm (pr_memberships p) Hm Ha) as [Hm' Ha'].
  set (p1 := with_memberships _ p). set (lt := map _ (List.filter _ (btree_values (pr_teams p1)))).
  destruct (retire_teams_keep p1 lt (pr_teams p1) Ht Hr) as [Ht' Hr'].
  by split.
Qed.

(** ** Steps *)

(** What a step leaves of the attempts and of the finished tasks. *)
Lemma attempts_after p p' q a :
  CoreInv p -> tasks_step p q -> RosterInv p -> MembersKeep (pr_memberships p) (pr_memberships p') ->
  pr_tasks q = pr_tasks p' -> live_attempt p' a ->
  exists m, pr_memberships p' !! at_membership_id a = Some m /\ live_member m.
Proof.
  intros Hcore Hs [Hm _ Ha _] [_ Hlive] Heq (k & t' & x & Ht' & Hx). rewrite <-Heq in Ht'.
  assert (live_attempt p a
          \/ exists i, a = attempt_of i /\ active_membership p i) as [Hl|(i & -> & k0 & m & Hk0 & Hag & Hact & Hid)].
  { destruct (tasks_step_origin p q k t' Hs Ht') as [Ht|[(t & Ht & Hmv)|(i & _ & -> & _)]].
    - left. by exists k, t', x.
    - destruct (move_attempts _ _ _ _ Hmv) as [Hsub|(i & Ea & Hact & _)].
      + left. exists k, t, x. split; [done|]. by eapply lookup_weaken.
      + rewrite Ea in Hx. apply lookup_insert_Some in Hx as [[_ <-]|[_ Hx]]; [right; eauto|].
        left. by exists k, t, x.
    - cbn in Hx. by rewrite lookup_empty in Hx. }
  - destruct (Ha a Hl) as (m & Hmm & Hml). by eapply Hlive.
  - destruct (Hm k0 m Hk0) as [_ Ek]. cbn. rewrite Hid, <-Ek. eapply Hlive; [done|].
    unfold live_member. by rewrite Hact.
Qed.

Lemma retired_after p p' q :
  CoreInv p -> tasks_step p q -> RosterInv p -> TeamsKeep (pr_teams p) (pr_teams p') ->
  pr_tasks q = pr_tasks p' -> retired_done p' (pr_teams p').
Proof.
  intros Hcore Hs Hri [_ Hret] Heq id team' k t' Hteam Hr Ht' Hid. rewrite <-Heq in Ht'.
  destruct (Hret id team' Hteam Hr) as (team & Hteam0 & Hr0).
  assert (forall t, pr_tasks p !! k = Some t -> tk_contract t' = tk_contract t ->
            task_finished (tk_status t) = true) as Hdone.
  { intros t Ht Hc. eapply (ri_retired p Hri); [done..|]. by rewrite <-Hc. }
  destruct Hs as [Eq|k1 t1 t2 Hk1 Hm Eq|k1 i Hk1 Hact _ Eq]; rewrite Eq in Ht'.
  - by apply Hdone.
  - destruct (decide (k1 = k)) as [->|Hne]; [|rewrite lookup_insert_ne in Ht' by done; by apply Hdone].
    rewrite lookup_insert_eq in Ht'. injection Ht' as <-.
    pose proof (task_moved _ _ _ _ (ci_ok p Hcore k t1 Hk1) Hm) as [_ Hc Hv _].
    pose proof (Hdone t1 Hk1 Hc) as Hfin. pose proof (life_finished _ _ Hv Hfin) as Hview.
    apply (f_equal vw_task_status) in Hview. cbn in Hview. by rewrite Hview.
  - destruct (decide (k1 = k)) as [->|Hne]; [|rewrite lookup_insert_ne in Ht' by done; by apply Hdone].
    rewrite lookup_insert_eq in Ht'. injection Ht' as <-. cbn in Hid. subst id.
    unfold team_active in Hact. rewrite Hteam0 in Hact. unfold retired_team in Hr0. by rewrite Hr0 in Hact.
Qed.

Lemma step_roster p p' : CoreInv p -> RosterInv p -> program_step p p' -> RosterInv p'.
Proof.
  intros Hcore Hri Hstep. pose proof (step_tasks p p' (ci_keyed p Hcore) Hstep) as Hs.
  destruct Hstep as [e now at_ms revision He Hi Hv Ha| |]; [|by destruct Hri; split..].
  set (q := apply_action e (entity_ref e) revision at_ms p).
  assert (RosterInv (with_revision revision (reconcile_lifecycle q)) <-> RosterInv (reconcile_lifecycle q)) as Hrev
    by (split; intros []; by split).
  apply Hrev, reconcile_inv.
  destruct (action_keeps e (entity_ref e) revision at_ms p (ri_members p Hri)) as [Hmk Htk].
  fold q in Hmk, Htk. split.
  - by apply Hmk, ri_members.
  - by apply Htk, ri_teams.
  - intros a Hlive. by eapply attempts_after.
  - by eapply retired_after.
Qed.
End Steps.

Lemma initial_roster b : RosterInv (initial_program b).
Proof.
  split; cbn.
  - apply map_Forall_empty.
  - apply map_Forall_empty.
  - intros a (k & t & x & Ht & _). cbn in Ht. by rewrite lookup_empty in Ht.
  - intros *. by rewrite lookup_empty.
Qed.

Section History.
Context `{IssueDigest} `{UrlDecode} `{ExecutionGrants} `{Sha256} `{ProgramReads}.

Lemma run_roster p p' :
  CoreInv p -> RosterInv p -> rtc program_step p p' -> CoreInv p' /\ RosterInv p'.
Proof.
  intros Hc Hr Hs. revert Hc Hr. induction Hs; intros Hc Hr; eauto using step_core, step_roster.
Qed.

Lemma history_roster_inv j p : rtc journal_step [] j -> project j = Ok p -> RosterInv p.
Proof.
  intros Hj Hp. destruct (history_program _ _ Hj Hp) as (b & Hrun & _).
  eapply run_roster; [|apply initial_roster|done]. apply wi_core, initial_work_inv.
Qed.
End History.
