(* ===== verification/ProgramCompletion.v ===== *)
(** * A program that is concluded

    The request for completion is admitted only of a program whose work is done, and
    it freezes the program: what was checked still holds when the verdict arrives,
    and after the verdict the journal stays as it is. *)

From S2P Require Import Prelude AgentAction AgentProgram WorkMarket AgentRoster ProgramAuthority.
From S2P Require Import ProgramJournal WorkWalks TaskMachine TaskLife ProgramSafety.
From S2P Require Import ProgramHistory.

(** ** Completed work *)

(** A team one of whose accepted tasks the lineage of a cited artifact reaches. *)
Definition integrated_team (p : AgenticProgramProjection) (refs : list string) (team : string) :
  Prop :=
  exists a r x t,
    pr_artifacts p !! a = Some r /\ (ar_artifact_ref r ∈ refs \/ ar_content_ref r ∈ refs)
    /\ integrates p (ar_artifact_ref r) x /\ pr_tasks p !! x = Some t /\ team_id t = team.

Definition settled (t : AgenticTaskProjection) : Prop :=
  is_retired (tk_status t) = true \/ tk_status t = AtAccepted /\ reviewed t.

(** At least as many teams as the objective requires. *)
Definition enough_teams (p : AgenticProgramProjection) (P : string -> Prop) : Prop :=
  exists teams, NoDup teams /\ N.to_nat (required_team_count p) <= length teams
    /\ forall team, team ∈ teams -> P team.

Definition accepted_team (p : AgenticProgramProjection) (team : string) : Prop :=
  exists k t, pr_tasks p !! k = Some t /\ tk_status t = AtAccepted /\ team_id t = team.

Record Complete (p : AgenticProgramProjection) (r : AgenticCompletionRequestProjection) : Prop := {
  co_settled : forall k t, pr_tasks p !! k = Some t -> settled t /\ tk_active_attempts t = ∅;
  co_contributions : enough_teams p (accepted_team p);
  co_integrated : (exists a, a ∈ cr_result_refs r /\ is_Some (pr_artifacts p !! a)) ->
    enough_teams p (integrated_team p (cr_result_refs r))
    \/ forall team, is_Some (pr_teams p !! team) -> integrated_team p (cr_result_refs r) team;
  co_unresolved : cr_unresolved r = []
}.

Lemma enough_of_set p (s : gset string) (P : string -> Prop) :
  N.to_nat (required_team_count p) <= size s -> (forall x, x ∈ s -> P x) -> enough_teams p P.
Proof.
  intros Hn HP. exists (elements s). split_and!; [apply NoDup_elements|done|].
  intros x Hx. apply HP. by apply elem_of_elements.
Qed.

Lemma filter_nil {A} (f : A -> bool) l :
  List.filter f l = [] <-> forall x, x ∈ l -> f x = false.
Proof.
  induction l as [|y l IH]; cbn; [split; [intros _ x ?%elem_of_nil; done|done]|].
  destruct (f y) eqn:Ey.
  - split; [done|]. intros Hl. rewrite (Hl y) in Ey by left. done.
  - rewrite IH. set_solver.
Qed.

Section Gap.
Context `{IssueDigest} `{UrlDecode} (p : AgenticProgramProjection).

Lemma contributing_team team : team ∈ contributing_teams p -> accepted_team p team.
Proof.
  unfold contributing_teams. rewrite elem_of_list_to_set, list_elem_of_In, in_map_iff.
  intros (t & <- & [Ht Ha]%filter_In). apply list_elem_of_In, elem_of_btree_values in Ht as [k Hk].
  exists k, t. split_and!; [done| |done]. unfold is_accepted in Ha. by apply bool_decide_eq_true in Ha.
Qed.

Lemma covered_team refs team :
  team ∈ teams_of p (elements (integrated_by p refs)) -> integrated_team p refs team.
Proof.
  unfold teams_of. rewrite elem_of_list_to_set, list_elem_of_omap.
  intros (x & Hx%elem_of_elements & Hteam). apply fmap_Some in Hteam as (t & Ht & ->).
  unfold integrated_by in Hx. rewrite elem_of_list_to_set, list_elem_of_In, in_flat_map in Hx.
  destruct Hx as (r & Hr & Hx). apply in_flat_map in Hx as (a & Ha & Hx).
  apply filter_In in Ha as [Ha Href]. apply list_elem_of_In, elem_of_btree_values in Ha as [k Hk].
  apply list_elem_of_In in Hx, Hr. rewrite elem_of_elements in Hx.
  apply (proj2 (integrated_accepted_tasks_spec p (ar_artifact_ref a))) in Hx.
  exists k, a, x, t. split_and!; try done.
  apply orb_true_iff in Href as [He|He]; apply String.eqb_eq in He; rewrite He; auto.
Qed.

(** What is checked of the tasks when no gap is left. *)
Lemma gap_settled i k t :
  completion_gap p i = None -> pr_tasks p !! k = Some t ->
  tk_active_attempts t = ∅ /\ (is_retired (tk_status t) = true \/ tk_status t = AtAccepted /\ reviewed t).
Proof.
  unfold completion_gap. cbv zeta. intros Hgap Ht.
  destruct (_ <? _); [done|]. destruct (any_value _ _) eqn:Eq; [done|].
  apply any_value_false with (k := k) (v := t) in Eq; [|done]. open_guards. split; [done|].
  destruct (negb (is_nil (oci_unresolved i))); [done|]. destruct (issues_completion_gap p); [done|].
  destruct (is_nil (incomplete_tasks p)) eqn:Ei; cbn [negb] in Hgap; [|done].
  destruct (_ <? _); [done|]. destruct (existsb _ _); [done|]. destruct (_ && _); [done|].
  destruct (is_nil (unverified_tasks p)) eqn:Eu; cbn [negb] in Hgap; [|done].
  destruct (is_retired (tk_status t)) eqn:Er; [by left|right].
  assert (forall (f : AgenticTaskProjection -> bool),
    is_nil (map (fun t => task_id t) (List.filter f (btree_values (pr_tasks p)))) = true -> f t = false) as Hf.
  { intros f Hn. destruct (List.filter f _) eqn:El; [|done]. apply filter_nil with (x := t) in El; [done|].
    apply elem_of_btree_values. eauto. }
  apply Hf in Ei, Eu. rewrite Er in *. cbn [negb andb] in *. open_guards.
  unfold is_accepted in Ei. apply bool_decide_eq_true in Ei. split; [done|].
  unfold independent, reviewed in *. destruct (claimant t) as [c|], (reviewed_by t) as [r|]; try done.
  exists c, r. split_and!; [done..|]. intros ->. rewrite bool_decide_eq_true_2 in Eu by done. done.
Qed.

Lemma gap_teams i :
  completion_gap p i = None ->
  oci_unresolved i = [] /\ enough_teams p (accepted_team p)
  /\ ((exists a, a ∈ oci_result_refs i /\ is_Some (pr_artifacts p !! a)) ->
      enough_teams p (integrated_team p (oci_result_refs i))
      \/ forall team, is_Some (pr_teams p !! team) -> integrated_team p (oci_result_refs i) team).
Proof.
  unfold completion_gap. cbv zeta. intros Hgap.
  destruct (_ <? _); [done|]. destruct (any_value _ _); [done|].
  destruct (oci_unresolved i) eqn:Eun; [|done]. cbn [is_nil negb] in Hgap.
  destruct (issues_completion_gap p); [done|]. destruct (negb _); [done|].
  destruct (_ <? _) eqn:En; [done|]. destruct (existsb _ _); [done|].
  destruct (_ && _) eqn:Ec; [done|]. clear Hgap. apply Nat.ltb_ge in En. split_and!; [done| |].
  - eapply enough_of_set; [done|apply contributing_team].
  - intros (a & Ha & Hk).
    assert (existsb (fun r => is_some (pr_artifacts p !! r)) (oci_result_refs i) = true) as He.
    { apply existsb_elem_of. exists a. split; [done|]. by destruct Hk as [? ->]. }
    rewrite He in Ec. cbn [andb] in Ec. apply negb_false_iff in Ec.
    unfold uncovered_teams in Ec. cbv zeta in Ec. destruct (_ <=? _) eqn:El.
    + left. apply Nat.leb_le in El. eapply enough_of_set; [done|apply covered_team].
    + right. intros team [m Hm]. apply covered_team. destruct (List.filter _ _) eqn:Ef; [|done].
      apply filter_nil with (x := team) in Ef; [|apply elem_of_btree_keys; eauto]. by open_guards.
Qed.
End Gap.

(** ** What the conclusion leaves *)

(** The parts of a program that [Complete] looks at. *)
Record SameWork (p p' : AgenticProgramProjection) : Prop := {
  sw_tasks : pr_tasks p' = pr_tasks p;
  sw_artifacts : pr_artifacts p' = pr_artifacts p;
  sw_required : required_team_count p' = required_team_count p;
  sw_teams : forall k, is_Some (pr_teams p' !! k) <-> is_Some (pr_teams p !! k)
}.

Lemma complete_same p p' r : SameWork p p' -> Complete p r -> Complete p' r.
Proof.
  intros [Et Ea Er Hteams] [Hs Hc Hi Hu].
  assert (forall refs team, integrated_team p refs team -> integrated_team p' refs team) as Hteam
    by (unfold integrated_team, integrates, lineage_edge; rewrite Et, Ea; done).
  assert (forall P, enough_teams p P -> enough_teams p' P) as Hen
    by (unfold enough_teams; rewrite Er; done).
  split.
  - rewrite Et. done.
  - apply Hen. unfold accepted_team in *. by rewrite Et.
  - rewrite Ea. intros [(l & Hnd & Hn & Hl)|Hall]%Hi.
    + left. exists l. rewrite Er. split_and!; auto.
    + right. intros team Hk%Hteams. auto.
  - done.
Qed.

Lemma retire_teams_dom p l k : forall ts,
  is_Some (foldl (retire_team p) ts l !! k) <-> is_Some (ts !! k).
Proof.
  induction l as [|id l IH]; intros ts; [done|]. cbn [foldl]. rewrite IH. unfold retire_team.
  destruct (has_unfinished_work p id); [done|]. by rewrite lookup_alter_is_Some.
Qed.

Lemma reconcile_same p : SameWork p (reconcile_lifecycle p).
Proof. split; try done. intros k. unfold reconcile_lifecycle. cbv zeta. cbn. apply retire_teams_dom. Qed.

Record ConclusionInv (p : AgenticProgramProjection) : Prop := {
  cn_complete : pr_status p = PsCompletionRequested \/ program_terminal (pr_status p) = true ->
    exists r, completion_request p = Some r /\ Complete p r;
  cn_verdict : program_terminal (pr_status p) = true ->
    exists v, objective_verdict p = Some v /\ pr_status p = verdict_status (ov_kind v)
}.

Section Steps.
Context `{IssueDigest} `{UrlDecode} `{ExecutionGrants} `{Sha256}.

Definition is_completion (e : AgentActionEnvelope) : bool :=
  match ae_action e with ObjectiveCompleteRequest _ => true | _ => false end.

Lemma action_status e id revision at_ms p :
  is_completion e = false -> pr_status (apply_action e id revision at_ms p) = pr_status p.
Proof.
  unfold is_completion, apply_action. destruct (ae_action e); try done; intros _.
  - unfold apply_team_create, apply_membership_update. cbv zeta. by repeat case_match.
  - unfold apply_agent_invite. by destruct id.
  - unfold apply_task_publish. by destruct id.
  - unfold apply_task_release. by destruct (is_some _).
  - unfold apply_task_attempt_dispatch, consume_request. by repeat case_match.
  - unfold apply_task_attempt_fail. by case_bool_decide.
  - unfold apply_message_publish. destruct id; [|done]. by destruct (bind_intent _ _ _).
  - unfold apply_artifact_commit. by destruct id.
  - unfold apply_membership_update. cbv zeta. by repeat case_match.
  - unfold apply_team_update. by repeat case_match.
Qed.

Lemma step_conclusion p p' : ConclusionInv p -> program_step p p' -> ConclusionInv p'.
Proof.
  intros [Hc Hv] [e now at_ms revision He Hi Hval Ha|v revision Hs|gaps revision Hs].
  - unfold validate_transition in Hval. rewrite Hi in Hval. open_guards.
    rewrite andb_true_r in *. open_guards.
    destruct (is_completion e) eqn:Ec.
    + unfold is_completion in Ec. destruct (ae_action e) as [| | | | | | | | | | | | | | | | | |i] eqn:Ea; try done.
      unfold validate_by_action in Hval. rewrite Ea in Hval. unfold validate_complete_request in Hval.
      open_guards. apply fmap_None in Hval. split; [intros _|].
      * unfold program_apply, apply_action. rewrite Ea. eexists. split; [done|].
        destruct (gap_teams p i Hval) as (Hu & Hen & Hin).
        apply (complete_same p).
        { destruct (reconcile_same (apply_completion_request p e i revision)). by split. }
        split; cbn; try done. intros k t Ht. destruct (gap_settled p i k t Hval Ht). done.
      * unfold program_apply, apply_action. rewrite Ea. done.
    + assert (pr_status (program_apply e (entity_ref e) revision at_ms p) = pr_status p) as Es
        by (apply (action_status e (entity_ref e) revision at_ms p Ec)).
      split; rewrite Es; [intros [?|?]|intros ?]; congruence.
  - destruct (Hc (or_introl Hs)) as (r & Hr & Hcr). split.
    + intros _. exists r. split; [done|]. by eapply complete_same; [|done].
    + intros _. by exists v.
  - split; [intros [?|?]|]; done.
Qed.
End Steps.

Lemma initial_conclusion b : ConclusionInv (initial_program b).
Proof. split; [intros [?|?]|]; done. Qed.

Section History.
Context `{IssueDigest} `{UrlDecode} `{ExecutionGrants} `{Sha256} `{ProgramReads}.

Lemma history_conclusion j p : rtc journal_step [] j -> project j = Ok p -> ConclusionInv p.
Proof.
  intros Hj Hp. destruct (history_program _ _ Hj Hp) as (b & Hrun & _).
  assert (ConclusionInv (initial_program b)) as Hinv by apply initial_conclusion.
  induction Hrun; eauto using step_conclusion.
Qed.

(** Nothing is appended to the journal of a concluded program. *)
Lemma terminal_step j p j' :
  project j = Ok p -> program_terminal (pr_status p) = true -> journal_step j j' -> j' = j.
Proof.
  intros Hp Ht [e now at_ms r j1 _ Hs|c now j1 Hs].
  - destruct (submit_inv _ _ _ _ _ _ Hs) as [->|(q & Hq & _ & Hi & _ & Hv & _)]; [done|].
    unfold current_projection in Hq. rewrite Hp in Hq. injection Hq as <-.
    unfold validate_transition in Hv. rewrite Hi, Ht in Hv. open_guards. done.
  - destruct (conclude_inv _ _ _ _ _ Hp Hs) as [->|(He & _)]; [done|]. by rewrite He in Ht.
Qed.

Lemma terminal_run j p j' :
  project j = Ok p -> program_terminal (pr_status p) = true -> rtc journal_step j j' -> j' = j.
Proof.
  intros Hp Ht Hs. induction Hs as [|j j1 j2 Hs _ IH]; [done|].
  pose proof (terminal_step _ _ _ Hp Ht Hs) as ->. auto.
Qed.
End History.
