(* ===== verification/ProgramReplay.v ===== *)
(** * Replays and resumptions

    A journal only grows; so an action is applied once, whatever is submitted again
    under its id, and a projection kept from before is brought to the head by the
    events after its revision. *)

From S2P Require Import Prelude AgentAction AgentProgram WorkMarket AgentRoster ProgramAuthority.
From S2P Require Import ProgramJournal WorkWalks TaskMachine TaskLife ProgramSafety.
From S2P Require Import ProgramHistory.

Section Replay.
Context `{IssueDigest} `{UrlDecode} `{ExecutionGrants} `{Sha256} `{ProgramReads}.

(** ** Growth *)

Lemma journal_step_grow j j' : journal_step j j' -> exists more, j' = j ++ more.
Proof.
  intros [e now at_ms r j1 _ Hs|c now j1 Hs].
  - destruct (submit_inv _ _ _ _ _ _ Hs) as [->|(p & _ & _ & _ & _ & _ & ->)]; [|eauto].
    exists []. by rewrite app_nil_r.
  - destruct (project j) as [p|] eqn:Hp.
    + destruct (conclude_inv _ _ _ _ _ Hp Hs) as [->|(_ & event & _ & ->)]; [|eauto].
      exists []. by rewrite app_nil_r.
    + unfold reconcile_completion_request in Hs. by rewrite Hp in Hs.
Qed.

Lemma journal_run_grow j j' : rtc journal_step j j' -> exists more, j' = j ++ more.
Proof.
  intros Hs. induction Hs as [j|j j1 j' [m1 ->]%journal_step_grow _ [m2 ->]].
  - exists []. by rewrite app_nil_r.
  - exists (m1 ++ m2). by rewrite app_assoc.
Qed.

(** A history that is not empty has a projection at its head. *)
Lemma history_head j : rtc journal_step [] j -> j <> [] -> exists p, at_head j p.
Proof. intros [->|(b & p & Hp & _)]%journal_history Hne; [done|eauto]. Qed.

(** ** Replays *)

(** An applied action is the first and only one of its id. *)
Lemma applied_entry e now at_ms j revision entity j1 :
  submit_action e now at_ms j = (SubApplied false revision entity, j1) ->
  j1 <> [] /\ omap (is_action (ae_action_id e)) j1 = [(e, entity)].
Proof.
  unfold submit_action, apply_locked. destruct (validate_envelope e) as [[]|]; [|done].
  unfold replay_if_applied at 1. destruct (omap (is_action (ae_action_id e)) j) as [|[o x] l] eqn:Eo; cbn.
  2: { destruct (project j); [|done]. by destruct (bool_decide _ && bool_decide _). }
  destruct (current_projection _ _) as [p|]; [|done].
  repeat match goal with |- context [if ?c then _ else _] => destruct c; [done|] end.
  destruct (validate_transition p e now) as [[]|]; [done|].
  destruct (check_obligations _ _) as [[[]|]|]; try done.
  destruct (check_artifacts _) as [[]|]; [done|].
  destruct (project _); [|done]. intros [= _ <- <-]. split.
  - unfold admitted_entries. by destruct j, (_ =? _)%N.
  - rewrite omap_app, Eo. unfold admitted_entries. rewrite omap_app.
    assert (forall l : list JournalEntry, l = [] \/ l = [opening_entry (ae_actor e) at_ms] ->
              omap (is_action (ae_action_id e)) l = []) as Hopen by (intros l' [->| ->]; done).
    rewrite Hopen by (destruct (_ =? _)%N; auto). cbn. unfold is_action. cbn. by rewrite String.eqb_refl.
Qed.

Lemma applied_extends e now at_ms j revision entity j1 :
  submit_action e now at_ms j = (SubApplied false revision entity, j1) -> length j < length j1.
Proof.
  intros Hs. destruct (submit_inv _ _ _ _ _ _ Hs) as [->|(p & _ & _ & _ & _ & _ & ->)].
  - exfalso. apply applied_entry in Hs as Hj. destruct Hj as [_ Ho].
    unfold submit_action, apply_locked, replay_if_applied in Hs.
    destruct (validate_envelope e); [|done]. rewrite Ho in Hs. cbn in Hs.
    destruct (project j); [|done]. by destruct (_ && _).
  - rewrite length_app. unfold admitted_entries. rewrite length_app. cbn. lia.
Qed.

Lemma replayed e j p o entity :
  project j = Ok p -> head (omap (is_action (ae_action_id e)) j) = Some (o, entity) ->
  validate_envelope e = Ok tt -> forall now at_ms,
  submit_action e now at_ms j =
  (if bool_decide (ae_actor o = ae_actor e) && bool_decide (ae_action o = ae_action e)
   then SubApplied true (pr_revision p) entity
   else SubRejected (pr_revision p) "action_id_conflict"
          "action_id already identifies a different actor or payload; use the original request to retry", j).
Proof.
  intros Hp Hh Hv now at_ms. unfold submit_action, apply_locked, replay_if_applied. by rewrite Hv, Hh, Hp.
Qed.

(** ** Resumptions *)

Lemma number_from_after n (l : list JournalEntry) :
  forall m, (n < m)%N -> List.filter (fun x => (n <? x.1)%N) (number_from m l) = number_from m l.
Proof.
  induction l as [|x l IH]; intros m Hm; [done|]. cbn.
  rewrite (proj2 (N.ltb_lt n m)) by done. f_equal. apply IH. lia.
Qed.

Lemma number_from_before n (l : list JournalEntry) :
  forall m, (m + N.of_nat (length l) <= n + 1)%N ->
  List.filter (fun x => (n <? x.1)%N) (number_from m l) = [].
Proof.
  induction l as [|x l IH]; intros m Hm; [done|]. cbn in *.
  rewrite (proj2 (N.ltb_ge n m)) by lia. apply IH. lia.
Qed.

Lemma resume_at_head j p more :
  at_head j p -> resume_projection p (j ++ more) = project (j ++ more).
Proof.
  intros [Hp Hr]. rewrite (project_app _ _ _ Hp). unfold resume_projection. f_equal.
  unfold events_after, numbered. rewrite number_from_app, List.filter_app.
  rewrite number_from_before, number_from_after by lia. done.
Qed.
End Replay.
