(* ===== verification/ProgramFaults.v ===== *)
(** * Two ways a program never ends

    Supersessions that cross leave a task that can never start; and a continuation
    that inherits accepted work can never request its completion. *)

From S2P Require Import Prelude AgentAction AgentProgram WorkMarket AgentRoster ProgramAuthority.
From S2P Require Import ProgramJournal WorkWalks TaskMachine TaskLife ProgramSafety.
From S2P Require Import ProgramHistory ProgramCompletion.

(** ** Crossed supersessions *)

(** Task [b] waits for [d], which [a] replaces, which [b] replaces. *)
Record Crossed (p : AgenticProgramProjection) (a b d : string) : Prop := {
  cr_waits : exists t, pr_tasks p !! b = Some t /\ d ∈ depends_on t /\ ~ working (tk_status t);
  cr_first : exists t, pr_tasks p !! d = Some t /\ tk_status t = AtSuperseded
                /\ replacement_task_refs t = [a];
  cr_second : exists t, pr_tasks p !! a = Some t /\ tk_status t = AtSuperseded
                /\ replacement_task_refs t = [b]
}.

Lemma satisfied_through p k t r :
  pr_tasks p !! k = Some t -> tk_status t = AtSuperseded -> replacement_task_refs t = [r] ->
  satisfied p k -> satisfied p r.
Proof.
  intros Ht Hs Hr Hsat. destruct Hsat as [k u Hu Hus|k u Hu Hus Hne Hall].
  - congruence.
  - simplify_eq. apply Hall. rewrite Hr. by left.
Qed.

Lemma satisfied_finished p k t :
  pr_tasks p !! k = Some t -> satisfied p k -> task_finished (tk_status t) = true.
Proof.
  intros Ht Hs. destruct Hs as [k u Hu Hus|k u Hu Hus _ _];
    (assert (u = t) as -> by congruence); by rewrite Hus.
Qed.

Section Faults.
Context `{IssueDigest} `{UrlDecode} `{ExecutionGrants} `{Sha256} `{ProgramReads}.

Lemma superseded_stays p p' k t r :
  tasks_grow p p' -> pr_tasks p !! k = Some t -> tk_status t = AtSuperseded ->
  replacement_task_refs t = r ->
  exists t', pr_tasks p' !! k = Some t' /\ tk_status t' = AtSuperseded /\ replacement_task_refs t' = r.
Proof.
  intros Hg Ht Hs Hr. destruct (Hg k t Ht) as (t' & Ht' & [_ _ Hv Hf]).
  assert (task_finished (tk_status t) = true) as Hfin by by rewrite Hs.
  pose proof (f_equal vw_task_status (life_finished _ _ Hv Hfin)) as Hst. cbn in Hst.
  destruct (Hf Hfin) as (_ & _ & Er). exists t'. split_and!; [done|congruence|congruence].
Qed.

Lemma crossed_step p p' a b d :
  CoreInv p -> Crossed p a b d -> program_step p p' -> Crossed p' a b d.
Proof.
  intros Hcore [(tb & Hb & Hd & Hw) (td & Hdd & Hds & Hdr) (ta & Ha & Has & Har)] Hstep.
  pose proof (step_grow p p' Hcore Hstep) as Hg.
  pose proof (step_tasks p p' (ci_keyed p Hcore) Hstep) as Hs.
  split; [|by eapply superseded_stays..].
  destruct (Hg b tb Hb) as (tb' & Hb' & Hm). exists tb'. split; [done|].
  rewrite (moved_contract _ _ Hm). split; [done|]. intros Hw'.
  destruct (tasks_step_origin p p' b tb' Hs Hb') as [?|[(u & Hu & Hmv)|(i & Hnone & _)]];
    [congruence| |congruence].
  assert (u = tb) as -> by congruence.
  destruct (move_working _ _ _ _ Hmv Hw') as [?|Hsat]; [done|]. specialize (Hsat d Hd).
  eapply satisfied_through in Hsat; [|done..]. eapply satisfied_through in Hsat; [|done..].
  pose proof (satisfied_finished p b tb Hb Hsat) as Hfin.
  pose proof (f_equal vw_task_status (life_finished _ _ (moved_view _ _ Hm) Hfin)) as Hst. cbn in Hst.
  congruence.
Qed.

Lemma crossed_run p p' a b d :
  CoreInv p -> Crossed p a b d -> rtc program_step p p' -> Crossed p' a b d.
Proof. intros Hp Hc Hs. induction Hs; eauto using step_core, crossed_step. Qed.

(** The guards look at what a replacement depends on, not at what it stands in for. *)
Lemma supersede_crosses p e now at_ms revision i a b d ta tb td :
  CoreInv p -> ae_action e = TaskSupersede i -> tsi_task_ref i = a ->
  tsi_replacement_task_refs i = [b] -> a <> b ->
  pr_tasks p !! a = Some ta -> must_cancel ta = false ->
  pr_tasks p !! b = Some tb -> d ∈ depends_on tb -> ~ working (tk_status tb) ->
  pr_tasks p !! d = Some td -> tk_status td = AtSuperseded -> replacement_task_refs td = [a] ->
  validate_transition p e now = None ->
  Crossed (program_apply e (entity_ref e) revision at_ms p) a b d.
Proof.
  intros Hcore He <- Hr Hne Ha Hquiet Hb Hd Hw Hdd Hds Hdr Hv.
  assert (tk_status ta <> AtSuperseded) as Hopen.
  { unfold validate_transition, validate_by_action, validate_task_supersede in Hv. rewrite He in Hv.
    open_guards. intros Hs. simplify_eq. rewrite Hs in *. set_solver. }
  assert (pr_tasks (program_apply e (entity_ref e) revision at_ms p)
          = alter (supersede_task e i) (tsi_task_ref i) (pr_tasks p)) as Ep
    by (unfold program_apply, apply_action; by rewrite He).
  split; rewrite Ep.
  - exists tb. by rewrite lookup_alter_ne by done.
  - exists td. rewrite lookup_alter_ne by congruence. done.
  - exists (supersede_task e i ta). rewrite lookup_alter_eq, Ha. split; [done|].
    unfold supersede_task. rewrite Hquiet. cbn. done.
Qed.

(** ** Continuations *)

Lemma NoDup_entries {V} (m : gmap string V) : NoDup (btree_entries m).*1.
Proof. rewrite btree_entries_keys. apply NoDup_btree_keys. Qed.

Lemma seed_tasks_lookup source l m k :
  NoDup l.*1 -> seed_tasks source l = Ok m ->
  (forall t', m !! k = Some t' -> exists t, (k, t) ∈ l /\ seed_task source t = Ok t')
  /\ (forall t, (k, t) ∈ l -> exists t', m !! k = Some t' /\ seed_task source t = Ok t').
Proof.
  revert m. induction l as [|[j t] l IH]; intros m Hnd Hm; cbn in *.
  { injection Hm as <-. split; [intros t'; by rewrite lookup_empty|]. intros t ?%elem_of_nil. done. }
  apply NoDup_cons in Hnd as [Hj Hnd]. destruct (seed_task source t) as [u|] eqn:Eu; [|done]. cbn in Hm.
  destruct (seed_tasks source l) as [m1|] eqn:Em; [|done]. cbn in Hm. injection Hm as <-.
  destruct (IH m1 Hnd eq_refl) as [IH1 IH2]. split.
  - intros t' Ht'. apply lookup_insert_Some in Ht' as [[-> ->]|[Hne Ht']].
    + exists t. split; [by left|done].
    + destruct (IH1 t' Ht') as (v & Hv & Hs). exists v. split; [by right|done].
  - intros v Hv. apply elem_of_cons in Hv as [[= -> ->]|Hv].
    + exists u. by rewrite lookup_insert_eq.
    + destruct (IH2 v Hv) as (t' & Ht' & Hs). exists t'. split; [|done].
      rewrite lookup_insert_ne; [done|]. intros ->. apply Hj. by apply (list_elem_of_fmap_2 fst _ _ Hv).
Qed.

Lemma seed_task_ok source t t' :
  TaskOk t -> seed_task source t = Ok t' ->
  TaskOk t' /\ tk_active_attempts t' = ∅ /\ tk_contract t' = tk_contract t /\ claimant t' = None
  /\ (tk_status t = AtAccepted -> tk_status t' = AtAccepted).
Proof.
  intros Hok Hs. unfold seed_task in Hs. cbv zeta in Hs.
  set (u := if unreconciled t then _ else t) in Hs.
  assert (claim_generation u = claim_generation t /\ tk_contract u = tk_contract t
          /\ tk_retirement u = tk_retirement t
          /\ (tk_status u = tk_status t /\ unreconciled t = false \/ tk_status u = AtBlocked)) as (Eg & Ec & Er & Est)
    by (unfold u; destruct (unreconciled t); split_and!; cbn; auto).
  assert (tk_status t = AtAccepted -> tk_status u = AtAccepted) as Hacc.
  { intros Ha. unfold u, unreconciled, is_accepted. rewrite Ha. cbn. by rewrite andb_false_r. }
  destruct (claim_generation u =? u64_max)%N eqn:Eq; [done|]. injection Hs as <-.
  apply N.eqb_neq in Eq. rewrite Eg in *. destruct Hok as [Hp Hf Hfo Hr Hro Hg].
  split_and!; try done. split; cbn; try done; try lia.
  intros Hcancel. destruct Est as [[Est Hun]|Est]; [|congruence].
  exfalso. unfold unreconciled in Hun. rewrite Est in Hcancel. rewrite Hcancel in Hun. cbn in Hun. done.
Qed.

Section Seed.
Context (source seed : AgenticProgramProjection) (cb : ContinuationBinding) (actor : AgentActorBinding).
Context (Hcore : CoreInv source) (Hseed : revision_seed source cb actor = Ok seed).

Lemma seed_inv :
  CoreInv seed /\ pr_status seed = PsOpen
  /\ forall k t, pr_tasks source !! k = Some t -> tk_status t = AtAccepted ->
       exists t', pr_tasks seed !! k = Some t' /\ tk_status t' = AtAccepted /\ claimant t' = None.
Proof.
  unfold revision_seed in Hseed. destruct (continuation_of _ _); [|done]. cbn in Hseed.
  destruct (ok_or _ _); [|done]. cbn in Hseed.
  destruct (seed_tasks _ _) as [tasks|] eqn:Et; [|done]. cbn in Hseed. injection Hseed as <-.
  pose proof (fun k => seed_tasks_lookup _ _ _ k (NoDup_entries _) Et) as Hlook.
  assert (forall k t', tasks !! k = Some t' -> exists t, pr_tasks source !! k = Some t /\ seed_task (program_id source) t = Ok t') as Hfrom.
  { intros k t' (t & Ht & Hs)%(proj1 (Hlook k)). exists t. split; [|done]. by apply elem_of_btree_entries in Ht. }
  split_and!; [|done|].
  - split; [split|]; cbn.
    + intros k t' (t & Ht & Hs)%Hfrom. destruct (seed_task_ok _ _ _ (ci_ok _ Hcore _ _ Ht) Hs) as (_ & _ & -> & _).
      by apply (keyed_tasks _ (ci_keyed _ Hcore)).
    + intros k1 k2 t1 t2 x a1 a2 (t & Ht & Hs)%Hfrom _ Ha _.
      destruct (seed_task_ok _ _ _ (ci_ok _ Hcore _ _ Ht) Hs) as (_ & Ea & _). by rewrite Ea, lookup_empty in Ha.
    + intros k t' (t & Ht & Hs)%Hfrom. by destruct (seed_task_ok _ _ _ (ci_ok _ Hcore _ _ Ht) Hs).
  - intros k t Ht Ha. cbn. destruct (proj2 (Hlook k) t) as (t' & Ht' & Hs); [by apply elem_of_btree_entries|].
    destruct (seed_task_ok _ _ _ (ci_ok _ Hcore _ _ Ht) Hs) as (_ & _ & _ & Hc & Hacc). eauto.
Qed.
End Seed.

(** An open program with an accepted task that nobody holds. *)
Record Barred (p : AgenticProgramProjection) (k : string) : Prop := {
  ba_open : pr_status p = PsOpen;
  ba_task : exists t, pr_tasks p !! k = Some t /\ tk_status t = AtAccepted /\ claimant t = None
}.

Lemma barred_step p p' k : CoreInv p -> Barred p k -> program_step p p' -> Barred p' k.
Proof.
  intros Hcore [Hopen (t & Ht & Ha & Hc)] Hstep. split.
  - destruct Hstep as [e now at_ms revision He Hi Hv Hadm| |]; [|congruence..].
    destruct (is_completion e) eqn:Ec; [|rewrite <-Hopen; apply (action_status e (entity_ref e) revision at_ms p Ec)].
    exfalso. unfold is_completion in Ec. destruct (ae_action e) as [| | | | | | | | | | | | | | | | | |i] eqn:Ea; try done.
    unfold validate_transition, validate_by_action in Hv. rewrite Ea in Hv. unfold validate_complete_request in Hv.
    open_guards. apply fmap_None in Hv.
    destruct (gap_settled p i k t Hv Ht) as [_ [Hr|[_ (c & r & Hcc & _)]]]; [by rewrite Ha in Hr|congruence].
  - destruct (step_grow p p' Hcore Hstep k t Ht) as (t' & Ht' & [_ _ Hv Hf]).
    assert (task_finished (tk_status t) = true) as Hfin by by rewrite Ha.
    pose proof (f_equal vw_task_status (life_finished _ _ Hv Hfin)) as Hst. cbn in Hst.
    destruct (Hf Hfin) as (Ec & _ & _). exists t'. split_and!; [done|congruence|by rewrite Ec].
Qed.

Lemma barred_run p p' k : CoreInv p -> Barred p k -> rtc program_step p p' -> Barred p' k.
Proof. intros Hp Hc Hs. induction Hs; eauto using step_core, barred_step. Qed.

(** What [prepare] opens the successor's journal with. *)
Definition continuation_entry (seed : AgenticProgramProjection) (now : N) : JournalEntry :=
  {| je_event := PeOpened (pr_binding seed) (Some seed); je_created_at_ms := now |}.

Lemma continuation_head source cb actor seed now :
  revision_seed source cb actor = Ok seed ->
  at_head [continuation_entry seed now] (with_revision 1 seed).
Proof.
  intros Hs. assert (exists c, pb_continuation (pr_binding seed) = Some c) as [c Hc].
  { unfold revision_seed in Hs. destruct (continuation_of _ _) as [c|]; [|done]. cbn in Hs.
    destruct (ok_or _ _); [|done]. cbn in Hs. destruct (seed_tasks _ _); [|done]. cbn in Hs.
    injection Hs as <-. by exists c. }
  split; [|done]. unfold project, numbered. cbn. unfold apply_event. cbn.
  by rewrite !String.eqb_refl, Hc.
Qed.
End Faults.
