(* ===== verification/ProgramProperties.v ===== *)
(** * What holds of every program

    The theorems on the walks over the tasks, on the life of a task, on the journal
    and on its conclusion. *)

From S2P Require Import Prelude AgentAction AgentProgram WorkMarket AgentRoster ProgramAuthority.
From S2P Require Import ProgramJournal WorkWalks TaskMachine TaskLife ProgramSafety.
From S2P Require Import ProgramHistory ProgramRoster ProgramCompletion ProgramReplay.
From S2P Require Import ProgramFaults.

(** ** The walks *)

(** C22. C1: whatever the tasks refer to, cycles included, both walks over them end, within
    one level per task, and answer what is meant: a dependency is satisfied when it is
    accepted, or superseded by tasks that are all satisfied; a task depends on another
    along at least one dependency. *)
Theorem task_walks_exact (p : AgenticProgramProjection) (r d : string) (extra : nat) :
  visit_satisfied p (walk_depth p + extra) ∅ r = Done (task_dependency_satisfied p r)
  /\ (task_dependency_satisfied p r = true <-> satisfied p r)
  /\ visit_depends p (walk_depth p + extra) d ∅ r = Done (task_depends_on p r d)
  /\ (task_depends_on p r d = true <-> tc (depends_edge p) r d).
Proof.
  assert (walk_depth p <= walk_depth p + extra) as Hn by lia.
  split_and!; [by apply (visit_satisfied_spec p)|by apply (visit_satisfied_spec p _ r Hn)|
    by apply (visit_depends_spec p)|by apply (visit_depends_spec p _ r d Hn)].
Qed.

(** C23. C1: the worklist that collects what a result artifact integrates ends, and
    returns exactly the accepted tasks that a delivery of the artifact leads to, along
    dependencies of accepted tasks and replacements of superseded ones. *)
Theorem delivery_lineage_exact `{IssueDigest} (p : AgenticProgramProjection) (artifact : string) :
  lineage_loop p (lineage_fuel p artifact)
    {| li_integrated := ∅; li_visited := ∅; li_pending := lineage_start p artifact |}
  = Done (integrated_accepted_tasks p artifact)
  /\ forall x, x ∈ integrated_accepted_tasks p artifact <-> integrates p artifact x.
Proof. apply integrated_accepted_tasks_spec. Qed.

Section Histories.
Context `{IssueDigest} `{UrlDecode} `{ExecutionGrants} `{Sha256} `{ProgramReads}.

(** ** Tasks *)

(** C12. C1: between any two points of a program's history a task follows the machine
    [life_step], keeps the contract it was published with, and once it is accepted,
    withdrawn or superseded keeps its claim, its delivery and its replacements. *)
Theorem task_life_refines j p j' p' k t :
  rtc journal_step [] j -> project j = Ok p ->
  rtc journal_step j j' -> project j' = Ok p' -> pr_tasks p !! k = Some t ->
  exists t', pr_tasks p' !! k = Some t' /\ tk_contract t' = tk_contract t
    /\ rtc life_step (task_view t) (task_view t')
    /\ (task_finished (tk_status t) = true ->
        tk_status t' = tk_status t /\ tk_claim t' = tk_claim t /\ tk_delivery t' = tk_delivery t
        /\ replacement_task_refs t' = replacement_task_refs t).
Proof.
  intros Hj Hp Hrun Hp' Ht. pose proof (wi_core _ (history_work_inv _ _ Hj Hp)) as Hcore.
  destruct (history_program _ _ Hj Hp) as (_ & _ & Hhead).
  destruct (journal_run_program _ _ _ Hhead Hrun) as (q & [Hq _] & Hsteps).
  assert (q = p') as -> by congruence.
  destruct (proj2 (run_grow _ _ Hcore Hsteps) k t Ht) as (t' & Ht' & [_ Hc Hv Hf]).
  exists t'. split_and!; [done..|]. intros Hfin. split; [|by apply Hf].
  apply (f_equal vw_task_status (life_finished _ _ Hv Hfin)).
Qed.

(** C15. C1: no task is claimed, submitted or accepted before its dependencies, which are
    tasks of the program, are satisfied; they stay so. *)
Theorem work_follows_dependencies j p k t d :
  rtc journal_step [] j -> project j = Ok p -> pr_tasks p !! k = Some t -> d ∈ depends_on t ->
  is_Some (pr_tasks p !! d)
  /\ (tk_status t ∈ [AtClaimed; AtSubmitted; AtAccepted] -> satisfied p d).
Proof.
  intros Hj Hp Ht Hd. pose proof (history_work_inv _ _ Hj Hp) as Hinv. split.
  - by eapply wi_closed.
  - intros Hw. by eapply wi_depends.
Qed.


(** C24. C1: a membership that a live attempt was dispatched for is not retired, and a
    retired team has no unfinished task. *)
Theorem retired_scopes_quiet j p :
  rtc journal_step [] j -> project j = Ok p ->
  (forall k t x a, pr_tasks p !! k = Some t -> tk_active_attempts t !! x = Some a ->
     exists m, pr_memberships p !! at_membership_id a = Some m /\ ms_lifecycle m <> MlRetired)
  /\ (forall id team k t, pr_teams p !! id = Some team -> tm_lifecycle team = TlRetired ->
        pr_tasks p !! k = Some t -> team_id t = id -> task_finished (tk_status t) = true).
Proof.
  intros Hj Hp. pose proof (history_roster_inv _ _ Hj Hp) as Hinv. split.
  - intros k t x a Ht Ha. apply (ri_attempts p Hinv). by exists k, t, x.
  - intros id team k t Hteam Hr Ht Hid. by eapply (ri_retired p Hinv).
Qed.

(** ** The conclusion *)


(** ** The journal *)

(** C25. C1: an action that was applied is never applied again: whatever comes under its
    id afterwards leaves the journal alone, and is answered with the entity of the
    first, if actor and payload are the same, and with a conflict otherwise. *)
Theorem action_applied_once j e now at_ms revision entity j1 j2 e' now' at_ms' :
  rtc journal_step [] j ->
  (forall p, current_projection (ae_actor e) j = Ok p -> Admissible p e) ->
  submit_action e now at_ms j = (SubApplied false revision entity, j1) ->
  rtc journal_step j1 j2 ->
  ae_action_id e' = ae_action_id e -> validate_envelope e' = Ok tt ->
  exists p, project j2 = Ok p
    /\ submit_action e' now' at_ms' j2 =
       (if bool_decide (ae_actor e = ae_actor e') && bool_decide (ae_action e = ae_action e')
        then SubApplied true (pr_revision p) entity
        else SubRejected (pr_revision p) "action_id_conflict"
               "action_id already identifies a different actor or payload; use the original request to retry",
        j2).
Proof.
  intros Hj Hadm Hs Hrun Hid He'. destruct (applied_entry _ _ _ _ _ _ _ Hs) as [Hne Ho].
  destruct (journal_run_grow _ _ Hrun) as [more ->].
  destruct (history_head (j1 ++ more)) as [p [Hp _]].
  - etrans; [exact Hj|]. eapply rtc_l; [by eapply js_submit|done].
  - by destruct j1.
  - exists p. split; [done|]. apply replayed; [done| |done]. by rewrite Hid, omap_app, Ho.
Qed.

(** C26. C1: a projection that was kept, in the cache or as a snapshot, and is brought to
    the head by the events after its revision is the projection of the whole journal. *)
Theorem resumed_projection_equal j p j' :
  rtc journal_step [] j -> project j = Ok p -> rtc journal_step j j' ->
  resume_projection p j' = project j' /\ is_ok (project j') = true.
Proof.
  intros Hj Hp Hrun. destruct (history_program _ _ Hj Hp) as (_ & _ & Hhead).
  destruct (journal_run_program _ _ _ Hhead Hrun) as (q & [Hq _] & _).
  destruct (journal_run_grow _ _ Hrun) as [more ->]. split; [by apply resume_at_head|by rewrite Hq].
Qed.

(** ** Two ways to wait forever *)


(** C21. C1: a continuation that inherits an accepted task can never ask for completion:
    the seed keeps the task as accepted but clears its claimant, which the completion
    check asks for, so in every later history the program is open. *)
Theorem continuation_never_completes j source k t cb actor seed now j' p' :
  rtc journal_step [] j -> project j = Ok source ->
  pr_tasks source !! k = Some t -> tk_status t = AtAccepted ->
  revision_seed source cb actor = Ok seed ->
  rtc journal_step [continuation_entry seed now] j' -> project j' = Ok p' ->
  pr_status p' = PsOpen.
Proof.
  intros Hj Hp Ht Ha Hseed Hrun Hp'.
  pose proof (wi_core _ (history_work_inv _ _ Hj Hp)) as Hcore.
  destruct (seed_inv source seed cb actor Hcore Hseed) as (Hcs & Hopen & Hkeep).
  destruct (journal_run_program _ _ _ (continuation_head _ _ _ _ now Hseed) Hrun) as (q & [Hq _] & Hsteps).
  assert (q = p') as -> by congruence.
  assert (CoreInv (with_revision 1 seed)) as Hcs1 by (destruct Hcs as [[] ?]; by split; [split|]).
  eapply ba_open, (barred_run _ _ k Hcs1); [|done]. split; [done|]. by eapply Hkeep.
Qed.

End Histories.
