(* ===== verification/ProgramSamples.v ===== *)
(** * Runs of a program

    Programs that are opened, worked on, concluded and continued, at which the
    theorems of [ProgramProperties] are applied.  A run is a list of actions, each
    of which must be applied, from a journal. *)

From S2P Require Import Prelude Approval AgentAction AgentProgram WorkMarket AgentRoster.
From S2P Require Import ProgramAuthority ProgramJournal WorkWalks TaskMachine TaskLife.
From S2P Require Import ProgramSafety ProgramHistory ProgramRoster ProgramCompletion.
From S2P Require Import ProgramReplay ProgramFaults ProgramProperties.

#[export] Instance sample_issue_digest : IssueDigest := fun task description => task +:+ description.
#[export] Instance sample_url_decode : UrlDecode := fun s => Some s.
#[export] Instance sample_grants : ExecutionGrants := {
  load_graph _ := None;
  read_packet _ := None
}.
#[export] Instance sample_sha256 : Sha256 := fun s => s.
#[export] Instance sample_program_reads : ProgramReads := {
  read_goal _ := Ok None;
  resolve_artifact := None
}.

(** ** Running actions *)

Definition admissible_now (p : AgenticProgramProjection) (e : AgentActionEnvelope) : bool :=
  match ae_action e, entity_ref e with
  | TaskPublish _, Some id => is_none (pr_tasks p !! id)
  | TeamCreate _, Some id => is_none (pr_teams p !! id)
  | ArtifactCommit _, Some id => is_none (pr_artifacts p !! id)
  | TaskAttemptDispatch i, _ =>
      negb (any_value (fun t => is_some (tk_active_attempts t !! tdi_execution_id i)) (pr_tasks p))
  | _, _ => true
  end
  && (if is_managed (ab_kind (ae_actor e))
      then bool_decide (ab_agent_id (ae_actor e) = Some (ab_actor_id (ae_actor e))) else true).

Lemma is_none_true {A} (o : option A) : is_none o = true -> o = None.
Proof. by destruct o. Qed.

Lemma admissible_now_ok p e : admissible_now p e = true -> Admissible p e.
Proof.
  unfold admissible_now. intros [He Ha]%andb_prop. split.
  - unfold fresh_entity. destruct (ae_action e); try done; intros id Hid; rewrite Hid in He;
      by apply is_none_true.
  - unfold fresh_execution. destruct (ae_action e); try done. intros k t Ht.
    apply negb_true_iff in He. apply any_value_false with (k := k) (v := t) in He; [|done].
    unfold is_some in He. apply negb_false_iff in He. by apply is_none_true.
  - unfold bound_actor. intros Hm. rewrite Hm in Ha. by apply bool_decide_eq_true in Ha.
Qed.

Definition run_action (e : AgentActionEnvelope) (j : list JournalEntry) : option (list JournalEntry) :=
  match current_projection (ae_actor e) j with
  | Ok p =>
      if admissible_now p e then
        match submit_action e 1000 1000 j with
        | (SubApplied false _ _, j') => Some j'
        | _ => None
        end
      else None
  | Err _ => None
  end.

Lemma admissible_at e j p :
  current_projection (ae_actor e) j = Ok p -> admissible_now p e = true ->
  forall q, current_projection (ae_actor e) j = Ok q -> Admissible q e.
Proof. intros Hp Ha q Hq. assert (q = p) as -> by congruence. by apply admissible_now_ok. Qed.

Fixpoint run_actions (l : list AgentActionEnvelope) (j : list JournalEntry) : option (list JournalEntry) :=
  match l with
  | [] => Some j
  | e :: l => j ← run_action e j; run_actions l j
  end.

Lemma run_actions_history l : forall j j', run_actions l j = Some j' -> rtc journal_step j j'.
Proof.
  induction l as [|e l IH]; intros j j'; cbn; [by intros [= ->]|].
  unfold run_action. destruct (current_projection (ae_actor e) j) as [p|] eqn:Ep; [|done].
  destruct (admissible_now p e) eqn:Ea; [|done].
  destruct (submit_action e 1000 1000 j) as [r j1] eqn:Es. destruct r as [[] ? ?|?|? ? ?|?]; try done. cbn.
  intros Hrun. eapply rtc_l; [|by apply IH]. eapply (js_submit _ e 1000 1000); [|exact Es].
  intros q Hq. assert (q = p) as -> by congruence. by apply admissible_now_ok.
Qed.

Definition projected (j : list JournalEntry) : AgenticProgramProjection :=
  match project j with
  | Ok p => p
  | Err _ => opened_program
      {| pb_program_id := ""; pb_objective_id := ""; pb_session_id := ""; pb_turn_id := "";
         pb_root_execution_id := None; pb_required_team_count := 0; pb_objective_summary := "";
         pb_model_lease := ""; pb_permission_ceiling := PmReadOnly; pb_resource_scopes := [];
         pb_continuation := None |}
  end.

Definition task_at (p : AgenticProgramProjection) (k : string) : AgenticTaskProjection :=
  default (published_task "" {| tpi_team_ref := ""; tpi_title := ""; tpi_objective := "";
    tpi_acceptance := ""; tpi_acceptance_checks := []; tpi_required_capabilities := [];
    tpi_depends_on := []; tpi_obligation_refs := []; tpi_purpose := PurposeDelivery;
    tpi_execution_requirements := []; tpi_expertise_hints := [] |}) (pr_tasks p !! k).

Lemma projected_ok j : is_ok (project j) = true -> project j = Ok (projected j).
Proof. unfold projected. by destruct (project j). Qed.

Lemma task_at_ok p k : is_some (pr_tasks p !! k) = true -> pr_tasks p !! k = Some (task_at p k).
Proof. unfold task_at. by destruct (pr_tasks p !! k). Qed.

Ltac by_projection := apply projected_ok; vm_compute; reflexivity.
Ltac by_task := apply task_at_ok; vm_compute; reflexivity.

(** ** The actors and their actions *)

Definition by_kind (kind : AgentActorKind) (actor : string) (execution team agent : option string) :
  AgentActorBinding :=
  {| ab_objective_id := "o"; ab_program_id := "p"; ab_session_id := "s"; ab_turn_id := "t";
     ab_root_execution_id := Some "x"; ab_required_team_count := 1; ab_objective_summary := "report";
     ab_model_lease := "model"; ab_permission_ceiling := Some PmReadOnly; ab_resource_scopes := [];
     ab_actor_id := actor; ab_kind := kind; ab_execution_id := execution; ab_team_id := team;
     ab_agent_id := agent |}.

Definition act (id : string) (actor : AgentActorBinding) (a : AgentAction) : AgentActionEnvelope :=
  {| ae_action_id := id; ae_actor := actor; ae_expected_revision := None; ae_action := a |}.

Definition the_root : AgentActorBinding := by_kind AkRoot "root" None None None.
Definition the_supervisor : AgentActorBinding := by_kind AkSupervisor "sup" None None None.
Definition the_team : string := "team:p|root|a1|team_create".
Definition the_worker : string := "agent:p|root|a2|agent_invite".
Definition the_reviewer : string := "agent:p|root|a3|agent_invite".
Definition the_artifact : string := "artifact:p|agent:p|root|a2|agent_".

Definition agent (name execution : string) : AgentActorBinding :=
  by_kind AkAgent name (Some execution) (Some the_team) (Some name).

Definition publish (id : string) (depends : list string) : AgentActionEnvelope :=
  act id the_root (TaskPublish
    {| tpi_team_ref := the_team; tpi_title := "T"; tpi_objective := "O"; tpi_acceptance := "A";
       tpi_acceptance_checks := []; tpi_required_capabilities := []; tpi_depends_on := depends;
       tpi_obligation_refs := []; tpi_purpose := PurposeDelivery; tpi_execution_requirements := [];
       tpi_expertise_hints := [] |}).

Definition create_team (id : string) : AgentActionEnvelope :=
  act id the_root (TeamCreate {| tci_name := "N"; tci_mission := "M"; tci_objective := None |}).

Definition invite (id : string) : AgentActionEnvelope :=
  act id the_root (AgentInvite
    {| aii_team_ref := the_team; aii_role := "R"; aii_mission := "M"; aii_required_capabilities := [];
       aii_existing_agent_ref := None; aii_definition_ref := None; aii_model_profile_ref := None;
       aii_expertise_hints := []; aii_execution_requirements := [] |}).

Definition supersede (id task replacement : string) : AgentActionEnvelope :=
  act id the_root (TaskSupersede
    {| tsi_task_ref := task; tsi_replacement_task_refs := [replacement]; tsi_reason := "R";
       tsi_evidence_refs := ["tool://e"] |}).

Definition leave (id member : string) : AgentActionEnvelope :=
  act id the_root (MembershipUpdate
    {| mui_agent_ref := member; mui_team_ref := the_team; mui_operation := MoLeave;
       mui_reason_ref := None |}).

Definition the_task : string := "task:p|root|a4|task_publish".

Definition claim_it : AgentActionEnvelope :=
  act "a5" (agent the_worker "x1") (TaskClaim {| tcl_task_ref := the_task; tcl_reason := None |}).

Definition submit_it : AgentActionEnvelope :=
  act "a7" (agent the_worker "x1") (TaskSubmit
    {| tsu_task_ref := the_task; tsu_artifact_refs := [the_artifact];
       tsu_evidence_refs := ["artifact://c"]; tsu_unresolved := [] |}).

Definition accept_it : AgentActionEnvelope :=
  act "a8" (agent the_reviewer "x2") (TaskReview
    {| tri_task_ref := the_task; tri_decision := RvAccept; tri_reason := "R";
       tri_evidence_refs := ["tool://e"] |}).

Definition request_it : AgentActionEnvelope :=
  act "a9" the_root (ObjectiveCompleteRequest
    {| oci_result_refs := [the_artifact]; oci_evidence_refs := ["tool://e"]; oci_unresolved := [] |}).

Definition dispatch_it : AgentActionEnvelope :=
  act "b3" the_supervisor (TaskAttemptDispatch
    {| tdi_task_ref := "task:p|root|b1|task_publish"; tdi_execution_id := "x3";
       tdi_agent_ref := the_worker; tdi_membership_id := membership_id the_worker the_team;
       tdi_mode := AmExecute; tdi_generation := 0 |}).

Definition retire_team_2 : AgentActionEnvelope :=
  act "b6" the_root (TeamUpdate
    {| tui_team_ref := "team:p|root|b2|team_create"; tui_mission_ref := None;
       tui_request_retire := true; tui_reason_ref := None |}).

(** ** A program from its first action to its verdict *)

Definition published_run : list AgentActionEnvelope :=
  [create_team "a1"; invite "a2"; invite "a3"; publish "a4" []].

Definition accepted_run : list AgentActionEnvelope :=
  [act "a6" (agent the_worker "x1") (ArtifactCommit
     {| aci_content_ref := "artifact://c"; aci_kind := "report"; aci_title := "T"; aci_relates_to := [] |});
   submit_it; accept_it].

Definition published_journal : list JournalEntry := default [] (run_actions published_run []).
Definition claimed_journal : list JournalEntry :=
  default [] (run_actions [claim_it] published_journal).
Definition accepted_journal : list JournalEntry :=
  default [] (run_actions accepted_run claimed_journal).
Definition requested_journal : list JournalEntry :=
  default [] (run_actions [request_it] accepted_journal).

(** The goal of the root, satisfied by the event that concludes it. *)
Definition satisfied_goal : BoundGoal :=
  {| bo_id := "goal:x"; bo_session_id := "s"; bo_revision := 2; bo_completion := GoSatisfied;
     bo_evidence_refs := ["tool://e"; "execution_graph:x"];
     bo_execution_binding :=
       Some {| gb_objective_id := "o"; gb_session_id := "s"; gb_turn_id := "t";
               gb_root_execution_id := "x"; gb_agentic_program_id := "p" |};
     bo_terminal := Some {| ot_kind := OtSatisfied; ot_terminal_fence := "agentic-objective:p:request:10";
                            ot_authority_revision := 10 |} |}.

Definition preparing : GoalStore :=
  {| gs_get _ := Ok None;
     gs_prepare _ := Ok {| pp_goal := satisfied_goal; pp_gaps := []; pp_sources_current := true |} |}.

(** The goal was concluded, and the program not told before a restart. *)
Definition concluded_already : GoalStore :=
  {| gs_get _ := Ok (Some satisfied_goal); gs_prepare _ := Err "concluded" |}.

Definition verified_journal : list JournalEntry :=
  match reconcile_completion_request preparing 2000 requested_journal with
  | Ok j => j
  | Err _ => []
  end.

Example bound_verdict :
  reconcile_completion_request concluded_already 2000 requested_journal = Ok verified_journal.
Proof. vm_compute. reflexivity. Qed.

Lemma published_history : rtc journal_step [] published_journal.
Proof. apply (run_actions_history published_run). vm_compute. reflexivity. Qed.

Lemma claimed_history : rtc journal_step [] claimed_journal.
Proof.
  etrans; [apply published_history|]. apply (run_actions_history [claim_it]). vm_compute. reflexivity.
Qed.

Lemma claimed_accepted : rtc journal_step claimed_journal accepted_journal.
Proof. apply (run_actions_history accepted_run). vm_compute. reflexivity. Qed.

Lemma accepted_history : rtc journal_step [] accepted_journal.
Proof. etrans; [apply claimed_history|apply claimed_accepted]. Qed.

Lemma verified_history : rtc journal_step [] verified_journal.
Proof.
  etrans; [apply accepted_history|]. etrans.
  - apply (run_actions_history [request_it]). vm_compute. reflexivity.
  - apply rtc_once. apply (js_conclude _ preparing 2000). vm_compute. reflexivity.
Qed.

Lemma task_life_refines_witness :
  exists t', pr_tasks (projected accepted_journal) !! the_task = Some t'
    /\ tk_status t' = AtAccepted
    /\ rtc life_step (view AtClaimed 1 0 0) (task_view t').
Proof.
  destruct (task_life_refines claimed_journal (projected claimed_journal) accepted_journal
    (projected accepted_journal) the_task (task_at (projected claimed_journal) the_task))
    as (t' & Ht' & _ & Hv & _).
  - exact claimed_history.
  - by_projection.
  - exact claimed_accepted.
  - by_projection.
  - by_task.
  - exists t'. split; [exact Ht'|]. split.
    + assert (t' = task_at (projected accepted_journal) the_task) as ->
        by (unfold task_at; rewrite Ht'; reflexivity).
      vm_compute. reflexivity.
    + exact Hv.
Defined.



Lemma action_applied_once_witness :
  (submit_action claim_it 5000 5000 accepted_journal).1
  = SubApplied true (pr_revision (projected accepted_journal)) None.
Proof.
  destruct (action_applied_once published_journal claim_it 1000 1000 6 None claimed_journal accepted_journal
    claim_it 5000 5000) as (p & Hp & Hs).
  - exact published_history.
  - apply (admissible_at _ _ (projected published_journal)); vm_compute; reflexivity.
  - vm_compute. reflexivity.
  - exact claimed_accepted.
  - reflexivity.
  - vm_compute. reflexivity.
  - rewrite Hs. rewrite bool_decide_eq_true_2, bool_decide_eq_true_2 by reflexivity.
    unfold projected. rewrite Hp. reflexivity.
Defined.

Lemma resumed_projection_equal_witness :
  resume_projection (projected claimed_journal) accepted_journal = Ok (projected accepted_journal).
Proof.
  destruct (resumed_projection_equal claimed_journal (projected claimed_journal) accepted_journal)
    as [He _].
  - exact claimed_history.
  - by_projection.
  - exact claimed_accepted.
  - rewrite He. by_projection.
Defined.

(** ** Work that waits, and scopes that drain *)

Definition second_task : string := "task:p|root|b1|task_publish".

(** A second task that depends on the first, dispatched to the worker, who then
    leaves with the reviewer; and a second team, retired at once. *)
Definition draining_run : list AgentActionEnvelope :=
  [publish "b1" [the_task]; create_team "b2"; dispatch_it; leave "b4" the_worker;
   leave "b5" the_reviewer; retire_team_2].

Definition draining_journal : list JournalEntry :=
  default [] (run_actions draining_run accepted_journal).

Lemma draining_history : rtc journal_step [] draining_journal.
Proof.
  etrans; [apply accepted_history|]. apply (run_actions_history draining_run). vm_compute. reflexivity.
Qed.

Lemma retired_scopes_quiet_witness :
  ms_lifecycle <$> pr_memberships (projected draining_journal) !! membership_id the_reviewer the_team
  = Some MlRetired
  /\ tm_lifecycle <$> pr_teams (projected draining_journal) !! "team:p|root|b2|team_create"%string
     = Some TlRetired
  /\ exists m, pr_memberships (projected draining_journal) !! membership_id the_worker the_team = Some m
       /\ ms_lifecycle m <> MlRetired.
Proof.
  split; [vm_compute; reflexivity|]. split; [vm_compute; reflexivity|].
  destruct (retired_scopes_quiet draining_journal (projected draining_journal)) as [Hlive _].
  - exact draining_history.
  - by_projection.
  - apply (Hlive second_task (task_at (projected draining_journal) second_task) "x3"%string
      {| at_execution_id := "x3"; at_agent_id := the_worker;
         at_membership_id := membership_id the_worker the_team; at_mode := AmExecute;
         at_generation := 0 |}); vm_compute; reflexivity.
Defined.

(** The second task is claimed before its dependency is looked at again. *)
Definition second_claim_run : list AgentActionEnvelope :=
  [publish "b1" [the_task];
   act "b7" (agent the_worker "x4") (TaskClaim {| tcl_task_ref := second_task; tcl_reason := None |})].

Definition second_claim_journal : list JournalEntry :=
  default [] (run_actions second_claim_run accepted_journal).

Lemma second_claim_history : rtc journal_step [] second_claim_journal.
Proof.
  etrans; [apply accepted_history|]. apply (run_actions_history second_claim_run). vm_compute. reflexivity.
Qed.

Lemma work_follows_dependencies_witness :
  tk_status (task_at (projected second_claim_journal) second_task) = AtClaimed
  /\ satisfied (projected second_claim_journal) the_task.
Proof.
  split; [vm_compute; reflexivity|].
  destruct (work_follows_dependencies second_claim_journal (projected second_claim_journal) second_task
    (task_at (projected second_claim_journal) second_task) the_task) as [_ Hsat].
  - exact second_claim_history.
  - by_projection.
  - by_task.
  - vm_compute. apply list_elem_of_here.
  - apply Hsat. vm_compute. apply list_elem_of_here.
Defined.

(** ** Waiting forever *)

Definition task_d : string := "task:p|root|c2|task_publish".
Definition task_a : string := "task:p|root|c3|task_publish".
Definition task_b : string := "task:p|root|c4|task_publish".

Definition crossing_run : list AgentActionEnvelope :=
  [create_team "a1"; publish "c2" []; publish "c3" []; publish "c4" [task_d];
   supersede "c5" task_d task_a].

Definition crossing_journal : list JournalEntry := default [] (run_actions crossing_run []).
Definition crossed_journal : list JournalEntry :=
  default [] (run_actions [supersede "c6" task_a task_b] crossing_journal).


Definition the_continuation : ContinuationBinding :=
  {| cb_source_root_id := "x"; cb_authorization_revision := 1; cb_binding_digest := "d" |}.

Definition the_seed : AgenticProgramProjection :=
  match revision_seed (projected accepted_journal) the_continuation the_root with
  | Ok seed => seed
  | Err _ => projected accepted_journal
  end.

Lemma the_seed_ok : revision_seed (projected accepted_journal) the_continuation the_root = Ok the_seed.
Proof.
  assert (is_ok (revision_seed (projected accepted_journal) the_continuation the_root) = true) as Hok
    by (vm_compute; reflexivity).
  unfold the_seed. by destruct (revision_seed _ _ _).
Qed.

Definition continued_journal : list JournalEntry :=
  default [] (run_actions [create_team "d1"] [continuation_entry the_seed 3000]).

Lemma continuation_never_completes_witness :
  pr_status (projected continued_journal) = PsOpen.
Proof.
  apply (continuation_never_completes accepted_journal (projected accepted_journal) the_task
    (task_at (projected accepted_journal) the_task) the_continuation the_root the_seed 3000
    continued_journal).
  - exact accepted_history.
  - by_projection.
  - by_task.
  - vm_compute. reflexivity.
  - exact the_seed_ok.
  - apply (run_actions_history [create_team "d1"]). vm_compute. reflexivity.
  - by_projection.
Defined.
